(* ===== verification/_CoqProject ===== *)
-Q . S2P
Prelude.v
StrNum.v
MyTime.v
MyTimeStr.v
SqlTime.v
Queue.v
RbTree.v
RbTreeInv.v
RbTreeSearch.v
Base64.v
NetPack.v
Decimal.v
DecimalValue.v
DecimalAdd.v
DecimalSub.v
DecimalMul.v
DecimalInt.v
DecimalBin.v
DecimalBinSpec.v
DecimalBinRead.v
DecimalRound.v
DecimalRoundSpec.v
DecimalStr.v
DecimalDiv.v
DecimalDivSpec.v
DecimalShift.v
DecimalExamples.v
HashTable.v
HashChains.v
HashOps.v
HashMap.v
ThrLock.v
ThrLockSafe.v
ThrLockOrder.v
ThrLockThreads.v
MdlLock.v
MdlContext.v
MdlDeadlock.v
Gtid.v
BinlogState.v
SlaveState.v
GtidConn.v
GtidWait.v
