(* ===== verification/Prelude.v ===== *)
(** * A verification development for the EryDB / MariaDB 10.1 server

    EryDB is a fork of the MariaDB server.  This library models several parts of
    the server that the whole of it relies on, as executable definitions that
    follow the C and C++ sources under src/ function by function, and proves
    what makes each part correct.  Where a function has an error return, the
    model has it too; allocations and handler calls that can fail are arguments
    of the operations, and the theorems hold for every way they fail unless
    they say otherwise.

    ** The parts and their files

    Integers and text:
    - [StrNum]: decimal conversion of 64-bit integers (strings/int2str.c,
      strings/longlong2str.c, strings/my_strtoll10.c).
    - [Base64]: the encoder and the stream decoder (mysys/base64.c).
    - [NetPack]: the packed lengths of the protocol (sql-common/pack.c).
    Decimal numbers (strings/decimal.c, include/decimal.h):
    - [Decimal]: decimal_t, its words of nine digits, addition, subtraction and
      comparison; [DecimalValue], [DecimalAdd], [DecimalSub]: the value of a
      number, and that these compute with values.
    - [DecimalMul]: multiplication.  [DecimalInt]: conversion from and to 64-bit
      integers.
    - [DecimalBin]: the binary format of columns and keys (decimal2bin,
      bin2decimal, the byte order of include/myisampack.h); [DecimalBinSpec],
      [DecimalBinRead]: its order, and reading it back.
    - [DecimalRound]: decimal_round and decimal_shift; [DecimalRoundSpec]: what
      rounding gives; [DecimalShift]: what shifting gives.
    - [DecimalStr]: decimal2string and internal_str2dec.
    - [DecimalDiv]: do_div_mod, division with remainder; [DecimalDivSpec]: the
      quotient and the remainder.
    - [DecimalExamples]: all of these on numbers, also at the edges.
    Dates and times:
    - [MyTime]: MYSQL_TIME, day numbers, validity, packing into integers,
      numbers as dates (sql-common/my_time.c, include/my_time.h).
    - [MyTimeStr]: str_to_datetime, str_to_time and the printers
      (sql-common/my_time.c).
    - [SqlTime]: calendar and interval arithmetic, weeks, differences, comparison
      (sql/sql_time.cc).
    Containers:
    - [Queue]: binary heaps with stored positions (mysys/queues.c).
    - [HashTable]: hash tables that grow by one bucket at a time (mysys/hash.c);
      [HashChains], [HashOps]: their chains and what each operation does to them;
      [HashMap]: that a table is a finite map, for any collation.
    - [RbTree]: red-black trees (mysys/tree.c); [RbTreeInv]: balance and order
      under inserts and deletes; [RbTreeSearch]: searches, positions, walks.
    Table locks:
    - [ThrLock]: the locks of tables and the requests for several of them
      (mysys/thr_lock.c); [ThrLockSafe]: the invariant of one lock under all
      operations; [ThrLockOrder]: the order of the requests, several locks at a
      time; [ThrLockThreads]: any number of threads that lock several tables.
    Metadata locks (sql/mdl.h, sql/mdl.cc):
    - [MdlLock]: one lock object, class MDL_lock: compatibility, the ticket
      lists, granting and rescheduling.
    - [MdlContext]: keys, tickets, wait slots, the map of locks, and the
      operations of class MDL_context as steps of any number of threads.
    - [MdlDeadlock]: the deadlock detector on the wait-for graph of MdlContext.
    Replication positions (sql/rpl_gtid.h, sql/rpl_gtid.cc):
    - [Gtid]: GTIDs, their text, and the interface [Containers]: the order in
      which hash tables and sorts give their records to the GTID code.
    - [BinlogState]: rpl_binlog_state, the GTIDs of the binlog, and its file.
    - [SlaveState]: rpl_slave_state, the applied GTIDs, the table
      mysql.gtid_slave_pos and the filter for duplicate GTIDs.
    - [GtidConn]: slave_connection_state, the position a slave asks for.
    - [GtidWait]: gtid_waiting, MASTER_GTID_WAIT, over Queue and SlaveState.
    This file holds the machine integers, the tactics, the hints and the list
    lemmas the others share.

    ** How the state of the code appears

    A struct is a record with the same members, an enum an inductive type, a
    C integer a [Z] with the wrap-around of its width written out ([u32], [u64],
    [s64]; [long] has 64 bits).  Text is the list of its character codes; a
    pointer into it is the rest of the list, [p == end] the empty list.  In the
    code that uses a HASH it is a finite map ([gmap]), as HashMap shows it to
    be; where the code walks through its records the order is one the class
    [Containers] leaves open.  Intrusive lists of THR_LOCK are lists; the array
    of links to the parents in a tree is a path of frames.  A pointer to a record of a hash
    (last_gtid) is the key of the record, a pointer to a thread or connection a
    number.  The buffer of a decimal is the list of all its words, also of those
    that are not in use; a read or a write outside of it, or of a text buffer,
    is [None].  A function that changes its arguments returns them.  Code under a
    mutex is one step; code that gives the mutex up in a wait is several, with
    the steps of other threads between them: the relations [mdl_step]
    (MdlContext), [binlog_step] (BinlogState), [dup_step] (SlaveState),
    [wait_step] (GtidWait), [lock_reachable] (ThrLockSafe) and [world_step]
    (ThrLockThreads).  Where the code can corrupt its own lists, as a client
    that disconnects in the moment its metadata lock is granted makes it do, the
    step leads to [None].  The rows of mysql.gtid_slave_pos are a map, together
    with the one that a crash leaves; whether its engine has transactions is an
    argument.  Logging, statistics, performance-schema calls and
    debug code are left out; the build is the one without DBUG and without
    Galera (WITH_WSREP).

    ** What the theorems show

    - Metadata locks: as long as the lists are not corrupt (and only the
      disconnect named above corrupts them) conflicting locks are never granted
      to two contexts and no ticket is lost or forgotten by a wait; acquire_locks
      is all or nothing, whichever of its allocations fails;
      upgrades and savepoint rollbacks change exactly what they should; after
      rescheduling no waiter that could be granted is left, and strong locks
      cannot starve weak ones.  The deadlock search
      reports a deadlock exactly when the starting context is on a cycle of the
      wait-for graph or at the head of a chain as long as its depth, and names
      a cheapest context on it as the victim; repeated, it ends with the
      starting context on no cycle, or chosen.
    - Table locks: the locks two owners have on a table are compatible, whatever
      the order of requests, releases, aborts, timeouts and changes of type;
      every waiter is granted its lock as the holders release theirs; threads
      that lock their tables with [thr_multi_lock], in the order of
      [sort_locks], cannot wait for each other in a circle, and get
      all of them or none; who has a lock does not wait for a weaker one.  The
      rules that the requests keep to are [op_ok] of ThrLockSafe.
    - Hash tables: with unique keys a table answers as a finite map of the keys
      up to the collation, and iteration gives each record once, through every
      split and merge of its buckets; a changed key is moved to its new bucket.
      Keys are not empty there: for an empty key the code reads on.
    - Red-black trees: inserts, deletes and searches keep the order and the
      balance and answer as a sorted list does, with the memory limit that
      empties a tree and with failing allocations; searches by every flag find the
      element they should, positions step through the tree in order, and the
      array of MAX_TREE_HEIGHT links is long enough.
    - Replication positions: GTID lists are parsed exactly as they are printed;
      new GTIDs are higher than all before; strict mode keeps order; the state
      file, the Gtid_list event and the position texts carry the state from one
      server run or server to the next (for the text of a slave's position an
      error is given when its hash or its array cannot be allocated, but none
      when an append to the text fails); after any error of the engine or of an
      allocation the position in the table, also the one that a crash leaves, is
      the old or the new one, and the memory agrees with it or is behind; with
      several masters one connection at a time applies a domain and no GTID is
      applied twice; a waiter for a position is always woken, and does not spin,
      while the wait queue is in order.
    - Dates and times: what is printed parses back, what is accepted is in range
      (with zero months and days where the flags allow them),
      day numbers, weeks and intervals agree with the calendar.
    - Decimal numbers: sums, differences and products are those of the values,
      with the error the code gives when there is no room; a quotient is cut off
      after the words of the result, which are all that were asked for unless
      there is no room, and a remainder exact, so the guesses of
      words of the quotient, made without normalizing the divisor, are never
      wrong by more than the code corrects, nothing overflows and the temporary
      buffer is long enough; rounding with HALF_UP and TRUNCATE gives the next
      number with the digits asked for; shifting multiplies by a power of ten
      exactly when there is room, and leaves the number alone when it has too
      many digits before the point; the bytes of the binary format compare
      as the numbers do, and these and the text are read back to the same value;
      conversion to integers saturates exactly at their limits.
    - Numbers, text and heaps: conversion is exact with the documented errors;
      base64 and packed lengths read back what was written and stay in their
      buffers; heap operations keep order and contents.
    Lemmas named in the project's findings show inputs for which the code does
    not do what it means to; they are stated next to the definitions concerned.

    ** Bounds and fuel

    Loops that are not structural take fuel.  Text loops take the length of the
    text plus one, and every turn consumes a character (for the GTID lists
    [gtid_parser_shorter]); a heap loop takes the number of elements or the
    index it halves; [process_loop] takes the number of waiters plus one; the
    deadlock search takes the search depth of the code, MAX_SEARCH_DEPTH; a
    turn of wait_for_gtid takes [TURNS] = 2, which [wait_turn_ends] shows to be
    enough.  The loops along a chain of a hash table take the number of records,
    those that balance a tree twice the length of the path, tree_insert one
    repetition after the reset, the base64 decoder a turn per character; the
    theorems about these functions show that they return.  Conversion of an integer
    to a decimal takes 3 words and the scan for the last digit of a word 9
    places, what 64 bits and a word have.  The number printers take 20 digits, enough for 64 bits.  Counters
    of threads or records are bounded by 2^32 where the code counts them in 32
    bits, as hypotheses.

    ** Not modelled

    Dynamic arrays and sorts of mysys are lists, and the storage engine under the
    table mysql.gtid_slave_pos is a map with error points: their own code is
    memory layout and I/O.  Of the trees, tree_record_pos estimates a position
    in floating point; of the decimals, the conversions from and to double, and
    operands that share a buffer with the result other than in decimal_round and
    decimal_shift, are left out; decimal_shift that has to drop digits is
    modelled, and the theorem on it is for the exact case.  Of the table locks,
    the debug checks and printing are left out, and requests of type
    TL_WRITE_DELAYED, which are queued by a call that succeeds, have no part in
    the theorems on several locks.  Collations other than the binary one appear
    in HashTable by the law that equal keys have equal hash values, and in
    HashMap by what they take as equal.  The
    lock-free hash of MDL locks is a map; its memory ordering is not modelled.
    Time zones (my_system_gmt_sec), the date format parser, warnings to the
    client, and construction and destruction of objects are left out.  The SQL
    parser, optimizer and executor, the storage engines, the binlog files and
    events, the network, plugins, clients and bundled libraries are not
    modelled: they are I/O, generated or third-party code, or depend on class
    hierarchies too large to model whole. *)
From Stdlib Require Import ZArith Lia List Bool.
From stdpp Require Import base tactics list gmap.

Open Scope Z_scope.

(** ** Machine integers (LP64: [uint] is 32 bits, [ulong] and [ulonglong]
    are 64 bits, [long] and [longlong] are signed 64 bits) *)

Definition u32 (x : Z) : Z := x mod 2 ^ 32.
Definition u64 (x : Z) : Z := x mod 2 ^ 64.
Definition s64 (x : Z) : Z := (x + 2 ^ 63) mod 2 ^ 64 - 2 ^ 63.

Definition s32 (x : Z) : Z := (x + 2 ^ 31) mod 2 ^ 32 - 2 ^ 31.

Definition is_u32 (x : Z) : Prop := 0 <= x < 2 ^ 32.
Definition is_u64 (x : Z) : Prop := 0 <= x < 2 ^ 64.
Definition is_s64 (x : Z) : Prop := - 2 ^ 63 <= x < 2 ^ 63.

Lemma u32_small x : 0 <= x < 2 ^ 32 -> u32 x = x.
Proof. intros H. unfold u32. apply Z.mod_small. lia. Qed.

Lemma u64_small x : 0 <= x < 2 ^ 64 -> u64 x = x.
Proof. intros H. unfold u64. apply Z.mod_small. lia. Qed.

Lemma s64_small x : - 2 ^ 63 <= x < 2 ^ 63 -> s64 x = x.
Proof. intros H. unfold s64. rewrite Z.mod_small; lia. Qed.

(** The C test [flags & MASK]. *)
Definition has_flag (flags mask : Z) : bool := negb (Z.land flags mask =? 0).

Declare Scope c_scope.
Delimit Scope c_scope with c.
Notation "flags '&?' mask" := (has_flag flags mask) (at level 35, no associativity) : c_scope.

Lemma u64_is_u64 x : is_u64 (u64 x).
Proof. unfold is_u64, u64. apply Z.mod_pos_bound. lia. Qed.

Lemma u64_s64 v : is_u64 v -> u64 (s64 v) = v.
Proof. unfold is_u64, u64, s64. intros H. Z.to_euclidean_division_equations. lia. Qed.

(** Facts about widths, for [auto]. *)
Create HintDb erydb.
#[export] Hint Resolve u64_is_u64 u64_s64 : erydb.

(** ** Tactics *)

(** Linear arithmetic with division and modulo by constants. *)
Ltac divlia := Z.to_euclidean_division_equations; lia.

(** The same with natural numbers, which are first turned into integers. *)
Ltac nlia := zify; Z.to_euclidean_division_equations; lia.

(** Case analysis on the boolean comparisons of the goal. *)
Ltac zcases :=
  repeat match goal with
  | |- context [Z.eqb ?a ?b] => destruct (Z.eqb_spec a b)
  | |- context [Z.ltb ?a ?b] => destruct (Z.ltb_spec a b)
  | |- context [Z.leb ?a ?b] => destruct (Z.leb_spec a b)
  | |- context [Z.gtb ?a ?b] => rewrite (Z.gtb_ltb a b)
  | |- context [Z.geb ?a ?b] => rewrite (Z.geb_leb a b)
  end.

(** The same for natural numbers. *)
Ltac ncases :=
  repeat match goal with
  | |- context [Nat.ltb ?a ?b] => destruct (Nat.ltb_spec a b)
  | |- context [Nat.eqb ?a ?b] => destruct (Nat.eqb_spec a b)
  end.

(** ** Lists *)

Lemma nodup_map_inj {A B} (f : A -> B) l a b :
  NoDup (map f l) -> a ∈ l -> b ∈ l -> f a = f b -> a = b.
Proof.
  intros Hn Ha Hb E. apply list_elem_of_lookup in Ha as [i Hi]. apply list_elem_of_lookup in Hb as [j Hj].
  change (map f l) with (f <$> l) in Hn.
  assert (i = j) as ->; [|congruence].
  apply (NoDup_lookup (f <$> l) i j (f a)); [done| |]; rewrite list_lookup_fmap, ?Hi, ?Hj; simpl;
    congruence.
Qed.

Lemma nodup_map_filter {A B} (f : A -> B) (P : A -> Prop) `{!forall x, Decision (P x)} l :
  NoDup (map f l) -> NoDup (map f (filter P l)).
Proof.
  intros Hn. eapply sublist_NoDup; [exact Hn|].
  change (f <$> filter P l `sublist_of` f <$> l). f_equiv. apply sublist_filter.
Qed.

Lemma elem_of_list_map {A B} (f : A -> B) l y : y ∈ map f l <-> exists x, y = f x /\ x ∈ l.
Proof. apply (list_elem_of_fmap f). Qed.

Lemma list_filter_keep {A} (P : A -> Prop) `{!forall x, Decision (P x)} (l : list A) :
  (forall x, x ∈ l -> P x) -> filter P l = l.
Proof.
  induction l as [|x l IH]; intros Hall; [done|].
  rewrite filter_cons_True by (apply Hall, elem_of_cons; by left).
  rewrite IH; [done|]. intros y Hy. apply Hall, elem_of_cons. by right.
Qed.

(** Two lists, each with a new part in front, and what is new in them. *)
Lemma nodup_new_parts {A} (a b c d e : list A) x :
  NoDup ((a ++ b) ++ (c ++ d) ++ e) -> x ∈ a ++ c -> x ∉ b ++ d ++ e.
Proof.
  intros Hn Hx. assert ((a ++ b) ++ (c ++ d) ++ e ≡ₚ (a ++ c) ++ b ++ d ++ e) as P.
  { rewrite <- !app_assoc. f_equiv. apply Permutation_app_swap_app. }
  rewrite P in Hn. apply list.NoDup_app in Hn as (_ & Hn & _). by apply Hn.
Qed.

Lemma pair_eq_snd {A B} (p : A * B) y : snd p = y -> p = (fst p, y).
Proof. destruct p. simpl. congruence. Qed.

Lemma forallb_exists_false {A} (f : A -> bool) (l : list A) :
  forallb f l = false -> exists x, x ∈ l /\ f x = false.
Proof.
  induction l as [|x l IH]; cbn; [done|]. destruct (f x) eqn:E; cbn.
  - intros (y & Hy & Ey)%IH. exists y. split; [apply elem_of_cons; by right|done].
  - intros _. exists x. split; [apply elem_of_cons; by left|done].
Qed.

Lemma omap_ext_in {A B} (f g : A -> option B) (l : list A) :
  (forall x, x ∈ l -> f x = g x) -> omap f l = omap g l.
Proof.
  induction l as [|x l IH]; intros H; [done|]. cbn.
  rewrite (H x) by (apply elem_of_cons; by left).
  rewrite IH by (intros y Hy; apply H, elem_of_cons; by right). done.
Qed.

(** The values of a map. *)
Lemma elem_of_map_values {A} (m : gmap Z A) (x : A) :
  x ∈ (map_to_list m).*2 <-> exists k, m !! k = Some x.
Proof.
  rewrite list_elem_of_fmap. split.
  - intros ([k y] & -> & H%elem_of_map_to_list). eauto.
  - intros [k Hk]. exists (k, x). by rewrite elem_of_map_to_list.
Qed.

(** [memcmp] of the C library, up to the sign of its result. *)
Fixpoint memcmp (a b : list Z) (n : nat) : Z :=
  match n, a, b with
  | S n, x :: a', y :: b' => if x =? y then memcmp a' b' n else x - y
  | _, _, _ => 0
  end.

Lemma memcmp_zero a b n : memcmp a b n = 0 -> take n a = take n b \/ (length a < n \/ length b < n)%nat.
Proof.
  revert a b. induction n as [|n IH]; intros a b H; [by left|].
  destruct a as [|x a], b as [|y b]; simpl in *; [by left|lia|lia|].
  destruct (Z.eqb_spec x y) as [->|]; [|lia]. destruct (IH a b H) as [->|]; [by left|lia].
Qed.

Lemma memcmp_refl l : memcmp l l (length l) = 0.
Proof. induction l as [|x l IH]; simpl; [done|by rewrite Z.eqb_refl]. Qed.

Lemma filter_none {A} (P : A -> Prop) `{!forall x, Decision (P x)} (xs : list A) :
  (forall x, x ∈ xs -> ~ P x) -> filter P xs = [].
Proof.
  induction xs as [|x xs IH]; intros Hx; [done|]. rewrite filter_cons_False by (apply Hx, elem_of_cons; by left).
  apply IH. intros y Hy. apply Hx, elem_of_cons. by right.
Qed.

(** ** Integers in memory: [int2store], [int3store], ..., and [uint2korr], ... *)

Fixpoint le_bytes (n : nat) (v : Z) : list Z :=
  match n with O => [] | S n => v mod 256 :: le_bytes n (v / 256) end.

Fixpoint le_value (l : list Z) : Z :=
  match l with [] => 0 | x :: l => x + 256 * le_value l end.

Lemma le_value_bytes n v : le_value (le_bytes n v) = v mod 256 ^ Z.of_nat n.
Proof.
  revert v. induction n as [|n IH]; intros v; [by rewrite Z.mod_1_r|]. cbn [le_bytes le_value].
  rewrite IH, Nat2Z.inj_succ, Z.pow_succ_r by lia. rewrite Z.rem_mul_r by lia. done.
Qed.

Lemma le_bytes_length n v : length (le_bytes n v) = n.
Proof. revert v. induction n as [|n IH]; intros v; [done|]. cbn. by rewrite IH. Qed.
