(* ===== verification/StrNum.v ===== *)
(** * Integers as decimal text: [strings/int2str.c], [strings/my_strtoll10.c]

    A character is its code in [0, 255]; a [char *] with a known end is the
    list of the bytes it points at.  On LP64 [longlong10_to_str] is
    [int10_to_str] ([include/m_string.h]). *)
From S2P Require Import Prelude.
From Stdlib Require Import ZArith Lia List Bool.
From stdpp Require Import base tactics list.
Open Scope Z_scope.

Definition chr_0 : Z := 48.
Definition chr_minus : Z := 45.
Definition chr_plus : Z := 43.
Definition chr_space : Z := 32.
Definition chr_tab : Z := 9.

(** ** Printing *)

(** The [while (val != 0)] loop, writing digits downwards in the buffer; a
    64-bit value has at most 20 digits. *)
Fixpoint int10_loop (fuel : nat) (val : Z) (acc : list Z) : list Z :=
  match fuel with
  | O => acc
  | S fuel =>
    if val =? 0 then acc
    else let new_val := Z.quot val 10 in
         int10_loop fuel new_val ((chr_0 + (val - new_val * 10)) :: acc)
  end.

Definition int10_to_str (val radix : Z) : list Z :=
  let '(sign, uval) :=
    if (radix <? 0) && (val <? 0) then ([chr_minus], u64 (0 - u64 val)) else ([], u64 val) in
  let new_val := s64 (uval / 10) in
  let d := chr_0 + u64 (uval - u64 new_val * 10) in
  sign ++ int10_loop 20 new_val [d].

Definition longlong10_to_str := int10_to_str.

(** ** Parsing *)

Definition MAX_NEGATIVE_NUMBER : Z := 9223372036854775808.
Definition ULONGLONG_MAX : Z := 2 ^ 64 - 1.
Definition LONGLONG_MIN : Z := - 2 ^ 63.
Definition INIT_CNT : nat := 9.
Definition LFACTOR : Z := 1000000000.
Definition LFACTOR1 : Z := 10000000000.
Definition LFACTOR2 : Z := 100000000000.
Definition lfactor : list Z :=
  [1; 10; 100; 1000; 10000; 100000; 1000000; 10000000; 100000000].
Definition MY_ERRNO_EDOM : Z := 33.
Definition MY_ERRNO_ERANGE : Z := 34.

(** [(c= ( *s-'0')) > 9] with [c] a [uchar]. *)
Definition digit_of (c : Z) : Z := (c - chr_0) mod 256.
Definition not_digit (c : Z) : bool := digit_of c >? 9.

(** Reads digits while there are any, at most [n] of them: the accumulated
    value, what is left, and how many were read. *)
Fixpoint read_digits (n : nat) (acc : Z) (s : list Z) : Z * list Z * nat :=
  match n, s with
  | S n, c :: s' =>
    if not_digit c then (acc, s, O)
    else let '(v, r, k) := read_digits n (acc * 10 + digit_of c) s' in (v, r, S k)
  | _, _ => (acc, s, O)
  end.

Fixpoint skip_blanks (s : list Z) : list Z :=
  match s with
  | c :: s' => if (c =? chr_space) || (c =? chr_tab) then skip_blanks s' else s
  | [] => []
  end.

Fixpoint skip_zeros (s : list Z) : list Z :=
  match s with
  | c :: s' => if c =? chr_0 then skip_zeros s' else s
  | [] => []
  end.

(** The result: value ([longlong]), [*endptr] (the bytes from there to the
    original end), [*error]. *)
Definition strtoll_result : Type := Z * list Z * Z.

(** [overflow:] *)
Definition strtoll_overflow (negative : bool) (rest : list Z) : strtoll_result :=
  (if negative then LONGLONG_MIN else s64 ULONGLONG_MAX, rest, MY_ERRNO_ERANGE).

(** From the third block of digits on; [s] is not empty. *)
Definition strtoll_tail (negative : bool) (i j : Z) (s : list Z) (error : Z) : strtoll_result :=
  let '(cutoff, cutoff2, cutoff3) :=
    if negative
    then (MAX_NEGATIVE_NUMBER / LFACTOR2, MAX_NEGATIVE_NUMBER mod LFACTOR2 / 100,
          MAX_NEGATIVE_NUMBER mod 100)
    else (ULONGLONG_MAX / LFACTOR2, ULONGLONG_MAX mod LFACTOR2 / 100, ULONGLONG_MAX mod 100) in
  let end3 := u64 (i * LFACTOR + j) in
  match s with
  | [] => (s64 (if negative then - s64 end3 else end3), s, error)
  | c :: s =>
    if not_digit c then (s64 (if negative then - s64 end3 else end3), c :: s, error)
    else
      let k := digit_of c in
      let end4 :=
        let li := u64 (i * LFACTOR1 + j * 10 + k) in
        if negative then
          if li >? MAX_NEGATIVE_NUMBER then strtoll_overflow negative s
          else (s64 (- s64 li), s, error)
        else (s64 li, s, error) in
      match s with
      | [] => end4
      | c :: s' =>
        if not_digit c then end4
        else
          let k := k * 10 + digit_of c in
          let more := match s' with [] => false | c :: _ => negb (not_digit c) end in
          if more then strtoll_overflow negative s'
          else if (i >? cutoff) ||
                  ((i =? cutoff) && ((j >? cutoff2) || ((j =? cutoff2) && (k >? cutoff3))))
          then strtoll_overflow negative s'
          else (s64 (u64 (i * LFACTOR2 + j * 100 + k)), s', error)
      end
  end.

(** With the first digits in [i] (as many of the nine as there are) and [s]
    at the character after them. *)
Definition strtoll_body (negative : bool) (i : Z) (full : bool) (s : list Z) (error : Z)
  : strtoll_result :=
  let end_i := s64 (if negative then - i else i) in
  if negb full then (end_i, s, error)
  else match s with
  | [] => (end_i, s, error)
  | _ :: _ =>
    let '(j, s', n) := read_digits INIT_CNT 0 s in
    if (n <? INIT_CNT)%nat then
      let li := u64 (i * nth n lfactor 0 + j) in
      (s64 (if negative then - s64 li else li), s', error)
    else strtoll_tail negative i j s' error
  end.

Definition my_strtoll10 (nptr : list Z) : strtoll_result :=
  let no_conv : strtoll_result := (0, nptr, MY_ERRNO_EDOM) in
  match skip_blanks nptr with
  | [] => no_conv
  | c :: s =>
    let '(negative, error, s) :=
      if c =? chr_minus then (true, -1, s)
      else if c =? chr_plus then (false, 0, s) else (false, 0, c :: s) in
    match s with
    | [] => no_conv
    | c :: s' =>
      if c =? chr_0 then
        let s := skip_zeros s' in
        match s with
        | [] => (0, s, error)
        | _ :: _ =>
          let '(i, s, n) := read_digits INIT_CNT 0 s in
          strtoll_body negative i (n =? INIT_CNT)%nat s error
        end
      else if not_digit c then no_conv
      else
        let '(i, s, n) := read_digits (INIT_CNT - 1) (digit_of c) s' in
        strtoll_body negative i (n =? INIT_CNT - 1)%nat s error
    end
  end.

(** ** Decimal numerals *)

Definition is_digit (c : Z) : Prop := 48 <= c <= 57.
Definition dec_acc (acc : Z) (ds : list Z) : Z :=
  fold_left (fun a c => a * 10 + (c - 48)) ds acc.
Definition dec_value (ds : list Z) : Z := dec_acc 0 ds.

(** A numeral stops where the input ends or a non-digit byte follows. *)
Definition stops (rest : list Z) : Prop :=
  match rest with [] => True | c :: _ => not_digit c = true end.

Lemma digit_of_digit c : is_digit c -> digit_of c = c - 48 /\ not_digit c = false.
Proof.
  unfold is_digit, not_digit, digit_of, chr_0. intros H.
  rewrite Z.mod_small by lia. lia.
Qed.

Lemma dec_acc_app acc a b : dec_acc acc (a ++ b) = dec_acc (dec_acc acc a) b.
Proof. apply fold_left_app. Qed.

Lemma dec_acc_linear acc ds : dec_acc acc ds = acc * 10 ^ Z.of_nat (length ds) + dec_value ds.
Proof.
  unfold dec_value. revert acc. induction ds as [|c ds IH]; intros acc; simpl length; [simpl; lia|].
  change (dec_acc acc (c :: ds)) with (dec_acc (acc * 10 + (c - 48)) ds).
  change (dec_acc 0 (c :: ds)) with (dec_acc (0 * 10 + (c - 48)) ds).
  rewrite (IH (acc * 10 + _)), (IH (0 * 10 + _)), Nat2Z.inj_succ, Z.pow_succ_r by lia. lia.
Qed.

Lemma dec_value_app a b :
  dec_value (a ++ b) = dec_value a * 10 ^ Z.of_nat (length b) + dec_value b.
Proof. unfold dec_value at 1. rewrite dec_acc_app. apply dec_acc_linear. Qed.

Lemma dec_value_bounds ds : Forall is_digit ds -> 0 <= dec_value ds < 10 ^ Z.of_nat (length ds).
Proof.
  induction ds as [|c ds IH] using rev_ind; intros H; [by vm_compute|].
  apply Forall_app in H as [H1 H2]. apply Forall_cons in H2 as [Hc _].
  rewrite dec_value_app, length_app, Nat2Z.inj_add, Z.pow_add_r by lia.
  change (dec_value [c]) with (c - 48). simpl length. change (10 ^ Z.of_nat 1) with 10.
  specialize (IH H1). unfold is_digit in Hc. lia.
Qed.

Lemma read_digits_cons n acc c s :
  not_digit c = false ->
  read_digits (S n) acc (c :: s) =
  let '(v, r, k) := read_digits n (acc * 10 + digit_of c) s in (v, r, S k).
Proof. intros H. cbn [read_digits]. by rewrite H. Qed.

Lemma read_digits_app n acc ds rest :
  Forall is_digit ds -> (length ds <= n)%nat -> ((length ds < n)%nat -> stops rest) ->
  read_digits n acc (ds ++ rest) = (dec_acc acc ds, rest, length ds).
Proof.
  revert n acc. induction ds as [|c ds IH]; intros n acc Hd Hl Hs; simpl in *.
  - destruct n as [|n]; [by destruct rest|].
    destruct rest as [|c r]; [done|]. simpl in *. rewrite Hs by lia. done.
  - apply Forall_cons in Hd as [Hc Hd]. destruct n as [|n]; [lia|].
    destruct (digit_of_digit c Hc) as [E1 E2]. simpl. rewrite E2, E1.
    rewrite IH by (auto; intros; try apply Hs; lia). done.
Qed.

(** The numeral is at least nine digits longer than what [n] reads. *)
Lemma read_digits_split n acc ds rest :
  Forall is_digit ds -> (n <= length ds)%nat ->
  read_digits n acc (ds ++ rest) = (dec_acc acc (take n ds), drop n ds ++ rest, n).
Proof.
  intros Hd Hl. rewrite <- (take_drop n ds) at 1. rewrite <- app_assoc.
  rewrite read_digits_app.
  - rewrite length_take, Nat.min_l by lia. done.
  - by apply Forall_take.
  - rewrite length_take. lia.
  - rewrite length_take. lia.
Qed.

(** ** [my_strtoll10] reads a decimal numeral *)

Lemma strtoll_tail_numeral i j ds rest :
  Forall is_digit ds -> stops rest -> 10 ^ 8 <= i < 10 ^ 9 -> 0 <= j < 10 ^ 9 ->
  let v := (i * 10 ^ 9 + j) * 10 ^ Z.of_nat (length ds) + dec_value ds in
  (v < 2 ^ 64 -> strtoll_tail false i j (ds ++ rest) 0 = (s64 v, rest, 0)) /\
  (2 ^ 64 <= v -> exists r, strtoll_tail false i j (ds ++ rest) 0 = (s64 ULONGLONG_MAX, r, MY_ERRNO_ERANGE)).
Proof.
  intros Hd Hs Hi Hj v. unfold strtoll_tail.
  destruct ds as [|c1 ds]; [|apply Forall_cons in Hd as [H1 Hd]; destruct (digit_of_digit c1 H1) as [E1 N1]].
  - assert (v = i * 10 ^ 9 + j) as Ev by (subst v; simpl length; change (dec_value []) with 0; lia).
    rewrite Ev. split; [intros _|lia].
    unfold LFACTOR. rewrite u64_small by lia.
    destruct rest as [|c r]; simpl in *; [|rewrite Hs]; do 3 f_equal; lia.
  - cbn [app]; cbv beta iota. rewrite N1, E1. unfold is_digit in H1.
    destruct ds as [|c2 ds]; [|apply Forall_cons in Hd as [H2 Hd]; destruct (digit_of_digit c2 H2) as [E2 N2]].
    + assert (v = (i * 10 ^ 9 + j) * 10 + (c1 - 48)) as Ev by (subst v; simpl length; change (dec_value [c1]) with (c1 - 48); lia).
      rewrite Ev. split; [intros _|lia].
      unfold LFACTOR1. rewrite u64_small by lia.
      destruct rest as [|c r]; simpl in *; [|rewrite Hs]; do 3 f_equal; lia.
    + cbn [app]; cbv beta iota. rewrite N2, E2. unfold is_digit in H2.
      assert (v = (i * 10 ^ 9 + j) * 10 ^ Z.of_nat (length (c1 :: c2 :: ds)) + dec_value ([c1; c2] ++ ds)) as Ev by done.
      rewrite dec_value_app in Ev. change (dec_value [c1; c2]) with ((0 * 10 + (c1 - 48)) * 10 + (c2 - 48)) in Ev.
      destruct ds as [|c3 ds]; [|apply Forall_cons in Hd as [H3 Hd]; destruct (digit_of_digit c3 H3) as [E3 N3]].
      * simpl length in Ev. change (dec_value []) with 0 in Ev.
        change (10 ^ Z.of_nat 0) with 1 in Ev. change (10 ^ Z.of_nat 2) with 100 in Ev.
        assert (match [] ++ rest with [] => false | c :: _ => negb (not_digit c) end = false) as ->.
        { destruct rest; simpl in *; [done|]. by rewrite Hs. }
        unfold LFACTOR2, ULONGLONG_MAX, strtoll_overflow.
        change ((2 ^ 64 - 1) / 100000000000) with 184467440.
        change ((2 ^ 64 - 1) mod 100000000000 / 100) with 737095516.
        change ((2 ^ 64 - 1) mod 100) with 15.
        match goal with |- context [if ?b then _ else _] => destruct b eqn:Eb end.
        -- split; [lia|]. intros _. eexists. done.
        -- split; [|lia]. intros _. rewrite u64_small by lia. do 3 f_equal. lia.
      * cbn [app]; cbv beta iota. rewrite N3. simpl. split; [|intros _; by eexists].
        simpl length in Ev. rewrite !Nat2Z.inj_succ, !Z.pow_succ_r in Ev by lia.
        assert (0 < 10 ^ Z.of_nat (length ds)) by (apply Z.pow_pos_nonneg; lia).
        assert (Forall is_digit (c3 :: ds)) as Hall by (by constructor).
        apply dec_value_bounds in Hall. intros Hlt. exfalso. clear -Ev H Hall Hlt Hi Hj H1 H2.
        assert (10 ^ 8 * 10 ^ 9 * 1000 <= (i * 10 ^ 9 + j) * (10 * (10 * (10 * 10 ^ Z.of_nat (length ds))))) by nia.
        nia.
Qed.

Definition no_lead_zero (ds : list Z) : Prop :=
  match ds with [] => True | c :: _ => c <> 48 end.

Lemma dec_value_lead c ds :
  is_digit c -> c <> 48 -> Forall is_digit ds ->
  10 ^ Z.of_nat (length ds) <= dec_value (c :: ds).
Proof.
  intros Hc Hn Hd. change (c :: ds) with ([c] ++ ds). rewrite dec_value_app.
  change (dec_value [c]) with (c - 48). unfold is_digit in Hc.
  pose proof (dec_value_bounds ds Hd). nia.
Qed.

Lemma lfactor_pow n : (n < 9)%nat -> nth n lfactor 0 = 10 ^ Z.of_nat n.
Proof. intros H. do 9 (destruct n as [|n]; [reflexivity|]). lia. Qed.

(** What the reader must return for a numeral of value [v]. *)
Definition numeral_result (v : Z) (rest : list Z) (r : strtoll_result) : Prop :=
  (v < 2 ^ 64 -> r = (s64 v, rest, 0)) /\
  (2 ^ 64 <= v -> exists r', r = (s64 ULONGLONG_MAX, r', MY_ERRNO_ERANGE)).

Lemma numeral_result_small v rest r :
  v < 2 ^ 64 -> r = (s64 v, rest, 0) -> numeral_result v rest r.
Proof. intros. split; [done|lia]. Qed.

Lemma strtoll_body_long ds rest :
  Forall is_digit ds -> stops rest -> no_lead_zero ds -> (9 < length ds)%nat ->
  numeral_result (dec_value ds) rest
    (strtoll_body false (dec_acc 0 (take 9 ds)) true (drop 9 ds ++ rest) 0).
Proof.
  intros Hd Hs Hz Hl. rewrite <- (take_drop 9 ds) at 1.
  assert (Ht : Forall is_digit (take 9 ds)) by by apply Forall_take.
  assert (Hr : Forall is_digit (drop 9 ds)) by by apply Forall_drop.
  assert (Hlt : length (take 9 ds) = 9%nat) by (rewrite length_take; lia).
  assert (Hlr : (0 < length (drop 9 ds))%nat) by (rewrite length_drop; lia).
  fold (dec_value (take 9 ds)). rewrite dec_value_app.
  assert (Hi : 10 ^ 8 <= dec_value (take 9 ds) < 10 ^ 9).
  { pose proof (dec_value_bounds _ Ht) as B. rewrite Hlt in B. split; [|apply B].
    destruct ds as [|c ds]; simpl in Hlt; [lia|]. simpl take in *. apply Forall_cons in Ht as [Hc Ht].
    pose proof (dec_value_lead c (take 8 ds) Hc Hz Ht) as B2.
    replace (length (take 8 ds)) with 8%nat in B2 by (simpl in Hlt; lia). apply B2. }
  generalize dependent (dec_value (take 9 ds)). intros i Hi.
  generalize dependent (drop 9 ds). clear ds Hd Hz Hl Ht Hlt. intros ds Hd Hl.
  unfold strtoll_body. simpl negb. cbv beta iota.
  destruct (ds ++ rest) as [|c0 r0] eqn:E0; [destruct ds; simpl in *; [lia|done]|].
  rewrite <- E0. clear E0.
  destruct (decide (length ds < 9)%nat) as [Hlt|Hge].
  - rewrite read_digits_app by (try done; unfold INIT_CNT; lia).
    rewrite (proj2 (Nat.ltb_lt _ _)) by (unfold INIT_CNT; lia).
    rewrite lfactor_pow by lia. fold (dec_value ds).
    pose proof (dec_value_bounds ds Hd).
    assert (10 ^ Z.of_nat (length ds) <= 10 ^ 8) by (apply Z.pow_le_mono_r; lia).
    apply numeral_result_small; [nia|]. rewrite u64_small by nia. done.
  - rewrite read_digits_split by (try done; unfold INIT_CNT; lia).
    rewrite (proj2 (Nat.ltb_ge _ _)) by (unfold INIT_CNT; lia).
    assert (Ht : Forall is_digit (take 9 ds)) by by apply Forall_take.
    assert (Hr : Forall is_digit (drop 9 ds)) by by apply Forall_drop.
    assert (Hlt9 : length (take 9 ds) = 9%nat) by (rewrite length_take; lia).
    pose proof (dec_value_bounds _ Ht) as Bj. rewrite Hlt9 in Bj.
    pose proof (strtoll_tail_numeral i (dec_value (take 9 ds)) (drop 9 ds) rest Hr Hs Hi Bj) as T.
    simpl in T. unfold numeral_result.
    replace (i * 10 ^ Z.of_nat (length ds) + dec_value ds) with
      ((i * 10 ^ 9 + dec_value (take 9 ds)) * 10 ^ Z.of_nat (length (drop 9 ds)) + dec_value (drop 9 ds)); [done|].
    rewrite <- (take_drop 9 ds) at 4 5. rewrite dec_value_app, length_app, Hlt9, Nat2Z.inj_add, Z.pow_add_r by lia.
    change (Z.of_nat 9) with 9. lia.
Qed.

Lemma strtoll_body_numeral ds rest :
  Forall is_digit ds -> stops rest -> no_lead_zero ds ->
  let '(i, s, n) := read_digits INIT_CNT 0 (ds ++ rest) in
  numeral_result (dec_value ds) rest (strtoll_body false i (n =? INIT_CNT)%nat s 0).
Proof.
  intros Hd Hs Hz. destruct (decide (length ds <= 9)%nat) as [Hle|Hgt].
  - rewrite read_digits_app by (try done; unfold INIT_CNT; lia). fold (dec_value ds).
    pose proof (dec_value_bounds ds Hd) as B.
    assert (10 ^ Z.of_nat (length ds) <= 10 ^ 9) by (apply Z.pow_le_mono_r; lia).
    apply numeral_result_small; [lia|]. unfold strtoll_body.
    destruct (Nat.eqb_spec (length ds) INIT_CNT); [|done]. simpl.
    destruct rest as [|c r]; [done|]. simpl in *. rewrite Hs. simpl.
    rewrite Z.mul_1_r, Z.add_0_r, u64_small by lia. done.
  - rewrite read_digits_split by (try done; unfold INIT_CNT; lia).
    apply strtoll_body_long; (done || lia).
Qed.

Lemma skip_zeros_app ds rest :
  Forall is_digit ds -> stops rest ->
  exists ds', skip_zeros (ds ++ rest) = ds' ++ rest /\ Forall is_digit ds' /\
    no_lead_zero ds' /\ dec_value ds' = dec_value ds.
Proof.
  intros Hd Hs. induction ds as [|c ds IH]; simpl.
  - exists []. destruct rest as [|c r]; simpl in *; [done|].
    destruct (Z.eqb_spec c chr_0) as [->|]; [done|]. done.
  - apply Forall_cons in Hd as [Hc Hd]. destruct (Z.eqb_spec c chr_0) as [->|Hne].
    + destruct (IH Hd) as (ds' & H1 & H2 & H3 & H4). exists ds'. by rewrite H4.
    + exists (c :: ds). split; [done|]. split; [by constructor|]. done.
Qed.

Lemma strtoll10_numeral ds rest :
  ds <> [] -> Forall is_digit ds -> stops rest ->
  numeral_result (dec_value ds) rest (my_strtoll10 (ds ++ rest)).
Proof.
  intros Hne Hd Hs. destruct ds as [|c ds]; [done|]. clear Hne.
  pose proof Hd as Hd0. apply Forall_cons in Hd as [Hc Hd].
  destruct (digit_of_digit c Hc) as [E N].
  unfold my_strtoll10. rewrite <- app_comm_cons.
  assert (skip_blanks (c :: ds ++ rest) = c :: ds ++ rest) as ->.
  { simpl. unfold is_digit, chr_space, chr_tab in *. destruct (_ || _) eqn:B; [lia|done]. }
  unfold is_digit in Hc.
  rewrite (proj2 (Z.eqb_neq c chr_minus)), (proj2 (Z.eqb_neq c chr_plus))
    by (unfold chr_minus, chr_plus; lia).
  destruct (Z.eqb_spec c chr_0) as [->|Hn].
  - destruct (skip_zeros_app ds rest Hd Hs) as (ds' & -> & H2 & H3 & H4).
    change (dec_value (chr_0 :: ds)) with (dec_value ds). rewrite <- H4.
    pose proof (strtoll_body_numeral ds' rest H2 Hs H3) as B.
    revert B. destruct (ds' ++ rest) eqn:Ea; [intros _|by destruct (read_digits _ _ _) as [[??]?]].
    apply app_eq_nil in Ea as [-> ->]. split; [done|]. vm_compute; congruence.
  - rewrite N.
    pose proof (strtoll_body_numeral (c :: ds) rest Hd0 Hs Hn) as B.
    rewrite <- app_comm_cons in B. unfold INIT_CNT in *.
    rewrite (read_digits_cons 8 0 c _ N) in B. change (0 * 10 + digit_of c) with (digit_of c) in B.
    change (9 - 1)%nat with 8%nat.
    destruct (read_digits 8 (digit_of c) (ds ++ rest)) as [[i s] n]. exact B.
Qed.

(** ** [int10_to_str] prints one *)

Lemma int10_loop_spec fuel v acc :
  0 <= v < 10 ^ Z.of_nat fuel -> Forall is_digit acc ->
  exists ds, int10_loop fuel v acc = ds ++ acc /\ Forall is_digit ds /\ dec_value ds = v.
Proof.
  revert v acc. induction fuel as [|f IH]; intros v acc Hv Ha; simpl.
  - exists []. split; [done|]. split; [done|]. change (dec_value []) with 0. simpl in Hv. lia.
  - destruct (Z.eqb_spec v 0) as [->|Hn]; [by exists []|].
    rewrite Z.quot_div_nonneg by lia.
    rewrite Nat2Z.inj_succ, Z.pow_succ_r in Hv by lia.
    assert (is_digit (chr_0 + (v - v / 10 * 10))) by (unfold is_digit, chr_0; divlia).
    destruct (IH (v / 10) ((chr_0 + (v - v / 10 * 10)) :: acc)) as (ds & H1 & H2 & H3).
    { split; [divlia|]. apply Z.div_lt_upper_bound; lia. }
    { by constructor. }
    exists (ds ++ [chr_0 + (v - v / 10 * 10)]). rewrite H1, <- app_assoc. split; [done|].
    split; [apply Forall_app; split; [done|by apply Forall_singleton]|].
    rewrite dec_value_app, H3.
    unfold dec_value, dec_acc, chr_0; simpl. change (10 ^ Z.of_nat 1) with 10. lia.
Qed.

Lemma int10_to_str_unsigned v : 0 <= v < 2 ^ 64 ->
  int10_to_str (s64 v) 10 <> [] /\ Forall is_digit (int10_to_str (s64 v) 10) /\
  dec_value (int10_to_str (s64 v) 10) = v.
Proof.
  intros Hv. unfold int10_to_str. change (10 <? 0) with false. cbv beta iota zeta delta [andb].
  assert (u64 (s64 v) = v) as ->.
  { unfold u64, s64. destruct (Z.lt_ge_cases v (2 ^ 63)).
    - rewrite (Z.mod_small (v + 2 ^ 63)) by lia.
      replace (v + 2 ^ 63 - 2 ^ 63) with v by lia. apply Z.mod_small; lia.
    - rewrite <- (Z.mod_unique (v + 2 ^ 63) (2 ^ 64) 1 (v - 2 ^ 63)) by lia.
      rewrite <- (Z.mod_unique (v - 2 ^ 63 - 2 ^ 63) (2 ^ 64) (-1) v) by lia. done. }
  rewrite (s64_small (v / 10)), (u64_small (v / 10)) by divlia.
  rewrite (u64_small (v - v / 10 * 10)) by divlia.
  destruct (int10_loop_spec 20 (v / 10) [chr_0 + (v - v / 10 * 10)]) as (ds & H1 & H2 & H3).
  { change (10 ^ Z.of_nat 20) with 100000000000000000000. divlia. }
  { apply Forall_singleton. unfold is_digit, chr_0. divlia. }
  rewrite app_nil_l, H1. split; [intros E; apply app_eq_nil in E as [_ E]; discriminate|].
  split; [apply Forall_app; split; [done|]; apply Forall_singleton; unfold is_digit, chr_0; divlia|].
  rewrite dec_value_app, H3. unfold dec_value, dec_acc, chr_0; simpl.
  change (10 ^ Z.of_nat 1) with 10. lia.
Qed.

Lemma strtoll10_print v rest :
  0 <= v < 2 ^ 64 -> stops rest ->
  my_strtoll10 (longlong10_to_str (s64 v) 10 ++ rest) = (s64 v, rest, 0).
Proof.
  intros Hv Hs. unfold longlong10_to_str.
  destruct (int10_to_str_unsigned v Hv) as (H1 & H2 & H3).
  destruct (strtoll10_numeral _ rest H1 H2 Hs) as [T _]. rewrite H3 in T. apply T. lia.
Qed.

(** [my_strtoll10] on a decimal numeral (followed by the end of the text
    or a non-digit): below 2^64 the result is the value of the numeral as a
    64-bit pattern, the position after it and no error; from 2^64 on it is
    [ULONGLONG_MAX] with ERANGE.  Leading zeros and the three blocks of
    digits the code accumulates separately make no difference. *)
Theorem my_strtoll10_numeral (ds rest : list Z) :
  ds <> [] -> Forall is_digit ds -> stops rest ->
  (dec_value ds < 2 ^ 64 -> my_strtoll10 (ds ++ rest) = (s64 (dec_value ds), rest, 0)) /\
  (2 ^ 64 <= dec_value ds ->
     exists r, my_strtoll10 (ds ++ rest) = (s64 ULONGLONG_MAX, r, MY_ERRNO_ERANGE)).
Proof. apply strtoll10_numeral. Qed.

Lemma my_strtoll10_numeral_witness :
  my_strtoll10 ([48; 52; 50] ++ [45]) = (42, [45], 0).
Proof.
  apply (my_strtoll10_numeral [48; 52; 50] [45]); [discriminate| |reflexivity|reflexivity].
  repeat (apply Forall_cons; split; [unfold is_digit; lia|]). apply Forall_nil. done.
Defined.

(** Printing an unsigned 64-bit value with [longlong10_to_str] (radix 10)
    and reading it with [my_strtoll10] gives the value back and stops right
    after it. *)
Theorem my_strtoll10_of_longlong10_to_str (v : Z) (rest : list Z) :
  0 <= v < 2 ^ 64 -> stops rest ->
  my_strtoll10 (longlong10_to_str (s64 v) 10 ++ rest) = (s64 v, rest, 0).
Proof. apply strtoll10_print. Qed.

Lemma my_strtoll10_of_longlong10_to_str_witness :
  my_strtoll10 (longlong10_to_str (s64 18446744073709551615) 10 ++ [44])
  = (s64 18446744073709551615, [44], 0).
Proof. apply my_strtoll10_of_longlong10_to_str; [lia|reflexivity]. Defined.

(** ** The end pointer stays within the text *)

Lemma read_digits_shorter n acc s : (length (read_digits n acc s).1.2 <= length s)%nat.
Proof.
  revert acc s. induction n as [|n IH]; intros acc [|c s]; simpl; try lia.
  destruct (not_digit c); simpl; [lia|]. specialize (IH (acc * 10 + digit_of c) s).
  destruct (read_digits n _ s) as [[v r] k]. simpl in *. lia.
Qed.

Lemma skip_blanks_shorter s : (length (skip_blanks s) <= length s)%nat.
Proof. induction s as [|c s IH]; simpl; [lia|]. destruct (_ || _); simpl; lia. Qed.

Lemma skip_zeros_shorter s : (length (skip_zeros s) <= length s)%nat.
Proof. induction s as [|c s IH]; simpl; [lia|]. destruct (c =? chr_0); simpl; lia. Qed.

Lemma strtoll_tail_shorter negative i j s error :
  (length (strtoll_tail negative i j s error).1.2 <= length s)%nat.
Proof.
  unfold strtoll_tail, strtoll_overflow. destruct (if negative then _ else _) as [[c1 c2] c3].
  destruct s as [|c [|d s]]; repeat case_match; simpl; lia.
Qed.

Lemma strtoll_body_shorter negative i full s error :
  (length (strtoll_body negative i full s error).1.2 <= length s)%nat.
Proof.
  unfold strtoll_body. destruct (negb full); [simpl; lia|]. destruct s as [|c s]; [simpl; lia|].
  pose proof (read_digits_shorter INIT_CNT 0 (c :: s)) as H.
  destruct (read_digits INIT_CNT 0 (c :: s)) as [[j s'] n]. cbn [fst snd] in H.
  destruct (n <? INIT_CNT)%nat; [exact H|].
  etransitivity; [apply strtoll_tail_shorter|exact H].
Qed.

Lemma read_body_shorter n acc s negative (full : nat -> bool) error :
  (length (let '(i, s, k) := read_digits n acc s in
           strtoll_body negative i (full k) s error).1.2 <= length s)%nat.
Proof.
  pose proof (read_digits_shorter n acc s) as H.
  destruct (read_digits n acc s) as [[i s'] k]. cbn [fst snd] in H.
  etransitivity; [apply strtoll_body_shorter|exact H].
Qed.

Lemma my_strtoll10_shorter s : (length (my_strtoll10 s).1.2 <= length s)%nat.
Proof.
  unfold my_strtoll10. pose proof (skip_blanks_shorter s) as Hb.
  destruct (skip_blanks s) as [|c s1]; cbn [length fst snd] in *; [lia|].
  destruct (if c =? chr_minus then _ else _) as [[negative error] s2] eqn:E.
  assert (length s2 <= S (length s1))%nat
    by (destruct (c =? chr_minus), (c =? chr_plus); injection E as <- <- <-; simpl; lia).
  destruct s2 as [|c2 s3]; cbn [length fst snd] in *; [lia|].
  destruct (c2 =? chr_0).
  - pose proof (skip_zeros_shorter s3).
    destruct (skip_zeros s3) as [|c4 s4]; cbn [length fst snd] in *; [lia|].
    etransitivity; [apply (read_body_shorter _ _ _ _ (fun n => n =? INIT_CNT)%nat)|simpl; lia].
  - destruct (not_digit c2); cbn [length fst snd]; [lia|].
    etransitivity; [apply (read_body_shorter _ _ _ _ (fun n => n =? INIT_CNT - 1)%nat)|lia].
Qed.

(** ** How long the numerals are *)

Lemma int10_loop_length fuel : forall v acc k,
  0 <= v < 10 ^ Z.of_nat k -> (length (int10_loop fuel v acc) <= k + length acc)%nat.
Proof.
  induction fuel as [|f IH]; intros v acc k Hv; simpl; [lia|].
  destruct (Z.eqb_spec v 0) as [->|Hn]; [lia|]. rewrite Z.quot_div_nonneg by lia.
  destruct k as [|k]; [simpl in Hv; lia|]. rewrite Nat2Z.inj_succ, Z.pow_succ_r in Hv by lia.
  etransitivity; [apply (IH _ _ k)|simpl; lia]. split; [divlia|].
  apply Z.div_lt_upper_bound; lia.
Qed.

Lemma longlong10_to_str_length v k :
  is_u64 v -> v < 10 ^ Z.of_nat (S k) -> (length (longlong10_to_str (s64 v) 10) <= S k)%nat.
Proof.
  unfold is_u64. intros Hv Hk. unfold longlong10_to_str, int10_to_str.
  change (10 <? 0) with false. cbv beta iota zeta delta [andb].
  assert (u64 (s64 v) = v) as -> by (unfold u64, s64; divlia).
  rewrite (s64_small (v / 10)), app_nil_l by divlia.
  rewrite Nat2Z.inj_succ, Z.pow_succ_r in Hk by lia.
  etransitivity; [apply (int10_loop_length _ _ _ k)|simpl; lia].
  split; [divlia|]. apply Z.div_lt_upper_bound; lia.
Qed.

Lemma longlong10_to_str_digits v :
  is_u64 v -> Forall is_digit (longlong10_to_str (s64 v) 10).
Proof. intros Hv. unfold longlong10_to_str. apply (int10_to_str_unsigned v Hv). Qed.
