(* ===== verification/MyTime.v ===== *)
(** * Temporal values: [sql-common/my_time.c], [include/my_time.h],
    [include/mysql_time.h]

    The broken-down value [MYSQL_TIME], its validity checks, the day number,
    and the conversions to and from numbers, packed integers and (in
    [MyTimeStr]) text.  A [uint] or [ulong] member is a [Z]; wrap-around is
    written with [u32]/[u64] where the C expression can leave its width. *)
From S2P Require Import Prelude.
From Stdlib Require Import ZArith Lia List Bool.
From stdpp Require Import base tactics list.
Open Scope Z_scope.

(** ** Data *)

Inductive enum_mysql_timestamp_type :=
| MYSQL_TIMESTAMP_NONE
| MYSQL_TIMESTAMP_ERROR
| MYSQL_TIMESTAMP_DATE
| MYSQL_TIMESTAMP_DATETIME
| MYSQL_TIMESTAMP_TIME.

#[export] Instance enum_mysql_timestamp_type_eqdec : EqDecision enum_mysql_timestamp_type.
Proof. solve_decision. Defined.

(** The numeric value of the enumerator, used by ordering tests. *)
Definition timestamp_type_val (t : enum_mysql_timestamp_type) : Z :=
  match t with
  | MYSQL_TIMESTAMP_NONE => -2
  | MYSQL_TIMESTAMP_ERROR => -1
  | MYSQL_TIMESTAMP_DATE => 0
  | MYSQL_TIMESTAMP_DATETIME => 1
  | MYSQL_TIMESTAMP_TIME => 2
  end.

Definition is_type (a b : enum_mysql_timestamp_type) : bool :=
  timestamp_type_val a =? timestamp_type_val b.

Record MYSQL_TIME := mk_MYSQL_TIME {
  year : Z; month : Z; day : Z;
  hour : Z; minute : Z; second : Z;
  second_part : Z;
  neg : bool;
  time_type : enum_mysql_timestamp_type
}.

(** [bzero(tm, sizeof( *tm))]: the enumerator with value 0 is DATE. *)
Definition bzero_time : MYSQL_TIME :=
  mk_MYSQL_TIME 0 0 0 0 0 0 0 false MYSQL_TIMESTAMP_DATE.

Definition set_time_type (t : MYSQL_TIME) (ty : enum_mysql_timestamp_type) : MYSQL_TIME :=
  mk_MYSQL_TIME (year t) (month t) (day t) (hour t) (minute t) (second t)
                (second_part t) (neg t) ty.
Definition set_neg (t : MYSQL_TIME) (n : bool) : MYSQL_TIME :=
  mk_MYSQL_TIME (year t) (month t) (day t) (hour t) (minute t) (second t)
                (second_part t) n (time_type t).
Definition set_ymd (t : MYSQL_TIME) (y m d : Z) : MYSQL_TIME :=
  mk_MYSQL_TIME y m d (hour t) (minute t) (second t)
                (second_part t) (neg t) (time_type t).
Definition set_hms (t : MYSQL_TIME) (h m s sp : Z) : MYSQL_TIME :=
  mk_MYSQL_TIME (year t) (month t) (day t) h m s sp (neg t) (time_type t).

Definition set_zero_time (ty : enum_mysql_timestamp_type) : MYSQL_TIME :=
  set_time_type bzero_time ty.

(** ** Constants *)

Definition log_10_int : list Z :=
  [1; 10; 100; 1000; 10000; 100000; 1000000; 10000000;
   100000000; 1000000000; 10000000000; 100000000000;
   1000000000000; 10000000000000; 100000000000000;
   1000000000000000; 10000000000000000; 100000000000000000;
   1000000000000000000; 10000000000000000000].

Definition days_in_month : list Z := [31; 28; 31; 30; 31; 30; 31; 31; 30; 31; 30; 31; 0].
Definition days_at_timestart : Z := 719528.

Definition YY_PART_YEAR : Z := 70.
Definition TIMESTAMP_MAX_YEAR : Z := 2038.
Definition TIMESTAMP_MIN_YEAR : Z := 1900 + YY_PART_YEAR - 1.
Definition TIMESTAMP_MAX_VALUE : Z := 2147483647.
Definition TIMESTAMP_MIN_VALUE : Z := 0.

Definition TIME_FUZZY_DATES : Z := 1.
Definition TIME_DATETIME_ONLY : Z := 2.
Definition TIME_TIME_ONLY : Z := 4.
Definition TIME_NO_ZERO_IN_DATE : Z := Z.shiftl 1 23.
Definition TIME_NO_ZERO_DATE : Z := Z.shiftl 1 24.
Definition TIME_INVALID_DATES : Z := Z.shiftl 1 25.

Definition MYSQL_TIME_WARN_TRUNCATED : Z := 1.
Definition MYSQL_TIME_WARN_OUT_OF_RANGE : Z := 2.
Definition MYSQL_TIME_NOTE_TRUNCATED : Z := 16.

Definition SECONDS_IN_24H : Z := 86400.
Definition TIME_MAX_HOUR : Z := 838.
Definition TIME_MAX_MINUTE : Z := 59.
Definition TIME_MAX_SECOND : Z := 59.
Definition TIME_MAX_SECOND_PART : Z := 999999.
Definition TIME_SECOND_PART_DIGITS : Z := 6.
Definition TIME_MAX_VALUE : Z := TIME_MAX_HOUR * 10000 + TIME_MAX_MINUTE * 100 + TIME_MAX_SECOND.
Definition AUTO_SEC_PART_DIGITS : Z := 31.

(** Array reads; the index is in range at every call the code makes. *)
Definition array_get (a : list Z) (i : Z) : Z := nth (Z.to_nat i) a 0.

(** ** Validity checks *)

Definition calc_days_in_year (y : Z) : Z :=
  if (Z.land y 3 =? 0) &&
     (negb (y mod 100 =? 0) || ((y mod 400 =? 0) && negb (y =? 0)))
  then 366 else 365.

(** Returns (result, value of [*was_cut] afterwards). *)
Definition check_date (ltime : MYSQL_TIME) (not_zero_date : bool) (flags was_cut : Z)
  : bool * Z :=
  if is_type (time_type ltime) MYSQL_TIMESTAMP_TIME then (false, was_cut)
  else if not_zero_date then
    if (has_flag flags TIME_NO_ZERO_IN_DATE &&
        ((month ltime =? 0) || (day ltime =? 0)))
       || neg ltime
       || (negb (has_flag flags TIME_INVALID_DATES) &&
           negb (month ltime =? 0) &&
           (day ltime >? array_get days_in_month (month ltime - 1)) &&
           (negb (month ltime =? 2) ||
            negb (calc_days_in_year (year ltime) =? 366) ||
            negb (day ltime =? 29)))
    then (true, 2)
    else (false, was_cut)
  else if has_flag flags TIME_NO_ZERO_DATE then (true, was_cut)
  else (false, was_cut).

Definition check_datetime_range (ltime : MYSQL_TIME) : bool :=
  (year ltime >? 9999) || (month ltime >? 12) || (day ltime >? 31) ||
  (minute ltime >? 59) || (second ltime >? 59) ||
  (second_part ltime >? TIME_MAX_SECOND_PART) ||
  (hour ltime >? (if is_type (time_type ltime) MYSQL_TIMESTAMP_TIME
                  then TIME_MAX_HOUR else 23)).

Definition max_sec_part : list Z := [0; 900000; 990000; 999000; 999900; 999990; 999999].

(** Returns (result, [*my_time] afterwards, [*warning] afterwards).
    [24*my_time->day] and the sum are [uint] arithmetic, widened to
    [longlong] on assignment. *)
Definition check_time_range (my_time : MYSQL_TIME) (dec0 warning : Z)
  : Z * MYSQL_TIME * Z :=
  if (minute my_time >=? 60) || (second my_time >=? 60) then
    (1, my_time, Z.lor warning MYSQL_TIME_WARN_TRUNCATED)
  else
    let hr := u32 (hour my_time + u32 (24 * day my_time)) in
    let dec := if dec0 =? AUTO_SEC_PART_DIGITS then TIME_SECOND_PART_DIGITS else dec0 in
    if (hr <=? TIME_MAX_HOUR) &&
       (negb (hr =? TIME_MAX_HOUR) || negb (minute my_time =? TIME_MAX_MINUTE) ||
        negb (second my_time =? TIME_MAX_SECOND) ||
        (second_part my_time <=? array_get max_sec_part dec))
    then (0, my_time, warning)
    else
      (0, mk_MYSQL_TIME (year my_time) (month my_time) 0 TIME_MAX_HOUR TIME_MAX_MINUTE
            TIME_MAX_SECOND (array_get max_sec_part dec) (neg my_time) (time_type my_time),
       Z.lor warning MYSQL_TIME_WARN_OUT_OF_RANGE).

Definition validate_timestamp_range (t : MYSQL_TIME) : bool :=
  if ((year t >? TIMESTAMP_MAX_YEAR) || (year t <? TIMESTAMP_MIN_YEAR)) ||
     ((year t =? TIMESTAMP_MAX_YEAR) && ((month t >? 1) || (day t >? 19))) ||
     ((year t =? TIMESTAMP_MIN_YEAR) && ((month t <? 12) || (day t <? 31)))
  then false else true.

Definition year_2000_handling (y : Z) : Z :=
  let y := u32 (y + 1900) in
  if y <? 1900 + YY_PART_YEAR then u32 (y + 100) else y.

(** ** Day number *)

(** [int] and [long] arithmetic; C division truncates. *)
Definition calc_daynr (yr mon dy : Z) : Z :=
  if (yr =? 0) && (mon =? 0) then 0
  else
    let delsum := 365 * yr + 31 * (mon - 1) + dy in
    let '(y, delsum) :=
      if mon <=? 2 then (yr - 1, delsum)
      else (yr, delsum - Z.quot (mon * 4 + 23) 10) in
    let temp := Z.quot ((Z.quot y 100 + 1) * 3) 4 in
    delsum + Z.quot y 4 - temp.

(** ** Fractional seconds *)

Definition sec_part_shift (sp digits : Z) : Z :=
  Z.quot sp (array_get log_10_int (TIME_SECOND_PART_DIGITS - digits)).
Definition sec_part_unshift (sp digits : Z) : Z :=
  sp * array_get log_10_int (TIME_SECOND_PART_DIGITS - digits).
Definition my_time_fraction_remainder (nr decimals : Z) : Z :=
  Z.rem nr (array_get log_10_int (TIME_SECOND_PART_DIGITS - decimals)).
Definition my_time_trunc (t : MYSQL_TIME) (decimals : Z) : MYSQL_TIME :=
  set_hms t (hour t) (minute t) (second t)
    (second_part t - my_time_fraction_remainder (second_part t) decimals).

(** ** Numbers *)

(** The rewriting of a number into YYYYMMDDHHMMSS: [None] is [goto err]
    with the time type set so far; [Some] is [goto ok]. *)
Definition number_to_datetime_norm (nr : Z)
  : enum_mysql_timestamp_type * option Z :=
  if (nr =? 0) || (nr >=? 10000101000000) then (MYSQL_TIMESTAMP_DATETIME, Some nr)
  else if nr <? 101 then (MYSQL_TIMESTAMP_DATE, None)
  else if nr <=? (YY_PART_YEAR - 1) * 10000 + 1231 then
    (MYSQL_TIMESTAMP_DATE, Some ((nr + 20000000) * 1000000))
  else if nr <? YY_PART_YEAR * 10000 + 101 then (MYSQL_TIMESTAMP_DATE, None)
  else if nr <=? 991231 then
    (MYSQL_TIMESTAMP_DATE, Some ((nr + 19000000) * 1000000))
  else if nr <? 10000101 then (MYSQL_TIMESTAMP_DATE, None)
  else if nr <=? 99991231 then (MYSQL_TIMESTAMP_DATE, Some (nr * 1000000))
  else if nr <? 101000000 then (MYSQL_TIMESTAMP_DATE, None)
  else if nr <=? (YY_PART_YEAR - 1) * 10000000000 + 1231235959 then
    (MYSQL_TIMESTAMP_DATETIME, Some (nr + 20000000000000))
  else if nr <? YY_PART_YEAR * 10000000000 + 101000000 then (MYSQL_TIMESTAMP_DATETIME, None)
  else if nr <=? 991231235959 then (MYSQL_TIMESTAMP_DATETIME, Some (nr + 19000000000000))
  else (MYSQL_TIMESTAMP_DATETIME, Some nr).

(** Returns (result, [*time_res], [*was_cut]). *)
Definition number_to_datetime (nr0 sec_part flags : Z) : Z * MYSQL_TIME * Z :=
  match number_to_datetime_norm nr0 with
  | (ty, None) => (-1, set_time_type bzero_time ty, 1)
  | (ty, Some nr) =>
    let part1 := Z.quot nr 1000000 in
    let part2 := nr - part1 * 1000000 in
    let y := Z.quot part1 10000 in
    let part1' := Z.rem part1 10000 in
    let h := Z.quot part2 10000 in
    let part2' := Z.rem part2 10000 in
    let t := mk_MYSQL_TIME y (Z.quot part1' 100) (Z.rem part1' 100)
               h (Z.quot part2' 100) (Z.rem part2' 100) sec_part false ty in
    let in_range :=
      (y <=? 9999) && (month t <=? 12) && (day t <=? 31) && (h <=? 23) &&
      (minute t <=? 59) && (second t <=? 59) && (sec_part <=? TIME_MAX_SECOND_PART) in
    let '(bad, cut) :=
      if in_range then check_date t (negb (nr =? 0) || negb (sec_part =? 0)) flags 0
      else (true, 0) in
    if negb bad then
      (nr, t,
       if is_type ty MYSQL_TIMESTAMP_DATE && negb (sec_part =? 0)
       then MYSQL_TIME_NOTE_TRUNCATED else cut)
    else
      (-1, t,
       if negb (nr =? 0) || negb (has_flag flags TIME_NO_ZERO_DATE) then 1 else cut)
  end.

Definition number_to_time (neg : bool) (nr sec_part : Z) : Z * MYSQL_TIME * Z :=
  if (nr >? 9999999) && (nr <? 99991231235959) && negb neg then
    let '(r, t, cut) := number_to_datetime nr sec_part TIME_INVALID_DATES in
    (if r <? 0 then -1 else 0, t, cut)
  else
    let '(nr, sec_part, cut) :=
      if nr >? TIME_MAX_VALUE
      then (TIME_MAX_VALUE, TIME_MAX_SECOND_PART, MYSQL_TIME_WARN_OUT_OF_RANGE)
      else (nr, sec_part, 0) in
    let t := mk_MYSQL_TIME 0 0 0 (u32 (nr / 100 / 100)) (u32 (nr / 100 mod 100))
               (u32 (nr mod 100)) sec_part neg MYSQL_TIMESTAMP_TIME in
    if (minute t <? 60) && (second t <? 60) && (sec_part <=? TIME_MAX_SECOND_PART)
    then (0, t, cut)
    else (-1, t, MYSQL_TIME_WARN_TRUNCATED).

Definition TIME_to_ulonglong_datetime (t : MYSQL_TIME) : Z :=
  u64 (u64 (year t * 10000 + month t * 100 + day t) * 1000000 +
       u64 (hour t * 10000 + minute t * 100 + second t)).
Definition TIME_to_ulonglong_date (t : MYSQL_TIME) : Z :=
  u64 (year t * 10000 + month t * 100 + day t).
Definition TIME_to_ulonglong_time (t : MYSQL_TIME) : Z :=
  u64 (hour t * 10000 + minute t * 100 + second t).
Definition TIME_to_ulonglong (t : MYSQL_TIME) : Z :=
  match time_type t with
  | MYSQL_TIMESTAMP_DATETIME => TIME_to_ulonglong_datetime t
  | MYSQL_TIMESTAMP_DATE => TIME_to_ulonglong_date t
  | MYSQL_TIMESTAMP_TIME => TIME_to_ulonglong_time t
  | MYSQL_TIMESTAMP_NONE | MYSQL_TIMESTAMP_ERROR => 0
  end.

(** ** Packed integers *)

(** [ulonglong] arithmetic; the factor [-1] converts to [ulonglong] and the
    result to [longlong]. *)
Definition pack_time (t : MYSQL_TIME) : Z :=
  s64 (u64 (((((((year t * 13 + month t) * 32 + day t) * 24 + hour t) * 60 +
        minute t) * 60 + second t) * 1000000 + second_part t) *
       (if neg t then -1 else 1))).

(** [packed % FACTOR] mixes a non-negative [longlong] with an unsigned
    constant.  [-packed] of [LLONG_MIN] is undefined in C; every packed value
    the server produces is above it. *)
Definition unpack_time (packed : Z) : MYSQL_TIME :=
  let ng := packed <? 0 in
  let packed := if ng then - packed else packed in
  let sp := packed mod 1000000 in let packed := packed / 1000000 in
  let s := packed mod 60 in let packed := packed / 60 in
  let mi := packed mod 60 in let packed := packed / 60 in
  let h := packed mod 24 in let packed := packed / 24 in
  let d := packed mod 32 in let packed := packed / 32 in
  let mo := packed mod 13 in let packed := packed / 13 in
  mk_MYSQL_TIME (u32 packed) mo d h mi s sp ng MYSQL_TIMESTAMP_DATETIME.

(** ** The proleptic calendar the day number counts

    [dim] is the length of a month, [next_day] the successor of a date: the
    reference against which [calc_daynr] and, in [SqlTime],
    [get_date_from_daynr] are proved. *)

Lemma land_3_mod y : Z.land y 3 = y mod 4.
Proof. exact (Z.land_ones y 2 ltac:(lia)). Qed.

Definition leap (y : Z) : bool := calc_days_in_year y =? 366.

Definition dim (y m : Z) : Z :=
  if (m =? 2) && leap y then 29 else array_get days_in_month (m - 1).

Lemma leap_iff y : 0 <= y ->
  leap y = true <-> (y mod 4 = 0 /\ (y mod 100 <> 0 \/ y mod 400 = 0) /\ y <> 0).
Proof.
  intros Hy. unfold leap, calc_days_in_year. rewrite land_3_mod.
  destruct (Z.eqb_spec (y mod 4) 0), (Z.eqb_spec (y mod 100) 0),
    (Z.eqb_spec (y mod 400) 0), (Z.eqb_spec y 0); simpl; split; intros; try discriminate; try tauto; try lia.
  all: divlia.
Qed.

Lemma calc_days_in_year_leap y : calc_days_in_year y = if leap y then 366 else 365.
Proof. unfold leap, calc_days_in_year. destruct (_ && _); reflexivity. Qed.

Lemma calc_days_in_year_bounds y : 365 <= calc_days_in_year y <= 366.
Proof. rewrite calc_days_in_year_leap. destruct (leap y); lia. Qed.

Definition valid_ymd (y m d : Z) : Prop := 0 <= y /\ 1 <= m <= 12 /\ 1 <= d <= dim y m.
Definition next_day (y m d : Z) : Z * Z * Z :=
  if d <? dim y m then (y, m, d + 1)
  else if m <? 12 then (y, m + 1, 1) else (y + 1, 1, 1).

Lemma month_cases (P : Z -> Prop) :
  P 1 -> P 2 -> P 3 -> P 4 -> P 5 -> P 6 -> P 7 -> P 8 -> P 9 -> P 10 -> P 11 -> P 12 ->
  forall m, 1 <= m <= 12 -> P m.
Proof.
  intros. assert (m = 1 \/ m = 2 \/ m = 3 \/ m = 4 \/ m = 5 \/ m = 6 \/ m = 7 \/ m = 8 \/
    m = 9 \/ m = 10 \/ m = 11 \/ m = 12) by lia.
  naive_solver.
Qed.

(** The day number of January 1st is one more than this. *)
Definition year_start (y : Z) : Z := calc_daynr y 1 1 - 1.
Lemma year_start_eq y : 1 <= y -> 
  year_start y = 365 * y + (y - 1) / 4 - (((y - 1) / 100 + 1) * 3) / 4.
Proof.
  intros. unfold year_start, calc_daynr. zcases; simpl; try lia.
  all: rewrite !Z.quot_div_nonneg; divlia.
Qed.
Lemma year_start_0 : year_start 0 = 0.
Proof. reflexivity. Qed.

Lemma year_start_succ y : 0 <= y -> year_start (y + 1) = year_start y + calc_days_in_year y.
Proof.
  intros Hy. rewrite calc_days_in_year_leap. 
  destruct (Z.eq_dec y 0) as [->|Hn]; [reflexivity|].
  rewrite !year_start_eq by lia.
  destruct (leap y) eqn:E.
  - apply leap_iff in E; [|lia]. divlia.
  - assert (~ (y mod 4 = 0 /\ (y mod 100 <> 0 \/ y mod 400 = 0) /\ y <> 0)).
    { rewrite <- leap_iff by lia. congruence. }
   divlia.
Qed.

(** Days of the months before [m]. *)
Definition days_before (y m : Z) : Z :=
  fold_right Z.add 0 (map (fun k => dim y (Z.of_nat k)) (seq 1 (Z.to_nat (m - 1)))).

Lemma calc_daynr_split y m d : 0 <= y -> 1 <= m <= 12 ->
  calc_daynr y m d = year_start y + days_before y m + d.
Proof.
  intros Hy Hm.
  assert (Hl : leap y = true <-> (y mod 4 = 0 /\ (y mod 100 <> 0 \/ y mod 400 = 0) /\ y <> 0)) by (apply leap_iff; lia).
  destruct (Z.eq_dec y 0) as [->|Hn].
  - revert d. revert m Hm. apply (month_cases (fun m => forall d, _ = _)); intros; 
    cbv -[Z.add]; simpl; destruct d; lia.
  - rewrite year_start_eq by lia. revert d. revert m Hm.
   assert (Hn' : (y =? 0) = false) by lia. unfold calc_daynr. rewrite Hn'.
   apply (month_cases (fun m => forall d, _ = _)); intros d; simpl;
   unfold days_before, dim; simpl; unfold array_get; simpl nth; rewrite !Z.quot_div_nonneg by divlia;
   destruct (leap y); divlia.
Qed.

Lemma dim_bounds y m : 1 <= m <= 12 -> 28 <= dim y m <= 31.
Proof.
  revert m. apply month_cases; unfold dim; simpl; destruct (leap y); unfold array_get; simpl; lia.
Qed.

Lemma days_before_succ y m : 1 <= m <= 12 -> days_before y (m + 1) = days_before y m + dim y m.
Proof.
  revert m. apply month_cases; unfold days_before, dim; simpl; unfold array_get; simpl; destruct (leap y); lia.
Qed.

Lemma days_before_bounds y m : 1 <= m <= 12 -> 
  0 <= days_before y m /\ days_before y m + dim y m <= calc_days_in_year y.
Proof.
  rewrite calc_days_in_year_leap.
  revert m. apply month_cases; unfold days_before, dim; simpl;
    unfold array_get; simpl; destruct (leap y); lia.
Qed.

Lemma days_before_13 y : days_before y 13 = calc_days_in_year y.
Proof.
  rewrite calc_days_in_year_leap. unfold days_before, dim; simpl;
    unfold array_get; simpl; destruct (leap y); lia.
Qed.

Lemma calc_daynr_next_day y m d y' m' d' :
  valid_ymd y m d -> next_day y m d = (y', m', d') ->
  valid_ymd y' m' d' /\ calc_daynr y' m' d' = calc_daynr y m d + 1.
Proof.
  intros (Hy & Hm & Hd). unfold next_day.
  pose proof (days_before_succ y m Hm).
  destruct (Z.ltb_spec d (dim y m)); [|destruct (Z.ltb_spec m 12)]; intros [= <- <- <-].
  - split; [unfold valid_ymd; lia|]. rewrite !calc_daynr_split by lia. lia.
  - pose proof (dim_bounds y (m + 1)).
    split; [unfold valid_ymd; lia|]. rewrite !calc_daynr_split by lia. lia.
  - assert (m = 12) as -> by lia. pose proof (dim_bounds (y + 1) 1).
    split; [unfold valid_ymd; lia|].
    rewrite !calc_daynr_split, year_start_succ by lia.
    rewrite <- (days_before_13 y). change 13 with (12 + 1). change (days_before (y + 1) 1) with 0. lia.
Qed.

(** ** Values in range *)

(** The normalized values of [mysql_time.h]: what the members of a DATE or
    DATETIME may hold. *)
Definition normalized (t : MYSQL_TIME) : Prop :=
  0 <= year t <= 9999 /\ 0 <= month t <= 12 /\ 0 <= day t <= 31 /\
  0 <= hour t <= 23 /\ 0 <= minute t <= 59 /\ 0 <= second t <= 59 /\
  0 <= second_part t <= TIME_MAX_SECOND_PART.

Definition packed_abs (t : MYSQL_TIME) : Z :=
  (((((year t * 13 + month t) * 32 + day t) * 24 + hour t) * 60 +
        minute t) * 60 + second t) * 1000000 + second_part t.

Lemma packed_abs_bounds t : normalized t -> 0 <= packed_abs t < 2 ^ 60.
Proof. unfold normalized, packed_abs, TIME_MAX_SECOND_PART. intros. lia. Qed.

Lemma pack_time_normalized t : normalized t ->
  pack_time t = if neg t then - packed_abs t else packed_abs t.
Proof.
  intros H. pose proof (packed_abs_bounds t H). unfold pack_time.
  fold (packed_abs t). destruct (neg t); unfold u64, s64.
  - destruct (Z.eq_dec (packed_abs t) 0) as [E|E]; [rewrite E; reflexivity|].
    rewrite <- (Z.mod_unique (packed_abs t * -1) (2 ^ 64) (-1) (2 ^ 64 - packed_abs t)) by lia.
    rewrite <- (Z.mod_unique (2 ^ 64 - packed_abs t + 2 ^ 63) (2 ^ 64) 1
                  (2 ^ 63 - packed_abs t)) by lia. lia.
  - rewrite Z.mul_1_r, (Z.mod_small (packed_abs t)) by lia.
    rewrite Z.mod_small by lia. lia.
Qed.

(** Mixed-radix digits come back one by one. *)
Lemma radix_digit q r n : 0 <= r < n -> (q * n + r) mod n = r /\ (q * n + r) / n = q.
Proof.
  intros H. rewrite (Z.add_comm (q * n)). split.
  - rewrite Z.mod_add by lia. apply Z.mod_small; lia.
  - rewrite Z.div_add, Z.div_small by lia. lia.
Qed.

Lemma check_date_no_invalid t nz cut :
  (month t = 0 \/ (1 <= month t <= 12 /\ day t <= dim (year t) (month t))) ->
  neg t = false -> check_date t nz 0 cut = (false, cut).
Proof.
  intros Hd Hn. unfold check_date. destruct (is_type _ _); [reflexivity|].
  destruct nz; [|reflexivity]. rewrite Hn. simpl.
  destruct Hd as [->|[Hm Hd]]; [reflexivity|].
  unfold dim, leap in Hd. rewrite (proj2 (Z.eqb_neq (month t) 0)) by lia. simpl.
  destruct (Z.eqb_spec (month t) 2) as [E|E]; simpl in *;
    destruct (Z.eqb_spec (calc_days_in_year (year t)) 366); simpl in *;
    rewrite Z.gtb_ltb; destruct (Z.ltb_spec (array_get days_in_month (month t - 1)) (day t));
    simpl; try reflexivity; try lia.
  rewrite E in *. change (array_get days_in_month (2 - 1)) with 28 in *.
  destruct (Z.eqb_spec (day t) 29); [reflexivity|lia].
Qed.

(** A DATE or DATETIME holding a day of the calendar. *)
Definition valid_date (t : MYSQL_TIME) : Prop :=
  valid_ymd (year t) (month t) (day t) /\ neg t = false.

(** [unpack_time] inverts [pack_time]: a normalized value whose sign is
    representable (a negative value is not packed to 0) comes back member by
    member, with the type set to DATETIME. *)
Theorem unpack_pack_time (t : MYSQL_TIME) :
  normalized t -> (neg t = true -> pack_time t <> 0) ->
  unpack_time (pack_time t) = set_time_type t MYSQL_TIMESTAMP_DATETIME.
Proof.
  intros Hn Hz. pose proof (packed_abs_bounds t Hn) as Hb.
  rewrite pack_time_normalized in * by done.
  assert (Hneg : ((if neg t then - packed_abs t else packed_abs t) <? 0) = neg t).
  { destruct (neg t); [|lia]. assert (packed_abs t <> 0) by (intros E; apply Hz; lia). lia. }
  unfold unpack_time. rewrite Hneg.
  replace (if neg t then - (if neg t then - packed_abs t else packed_abs t)
           else (if neg t then - packed_abs t else packed_abs t)) with (packed_abs t)
    by (destruct (neg t); lia).
  unfold packed_abs, normalized, TIME_MAX_SECOND_PART in *.
  repeat match goal with |- context [(?q * ?n + ?r) mod ?n] =>
    let H1 := fresh in let H2 := fresh in
    destruct (radix_digit q r n) as [H1 H2]; [lia|]; rewrite ?H1, ?H2; clear H1 H2 end.
  rewrite u32_small by lia. reflexivity.
Qed.

Definition sample_datetime : MYSQL_TIME :=
  mk_MYSQL_TIME 2017 2 28 23 59 58 123456 false MYSQL_TIMESTAMP_DATETIME.
Lemma sample_datetime_normalized : normalized sample_datetime.
Proof. unfold normalized, sample_datetime, TIME_MAX_SECOND_PART; simpl; lia. Qed.

Lemma unpack_pack_time_witness :
  unpack_time (pack_time sample_datetime) = set_time_type sample_datetime MYSQL_TIMESTAMP_DATETIME.
Proof. apply (unpack_pack_time sample_datetime sample_datetime_normalized). discriminate. Defined.


Lemma quot_rem_digits nr : 0 <= nr ->
  Z.quot nr 1000000 = nr / 1000000 /\ 0 <= nr / 1000000 /\
  nr - nr / 1000000 * 1000000 = nr mod 1000000.
Proof. intros. rewrite Z.quot_div_nonneg by lia. divlia. Qed.

Lemma number_to_datetime_norm_nonneg nr ty nr' :
  0 <= nr -> number_to_datetime_norm nr = (ty, Some nr') -> 0 <= nr'.
Proof.
  intros Hnr. unfold number_to_datetime_norm.
  repeat case_match; intros [= <- <-]; lia.
Qed.

Lemma TIME_to_ulonglong_datetime_normalized t : normalized t ->
  TIME_to_ulonglong_datetime t =
  (year t * 10000 + month t * 100 + day t) * 1000000 +
  (hour t * 10000 + minute t * 100 + second t).
Proof.
  unfold normalized, TIME_to_ulonglong_datetime. intros H.
  rewrite (u64_small (year t * 10000 + _ + _)), (u64_small (hour t * 10000 + _ + _)) by lia.
  apply u64_small; lia.
Qed.

(** When [number_to_datetime] does not report an error, the number it
    returns is the YYYYMMDDHHMMSS reading of the value it stored, that value
    is normalized and positive, carries the given microseconds, and passes
    [check_date] with the caller's flags. *)
Theorem number_to_datetime_sound nr sp flags r t cut :
  0 <= nr < 2 ^ 63 -> 0 <= sp -> number_to_datetime nr sp flags = (r, t, cut) -> r <> -1 ->
  r = TIME_to_ulonglong_datetime t /\ normalized t /\ second_part t = sp /\
  neg t = false /\ fst (check_date t (negb (r =? 0) || negb (sp =? 0)) flags 0) = false.
Proof.
  intros Hnr Hsp. unfold number_to_datetime.
  destruct (number_to_datetime_norm nr) as [ty [nr'|]] eqn:En; [|intros [= <- <- <-]; lia].
  apply number_to_datetime_norm_nonneg in En; [|lia].
  destruct (quot_rem_digits nr' En) as (-> & Hq & ->).
  rewrite !Z.quot_div_nonneg, !Z.rem_mod_nonneg by (try lia; try apply Z.mod_pos_bound; lia).
  match goal with |- context [check_date ?x _ _ _] => set (t' := x) end.
  destruct (_ && (sp <=? _)) eqn:Er; [|simpl; intros [= <- <- <-]; lia].
  destruct (check_date t' _ flags 0) as [bad c] eqn:Ec.
  destruct bad; simpl; intros [= <- <- <-]; [lia|intros _].
  assert (normalized t') as Hnorm.
  { unfold normalized, t', TIME_MAX_SECOND_PART in *; simpl in *. divlia. }
  rewrite TIME_to_ulonglong_datetime_normalized by done.
  split; [|split; [done|split; [done|split; [done|rewrite Ec; done]]]].
  unfold t'; simpl. clear. divlia.
Qed.

Lemma number_to_datetime_sound_witness :
  let '(r, t, cut) := number_to_datetime 20170228235958 7 0 in
  r = TIME_to_ulonglong_datetime t /\ normalized t /\ second_part t = 7 /\
  neg t = false /\ fst (check_date t (negb (r =? 0) || negb (7 =? 0)) 0 0) = false.
Proof.
  apply (number_to_datetime_sound 20170228235958 7 0 _ _ 0); [lia|lia|reflexivity|discriminate].
Defined.


(** A calendar DATETIME from 1000-01-01 on, turned into a number by
    [TIME_to_ulonglong_datetime] and read back by [number_to_datetime] with
    no flags, is the same value, without a warning. *)
Theorem number_to_datetime_roundtrip (t : MYSQL_TIME) :
  normalized t -> neg t = false -> time_type t = MYSQL_TIMESTAMP_DATETIME ->
  month t = 0 \/ (1 <= month t /\ day t <= dim (year t) (month t)) ->
  10000101000000 <= TIME_to_ulonglong_datetime t ->
  number_to_datetime (TIME_to_ulonglong_datetime t) (second_part t) 0
  = (TIME_to_ulonglong_datetime t, t, 0).
Proof.
  intros Hn Hneg Hty Hd Hlo. unfold number_to_datetime, number_to_datetime_norm.
  rewrite Z.geb_leb, (proj2 (Z.leb_le _ _) Hlo), orb_true_r.
  set (n := TIME_to_ulonglong_datetime t) in *.
  assert (En : n = (year t * 10000 + month t * 100 + day t) * 1000000 +
      (hour t * 10000 + minute t * 100 + second t))
    by (subst n; apply TIME_to_ulonglong_datetime_normalized; done).
  clearbody n. unfold normalized, TIME_MAX_SECOND_PART in Hn.
  destruct (quot_rem_digits n) as (-> & Hq & ->); [lia|].
  destruct (radix_digit (year t * 10000 + month t * 100 + day t)
     (hour t * 10000 + minute t * 100 + second t) 1000000) as [Hm1 Hd1]; [lia|].
  rewrite <- En in Hm1, Hd1. rewrite Hm1, Hd1.
  rewrite !Z.quot_div_nonneg, !Z.rem_mod_nonneg by (try lia; divlia).
  replace (mk_MYSQL_TIME _ _ _ _ _ _ _ _ _) with t.
  2: { destruct t as [y mo d h mi s sp ng ty]; simpl in *; subst. f_equal; divlia. }
  rewrite check_date_no_invalid by first [done | destruct Hd; [left|right]; lia].
  unfold TIME_MAX_SECOND_PART.
  rewrite !(proj2 (Z.leb_le _ _)) by (try lia; divlia).
  simpl. reflexivity.
Qed.

Lemma number_to_datetime_roundtrip_witness :
  number_to_datetime (TIME_to_ulonglong_datetime sample_datetime) 123456 0
  = (TIME_to_ulonglong_datetime sample_datetime, sample_datetime, 0).
Proof.
  apply (number_to_datetime_roundtrip sample_datetime sample_datetime_normalized eq_refl eq_refl).
  - right. vm_compute. split; discriminate.
  - vm_compute. discriminate.
Defined.


(** What [*was_cut] holds after [number_to_datetime] of a non-zero
    number: 1 on every error (never the 2 its description promises for a
    date [check_date] rejects), and on success a note exactly when
    microseconds were given with a DATE. *)
Theorem number_to_datetime_was_cut nr sp flags r t cut :
  nr <> 0 -> number_to_datetime nr sp flags = (r, t, cut) ->
  cut = (if r =? -1 then 1
         else if is_type (time_type t) MYSQL_TIMESTAMP_DATE && negb (sp =? 0)
              then MYSQL_TIME_NOTE_TRUNCATED else 0).
Proof.
  intros Hnr. unfold number_to_datetime.
  destruct (number_to_datetime_norm nr) as [ty [nr'|]] eqn:En; [|by intros [= <- <- <-]].
  assert (0 < nr' /\ nr' <> -1) as [Hp Hm1].
  { revert En. unfold number_to_datetime_norm. repeat case_match; intros [= <- <-]; lia. }
  match goal with |- context [check_date ?x _ _ _] => set (t' := x) end.
  assert (Hcut : forall b c, check_date t' (negb (nr' =? 0) || negb (sp =? 0)) flags 0 = (b, c) ->
             b = false -> c = 0).
  { unfold check_date. intros b c. repeat case_match; intros [= <- <-]; congruence. }
  destruct (_ && (sp <=? _)); [destruct (check_date _ _ _ _) as [b c] eqn:Ec|].
  2: { simpl. intros [= <- <- <-]. simpl. case_match; [done|lia]. }
  destruct b; simpl; intros [= <- <- <-].
  - simpl. case_match; [done|lia].
  - rewrite (Hcut _ _ eq_refl eq_refl), (proj2 (Z.eqb_neq nr' (-1))) by done. done.
Qed.

Lemma number_to_datetime_was_cut_witness :
  snd (number_to_datetime 20170231000000 0 0) = 1.
Proof.
  apply (number_to_datetime_was_cut 20170231000000 0 0 (-1)
           (snd (fst (number_to_datetime 20170231000000 0 0)))); [discriminate|reflexivity].
Defined.


(** A TIME in microseconds, and the largest TIME with [dec] decimals. *)
Definition time_usec (t : MYSQL_TIME) : Z :=
  (((hour t + 24 * day t) * 60 + minute t) * 60 + second t) * 1000000 + second_part t.
Definition max_time_usec (dec : Z) : Z :=
  ((TIME_MAX_HOUR * 60 + TIME_MAX_MINUTE) * 60 + TIME_MAX_SECOND) * 1000000 +
  array_get max_sec_part (if dec =? AUTO_SEC_PART_DIGITS then TIME_SECOND_PART_DIGITS else dec).

(** [check_time_range] fails exactly on minutes or seconds past 59;
    otherwise the stored TIME is the given one clipped to the largest TIME
    with [dec] decimals, untouched when it fits and flagged out of range
    when it does not. *)
Theorem check_time_range_clips t dec w r t' w' :
  0 <= hour t -> 0 <= day t -> hour t + 24 * day t < 2 ^ 32 ->
  0 <= minute t -> 0 <= second t -> 0 <= second_part t <= TIME_MAX_SECOND_PART ->
  check_time_range t dec w = (r, t', w') ->
  (r = 0 <-> minute t < 60 /\ second t < 60) /\
  (r = 0 -> time_usec t' = Z.min (time_usec t) (max_time_usec dec) /\
            (time_usec t <= max_time_usec dec -> t' = t /\ w' = w) /\
            (time_usec t > max_time_usec dec -> w' = Z.lor w MYSQL_TIME_WARN_OUT_OF_RANGE)).
Proof.
  intros Hh Hd Hov Hm Hs Hsp. unfold check_time_range, max_time_usec, TIME_MAX_SECOND_PART in *.
  destruct (_ || _) eqn:E1; [intros [= <- <- <-]; lia|].
  rewrite (u32_small (24 * day t)), (u32_small (hour t + 24 * day t)) by lia.
  set (mx := array_get max_sec_part _).
  assert (0 <= mx <= 999999) as Hmx.
  { unfold mx, array_get.
    assert (forall n, 0 <= nth n max_sec_part 0 <= 999999) as H; [|apply H].
    intros n. do 8 (destruct n as [|n]; [simpl; lia|]). simpl. destruct n; lia. }
  unfold time_usec, TIME_MAX_HOUR, TIME_MAX_MINUTE, TIME_MAX_SECOND.
  destruct (_ && _) eqn:E2; intros [= <- <- <-]; simpl; split; intros; try lia.
  all: split; [lia|]; split; intros; try done; exfalso; lia.
Qed.

Lemma check_time_range_clips_witness :
  let t := mk_MYSQL_TIME 0 0 0 900 0 0 0 false MYSQL_TIMESTAMP_TIME in
  let '(r, t', w') := check_time_range t 6 0 in
  time_usec t' = Z.min (time_usec t) (max_time_usec 6).
Proof.
  set (t := mk_MYSQL_TIME 0 0 0 900 0 0 0 false MYSQL_TIMESTAMP_TIME). simpl.
  edestruct (check_time_range_clips t 6 0) as [_ H];
    [..|reflexivity|apply H; reflexivity]; unfold t, TIME_MAX_SECOND_PART; simpl; lia.
Defined.

