(* ===== verification/MyTimeStr.v ===== *)
(** * Temporal values as text: the parsers and printers of
    [sql-common/my_time.c]

    A [const char *str] with its [end] is the list of the bytes from [str] to
    [end].  Where the code reads [*end] itself, the byte found there is the
    argument [after]; a read further on is outside the argument, and the model
    answers [None].  Character classes are those of [my_charset_latin1]
    ([strings/ctype-latin1.c]). *)
From S2P Require Import Prelude StrNum MyTime.
From Stdlib Require Import ZArith Lia List Bool.
From stdpp Require Import base tactics list.
Open Scope Z_scope.

(** ** Character classes *)

Definition ctype_latin1 : list Z := [
    0;
   32; 32; 32; 32; 32; 32; 32; 32; 32; 40; 40; 40; 40; 40; 32; 32;
   32; 32; 32; 32; 32; 32; 32; 32; 32; 32; 32; 32; 32; 32; 32; 32;
   72; 16; 16; 16; 16; 16; 16; 16; 16; 16; 16; 16; 16; 16; 16; 16;
  132;132;132;132;132;132;132;132;132;132; 16; 16; 16; 16; 16; 16;
   16;129;129;129;129;129;129;  1;  1;  1;  1;  1;  1;  1;  1;  1;
    1;  1;  1;  1;  1;  1;  1;  1;  1;  1;  1; 16; 16; 16; 16; 16;
   16;130;130;130;130;130;130;  2;  2;  2;  2;  2;  2;  2;  2;  2;
    2;  2;  2;  2;  2;  2;  2;  2;  2;  2;  2; 16; 16; 16; 16; 32;
   16;  0; 16;  2; 16; 16; 16; 16; 16; 16;  1; 16;  1;  0;  1;  0;
    0; 16; 16; 16; 16; 16; 16; 16; 16; 16;  2; 16;  2;  0;  2;  1;
   72; 16; 16; 16; 16; 16; 16; 16; 16; 16; 16; 16; 16; 16; 16; 16;
   16; 16; 16; 16; 16; 16; 16; 16; 16; 16; 16; 16; 16; 16; 16; 16;
    1;  1;  1;  1;  1;  1;  1;  1;  1;  1;  1;  1;  1;  1;  1;  1;
    1;  1;  1;  1;  1;  1;  1; 16;  1;  1;  1;  1;  1;  1;  1;  2;
    2;  2;  2;  2;  2;  2;  2;  2;  2;  2;  2;  2;  2;  2;  2;  2;
    2;  2;  2;  2;  2;  2;  2; 16;  2;  2;  2;  2;  2;  2;  2;  2].

Definition latin1_class (c mask : Z) : bool :=
  has_flag (array_get ctype_latin1 (c + 1)) mask.
Definition my_isdigit (c : Z) : bool := latin1_class c 4.
Definition my_isspace (c : Z) : bool := latin1_class c 8.
Definition my_ispunct (c : Z) : bool := latin1_class c 16.

Definition chr_T : Z := 84.
Definition chr_dot : Z := 46.
Definition chr_colon : Z := 58.
Definition chr_e : Z := 101.
Definition chr_E : Z := 69.
Definition time_separator : Z := chr_colon.

(** ** Scanner steps

    The parsers thread the value under construction, the number of fields
    read and the position through steps that return an error flag; [step_or]
    is C's [||] between two such calls. *)

Record parser := mk_parser { p_time : MYSQL_TIME; p_nof : Z; p_str : list Z }.

(** [None]: a byte beyond [*end] was read. *)
Definition step : Type := parser -> option (bool * parser).

Definition step_or (a b : step) : step := fun p =>
  match a p with
  | Some (false, p') => b p'
  | r => r
  end.
Declare Scope step_scope.
Delimit Scope step_scope with step.
Infix "<||>" := step_or (at level 60, right associativity) : step_scope.

Fixpoint skip_spaces (s : list Z) : list Z :=
  match s with
  | c :: s' => if my_isspace c then skip_spaces s' else s
  | [] => []
  end.

(** Returns the number of digits skipped and the new position. *)
Fixpoint skip_digits (s : list Z) : Z * list Z :=
  match s with
  | c :: s' =>
    if my_isdigit c then let '(n, r) := skip_digits s' in (n + 1, r) else (0, s)
  | [] => (0, [])
  end.

(** The digits of [get_number] after the first; [n] bytes are left to its
    [end]. *)
Fixpoint get_number_loop (n : nat) (val : Z) (s : list Z) : Z * list Z :=
  match n, s with
  | S n, c :: s' =>
    if my_isdigit c then get_number_loop n (u32 (val * 10 + c - 48)) s' else (val, s)
  | _, _ => (val, s)
  end.

(** [get_number] up to [n] bytes from the position: (error, [*val],
    fields, position). *)
Definition get_number_n (n : nat) (val nof : Z) (s : list Z) : bool * Z * Z * list Z :=
  match n, s with
  | S n, c :: s' =>
    if my_isdigit c then
      let '(v, r) := get_number_loop n (c - 48) s' in (false, v, nof + 1, r)
    else (true, val, nof, s)
  | _, _ => (false, val, nof, s)
  end.

Definition get_number (val nof : Z) (s : list Z) : bool * Z * Z * list Z :=
  get_number_n (length s) val nof s.

Definition get_digits (val nof : Z) (s : list Z) (len : nat) : bool * Z * Z * list Z :=
  get_number_n (Nat.min (length s) len) val nof s.

Definition number_step (get : MYSQL_TIME -> Z) (set : MYSQL_TIME -> Z -> MYSQL_TIME) : step :=
  fun p =>
    let '(e, v, n, s) := get_number (get (p_time p)) (p_nof p) (p_str p) in
    Some (e, mk_parser (set (p_time p) v) n s).

Definition digits_step (get : MYSQL_TIME -> Z) (set : MYSQL_TIME -> Z -> MYSQL_TIME)
  (len : nat) : step :=
  fun p =>
    let '(e, v, n, s) := get_digits (get (p_time p)) (p_nof p) (p_str p) len in
    Some (e, mk_parser (set (p_time p) v) n s).

Definition get_punct : step := fun p =>
  match p_str p with
  | [] => Some (false, p)
  | c :: s' =>
    if my_ispunct c then Some (false, mk_parser (p_time p) (p_nof p) s') else Some (true, p)
  end.

(** [do s++; while (my_isspace( *s))] from the byte after a space: the
    byte at [end] is [after]. *)
Fixpoint skip_spaces_unbounded (after : Z) (s : list Z) : option (list Z) :=
  match s with
  | c :: s' => if my_isspace c then skip_spaces_unbounded after s' else Some s
  | [] => if my_isspace after then None else Some []
  end.

Definition get_date_time_separator (after flags : Z) : step := fun p =>
  match p_str p with
  | [] => Some (false, p)
  | c :: s' =>
    if c =? chr_T then Some (false, mk_parser (p_time p) (p_nof p) s')
    else if my_ispunct c then
      if has_flag flags TIME_DATETIME_ONLY then Some (true, mk_parser (p_time p) 0 (p_str p))
      else Some (false, mk_parser (p_time p) (p_nof p) s')
    else if negb (my_isspace c) then Some (true, p)
    else match skip_spaces_unbounded after s' with
         | Some r => Some (false, mk_parser (p_time p) (p_nof p) r)
         | None => None
         end
  end.

Definition get_maybe_T : step := fun p =>
  match p_str p with
  | c :: s' => if c =? chr_T then Some (false, mk_parser (p_time p) (p_nof p) s') else Some (false, p)
  | [] => Some (false, p)
  end.

(** ** Status *)

Record MYSQL_TIME_STATUS := mk_status { warnings : Z; precision : Z }.
Definition my_time_status_init : MYSQL_TIME_STATUS := mk_status 0 0.
Definition add_warning (st : MYSQL_TIME_STATUS) (w : Z) : MYSQL_TIME_STATUS :=
  mk_status (Z.lor (warnings st) w) (precision st).

(** Returns ([*val], status, fields, position). *)
Definition get_microseconds (st : MYSQL_TIME_STATUS) (nof : Z) (s : list Z)
  : Z * MYSQL_TIME_STATUS * Z * list Z :=
  let '(e, tmp, nof, s') := get_digits 0 nof s 6 in
  let st := if e then add_warning st MYSQL_TIME_WARN_TRUNCATED else st in
  let n := Z.of_nat (length s - length s') in
  let st := mk_status (warnings st) n in
  let val := if n <? 6 then u64 (tmp * array_get log_10_int (6 - n)) else tmp in
  let '(skipped, s'') := skip_digits s' in
  (val, if negb (skipped =? 0) then add_warning st MYSQL_TIME_NOTE_TRUNCATED else st, nof, s'').

(** ** [str_to_datetime] *)

Definition set_year (t : MYSQL_TIME) (y : Z) := set_ymd t y (month t) (day t).
Definition set_month (t : MYSQL_TIME) (m : Z) := set_ymd t (year t) m (day t).
Definition set_day (t : MYSQL_TIME) (d : Z) := set_ymd t (year t) (month t) d.
Definition set_hour (t : MYSQL_TIME) (h : Z) :=
  set_hms t h (minute t) (second t) (second_part t).
Definition set_minute (t : MYSQL_TIME) (m : Z) :=
  set_hms t (hour t) m (second t) (second_part t).
Definition set_second (t : MYSQL_TIME) (s : Z) :=
  set_hms t (hour t) (minute t) s (second_part t).
Definition set_second_part (t : MYSQL_TIME) (sp : Z) :=
  set_hms t (hour t) (minute t) (second t) sp.

(** Digits of the first part, and what follows the whole number. *)
Definition count_digits (str : list Z) : Z * list Z :=
  let '(digits, pos) := skip_digits str in
  let '(digits, pos) :=
    match pos with
    | c :: pos' => if c =? chr_T then let '(d, r) := skip_digits pos' in (digits + d, r)
                   else (digits, pos)
    | [] => (digits, pos)
    end in
  match pos with
  | c :: pos' => if (c =? chr_dot) && (digits >=? 12) then (digits, snd (skip_digits pos'))
                 else (digits, pos)
  | [] => (digits, pos)
  end.

Definition internal_format_steps (year_length : nat) : step :=
  (digits_step year set_year year_length
   <||> digits_step month set_month 2
   <||> digits_step day set_day 2
   <||> get_maybe_T
   <||> digits_step hour set_hour 2
   <||> digits_step minute set_minute 2
   <||> digits_step second set_second 2)%step.

Definition separated_steps (after flags : Z) : step :=
  (get_punct
   <||> number_step month set_month
   <||> get_punct
   <||> number_step day set_day
   <||> get_date_time_separator after flags
   <||> number_step hour set_hour
   <||> get_punct
   <||> number_step minute set_minute
   <||> get_punct
   <||> number_step second set_second)%step.

(** The fields: (truncated, length of the year, parser). *)
Definition read_fields (after flags : Z) (str : list Z) : option (bool * Z * parser) :=
  let '(digits, pos) := count_digits str in
  let p := mk_parser bzero_time 0 str in
  match pos with
  | [] =>
    let year_length :=
      if (digits =? 4) || (digits =? 8) || (digits >=? 14) then 4%nat else 2%nat in
    match internal_format_steps year_length p with
    | Some (e, p') => Some (e, Z.of_nat year_length, p')
    | None => None
    end
  | _ :: _ =>
    match number_step year set_year p with
    | Some (e, p') =>
      let year_length := Z.of_nat (length str - length (p_str p')) in
      if e then Some (true, year_length, p')
      else match separated_steps after flags p' with
           | Some (e, p'') => Some (e, year_length, p'')
           | None => None
           end
    | None => None
    end
  end.

Definition datetime_result : Type := bool * MYSQL_TIME * MYSQL_TIME_STATUS.

Definition datetime_err (st : MYSQL_TIME_STATUS) : datetime_result :=
  (true, set_time_type bzero_time MYSQL_TIMESTAMP_ERROR, st).

(** The test for a fraction after the fields; the microseconds are still 0
    when it fails. *)
Definition read_fraction (st : MYSQL_TIME_STATUS) (nof : Z) (s : list Z)
  : Z * MYSQL_TIME_STATUS * Z * list Z :=
  match s with
  | c :: s' =>
    if (warnings st =? 0) && (c =? chr_dot) then get_microseconds st nof s' else (0, st, nof, s)
  | [] => (0, st, nof, s)
  end.

Definition not_zero (t : MYSQL_TIME) : bool :=
  negb (year t =? 0) || negb (month t =? 0) || negb (day t =? 0) || negb (hour t =? 0) ||
  negb (minute t =? 0) || negb (second t =? 0) || negb (second_part t =? 0).

(** From the test [number_of_fields < 3] to the end. *)
Definition finish_datetime (flags : Z) (truncated : bool) (year_length : Z) (p : parser)
  : datetime_result :=
  let st := if truncated then mk_status MYSQL_TIME_WARN_TRUNCATED 0 else my_time_status_init in
  if p_nof p <? 3 then
    (true, set_time_type (p_time p) MYSQL_TIMESTAMP_NONE,
     add_warning st MYSQL_TIME_WARN_TRUNCATED)
  else
    let '(sp, st, nof, s) := read_fraction st (p_nof p) (p_str p) in
    let t := set_second_part (p_time p) sp in
    let not_zero_date := not_zero t in
    let t := if (year_length =? 2) && not_zero_date
             then set_year t (u32 (year t + (if year t <? YY_PART_YEAR then 2000 else 1900)))
             else t in
    if (year t >? 9999) || (month t >? 12) || (day t >? 31) || (hour t >? 23) ||
       (minute t >? 59) || (second t >? 59)
    then datetime_err (add_warning st MYSQL_TIME_WARN_TRUNCATED)
    else
      let '(bad, w) := check_date t not_zero_date flags (warnings st) in
      let st := mk_status w (precision st) in
      if bad then datetime_err st
      else
        let t := set_time_type t (if nof <=? 3 then MYSQL_TIMESTAMP_DATE
                                  else MYSQL_TIMESTAMP_DATETIME) in
        (false, t,
         match skip_spaces s with
         | [] => st
         | _ :: _ => mk_status MYSQL_TIME_WARN_TRUNCATED (precision st)
         end).

(** [str_to_datetime] when TIME_TIME_ONLY is not among the flags. *)
Definition str_to_datetime_only (after : Z) (str : list Z) (flags : Z) : option datetime_result :=
  match skip_spaces str with
  | [] => Some (true, set_time_type bzero_time MYSQL_TIMESTAMP_NONE,
                mk_status MYSQL_TIME_WARN_TRUNCATED 0)
  | c :: s' =>
    if negb (my_isdigit c) then
      Some (true, set_time_type bzero_time MYSQL_TIMESTAMP_NONE,
            mk_status MYSQL_TIME_WARN_TRUNCATED 0)
    else match read_fields after flags (c :: s') with
         | Some (truncated, year_length, p) =>
           Some (finish_datetime flags truncated year_length p)
         | None => None
         end
  end.

(** ** [str_to_time] *)

(** [ulonglong value] accumulated over the digits. *)
Fixpoint read_value (value : Z) (s : list Z) : Z * list Z :=
  match s with
  | c :: s' =>
    if my_isdigit c then read_value (u64 (value * 10 + (c - 48))) s' else (value, s)
  | [] => (value, [])
  end.

(** The loop that reads hours, minutes and seconds, from [date[4-n]] on:
    the values stored and the position. *)
Fixpoint read_parts (n : nat) (s : list Z) : list Z * list Z :=
  match n with
  | O => ([], s)
  | S n' =>
    let '(v, s') := read_value 0 s in
    match n', s' with
    | S _, c :: ((c1 :: _) as s'') =>
      if (c =? time_separator) && my_isdigit c1
      then let '(vs, r) := read_parts n' s'' in (v :: vs, r)
      else ([v], s')
    | _, _ => ([v], s')
    end
  end.

(** [date[0..3]] and the position before the fraction. *)
Definition read_time_parts (str : list Z) : list Z * list Z :=
  let '(value, end_of_days) := read_value 0 str in
  let s := skip_spaces end_of_days in
  let found_days :=
    match s with
    | c :: _ :: _ => negb (Nat.eqb (length s) (length end_of_days)) && my_isdigit c
    | _ => false
    end in
  if found_days then let '(vs, r) := read_parts 3 s in (value :: vs, r)
  else
    let one_number :=
      ([0; Z.quot value 10000; Z.rem (Z.quot value 100) 100; Z.rem value 100], s) in
    match s with
    | c :: ((c1 :: _) as s') =>
      if (c =? time_separator) && my_isdigit c1
      then let '(vs, r) := read_parts 2 s' in (0 :: value :: vs, r)
      else one_number
    | _ => one_number
    end.

Definition has_exponent (s : list Z) : bool :=
  match s with
  | c :: c1 :: r =>
    ((c =? chr_e) || (c =? chr_E)) &&
    (my_isdigit c1 ||
     (((c1 =? 45) || (c1 =? 43)) &&
      match r with c2 :: _ => my_isdigit c2 | [] => false end))
  | _ => false
  end.

Definition UINT_MAX : Z := 4294967295.

(** The part after the test for a full timestamp. *)
Definition str_to_time_only (negative : bool) (str : list Z) : datetime_result :=
  let '(date, s) := read_time_parts str in
  let '(date4, st, _, s) := read_fraction my_time_status_init 0 s in
  if has_exponent s then datetime_err (add_warning st MYSQL_TIME_WARN_TRUNCATED)
  else if (array_get date 0 >? UINT_MAX) || (array_get date 1 >? UINT_MAX) ||
          (array_get date 2 >? UINT_MAX) || (array_get date 3 >? UINT_MAX) ||
          (date4 >? UINT_MAX)
  then datetime_err (add_warning st MYSQL_TIME_WARN_OUT_OF_RANGE)
  else
    let t := mk_MYSQL_TIME 0 0 0 (u32 (array_get date 1 + array_get date 0 * 24))
               (array_get date 2) (array_get date 3) date4 negative MYSQL_TIMESTAMP_TIME in
    let '(r, t, w) := check_time_range t 6 (warnings st) in
    let st := mk_status w (precision st) in
    if negb (r =? 0) then (true, t, st)
    else (false, t, match skip_spaces s with
                    | [] => st
                    | _ :: _ => add_warning st MYSQL_TIME_WARN_TRUNCATED
                    end).

Definition str_to_time (after : Z) (str : list Z) (fuzzydate : Z) : option datetime_result :=
  let str := skip_spaces str in
  let '(negative, str) :=
    match str with
    | c :: s' => if c =? 45 then (true, s') else (false, str)
    | [] => (false, str)
    end in
  match str with
  | [] => Some (datetime_err (add_warning my_time_status_init MYSQL_TIME_WARN_TRUNCATED))
  | _ :: _ =>
    if Z.of_nat (length str) >=? 12 then
      match str_to_datetime_only after str
              (Z.lor (Z.land fuzzydate (Z.lnot TIME_TIME_ONLY)) TIME_DATETIME_ONLY) with
      | Some (r, t, st) =>
        if timestamp_type_val (time_type t) >=? timestamp_type_val MYSQL_TIMESTAMP_ERROR
        then Some (is_type (time_type t) MYSQL_TIMESTAMP_ERROR, t, st)
        else Some (str_to_time_only negative str)
      | None => None
      end
    else Some (str_to_time_only negative str)
  end.

Definition str_to_datetime (after : Z) (str : list Z) (flags : Z) : option datetime_result :=
  if has_flag flags TIME_TIME_ONLY then str_to_time after str flags
  else str_to_datetime_only after str flags.

(** ** Printing

    Each printer returns the bytes written before the terminating zero; their
    number is the C function's result. *)

Fixpoint fmt_number (val : Z) (digits : nat) : list Z :=
  match digits with
  | O => []
  | S d => fmt_number (Z.quot val 10) d ++ [48 + Z.rem val 10]
  end.

Definition auto_digits (t : MYSQL_TIME) (digits : Z) : Z :=
  if digits =? AUTO_SEC_PART_DIGITS
  then (if negb (second_part t =? 0) then TIME_SECOND_PART_DIGITS else 0)
  else digits.

Definition fmt_fraction (sp digits : Z) : list Z :=
  if negb (digits =? 0)
  then chr_dot :: fmt_number (u32 (sec_part_shift sp digits)) (Z.to_nat digits)
  else [].

Definition my_time_to_str (t : MYSQL_TIME) (digits : Z) : list Z :=
  let dy := if negb (year t =? 0) || negb (month t =? 0) then 0 else day t in
  let hr := u32 (dy * 24 + hour t) in
  let digits := auto_digits t digits in
  (if neg t then [45] else []) ++
  (if hr >? 99 then longlong10_to_str hr 10 else fmt_number hr 2) ++
  [chr_colon] ++ fmt_number (minute t) 2 ++
  [chr_colon] ++ fmt_number (second t) 2 ++
  fmt_fraction (second_part t) digits.

Definition my_date_to_str (t : MYSQL_TIME) : list Z :=
  fmt_number (year t) 4 ++ [45] ++ fmt_number (month t) 2 ++ [45] ++ fmt_number (day t) 2.

Definition my_datetime_to_str (t : MYSQL_TIME) (digits : Z) : list Z :=
  let digits := auto_digits t digits in
  fmt_number (year t) 4 ++ [45] ++ fmt_number (month t) 2 ++ [45] ++ fmt_number (day t) 2 ++
  [32] ++ fmt_number (hour t) 2 ++ [chr_colon] ++ fmt_number (minute t) 2 ++
  [chr_colon] ++ fmt_number (second t) 2 ++
  fmt_fraction (second_part t) digits.

Definition my_TIME_to_str (t : MYSQL_TIME) (digits : Z) : list Z :=
  match time_type t with
  | MYSQL_TIMESTAMP_DATETIME => my_datetime_to_str t digits
  | MYSQL_TIMESTAMP_DATE => my_date_to_str t
  | MYSQL_TIMESTAMP_TIME => my_time_to_str t digits
  | MYSQL_TIMESTAMP_NONE | MYSQL_TIMESTAMP_ERROR => []
  end.

(** [tv_sec] and [tv_usec] of the [struct timeval]. *)
Definition my_timeval_to_str (tv_sec tv_usec dec : Z) : list Z :=
  longlong10_to_str tv_sec 10 ++ fmt_fraction tv_usec dec.

(** ** Digits *)

Lemma my_isdigit_digit c : is_digit c -> my_isdigit c = true.
Proof.
  unfold is_digit. intros H.
  assert (c = 48 \/ c = 49 \/ c = 50 \/ c = 51 \/ c = 52 \/ c = 53 \/ c = 54 \/ c = 55 \/
          c = 56 \/ c = 57) as Hc by lia.
  repeat (destruct Hc as [-> | Hc]; [reflexivity|]). by subst.
Qed.

(** The text at this position does not go on with a digit. *)
Definition no_digit (s : list Z) : Prop :=
  match s with [] => True | c :: _ => my_isdigit c = false end.

Lemma fmt_number_spec d v : 0 <= v ->
  length (fmt_number v d) = d /\ Forall is_digit (fmt_number v d) /\
  dec_value (fmt_number v d) = v mod 10 ^ Z.of_nat d.
Proof.
  revert v. induction d as [|d IH]; intros v Hv.
  - simpl. rewrite Z.mod_1_r. auto.
  - cbn [fmt_number]. rewrite Z.quot_div_nonneg, Z.rem_mod_nonneg by lia.
    assert (0 <= v / 10) as Hq by (apply Z.div_pos; lia).
    destruct (IH _ Hq) as (H1 & H2 & H3).
    rewrite length_app, H1, Forall_app, Forall_singleton, dec_value_app, H3.
    change (dec_value [48 + v mod 10]) with (48 + v mod 10 - 48).
    simpl length. change (10 ^ Z.of_nat 1) with 10.
    pose proof (Z.mod_pos_bound v 10).
    split; [lia|]. split; [split; [done|unfold is_digit; lia]|].
    rewrite Nat2Z.inj_succ, Z.pow_succ_r, Z.rem_mul_r by lia. lia.
Qed.

Lemma fmt_number_value d v : 0 <= v < 10 ^ Z.of_nat d ->
  dec_value (fmt_number v d) = v.
Proof. intros H. destruct (fmt_number_spec d v) as (_ & _ & ->); [lia|]. by apply Z.mod_small. Qed.

Lemma get_number_loop_app n val ds rest :
  Forall is_digit ds -> (length ds <= n)%nat -> ((length ds < n)%nat -> no_digit rest) ->
  0 <= val -> dec_acc val ds < 2 ^ 32 ->
  get_number_loop n val (ds ++ rest) = (dec_acc val ds, rest).
Proof.
  revert n val. induction ds as [|c ds IH]; intros n val Hd Hl Hs Hv Hm; simpl in *.
  - destruct n as [|n]; [by destruct rest|]. destruct rest as [|c r]; [done|].
    simpl in *. by rewrite Hs by lia.
  - apply Forall_cons in Hd as [Hc Hd]. destruct n as [|n]; [lia|].
    cbn [get_number_loop]. rewrite my_isdigit_digit by done. unfold is_digit in Hc.
    fold (dec_acc (val * 10 + (c - 48)) ds) in *.
    assert (0 <= val * 10 + (c - 48) <= dec_acc (val * 10 + (c - 48)) ds).
    { rewrite dec_acc_linear. pose proof (dec_value_bounds ds Hd).
      assert (0 < 10 ^ Z.of_nat (length ds)) by (apply Z.pow_pos_nonneg; lia). nia. }
    rewrite u32_small by lia. replace (val * 10 + c - 48) with (val * 10 + (c - 48)) by lia.
    apply IH; auto; try lia. intros; apply Hs; lia.
Qed.

Lemma get_number_n_app n val nof ds rest :
  ds <> [] -> Forall is_digit ds -> (length ds <= n)%nat ->
  ((length ds < n)%nat -> no_digit rest) -> dec_value ds < 2 ^ 32 ->
  get_number_n n val nof (ds ++ rest) = (false, dec_value ds, nof + 1, rest).
Proof.
  intros Hne Hd Hl Hs Hv. destruct ds as [|c ds]; [done|].
  apply Forall_cons in Hd as [Hc Hd]. destruct n as [|n]; simpl in Hl; [lia|].
  simpl app. cbn [get_number_n]. rewrite my_isdigit_digit by done.
  change (dec_value (c :: ds)) with (dec_acc (c - 48) ds) in *.
  unfold is_digit in Hc. rewrite get_number_loop_app; auto; try lia.
  intros. apply Hs. simpl. lia.
Qed.

Lemma pow10_lt_u32 d : (d <= 9)%nat -> 10 ^ Z.of_nat d < 2 ^ 32.
Proof.
  intros. assert (10 ^ Z.of_nat d <= 10 ^ 9) by (apply Z.pow_le_mono_r; lia). lia.
Qed.

(** A field printed by [fmt_number] is read back by [get_number]. *)
Lemma number_step_fmt get set t nof v d rest :
  (1 <= d <= 9)%nat -> 0 <= v < 10 ^ Z.of_nat d -> no_digit rest ->
  number_step get set (mk_parser t nof (fmt_number v d ++ rest))
  = Some (false, mk_parser (set t v) (nof + 1) rest).
Proof.
  intros Hd Hv Hs. unfold number_step, get_number. simpl.
  destruct (fmt_number_spec d v) as (L & D & _); [lia|].
  pose proof (pow10_lt_u32 d). rewrite get_number_n_app; auto.
  - by rewrite fmt_number_value.
  - intros E. rewrite E in L. simpl in L. lia.
  - rewrite length_app. lia.
  - rewrite fmt_number_value by done. lia.
Qed.

Lemma skip_digits_app ds rest : Forall is_digit ds -> no_digit rest ->
  skip_digits (ds ++ rest) = (Z.of_nat (length ds), rest).
Proof.
  induction ds as [|c ds IH]; intros Hd Hs.
  - destruct rest as [|c r]; [done|]. simpl in *. by rewrite Hs.
  - apply Forall_cons in Hd as [Hc Hd]. simpl app. cbn [skip_digits].
    rewrite my_isdigit_digit, IH by done. f_equal. simpl length. lia.
Qed.

Lemma log_10_int_pow n : 0 <= n <= 19 -> array_get log_10_int n = 10 ^ n.
Proof.
  intros H. rewrite <- (Z2Nat.id n) by lia. remember (Z.to_nat n) as k.
  assert (k <= 19)%nat by lia. clear Heqk H. unfold array_get. rewrite Nat2Z.id.
  do 20 (destruct k as [|k]; [reflexivity|]). lia.
Qed.

(** A printed fraction is read back as microseconds. *)
Lemma get_microseconds_fmt nof sp d :
  1 <= d <= 6 -> 0 <= sp <= TIME_MAX_SECOND_PART ->
  get_microseconds my_time_status_init nof (fmt_number (u32 (sec_part_shift sp d)) (Z.to_nat d))
  = (sp - my_time_fraction_remainder sp d, mk_status 0 d, nof + 1, []).
Proof.
  intros Hd Hs. unfold TIME_MAX_SECOND_PART in Hs.
  unfold get_microseconds, get_digits, sec_part_shift, my_time_fraction_remainder,
    TIME_SECOND_PART_DIGITS.
  rewrite log_10_int_pow by lia. set (P := 10 ^ (6 - d)).
  assert (0 < P) by (apply Z.pow_pos_nonneg; lia).
  assert (P * 10 ^ d = 1000000) as HP.
  { unfold P. rewrite <- Z.pow_add_r by lia. replace (6 - d + d) with 6 by lia. done. }
  rewrite Z.quot_div_nonneg, Z.rem_mod_nonneg by lia.
  assert (0 <= sp / P < 10 ^ d) as Hq.
  { split; [apply Z.div_pos; lia|]. apply Z.div_lt_upper_bound; lia. }
  assert (10 ^ d <= 10 ^ 6) by (apply Z.pow_le_mono_r; lia).
  rewrite u32_small by lia.
  destruct (fmt_number_spec (Z.to_nat d) (sp / P)) as (L & D & _); [lia|].
  assert (dec_value (fmt_number (sp / P) (Z.to_nat d)) = sp / P) as V.
  { apply fmt_number_value. rewrite Z2Nat.id; lia. }
  rewrite <- (app_nil_r (fmt_number _ _)).
  rewrite get_number_n_app; try done; try (rewrite ?length_app, ?L, ?V; simpl; lia).
  2:{ intros E. rewrite E in L. simpl in L. lia. }
  rewrite app_nil_r, V, L. simpl length. rewrite Nat.sub_0_r, Z2Nat.id by lia. simpl.
  pose proof (Z.div_mod sp P).
  assert (sp / P * P <= sp) by (pose proof (Z.mod_pos_bound sp P); lia).
  destruct (Z.ltb_spec d 6).
  - rewrite log_10_int_pow by lia. fold P. rewrite u64_small by (split; nia).
    do 3 f_equal. lia.
  - assert (d = 6) as E by lia. unfold P in *. rewrite E in *. simpl in *.
    rewrite Z.div_1_r, Z.mod_1_r. do 3 f_equal. lia.
Qed.

(** ** Printed values are read back *)

Lemma step_or_ok a b p p' : a p = Some (false, p') -> step_or a b p = b p'.
Proof. intros E. unfold step_or. by rewrite E. Qed.

Lemma get_punct_punct t nof c s : my_ispunct c = true ->
  get_punct (mk_parser t nof (c :: s)) = Some (false, mk_parser t nof s).
Proof. intros E. unfold get_punct. simpl. by rewrite E. Qed.

Lemma fmt_number_head v d rest : 0 <= v -> (1 <= d)%nat ->
  exists c s, fmt_number v d ++ rest = c :: s /\ is_digit c.
Proof.
  intros Hv Hd. destruct (fmt_number_spec d v Hv) as (L & D & _).
  destruct (fmt_number v d) as [|c s]; simpl in L; [lia|].
  apply Forall_cons in D as [D _]. by exists c, (s ++ rest).
Qed.

Lemma is_digit_not_space c : is_digit c -> my_isspace c = false.
Proof.
  unfold is_digit. intros H.
  assert (c = 48 \/ c = 49 \/ c = 50 \/ c = 51 \/ c = 52 \/ c = 53 \/ c = 54 \/ c = 55 \/
          c = 56 \/ c = 57) as Hc by lia.
  repeat (destruct Hc as [-> | Hc]; [reflexivity|]). by subst.
Qed.

Lemma separator_space after flags t nof v d rest : 0 <= v -> (1 <= d)%nat ->
  get_date_time_separator after flags (mk_parser t nof (32 :: fmt_number v d ++ rest))
  = Some (false, mk_parser t nof (fmt_number v d ++ rest)).
Proof.
  intros Hv Hd. destruct (fmt_number_head v d rest Hv Hd) as (c & s & -> & Hc).
  unfold get_date_time_separator. simpl. by rewrite is_digit_not_space.
Qed.

(** One scanner step over a printed field or separator. *)
Ltac scan :=
  erewrite step_or_ok;
  [|first [ apply number_step_fmt; [lia | simpl; lia | done]
          | apply get_punct_punct; reflexivity
          | apply separator_space; lia ]].

Lemma count_digits_date y rest : 0 <= y <= 9999 ->
  count_digits (fmt_number y 4 ++ 45 :: rest) = (4, 45 :: rest).
Proof.
  intros Hy. destruct (fmt_number_spec 4 y) as (L & D & _); [lia|].
  unfold count_digits. rewrite skip_digits_app, L by done. reflexivity.
Qed.

Lemma no_digit_fraction sp d : no_digit (fmt_fraction sp d).
Proof. unfold fmt_fraction. by destruct (_ =? _). Qed.

Lemma read_fields_datetime after flags t digits : normalized t ->
  read_fields after flags (my_datetime_to_str t digits) =
  Some (false, 4, mk_parser
    (mk_MYSQL_TIME (year t) (month t) (day t) (hour t) (minute t) (second t) 0 false
       MYSQL_TIMESTAMP_DATE) 6 (fmt_fraction (second_part t) (auto_digits t digits))).
Proof.
  intros (Hy & Hm & Hd & Hh & Hmi & Hs & Hsp). unfold my_datetime_to_str, read_fields.
  pose proof (no_digit_fraction (second_part t) (auto_digits t digits)) as Hf.
  set (frac := fmt_fraction _ _) in *.
  cbn [app]. rewrite count_digits_date by lia.
  rewrite number_step_fmt by (simpl; first [lia|done]). cbv beta iota zeta delta [separated_steps].
  scan. scan. scan. scan. scan. scan. scan. scan. scan.
  rewrite number_step_fmt by (simpl; first [lia|done]).
  do 3 f_equal. rewrite length_app.
  destruct (fmt_number_spec 4 (year t)) as (L & _); [lia|]. rewrite L. by rewrite Nat.add_sub.
Qed.

Lemma normalized_in_range t : normalized t ->
  (year t >? 9999) || (month t >? 12) || (day t >? 31) || (hour t >? 23) ||
  (minute t >? 59) || (second t >? 59) = false.
Proof. unfold normalized. intros H. rewrite !Z.gtb_ltb. lia. Qed.

(** The fraction that follows the fields: nothing, or a point and [d] digits. *)
Lemma read_fraction_fmt nof sp d :
  0 <= d <= 6 -> 0 <= sp <= TIME_MAX_SECOND_PART ->
  read_fraction my_time_status_init nof (fmt_fraction sp d)
  = (sp - my_time_fraction_remainder sp d, mk_status 0 d, if d =? 0 then nof else nof + 1, []).
Proof.
  intros Hd Hs. unfold fmt_fraction. destruct (Z.eqb_spec d 0) as [->|Hne]; simpl.
  - unfold my_time_fraction_remainder, TIME_MAX_SECOND_PART in *.
    change (array_get log_10_int _) with 1000000. rewrite Z.rem_small by lia.
    by rewrite Z.sub_diag.
  - by rewrite get_microseconds_fmt by lia.
Qed.

Lemma trunc_normalized t d : normalized t -> 0 <= d <= 6 -> normalized (my_time_trunc t d).
Proof.
  unfold normalized, my_time_trunc, my_time_fraction_remainder. simpl. intros H Hd.
  unfold TIME_SECOND_PART_DIGITS. rewrite log_10_int_pow by lia.
  assert (0 < 10 ^ (6 - d)) by (apply Z.pow_pos_nonneg; lia).
  rewrite Z.rem_mod_nonneg by lia. pose proof (Z.mod_pos_bound (second_part t) (10 ^ (6 - d))).
  assert (second_part t mod 10 ^ (6 - d) <= second_part t) by (apply Z.mod_le; lia). lia.
Qed.

Lemma auto_digits_range t d : 0 <= d <= 6 \/ d = AUTO_SEC_PART_DIGITS ->
  0 <= auto_digits t d <= 6.
Proof.
  unfold auto_digits, AUTO_SEC_PART_DIGITS, TIME_SECOND_PART_DIGITS.
  destruct (Z.eqb_spec d 31), (Z.eqb_spec (second_part t) 0); simpl; lia.
Qed.

Lemma finish_datetime_fmt flags t d :
  normalized t -> neg t = false -> time_type t = MYSQL_TIMESTAMP_DATETIME -> 0 <= d <= 6 ->
  let t' := my_time_trunc t d in
  fst (check_date t' (not_zero t') flags 0) = false ->
  finish_datetime flags false 4
    (mk_parser (mk_MYSQL_TIME (year t) (month t) (day t) (hour t) (minute t) (second t) 0 false
       MYSQL_TIMESTAMP_DATE) 6 (fmt_fraction (second_part t) d))
  = (false, t', mk_status 0 d).
Proof.
  intros Hn Hneg Hty Hd t' Hc. pose proof (normalized_in_range _ (trunc_normalized t d Hn Hd)) as R.
  unfold finish_datetime. cbn [p_nof p_str p_time].
  change (6 <? 3) with false. cbv beta iota.
  rewrite read_fraction_fmt by (unfold normalized in Hn; lia).
  change (4 =? 2) with false. cbn [andb]. cbv beta iota zeta.
  set (t1 := set_second_part _ _).
  assert (t1 = set_time_type t' MYSQL_TIMESTAMP_DATE) as -> by
    (unfold t1, t', my_time_trunc, set_second_part, set_time_type, set_hms; simpl; by rewrite Hneg).
  cbn [set_time_type year month day hour minute second] in *. fold t' in R.
  change (not_zero (set_time_type t' _)) with (not_zero t'). rewrite R.
  assert (check_date (set_time_type t' MYSQL_TIMESTAMP_DATE) (not_zero t') flags 0 = (false, 0)) as Hc'.
  { clear - Hc Hty. revert Hc. unfold check_date. change (time_type t') with (time_type t).
    rewrite Hty. simpl. destruct (not_zero t'); simpl; by case_match. }
  cbn [warnings]. rewrite Hc'.
  replace ((if d =? 0 then 6 else 6 + 1) <=? 3) with false by (by destruct (d =? 0)).
  simpl. do 2 f_equal. unfold t', my_time_trunc, set_hms, set_time_type; simpl. by rewrite Hty.
Qed.

Lemma skip_spaces_digit s : match s with c :: _ => is_digit c | [] => True end -> skip_spaces s = s.
Proof. destruct s as [|c s]; [done|]. intros H. simpl. by rewrite is_digit_not_space. Qed.

(** [str_to_datetime] on a text that starts with a printed number. *)
Lemma str_to_datetime_only_fmt after v d rest flags : 0 <= v -> (1 <= d)%nat ->
  let str := fmt_number v d ++ rest in
  str_to_datetime_only after str flags =
  match read_fields after flags str with
  | Some (truncated, year_length, p) => Some (finish_datetime flags truncated year_length p)
  | None => None
  end.
Proof.
  intros Hv Hd str. unfold str_to_datetime_only, str.
  destruct (fmt_number_head v d rest Hv Hd) as (c & s & -> & Hc).
  rewrite skip_spaces_digit by done. by rewrite my_isdigit_digit.
Qed.

(** C35: a DATETIME printed by [my_datetime_to_str] with [digits] decimals (or
    with as many as it has) is read back by [str_to_datetime] as the same
    value with its fraction truncated to those decimals, without warnings and
    with the precision printed, under any flags under which the truncated
    value is a valid date. *)
Theorem str_to_datetime_of_my_datetime_to_str after t digits flags :
  normalized t -> neg t = false -> time_type t = MYSQL_TIMESTAMP_DATETIME ->
  0 <= digits <= 6 \/ digits = AUTO_SEC_PART_DIGITS ->
  has_flag flags TIME_TIME_ONLY = false ->
  let d := auto_digits t digits in
  let t' := my_time_trunc t d in
  fst (check_date t' (not_zero t') flags 0) = false ->
  str_to_datetime after (my_datetime_to_str t digits) flags = Some (false, t', mk_status 0 d).
Proof.
  intros Hn Hneg Hty Hdig Hfl d t' Hc. unfold str_to_datetime. rewrite Hfl.
  pose proof Hn as (Hy & _). unfold my_datetime_to_str.
  rewrite str_to_datetime_only_fmt by lia. fold (my_datetime_to_str t digits).
  rewrite read_fields_datetime by done.
  by rewrite finish_datetime_fmt by (done || apply auto_digits_range; done).
Qed.

Lemma str_to_datetime_of_my_datetime_to_str_witness :
  str_to_datetime 0 (my_datetime_to_str
    (mk_MYSQL_TIME 2017 2 28 23 59 58 123456 false MYSQL_TIMESTAMP_DATETIME) 3) 0
  = Some (false, mk_MYSQL_TIME 2017 2 28 23 59 58 123000 false MYSQL_TIMESTAMP_DATETIME,
          mk_status 0 3).
Proof.
  apply (str_to_datetime_of_my_datetime_to_str 0
    (mk_MYSQL_TIME 2017 2 28 23 59 58 123456 false MYSQL_TIMESTAMP_DATETIME) 3 0);
    try reflexivity; [unfold normalized, TIME_MAX_SECOND_PART; simpl; lia|lia].
Defined.

(** ** Dates *)

Lemma step_or_end_number get set t nof :
  number_step get set (mk_parser t nof []) = Some (false, mk_parser (set t (get t)) nof []).
Proof. reflexivity. Qed.

Lemma separated_steps_date after flags t y m d : 0 <= m <= 12 -> 0 <= d <= 31 ->
  separated_steps after flags
    (mk_parser (mk_MYSQL_TIME y 0 0 0 0 0 0 false t) 1
       (45 :: fmt_number m 2 ++ 45 :: fmt_number d 2))
  = Some (false, mk_parser (mk_MYSQL_TIME y m d 0 0 0 0 false t) 3 []).
Proof.
  intros Hm Hd. unfold separated_steps. rewrite <- (app_nil_r (fmt_number d 2)).
  scan. scan. scan. scan. reflexivity.
Qed.

(** A DATE printed by [my_date_to_str] is read back by
    [str_to_datetime] as the same DATE, without warnings, under any flags
    under which it is a valid date. *)
Theorem str_to_datetime_of_my_date_to_str after y m d flags :
  let t := mk_MYSQL_TIME y m d 0 0 0 0 false MYSQL_TIMESTAMP_DATE in
  normalized t -> has_flag flags TIME_TIME_ONLY = false ->
  fst (check_date t (not_zero t) flags 0) = false ->
  str_to_datetime after (my_date_to_str t) flags = Some (false, t, my_time_status_init).
Proof.
  intros t Hn Hfl Hc. pose proof Hn as (Hy & Hm & Hd & _). cbn in Hy, Hm, Hd.
  unfold str_to_datetime. rewrite Hfl.
  change (my_date_to_str t) with (fmt_number y 4 ++ 45 :: fmt_number m 2 ++ 45 :: fmt_number d 2).
  rewrite str_to_datetime_only_fmt by lia.
  unfold read_fields. rewrite count_digits_date by lia.
  rewrite number_step_fmt by (simpl; first [lia|done]). cbv beta iota zeta.
  rewrite length_app. destruct (fmt_number_spec 4 y) as (L & _); [simpl in *; lia|]. rewrite L.
  cbn [p_str]. rewrite Nat.add_sub.
  change (set_year bzero_time y) with (mk_MYSQL_TIME y 0 0 0 0 0 0 false MYSQL_TIMESTAMP_DATE).
  rewrite separated_steps_date by lia. f_equal.
  pose proof (normalized_in_range t Hn) as R.
  unfold finish_datetime. cbn [p_nof p_str p_time read_fraction]. change (3 <? 3) with false.
  cbv beta iota zeta. change (Z.of_nat 4 =? 2) with false. cbn [andb].
  change (set_second_part _ 0) with t. rewrite R.
  destruct (check_date t (not_zero t) flags (warnings my_time_status_init)) as [b w] eqn:E.
  unfold check_date in Hc, E. simpl in Hc, E. 
  assert (b = false /\ w = 0) as [-> ->] by (revert Hc E; repeat case_match; intros ? [= <- <-]; done).
  reflexivity.
Qed.

Lemma str_to_datetime_of_my_date_to_str_witness :
  str_to_datetime 32 (my_date_to_str
    (mk_MYSQL_TIME 2016 2 29 0 0 0 0 false MYSQL_TIMESTAMP_DATE)) 0
  = Some (false, mk_MYSQL_TIME 2016 2 29 0 0 0 0 false MYSQL_TIMESTAMP_DATE,
          my_time_status_init).
Proof.
  apply (str_to_datetime_of_my_date_to_str 32 2016 2 29 0); try reflexivity.
  unfold normalized, TIME_MAX_SECOND_PART; simpl; lia.
Defined.

(** ** Times *)

Lemma read_value_app v ds rest : Forall is_digit ds -> no_digit rest ->
  0 <= v -> dec_acc v ds < 2 ^ 64 -> read_value v (ds ++ rest) = (dec_acc v ds, rest).
Proof.
  revert v. induction ds as [|c ds IH]; intros v Hd Hs Hv Hm; simpl in *.
  - destruct rest as [|c r]; [done|]. simpl in *. by rewrite Hs.
  - apply Forall_cons in Hd as [Hc Hd]. rewrite my_isdigit_digit by done.
    fold (dec_acc (v * 10 + (c - 48)) ds) in *. unfold is_digit in Hc.
    assert (v * 10 + (c - 48) <= dec_acc (v * 10 + (c - 48)) ds).
    { rewrite dec_acc_linear. pose proof (dec_value_bounds ds Hd).
      assert (0 < 10 ^ Z.of_nat (length ds)) by (apply Z.pow_pos_nonneg; lia). nia. }
    rewrite u64_small by lia. apply IH; auto; lia.
Qed.

Lemma read_value_fmt v d rest : (d <= 9)%nat -> 0 <= v < 10 ^ Z.of_nat d -> no_digit rest ->
  read_value 0 (fmt_number v d ++ rest) = (v, rest).
Proof.
  intros Hd Hv Hs. destruct (fmt_number_spec d v) as (_ & D & _); [lia|].
  pose proof (pow10_lt_u32 d Hd). pose proof (fmt_number_value d v Hv).
  unfold dec_value in *. rewrite read_value_app; auto; lia || by f_equal.
Qed.

(** The hours of a value in range take two or three digits. *)
Definition hour_width (h : Z) : nat := if h >? 99 then 3 else 2.

Lemma hour_text h : 0 <= h <= TIME_MAX_HOUR ->
  (if h >? 99 then longlong10_to_str h 10 else fmt_number h 2) = fmt_number h (hour_width h).
Proof.
  intros H. rewrite <- (Z2Nat.id h) by lia. unfold TIME_MAX_HOUR in H.
  assert (Z.to_nat h < 839)%nat as Hk by lia. revert Hk. generalize (Z.to_nat h). clear.
  assert (Forall (fun k => (if Z.of_nat k >? 99 then longlong10_to_str (Z.of_nat k) 10
                   else fmt_number (Z.of_nat k) 2)
                   = fmt_number (Z.of_nat k) (hour_width (Z.of_nat k))) (List.seq 0 839)) as F.
  { refine (bool_decide_unpack _ _). vm_compute. exact I. }
  intros k Hk. rewrite Forall_forall in F. apply F. apply list_elem_of_In, in_seq. lia.
Qed.

Lemma fmt_number_length v d : 0 <= v -> length (fmt_number v d) = d.
Proof. intros H. by destruct (fmt_number_spec d v H). Qed.

Lemma hour_width_fits h : 0 <= h <= TIME_MAX_HOUR ->
  (2 <= hour_width h <= 3)%nat /\ 0 <= h < 10 ^ Z.of_nat (hour_width h).
Proof.
  unfold TIME_MAX_HOUR, hour_width. intros H. rewrite Z.gtb_ltb.
  destruct (Z.ltb_spec 99 h); simpl; lia.
Qed.

Lemma read_time_parts_fmt h m s sp d : 0 <= h <= TIME_MAX_HOUR -> 0 <= m <= 59 -> 0 <= s <= 59 ->
  read_time_parts (fmt_number h (hour_width h) ++ chr_colon :: fmt_number m 2 ++
                   chr_colon :: fmt_number s 2 ++ fmt_fraction sp d)
  = ([0; h; m; s], fmt_fraction sp d).
Proof.
  intros Hh Hm Hs. pose proof (hour_width_fits h Hh) as [Hw1 Hw2].
  pose proof (no_digit_fraction sp d) as Hf. set (frac := fmt_fraction sp d) in *.
  unfold read_time_parts. rewrite read_value_fmt by (simpl; done || lia).
  cbn [skip_spaces]. change (my_isspace chr_colon) with false. cbv beta iota zeta.
  destruct (fmt_number_head m 2 (chr_colon :: fmt_number s 2 ++ frac)) as (c & r & E & Hc); [lia..|].
  rewrite Nat.eqb_refl, E. cbv beta iota zeta. cbn [negb andb].
  rewrite my_isdigit_digit by done. change (chr_colon =? time_separator) with true.
  cbn [andb]. rewrite <- E. cbn [read_parts]. rewrite read_value_fmt by (simpl; done || lia).
  destruct (fmt_number_head s 2 frac) as (c' & r' & E' & Hc'); [lia..|].
  rewrite E'. rewrite my_isdigit_digit by done. change (chr_colon =? time_separator) with true.
  cbn [andb]. rewrite <- E'. rewrite read_value_fmt by (simpl; done || lia). reflexivity.
Qed.

(** The members of a TIME within its range. *)
Definition time_in_range (t : MYSQL_TIME) : Prop :=
  year t = 0 /\ month t = 0 /\ day t = 0 /\ 0 <= hour t <= TIME_MAX_HOUR /\
  0 <= minute t <= 59 /\ 0 <= second t <= 59 /\ 0 <= second_part t <= TIME_MAX_SECOND_PART /\
  time_type t = MYSQL_TIMESTAMP_TIME.

Lemma check_time_range_in_range t w : time_in_range t -> check_time_range t 6 w = (0, t, w).
Proof.
  unfold time_in_range, TIME_MAX_HOUR, TIME_MAX_SECOND_PART.
  intros (Hy & Hmo & Hd & Hh & Hm & Hs & Hsp & Hty). unfold check_time_range.
  rewrite Hd. change (u32 (24 * 0)) with 0. rewrite u32_small, !Z.geb_leb by lia.
  replace ((60 <=? minute t) || (60 <=? second t)) with false by lia.
  replace (hour t + 0 <=? TIME_MAX_HOUR) with true by (unfold TIME_MAX_HOUR; lia).
  change (array_get max_sec_part _) with 999999.
  replace (second_part t <=? 999999) with true by lia. by rewrite !orb_true_r.
Qed.

Lemma str_to_time_only_fmt t d n : time_in_range t -> neg t = n -> 0 <= d <= 6 ->
  str_to_time_only n (fmt_number (hour t) (hour_width (hour t)) ++ chr_colon ::
    fmt_number (minute t) 2 ++ chr_colon :: fmt_number (second t) 2 ++ fmt_fraction (second_part t) d)
  = (false, my_time_trunc t d, mk_status 0 d).
Proof.
  intros Ht Hn Hd. pose proof Ht as (Hy & Hmo & Hdy & Hh & Hm & Hs & Hsp & Hty).
  unfold str_to_time_only. rewrite read_time_parts_fmt, read_fraction_fmt by done.
  cbn [has_exponent]. cbv beta iota zeta. set (date := [0; _; _; _]).
  change (array_get date 0) with 0. change (array_get date 1) with (hour t).
  change (array_get date 2) with (minute t). change (array_get date 3) with (second t).
  set (sp' := second_part t - _).
  assert (0 <= sp' <= TIME_MAX_SECOND_PART) as Hsp'.
  { destruct (trunc_normalized (mk_MYSQL_TIME 0 0 0 0 0 0 (second_part t) false
      MYSQL_TIMESTAMP_TIME) d) as (_ & _ & _ & _ & _ & _ & H); [|done|exact H].
    unfold normalized. simpl. lia. }
  unfold UINT_MAX, TIME_MAX_HOUR, TIME_MAX_SECOND_PART in *. rewrite !Z.gtb_ltb.
  match goal with |- context [if ?b then datetime_err _ else _] => replace b with false by lia end.
  rewrite u32_small by lia. rewrite check_time_range_in_range.
  2:{ unfold time_in_range, TIME_MAX_HOUR, TIME_MAX_SECOND_PART. simpl.
      repeat split; lia || done. }
  cbn. do 2 f_equal. unfold my_time_trunc, set_hms. rewrite Hy, Hmo, Hdy, Hn, Hty, Z.add_0_r. done.
Qed.

Lemma datetime_only_flag f : has_flag (Z.lor f TIME_DATETIME_ONLY) TIME_DATETIME_ONLY = true.
Proof.
  unfold has_flag. rewrite Z.land_comm, Z.land_lor_distr_r, Z.land_diag.
  apply negb_true_iff, Z.eqb_neq. intros E%Z.lor_eq_0_iff. by destruct E.
Qed.

(** A time with a fraction is not taken for a full timestamp: the point makes
    the scan of the fields stop. *)
Lemma str_to_datetime_only_time after flags h m s sp d :
  0 <= h <= TIME_MAX_HOUR -> 0 <= m <= 59 -> 0 <= s <= 59 -> d <> 0 ->
  has_flag flags TIME_DATETIME_ONLY = true ->
  exists r t st,
    str_to_datetime_only after (fmt_number h (hour_width h) ++ chr_colon :: fmt_number m 2 ++
                   chr_colon :: fmt_number s 2 ++ fmt_fraction sp d) flags = Some (r, t, st) /\
    time_type t = MYSQL_TIMESTAMP_NONE.
Proof.
  intros Hh Hm Hs Hd Hf. destruct (hour_width_fits h Hh) as [Hw1 Hw2].
  pose proof (no_digit_fraction sp d) as Hn.
  rewrite str_to_datetime_only_fmt by lia. unfold read_fields, count_digits.
  destruct (fmt_number_spec (hour_width h) h) as (L & D & _); [lia|].
  rewrite skip_digits_app by done. change (chr_colon =? chr_T) with false.
  change (chr_colon =? chr_dot) with false. cbn [andb]. cbv beta iota zeta.
  rewrite number_step_fmt by (simpl; first [lia|done]). cbv beta iota zeta delta [separated_steps].
  scan. scan. scan. scan. unfold step_or at 1, get_date_time_separator, fmt_fraction.
  cbn [p_str]. rewrite (proj2 (Z.eqb_neq d 0)) by done. cbn [negb].
  change (chr_dot =? chr_T) with false. change (my_ispunct chr_dot) with true. rewrite Hf.
  do 3 eexists. split; [reflexivity|]. reflexivity.
Qed.

(** [str_to_time] past the sign, on a text that starts with a digit. *)
Lemma str_to_time_signed after n c s flags : is_digit c ->
  let flags' := Z.lor (Z.land flags (Z.lnot TIME_TIME_ONLY)) TIME_DATETIME_ONLY in
  (12 <= Z.of_nat (length (c :: s)) -> exists r t st,
     str_to_datetime_only after (c :: s) flags' = Some (r, t, st) /\
     time_type t = MYSQL_TIMESTAMP_NONE) ->
  str_to_time after ((if n : bool then [45] else []) ++ c :: s) flags
  = Some (str_to_time_only n (c :: s)).
Proof.
  intros Hc flags' H. unfold str_to_time. fold flags'.
  replace (skip_spaces _) with ((if n then [45] else []) ++ c :: s)
    by (destruct n; [done|]; by rewrite skip_spaces_digit).
  destruct (Z.geb_spec (Z.of_nat (length (c :: s))) 12).
  - destruct H as (r & t & st & E & Ety); [done|].
    destruct n; cbn [app].
    + change (45 =? 45) with true. cbv beta iota. rewrite E, Ety.
      destruct (Z.geb_spec (Z.of_nat (length (c :: s))) 12); [done|lia].
    + replace (c =? 45) with false by (unfold is_digit in Hc; lia). rewrite E, Ety.
      destruct (Z.geb_spec (Z.of_nat (length (c :: s))) 12); [done|lia].
  - destruct n; cbn [app].
    + change (45 =? 45) with true. cbv beta iota.
      destruct (Z.geb_spec (Z.of_nat (length (c :: s))) 12); [lia|done].
    + replace (c =? 45) with false by (unfold is_digit in Hc; lia).
      destruct (Z.geb_spec (Z.of_nat (length (c :: s))) 12); [lia|done].
Qed.

Lemma time_text_length h m s sp : 0 <= h <= TIME_MAX_HOUR -> 0 <= m -> 0 <= s ->
  Z.of_nat (length (fmt_number h (hour_width h) ++ chr_colon :: fmt_number m 2 ++
                   chr_colon :: fmt_number s 2 ++ fmt_fraction sp 0)) < 12.
Proof.
  intros Hh Hm Hs. destruct (hour_width_fits h Hh) as [Hw _].
  rewrite length_app, length_cons, length_app, length_cons, length_app.
  rewrite !fmt_number_length by lia. simpl. lia.
Qed.

(** A TIME within +-838:59:59.999999 printed by [my_time_to_str] with
    [digits] decimals is read back by [str_to_time] as the same value,
    its fraction truncated to those decimals, without warnings: the text is
    never taken for a full timestamp, however long it is. *)
Theorem str_to_time_of_my_time_to_str after t digits flags :
  time_in_range t -> 0 <= digits <= 6 \/ digits = AUTO_SEC_PART_DIGITS ->
  let d := auto_digits t digits in
  str_to_time after (my_time_to_str t digits) flags
  = Some (false, my_time_trunc t d, mk_status 0 d).
Proof.
  intros Ht Hdig d. pose proof (auto_digits_range t digits Hdig) as Hd. fold d in Hd.
  pose proof Ht as (Hy & Hmo & Hdy & Hh & Hm & Hs & Hsp & Hty).
  unfold my_time_to_str. fold d. rewrite Hy, Hmo, Hdy. cbn [Z.eqb negb orb].
  rewrite Z.mul_0_l, Z.add_0_l, u32_small by (unfold TIME_MAX_HOUR in Hh; lia).
  rewrite hour_text by done. rewrite <- (str_to_time_only_fmt t d (neg t)) by done.
  pose proof (fun Hd' flags Hf => str_to_datetime_only_time after flags (hour t) (minute t)
    (second t) (second_part t) d Hh Hm Hs Hd' Hf) as Q.
  pose proof (time_text_length (hour t) (minute t) (second t) (second_part t) Hh) as Hlen.
  destruct (hour_width_fits (hour t) Hh) as [Hw _].
  destruct (fmt_number_head (hour t) (hour_width (hour t)) (chr_colon :: fmt_number (minute t) 2 ++
     chr_colon :: fmt_number (second t) 2 ++ fmt_fraction (second_part t) d)) as (c & r & E & Hc);
    [lia..|].
  cbn [app]. rewrite E in *. apply str_to_time_signed; [done|]. intros Hl. apply Q.
  - intros Ed. rewrite Ed in E. rewrite E in Hlen. lia.
  - apply datetime_only_flag.
Qed.

Lemma str_to_time_of_my_time_to_str_witness :
  str_to_time 0 (my_time_to_str
    (mk_MYSQL_TIME 0 0 0 838 59 59 999999 true MYSQL_TIMESTAMP_TIME) AUTO_SEC_PART_DIGITS) 0
  = Some (false, mk_MYSQL_TIME 0 0 0 838 59 59 999999 true MYSQL_TIMESTAMP_TIME, mk_status 0 6).
Proof.
  apply (str_to_time_of_my_time_to_str 0
    (mk_MYSQL_TIME 0 0 0 838 59 59 999999 true MYSQL_TIMESTAMP_TIME)).
  - unfold time_in_range, TIME_MAX_HOUR, TIME_MAX_SECOND_PART; simpl; repeat split; lia.
  - by right.
Defined.

(** ** The scanner stays inside the text *)

(** With a byte at [end] that is not a space, no step reads beyond it. *)
Definition total_step (s : step) : Prop := forall p, exists r, s p = Some r.

Lemma total_step_or a b : total_step a -> total_step b -> total_step (step_or a b).
Proof.
  intros Ha Hb p. destruct (Ha p) as [[e p'] E]. unfold step_or. rewrite E.
  destruct e; [eauto|apply Hb].
Qed.

Lemma total_number_step get set : total_step (number_step get set).
Proof. intros p. unfold number_step. destruct (get_number _ _ _) as [[[? ?] ?] ?]. eauto. Qed.

Lemma total_digits_step get set n : total_step (digits_step get set n).
Proof. intros p. unfold digits_step. destruct (get_digits _ _ _ _) as [[[? ?] ?] ?]. eauto. Qed.

Lemma total_get_punct : total_step get_punct.
Proof. intros p. unfold get_punct. repeat case_match; eauto. Qed.

Lemma total_get_maybe_T : total_step get_maybe_T.
Proof. intros p. unfold get_maybe_T. repeat case_match; eauto. Qed.

Lemma skip_spaces_unbounded_some after s : my_isspace after = false ->
  exists r, skip_spaces_unbounded after s = Some r.
Proof.
  intros H. induction s as [|c s IH]; simpl; [rewrite H; eauto|].
  destruct (my_isspace c); eauto.
Qed.

Lemma total_separator after flags : my_isspace after = false ->
  total_step (get_date_time_separator after flags).
Proof.
  intros H p. unfold get_date_time_separator. repeat case_match; eauto.
  destruct (skip_spaces_unbounded_some after l H). congruence.
Qed.

Create HintDb scan_db.
#[export] Hint Resolve total_step_or total_number_step total_digits_step total_get_punct
  total_get_maybe_T total_separator : scan_db.

Lemma total_str_to_datetime_only after str flags : my_isspace after = false ->
  exists r, str_to_datetime_only after str flags = Some r.
Proof.
  intros H. unfold str_to_datetime_only. destruct (skip_spaces str) as [|c s]; [eauto|].
  destruct (my_isdigit c); simpl; [|eauto].
  assert (exists r, read_fields after flags (c :: s) = Some r) as [[[? ?] ?] ->]; [|eauto].
  unfold read_fields. destruct (count_digits _) as [digits [|c' pos]].
  - set (n := if _ : bool then 4%nat else 2%nat).
    assert (total_step (internal_format_steps n)) as T
      by (unfold internal_format_steps; auto 10 with scan_db).
    destruct (T (mk_parser bzero_time 0 (c :: s))) as [[? ?] ->]. eauto.
  - destruct (total_number_step year set_year (mk_parser bzero_time 0 (c :: s))) as [[e p] ->].
    destruct e; [eauto|].
    assert (total_step (separated_steps after flags)) as T
      by (unfold separated_steps; auto 15 with scan_db).
    destruct (T p) as [[? ?] ->]. eauto.
Qed.

(** When the byte after the text is not a space (a terminating zero, say),
    [str_to_datetime] answers on every text and never reads beyond that byte. *)
Theorem str_to_datetime_total after str flags : my_isspace after = false ->
  exists r, str_to_datetime after str flags = Some r.
Proof.
  intros H. unfold str_to_datetime, str_to_time.
  set (flags' := Z.lor _ _). set (q := match skip_spaces str with [] => _ | _ => _ end).
  destruct q as [n s].
  destruct (has_flag flags TIME_TIME_ONLY); [|by apply total_str_to_datetime_only].
  destruct s as [|c s]; [eauto|]. destruct (_ >=? 12); [|eauto].
  destruct (total_str_to_datetime_only after (c :: s) flags' H) as [[[r t] st] ->].
  case_match; eauto.
Qed.

Lemma str_to_datetime_total_witness :
  exists r, str_to_datetime 0 [50; 48; 49; 55; 45; 48; 49; 45; 48; 49; 32; 32] 0 = Some r.
Proof. apply str_to_datetime_total. reflexivity. Defined.

(** A text that ends with a space after the day, inside a longer buffer that
    goes on with a space, is read beyond its end. *)
Lemma str_to_datetime_overrun :
  str_to_datetime 32 [50; 48; 49; 55; 45; 48; 49; 45; 48; 49; 32] 0 = None.
Proof. reflexivity. Qed.

(** ** What is accepted is in range *)

Lemma my_isdigit_inv c : my_isdigit c = true -> is_digit c.
Proof.
  unfold my_isdigit, latin1_class, is_digit. intros H.
  destruct (Z_lt_le_dec (c + 1) 0); [unfold array_get in H; replace (Z.to_nat (c + 1)) with 0%nat in H by lia; done|].
  destruct (Z_lt_le_dec (c + 1) 257) as [Hu|Hu];
    [|unfold array_get in H; rewrite nth_overflow in H by (simpl; lia); done].
  rewrite <- (Z2Nat.id (c + 1)) in H by lia.
  assert (Z.to_nat (c + 1) < 257)%nat as Hk by lia.
  assert (Forall (fun k => has_flag (array_get ctype_latin1 (Z.of_nat k)) 4 = true ->
            49 <= Z.of_nat k <= 58) (List.seq 0 257)) as F.
  { refine (bool_decide_unpack _ _). vm_compute. exact I. }
  rewrite Forall_forall in F. specialize (F (Z.to_nat (c + 1))).
  rewrite Z2Nat.id in F by lia. rewrite Z2Nat.id in H by lia.
  cut (49 <= c + 1 <= 58); [lia|]. apply F; [|done]. apply list_elem_of_In, in_seq. lia.
Qed.

Lemma get_number_loop_nonneg n val s : 0 <= val -> 0 <= fst (get_number_loop n val s).
Proof.
  revert val s. induction n as [|n IH]; intros val s H; [done|]. simpl.
  destruct s as [|c s]; [done|]. destruct (my_isdigit c); [|done].
  apply IH. unfold u32. by apply Z.mod_pos_bound.
Qed.

Lemma get_number_n_nonneg n val nof s e v nof' s' : 0 <= val ->
  get_number_n n val nof s = (e, v, nof', s') -> 0 <= v.
Proof.
  intros H. unfold get_number_n. destruct n as [|n], s as [|c s]; try (intros [= <- <- <- <-]; done).
  destruct (my_isdigit c) eqn:E; [|intros [= <- <- <- <-]; done].
  destruct (get_number_loop n (c - 48) s) as [v' r] eqn:El. intros [= <- <- <- <-].
  apply my_isdigit_inv in E. unfold is_digit in E.
  pose proof (get_number_loop_nonneg n (c - 48) s). rewrite El in *. simpl in *. lia.
Qed.

(** The value under construction: members not negative, no fraction yet. *)
Definition scanned (t : MYSQL_TIME) : Prop :=
  0 <= year t /\ 0 <= month t /\ 0 <= day t /\ 0 <= hour t /\ 0 <= minute t /\ 0 <= second t /\
  second_part t = 0 /\ neg t = false /\ time_type t = MYSQL_TIMESTAMP_DATE.

(** Every step keeps it. *)
Definition keeps (s : step) : Prop :=
  forall p e p', scanned (p_time p) -> s p = Some (e, p') -> scanned (p_time p').

Lemma keeps_or a b : keeps a -> keeps b -> keeps (step_or a b).
Proof.
  intros Ha Hb p e p' Hp. unfold step_or. destruct (a p) as [[e1 p1]|] eqn:E; [|done].
  destruct e1; [intros [= <- <-]; eauto|eauto].
Qed.

(** A setter that only writes a member from a number that is not negative. *)
Definition good_field (get : MYSQL_TIME -> Z) (set : MYSQL_TIME -> Z -> MYSQL_TIME) : Prop :=
  (forall t, scanned t -> 0 <= get t) /\ (forall t v, scanned t -> 0 <= v -> scanned (set t v)).

Lemma good_fields :
  good_field year set_year /\ good_field month set_month /\ good_field day set_day /\
  good_field hour set_hour /\ good_field minute set_minute /\ good_field second set_second.
Proof. unfold good_field, scanned. repeat split; simpl in *; intuition. Qed.

Lemma keeps_number get set : good_field get set -> keeps (number_step get set).
Proof.
  intros [Hg Hs] p e p' Hp. unfold number_step, get_number.
  destruct (get_number_n _ _ _ _) as [[[e1 v] n] s] eqn:E. intros [= <- <-].
  apply get_number_n_nonneg in E; simpl; auto.
Qed.

Lemma keeps_digits get set n : good_field get set -> keeps (digits_step get set n).
Proof.
  intros [Hg Hs] p e p' Hp. unfold digits_step, get_digits.
  destruct (get_number_n _ _ _ _) as [[[e1 v] m] s] eqn:E. intros [= <- <-].
  apply get_number_n_nonneg in E; simpl; auto.
Qed.

Lemma keeps_get_punct : keeps get_punct.
Proof. intros p e p' Hp. unfold get_punct. repeat case_match; intros [= <- <-]; done. Qed.

Lemma keeps_get_maybe_T : keeps get_maybe_T.
Proof. intros p e p' Hp. unfold get_maybe_T. repeat case_match; intros [= <- <-]; done. Qed.

Lemma keeps_separator after flags : keeps (get_date_time_separator after flags).
Proof.
  intros p e p' Hp. unfold get_date_time_separator. repeat case_match; intros [= <- <-]; done.
Qed.

#[export] Hint Resolve keeps_or keeps_number keeps_digits keeps_get_punct keeps_get_maybe_T
  keeps_separator : scan_db.

Lemma read_fields_scanned after flags str tr yl p :
  read_fields after flags str = Some (tr, yl, p) -> scanned (p_time p).
Proof.
  destruct good_fields as (Hy & Hm & Hd & Hh & Hmi & Hs).
  assert (scanned bzero_time) as H0 by (unfold scanned; simpl; repeat split; lia).
  unfold read_fields. destruct (count_digits str) as [digits [|c pos]].
  - set (n := if _ : bool then 4%nat else 2%nat).
    assert (keeps (internal_format_steps n)) as K
      by (unfold internal_format_steps; auto 10 with scan_db).
    destruct (internal_format_steps _ _) as [[e p1]|] eqn:E; intros [= <- <- <-].
    apply K in E; auto.
  - destruct (number_step _ _ _) as [[e p1]|] eqn:E; [|done].
    apply keeps_number in E; auto. destruct e; [intros [= <- <- <-]; done|].
    assert (keeps (separated_steps after flags)) as K
      by (unfold separated_steps; auto 15 with scan_db).
    destruct (separated_steps _ _ _) as [[e2 p2]|] eqn:E2; intros [= <- <- <-].
    apply K in E2; auto.
Qed.

Lemma get_number_loop_bound k n val s v r : 0 <= k -> 0 <= val < 10 ^ k ->
  get_number_loop n val s = (v, r) ->
  (length r <= length s <= length r + n)%nat /\
  v < 10 ^ (k + Z.of_nat (length s - length r)).
Proof.
  revert k val s. induction n as [|n IH]; intros k val s Hk Hv E; simpl in E.
  - injection E as <- <-. rewrite Nat.sub_diag, Z.add_0_r. split; lia.
  - destruct s as [|c s]; [injection E as <- <-; simpl; rewrite Z.add_0_r; split; lia|].
    destruct (my_isdigit c) eqn:Ed.
    + apply my_isdigit_inv in Ed. unfold is_digit in Ed.
      assert (0 <= u32 (val * 10 + c - 48) < 10 ^ (k + 1)) as Hb.
      { rewrite Z.pow_add_r by lia. change (10 ^ 1) with 10. unfold u32.
        pose proof (Z.mod_le (val * 10 + c - 48) (2 ^ 32)).
        pose proof (Z.mod_pos_bound (val * 10 + c - 48) (2 ^ 32)). lia. }
      destruct (IH (k + 1) _ s ltac:(lia) Hb E) as [H1 H2]. cbn [length].
      split; [lia|]. eapply Z.lt_le_trans; [exact H2|]. apply Z.pow_le_mono_r; lia.
    + injection E as <- <-. rewrite Nat.sub_diag, Z.add_0_r. split; lia.
Qed.

Lemma get_digits_bound nof s n e v nof' r :
  get_digits 0 nof s n = (e, v, nof', r) ->
  (length r <= length s <= length r + n)%nat /\ 0 <= v < 10 ^ Z.of_nat (length s - length r).
Proof.
  unfold get_digits. intros E. assert (0 <= v) as H0 by (eapply get_number_n_nonneg; [|exact E]; lia).
  revert E. unfold get_number_n. destruct (Nat.min (length s) n) as [|m] eqn:Em, s as [|c s];
    try (intros [= <- <- <- <-]; rewrite Nat.sub_diag; simpl; lia).
  destruct (my_isdigit c) eqn:Ed; [|intros [= <- <- <- <-]; rewrite Nat.sub_diag; simpl; lia].
  destruct (get_number_loop m (c - 48) s) as [v' r'] eqn:El. intros [= <- <- <- <-].
  apply my_isdigit_inv in Ed. unfold is_digit in Ed.
  destruct (get_number_loop_bound 1 m (c - 48) s v' r') as [H1 H2]; [lia|lia|done|].
  cbn [length] in *. split; [lia|]. split; [done|]. eapply Z.lt_le_trans; [exact H2|].
  apply Z.pow_le_mono_r; lia.
Qed.

Lemma get_microseconds_bound st nof s v st' nof' r :
  get_microseconds st nof s = (v, st', nof', r) -> 0 <= v <= TIME_MAX_SECOND_PART.
Proof.
  unfold get_microseconds, TIME_MAX_SECOND_PART.
  destruct (get_digits 0 nof s 6) as [[[e tmp] n] s'] eqn:E.
  destruct (get_digits_bound _ _ _ _ _ _ _ E) as [Hl Hv].
  destruct (skip_digits s') as [k s'']. intros [= <- _ _ _].
  set (m := Z.of_nat (length s - length s')) in *. assert (0 <= m <= 6) by lia.
  destruct (Z.ltb_spec m 6).
  - rewrite log_10_int_pow by lia.
    assert (10 ^ m * 10 ^ (6 - m) = 10 ^ 6) as HP by (rewrite <- Z.pow_add_r by lia; f_equal; lia).
    assert (0 < 10 ^ (6 - m)) by (apply Z.pow_pos_nonneg; lia).
    rewrite u64_small by nia. nia.
  - assert (m = 6) as Em by lia. rewrite Em in Hv. lia.
Qed.

Lemma read_fraction_bound st nof s v st' nof' r :
  read_fraction st nof s = (v, st', nof', r) -> 0 <= v <= TIME_MAX_SECOND_PART.
Proof.
  unfold read_fraction, TIME_MAX_SECOND_PART.
  destruct s as [|c s]; [intros [= <- <- <- <-]; lia|].
  destruct (_ && _); [apply get_microseconds_bound|intros [= <- <- <- <-]; lia].
Qed.

(** What the flags promise of a date: a day not after the last one of its
    month, unless TIME_INVALID_DATES allows others; a month and a day, unless
    all is zero, with TIME_NO_ZERO_IN_DATE. *)
Definition accepted_date (flags : Z) (t : MYSQL_TIME) : Prop :=
  (time_type t = MYSQL_TIMESTAMP_DATE \/ time_type t = MYSQL_TIMESTAMP_DATETIME) /\
  normalized t /\ neg t = false /\
  (has_flag flags TIME_INVALID_DATES = false -> month t <> 0 ->
   day t <= dim (year t) (month t)) /\
  (has_flag flags TIME_NO_ZERO_IN_DATE = true -> not_zero t = true -> month t <> 0 /\ day t <> 0).

Lemma check_date_day t flags w w' :
  is_type (time_type t) MYSQL_TIMESTAMP_TIME = false ->
  check_date t true flags w = (false, w') -> has_flag flags TIME_INVALID_DATES = false ->
  1 <= month t -> day t <= dim (year t) (month t).
Proof.
  intros Hty. unfold check_date. rewrite Hty. intros H Hf Hm. revert H. rewrite Hf.
  rewrite (proj2 (Z.eqb_neq (month t) 0)) by lia. rewrite Z.gtb_ltb.
  cbn [negb andb]. unfold dim, leap.
  destruct (Z.eqb_spec (month t) 2) as [E|E].
  - rewrite E. change (array_get days_in_month (2 - 1)) with 28.
    destruct (Z.ltb_spec 28 (day t)), (Z.eqb_spec (calc_days_in_year (year t)) 366),
      (Z.eqb_spec (day t) 29); cbn [negb andb orb]; rewrite ?orb_true_r; done || lia.
  - destruct (Z.ltb_spec (array_get days_in_month (month t - 1)) (day t)); [|done].
    cbn [negb andb orb]. by rewrite orb_true_r.
Qed.

Lemma not_zero_false t : not_zero t = false -> month t = 0 /\ day t = 0.
Proof.
  unfold not_zero. intros Hz. repeat (apply orb_false_iff in Hz as [Hz ?]).
  destruct (Z.eqb_spec (month t) 0), (Z.eqb_spec (day t) 0); done.
Qed.

Lemma accepted_date_intro t ty flags nz w w' :
  scanned (set_second_part t 0) -> 0 <= second_part t <= TIME_MAX_SECOND_PART ->
  (nz = false -> not_zero t = false) ->
  (year t >? 9999) || (month t >? 12) || (day t >? 31) || (hour t >? 23) || (minute t >? 59) ||
    (second t >? 59) = false ->
  check_date t nz flags w = (false, w') ->
  ty = MYSQL_TIMESTAMP_DATE \/ ty = MYSQL_TIMESTAMP_DATETIME ->
  accepted_date flags (set_time_type t ty).
Proof.
  unfold scanned. simpl. intros (Hy & Hm & Hd & Hh & Hmi & Hs & _ & Hn & Hty) Hsp Hz R Hc Hty'.
  rewrite !Z.gtb_ltb in R. split; [done|]. split; [unfold normalized; simpl; lia|].
  split; [done|]. simpl. split.
  - intros Hf Hm0. destruct nz; [|by apply not_zero_false in Hz as [? _]].
    eapply check_date_day; eauto; [by rewrite Hty|lia].
  - intros Hf Hnz. change (not_zero t = true) in Hnz. destruct nz; [|by rewrite Hz in Hnz].
    revert Hc. unfold check_date. rewrite Hty, Hf. cbn [andb is_type].
    destruct (Z.eqb_spec (month t) 0), (Z.eqb_spec (day t) 0); done.
Qed.

Lemma finish_datetime_cases flags tr yl p r t st : scanned (p_time p) ->
  finish_datetime flags tr yl p = (r, t, st) ->
  (r = true /\ (time_type t = MYSQL_TIMESTAMP_NONE \/ time_type t = MYSQL_TIMESTAMP_ERROR)) \/
  (r = false /\ accepted_date flags t).
Proof.
  intros (Hy & Hm & Hd & Hh & Hmi & Hs & Hsp & Hn & Hty). unfold finish_datetime.
  destruct (_ <? 3); [intros [= <- <- <-]; auto|].
  destruct (read_fraction _ _ _) as [[[sp st1] nof] s] eqn:E. apply read_fraction_bound in E.
  set (t0 := set_second_part _ _). set (nz := not_zero t0).
  set (t1 := if (_ && nz)%bool then _ else t0).
  assert (scanned (set_second_part t1 0) /\ second_part t1 = sp /\
          (nz = false -> not_zero t1 = false)) as (S1 & S2 & S3).
  { unfold t1. assert (nz = false -> not_zero t0 = false) as Hz by done.
    destruct (_ =? 2); [|unfold scanned; simpl; auto 10].
    destruct nz; [|unfold scanned; simpl; auto 10]. unfold scanned; simpl.
    repeat split; auto; try done. unfold u32. by apply Z.mod_pos_bound. }
  destruct (_ || _ || _ || _ || _ || _) eqn:R; [intros [= <- <- <-]; auto|].
  destruct (check_date t1 nz flags (warnings st1)) as [[] w'] eqn:C; intros [= <- <- _]; auto.
  right. split; [done|]. eapply accepted_date_intro; eauto; [by rewrite S2|].
  destruct (_ <=? _); auto.
Qed.

Lemma str_to_datetime_only_cases after str flags r t st :
  str_to_datetime_only after str flags = Some (r, t, st) ->
  (r = true /\ (time_type t = MYSQL_TIMESTAMP_NONE \/ time_type t = MYSQL_TIMESTAMP_ERROR)) \/
  (r = false /\ accepted_date flags t).
Proof.
  unfold str_to_datetime_only. destruct (skip_spaces str) as [|c s]; [intros [= <- <- <-]; auto|].
  destruct (my_isdigit c); simpl; [|intros [= <- <- <-]; auto].
  destruct (read_fields after flags (c :: s)) as [[[tr yl] p]|] eqn:E; [|done].
  apply read_fields_scanned in E. intros [= H]. eapply finish_datetime_cases; eauto.
Qed.

Lemma read_value_u64 v s : 0 <= v -> 0 <= fst (read_value v s).
Proof.
  revert v. induction s as [|c s IH]; intros v H; simpl; [done|].
  destruct (my_isdigit c); [|done]. apply IH. unfold u64. by apply Z.mod_pos_bound.
Qed.

Lemma read_parts_nonneg n s : Forall (fun v => 0 <= v) (fst (read_parts n s)).
Proof.
  revert s. induction n as [|n IH]; intros s; cbn [read_parts]; [constructor|].
  pose proof (read_value_u64 0 s ltac:(lia)) as Hv.
  destruct (read_value 0 s) as [v s']. simpl in Hv.
  assert (Forall (fun v => 0 <= v) [v]) by (by repeat constructor).
  destruct n, s' as [|c [|c1 s']]; cbn [fst]; try done.
  destruct (_ && _); [|done].
  specialize (IH (c1 :: s')). destruct (read_parts (S n) (c1 :: s')). by constructor.
Qed.

Lemma array_get_nonneg a i : Forall (fun v => 0 <= v) a -> 0 <= array_get a i.
Proof.
  intros H. unfold array_get. destruct (nth_in_or_default (Z.to_nat i) a 0) as [Hi|Hi]; [|lia].
  rewrite Forall_forall in H. apply H. by apply list_elem_of_In.
Qed.

Lemma read_time_parts_nonneg s : Forall (fun v => 0 <= v) (fst (read_time_parts s)).
Proof.
  unfold read_time_parts. pose proof (read_value_u64 0 s ltac:(lia)) as Hv.
  destruct (read_value 0 s) as [v e]. simpl in Hv.
  set (q := ([0; Z.quot v 10000; Z.rem (Z.quot v 100) 100; Z.rem v 100], skip_spaces e)).
  assert (Forall (fun v => 0 <= v) (fst q)) as Hq.
  { simpl. repeat constructor; try lia; try (apply Z.quot_pos; lia); apply Z.rem_nonneg; try lia.
    apply Z.quot_pos; lia. }
  match goal with |- context [if ?b then _ else _] => destruct b end.
  - pose proof (read_parts_nonneg 3 (skip_spaces e)). destruct (read_parts 3 _). by constructor.
  - destruct (skip_spaces e) as [|c [|c1 s']]; [done..|]. destruct (_ && _); [|done].
    pose proof (read_parts_nonneg 2 (c1 :: s')). destruct (read_parts 2 _). constructor; [lia|].
    by constructor.
Qed.

Lemma str_to_time_only_cases n s r t st : str_to_time_only n s = (r, t, st) ->
  r = true \/ (r = false /\ time_in_range t).
Proof.
  unfold str_to_time_only. pose proof (read_time_parts_nonneg s) as Hp.
  destruct (read_time_parts s) as [date r0]. simpl in Hp.
  destruct (read_fraction _ _ _) as [[[d4 st1] nof] r1] eqn:E. apply read_fraction_bound in E.
  destruct (has_exponent r1); [intros [= <- <- <-]; auto|].
  destruct (_ || _ || _ || _ || _); [intros [= <- <- <-]; auto|].
  set (t0 := mk_MYSQL_TIME 0 0 0 _ _ _ _ _ _).
  destruct (check_time_range t0 6 (warnings st1)) as [[r2 t2] w2] eqn:C.
  destruct (Z.eqb_spec r2 0); simpl; intros [= <- <- _]; [|auto]. right. split; [done|].
  revert C. unfold check_time_range. pose proof (array_get_nonneg date 2 Hp).
  pose proof (array_get_nonneg date 3 Hp). cbn [minute second hour day t0].
  rewrite !Z.geb_leb. destruct (_ || _) eqn:R; [intros [= <- <- <-]; done|].
  cbn [minute second t0] in R. change (u32 (24 * 0)) with 0. rewrite Z.add_0_r.
  set (h := u32 (array_get date 1 + _)) in *. assert (0 <= h < 2 ^ 32) by (apply Z.mod_pos_bound; lia).
  rewrite (u32_small h) by done.
  destruct (_ && _) eqn:C; intros [= <- <- <-]; unfold time_in_range, TIME_MAX_SECOND_PART in *; simpl.
  - apply andb_true_iff in C as [C _]. repeat split; done || lia.
  - repeat split; done || lia.
Qed.

Lemma other_flag f g :
  Z.land TIME_DATETIME_ONLY g = 0 -> Z.land (Z.lnot TIME_TIME_ONLY) g = g ->
  has_flag (Z.lor (Z.land f (Z.lnot TIME_TIME_ONLY)) TIME_DATETIME_ONLY) g = has_flag f g.
Proof. intros H1 H2. unfold has_flag. by rewrite Z.land_lor_distr_l, <- Z.land_assoc, H1, H2, Z.lor_0_r. Qed.

(** C36: a text [str_to_datetime] accepts gives either a DATE or DATETIME whose
    members are in range, or a TIME within +-838:59:59.999999.  The month and
    the day of a date may be 0, as in 2017-02-00, but with TIME_NO_ZERO_IN_DATE
    only when all is zero; where the month is not 0 the day is not after its
    last one, unless TIME_INVALID_DATES is given. *)
Theorem str_to_datetime_sound after str flags t st :
  str_to_datetime after str flags = Some (false, t, st) ->
  accepted_date flags t \/ (has_flag flags TIME_TIME_ONLY = true /\ time_in_range t).
Proof.
  unfold str_to_datetime, str_to_time. set (flags' := Z.lor _ _).
  set (q := match skip_spaces str with [] => _ | _ => _ end). destruct q as [n s].
  destruct (has_flag flags TIME_TIME_ONLY).
  2:{ intros [[? _]|[_ H]]%str_to_datetime_only_cases; [done|auto]. }
  destruct s as [|c s]; [done|].
  assert (forall x, Some (str_to_time_only n (c :: s)) = Some (false, x, st) -> time_in_range x) as T.
  { intros x [= [?|[_ ?]]%str_to_time_only_cases]; done. }
  destruct (_ >=? 12); [|eauto].
  destruct (str_to_datetime_only after (c :: s) flags') as [[[r1 t1] st1]|] eqn:E; [|done].
  destruct (_ >=? _) eqn:G; [|eauto]. intros [= Hr -> ->]. left.
  destruct (str_to_datetime_only_cases _ _ _ _ _ _ E) as [[_ [K|K]]|[_ K]];
    [by rewrite K in G|by rewrite K in Hr|].
  unfold accepted_date in *. unfold flags' in K. by rewrite !other_flag in K.
Qed.

Lemma str_to_datetime_sound_witness :
  accepted_date 0 (mk_MYSQL_TIME 2017 2 28 0 0 0 0 false MYSQL_TIMESTAMP_DATE) \/
  (has_flag 0 TIME_TIME_ONLY = true /\
   time_in_range (mk_MYSQL_TIME 2017 2 28 0 0 0 0 false MYSQL_TIMESTAMP_DATE)).
Proof.
  apply (str_to_datetime_sound 0 [49; 55; 48; 50; 50; 56] 0 _ my_time_status_init).
  vm_compute. reflexivity.
Defined.

(** The year of a separated date is accumulated in 32 bits: the year
    4294969313 is read as 2017, without a warning. *)
Theorem str_to_datetime_year_wraps :
  str_to_datetime 0
    [52; 50; 57; 52; 57; 54; 57; 51; 49; 51; 45; 48; 49; 45; 48; 49] 0
  = Some (false, mk_MYSQL_TIME 2017 1 1 0 0 0 0 false MYSQL_TIMESTAMP_DATE, my_time_status_init).
Proof. vm_compute. reflexivity. Qed.

(** Days and hours are added in 64 bits and stored in 32: the time
    178956971 0:00:00 (in days and hours) is read as 08:00:00 without a
    warning, where 1000 0:00:00 is clipped with one. *)
Theorem str_to_time_hour_wraps :
  str_to_time 0
    [49; 55; 56; 57; 53; 54; 57; 55; 49; 32; 48; 58; 48; 48; 58; 48; 48] 0
  = Some (false, mk_MYSQL_TIME 0 0 0 8 0 0 0 false MYSQL_TIMESTAMP_TIME, my_time_status_init) /\
  str_to_time 0 [49; 48; 48; 48; 32; 48; 58; 48; 48; 58; 48; 48] 0
  = Some (false, mk_MYSQL_TIME 0 0 0 838 59 59 999999 false MYSQL_TIMESTAMP_TIME,
          mk_status MYSQL_TIME_WARN_OUT_OF_RANGE 0).
Proof. split; vm_compute; reflexivity. Qed.
