(* ===== verification/SqlTime.v ===== *)
(** * Date and time arithmetic of the server: [sql/sql_time.cc],
    [sql/sql_time.h]

    Out-parameters and updated arguments are returned.  A pushed warning is a
    [time_warning] (level and type shown; the text is not modelled).  The
    current date of the session is an argument: it comes from the time zone
    object and the query's start time. *)
From S2P Require Import Prelude MyTime.
From Stdlib Require Import ZArith Lia List Bool.
From stdpp Require Import base tactics list.
Open Scope Z_scope.

(** ** Data *)

Inductive interval_type :=
| INTERVAL_YEAR | INTERVAL_QUARTER | INTERVAL_MONTH | INTERVAL_WEEK | INTERVAL_DAY
| INTERVAL_HOUR | INTERVAL_MINUTE | INTERVAL_SECOND | INTERVAL_MICROSECOND
| INTERVAL_YEAR_MONTH | INTERVAL_DAY_HOUR | INTERVAL_DAY_MINUTE | INTERVAL_DAY_SECOND
| INTERVAL_HOUR_MINUTE | INTERVAL_HOUR_SECOND | INTERVAL_MINUTE_SECOND
| INTERVAL_DAY_MICROSECOND | INTERVAL_HOUR_MICROSECOND | INTERVAL_MINUTE_MICROSECOND
| INTERVAL_SECOND_MICROSECOND | INTERVAL_LAST.

Record INTERVAL := mk_INTERVAL {
  i_year : Z; i_month : Z; i_day : Z; i_hour : Z;
  i_minute : Z; i_second : Z; i_second_part : Z;
  i_neg : bool
}.

Inductive warn_kind := WARN_TRUNCATED_VALUE | WARN_DATETIME_OVERFLOW.
Record time_warning := mk_time_warning {
  w_kind : warn_kind; w_type : enum_mysql_timestamp_type
}.

Definition MAX_DAY_NUMBER : Z := 3652424.
Definition INT_MAX32 : Z := 2147483647.
Definition WEEK_MONDAY_FIRST : Z := 1.
Definition WEEK_YEAR : Z := 2.
Definition WEEK_FIRST_WEEKDAY : Z := 4.

(** ** Days and weeks *)

Definition calc_weekday (daynr : Z) (sunday_first_day_of_week : bool) : Z :=
  Z.rem (daynr + 5 + (if sunday_first_day_of_week then 1 else 0)) 7.

(** The test that the first days of the year belong to the week before. *)
Definition first_days_outside (first_weekday : bool) (weekday : Z) : bool :=
  (first_weekday && negb (weekday =? 0)) || (negb first_weekday && (weekday >=? 4)).

(** Returns (week, [*year]). *)
Definition calc_week (l_time : MYSQL_TIME) (week_behaviour : Z) : Z * Z :=
  let daynr := u64 (calc_daynr (year l_time) (month l_time) (day l_time)) in
  let first_daynr := u64 (calc_daynr (year l_time) 1 1) in
  let monday_first := has_flag week_behaviour WEEK_MONDAY_FIRST in
  let week_year := has_flag week_behaviour WEEK_YEAR in
  let first_weekday := has_flag week_behaviour WEEK_FIRST_WEEKDAY in
  let weekday := u32 (calc_weekday first_daynr (negb monday_first)) in
  let yr := year l_time in
  let tail := fun (week_year : bool) yr first_daynr weekday =>
    let days :=
      if first_days_outside first_weekday weekday
      then u32 (daynr - (first_daynr + u32 (7 - weekday)))
      else u32 (daynr - (first_daynr - weekday)) in
    if week_year && (days >=? 52 * 7) then
      let weekday := Z.rem (weekday + calc_days_in_year yr) 7 in
      if (negb first_weekday && (weekday <? 4)) || (first_weekday && (weekday =? 0))
      then (1, u32 (yr + 1))
      else (Z.quot days 7 + 1, yr)
    else (Z.quot days 7 + 1, yr) in
  if (month l_time =? 1) && (day l_time <=? u32 (7 - weekday)) then
    if negb week_year && first_days_outside first_weekday weekday then (0, yr)
    else
      let yr := u32 (yr - 1) in
      let days := calc_days_in_year yr in
      tail true yr (u64 (first_daynr - days)) (Z.rem (u32 (weekday + 53 * 7 - days)) 7)
  else tail week_year yr first_daynr weekday.

(** [while (day_of_year > (days_in_year= calc_days_in_year(year)))]: the
    day, the year and [days_in_year] at the exit.  Each turn takes at least
    365 days off, which bounds the turns by [day_of_year / 365]. *)
Fixpoint year_loop (fuel : nat) (day_of_year yr : Z) : option (Z * Z * Z) :=
  let days_in_year := calc_days_in_year yr in
  if day_of_year >? days_in_year then
    match fuel with
    | O => None
    | S fuel => year_loop fuel (u32 (day_of_year - days_in_year)) (u32 (yr + 1))
    end
  else Some (day_of_year, yr, days_in_year).

Fixpoint month_loop (months : list Z) (day_of_year mon : Z) : Z * Z :=
  match months with
  | n :: months' =>
    if day_of_year >? n then month_loop months' (day_of_year - n) (mon + 1) else (mon, day_of_year)
  | [] => (mon, day_of_year)
  end.

(** [None]: the code returns 1 and leaves the out-parameters alone. *)
Definition get_date_from_daynr (daynr : Z) : option (Z * Z * Z) :=
  if (daynr <? 366) || (daynr >? MAX_DAY_NUMBER) then None
  else
    let yr := u32 (Z.quot (daynr * 100) 36525) in
    let temp := Z.quot (u32 ((Z.quot (u32 (yr - 1)) 100 + 1) * 3)) 4 in
    let day_of_year := u32 (u32 (daynr - yr * 365) - Z.quot (u32 (yr - 1)) 4 + temp) in
    match year_loop (Z.to_nat (day_of_year / 365)) day_of_year yr with
    | Some (day_of_year, yr, days_in_year) =>
      let '(day_of_year, leap_day) :=
        if (days_in_year =? 366) && (day_of_year >? 31 + 28)
        then (day_of_year - 1, if day_of_year - 1 =? 31 + 28 then 1 else 0)
        else (day_of_year, 0) in
      let '(mon, dy) := month_loop days_in_month day_of_year 1 in
      Some (yr, mon, dy + leap_day)
    | None => None
    end.

(** ** Periods *)

Definition convert_period_to_month (period : Z) : Z :=
  if period =? 0 then 0
  else
    let a := Z.quot period 100 in
    let a := if a <? YY_PART_YEAR then a + 2000 else if a <? 100 then a + 1900 else a in
    u64 (a * 12 + Z.rem period 100 - 1).

Definition convert_month_to_period (mon : Z) : Z :=
  if mon =? 0 then 0
  else
    let yr := Z.quot mon 12 in
    let yr := if yr <? 100 then yr + (if yr <? YY_PART_YEAR then 2000 else 1900) else yr in
    u64 (yr * 100 + Z.rem mon 12 + 1).

(** ** Checks with warnings *)

Definition non_zero_hhmmssuu (t : MYSQL_TIME) : bool :=
  negb (hour t =? 0) || negb (minute t =? 0) || negb (second t =? 0) ||
  negb (second_part t =? 0).
Definition non_zero_YYMMDD (t : MYSQL_TIME) : bool :=
  negb (year t =? 0) || negb (month t =? 0) || negb (day t =? 0).
Definition non_zero_date (t : MYSQL_TIME) : bool :=
  non_zero_YYMMDD t ||
  (is_type (time_type t) MYSQL_TIMESTAMP_DATETIME && non_zero_hhmmssuu t).
(** The three-argument [check_date] of [sql_time.h]. *)
Definition check_date_flags (t : MYSQL_TIME) (flags was_cut : Z) : bool * Z :=
  check_date t (non_zero_date t) flags was_cut.

Definition check_date_with_warn (t : MYSQL_TIME) (fuzzy_date : Z)
  (ts_type : enum_mysql_timestamp_type) : bool * list time_warning :=
  if fst (check_date_flags t fuzzy_date 0)
  then (true, [mk_time_warning WARN_TRUNCATED_VALUE ts_type])
  else (false, []).

Definition adjust_time_range_with_warn (t : MYSQL_TIME) (dec : Z)
  : bool * MYSQL_TIME * list time_warning :=
  let '(r, t', w) := check_time_range t dec 0 in
  if negb (r =? 0) then (true, t', [])
  else (false, t', if negb (w =? 0)
                   then [mk_time_warning WARN_TRUNCATED_VALUE MYSQL_TIMESTAMP_TIME] else []).

(** [MYSQL_TIME_WARN_HAVE_WARNINGS] tests the two warning bits. *)
Definition MYSQL_TIME_WARN_HAVE_WARNINGS (x : Z) : bool :=
  has_flag x (Z.lor MYSQL_TIME_WARN_TRUNCATED MYSQL_TIME_WARN_OUT_OF_RANGE).

Definition number_to_time_with_warn (neg : bool) (nr sec_part : Z) (ltime : MYSQL_TIME)
  (fuzzydate : Z) : bool * MYSQL_TIME * list time_warning :=
  let '(res, t, have_warnings, ok_type) :=
    if has_flag fuzzydate TIME_TIME_ONLY then
      let '(res, t, cut) := number_to_time neg nr sec_part in
      (res, t, MYSQL_TIME_WARN_HAVE_WARNINGS cut, MYSQL_TIMESTAMP_TIME)
    else if neg then (-1, ltime, false, MYSQL_TIMESTAMP_DATETIME)
    else
      let '(res, t, cut) := number_to_datetime nr sec_part fuzzydate in
      (res, t, negb (cut =? 0) && has_flag fuzzydate TIME_NO_ZERO_IN_DATE,
       MYSQL_TIMESTAMP_DATETIME) in
  (res <? 0, t,
   if (res <? 0) || have_warnings
   then [mk_time_warning WARN_TRUNCATED_VALUE
           (if res <? 0 then MYSQL_TIMESTAMP_ERROR else ok_type)]
   else []).

Definition int_to_datetime_with_warn (neg : bool) (value : Z) (ltime : MYSQL_TIME) (fuzzydate : Z) :=
  number_to_time_with_warn neg value 0 ltime fuzzydate.

(** ** Conversions *)

(** [struct tm] as [localtime_to_TIME] reads it. *)
Record struct_tm := mk_tm {
  tm_year : Z; tm_mon : Z; tm_mday : Z; tm_hour : Z; tm_min : Z; tm_sec : Z
}.

Definition localtime_to_TIME (to : MYSQL_TIME) (from : struct_tm) : MYSQL_TIME :=
  mk_MYSQL_TIME (u32 (Z.rem (tm_year from + 1900) 10000)) (u32 (tm_mon from + 1))
    (u32 (tm_mday from)) (u32 (tm_hour from)) (u32 (tm_min from)) (u32 (tm_sec from))
    0 false (time_type to).

Definition calc_time_from_sec (to : MYSQL_TIME) (seconds microseconds : Z) : MYSQL_TIME :=
  let t_seconds := Z.rem seconds 3600 in
  mk_MYSQL_TIME 0 0 0 (u32 (Z.quot seconds 3600)) (u32 (Z.quot t_seconds 60))
    (u32 (Z.rem t_seconds 60)) (u64 microseconds) (neg to) MYSQL_TIMESTAMP_TIME.

Definition datetime_to_time (t : MYSQL_TIME) : MYSQL_TIME :=
  set_time_type (set_ymd t 0 0 0) MYSQL_TIMESTAMP_TIME.
Definition datetime_to_date (t : MYSQL_TIME) : MYSQL_TIME :=
  set_time_type (set_hms t 0 0 0 0) MYSQL_TIMESTAMP_DATE.
Definition date_to_datetime (t : MYSQL_TIME) : MYSQL_TIME :=
  set_time_type t MYSQL_TIMESTAMP_DATETIME.

(** ** [date_add_interval] *)

(** The macro COMBINE, before it is reduced to 64 bits. *)
Definition combine (dy h mi s sp : Z) : Z :=
  (((dy * 24 + h) * 60 + mi) * 60 + s) * 1000000 + sp.
Definition combine_time (t : MYSQL_TIME) : Z :=
  combine (day t) (hour t) (minute t) (second t) (second_part t).
Definition combine_interval (i : INTERVAL) : Z :=
  combine (i_day i) (i_hour i) (i_minute i) (i_second i) (i_second_part i).

Definition add_result : Type := bool * MYSQL_TIME * list time_warning.

(** The label [invalid_date]. *)
Definition invalid_date (t : MYSQL_TIME) : add_result :=
  (true, t,
   [mk_time_warning WARN_DATETIME_OVERFLOW
      (if is_type (time_type t) MYSQL_TIMESTAMP_TIME
       then MYSQL_TIMESTAMP_TIME else MYSQL_TIMESTAMP_DATETIME)]).

(** After the switch. *)
Definition date_add_done (t : MYSQL_TIME) : add_result :=
  if negb (is_type (time_type t) MYSQL_TIMESTAMP_TIME) then (false, t, []) else invalid_date t.

(** The units from days down to microseconds. *)
Definition date_add_time_units (ltime : MYSQL_TIME) (is_day : bool) (interval : INTERVAL)
  : add_result :=
  let sign := if Bool.eqb (i_neg interval) (neg ltime) then 1 else -1 in
  let ty := time_type ltime in
  if u64 (i_day interval + Z.quot (i_hour interval) 24 +
          Z.quot (Z.quot (i_minute interval) 24) 60 +
          Z.quot (Z.quot (Z.quot (i_second interval) 24) 60) 60) >? MAX_DAY_NUMBER
  then invalid_date ltime
  else
    let ltime :=
      if negb (is_type ty MYSQL_TIMESTAMP_TIME)
      then set_ymd ltime (year ltime) (month ltime)
             (u32 (day ltime + (calc_daynr (year ltime) (month ltime) 1 - 1)))
      else ltime in
    let usec := s64 (combine_time ltime + sign * combine_interval interval) in
    let '(ng, usec) := if usec <? 0 then (true, s64 (- usec)) else (false, usec) in
    let sp := Z.rem usec 1000000 in let usec := Z.quot usec 1000000 in
    let s := Z.rem usec 60 in let usec := Z.quot usec 60 in
    let mi := Z.rem usec 60 in let usec := Z.quot usec 60 in
    let ltime := set_neg (set_hms ltime (hour ltime) mi s sp) (xorb (neg ltime) ng) in
    if is_type ty MYSQL_TIMESTAMP_TIME then
      if usec >? TIME_MAX_HOUR then invalid_date ltime
      else (false, set_hms (set_ymd ltime (year ltime) (month ltime) 0) (u32 usec) mi s sp, [])
    else
      let ltime := if negb is_day then set_time_type ltime MYSQL_TIMESTAMP_DATETIME else ltime in
      let ltime := set_hms ltime (Z.rem usec 24) mi s sp in
      let daynr := Z.quot usec 24 in
      match get_date_from_daynr daynr with
      | None => invalid_date ltime
      | Some (y, m, d) => date_add_done (set_ymd ltime y m d)
      end.

Definition date_add_weeks (ltime : MYSQL_TIME) (interval : INTERVAL) : add_result :=
  let sign := if Bool.eqb (i_neg interval) (neg ltime) then 1 else -1 in
  let period := s64 (calc_daynr (year ltime) (month ltime) (day ltime) +
                     sign * s64 (i_day interval)) in
  match get_date_from_daynr period with
  | None => invalid_date ltime
  | Some (y, m, d) => date_add_done (set_ymd ltime y m d)
  end.

Definition date_add_years (ltime : MYSQL_TIME) (interval : INTERVAL) : add_result :=
  let sign := if Bool.eqb (i_neg interval) (neg ltime) then 1 else -1 in
  let y := u32 (year ltime + sign * s64 (i_year interval)) in
  let ltime := set_ymd ltime y (month ltime) (day ltime) in
  if y >=? 10000 then invalid_date ltime
  else
    date_add_done
      (if (month ltime =? 2) && (day ltime =? 29) && negb (calc_days_in_year y =? 366)
       then set_ymd ltime y (month ltime) 28 else ltime).

Definition date_add_months (ltime : MYSQL_TIME) (interval : INTERVAL) : add_result :=
  let sign := if Bool.eqb (i_neg interval) (neg ltime) then 1 else -1 in
  let period := s64 (u32 (year ltime * 12) + sign * s64 (i_year interval) * 12 +
                     month ltime - 1 + sign * s64 (i_month interval)) in
  if u64 period >=? 120000 then invalid_date ltime
  else
    let y := Z.quot period 12 in
    let m := Z.rem period 12 + 1 in
    let last := array_get days_in_month (m - 1) in
    let d :=
      if day ltime >? last
      then (if (m =? 2) && (calc_days_in_year y =? 366) then last + 1 else last)
      else day ltime in
    date_add_done (set_ymd ltime y m d).

Definition date_add_interval (ltime : MYSQL_TIME) (int_type : interval_type)
  (interval : INTERVAL) : add_result :=
  match int_type with
  | INTERVAL_SECOND | INTERVAL_SECOND_MICROSECOND | INTERVAL_MICROSECOND | INTERVAL_MINUTE
  | INTERVAL_HOUR | INTERVAL_MINUTE_MICROSECOND | INTERVAL_MINUTE_SECOND
  | INTERVAL_HOUR_MICROSECOND | INTERVAL_HOUR_SECOND | INTERVAL_HOUR_MINUTE
  | INTERVAL_DAY_MICROSECOND | INTERVAL_DAY_SECOND | INTERVAL_DAY_MINUTE | INTERVAL_DAY_HOUR =>
    date_add_time_units ltime false interval
  | INTERVAL_DAY => date_add_time_units ltime true interval
  | INTERVAL_WEEK => date_add_weeks ltime interval
  | INTERVAL_YEAR => date_add_years ltime interval
  | INTERVAL_YEAR_MONTH | INTERVAL_QUARTER | INTERVAL_MONTH => date_add_months ltime interval
  | INTERVAL_LAST => (true, ltime, [])
  end.

(** ** Differences and comparison *)

(** Returns (negative, seconds, microseconds). *)
Definition calc_time_diff_sec (l_time1 l_time2 : MYSQL_TIME) (l_sign : Z) : bool * Z * Z :=
  let days :=
    if is_type (time_type l_time1) MYSQL_TIMESTAMP_TIME
    then day l_time1 - l_sign * day l_time2
    else
      calc_daynr (year l_time1) (month l_time1) (day l_time1) -
      (if is_type (time_type l_time2) MYSQL_TIMESTAMP_TIME then l_sign * day l_time2
       else l_sign * calc_daynr (year l_time2) (month l_time2) (day l_time2)) in
  let microseconds := s64 (
    (days * SECONDS_IN_24H +
     (hour l_time1 * 3600 + minute l_time1 * 60 + second l_time1) -
     l_sign * (hour l_time2 * 3600 + minute l_time2 * 60 + second l_time2)) * 1000000 +
    second_part l_time1 - l_sign * second_part l_time2) in
  let '(ng, microseconds) :=
    if microseconds <? 0 then (true, s64 (- microseconds)) else (false, microseconds) in
  (ng, Z.quot microseconds 1000000, Z.rem microseconds 1000000).

(** The overload that stores a TIME: (result, [*l_time3]). *)
Definition calc_time_diff (l_time1 l_time2 : MYSQL_TIME) (l_sign fuzzydate : Z)
  : bool * MYSQL_TIME :=
  let '(ng, seconds, microseconds) := calc_time_diff_sec l_time1 l_time2 l_sign in
  let ng := if neg l_time1 && (negb (seconds =? 0) || negb (microseconds =? 0))
            then negb ng else ng in
  let seconds := if seconds >? INT_MAX32 then INT_MAX32 else seconds in
  (has_flag fuzzydate TIME_NO_ZERO_DATE && (seconds =? 0) && (microseconds =? 0),
   calc_time_from_sec (set_neg bzero_time ng) seconds microseconds).

Definition my_time_compare (a b : MYSQL_TIME) : Z :=
  let a_t := u64 (pack_time a) in
  let b_t := u64 (pack_time b) in
  if a_t <? b_t then -1 else if a_t >? b_t then 1 else 0.

(** ** TIME to DATETIME and back *)

(** The one-argument [time_to_datetime]: (error, [*ltime]). *)
Definition time_to_datetime_in_place (t : MYSQL_TIME) : bool * MYSQL_TIME :=
  if neg t then (true, t)
  else
    let dy := Z.quot (hour t) 24 in
    (false, set_hms (set_ymd t (year t) (Z.quot dy 31) (Z.rem dy 31))
              (Z.rem (hour t) 24) (minute t) (second t) (second_part t)).

Definition make_date_with_warn (t : MYSQL_TIME) (fuzzy_date : Z)
  (ts_type : enum_mysql_timestamp_type) : bool * MYSQL_TIME * list time_warning :=
  let '(bad, t) := if is_type (time_type t) MYSQL_TIMESTAMP_TIME
                   then time_to_datetime_in_place t else (false, t) in
  if bad then (true, t, [mk_time_warning WARN_TRUNCATED_VALUE ts_type])
  else
    let t := set_time_type t ts_type in
    let t := if is_type ts_type MYSQL_TIMESTAMP_DATE then set_hms t 0 0 0 0 else t in
    let '(r, w) := check_date_with_warn t fuzzy_date ts_type in
    (r, t, w).

Definition time_to_daytime_interval (t : MYSQL_TIME) : MYSQL_TIME :=
  set_time_type
    (set_hms (set_ymd t (year t) (month t) (Z.quot (hour t) 24))
       (Z.rem (hour t) 24) (minute t) (second t) (second_part t))
    MYSQL_TIMESTAMP_NONE.

Definition mix_date_and_time_simple (ldate ltime : MYSQL_TIME) : MYSQL_TIME :=
  set_time_type (set_hms ldate (hour ltime) (minute ltime) (second ltime) (second_part ltime))
    MYSQL_TIMESTAMP_DATETIME.

Definition mix_date_and_time_complex (ldate ltime : MYSQL_TIME) : MYSQL_TIME :=
  let sign := if neg ltime then 1 else -1 in
  let '(ng, seconds, useconds) := calc_time_diff_sec ldate ltime sign in
  let days := Z.quot seconds SECONDS_IN_24H in
  let t := calc_time_from_sec (set_neg ldate ng) (Z.rem seconds SECONDS_IN_24H) useconds in
  let t := match get_date_from_daynr days with
           | Some (y, m, d) => set_ymd t y m d
           | None => t
           end in
  set_time_type t MYSQL_TIMESTAMP_DATETIME.

Definition mix_date_and_time (to from : MYSQL_TIME) : MYSQL_TIME :=
  if negb (neg from) && (hour from <? 24)
  then mix_date_and_time_simple to from else mix_date_and_time_complex to from.

Definition time_to_datetime_old (from to : MYSQL_TIME) : bool * MYSQL_TIME :=
  if neg from then (true, to)
  else
    let dy := Z.quot (hour from) 24 in
    (false, mk_MYSQL_TIME 0 (Z.quot dy 31) (Z.rem dy 31) (Z.rem (hour from) 24)
              (minute from) (second from) (second_part from) false MYSQL_TIMESTAMP_DATETIME).

(** The part of the session the conversions use: the time at the query's
    start in its time zone, and whether OLD_MODE_ZERO_DATE_TIME_CAST is set. *)
Record session := mk_session { thd_now : MYSQL_TIME; thd_old_mode : bool }.

Definition set_current_date (thd : session) : MYSQL_TIME := datetime_to_date (thd_now thd).

Definition time_to_datetime (thd : session) (from to : MYSQL_TIME) : bool * MYSQL_TIME :=
  if thd_old_mode thd then time_to_datetime_old from to
  else (false, mix_date_and_time (set_current_date thd) from).

Definition time_to_datetime_with_warn (thd : session) (from to : MYSQL_TIME) (fuzzydate : Z)
  : bool * MYSQL_TIME * list time_warning :=
  let '(r, to) := time_to_datetime thd from to in
  if r || (thd_old_mode thd && fst (check_date_flags to fuzzydate 0))
  then (true, to, [mk_time_warning WARN_TRUNCATED_VALUE MYSQL_TIMESTAMP_DATETIME])
  else (false, to, []).

Definition datetime_to_time_with_warn (thd : session) (dt : MYSQL_TIME) (dec : Z)
  : bool * MYSQL_TIME :=
  if thd_old_mode thd then (false, datetime_to_time dt)
  else
    let '(_, tm) := calc_time_diff dt (set_current_date thd) 1 0 in
    let '(r, tm, _) := check_time_range tm dec 0 in
    (negb (r =? 0), tm).

(** ** Day numbers and dates correspond *)

(** The day of the year that [year_loop] carries is counted from
    [year_start]; the estimate of the year is never too high. *)
Lemma first_estimate daynr : 366 <= daynr <= MAX_DAY_NUMBER ->
  let yr := u32 (Z.quot (daynr * 100) 36525) in
  let temp := Z.quot (u32 ((Z.quot (u32 (yr - 1)) 100 + 1) * 3)) 4 in
  let day_of_year := u32 (u32 (daynr - yr * 365) - Z.quot (u32 (yr - 1)) 4 + temp) in
  1 <= yr <= 9999 /\ 1 <= day_of_year < 730 /\ day_of_year = daynr - year_start yr.
Proof.
  unfold MAX_DAY_NUMBER. intros Hd. cbv zeta. rewrite Z.quot_div_nonneg by lia.
  rewrite (u32_small (daynr * 100 / 36525)) by divlia.
  set (yr := daynr * 100 / 36525).
  assert (1 <= yr <= 9999 /\ yr * 36525 <= daynr * 100 < yr * 36525 + 36525) as [Hy Hr]
    by (unfold yr; divlia).
  clearbody yr. rewrite year_start_eq by lia. rewrite !(u32_small (yr - 1)) by lia.
  rewrite !Z.quot_div_nonneg by (try divlia; unfold u32; apply Z.mod_pos_bound; lia).
  rewrite (u32_small ((_ + 1) * 3)) by divlia.
  rewrite (u32_small (daynr - yr * 365)) by divlia.
  rewrite u32_small by divlia. divlia.
Qed.

Lemma year_loop_spec fuel daynr yr :
  1 <= yr -> yr + Z.of_nat fuel < 20000 ->
  1 <= daynr - year_start yr -> (daynr - year_start yr) / 365 <= Z.of_nat fuel ->
  exists yr', year_loop fuel (daynr - year_start yr) yr =
    Some (daynr - year_start yr', yr', calc_days_in_year yr') /\
    yr <= yr' /\ 1 <= daynr - year_start yr' <= calc_days_in_year yr'.
Proof.
  revert yr. induction fuel as [|fuel IH]; intros yr Hy Hf H1 H2; cbn [year_loop];
    rewrite Z.gtb_ltb; pose proof (calc_days_in_year_bounds yr) as Hl;
    destruct (Z.ltb_spec (calc_days_in_year yr) (daynr - year_start yr)).
  - exfalso. divlia.
  - exists yr. split; [done|]. lia.
  - assert (daynr - year_start yr < 20000 * 366) by (clear - H2 Hf Hy; divlia).
    pose proof (year_start_succ yr ltac:(lia)).
    rewrite u32_small by lia. rewrite u32_small by lia.
    replace (daynr - year_start yr - calc_days_in_year yr) with (daynr - year_start (yr + 1)) by lia.
    destruct (IH (yr + 1)) as (yr' & E & Hle & Hb); try lia.
    { apply Z.le_trans with ((daynr - year_start yr + (-1) * 365) / 365);
        [apply Z.div_le_mono; lia|]. rewrite Z.div_add; lia. }
    exists yr'. split; [done|]. lia.
  - exists yr. split; [done|]. lia.
Qed.

(** The month and day of a day of the year. *)
Definition month_of_day (lp : bool) (doy : Z) : Z * Z :=
  let '(d, leap_day) :=
    if lp && (doy >? 31 + 28) then (doy - 1, if doy - 1 =? 31 + 28 then 1 else 0) else (doy, 0) in
  let '(mon, dy) := month_loop days_in_month d 1 in (mon, dy + leap_day).

Lemma month_of_day_spec y doy : 1 <= doy <= calc_days_in_year y ->
  let '(m, d) := month_of_day (leap y) doy in
  1 <= m <= 12 /\ 1 <= d <= dim y m /\ days_before y m + d = doy.
Proof.
  rewrite calc_days_in_year_leap. intros H.
  assert (Forall (fun k => let '(m, d) := month_of_day (leap y) (Z.of_nat k) in
    1 <= m <= 12 /\ 1 <= d <= dim y m /\ days_before y m + d = Z.of_nat k)
    (seq 1 (if leap y then 366 else 365))) as F.
  { unfold days_before, dim. destruct (leap y);
    refine (bool_decide_unpack _ _); vm_compute; exact I. }
  rewrite Forall_forall in F. specialize (F (Z.to_nat doy)).
  rewrite Z2Nat.id in F by lia. apply F, elem_of_seq. destruct (leap y); lia.
Qed.

Lemma get_date_spec daynr : 366 <= daynr <= MAX_DAY_NUMBER ->
  exists y m d, get_date_from_daynr daynr = Some (y, m, d) /\
    1 <= y <= 9999 /\ valid_ymd y m d /\ calc_daynr y m d = daynr.
Proof.
  intros Hd. pose proof (first_estimate daynr Hd) as (Hy & Hdoy & E).
  unfold get_date_from_daynr. rewrite Z.gtb_ltb.
  replace ((daynr <? 366) || (MAX_DAY_NUMBER <? daynr)) with false by (unfold MAX_DAY_NUMBER in *; lia).
  rewrite E in *. set (yr0 := u32 (Z.quot (daynr * 100) 36525)) in *.
  destruct (year_loop_spec (Z.to_nat ((daynr - year_start yr0) / 365)) daynr yr0)
    as (y & -> & Hle & Hb); try lia; [divlia..|].
  pose proof (month_of_day_spec y (daynr - year_start y) Hb) as M.
  change (calc_days_in_year y =? 366) with (leap y). unfold month_of_day in M.
  destruct (leap y && _); cbv beta iota zeta in M |- *;
    destruct (month_loop _ _ _) as [m d]; cbv beta iota zeta in M |- *;
    destruct M as (Hm & Hdm & Ed); eexists y, m, _; (split; [reflexivity|]).
  all: rewrite calc_daynr_split by lia; unfold valid_ymd.
  all: assert (y <= 9999); [|lia].
  all: destruct (Z_le_gt_dec y 9999) as [|Hgt]; [done|exfalso].
  all: assert (year_start 10000 <= year_start y) by (rewrite !year_start_eq by lia; divlia).
  all: unfold MAX_DAY_NUMBER in *; change (year_start 10000) with 3652424 in *; lia.
Qed.

Lemma year_start_mono y y' : 0 <= y -> y < y' -> year_start y + calc_days_in_year y <= year_start y'.
Proof.
  intros Hy H. rewrite <- year_start_succ by done.
  replace y' with (y + 1 + Z.of_nat (Z.to_nat (y' - y - 1))) by lia.
  generalize (Z.to_nat (y' - y - 1)). intros n. clear H. induction n as [|n IH].
  - rewrite Z.add_0_r. lia.
  - rewrite Nat2Z.inj_succ. replace (y + 1 + Z.succ (Z.of_nat n)) with (y + 1 + Z.of_nat n + 1) by lia.
    rewrite (year_start_succ (y + 1 + _)) by lia.
    pose proof (calc_days_in_year_bounds (y + 1 + Z.of_nat n)). lia.
Qed.

Lemma days_before_mono y m m' : 1 <= m -> m < m' -> m' <= 12 ->
  days_before y m + dim y m <= days_before y m'.
Proof.
  intros H1 H2 H3. rewrite <- days_before_succ by lia.
  replace m' with (m + 1 + Z.of_nat (Z.to_nat (m' - m - 1))) in * by lia.
  revert H3. generalize (Z.to_nat (m' - m - 1)). clear m' H2. intros n Hn. induction n as [|n IH].
  - rewrite Z.add_0_r. lia.
  - rewrite Nat2Z.inj_succ in *.
    replace (m + 1 + Z.succ (Z.of_nat n)) with (m + 1 + Z.of_nat n + 1) in * by lia.
    rewrite (days_before_succ y (m + 1 + _)) by lia. pose proof (dim_bounds y (m + 1 + Z.of_nat n)). lia.
Qed.

Lemma calc_daynr_inj y m d y' m' d' : valid_ymd y m d -> valid_ymd y' m' d' ->
  calc_daynr y m d = calc_daynr y' m' d' -> y = y' /\ m = m' /\ d = d'.
Proof.
  intros (Hy & Hm & Hd) (Hy' & Hm' & Hd'). rewrite !calc_daynr_split by lia. intros E.
  pose proof (days_before_bounds y m Hm). pose proof (days_before_bounds y' m' Hm').
  assert (y = y') as <-.
  { destruct (Z.lt_trichotomy y y') as [L|[L|L]]; [|done|];
      [pose proof (year_start_mono y y' Hy L)|pose proof (year_start_mono y' y Hy' L)]; lia. }
  assert (m = m') as <-; [|lia].
  destruct (Z.lt_trichotomy m m') as [L|[L|L]]; [|done|];
    [pose proof (days_before_mono y m m')|pose proof (days_before_mono y m' m)]; lia.
Qed.

Lemma calc_daynr_range y m d : 1 <= y <= 9999 -> valid_ymd y m d ->
  366 <= calc_daynr y m d <= MAX_DAY_NUMBER.
Proof.
  intros Hy (_ & Hm & Hd). rewrite calc_daynr_split by lia.
  pose proof (days_before_bounds y m Hm).
  assert (365 <= year_start y /\ year_start y + calc_days_in_year y <= 3652424).
  { split; [rewrite year_start_eq by lia; divlia|].
    destruct (Z.eq_dec y 9999) as [->|]; [vm_compute; congruence|].
    pose proof (year_start_mono y 10000 ltac:(lia) ltac:(lia)).
    change (year_start 10000) with 3652424 in *. lia. }
  unfold MAX_DAY_NUMBER. lia.
Qed.

Lemma get_date_of_calc_daynr y m d : 1 <= y <= 9999 -> valid_ymd y m d ->
  get_date_from_daynr (calc_daynr y m d) = Some (y, m, d).
Proof.
  intros Hy Hv. destruct (get_date_spec _ (calc_daynr_range y m d Hy Hv))
    as (y' & m' & d' & -> & Hy' & Hv' & E).
  destruct (calc_daynr_inj _ _ _ _ _ _ Hv' Hv E) as (-> & -> & ->). done.
Qed.

(** C37: [get_date_from_daynr] answers exactly on the day numbers of the dates
    from 0001-01-01 to 9999-12-31, and gives the date whose [calc_daynr] it
    is: the two functions are inverse bijections. *)
Theorem get_date_from_daynr_correct daynr y m d :
  get_date_from_daynr daynr = Some (y, m, d) <->
  1 <= y <= 9999 /\ valid_ymd y m d /\ calc_daynr y m d = daynr.
Proof.
  split.
  - intros E. destruct (Z_le_gt_dec 366 daynr) as [H1|H1].
    + destruct (Z_le_gt_dec daynr MAX_DAY_NUMBER) as [H2|H2].
      * destruct (get_date_spec daynr) as (y' & m' & d' & E' & H); [done|].
        rewrite E in E'. by injection E' as <- <- <-.
      * revert E. unfold get_date_from_daynr. rewrite Z.gtb_ltb.
        replace (MAX_DAY_NUMBER <? daynr) with true by lia. by rewrite orb_true_r.
    + revert E. unfold get_date_from_daynr. by replace (daynr <? 366) with true by lia.
  - intros (Hy & Hv & <-). by apply get_date_of_calc_daynr.
Qed.

(** The day number counts days: it goes up by one from each date to the
    next, across ends of months and leap years. *)
Theorem calc_daynr_counts_days y m d y' m' d' :
  valid_ymd y m d -> next_day y m d = (y', m', d') ->
  valid_ymd y' m' d' /\ calc_daynr y' m' d' = calc_daynr y m d + 1.
Proof. apply calc_daynr_next_day. Qed.

Lemma calc_daynr_counts_days_witness :
  valid_ymd 2016 2 29 /\ calc_daynr 2016 2 29 = calc_daynr 2016 2 28 + 1.
Proof.
  apply (calc_daynr_counts_days 2016 2 28); [|reflexivity].
  unfold valid_ymd. change (dim 2016 2) with 29. lia.
Defined.

(** ** Weeks *)

Lemma year_of_unique y y' n : 0 <= y -> 0 <= y' ->
  year_start y < n <= year_start (y + 1) -> year_start y' < n <= year_start (y' + 1) -> y = y'.
Proof.
  intros H H' B B'. destruct (Z.lt_trichotomy y y') as [L|[L|L]]; [|done|].
  - pose proof (year_start_mono y y' H L). rewrite year_start_succ in B by done. lia.
  - pose proof (year_start_mono y' y H' L). rewrite year_start_succ in B' by done. lia.
Qed.

(** [calc_week] in terms of the day of the year, the length of this year and
    of the one before, and the weekday of January 1st. *)
Definition week_of (monday_first week_year first_weekday : bool) (y doy len len0 w : Z) : Z * Z :=
  let tail := fun (week_year : bool) yr days_off len weekday =>
    let days := if first_days_outside first_weekday weekday
                then doy - 1 + days_off - (7 - weekday) else doy - 1 + days_off + weekday in
    if week_year && (days >=? 364) then
      let weekday := (weekday + len) mod 7 in
      if (negb first_weekday && (weekday <? 4)) || (first_weekday && (weekday =? 0))
      then (1, yr + 1) else (days / 7 + 1, yr)
    else (days / 7 + 1, yr) in
  if doy <=? 7 - w then
    if negb week_year && first_days_outside first_weekday w then (0, y)
    else tail true (y - 1) len0 len0 ((w + 371 - len0) mod 7)
  else tail week_year y 0 len w.

Lemma calc_week_eq t wb : 1 <= year t <= 9999 -> valid_ymd (year t) (month t) (day t) ->
  let y := year t in
  let n := calc_daynr y (month t) (day t) in
  let mf := has_flag wb WEEK_MONDAY_FIRST in
  calc_week t wb =
  week_of mf (has_flag wb WEEK_YEAR) (has_flag wb WEEK_FIRST_WEEKDAY) y (n - year_start y)
    (calc_days_in_year y) (calc_days_in_year (y - 1))
    ((year_start y + 1 + 5 + (if mf then 0 else 1)) mod 7).
Proof.
  intros Hy (Hy0 & Hm & Hd) y n mf. unfold calc_week. fold y mf.
  fold y in Hy, Hy0, Hd.
  pose proof (calc_daynr_range y (month t) (day t) Hy ltac:(done)) as Hn. fold n in Hn |- *.
  assert (calc_daynr y 1 1 = year_start y + 1) as E1 by (unfold year_start; lia). rewrite E1.
  pose proof (calc_daynr_range y 1 1 Hy) as Hs. rewrite E1 in Hs.
  assert (366 <= year_start y + 1 <= MAX_DAY_NUMBER) as Hs'
    by (apply Hs; unfold valid_ymd, dim; simpl; unfold array_get; simpl; lia). clear Hs.
  unfold MAX_DAY_NUMBER in *. rewrite (u64_small n), (u64_small (year_start y + 1)) by lia.
  set (w := (year_start y + 1 + 5 + (if mf then 0 else 1)) mod 7).
  assert (u32 (calc_weekday (year_start y + 1) (negb mf)) = w) as ->.
  { unfold calc_weekday. rewrite Z.rem_mod_nonneg by (destruct mf; simpl; lia).
    rewrite u32_small by divlia. unfold w. by destruct mf. }
  assert (0 <= w < 7) as Hw by (unfold w; divlia). clearbody w.
  pose proof (calc_days_in_year_bounds (y - 1)). pose proof (calc_days_in_year_bounds y).
  assert (n = year_start y + days_before y (month t) + day t) as En by (apply calc_daynr_split; lia).
  pose proof (days_before_bounds y (month t) Hm). set (doy := n - year_start y).
  assert (1 <= doy <= 366) as Hdoy by (unfold doy; lia).
  assert ((month t =? 1) && (day t <=? u32 (7 - w)) = (doy <=? 7 - w)) as ->.
  { rewrite u32_small by lia. destruct (Z.eqb_spec (month t) 1) as [E|E].
    - rewrite E in En. change (days_before y 1) with 0 in En. simpl. unfold doy. lia.
    - pose proof (days_before_mono y 1 (month t)). change (dim y 1) with 31 in *.
      change (days_before y 1) with 0 in *. simpl. unfold doy. lia. }
  assert (n = year_start y + doy) as En' by (unfold doy; lia). clearbody doy n y mf.
  unfold week_of. destruct (Z.leb_spec doy (7 - w)).
  - destruct (negb _ && _); [done|]. rewrite (u32_small (y - 1)) by lia.
    set (L0 := calc_days_in_year (y - 1)) in *.
    rewrite (u32_small (w + 53 * 7 - L0)) by lia. rewrite (u64_small (_ - L0)) by lia.
    rewrite Z.rem_mod_nonneg by lia. change (53 * 7) with 371.
    assert (0 <= (w + 371 - L0) mod 7 < 7) by divlia. set (w' := (w + 371 - L0) mod 7) in *.
    rewrite (u32_small (7 - w')) by lia. rewrite !u32_small by lia.
    replace (n - (year_start y + 1 - L0 + (7 - w'))) with (doy - 1 + L0 - (7 - w')) by lia.
    replace (n - (year_start y + 1 - L0 - w')) with (doy - 1 + L0 + w') by lia.
    rewrite Z.rem_mod_nonneg by lia.
    destruct (first_days_outside _ _); by rewrite Z.quot_div_nonneg by lia.
  - rewrite (u32_small (7 - w)) by lia. rewrite (u32_small (y + 1)) by lia.
    replace (n - (year_start y + 1 + (7 - w))) with (doy - 1 + 0 - (7 - w)) by lia.
    replace (n - (year_start y + 1 - w)) with (doy - 1 + 0 + w) by lia.
    rewrite !u32_small by lia. rewrite Z.rem_mod_nonneg by lia.
    destruct (first_days_outside _ _); by rewrite Z.quot_div_nonneg by lia.
Qed.

Lemma week_of_shift mf wy fw y doy len len0 w :
  week_of mf wy fw y doy len len0 w =
  let '(k, d) := week_of mf wy fw 0 doy len len0 w in (k, y + d).
Proof. unfold week_of. repeat case_match; simplify_eq; f_equal; lia. Qed.

(** The years there are, up to their start: weekday of January 1st, lengths
    of the year and of the one before, day of the year. *)
Definition year_shapes : list (Z * Z * Z * Z) :=
  flat_map (fun w => flat_map (fun len => flat_map (fun len0 =>
    map (fun doy => (Z.of_nat w, len, len0, Z.of_nat doy)) (seq 1 (Z.to_nat len)))
    [365; 366]) [365; 366]) (seq 0 7).

Lemma in_year_shapes w len len0 doy : 0 <= w < 7 -> 365 <= len <= 366 -> 365 <= len0 <= 366 ->
  1 <= doy <= len -> In (w, len, len0, doy) year_shapes.
Proof.
  intros Hw Hl Hl0 Hd. unfold year_shapes.
  apply in_flat_map. exists (Z.to_nat w). split; [apply in_seq; lia|].
  apply in_flat_map. exists len. split; [simpl; lia|].
  apply in_flat_map. exists len0. split; [simpl; lia|].
  apply in_map_iff. exists (Z.to_nat doy). rewrite !Z2Nat.id by lia. split; [done|].
  apply in_seq. lia.
Qed.

(** The week and year of the Thursday, which is [thr] days after the last
    day of the year before. *)
Definition thursday_week (y doy len len0 w : Z) : Z * Z :=
  let thr := doy - (doy - 1 + w) mod 7 + 3 in
  if thr <=? 0 then ((thr + len0 - 1) / 7 + 1, y - 1)
  else if thr <=? len then ((thr - 1) / 7 + 1, y)
  else ((thr - len - 1) / 7 + 1, y + 1).

Lemma week_of_iso y doy len len0 w : 0 <= w < 7 -> 365 <= len <= 366 -> 365 <= len0 <= 366 ->
  1 <= doy <= len -> week_of true true false y doy len len0 w = thursday_week y doy len len0 w.
Proof.
  intros Hw Hl Hl0 Hd. rewrite week_of_shift.
  assert (Forall (fun '(w, len, len0, doy) => week_of true true false 0 doy len len0 w =
    thursday_week 0 doy len len0 w) year_shapes) as F.
  { refine (bool_decide_unpack _ _). vm_compute. exact I. }
  rewrite Forall_forall in F.
  rewrite (F (w, len, len0, doy)) by (apply list_elem_of_In, in_year_shapes; done).
  unfold thursday_week. destruct (_ <=? 0); [|destruct (_ <=? len)]; f_equal; lia.
Qed.

(** WEEK in mode 3 (weeks start on Monday, WEEK_YEAR) is the ISO 8601
    week: the week and its year are those of the Thursday of the week the
    date is in. *)
Theorem calc_week_iso t wb Y : 1 <= year t <= 9999 -> valid_ymd (year t) (month t) (day t) ->
  has_flag wb WEEK_MONDAY_FIRST = true -> has_flag wb WEEK_YEAR = true ->
  has_flag wb WEEK_FIRST_WEEKDAY = false ->
  let n := calc_daynr (year t) (month t) (day t) in
  let thursday := n - calc_weekday n false + 3 in
  0 <= Y -> year_start Y < thursday <= year_start (Y + 1) ->
  calc_week t wb = ((thursday - year_start Y - 1) / 7 + 1, Y).
Proof.
  intros Hy Hv Hmf Hwy Hfw n th HY Hth.
  pose proof (calc_daynr_range _ _ _ Hy Hv) as Hn. fold n in Hn. unfold MAX_DAY_NUMBER in Hn.
  rewrite calc_week_eq by done. rewrite Hmf, Hwy, Hfw. fold n. set (y := year t) in *.
  assert (th = n - (n + 5) mod 7 + 3) as Eth.
  { unfold th, calc_weekday. rewrite Z.rem_mod_nonneg by lia. rewrite Z.add_0_r. done. }
  clearbody th. assert (1 <= n - year_start y <= calc_days_in_year y) as Hdoy.
  { destruct Hv as (_ & Hm & Hd). fold y in Hd. pose proof (days_before_bounds y (month t) Hm).
    unfold n. rewrite calc_daynr_split by lia. lia. }
  clearbody n. clear Hv.
  pose proof (calc_days_in_year_bounds y). pose proof (calc_days_in_year_bounds (y - 1)).
  pose proof (calc_days_in_year_bounds (y + 1)).
  pose proof (year_start_succ y ltac:(lia)) as E1. pose proof (year_start_succ (y + 1) ltac:(lia)) as E2.
  pose proof (year_start_succ (y - 1) ltac:(lia)) as E0. replace (y - 1 + 1) with y in E0 by lia.
  assert (Y = if th <=? year_start y then y - 1 else if th <=? year_start (y + 1) then y else y + 1) as ->.
  { apply (year_of_unique _ _ th); auto; destruct (Z.leb_spec th (year_start y)),
      (Z.leb_spec th (year_start (y + 1))); try replace (y - 1 + 1) with y by lia; divlia. }
  rewrite week_of_iso by (done || divlia). rewrite Z.add_0_r. unfold thursday_week.
  replace (n - year_start y - (n - year_start y - 1 + (year_start y + 1 + 5) mod 7) mod 7 + 3)
    with (th - year_start y) by divlia.
  destruct (Z.leb_spec th (year_start y)), (Z.leb_spec th (year_start (y + 1))),
    (Z.leb_spec (th - year_start y) 0), (Z.leb_spec (th - year_start y) (calc_days_in_year y));
    try lia; do 3 f_equal; lia.
Qed.

(** 2008-12-29 is in the first week of 2009. *)
Lemma calc_week_iso_witness :
  calc_week (mk_MYSQL_TIME 2008 12 29 0 0 0 0 false MYSQL_TIMESTAMP_DATE) 3 = (1, 2009).
Proof.
  apply (calc_week_iso (mk_MYSQL_TIME 2008 12 29 0 0 0 0 false MYSQL_TIMESTAMP_DATE) 3 2009);
    try reflexivity; try (simpl; lia).
  - unfold valid_ymd. simpl. change (dim 2008 12) with 31. lia.
  - vm_compute. split; congruence.
Defined.

(** The ranges of a week and of the offset of its year. *)
Definition week_in_range (wy : bool) (r : Z * Z) : Prop :=
  (if wy then 1 else 0) <= fst r <= 53 /\ (if wy then -1 <= snd r <= 1 else snd r = 0).

Lemma week_of_range mf wy fw doy len len0 w : 0 <= w < 7 -> 365 <= len <= 366 ->
  365 <= len0 <= 366 -> 1 <= doy <= len -> week_in_range wy (week_of mf wy fw 0 doy len len0 w).
Proof.
  intros Hw Hl Hl0 Hd.
  assert (Forall (fun '(w, len, len0, doy) => week_in_range wy (week_of mf wy fw 0 doy len len0 w))
    year_shapes) as F.
  { unfold week_in_range. destruct mf, wy, fw; refine (bool_decide_unpack _ _); vm_compute; exact I. }
  rewrite Forall_forall in F. apply (F (w, len, len0, doy)), list_elem_of_In, in_year_shapes; done.
Qed.

(** In every mode the week is at most 53; with WEEK_YEAR it is at least
    1 and its year is the date's or one beside it, without it the week may be
    0 and the year is the date's. *)
Theorem calc_week_range t wb : 1 <= year t <= 9999 -> valid_ymd (year t) (month t) (day t) ->
  let '(week, yr) := calc_week t wb in
  (if has_flag wb WEEK_YEAR then 1 else 0) <= week <= 53 /\
  (if has_flag wb WEEK_YEAR then year t - 1 <= yr <= year t + 1 else yr = year t).
Proof.
  intros Hy Hv. rewrite calc_week_eq by done. rewrite week_of_shift.
  set (w := (_ + 5 + _) mod 7). assert (0 <= w < 7) as Hw by (unfold w; divlia).
  pose proof (calc_days_in_year_bounds (year t)). pose proof (calc_days_in_year_bounds (year t - 1)).
  destruct Hv as (Hy0 & Hm & Hd). pose proof (days_before_bounds (year t) (month t) Hm).
  rewrite calc_daynr_split by lia.
  pose proof (week_of_range (has_flag wb WEEK_MONDAY_FIRST) (has_flag wb WEEK_YEAR)
    (has_flag wb WEEK_FIRST_WEEKDAY)
    (year_start (year t) + days_before (year t) (month t) + day t - year_start (year t))
    (calc_days_in_year (year t)) (calc_days_in_year (year t - 1)) w) as R.
  destruct (week_of _ _ _ _ _ _ _ _) as [k d]. unfold week_in_range in R. simpl in R.
  destruct (has_flag wb WEEK_YEAR); lia.
Qed.

Lemma calc_week_range_witness :
  let '(week, yr) := calc_week (mk_MYSQL_TIME 2008 1 1 0 0 0 0 false MYSQL_TIMESTAMP_DATE) 0 in
  (if has_flag 0 WEEK_YEAR then 1 else 0) <= week <= 53 /\
  (if has_flag 0 WEEK_YEAR then 2008 - 1 <= yr <= 2008 + 1 else yr = 2008).
Proof.
  apply (calc_week_range (mk_MYSQL_TIME 2008 1 1 0 0 0 0 false MYSQL_TIMESTAMP_DATE) 0);
    [simpl; lia|]. unfold valid_ymd. simpl. change (dim 2008 1) with 31. lia.
Defined.

(** ** Adding intervals *)

(** A calendar date with a time of day. *)
Definition calendar_time (t : MYSQL_TIME) : Prop :=
  (time_type t = MYSQL_TIMESTAMP_DATE \/ time_type t = MYSQL_TIMESTAMP_DATETIME) /\
  1 <= year t <= 9999 /\ valid_ymd (year t) (month t) (day t) /\
  0 <= hour t <= 23 /\ 0 <= minute t <= 59 /\ 0 <= second t <= 59 /\
  0 <= second_part t <= TIME_MAX_SECOND_PART.

Definition usec_per_day : Z := 86400000000.

(** Microseconds since the day before 0000-01-01. *)
Definition usec_of (t : MYSQL_TIME) : Z :=
  combine (calc_daynr (year t) (month t) (day t)) (hour t) (minute t) (second t) (second_part t).

(** The days the interval's parts amount to, as the guard adds them up. *)
Definition interval_days (i : INTERVAL) : Z :=
  i_day i + i_hour i / 24 + i_minute i / 24 / 60 + i_second i / 24 / 60 / 60.

Definition interval_sane (i : INTERVAL) : Prop :=
  0 <= i_day i /\ 0 <= i_hour i /\ 0 <= i_minute i /\ 0 <= i_second i /\
  0 <= i_second_part i < 2 ^ 62 /\ interval_days i < 2 ^ 64.

Lemma guard_days i : interval_sane i ->
  u64 (i_day i + Z.quot (i_hour i) 24 + Z.quot (Z.quot (i_minute i) 24) 60 +
       Z.quot (Z.quot (Z.quot (i_second i) 24) 60) 60) = interval_days i.
Proof.
  intros (H1 & H2 & H3 & H4 & H5 & H6). rewrite !Z.quot_div_nonneg by divlia.
  fold (interval_days i). apply u64_small. split; [|done]. unfold interval_days. divlia.
Qed.

Lemma combine_interval_bound i : interval_sane i -> interval_days i <= MAX_DAY_NUMBER ->
  0 <= combine_interval i < 2 ^ 62 + 4 * (MAX_DAY_NUMBER + 1) * usec_per_day.
Proof.
  unfold interval_sane, combine_interval, combine, interval_days, MAX_DAY_NUMBER, usec_per_day.
  intros (H1 & H2 & H3 & H4 & H5 & H6) H. split; [lia|].
  assert (i_day i < 3652425) by divlia. assert (i_hour i < 24 * 3652425) by divlia.
  assert (i_minute i < 1440 * 3652425) by divlia.
  assert (i_second i < 86400 * 3652425) by divlia. lia.
Qed.

(** The digits of a number of microseconds. *)
Lemma split_usec u : 0 <= u ->
  let sp := Z.rem u 1000000 in let u1 := Z.quot u 1000000 in
  let s := Z.rem u1 60 in let u2 := Z.quot u1 60 in
  let mi := Z.rem u2 60 in let u3 := Z.quot u2 60 in
  let h := Z.rem u3 24 in let d := Z.quot u3 24 in
  0 <= sp <= 999999 /\ 0 <= s <= 59 /\ 0 <= mi <= 59 /\ 0 <= h <= 23 /\ 0 <= d /\ 0 <= u3 /\
  u = combine d h mi s sp.
Proof. intros Hu. unfold combine. cbv zeta. divlia. Qed.

Lemma calendar_usec_bound t : calendar_time t ->
  366 * usec_per_day <= usec_of t < (MAX_DAY_NUMBER + 1) * usec_per_day.
Proof.
  intros (_ & Hy & Hv & Hh & Hm & Hs & Hsp). pose proof (calc_daynr_range _ _ _ Hy Hv).
  unfold usec_of, combine, usec_per_day, TIME_MAX_SECOND_PART, MAX_DAY_NUMBER in *. lia.
Qed.

Lemma calc_daynr_day y m d : 1 <= y -> 1 <= m <= 12 ->
  d + (calc_daynr y m 1 - 1) = calc_daynr y m d.
Proof. intros. rewrite !calc_daynr_split by lia. lia. Qed.

Definition added_type (is_day : bool) (ty : enum_mysql_timestamp_type) :=
  if is_day then ty else MYSQL_TIMESTAMP_DATETIME.

Lemma date_add_time_units_eq t is_day i : calendar_time t -> interval_sane i ->
  interval_days i <= MAX_DAY_NUMBER ->
  let sign := if Bool.eqb (i_neg i) (neg t) then 1 else -1 in
  let u := usec_of t + sign * combine_interval i in
  0 <= u ->
  exists d h mi s sp,
    0 <= sp <= 999999 /\ 0 <= s <= 59 /\ 0 <= mi <= 59 /\ 0 <= h <= 23 /\ 0 <= d /\
    u = combine d h mi s sp /\
    match get_date_from_daynr d with
    | Some (y, m, dd) => date_add_time_units t is_day i =
      (false, mk_MYSQL_TIME y m dd h mi s sp (neg t) (added_type is_day (time_type t)), [])
    | None => exists t', date_add_time_units t is_day i =
      (true, t', [mk_time_warning WARN_DATETIME_OVERFLOW MYSQL_TIMESTAMP_DATETIME])
    end.
Proof.
  intros Hc Hi Hd sign u Hu. pose proof (calendar_usec_bound t Hc) as Hb.
  pose proof (combine_interval_bound i Hi Hd) as Hib.
  destruct Hc as (Hty & Hy & Hv & Hh & Hm & Hs & Hsp).
  pose proof (split_usec u Hu) as (D1 & D2 & D3 & D4 & D5 & D6 & D7).
  eexists _, _, _, _, _. split; [exact D1|]. split; [exact D2|]. split; [exact D3|].
  split; [exact D4|]. split; [exact D5|]. split; [exact D7|].
  unfold date_add_time_units. rewrite guard_days by done. rewrite Z.gtb_ltb.
  replace (MAX_DAY_NUMBER <? interval_days i) with false by lia.
  replace (is_type (time_type t) MYSQL_TIMESTAMP_TIME) with false by (by destruct Hty as [->| ->]).
  cbn [negb]. destruct Hv as (Hv0 & Hvm & Hvd). rewrite calc_daynr_day by lia.
  pose proof (calc_daynr_range (year t) (month t) (day t) Hy ltac:(done)) as Hr.
  unfold MAX_DAY_NUMBER, usec_per_day in *. rewrite u32_small by lia.
  fold sign. unfold combine_time. cbn [set_ymd day hour minute second second_part].
  change (combine (calc_daynr _ _ _) _ _ _ _) with (usec_of t). fold u.
  assert (s64 u = u) as ->.
  { apply s64_small. unfold u. destruct (Bool.eqb (i_neg i) (neg t)); unfold sign; lia. }
  replace (u <? 0) with false by lia.
  destruct (get_date_from_daynr _) as [[[y m] dd]|]; unfold date_add_done, invalid_date, added_type,
    set_neg, set_hms, set_ymd, set_time_type;
    destruct is_day; cbn [negb time_type neg year month day hour minute second second_part];
    rewrite ?xorb_false_r; destruct Hty as [Hty|Hty]; rewrite ?Hty; cbn; eauto.
Qed.

(** C38: adding an interval of days, hours, minutes, seconds or microseconds,
    with fewer than 2^64 whole days in all its parts together and fewer than
    2^62 microseconds, to a calendar date moves it by exactly that many
    microseconds when the interval has at most 3652424 days and the result is a
    date from 0001-01-01 to 9999-12-31, and fails with a warning when it is
    another date that is not before the calendar's day 0.  (Larger intervals
    wrap around in the test of their size, see [date_add_guard_wraps].) *)
Theorem date_add_time_units_correct t is_day i : calendar_time t -> interval_sane i ->
  let sign := if Bool.eqb (i_neg i) (neg t) then 1 else -1 in
  let u := usec_of t + sign * combine_interval i in
  0 <= u ->
  if (interval_days i <=? MAX_DAY_NUMBER) && (366 * usec_per_day <=? u) &&
     (u <? (MAX_DAY_NUMBER + 1) * usec_per_day)
  then exists t', date_add_time_units t is_day i = (false, t', []) /\
       calendar_time t' /\ usec_of t' = u /\ neg t' = neg t /\
       time_type t' = added_type is_day (time_type t)
  else exists t' ty, date_add_time_units t is_day i = (true, t', [mk_time_warning WARN_DATETIME_OVERFLOW ty]).
Proof.
  intros Hc Hi sign u Hu. destruct (Z.leb_spec (interval_days i) MAX_DAY_NUMBER) as [Hd|Hd].
  2:{ unfold date_add_time_units. rewrite guard_days, Z.gtb_ltb by done.
      replace (MAX_DAY_NUMBER <? interval_days i) with true by lia. unfold invalid_date. simpl. eauto. }
  destruct (date_add_time_units_eq t is_day i Hc Hi Hd Hu)
    as (d & h & mi & s & sp & H1 & H2 & H3 & H4 & H5 & E & H). fold sign u in E.
  destruct ((true && _ && _)) eqn:R; simpl in R.
  - assert (366 <= d <= MAX_DAY_NUMBER) as Hr
      by (revert R; rewrite E; unfold combine, usec_per_day, MAX_DAY_NUMBER; lia).
    destruct (get_date_spec d Hr) as (y & m & dd & Eg & Hy & Hv & En). rewrite Eg in H.
    eexists. split; [exact H|]. unfold calendar_time, usec_of, TIME_MAX_SECOND_PART; simpl.
    rewrite En. unfold added_type. destruct Hc as (Hty & _).
    split; [|done]. split; [destruct is_day; auto|]. split; [done|]. split; [done|]. lia.
  - destruct (get_date_from_daynr d) as [[[y m] dd]|] eqn:Eg; [|destruct H as [t' ->]; eauto].
    exfalso. revert Eg R. unfold get_date_from_daynr. rewrite Z.gtb_ltb, E.
    destruct (Z.ltb_spec d 366); [done|]. destruct (Z.ltb_spec MAX_DAY_NUMBER d); [done|].
    intros _. unfold combine, usec_per_day, MAX_DAY_NUMBER in *. lia.
Qed.

Lemma date_add_time_units_correct_witness :
  exists t', date_add_time_units
    (mk_MYSQL_TIME 2016 2 28 23 59 59 0 false MYSQL_TIMESTAMP_DATETIME) false
    (mk_INTERVAL 0 0 1 0 0 1 0 false) = (false, t', []) /\
  calendar_time t' /\
  usec_of t' = usec_of (mk_MYSQL_TIME 2016 2 28 23 59 59 0 false MYSQL_TIMESTAMP_DATETIME) +
    1 * combine_interval (mk_INTERVAL 0 0 1 0 0 1 0 false) /\
  neg t' = false /\ time_type t' = MYSQL_TIMESTAMP_DATETIME.
Proof.
  apply (date_add_time_units_correct
    (mk_MYSQL_TIME 2016 2 28 23 59 59 0 false MYSQL_TIMESTAMP_DATETIME) false
    (mk_INTERVAL 0 0 1 0 0 1 0 false)).
  - unfold calendar_time, valid_ymd, TIME_MAX_SECOND_PART. simpl. change (dim 2016 2) with 29.
    repeat split; auto; lia.
  - unfold interval_sane. simpl. repeat split; lia || (vm_compute; congruence).
  - vm_compute. congruence.
Defined.

(** A date moved to before day 0 is not refused: the absolute value of the
    day number is taken for a date and the sign is left in [neg]. *)
Lemma date_sub_before_day_zero :
  date_add_interval (mk_MYSQL_TIME 1 1 1 0 0 0 0 false MYSQL_TIMESTAMP_DATE) INTERVAL_DAY
    (mk_INTERVAL 0 0 1000 0 0 0 0 true)
  = (false, mk_MYSQL_TIME 1 9 26 0 0 0 0 true MYSQL_TIMESTAMP_DATE, []).
Proof. vm_compute. reflexivity. Qed.

(** The guard on the interval's size adds in 64 bits: 2^64 - 1 days and 24
    hours pass as no days at all. *)
Lemma date_add_guard_wraps :
  date_add_interval (mk_MYSQL_TIME 2017 1 1 0 0 0 0 false MYSQL_TIMESTAMP_DATE) INTERVAL_DAY_HOUR
    (mk_INTERVAL 0 0 (2 ^ 64 - 1) 24 0 0 0 false)
  = (false, mk_MYSQL_TIME 2017 1 1 0 0 0 0 false MYSQL_TIMESTAMP_DATETIME, []).
Proof. vm_compute. reflexivity. Qed.

(** The year is added in 32 bits: 2^32 years later is the same year. *)
Lemma date_add_years_wraps :
  date_add_interval (mk_MYSQL_TIME 2017 1 1 0 0 0 0 false MYSQL_TIMESTAMP_DATE) INTERVAL_YEAR
    (mk_INTERVAL (2 ^ 32) 0 0 0 0 0 0 false)
  = (false, mk_MYSQL_TIME 2017 1 1 0 0 0 0 false MYSQL_TIMESTAMP_DATE, []).
Proof. vm_compute. reflexivity. Qed.

(** The day in the target month: the same day, or the last one. *)
Lemma clamp_day y m d : 1 <= m <= 12 ->
  (if d >? array_get days_in_month (m - 1)
   then (if (m =? 2) && (calc_days_in_year y =? 366) then array_get days_in_month (m - 1) + 1
         else array_get days_in_month (m - 1))
   else d) = Z.min d (dim y m).
Proof.
  intros Hm. unfold dim. change (calc_days_in_year y =? 366) with (leap y). rewrite Z.gtb_ltb.
  destruct (Z.eqb_spec m 2) as [->|E]; cbn [andb];
    [|destruct (Z.ltb_spec (array_get days_in_month (m - 1)) d); lia].
  change (array_get days_in_month (2 - 1)) with 28.
  destruct (leap y), (Z.ltb_spec 28 d); lia.
Qed.

(** Adding months (or years and months, or quarters) to a date counts
    months from the year 0: the result is in the month that many months away,
    on the same day or on the last day of a shorter month, and the time of
    day is kept; outside the years 0 to 9999 the date is left alone and a
    warning is pushed. *)
Theorem date_add_months_correct t i : time_type t <> MYSQL_TIMESTAMP_TIME ->
  0 <= year t <= 9999 -> 1 <= month t <= 12 ->
  0 <= i_year i < 2 ^ 32 -> 0 <= i_month i < 2 ^ 32 ->
  let sign := if Bool.eqb (i_neg i) (neg t) then 1 else -1 in
  let p := year t * 12 + (month t - 1) + sign * (i_year i * 12 + i_month i) in
  if (0 <=? p) && (p <? 120000)
  then exists y m, date_add_months t i = (false, set_ymd t y m (Z.min (day t) (dim y m)), []) /\
       0 <= y <= 9999 /\ 1 <= m <= 12 /\ y * 12 + (m - 1) = p
  else date_add_months t i = invalid_date t.
Proof.
  intros Hty Hy Hm Hiy Him sign p. unfold date_add_months. fold sign.
  rewrite (u32_small (year t * 12)), !(s64_small (i_year i)), (s64_small (i_month i)) by lia.
  replace (year t * 12 + sign * i_year i * 12 + month t - 1 + sign * i_month i) with p by (unfold p; lia).
  assert (- 2 ^ 62 < p < 2 ^ 62) as Hp.
  { unfold p, sign. destruct (Bool.eqb (i_neg i) (neg t)); lia. }
  clearbody p. rewrite s64_small by lia. rewrite Z.geb_leb.
  destruct (Z.leb_spec 0 p) as [H0|H0]; cbn [andb].
  2:{ replace (120000 <=? u64 p) with true; [done|]. unfold u64.
      rewrite <- (Z.mod_unique p (2 ^ 64) (-1) (p + 2 ^ 64)) by lia. lia. }
  rewrite u64_small by lia. destruct (Z.ltb_spec p 120000) as [H1|H1].
  2:{ by replace (120000 <=? p) with true by lia. }
  replace (120000 <=? p) with false by lia.
  assert (1 <= Z.rem p 12 + 1 <= 12 /\ 0 <= Z.quot p 12 <= 9999 /\
          Z.quot p 12 * 12 + (Z.rem p 12 + 1 - 1) = p) as (D1 & D2 & D3) by divlia.
  exists (Z.quot p 12), (Z.rem p 12 + 1). split; [|done].
  rewrite clamp_day by lia. unfold date_add_done. cbn [set_ymd time_type].
  destruct (time_type t) eqn:E; done.
Qed.

Lemma date_add_months_correct_witness :
  exists y m, date_add_months (mk_MYSQL_TIME 2016 1 31 0 0 0 0 false MYSQL_TIMESTAMP_DATE)
     (mk_INTERVAL 0 1 0 0 0 0 0 false)
   = (false, set_ymd (mk_MYSQL_TIME 2016 1 31 0 0 0 0 false MYSQL_TIMESTAMP_DATE)
               y m (Z.min 31 (dim y m)), []) /\
   0 <= y <= 9999 /\ 1 <= m <= 12 /\ y * 12 + (m - 1) = 2016 * 12 + (1 - 1) + 1 * (0 * 12 + 1).
Proof.
  apply (date_add_months_correct (mk_MYSQL_TIME 2016 1 31 0 0 0 0 false MYSQL_TIMESTAMP_DATE)
    (mk_INTERVAL 0 1 0 0 0 0 0 false)); simpl; (discriminate || lia).
Defined.

(** ** Differences *)

Lemma calc_time_diff_sec_spec a b : calendar_time a -> calendar_time b ->
  calc_time_diff_sec a b 1 =
  (usec_of a <? usec_of b, Z.abs (usec_of a - usec_of b) / 1000000,
   Z.abs (usec_of a - usec_of b) mod 1000000).
Proof.
  intros Ha Hb. pose proof (calendar_usec_bound a Ha). pose proof (calendar_usec_bound b Hb).
  destruct Ha as (Ta & _). destruct Hb as (Tb & _). unfold calc_time_diff_sec.
  replace (is_type (time_type a) _) with false by (by destruct Ta as [->| ->]).
  replace (is_type (time_type b) _) with false by (by destruct Tb as [->| ->]).
  match goal with |- context [s64 ?u] => replace u with (usec_of a - usec_of b)
    by (unfold usec_of, combine, SECONDS_IN_24H; lia) end.
  unfold MAX_DAY_NUMBER, usec_per_day in *. rewrite s64_small by lia.
  destruct (Z.ltb_spec (usec_of a - usec_of b) 0), (Z.ltb_spec (usec_of a) (usec_of b)); try lia.
  - rewrite s64_small by lia. rewrite Z.abs_neq by lia.
    by rewrite Z.quot_div_nonneg, Z.rem_mod_nonneg by lia.
  - rewrite Z.abs_eq by lia. by rewrite Z.quot_div_nonneg, Z.rem_mod_nonneg by lia.
Qed.

Lemma combine_inj d h mi s sp d' h' mi' s' sp' :
  0 <= h <= 23 -> 0 <= mi <= 59 -> 0 <= s <= 59 -> 0 <= sp <= 999999 ->
  0 <= h' <= 23 -> 0 <= mi' <= 59 -> 0 <= s' <= 59 -> 0 <= sp' <= 999999 ->
  combine d h mi s sp = combine d' h' mi' s' sp' ->
  d = d' /\ h = h' /\ mi = mi' /\ s = s' /\ sp = sp'.
Proof. unfold combine. intros. lia. Qed.

(** The difference of two dates, added to the second as an interval of
    seconds and microseconds, gives the first one back. *)
Theorem date_add_of_time_diff a b : calendar_time a -> calendar_time b ->
  neg a = false -> neg b = false ->
  let '(ng, s, us) := calc_time_diff_sec a b 1 in
  date_add_interval b INTERVAL_SECOND_MICROSECOND (mk_INTERVAL 0 0 0 0 0 s us ng)
  = (false, set_time_type a MYSQL_TIMESTAMP_DATETIME, []).
Proof.
  intros Ha Hb Na Nb. rewrite calc_time_diff_sec_spec by done. simpl date_add_interval.
  pose proof (calendar_usec_bound a Ha) as Ba. pose proof (calendar_usec_bound b Hb) as Bb.
  unfold MAX_DAY_NUMBER, usec_per_day in Ba, Bb.
  set (D := Z.abs (usec_of a - usec_of b)) in *. set (i := mk_INTERVAL _ _ _ _ _ _ _ _).
  assert (0 <= D < 3652425 * 86400000000) as HD by (unfold D; lia).
  assert (interval_sane i) as Hi.
  { unfold interval_sane, interval_days, i. simpl. repeat split; divlia. }
  assert (interval_days i <= MAX_DAY_NUMBER) as Hd.
  { unfold interval_days, MAX_DAY_NUMBER, i. simpl. divlia. }
  assert (usec_of b + (if Bool.eqb (i_neg i) (neg b) then 1 else -1) * combine_interval i = usec_of a)
    as Eu.
  { unfold combine_interval, combine, i. simpl. rewrite Nb. unfold D.
    destruct (Z.ltb_spec (usec_of a) (usec_of b)); simpl; divlia. }
  destruct (date_add_time_units_eq b false i Hb Hi Hd) as
    (d & h & mi & s & sp & H1 & H2 & H3 & H4 & H5 & E & H); [rewrite Eu; lia|].
  rewrite Eu in E. destruct Ha as (Ta & Hy & Hv & Hh & Hm & Hs & Hsp).
  unfold TIME_MAX_SECOND_PART in *. apply combine_inj in E as (<- & <- & <- & <- & <-); try lia.
  rewrite get_date_of_calc_daynr in H by done. rewrite H. unfold set_time_type, added_type.
  by rewrite Na, Nb.
Qed.

Lemma date_add_of_time_diff_witness :
  let a := mk_MYSQL_TIME 2016 3 1 0 0 0 1 false MYSQL_TIMESTAMP_DATETIME in
  let b := mk_MYSQL_TIME 2015 12 31 23 59 59 999999 false MYSQL_TIMESTAMP_DATETIME in
  let '(ng, s, us) := calc_time_diff_sec a b 1 in
  date_add_interval b INTERVAL_SECOND_MICROSECOND (mk_INTERVAL 0 0 0 0 0 s us ng)
  = (false, set_time_type a MYSQL_TIMESTAMP_DATETIME, []).
Proof.
  apply (date_add_of_time_diff
    (mk_MYSQL_TIME 2016 3 1 0 0 0 1 false MYSQL_TIMESTAMP_DATETIME)
    (mk_MYSQL_TIME 2015 12 31 23 59 59 999999 false MYSQL_TIMESTAMP_DATETIME));
    try reflexivity; unfold calendar_time, valid_ymd, TIME_MAX_SECOND_PART; simpl;
    [change (dim 2016 3) with 31|change (dim 2015 12) with 31]; repeat split; auto; lia.
Defined.

(** ** A time of day added to a date *)

Definition time_usec_signed (t : MYSQL_TIME) : Z :=
  (if neg t then -1 else 1) * combine 0 (hour t) (minute t) (second t) (second_part t).

(** A TIME with its members in range. *)
Definition clock_time (t : MYSQL_TIME) : Prop :=
  time_type t = MYSQL_TIMESTAMP_TIME /\ day t = 0 /\ 0 <= hour t <= TIME_MAX_HOUR /\
  0 <= minute t <= 59 /\ 0 <= second t <= 59 /\ 0 <= second_part t <= TIME_MAX_SECOND_PART.

Lemma mix_complex_diff ldate ltime : calendar_time ldate -> clock_time ltime ->
  let u := usec_of ldate + time_usec_signed ltime in
  0 <= u ->
  calc_time_diff_sec ldate ltime (if neg ltime then 1 else -1) = (false, u / 1000000, u mod 1000000).
Proof.
  intros Hd Ht u Hu. pose proof (calendar_usec_bound ldate Hd) as Hb.
  destruct Hd as (Td & _). destruct Ht as (Tt & Hday & Hh & Hm & Hs & Hsp).
  unfold calc_time_diff_sec.
  replace (is_type (time_type ldate) _) with false by (by destruct Td as [->| ->]).
  rewrite Tt. cbn [is_type timestamp_type_val Z.eqb Pos.eqb]. rewrite Hday.
  match goal with |- context [s64 ?v] => replace v with u end.
  2:{ unfold u, usec_of, time_usec_signed, combine, SECONDS_IN_24H. destruct (neg ltime); lia. }
  rewrite s64_small.
  2:{ unfold u, time_usec_signed, combine, MAX_DAY_NUMBER, usec_per_day, TIME_MAX_HOUR,
      TIME_MAX_SECOND_PART in *. destruct (neg ltime); lia. }
  replace (u <? 0) with false by lia.
  by rewrite Z.quot_div_nonneg, Z.rem_mod_nonneg by lia.
Qed.

Lemma split_seconds s us : 0 <= s < 86400 -> 0 <= us < 1000000 -> forall to,
  let t := calc_time_from_sec to s us in
  0 <= hour t <= 23 /\ 0 <= minute t <= 59 /\ 0 <= second t <= 59 /\ second_part t = us /\
  (hour t * 60 + minute t) * 60 + second t = s.
Proof.
  intros Hs Hus to. unfold calc_time_from_sec. cbn [hour minute second second_part].
  rewrite u64_small by lia. rewrite !u32_small by divlia. divlia.
Qed.

(** Converting a TIME to DATETIME adds the signed time to the current
    date: the result is the calendar time that many microseconds from its
    midnight, also when the time is negative or longer than a day. *)
Theorem mix_date_and_time_correct ldate ltime : calendar_time ldate -> neg ldate = false ->
  hour ldate = 0 -> minute ldate = 0 -> second ldate = 0 -> second_part ldate = 0 ->
  clock_time ltime ->
  let u := usec_of ldate + time_usec_signed ltime in
  366 * usec_per_day <= u < (MAX_DAY_NUMBER + 1) * usec_per_day ->
  let t := mix_date_and_time ldate ltime in
  calendar_time t /\ usec_of t = u /\ neg t = false /\ time_type t = MYSQL_TIMESTAMP_DATETIME.
Proof.
  intros Hd Hn Eh Em Es Esp Ht u Hu t. unfold t, mix_date_and_time.
  pose proof Ht as (Tt & Hday & Hh & Hm & Hs & Hsp).
  destruct (negb (neg ltime) && (hour ltime <? 24)) eqn:R.
  - apply andb_true_iff in R as [R1 R2]. apply negb_true_iff in R1.
    destruct Hd as (Td & Hy & Hv & _). unfold mix_date_and_time_simple, calendar_time, u, usec_of,
      time_usec_signed, combine. simpl. rewrite R1, Eh, Em, Es, Esp.
    split; [|split; [lia|done]]. repeat split; auto; try lia; apply Hv.
  - unfold mix_date_and_time_complex. unfold MAX_DAY_NUMBER, usec_per_day in Hu.
    rewrite mix_complex_diff by (done || (fold u; lia)). fold u.
    rewrite Z.quot_div_nonneg, Z.rem_mod_nonneg by (unfold SECONDS_IN_24H; divlia).
    unfold SECONDS_IN_24H.
    assert (366 <= u / 1000000 / 86400 <= MAX_DAY_NUMBER) as Hr by (unfold MAX_DAY_NUMBER; divlia).
    destruct (get_date_spec _ Hr) as (y & m & d & -> & Hy & Hv & E).
    destruct (split_seconds ((u / 1000000) mod 86400) (u mod 1000000) ltac:(divlia) ltac:(divlia)
      (set_neg ldate false)) as (S1 & S2 & S3 & S4 & S5).
    set (c := calc_time_from_sec _ _ _) in *. assert (neg c = false) as Nc by reflexivity. clearbody c.
    unfold calendar_time, usec_of, combine. simpl.
    rewrite E, S4. unfold TIME_MAX_SECOND_PART.
    split; [repeat split; auto; try lia; try apply Hv; divlia|]. split; [divlia|]. done.
Qed.

Lemma mix_date_and_time_correct_witness :
  let t := mix_date_and_time (mk_MYSQL_TIME 2016 3 1 0 0 0 0 false MYSQL_TIMESTAMP_DATE)
             (mk_MYSQL_TIME 0 0 0 25 0 0 0 true MYSQL_TIMESTAMP_TIME) in
  calendar_time t /\
  usec_of t = usec_of (mk_MYSQL_TIME 2016 3 1 0 0 0 0 false MYSQL_TIMESTAMP_DATE) +
    time_usec_signed (mk_MYSQL_TIME 0 0 0 25 0 0 0 true MYSQL_TIMESTAMP_TIME) /\
  neg t = false /\ time_type t = MYSQL_TIMESTAMP_DATETIME.
Proof.
  apply (mix_date_and_time_correct (mk_MYSQL_TIME 2016 3 1 0 0 0 0 false MYSQL_TIMESTAMP_DATE)
    (mk_MYSQL_TIME 0 0 0 25 0 0 0 true MYSQL_TIMESTAMP_TIME)); try reflexivity.
  - unfold calendar_time, valid_ymd, TIME_MAX_SECOND_PART; simpl; change (dim 2016 3) with 31;
      repeat split; auto; lia.
  - unfold clock_time, TIME_MAX_HOUR, TIME_MAX_SECOND_PART. simpl. repeat split; lia.
  - vm_compute. split; congruence.
Defined.

(** ** Comparison *)

(** The members from the most to the least significant one. *)
Definition time_key (t : MYSQL_TIME) : list Z :=
  [year t; month t; day t; hour t; minute t; second t; second_part t].

Fixpoint lex_compare (a b : list Z) : comparison :=
  match a, b with
  | x :: a', y :: b' => match x ?= y with Eq => lex_compare a' b' | c => c end
  | [], [] => Eq
  | [], _ => Lt
  | _, [] => Gt
  end.

(** A digit more does not change an order already decided. *)
Lemma radix_compare q q' n r r' : 0 <= r < n -> 0 <= r' < n ->
  (q * n + r ?= q' * n + r') = match q ?= q' with Eq => r ?= r' | c => c end.
Proof.
  intros H H'. destruct (Z.compare_spec q q') as [->|L|L].
  - apply Z.add_compare_mono_l.
  - apply Z.compare_lt_iff. nia.
  - apply Z.compare_gt_iff. nia.
Qed.

Lemma packed_abs_compare a b : normalized a -> normalized b ->
  (packed_abs a ?= packed_abs b) = lex_compare (time_key a) (time_key b).
Proof.
  unfold normalized, TIME_MAX_SECOND_PART. intros Ha Hb. unfold packed_abs, time_key.
  cbn [lex_compare]. rewrite !radix_compare by lia.
  by repeat match goal with |- context [?x ?= ?y] => destruct (x ?= y) end.
Qed.

(** On values that are not negative, [my_time_compare] is the order of
    their members, year first. *)
Theorem my_time_compare_correct a b : normalized a -> normalized b ->
  neg a = false -> neg b = false ->
  my_time_compare a b =
  match lex_compare (time_key a) (time_key b) with Lt => -1 | Eq => 0 | Gt => 1 end.
Proof.
  intros Ha Hb Na Nb. rewrite <- packed_abs_compare by done. unfold my_time_compare.
  rewrite !pack_time_normalized, Na, Nb by done.
  pose proof (packed_abs_bounds a Ha). pose proof (packed_abs_bounds b Hb).
  rewrite !u64_small by lia. rewrite Z.gtb_ltb.
  destruct (Z.compare_spec (packed_abs a) (packed_abs b)), (Z.ltb_spec (packed_abs a) (packed_abs b)),
    (Z.ltb_spec (packed_abs b) (packed_abs a)); lia.
Qed.

Lemma my_time_compare_correct_witness :
  my_time_compare (mk_MYSQL_TIME 2016 2 29 23 59 59 0 false MYSQL_TIMESTAMP_DATETIME)
                  (mk_MYSQL_TIME 2016 3 1 0 0 0 0 false MYSQL_TIMESTAMP_DATETIME)
  = match lex_compare [2016; 2; 29; 23; 59; 59; 0] [2016; 3; 1; 0; 0; 0; 0] with
    | Lt => -1 | Eq => 0 | Gt => 1 end.
Proof.
  apply (my_time_compare_correct
    (mk_MYSQL_TIME 2016 2 29 23 59 59 0 false MYSQL_TIMESTAMP_DATETIME)
    (mk_MYSQL_TIME 2016 3 1 0 0 0 0 false MYSQL_TIMESTAMP_DATETIME)); try reflexivity;
    unfold normalized, TIME_MAX_SECOND_PART; simpl; lia.
Defined.

(** The packed values are compared as unsigned numbers: -01:00:00 is found
    greater than 01:00:00. *)
Lemma my_time_compare_negative :
  my_time_compare (mk_MYSQL_TIME 0 0 0 1 0 0 0 true MYSQL_TIMESTAMP_TIME)
                  (mk_MYSQL_TIME 0 0 0 1 0 0 0 false MYSQL_TIMESTAMP_TIME) = 1.
Proof. reflexivity. Qed.

(** ** DATETIME to TIME *)

(** A difference out of the TIME range is clipped and reported as a success. *)
Lemma datetime_to_time_clips :
  datetime_to_time_with_warn
    (mk_session (mk_MYSQL_TIME 2016 1 1 10 0 0 0 false MYSQL_TIMESTAMP_DATETIME) false)
    (mk_MYSQL_TIME 2016 4 10 0 0 0 0 false MYSQL_TIMESTAMP_DATETIME) 6
  = (false, mk_MYSQL_TIME 0 0 0 838 59 59 999999 false MYSQL_TIMESTAMP_TIME).
Proof. vm_compute. reflexivity. Qed.

(** ** Periods *)

(** Converting a period of a four-digit year to months and back is the
    identity, and so is the way from months to a period and back. *)
Theorem period_month_roundtrip y m : 100 <= y <= 9999 -> 1 <= m <= 12 ->
  convert_month_to_period (convert_period_to_month (y * 100 + m)) = y * 100 + m /\
  convert_period_to_month (convert_month_to_period (y * 12 + (m - 1))) = y * 12 + (m - 1).
Proof.
  intros Hy Hm. unfold convert_month_to_period, convert_period_to_month, YY_PART_YEAR.
  assert (Z.quot (y * 100 + m) 100 = y /\ Z.rem (y * 100 + m) 100 = m) as [-> ->] by divlia.
  assert (Z.quot (y * 12 + (m - 1)) 12 = y /\ Z.rem (y * 12 + (m - 1)) 12 = m - 1) as [-> ->] by divlia.
  replace (y <? 70) with false by lia. replace (y <? 100) with false by lia.
  replace (y * 100 + m =? 0) with false by lia. replace (y * 12 + (m - 1) =? 0) with false by lia.
  rewrite (u64_small (y * 12 + m - 1)), (u64_small (y * 100 + (m - 1) + 1)) by lia.
  replace (y * 12 + m - 1) with (y * 12 + (m - 1)) by lia.
  replace (y * 100 + (m - 1) + 1) with (y * 100 + m) by lia.
  assert (Z.quot (y * 100 + m) 100 = y /\ Z.rem (y * 100 + m) 100 = m) as [-> ->] by divlia.
  assert (Z.quot (y * 12 + (m - 1)) 12 = y /\ Z.rem (y * 12 + (m - 1)) 12 = m - 1) as [-> ->] by divlia.
  replace (y <? 70) with false by lia. replace (y <? 100) with false by lia.
  replace (y * 100 + m =? 0) with false by lia. replace (y * 12 + (m - 1) =? 0) with false by lia.
  rewrite !u64_small by lia. lia.
Qed.

Lemma period_month_roundtrip_witness :
  convert_month_to_period (convert_period_to_month (2008 * 100 + 2)) = 2008 * 100 + 2 /\
  convert_period_to_month (convert_month_to_period (2008 * 12 + (2 - 1))) = 2008 * 12 + (2 - 1).
Proof. apply period_month_roundtrip; lia. Defined.
