(* ===== verification/Queue.v ===== *)
(** * Priority queues: [mysys/queues.c], [include/queues.h]

    A queue is a binary heap of pointers in [root[1..elements]].  An element
    is an abstract identity [E]; [pos] is the [uint] member of each element
    in which its index is kept when [offset_to_queue_pos] is given.  The
    memory of [root] never fails to grow here: an allocation error leaves the
    queue unchanged, and is the argument [alloc_ok] of the operations that can
    meet one. *)
From S2P Require Import Prelude.
From Stdlib Require Import ZArith Lia List Bool.
From Stdlib Require Import ZifyNat.
From stdpp Require Import base tactics list numbers functions.
Open Scope Z_scope.

(** What the code needs of a [compare] callback: a total preorder, by sign. *)
Class QueueOrder {E : Type} (compare : E -> E -> Z) : Prop := {
  qo_flip : forall a b, compare a b <= 0 <-> 0 <= compare b a;
  qo_trans : forall a b c, compare a b <= 0 -> compare b c <= 0 -> compare a c <= 0
}.

Section Queue.
Context {E : Type} `{EqDecision E}.
Variable compare : E -> E -> Z.

Record QUEUE := mk_QUEUE {
  root : nat -> E;
  elements : nat;
  max_elements : nat;
  auto_extent : nat;
  with_pos : bool;            (* offset_to_queue_pos <> 0 *)
  pos : E -> nat;
  max_at_top : Z              (* 1, or -1 when the biggest is on top *)
}.

Definition cmp (q : QUEUE) (a b : E) : Z := compare a b * max_at_top q.

Definition set_elements (q : QUEUE) (n : nat) : QUEUE :=
  mk_QUEUE (root q) n (max_elements q) (auto_extent q) (with_pos q) (pos q) (max_at_top q).

(** [queue->root[idx]= e], with the position stored in the element. *)
Definition store (q : QUEUE) (idx : nat) (e : E) : QUEUE :=
  mk_QUEUE (<[idx := e]> (root q)) (elements q) (max_elements q) (auto_extent q) (with_pos q)
    (if with_pos q then <[e := idx]> (pos q) else pos q) (max_at_top q).

(** ** Operations *)

(** [some] is a value of the uninitialised array. *)
Definition init_queue (some : E) (max : nat) (max_top : bool) (has_pos : bool) (extent : nat)
  : QUEUE :=
  mk_QUEUE (fun _ => some) 0 max extent has_pos (fun _ => 0%nat) (if max_top then -1 else 1).

Definition resize_queue (alloc_ok : bool) (q : QUEUE) (max : nat) : Z * QUEUE :=
  if (max_elements q =? max)%nat then (0, q)
  else if negb alloc_ok then (1, q)
  else (0, mk_QUEUE (root q) (Nat.min (elements q) max) max (auto_extent q) (with_pos q)
             (pos q) (max_at_top q)).

Definition reinit_queue (alloc_ok : bool) (q : QUEUE) (max : nat) (max_top has_pos : bool)
  (extent : nat) : Z * QUEUE :=
  resize_queue alloc_ok
    (mk_QUEUE (root q) 0 (max_elements q) extent has_pos (pos q) (if max_top then -1 else 1)) max.

(** The loop that moves parents down while [element] comes before them;
    [queue_insert] runs it with [start_idx] 0.  The hole's index halves, so
    [idx] turns are enough. *)
Fixpoint up_loop (fuel : nat) (q : QUEUE) (start_idx idx : nat) (element : E) : QUEUE * nat :=
  match fuel with
  | O => (q, idx)
  | S fuel =>
    let next_index := (idx / 2)%nat in
    if (start_idx <? next_index)%nat && (cmp q element (root q next_index) <? 0)
    then up_loop fuel (store q idx (root q next_index)) start_idx next_index element
    else (q, idx)
  end.

Definition queue_insert (q : QUEUE) (element : E) : QUEUE :=
  let idx := S (elements q) in
  let '(q, idx) := up_loop idx (set_elements q idx) 0 idx element in
  store q idx element.

Definition queue_insert_safe (alloc_ok : bool) (q : QUEUE) (element : E) : Z * QUEUE :=
  if (elements q =? max_elements q)%nat then
    if (auto_extent q =? 0)%nat then (2, q)
    else
      let '(r, q') := resize_queue alloc_ok q (max_elements q + auto_extent q) in
      if negb (r =? 0) then (1, q') else (0, queue_insert q' element)
  else (0, queue_insert q element).

(** The smaller child. *)
Definition smaller_child (q : QUEUE) (idx : nat) : nat :=
  let next_index := (idx + idx)%nat in
  if (next_index <? elements q)%nat &&
     (cmp q (root q next_index) (root q (S next_index)) >? 0)
  then S next_index else next_index.

(** The loop that moves children up, from the second turn on. *)
Fixpoint down_loop (fuel : nat) (q : QUEUE) (idx : nat) : QUEUE * nat :=
  match fuel with
  | O => (q, idx)
  | S fuel =>
    if (idx <=? elements q / 2)%nat then
      let next_index := smaller_child q idx in
      down_loop fuel (store q idx (root q next_index)) next_index
    else (q, idx)
  end.

Definition downheap (q : QUEUE) (start_idx : nat) (element : E) : QUEUE :=
  if (start_idx <=? elements q / 2)%nat then
    let next_index := smaller_child q start_idx in
    if 0 <=? cmp q (root q next_index) element then store q start_idx element
    else
      let '(q, idx) := down_loop (elements q) (store q start_idx (root q next_index)) next_index in
      let '(q, idx) := up_loop idx q start_idx idx element in
      store q idx element
  else
    let '(q, idx) := up_loop start_idx q start_idx start_idx element in
    store q idx element.

Definition queue_remove (q : QUEUE) (idx : nat) : E * QUEUE :=
  let element := root q idx in
  (element, downheap (set_elements q (pred (elements q))) idx (root q (elements q))).

Definition queue_remove_top (q : QUEUE) : E * QUEUE := queue_remove q 1.
Definition queue_replace_top (q : QUEUE) : QUEUE := downheap q 1 (root q 1).

Fixpoint fix_loop (i : nat) (q : QUEUE) : QUEUE :=
  match i with
  | O => q
  | S i' => fix_loop i' (downheap q i (root q i))
  end.
Definition queue_fix (q : QUEUE) : QUEUE := fix_loop (elements q / 2) q.

Definition queue_replace (q : QUEUE) (idx : nat) : QUEUE :=
  let element := root q idx in
  queue_insert (snd (queue_remove q idx)) element.

Definition queue_top (q : QUEUE) : E := root q 1.
Definition queue_empty (q : QUEUE) : bool := (elements q =? 0)%nat.
Definition queue_remove_all (q : QUEUE) : QUEUE := set_elements q 0.

(** ** Heap order *)

Context `{!QueueOrder compare}.

(** [a] may stand above [b]. *)
Definition le (q : QUEUE) (a b : E) : Prop := cmp q a b <= 0.

Definition wf_top (q : QUEUE) : Prop := max_at_top q = 1 \/ max_at_top q = -1.

Lemma le_total q a b : wf_top q -> le q a b \/ le q b a.
Proof.
  unfold le, cmp. pose proof (qo_flip a b). pose proof (qo_flip b a). intros [-> | ->]; lia.
Qed.

Lemma not_le q a b : wf_top q -> 0 < cmp q a b -> le q b a.
Proof. intros H L. destruct (le_total q a b H) as [K|K]; [unfold le in K; lia|done]. Qed.

Lemma ge_le q a b : wf_top q -> 0 <= cmp q a b -> le q b a.
Proof.
  unfold le, cmp. pose proof (qo_flip a b). pose proof (qo_flip b a). intros [-> | ->]; lia.
Qed.

Lemma le_refl q a : wf_top q -> le q a a.
Proof. intros H. by destruct (le_total q a a H). Qed.

Lemma le_trans q a b c : wf_top q -> le q a b -> le q b c -> le q a c.
Proof.
  unfold le, cmp. pose proof (qo_flip a b). pose proof (qo_flip b a).
  pose proof (qo_flip b c). pose proof (qo_flip c b). pose proof (qo_flip a c). pose proof (qo_flip c a).
  pose proof (qo_trans a b c). pose proof (qo_trans c b a). intros [-> | ->]; lia.
Qed.

(** Every element from the children of [start] on is below its parent. *)
Definition heap_from (start : nat) (q : QUEUE) : Prop :=
  forall i, (2 <= i <= elements q)%nat -> (start <= i / 2)%nat -> le q (root q (i / 2)) (root q i).
Definition heap (q : QUEUE) : Prop := heap_from 1 q.

(** The elements in the order of the array. *)
Definition contents (q : QUEUE) : list E := map (root q) (seq 1 (elements q)).

(** Each element knows its index. *)
Definition positions (q : QUEUE) : Prop :=
  with_pos q = true -> forall i, (1 <= i <= elements q)%nat -> pos q (root q i) = i.

(** What [store] leaves alone. *)
Lemma store_same q i e : elements (store q i e) = elements q /\ max_at_top (store q i e) = max_at_top q /\
  with_pos (store q i e) = with_pos q /\ max_elements (store q i e) = max_elements q.
Proof. done. Qed.

Lemma root_store_eq q i e : root (store q i e) i = e.
Proof. simpl. apply fn_lookup_insert. Qed.
Lemma root_store_ne q i j e : i <> j -> root (store q i e) j = root q j.
Proof. simpl. apply fn_lookup_insert_ne. Qed.

(** ** Content: the array with a hole

    The loops carry an element in hand and a hole in the array; storing the
    element in the hole at any moment gives the same multiset. *)

Definition swap_idx (i j k : nat) : nat :=
  if decide (k = i) then j else if decide (k = j) then i else k.

Lemma swap_idx_seq i j n : (1 <= i <= n)%nat -> (1 <= j <= n)%nat ->
  map (swap_idx i j) (seq 1 n) ≡ₚ seq 1 n.
Proof.
  intros Hi Hj. apply NoDup_Permutation.
  - apply NoDup_fmap_2_strong; [|apply NoDup_seq].
    intros x y _ _. unfold swap_idx. repeat case_decide; congruence.
  - apply NoDup_seq.
  - intros x. rewrite list_elem_of_fmap. split.
    + intros (y & -> & Hy). apply elem_of_seq in Hy. apply elem_of_seq.
      unfold swap_idx. repeat case_decide; lia.
    + intros Hx. apply elem_of_seq in Hx. exists (swap_idx i j x). split.
      * unfold swap_idx. repeat case_decide; congruence.
      * apply elem_of_seq. unfold swap_idx. repeat case_decide; lia.
Qed.

Lemma contents_move q idx j e : (1 <= idx <= elements q)%nat -> (1 <= j <= elements q)%nat -> idx <> j ->
  contents (store (store q idx (root q j)) j e) ≡ₚ contents (store q idx e).
Proof.
  intros Hi Hj Hne. unfold contents. simpl elements.
  rewrite <- (swap_idx_seq idx j (elements q)) at 2 by done.
  rewrite map_map. erewrite map_ext; [reflexivity|]. intros k.
  unfold swap_idx. destruct (decide (k = idx)) as [->|Hki]; [|destruct (decide (k = j)) as [->|Hkj]].
  - by rewrite root_store_ne, root_store_eq, root_store_ne by done.
  - by rewrite !root_store_eq.
  - by rewrite !root_store_ne by done.
Qed.

(** The positions of the elements outside the hole. *)
Definition positions_but (hole : nat) (q : QUEUE) : Prop :=
  with_pos q = true -> forall i, (1 <= i <= elements q)%nat -> i <> hole -> pos q (root q i) = i.

(** The elements outside the hole are distinct and are not [e]. *)
Definition distinct_with (hole : nat) (e : E) (q : QUEUE) : Prop :=
  NoDup (contents (store q hole e)).

Lemma contents_lookup q i : (1 <= i <= elements q)%nat -> contents q !! (i - 1)%nat = Some (root q i).
Proof.
  intros Hi. unfold contents.
  change (map (root q) (seq 1 (elements q))) with (root q <$> seq 1 (elements q)).
  rewrite list_lookup_fmap, lookup_seq_lt by lia. simpl. do 2 f_equal. lia.
Qed.

Lemma contents_distinct q i j : NoDup (contents q) ->
  (1 <= i <= elements q)%nat -> (1 <= j <= elements q)%nat -> i <> j -> root q i <> root q j.
Proof.
  intros H Hi Hj Hne Heq. apply Hne.
  pose proof (contents_lookup q i Hi) as H1. pose proof (contents_lookup q j Hj) as H2.
  rewrite Heq in H1. pose proof (NoDup_lookup _ _ _ _ H H1 H2). lia.
Qed.

Lemma positions_move q idx j e : (1 <= idx <= elements q)%nat -> (1 <= j <= elements q)%nat -> idx <> j ->
  distinct_with idx e q -> positions_but idx q -> positions_but j (store q idx (root q j)).
Proof.
  intros Hi Hj Hne Hd Hp Hw k Hk Hkj. simpl in Hw, Hk. simpl. rewrite Hw.
  destruct (decide (k = idx)) as [->|Hki].
  - rewrite fn_lookup_insert. apply fn_lookup_insert.
  - rewrite (fn_lookup_insert_ne (root q)) by congruence. rewrite fn_lookup_insert_ne; [by apply Hp|].
    pose proof (contents_distinct (store q idx e) j k Hd) as D.
    rewrite !root_store_ne in D by congruence. apply D; auto; congruence.
Qed.

Lemma positions_fill q idx e : (1 <= idx <= elements q)%nat ->
  distinct_with idx e q -> positions_but idx q -> positions (store q idx e).
Proof.
  intros Hi Hd Hp Hw k Hk. simpl in Hw, Hk. simpl. rewrite Hw.
  destruct (decide (k = idx)) as [->|Hki].
  - rewrite fn_lookup_insert. apply fn_lookup_insert.
  - rewrite (fn_lookup_insert_ne (root q)) by congruence. rewrite fn_lookup_insert_ne; [by apply Hp|].
    pose proof (contents_distinct (store q idx e) idx k Hd) as D.
    rewrite root_store_eq, root_store_ne in D by congruence. apply D; auto; congruence.
Qed.

(** [start] is on the way from [idx] to the top. *)
Definition below (start idx : nat) : Prop := exists k, Nat.iter k (fun i => i / 2)%nat idx = start.

(** From a hole at [idx] to a hole at [idx'], [e] in hand: nothing is lost. *)
Definition same_shape (q q' : QUEUE) : Prop :=
  elements q' = elements q /\ max_at_top q' = max_at_top q /\ with_pos q' = with_pos q /\
  max_elements q' = max_elements q /\ auto_extent q' = auto_extent q.

Record carries (start : nat) (e : E) (q : QUEUE) (idx : nat) (q' : QUEUE) (idx' : nat) : Prop := {
  ca_shape : same_shape q q';
  ca_range : (1 <= idx' <= elements q)%nat;
  ca_perm : contents (store q' idx' e) ≡ₚ contents (store q idx e);
  ca_pos : distinct_with idx e q -> positions_but idx q -> positions_but idx' q';
  ca_below : below start idx';
  ca_frame : forall i, ~ below start i -> root q' i = root q i
}.

Lemma carries_refl start e q idx : (1 <= idx <= elements q)%nat -> below start idx ->
  carries start e q idx q idx.
Proof. intros H Hb. split; done. Qed.

Lemma carries_move start e q idx j : (1 <= idx <= elements q)%nat -> (1 <= j <= elements q)%nat ->
  idx <> j -> below start idx -> below start j ->
  carries start e q idx (store q idx (root q j)) j.
Proof.
  intros Hi Hj Hne Hb Hb'. split; [done|done|by apply contents_move| |done|].
  - intros Hd Hp. eapply positions_move; eauto.
  - intros i Hn. apply root_store_ne. intros ->. done.
Qed.

Lemma carries_trans start e q1 i1 q2 i2 q3 i3 :
  carries start e q1 i1 q2 i2 -> carries start e q2 i2 q3 i3 -> carries start e q1 i1 q3 i3.
Proof.
  intros [(S1 & S2 & S3 & S4 & S5) R1 P1 D1 B1 F1] [(T1 & T2 & T3 & T4 & T5) R2 P2 D2 B2 F2]. split.
  - unfold same_shape. repeat split; congruence.
  - by rewrite <- S1.
  - by rewrite P2.
  - intros Hd Hp. apply D2; [|by apply D1]. unfold distinct_with in *. by rewrite P1.
  - done.
  - intros i Hn. by rewrite F2, F1.
Qed.

Lemma below_parent start idx : below start idx -> idx <> start ->
  below start (idx / 2)%nat /\ (start <= idx / 2)%nat.
Proof.
  intros [k Hk] Hne. destruct k as [|k]; [done|]. rewrite Nat.iter_succ_r in Hk.
  split; [by exists k|]. rewrite <- Hk. clear. induction k as [|k IH]; [done|].
  rewrite Nat.iter_succ. etransitivity; [|exact IH]. apply Nat.Div0.div_le_upper_bound. lia.
Qed.

(** Heap order but for the hole at [idx]: across it from parent to children,
    and [e] may be put above the hole's children. *)
Record hole_order (start idx : nat) (e : E) (q : QUEUE) : Prop := {
  ho_other : forall i, (2 <= i <= elements q)%nat -> (start <= i / 2)%nat -> i <> idx ->
    (i / 2 <> idx)%nat -> le q (root q (i / 2)) (root q i);
  ho_across : forall c, (2 <= c <= elements q)%nat -> (c / 2 = idx)%nat ->
    (start <= idx / 2)%nat -> (1 <= idx / 2)%nat -> le q (root q (idx / 2)) (root q c);
  ho_below : forall c, (2 <= c <= elements q)%nat -> (c / 2 = idx)%nat -> le q e (root q c)
}.

Lemma hole_order_up start idx e q : wf_top q -> (1 <= idx <= elements q)%nat ->
  (start < idx / 2)%nat -> hole_order start idx e q -> cmp q e (root q (idx / 2)) < 0 ->
  hole_order start (idx / 2) e (store q idx (root q (idx / 2))).
Proof.
  intros Hw Hi Hs [Ho Ha Hb] Hc. assert (le q e (root q (idx / 2))) as Hle by (unfold le; lia).
  split; change (elements (store q idx (root q (idx / 2)))) with (elements q);
    change (le (store q idx (root q (idx / 2)))) with (le q).
  - intros i Hr Hsi Hne1 Hne2. assert (i <> idx) by congruence.
    rewrite (root_store_ne _ _ i) by congruence.
    destruct (decide (i / 2 = idx)%nat) as [Ei|Ei].
    + rewrite Ei, root_store_eq. apply Ha; auto; nlia.
    + rewrite root_store_ne by congruence. by apply Ho.
  - intros c Hr Ec Hs1 Hs2. rewrite (root_store_ne _ _ (idx / 2 / 2)) by nlia.
    assert (le q (root q (idx / 2 / 2)) (root q (idx / 2))) as H1 by (apply Ho; nlia).
    destruct (decide (c = idx)) as [->|Hci]; [by rewrite root_store_eq|].
    rewrite root_store_ne by congruence. apply (le_trans q _ (root q (idx / 2))); [done|done|].
    rewrite <- Ec. apply Ho; auto; nlia.
  - intros c Hr Ec. destruct (decide (c = idx)) as [->|Hci]; [by rewrite root_store_eq|].
    rewrite root_store_ne by congruence. apply (le_trans q _ (root q (idx / 2))); [done|done|].
    rewrite <- Ec. apply Ho; auto; nlia.
Qed.

(** The element goes in where the upward loop stops. *)
Lemma up_loop_spec fuel q start idx e q' idx' : wf_top q -> (idx <= fuel)%nat ->
  (1 <= idx <= elements q)%nat -> below start idx -> hole_order start idx e q ->
  ((1 <= start < idx)%nat -> le q (root q start) e) ->
  up_loop fuel q start idx e = (q', idx') ->
  carries start e q idx q' idx' /\ heap_from start (store q' idx' e).
Proof.
  revert q idx. induction fuel as [|fuel IH]; intros q idx Hw Hf Hi Hb Ho Hs; [lia|].
  cbn [up_loop]. destruct ((start <? idx / 2)%nat && _) eqn:C.
  - apply andb_true_iff in C as [C1 C2]. apply Nat.ltb_lt in C1. apply Z.ltb_lt in C2.
    assert (1 <= idx / 2 < idx)%nat as Hh by nlia. intros Hl.
    assert (idx <> start) as Hne by nlia.
    destruct (below_parent start idx Hb Hne) as [Hb' _].
    apply IH in Hl as [Hca Hh']; auto.
    + split; [|done]. eapply carries_trans; [|exact Hca]. apply carries_move; auto; lia.
    + lia.
    + cbn [elements store]. lia.
    + by apply hole_order_up.
    + intros Hr. rewrite root_store_ne by lia. apply Hs. lia.
  - intros [= <- <-]. split; [by apply carries_refl|]. intros i Hr Hsi.
    change (elements (store q idx e)) with (elements q) in Hr. change (le (store q idx e)) with (le q).
    destruct Ho as [Ho Ha Hbe]. destruct (decide (i = idx)) as [->|Hii].
    + rewrite root_store_eq, root_store_ne by nlia.
      apply andb_false_iff in C as [C|C].
      * apply Nat.ltb_ge in C. assert (idx / 2 = start)%nat as -> by lia. apply Hs. nlia.
      * apply Z.ltb_ge in C. by apply ge_le.
    + rewrite (root_store_ne _ _ i) by congruence.
      destruct (decide (i / 2 = idx)%nat) as [Ei|Ei].
      * rewrite Ei, root_store_eq. by apply Hbe.
      * rewrite root_store_ne by congruence. by apply Ho.
Qed.

Lemma smaller_child_spec q idx : wf_top q -> (1 <= idx <= elements q / 2)%nat ->
  let c := smaller_child q idx in
  (2 <= c <= elements q)%nat /\ (c / 2 = idx)%nat /\
  forall c', (2 <= c' <= elements q)%nat -> (c' / 2 = idx)%nat -> le q (root q c) (root q c').
Proof.
  intros Hw Hi. unfold smaller_child. rewrite Z.gtb_ltb.
  destruct (Nat.ltb_spec (idx + idx) (elements q)) as [L|L]; cbn [andb].
  - destruct (Z.ltb_spec 0 (cmp q (root q (idx + idx)) (root q (S (idx + idx))))) as [C|C].
    + split; [lia|]. split; [nlia|]. intros c' Hc Ec.
      assert (c' = idx + idx \/ c' = S (idx + idx))%nat as [->| ->] by nlia.
      * by apply not_le.
      * by apply le_refl.
    + split; [nlia|]. split; [nlia|]. intros c' Hc Ec.
      assert (c' = idx + idx \/ c' = S (idx + idx))%nat as [->| ->] by nlia; [by apply le_refl|done].
  - split; [nlia|]. split; [nlia|]. intros c' Hc Ec.
    assert (c' = idx + idx)%nat as -> by nlia. by apply le_refl.
Qed.

Lemma below_child start idx c : below start idx -> (c / 2 = idx)%nat -> below start c.
Proof. intros [k Hk] E1. exists (S k). by rewrite Nat.iter_succ_r, E1. Qed.

(** Moving the smaller child of a hole up keeps the order around it. *)
Lemma heap_from_move start idx q c : wf_top q -> (1 <= start <= idx)%nat ->
  (2 <= c <= elements q)%nat -> (c / 2 = idx)%nat ->
  (forall i, (2 <= i <= elements q)%nat -> (start <= i / 2)%nat -> i <> idx -> (i / 2 <> idx)%nat ->
     le q (root q (i / 2)) (root q i)) ->
  (forall c', (2 <= c' <= elements q)%nat -> (c' / 2 = idx)%nat -> le q (root q c) (root q c')) ->
  ((start < idx)%nat -> le q (root q (idx / 2)) (root q c)) ->
  heap_from start (store q idx (root q c)).
Proof.
  intros Hw Hs Hc Ec Ho Hmin Hup i Hr Hsi. change (le (store q idx (root q c))) with (le q).
  change (elements (store q idx (root q c))) with (elements q) in Hr.
  destruct (decide (i = idx)) as [->|Hi].
  - rewrite root_store_eq, root_store_ne by nlia. apply Hup. nlia.
  - rewrite (root_store_ne _ _ i) by congruence. destruct (decide (i / 2 = idx)%nat) as [E1|E1].
    + rewrite E1, root_store_eq. by apply Hmin.
    + rewrite root_store_ne by congruence. by apply Ho.
Qed.

Lemma down_loop_spec fuel q start idx e q' idx' : wf_top q ->
  (1 <= start < idx)%nat -> (idx <= elements q < fuel + idx)%nat -> below start idx ->
  heap_from start q -> down_loop fuel q idx = (q', idx') ->
  carries start e q idx q' idx' /\ heap_from start q' /\ (start < idx')%nat /\
  (elements q / 2 < idx')%nat /\ root q' start = root q start.
Proof.
  revert q idx. induction fuel as [|fuel IH]; intros q idx Hw Hs Hf Hb Hh; [lia|].
  cbn [down_loop]. destruct (Nat.leb_spec idx (elements q / 2)) as [L|L].
  - destruct (smaller_child_spec q idx Hw ltac:(lia)) as (Hc & Ec & Hmin).
    set (c := smaller_child q idx) in *. intros Hl.
    assert (idx < c)%nat as Hlt by nlia.
    apply IH in Hl as (Hca & Hh' & Hs' & Hl' & Hr'); auto.
    + split; [|rewrite Hr', root_store_ne by lia; done].
      eapply carries_trans; [|exact Hca]. apply carries_move; auto; try lia. by apply (below_child _ idx).
    + lia.
    + cbn [elements store]. lia.
    + by apply (below_child _ idx).
    + destruct (below_parent start idx Hb ltac:(lia)) as [_ Hp].
      apply heap_from_move; auto; try lia. intros _. apply (le_trans q _ (root q idx)); [done| |].
      * apply Hh; nlia.
      * rewrite <- Ec at 1. apply Hh; nlia.
  - intros [= <- <-]. split; [apply carries_refl; auto; lia|]. repeat split; auto; lia.
Qed.

(** What [_downheap] achieves at [start] with [e]. *)
Record sifted (start : nat) (e : E) (q q' : QUEUE) : Prop := {
  si_shape : same_shape q q';
  si_heap : heap_from start q';
  si_perm : contents q' ≡ₚ contents (store q start e);
  si_pos : distinct_with start e q -> positions_but start q -> positions q';
  si_frame : forall i, ~ below start i -> root q' i = root q i;
  si_top : root q' start = e \/
           exists c, (2 <= c <= elements q)%nat /\ (c / 2 = start)%nat /\ root q' start = root q c
}.

Lemma sifted_fill start e q q' idx' : carries start e q start q' idx' ->
  heap_from start (store q' idx' e) ->
  (root (store q' idx' e) start = e \/
   exists c, (2 <= c <= elements q)%nat /\ (c / 2 = start)%nat /\
             root (store q' idx' e) start = root q c) ->
  sifted start e q (store q' idx' e).
Proof.
  intros [Hsh Hr Hp Hpos Hb Hfr] Hh Ht. destruct Hsh as (S1 & S2 & S3 & S4 & S5). split.
  - repeat split; done.
  - done.
  - done.
  - intros Hd Hpb. apply positions_fill; [lia| |by apply Hpos]. unfold distinct_with in *. by rewrite Hp.
  - intros i Hn. rewrite root_store_ne; [by apply Hfr|]. intros ->. done.
  - done.
Qed.

Lemma up_loop_frame fuel q start idx e q' idx' : (start < idx)%nat ->
  up_loop fuel q start idx e = (q', idx') -> root q' start = root q start /\ (start < idx')%nat.
Proof.
  revert q idx. induction fuel as [|fuel IH]; intros q idx Hs; cbn [up_loop].
  - intros [= <- <-]. done.
  - destruct ((start <? idx / 2)%nat && _) eqn:C; [|intros [= <- <-]; done].
    apply andb_true_iff in C as [C _]. apply Nat.ltb_lt in C. intros H. apply IH in H as [-> H]; [|done].
    split; [|done]. apply root_store_ne. lia.
Qed.

Lemma up_loop_start q start e fuel : up_loop fuel q start start e = (q, start).
Proof.
  destruct fuel as [|fuel]; [done|]. cbn [up_loop].
  destruct (Nat.ltb_spec start (start / 2)); [nlia|done].
Qed.

Lemma downheap_spec q start e : wf_top q -> (1 <= start <= elements q)%nat ->
  heap_from (S start) q -> sifted start e q (downheap q start e).
Proof.
  intros Hw Hs Hh. assert (below start start) as Hb by (by exists 0%nat).
  assert (forall i, (2 <= i <= elements q)%nat -> (start <= i / 2)%nat -> i <> start ->
    (i / 2 <> start)%nat -> le q (root q (i / 2)) (root q i)) as Ho by (intros; apply Hh; lia).
  unfold downheap. destruct (Nat.leb_spec start (elements q / 2)) as [L|L].
  - destruct (smaller_child_spec q start Hw ltac:(lia)) as (Hc & Ec & Hmin).
    set (c := smaller_child q start) in *. destruct (Z.leb_spec 0 (cmp q (root q c) e)) as [C|C].
    + apply sifted_fill; [by apply carries_refl| |left; apply root_store_eq].
      intros i Hr Hsi. change (elements (store q start e)) with (elements q) in Hr.
      change (le (store q start e)) with (le q). rewrite (root_store_ne _ _ i) by nlia.
      destruct (decide (i / 2 = start)%nat) as [Ei|Ei].
      * rewrite Ei, root_store_eq. apply (le_trans q _ (root q c)); auto. by apply ge_le.
      * rewrite root_store_ne by congruence. apply Ho; auto. nlia.
    + assert (start < c)%nat as Hlt by nlia.
      assert (heap_from start (store q start (root q c))) as Hh1
        by (apply heap_from_move; [done|lia|done|done|done|done|lia]).
      pose proof (carries_move start e q start c ltac:(lia) ltac:(lia) ltac:(lia) Hb
        (below_child start start c Hb Ec)) as Hca1.
      destruct (down_loop _ _ _) as [q1 i1] eqn:D.
      apply (down_loop_spec _ _ start _ e) in D as (Hca2 & Hh2 & Hs2 & Hl2 & Hr2);
        [|done|lia|cbn [elements store]; lia|by apply (below_child start start)|done].
      rewrite root_store_eq in Hr2. cbn [elements store] in Hl2.
      destruct (up_loop _ _ _ _ _) as [q2 i2] eqn:U.
      pose proof (carries_trans _ _ _ _ _ _ _ _ Hca1 Hca2) as Hca.
      destruct Hca2 as [(E1 & E2 & _) R2 _ _ B2 _]. cbn [elements store max_at_top] in E1, E2, R2.
      assert (wf_top q1) as Hw1 by (unfold wf_top in *; by rewrite E2).
      destruct (up_loop_frame _ _ _ _ _ _ _ Hs2 U) as [Hr3 Hs3].
      apply up_loop_spec in U as [Hca3 Hh3]; [|done|done|lia|done| |].
      * apply sifted_fill; [by eapply carries_trans| done|]. right. exists c.
        split; [done|]. split; [done|]. rewrite root_store_ne by lia. congruence.
      * split; [intros; apply Hh2; auto; lia| |]; intros; nlia.
      * intros _. rewrite Hr2. unfold le, cmp in *. rewrite E2. lia.
  - rewrite up_loop_start. apply sifted_fill; [by apply carries_refl| |left; apply root_store_eq].
    intros i Hr Hsi. cbn [elements store] in Hr. nlia.
Qed.

(** ** Content of the array's ends *)

Lemma contents_snoc q n : contents (set_elements q (S n)) = contents (set_elements q n) ++ [root q (S n)].
Proof. unfold contents. simpl elements. by rewrite seq_S, map_app. Qed.

Lemma contents_store_last q n e :
  contents (store (set_elements q (S n)) (S n) e) = contents (set_elements q n) ++ [e].
Proof.
  unfold contents. cbn [elements store set_elements]. rewrite seq_S, map_app. f_equal.
  - apply map_ext_in. intros k Hk%in_seq. by rewrite root_store_ne by lia.
  - simpl map. by rewrite fn_lookup_insert.
Qed.

Lemma contents_store q idx e : (1 <= idx <= elements q)%nat ->
  root q idx :: contents (store q idx e) ≡ₚ e :: contents q.
Proof.
  intros Hi. unfold contents. cbn [elements store].
  replace (elements q) with ((idx - 1) + S (elements q - idx))%nat by lia.
  rewrite seq_app, !map_app. cbn [seq map]. replace (1 + (idx - 1))%nat with idx by lia.
  rewrite (map_ext_in (root (store q idx e)) (root q) (seq 1 (idx - 1)))
    by (intros k Hk%in_seq; apply root_store_ne; lia).
  rewrite (map_ext_in (root (store q idx e)) (root q) (seq (S idx) (elements q - idx)))
    by (intros k Hk%in_seq; apply root_store_ne; lia).
  rewrite root_store_eq. rewrite <- !Permutation_middle. apply perm_swap.
Qed.

Lemma contents_set_elements q : contents (set_elements q (elements q)) = contents q.
Proof. done. Qed.

(** The well-formed queues: heap order, distinct elements that know their
    index. *)
Record wf (q : QUEUE) : Prop := {
  wf_max : wf_top q;
  wf_heap : heap q;
  wf_nodup : NoDup (contents q);
  wf_pos : positions q
}.

Lemma queue_insert_spec q e : wf q -> e ∉ contents q ->
  wf (queue_insert q e) /\ contents (queue_insert q e) ≡ₚ e :: contents q /\
  elements (queue_insert q e) = S (elements q) /\ max_elements (queue_insert q e) = max_elements q.
Proof.
  intros [Hm Hh Hn Hp] He. unfold queue_insert. set (n := elements q).
  destruct (up_loop _ _ _ _ _) as [q' i'] eqn:U.
  assert (contents (store (set_elements q (S n)) (S n) e) ≡ₚ e :: contents q) as Hc.
  { rewrite contents_store_last. unfold n. rewrite contents_set_elements, <- Permutation_cons_append. done. }
  assert (forall i, (2 <= i <= S n)%nat -> i <> S n -> le q (root q (i / 2)) (root q i)) as Ho
    by (intros; apply Hh; fold n; nlia).
  apply up_loop_spec in U as [[Hsh Hr Hperm Hpos Hb Hfr] Hh']; try done.
  - destruct Hsh as (S1 & S2 & S3 & S4 & S5). cbn [elements set_elements max_at_top with_pos max_elements] in *.
    rewrite Hc in Hperm. assert (NoDup (e :: contents q)) as Hnd by (by apply NoDup_cons_2).
    split; [|repeat split; simpl; congruence]. split.
    + unfold wf_top in *. simpl. by rewrite S2.
    + intros i Hi _. apply Hh'; [done|lia].
    + by rewrite Hperm.
    + apply positions_fill; [lia|unfold distinct_with; by rewrite Hperm|]. apply Hpos.
      * unfold distinct_with. by rewrite Hc.
      * intros Hw i Hi Hne. apply Hp; [done|]. fold n. cbn in Hi. lia.
  - cbn. lia.
  - exists (S (S n)). clear. induction n as [|n IH]; [done|].
    assert (forall k m, (m <= k)%nat -> Nat.iter (S k) (fun i => i / 2)%nat m = 0%nat) as K.
    { clear. induction k as [|k IH]; intros m Hm; [by assert (m = 0)%nat as -> by lia|].
      rewrite Nat.iter_succ_r. apply IH. nlia. }
    apply K. lia.
  - split; intros i; cbn [elements set_elements root]; intros.
    + apply Ho; lia.
    + nlia.
    + nlia.
  - lia.
Qed.

Lemma heap_from_weaken q k k' : (k <= k')%nat -> heap_from k q -> heap_from k' q.
Proof. intros Hk H i Hi Hs. apply H; [done|lia]. Qed.

(** The top is the first in the order. *)
Lemma heap_top q : wf_top q -> heap q -> forall i, (1 <= i <= elements q)%nat -> le q (root q 1) (root q i).
Proof.
  intros Hw Hh i. induction i as [i IH] using lt_wf_ind. intros Hi.
  destruct (decide (i = 1)%nat) as [->|Hne]; [by apply le_refl|].
  apply (le_trans q _ (root q (i / 2))); [done|apply IH; nlia|apply Hh; nlia].
Qed.

(** Sifting [e] down from [idx] in a heap keeps it one when [e] may stand below
    the parent of [idx]. *)
Lemma remove_heap q0 q1 idx e : wf_top q0 -> heap q0 -> (1 <= idx <= elements q0)%nat ->
  sifted idx e q0 q1 -> (idx = 1%nat \/ le q0 (root q0 (idx / 2)) e) -> heap q1.
Proof.
  intros Hm Hh0 Hi [(S1 & S2 & _) Hhf _ _ Hfr Htop] Hlast i Hr Hs. rewrite S1 in Hr.
  assert (le q1 = le q0) as Hle by (unfold le, cmp; by rewrite S2).
  destruct (decide (idx <= i / 2)%nat) as [Hge|Hlt]; [apply Hhf; [lia|done]|]. rewrite Hle.
  assert (forall j, (j < idx)%nat -> root q1 j = root q0 j) as Hlow.
  { intros j Hj. apply Hfr. intros Hb. destruct (decide (j = idx)); [lia|].
    destruct (below_parent idx j Hb); [done|]. nlia. }
  rewrite (Hlow (i / 2)%nat) by lia. destruct (decide (i = idx)) as [->|Hii].
  - destruct Hlast as [->|Hlast]; [nlia|].
    destruct Htop as [->|(c & Hcr & Ec & ->)]; [done|].
    apply (le_trans q0 _ (root q0 idx)); [done|by apply Hh0|].
    rewrite <- Ec at 1. apply Hh0; [done|nlia].
  - rewrite Hfr; [by apply Hh0|]. intros Hb. destruct (below_parent idx i Hb Hii). lia.
Qed.

(** What a removal does to the array.  The heap order is kept when the last
    element may stand below the parent of the place it is put in. *)
Lemma queue_remove_frame q idx e q' : wf q -> (1 <= idx <= elements q)%nat ->
  queue_remove q idx = (e, q') ->
  e = root q idx /\ e :: contents q' ≡ₚ contents q /\ NoDup (contents q') /\ positions q' /\
  S (elements q') = elements q /\ max_at_top q' = max_at_top q /\ with_pos q' = with_pos q /\
  max_elements q' = max_elements q /\
  (idx = 1%nat \/ le q (root q (idx / 2)) (root q (elements q)) -> heap q').
Proof.
  intros [Hm Hh Hn Hp] Hi. unfold queue_remove. intros [= <- <-]. split; [done|].
  destruct (elements q) as [|n] eqn:En; [lia|]. cbn [pred]. set (q0 := set_elements q n).
  assert (heap q0) as Hh0 by (intros i Hr Hs; apply Hh; [simpl in Hr; lia|done]).
  assert (contents q ≡ₚ root q (S n) :: contents q0) as Hc.
  { rewrite <- contents_set_elements, En, contents_snoc. by rewrite <- Permutation_cons_append. }
  destruct (decide (idx = S n)) as [->|Hne].
  - (* the last one *)
    unfold downheap. change (elements q0) with n.
    destruct (Nat.leb_spec (S n) (n / 2)); [nlia|]. rewrite up_loop_start.
    assert (contents (store q0 (S n) (root q (S n))) = contents q0) as E1.
    { unfold contents. cbn [elements store q0 set_elements]. apply map_ext_in.
      intros k Hk%in_seq. by rewrite root_store_ne by lia. }
    rewrite E1. split; [by rewrite Hc|]. rewrite Hc in Hn. apply list.NoDup_cons in Hn as [Hni Hn].
    split_and!; try done.
    + intros Hw i Hr. cbn [elements store] in Hr. change (elements q0) with n in Hr.
      change (with_pos (store q0 (S n) (root q (S n)))) with (with_pos q) in Hw.
      rewrite root_store_ne by lia. cbn [pos store q0 set_elements with_pos]. rewrite Hw.
      rewrite fn_lookup_insert_ne; [apply Hp; [done|lia]|].
      intros E2. apply Hni. rewrite E2. apply list_elem_of_In, in_map_iff. exists i.
      split; [done|]. apply in_seq. simpl. lia.
    + intros _ i Hr Hs. cbn [elements store] in Hr. change (elements q0) with n in Hr.
      rewrite !root_store_ne by nlia. by apply Hh0.
  - assert (1 <= idx <= n)%nat as Hi' by lia.
    destruct (downheap_spec q0 idx (root q (S n)) Hm Hi'
      (heap_from_weaken q0 1 (S idx) ltac:(lia) Hh0)) as [Hsh Hhf Hpm Hps Hfr Htop].
    set (q1 := downheap _ _ _) in *. destruct Hsh as (S1 & S2 & S3 & S4 & S5).
    change (elements q0) with n in *.
    pose proof (contents_store q0 idx (root q (S n)) Hi') as Hcs. rewrite <- Hpm in Hcs.
    rewrite <- Hc in Hcs. change (root q0 idx) with (root q idx) in Hcs.
    assert (NoDup (contents q1)) as Hnd by (rewrite <- Hcs in Hn; by apply list.NoDup_cons in Hn as [_ ?]).
    split_and!; try done; [|congruence|].
    + apply Hps; [unfold distinct_with; by rewrite <- Hpm|].
      intros Hw i Hr Hne'. apply Hp; [done|]. change (elements q0) with n in Hr. lia.
    + intros Hlast. by apply (remove_heap q0 q1 idx (root q (S n))).
Qed.

(** A removal that keeps the queue well formed. *)
Lemma queue_remove_spec q idx e q' : wf q -> (1 <= idx <= elements q)%nat ->
  (idx = 1%nat \/ le q (root q (idx / 2)) (root q (elements q))) ->
  queue_remove q idx = (e, q') ->
  e = root q idx /\ e :: contents q' ≡ₚ contents q /\ wf q' /\
  S (elements q') = elements q /\ max_elements q' = max_elements q.
Proof.
  intros Hq Hi Hlast Er.
  destruct (queue_remove_frame q idx e q' Hq Hi Er) as (? & ? & ? & ? & ? & Hm & ? & ? & Hh).
  split_and!; try done. split; [|by apply Hh|done..]. unfold wf_top. rewrite Hm. apply Hq.
Qed.

Lemma fix_loop_spec i q : wf_top q -> (i <= elements q)%nat -> heap_from (S i) q ->
  NoDup (contents q) -> positions q ->
  let q' := fix_loop i q in
  wf_top q' /\ heap_from 1 q' /\ contents q' ≡ₚ contents q /\ positions q' /\ same_shape q q'.
Proof.
  revert q. induction i as [|i IH]; intros q Hw Hi Hh Hn Hp; cbn [fix_loop].
  - repeat split; auto.
  - destruct (downheap_spec q (S i) (root q (S i)) Hw ltac:(lia) Hh) as [Hsh Hhf Hpm Hps Hfr Htop].
    set (q1 := downheap _ _ _) in *. destruct Hsh as (S1 & S2 & S3 & S4 & S5).
    pose proof (contents_store q (S i) (root q (S i)) ltac:(lia)) as Hc.
    apply Permutation_cons_inv in Hc. rewrite Hc in Hpm.
    destruct (IH q1) as (H1 & H2 & H3 & H4 & H5).
    + unfold wf_top in *. by rewrite S2.
    + lia.
    + done.
    + by rewrite Hpm.
    + apply Hps; [unfold distinct_with; by rewrite Hc|]. intros Hw' k Hk _. by apply Hp.
    + repeat split; auto; try (destruct H5 as (T1 & T2 & T3 & T4 & T5); congruence).
      by rewrite H3.
Qed.

(** Inserting a new element keeps the queue well formed (heap order,
    distinct elements, back-pointers) and adds exactly that element. *)
Theorem queue_insert_correct q e : wf q -> e ∉ contents q ->
  let q' := queue_insert q e in
  wf q' /\ contents q' ≡ₚ e :: contents q /\ elements q' = S (elements q).
Proof. intros Hq He q'. destruct (queue_insert_spec q e Hq He) as (? & ? & ? & ?). done. Qed.

(** C40: removing the top returns an element that comes before all the others,
    takes exactly it out, and leaves the queue well formed. *)
Theorem queue_remove_top_correct q e q' : wf q -> (1 <= elements q)%nat ->
  queue_remove_top q = (e, q') ->
  wf q' /\ e :: contents q' ≡ₚ contents q /\ (forall x, x ∈ contents q -> le q e x).
Proof.
  intros Hq Hn H. destruct (queue_remove_spec q 1 e q' Hq ltac:(lia) ltac:(by left) H)
    as (-> & Hc & Hq' & _). split; [done|]. split; [done|].
  intros x Hx. apply list_elem_of_In, in_map_iff in Hx as (i & <- & Hi%in_seq).
  apply heap_top; [apply Hq|apply Hq|lia].
Qed.

(** [queue_fix] turns any array of distinct elements into a well-formed
    queue with the same elements. *)
Theorem queue_fix_correct q : wf_top q -> NoDup (contents q) -> positions q ->
  wf (queue_fix q) /\ contents (queue_fix q) ≡ₚ contents q.
Proof.
  intros Hw Hn Hp. unfold queue_fix.
  destruct (fix_loop_spec (elements q / 2) q) as (H1 & H2 & H3 & H4 & H5); auto; [nlia|..].
  - intros i Hi Hs. nlia.
  - split; [|done]. split; auto. by rewrite H3.
Qed.

(** Removing the element at [idx] is right when [idx] is the top, or when
    the last element does not come before the parent of [idx]. *)
Theorem queue_remove_correct q idx e q' : wf q -> (1 <= idx <= elements q)%nat ->
  (idx = 1%nat \/ le q (root q (idx / 2)) (root q (elements q))) ->
  queue_remove q idx = (e, q') ->
  e = root q idx /\ e :: contents q' ≡ₚ contents q /\ wf q'.
Proof.
  intros Hq Hi Hl H. destruct (queue_remove_spec q idx e q' Hq Hi Hl H) as (? & ? & ? & _). done.
Qed.
End Queue.

(** ** The interface on integers, and witnesses *)

#[export] Instance Z_queue_order : QueueOrder Z.sub.
Proof. split; intros; lia. Qed.

(** The queue built by inserting the keys one by one. *)
Definition queue_of (ks : list Z) : @QUEUE Z :=
  fold_left (queue_insert Z.sub) ks (init_queue 0 100 false true 0).

Lemma wf_init max : wf Z.sub (init_queue 0 max false true 0).
Proof.
  split; [by left|intros i Hi; simpl in Hi; lia|apply NoDup_nil_2|intros _ i Hi; simpl in Hi; lia].
Qed.

Lemma wf_queue_of ks : NoDup ks ->
  wf Z.sub (queue_of ks) /\ contents (queue_of ks) ≡ₚ ks.
Proof.
  unfold queue_of.
  induction ks as [|k ks IH] using rev_ind; intros Hn; [split; [apply wf_init|done]|].
  rewrite fold_left_app. simpl. apply list.NoDup_app in Hn as (Hn & Hd & _).
  destruct (IH Hn) as [Hw Hc].
  destruct (queue_insert_spec Z.sub _ k Hw) as (Hw' & Hc' & _).
  - rewrite Hc. intros Hk. apply (Hd k Hk). by apply list_elem_of_singleton.
  - split; [done|]. by rewrite Hc', Hc, Permutation_cons_append.
Qed.

Lemma queue_insert_correct_witness :
  let q' := queue_insert Z.sub (queue_of [5; 3; 9]) 4 in
  wf Z.sub q' /\ contents q' ≡ₚ 4 :: contents (queue_of [5; 3; 9]) /\ elements q' = 4%nat.
Proof.
  apply (queue_insert_correct Z.sub (queue_of [5; 3; 9]) 4).
  - apply wf_queue_of. refine (bool_decide_unpack _ _). exact I.
  - refine (bool_decide_unpack _ _). vm_compute. exact I.
Defined.

Lemma queue_remove_top_correct_witness :
  wf Z.sub (snd (queue_remove_top Z.sub (queue_of [5; 3; 9]))) /\
  3 :: contents (snd (queue_remove_top Z.sub (queue_of [5; 3; 9]))) ≡ₚ contents (queue_of [5; 3; 9]) /\
  (forall x, x ∈ contents (queue_of [5; 3; 9]) -> le Z.sub (queue_of [5; 3; 9]) 3 x).
Proof.
  apply (queue_remove_top_correct Z.sub (queue_of [5; 3; 9])).
  - apply wf_queue_of. refine (bool_decide_unpack _ _). exact I.
  - vm_compute. lia.
  - rewrite (surjective_pairing (queue_remove_top _ _)) at 1. f_equal.
Defined.

Lemma queue_fix_correct_witness :
  let q := mk_QUEUE (fun i => 10 - Z.of_nat i) 6 100 0 false (fun _ => 0%nat) 1 in
  wf Z.sub (queue_fix Z.sub q) /\ contents (queue_fix Z.sub q) ≡ₚ contents q.
Proof.
  apply (queue_fix_correct Z.sub (mk_QUEUE (fun i => 10 - Z.of_nat i) 6 100 0 false (fun _ => 0%nat) 1)).
  - by left.
  - refine (bool_decide_unpack _ _). exact I.
  - intros H. discriminate H.
Defined.

Lemma queue_remove_correct_witness :
  3 :: contents (snd (queue_remove Z.sub (queue_of [1; 2; 3; 4]) 3)) ≡ₚ contents (queue_of [1; 2; 3; 4]) /\
  wf Z.sub (snd (queue_remove Z.sub (queue_of [1; 2; 3; 4]) 3)).
Proof.
  apply (queue_remove_correct Z.sub (queue_of [1; 2; 3; 4]) 3 3).
  - apply wf_queue_of. refine (bool_decide_unpack _ _). exact I.
  - vm_compute. lia.
  - right. vm_compute. congruence.
  - rewrite (surjective_pairing (queue_remove _ _ _)) at 1. f_equal.
Defined.

(** Without that condition the heap order is lost: from the well-formed queue
    [1, 10, 2, 11, 12, 3], removing the element at index 4 puts 3 under 10. *)
Lemma queue_remove_breaks_heap :
  let q := queue_of [1; 10; 2; 11; 12; 3] in
  let q' := snd (queue_remove Z.sub q 4) in
  contents q = [1; 10; 2; 11; 12; 3] /\ contents q' = [1; 10; 2; 3; 12] /\
  ~ le Z.sub q' (root q' (4 / 2)) (root q' 4).
Proof. vm_compute. split; [reflexivity|]. split; [reflexivity|]. auto. Qed.
