(* ===== verification/RbTree.v ===== *)
(** * Red-black trees (mysys/tree.c, include/my_tree.h)

    The tree of keys with a count each that the server uses for BTREE indexes
    of HEAP tables, for COUNT(DISTINCT), GROUP_CONCAT and the full-text search.

    A [TREE_ELEMENT] is a tree; the array [tree->parents] of the addresses of
    links is the path from the element to the root, the innermost step first:
    [parent[0]] is the link the element hangs on, [parent[-1][0]] the element of
    the first frame.  Code that would use an element outside the path or a
    child of the null element gives [None].  [compare] is the comparison
    function of the tree. *)
From Stdlib Require Import ZArith Lia List Bool.
From stdpp Require Import base tactics list.
From S2P Require Import Prelude.

Open Scope Z_scope.

Inductive tree_colour := RED | BLACK.

#[export] Instance tree_colour_eq_dec : EqDecision tree_colour.
Proof. solve_decision. Defined.

Inductive TREE_ELEMENT (K : Type) :=
  | null_element
  | Node (left : TREE_ELEMENT K) (key : K) (count : Z) (colour : tree_colour) (right : TREE_ELEMENT K).
Arguments null_element {K}.
Arguments Node {K}.

Inductive side := Left | Right.

(** A step of the path: the element, and the child the path does not take. *)
Record frame (K : Type) := mk_frame {
  f_side : side;
  f_key : K;
  f_count : Z;
  f_colour : tree_colour;
  f_sibling : TREE_ELEMENT K
}.
Arguments mk_frame {K}.
Arguments f_side {K}.
Arguments f_key {K}.
Arguments f_count {K}.
Arguments f_colour {K}.
Arguments f_sibling {K}.

Definition TREE_NO_DUPS : Z := 1.
Definition TREE_ONLY_DUPS : Z := 2.
Definition MAX_TREE_HEIGHT : Z := 64.
Definition sizeof_TREE_ELEMENT : Z := 24.

(** The calls of the function that frees keys. *)
Inductive free_call (K : Type) := free_init | free_free (k : K) | free_end.
Arguments free_init {K}.
Arguments free_free {K}.
Arguments free_end {K}.

Record TREE (K : Type) := mk_tree {
  root : TREE_ELEMENT K;
  elements_in_tree : Z;
  size_of_element : Z;
  memory_limit : Z;
  allocated : Z;
  with_delete : bool;
  has_free : bool;
  flag : Z
}.
Arguments mk_tree {K}.
Arguments root {K}.
Arguments elements_in_tree {K}.
Arguments size_of_element {K}.
Arguments memory_limit {K}.
Arguments allocated {K}.
Arguments with_delete {K}.
Arguments has_free {K}.
Arguments flag {K}.

Section Tree.
Context {K : Type} (compare : K -> K -> Z).
Implicit Types (t : TREE_ELEMENT K) (path : list (frame K)) (tree : TREE K) (k : K).

(** ** Elements and paths *)

Definition colour_of t : tree_colour := match t with null_element => BLACK | Node _ _ _ c _ => c end.

Definition set_colour t (c : tree_colour) : TREE_ELEMENT K :=
  match t with null_element => null_element | Node l k n _ r => Node l k n c r end.

Definition is_null t : bool := match t with null_element => true | _ => false end.

(** The element of a frame with the child put back. *)
Definition plug1 (f : frame K) t : TREE_ELEMENT K :=
  match f_side f with
  | Left => Node t (f_key f) (f_count f) (f_colour f) (f_sibling f)
  | Right => Node (f_sibling f) (f_key f) (f_count f) (f_colour f) t
  end.

Definition plug t path : TREE_ELEMENT K := fold_left (fun t f => plug1 f t) path t.

(** ** Searching *)

(** The loop at the start of [tree_insert] and [tree_delete]. *)
Fixpoint tree_find k t path : TREE_ELEMENT K * list (frame K) :=
  match t with
  | null_element => (t, path)
  | Node l k' n c r =>
      let cmp := compare k' k in
      if cmp =? 0 then (t, path)
      else if cmp <? 0 then tree_find k r (mk_frame Right k' n c l :: path)
      else tree_find k l (mk_frame Left k' n c r :: path)
  end.

Fixpoint tree_search_loop k t : option K :=
  match t with
  | null_element => None
  | Node l k' _ _ r =>
      let cmp := compare k' k in
      if cmp =? 0 then Some k'
      else if cmp <? 0 then tree_search_loop k r else tree_search_loop k l
  end.

Definition tree_search tree k : option K := tree_search_loop k (root tree).

(** ** Rotations *)

Definition left_rotate t : option (TREE_ELEMENT K) :=
  match t with
  | Node l k n c (Node yl yk yn yc yr) => Some (Node (Node l k n c yl) yk yn yc yr)
  | _ => None
  end.

Definition right_rotate t : option (TREE_ELEMENT K) :=
  match t with
  | Node (Node xl xk xn xc xr) k n c r => Some (Node xl xk xn xc (Node xr k n c r))
  | _ => None
  end.

(** ** Balancing after an insert *)

Definition recolour (f : frame K) (c : tree_colour) : frame K :=
  mk_frame (f_side f) (f_key f) (f_count f) c (f_sibling f).
Definition set_sibling (f : frame K) t : frame K :=
  mk_frame (f_side f) (f_key f) (f_count f) (f_colour f) t.

(** [par] is the parent of [leaf] and red, [par2] the parent of [par]; its
    other child is black. *)
Definition insert_rotate leaf (par par2 : frame K) : option (TREE_ELEMENT K) :=
  let p := plug1 par leaf in
  match f_side par2 with
  | Left =>
      p ← (match f_side par with Right => left_rotate p | Left => Some p end);
      right_rotate (plug1 (recolour par2 RED) (set_colour p BLACK))
  | Right =>
      p ← (match f_side par with Left => right_rotate p | Right => Some p end);
      left_rotate (plug1 (recolour par2 RED) (set_colour p BLACK))
  end.

Fixpoint rb_insert_loop leaf path : option (TREE_ELEMENT K) :=
  match path with
  | [] => Some leaf
  | par :: path1 =>
      if bool_decide (f_colour par = RED) then
        match path1 with
        | [] => None
        | par2 :: path2 =>
            let y := f_sibling par2 in
            if bool_decide (colour_of y = RED) then
              let p := set_colour (plug1 par leaf) BLACK in
              let y := set_colour y BLACK in
              rb_insert_loop (plug1 (recolour (set_sibling par2 y) RED) p) path2
            else
              p ← insert_rotate leaf par par2;
              Some (plug p path2)
        end
      else Some (plug leaf path)
  end.

Definition rb_insert leaf path : option (TREE_ELEMENT K) :=
  t ← rb_insert_loop (set_colour leaf RED) path; Some (set_colour t BLACK).

(** ** Balancing after a delete *)

(** [x == par->left]: the null element is one object for all links. *)
Definition at_left t (par : frame K) : bool :=
  match f_side par with
  | Left => true
  | Right => is_null t && is_null (f_sibling par)
  end.

Definition child_left t : option (TREE_ELEMENT K) :=
  match t with null_element => None | Node l _ _ _ _ => Some l end.
Definition child_right t : option (TREE_ELEMENT K) :=
  match t with null_element => None | Node _ _ _ _ r => Some r end.

(** [w] is the sibling of [x], black, with a red child: the end of the loop
    gives the subtree of [par].  [at_left] is the side of [x]. *)
Definition fixup_rotate (at_left : bool) x (par : frame K) w : option (TREE_ELEMENT K) :=
  match w with
  | null_element => None
  | Node wl wk wn wc wr =>
      if at_left then
        w ← (if bool_decide (colour_of wr = BLACK)
             then right_rotate (Node (set_colour wl BLACK) wk wn RED wr) else Some w);
        wr ← child_right w;
        wl ← child_left w;
        match w with
        | null_element => None
        | Node _ wk wn _ _ =>
            left_rotate (Node x (f_key par) (f_count par) BLACK
                           (Node wl wk wn (f_colour par) (set_colour wr BLACK)))
        end
      else
        w ← (if bool_decide (colour_of wl = BLACK)
             then left_rotate (Node wl wk wn RED (set_colour wr BLACK)) else Some w);
        wr ← child_right w;
        wl ← child_left w;
        match w with
        | null_element => None
        | Node _ wk wn _ _ =>
            right_rotate (Node (Node (set_colour wl BLACK) wk wn (f_colour par) wr)
                            (f_key par) (f_count par) BLACK x)
        end
  end.

(** A red sibling [w] is rotated above [par]: the frames of both, [par]'s
    first. *)
Definition fixup_red (at_left : bool) (par : frame K) : option (frame K * frame K) :=
  match f_sibling par with
  | null_element => None
  | Node wl wk wn _ wr =>
      Some (if at_left
            then (mk_frame Left (f_key par) (f_count par) RED wl, mk_frame Left wk wn BLACK wr)
            else (mk_frame Right (f_key par) (f_count par) RED wr, mk_frame Right wk wn BLACK wl))
  end.

(** [None] also when the fuel ends. *)
Fixpoint rb_fixup_loop (fuel : nat) x path : option (TREE_ELEMENT K) :=
  match fuel with
  | O => None
  | S fuel =>
      match path with
      | [] => Some (set_colour x BLACK)
      | par :: path =>
          if bool_decide (colour_of x = RED) then Some (plug (set_colour x BLACK) (par :: path))
          else
            let al := at_left x par in
            '(par, path) ← (if bool_decide (colour_of (f_sibling par) = RED)
                            then '(par, wf) ← fixup_red al par; Some (par, wf :: path)
                            else Some (par, path));
            let w := f_sibling par in
            wl ← child_left w;
            wr ← child_right w;
            if bool_decide (colour_of wl = BLACK) && bool_decide (colour_of wr = BLACK) then
              rb_fixup_loop fuel (plug1 (set_sibling par (set_colour w RED)) x) path
            else
              p ← fixup_rotate al x par w;
              Some (set_colour (plug p path) BLACK)
      end
  end.

Definition rb_delete_fixup x path : option (TREE_ELEMENT K) := rb_fixup_loop (2 * length path + 1) x path.

(** ** The operations *)

Fixpoint delete_tree_element t : list (free_call K) :=
  match t with
  | null_element => []
  | Node l k _ _ r => delete_tree_element l ++ free_free k :: delete_tree_element r
  end.

Definition init_tree (size memory_limit : Z) (free_element with_delete : bool) : TREE K :=
  let in_element := negb free_element && (size >=? 0) && ((size <=? 8) || negb (Z.land size 7 =? 0)) in
  mk_tree null_element 0 (Z.max size 0 + (if in_element then 0 else 8)) memory_limit 0 with_delete
    free_element 0.

Definition free_tree tree : TREE K * list (free_call K) :=
  (mk_tree null_element 0 (size_of_element tree) (memory_limit tree) 0 (with_delete tree) (has_free tree)
     (flag tree),
   if has_free tree then
     if with_delete tree || (memory_limit tree =? 0) then delete_tree_element (root tree)
     else free_init :: delete_tree_element (root tree) ++ [free_end]
   else []).

Definition reset_tree := free_tree.
Definition delete_tree := free_tree.

(** [count] is 31 bits wide and stops at its largest value. *)
Definition bump_count (n : Z) : Z := if (n + 1) mod 2 ^ 31 =? 0 then 2 ^ 31 - 1 else (n + 1) mod 2 ^ 31.

Inductive insert_result := INSERT_NULL | INSERT_UNIQUE | INSERTED.

#[export] Instance insert_result_eq_dec : EqDecision insert_result.
Proof. solve_decision. Defined.

Definition set_root tree t (elements : Z) : TREE K :=
  mk_tree t elements (size_of_element tree) (memory_limit tree) (allocated tree) (with_delete tree)
    (has_free tree) (flag tree).
Definition set_allocated tree (a : Z) : TREE K :=
  mk_tree (root tree) (elements_in_tree tree) (size_of_element tree) (memory_limit tree) a
    (with_delete tree) (has_free tree) (flag tree).

(** [alloc_ok]: the allocation of the element succeeds.  The call that follows
    [reset_tree] is the second level of [fuel]. *)
Fixpoint tree_insert_rec (fuel : nat) (alloc_ok : bool) tree k (key_size : Z)
  : option (insert_result * TREE K * list (free_call K)) :=
  match fuel with
  | O => None
  | S fuel =>
      match tree_find k (root tree) [] with
      | (null_element, path) =>
          if negb (Z.land (flag tree) TREE_ONLY_DUPS =? 0) then Some (INSERT_UNIQUE, tree, [])
          else
            let alloc_size := u32 (sizeof_TREE_ELEMENT + key_size + size_of_element tree) in
            let tree := set_allocated tree (u64 (allocated tree + alloc_size)) in
            if negb (memory_limit tree =? 0) && negb (elements_in_tree tree =? 0) &&
               (allocated tree >? memory_limit tree)
            then
              let '(tree, freed) := reset_tree tree in
              '(res, tree, freed') ← tree_insert_rec fuel alloc_ok tree k key_size;
              Some (res, tree, freed ++ freed')
            else if negb alloc_ok then Some (INSERT_NULL, tree, [])
            else
              t ← rb_insert (Node null_element k 1 RED null_element) path;
              Some (INSERTED, set_root tree t (u32 (elements_in_tree tree + 1)), [])
      | (Node l k' n c r, path) =>
          if negb (Z.land (flag tree) TREE_NO_DUPS =? 0) then Some (INSERT_NULL, tree, [])
          else Some (INSERTED, set_root tree (plug (Node l k' (bump_count n) c r) path)
                                 (elements_in_tree tree), [])
      end
  end.

Definition tree_insert := tree_insert_rec 2.

(** The walk to the least element [nod] of the right child; the path in the
    tree where [nod] is in the place of the deleted element ends in [path]. *)
Fixpoint least (l : TREE_ELEMENT K) (k : K) (n : Z) (c : tree_colour) (r : TREE_ELEMENT K) path
  : K * Z * tree_colour * TREE_ELEMENT K * list (frame K) :=
  match l with
  | null_element => (k, n, c, r, path)
  | Node l' k' n' c' r' => least l' k' n' c' r' (mk_frame Left k n c r :: path)
  end.

(** The element is unlinked: the tree under the link it is taken from, the path
    of this link and the colour that was removed. *)
Definition unlink_element l (c : tree_colour) r path
  : TREE_ELEMENT K * list (frame K) * tree_colour :=
  match l, r with
  | null_element, _ => (r, path, c)
  | _, null_element => (l, path, c)
  | _, Node rl rk rn rc rr =>
      let '(nk, nn, nc, nr, inner) := least rl rk rn rc rr [] in
      (nr, inner ++ mk_frame Right nk nn c l :: path, nc)
  end.

Definition tree_delete tree k (key_size : Z) : option (Z * TREE K * list (free_call K)) :=
  if negb (with_delete tree) then Some (1, tree, [])
  else
    match tree_find k (root tree) [] with
    | (null_element, _) => Some (1, tree, [])
    | (Node l k' n c r, path) =>
        let '(x, path, remove_colour) := unlink_element l c r path in
        t ← (if bool_decide (remove_colour = BLACK) then rb_delete_fixup x path else Some (plug x path));
        Some (0,
          set_allocated (set_root tree t (u32 (elements_in_tree tree - 1)))
            (u64 (allocated tree - (sizeof_TREE_ELEMENT + size_of_element tree + key_size))),
          if has_free tree then [free_free k'] else [])
    end.

(** ** Walking *)

Section Walk.
Context {S : Type} (action : K -> Z -> S -> Z * S).

Fixpoint tree_walk_left_root_right t (s : S) : Z * S :=
  match t with
  | null_element => (0, s)
  | Node l k n _ r =>
      let '(error, s) := tree_walk_left_root_right l s in
      if error =? 0 then
        let '(error, s) := action k n s in
        if error =? 0 then tree_walk_left_root_right r s else (error, s)
      else (error, s)
  end.

Fixpoint tree_walk_right_root_left t (s : S) : Z * S :=
  match t with
  | null_element => (0, s)
  | Node l k n _ r =>
      let '(error, s) := tree_walk_right_root_left r s in
      if error =? 0 then
        let '(error, s) := action k n s in
        if error =? 0 then tree_walk_right_root_left l s else (error, s)
      else (error, s)
  end.

Inductive TREE_WALK := left_root_right | right_root_left.

Definition tree_walk tree (visit : TREE_WALK) (s : S) : Z * S :=
  match visit with
  | left_root_right => tree_walk_left_root_right (root tree) s
  | right_root_left => tree_walk_right_root_left (root tree) s
  end.

End Walk.

(** ** Positions

    [parents] and [last_pos] of the functions below: the element and the path
    to it. *)
Definition position : Type := TREE_ELEMENT K * list (frame K).

Definition pos_key (p : position) : option K := match fst p with Node _ k _ _ _ => Some k | null_element => None end.

Inductive ha_rkey_function :=
  | HA_READ_KEY_EXACT | HA_READ_KEY_OR_NEXT | HA_READ_KEY_OR_PREV | HA_READ_AFTER_KEY
  | HA_READ_BEFORE_KEY | HA_READ_PREFIX | HA_READ_PREFIX_LAST | HA_READ_PREFIX_LAST_OR_PREV
  | HA_READ_MBR_CONTAIN | HA_READ_MBR_INTERSECT | HA_READ_MBR_WITHIN | HA_READ_MBR_DISJOINT
  | HA_READ_MBR_EQUAL.

(** What an equal element counts as: whether it is remembered, and the step. *)
Definition on_equal (flag : ha_rkey_function) : option (bool * Z) :=
  match flag with
  | HA_READ_KEY_EXACT | HA_READ_KEY_OR_NEXT | HA_READ_BEFORE_KEY | HA_READ_KEY_OR_PREV => Some (true, 1)
  | HA_READ_AFTER_KEY => Some (false, -1)
  | HA_READ_PREFIX_LAST | HA_READ_PREFIX_LAST_OR_PREV => Some (true, -1)
  | _ => None
  end.

(** [cmp] is the comparison of the keys with the key searched.  [eql], [lft] and
    [rgt] are [last_equal_element], [last_left_step_parent] and
    [last_right_step_parent]; [None]: the flag is not supported. *)
Fixpoint search_key_loop (cmp : K -> Z) (flag : ha_rkey_function) t path (eql lft rgt : option position)
  : option (option position * option position * option position) :=
  match t with
  | null_element => Some (eql, lft, rgt)
  | Node l k n c r =>
      let go (eql : option position) (step : Z) :=
        if step <? 0
        then search_key_loop cmp flag r (mk_frame Right k n c l :: path) eql lft (Some (t, path))
        else search_key_loop cmp flag l (mk_frame Left k n c r :: path) eql (Some (t, path)) rgt in
      if cmp k =? 0 then
        match on_equal flag with
        | Some (keep, step) => go (if keep : bool then Some (t, path) else eql) step
        | None => None
        end
      else go eql (cmp k)
  end.

Definition or_else (a b : option position) : option position := match a with Some _ => a | None => b end.

Definition tree_search_key (cmp : K -> Z) tree (flag : ha_rkey_function) : option position :=
  match search_key_loop cmp flag (root tree) [] None None None with
  | None => None
  | Some (eql, lft, rgt) =>
      match flag with
      | HA_READ_KEY_EXACT | HA_READ_PREFIX_LAST => eql
      | HA_READ_KEY_OR_NEXT => or_else eql lft
      | HA_READ_AFTER_KEY => lft
      | HA_READ_PREFIX_LAST_OR_PREV => or_else eql rgt
      | HA_READ_BEFORE_KEY => rgt
      | HA_READ_KEY_OR_PREV => or_else eql rgt
      | _ => None
      end
  end.

(** The child at an offset, and the frame of the step to it. *)
Definition child (s : side) t : TREE_ELEMENT K :=
  match t, s with
  | Node l _ _ _ _, Left => l
  | Node _ _ _ _ r, Right => r
  | null_element, _ => null_element
  end.

Definition opposite (s : side) : side := match s with Left => Right | Right => Left end.

(** Down the links [s] from a child to the last element. *)
Fixpoint edge_left t path : position :=
  match t with
  | Node (Node _ _ _ _ _ as l) k n c r => edge_left l (mk_frame Left k n c r :: path)
  | _ => (t, path)
  end.
Fixpoint edge_right t path : position :=
  match t with
  | Node l k n c (Node _ _ _ _ _ as r) => edge_right r (mk_frame Right k n c l :: path)
  | _ => (t, path)
  end.
Definition edge (s : side) : TREE_ELEMENT K -> list (frame K) -> position :=
  match s with Left => edge_left | Right => edge_right end.

Definition tree_search_edge tree (s : side) : option position :=
  match root tree with null_element => None | _ => Some (edge s (root tree) []) end.

(** Up while the element is the child at [r_offs] of its parent. *)
Fixpoint climb (r_offs : side) x path : option position :=
  match path with
  | [] => None
  | f :: path =>
      match f_side f, r_offs with
      | Left, Left | Right, Right => climb r_offs (plug1 f x) path
      | _, _ => Some (plug1 f x, path)
      end
  end.

(** [r_offs] is the side the search goes to, [l_offs] the opposite. *)
Definition tree_search_next (r_offs : side) (p : position) : option position :=
  match p with
  | (null_element, _) => None
  | (Node l k n c r as x, path) =>
      match child r_offs x with
      | null_element => climb r_offs x path
      | y => Some (edge (opposite r_offs) y
               (mk_frame r_offs k n c (child (opposite r_offs) x) :: path))
      end
  end.

(** ** The check of the debug build *)

Fixpoint test_rb_tree t : Z :=
  match t with
  | null_element => 0
  | Node l _ _ c r =>
      if bool_decide (c = RED) && (bool_decide (colour_of l = RED) || bool_decide (colour_of r = RED)) then -1
      else
        let count_l := test_rb_tree l in
        let count_r := test_rb_tree r in
        if (count_l >=? 0) && (count_r >=? 0) && (count_l =? count_r)
        then count_l + (if bool_decide (c = BLACK) then 1 else 0) else -1
  end.

End Tree.
