(* ===== verification/RbTreeInv.v ===== *)
(** * Red-black trees: order and balance

    Inserting and deleting keep the tree sorted, red-black and of the height
    that [MAX_TREE_HEIGHT] allows, and change the elements as they should. *)
From Stdlib Require Import ZArith Lia List Bool.
From stdpp Require Import base tactics list sorting.
From S2P Require Import Prelude RbTree.

Open Scope Z_scope.

(** What the tree relies on of its comparison function: a total order up to
    equality of keys. *)
Class TreeOrder {K : Type} (compare : K -> K -> Z) : Prop := {
  compare_antisym a b : compare a b < 0 <-> compare b a > 0;
  compare_trans a b c : compare a b < 0 -> compare b c < 0 -> compare a c < 0;
  compare_equal a b c : compare a b = 0 -> (compare a c < 0 <-> compare b c < 0)
}.

(** ** The elements in order *)

Section Elements.
Context {K : Type}.
Implicit Types (t : TREE_ELEMENT K) (path : list (frame K)).

Fixpoint elements t : list (K * Z) :=
  match t with
  | null_element => []
  | Node l k n _ r => elements l ++ (k, n) :: elements r
  end.

(** The elements before and after the hole of a path. *)
Fixpoint before path : list (K * Z) :=
  match path with
  | [] => []
  | f :: path =>
      before path ++
      match f_side f with Right => elements (f_sibling f) ++ [(f_key f, f_count f)] | Left => [] end
  end.
Fixpoint after path : list (K * Z) :=
  match path with
  | [] => []
  | f :: path =>
      match f_side f with Left => (f_key f, f_count f) :: elements (f_sibling f) | Right => [] end ++ after path
  end.

Lemma elements_plug path t : elements (plug t path) = before path ++ elements t ++ after path.
Proof.
  revert t. induction path as [|[[] k n c s] path IH]; intros t; cbn; [by rewrite app_nil_r|..];
    unfold plug in IH; rewrite IH; cbn; by rewrite ?app_nil_r, <- ?app_assoc.
Qed.

Lemma elements_set_colour t c : elements (set_colour t c) = elements t.
Proof. by destruct t. Qed.

Lemma before_app p q : before (p ++ q) = before q ++ before p.
Proof. induction p as [|f p IH]; cbn; [by rewrite app_nil_r|]. by rewrite IH, app_assoc. Qed.
Lemma after_app p q : after (p ++ q) = after p ++ after q.
Proof. induction p as [|f p IH]; cbn; [done|]. by rewrite IH, app_assoc. Qed.

(** ** Balance *)

(** [n] black elements on every way down, no red element below a red one. *)
Fixpoint rb (n : nat) t : Prop :=
  match t with
  | null_element => n = O
  | Node l _ _ RED r => colour_of l = BLACK /\ colour_of r = BLACK /\ rb n l /\ rb n r
  | Node l _ _ BLACK r => match n with O => False | S m => rb m l /\ rb m r end
  end.

Definition valid t : Prop := colour_of t = BLACK /\ exists n, rb n t.

(** A red element may hang here. *)
Definition red_ok path : Prop := match path with [] => False | f :: _ => f_colour f = BLACK end.

(** A tree of black height [n] fits the hole. *)
Fixpoint rb_path (n : nat) path : Prop :=
  match path with
  | [] => True
  | f :: path =>
      rb n (f_sibling f) /\
      match f_colour f with
      | RED => colour_of (f_sibling f) = BLACK /\ red_ok path /\ rb_path n path
      | BLACK => rb_path (S n) path
      end
  end.

Definition fits (n : nat) t path : Prop := rb n t /\ rb_path n path /\ (colour_of t = RED -> red_ok path).

Lemma fits_valid n t path : fits n t path -> valid (plug t path).
Proof.
  revert n t. induction path as [|[s k c col sib] path IH]; intros n t (H1 & H2 & H3).
  - split; [|by exists n]. cbn in *. destruct (colour_of t); [by destruct (H3 eq_refl)|done].
  - cbn in *. destruct H2 as [Hs H2]. destruct col.
    + destruct H2 as (Hb & Hr & Hp). apply (IH n). split; [|split; [done|done]].
      assert (Ht : colour_of t = BLACK) by (destruct (colour_of t); [by discriminate (H3 eq_refl)|done]).
      by destruct s.
    + apply (IH (S n)). split; [by destruct s|]. split; [done|]. by destruct s.
Qed.

Lemma fits_down n l k c col r path :
  fits n (Node l k c col r) path ->
  exists m, fits m l (mk_frame Left k c col r :: path) /\ fits m r (mk_frame Right k c col l :: path).
Proof.
  intros (H1 & H2 & H3). destruct col.
  - cbn in H1. destruct H1 as (Hl & Hr & H1l & H1r). exists n. specialize (H3 eq_refl).
    split; (split; [done|]); split; cbn; try done; intros E; congruence.
  - cbn in H1. destruct n as [|n]; [done|]. destruct H1 as [H1l H1r]. exists n. by split.
Qed.

Lemma valid_fits t : valid t -> exists n, fits n t [].
Proof. intros [Hc [n Hn]]. exists n. split; [done|]. split; [done|]. cbn. congruence. Qed.

Lemma valid_set_black t : valid t -> set_colour t BLACK = t.
Proof. intros [Hc _]. destruct t; [done|]. cbn in *. by subst. Qed.

Lemma rb_set_black n t : rb n t -> colour_of t = RED -> rb (S n) (set_colour t BLACK).
Proof. destruct t as [|l k c [] r]; cbn; [done| |done]. tauto. Qed.

Lemma colour_cases (c : tree_colour) : c <> RED -> c = BLACK.
Proof. by destruct c. Qed.

End Elements.

Section Balance.
Context {K : Type}.
Implicit Types (t x leaf : TREE_ELEMENT K) (path : list (frame K)).

Ltac elements_eq := cbn; rewrite <- ?app_assoc; cbn; rewrite <- ?app_assoc; try done.

Lemma insert_rotate_spec n leaf (par par2 : frame K) :
  rb n leaf -> colour_of leaf = RED -> f_colour par = RED -> f_colour par2 = BLACK ->
  rb n (f_sibling par) -> colour_of (f_sibling par) = BLACK ->
  rb n (f_sibling par2) -> colour_of (f_sibling par2) = BLACK ->
  exists t, insert_rotate leaf par par2 = Some t /\ rb (S n) t /\ colour_of t = BLACK /\
    elements t = elements (plug1 par2 (plug1 par leaf)).
Proof.
  destruct leaf as [|ll lk lc [] lr]; cbn; try done. intros (L1 & L2 & L3 & L4) _ E1 E2 S1 S2 S3 S4.
  destruct par as [[] k1 n1 c1 s1], par2 as [[] k2 n2 c2 s2]; cbn in *; subst; unfold insert_rotate; cbn;
    (eexists; split; [reflexivity|]); cbn; (split; [by split_and!|]); (split; [done|]); elements_eq.
Qed.

(** The loop of [rb_insert]: [leaf] is red and may be below a red parent. *)
Lemma rb_insert_loop_spec m n leaf path :
  (length path <= m)%nat -> rb n leaf -> colour_of leaf = RED -> rb_path n path ->
  exists t, rb_insert_loop leaf path = Some t /\ valid (set_colour t BLACK) /\
    elements t = before path ++ elements leaf ++ after path.
Proof.
  revert n leaf path. induction m as [m IH] using lt_wf_ind. intros n leaf path Hm Hl Hc Hp.
  destruct path as [|par path].
  { exists leaf. split; [done|]. split; [|cbn; by rewrite app_nil_r].
    split; [by destruct leaf|]. exists (S n). by apply rb_set_black. }
  cbn [rb_insert_loop]. case_bool_decide as Ep.
  - cbn in Hp. rewrite Ep in Hp. destruct Hp as (S1 & S2 & Hr & Hp).
    destruct path as [|par2 path]; [done|]. cbn in Hr, Hp. rewrite Hr in Hp. destruct Hp as [S3 Hp].
    case_bool_decide as Ey.
    + set (leaf' := plug1 _ _).
      assert (Hl' : rb (S n) leaf' /\ colour_of leaf' = RED).
      { unfold leaf'. destruct par as [s1 k1 n1 c1 t1], par2 as [s2 k2 n2 c2 t2]. cbn in *. subst.
        pose proof (rb_set_black n t2 S3 Ey). destruct t2 as [|]; [done|].
        destruct s1, s2; cbn in *; tauto. }
      destruct Hl' as [Hl1 Hl2].
      destruct (IH (length path)) with (n := S n) (leaf := leaf') (path := path) as (t & E & Hv & He); try done.
      { cbn in Hm. lia. }
      exists t. split; [done|]. split; [done|]. rewrite He. unfold leaf'.
      destruct par as [[] k1 n1 c1 t1], par2 as [[] k2 n2 c2 t2]; cbn; rewrite elements_set_colour; elements_eq.
    + destruct (insert_rotate_spec n leaf par par2) as (t & -> & Ht & Hb & He); try done; [by apply colour_cases|].
      exists (plug t path). split; [done|].
      assert (Hf : fits (S n) t path) by (split; [done|]; split; [done|]; congruence).
      pose proof (fits_valid _ _ _ Hf) as Hv. split; [by rewrite (valid_set_black _ Hv)|].
      rewrite elements_plug, He. destruct par as [[] k1 n1 c1 t1], par2 as [[] k2 n2 c2 t2]; elements_eq.
  - exists (plug leaf (par :: path)). split; [done|].
    assert (Hf : fits n leaf (par :: path)) by (split; [done|]; split; [done|]; intros _; by apply colour_cases).
    pose proof (fits_valid _ _ _ Hf) as Hv. split; [by rewrite (valid_set_black _ Hv)|]. apply elements_plug.
Qed.

Lemma rb_insert_spec k path :
  rb_path 0 path ->
  exists t, rb_insert (Node null_element k 1 RED null_element) path = Some t /\ valid t /\
    elements t = before path ++ (k, 1) :: after path.
Proof.
  intros Hp. unfold rb_insert. cbn [set_colour].
  destruct (rb_insert_loop_spec (length path) 0 (Node null_element k 1 RED null_element) path)
    as (t & -> & Hv & He); [done..|].
  exists (set_colour t BLACK). split; [done|]. split; [done|]. by rewrite elements_set_colour, He.
Qed.

(** ** After a delete *)

Lemma fixup_rotate_spec n al x (par : frame K) w :
  rb n x -> colour_of x = BLACK -> rb (S n) w -> colour_of w = BLACK ->
  (forall wl wr, child_left w = Some wl -> child_right w = Some wr -> colour_of wl = RED \/ colour_of wr = RED) ->
  exists t, fixup_rotate al x par w = Some t /\
    rb (match f_colour par with RED => S n | BLACK => S (S n) end) t /\ colour_of t = f_colour par /\
    elements t = if al then elements x ++ (f_key par, f_count par) :: elements w
                 else elements w ++ (f_key par, f_count par) :: elements x.
Proof.
  intros Hx Hxc Hw Hwc Hred. destruct w as [|wl wk wn wc wr]; [done|]. cbn in Hwc. subst wc.
  cbn in Hw. destruct Hw as [Hwl Hwr]. specialize (Hred wl wr eq_refl eq_refl).
  destruct par as [s pk pn pc ps]. unfold fixup_rotate. cbn [f_colour f_key f_count]. destruct al.
  - case_bool_decide as Er.
    + destruct Hred as [Hl|]; [|congruence]. destruct wl as [|ll lk ln lc lr]; [done|]. cbn in Hl. subst lc.
      cbn in Hwl. destruct Hwl as (? & ? & ? & ?). cbn. eexists. split; [done|].
      destruct pc; cbn; split_and!; try done; elements_eq.
    + destruct wr as [|rl rk rn rc rr]; [done|]. cbn in Er. destruct rc; [|done].
      cbn in Hwr. destruct Hwr as (? & ? & ? & ?). cbn. eexists. split; [done|].
      destruct pc; cbn; split_and!; try done; elements_eq.
  - case_bool_decide as El.
    + destruct Hred as [|Hr]; [congruence|]. destruct wr as [|rl rk rn rc rr]; [done|]. cbn in Hr. subst rc.
      cbn in Hwr. destruct Hwr as (? & ? & ? & ?). cbn. eexists. split; [done|].
      destruct pc; cbn; split_and!; try done; elements_eq.
    + destruct wl as [|ll lk ln lc lr]; [done|]. cbn in El. destruct lc; [|done].
      cbn in Hwl. destruct Hwl as (? & ? & ? & ?). cbn. eexists. split; [done|].
      destruct pc; cbn; split_and!; try done; elements_eq.
Qed.

(** The turns the loop may take. *)
Definition fixup_need x path : nat :=
  match colour_of x, path with
  | RED, _ | _, [] => 1
  | BLACK, _ => length path + 2
  end.

(** [x] is one black element short of the hole; a red one may be above a red
    one. *)
Definition short (n : nat) x : Prop :=
  match colour_of x with RED => rb (S n) (set_colour x BLACK) | BLACK => rb n x end.

(** The turn with a black sibling. *)
Definition fixup_turn (loop : TREE_ELEMENT K -> list (frame K) -> option (TREE_ELEMENT K))
    (al : bool) x (par : frame K) path : option (TREE_ELEMENT K) :=
  let w := f_sibling par in
  wl ← child_left w;
  wr ← child_right w;
  if bool_decide (colour_of wl = BLACK) && bool_decide (colour_of wr = BLACK) then
    loop (plug1 (set_sibling par (set_colour w RED)) x) path
  else
    p ← fixup_rotate al x par w;
    Some (set_colour (plug p path) BLACK).

Definition is_left (s : side) : bool := match s with Left => true | Right => false end.

Lemma fixup_turn_spec loop n x (par : frame K) path :
  rb n x -> colour_of x = BLACK -> rb_path (S n) (par :: path) -> colour_of (f_sibling par) = BLACK ->
  (forall m x', short m x' -> rb_path (S m) path -> (f_colour par = RED -> colour_of x' = RED) ->
     exists t, loop x' path = Some t /\ valid t /\ elements t = before path ++ elements x' ++ after path) ->
  exists t, fixup_turn loop (is_left (f_side par)) x par path = Some t /\ valid t /\
    elements t = before (par :: path) ++ elements x ++ after (par :: path).
Proof.
  intros Hx Hxc [Hw Hp] Hwc Hloop. unfold fixup_turn. cbn zeta.
  destruct (f_sibling par) as [|wl wk wn wc wr] eqn:Es; [done|]. cbn in Hwc. subst wc.
  cbn [child_left child_right mbind option_bind].
  destruct (bool_decide (colour_of wl = BLACK) && bool_decide (colour_of wr = BLACK)) eqn:Eb.
  - apply andb_prop in Eb as [El%bool_decide_eq_true_1 Er%bool_decide_eq_true_1]. cbn in Hw. destruct Hw as [Hwl Hwr].
    destruct (Hloop (match f_colour par with RED => n | BLACK => S n end)
      (plug1 (set_sibling par (set_colour (Node wl wk wn BLACK wr) RED)) x)) as (t & E & Hv & He).
    + destruct par as [[] pk pn [] ps]; cbn in *; unfold short; cbn; by split_and!.
    + destruct (f_colour par); tauto.
    + intros Hr. destruct par as [[] pk pn pc ps]; done.
    + exists t. split; [done|]. split; [done|]. rewrite He.
      destruct par as [[] pk pn pc ps]; cbn in *; subst ps; elements_eq.
  - destruct (fixup_rotate_spec n (is_left (f_side par)) x par (Node wl wk wn BLACK wr))
      as (t & -> & Ht & Hc & He); try done.
    { intros l r [= <-] [= <-]. apply andb_false_iff in Eb as [E|E]; apply bool_decide_eq_false_1 in E;
        [left; by destruct (colour_of wl)|right; by destruct (colour_of wr)]. }
    assert (Hf : fits (match f_colour par with RED => S n | BLACK => S (S n) end) t path).
    { split; [done|]. rewrite Hc. destruct (f_colour par); [tauto|done]. }
    pose proof (fits_valid _ _ _ Hf) as Hv. exists (plug t path). split; [by cbn; rewrite (valid_set_black _ Hv)|].
    split; [done|]. rewrite elements_plug, He.
    destruct par as [[] pk pn pc ps]; cbn in *; subst ps; elements_eq.
Qed.

Lemma rb_fixup_loop_spec fuel n x path :
  (fixup_need x path <= fuel)%nat -> short n x -> rb_path (S n) path ->
  exists t, rb_fixup_loop fuel x path = Some t /\ valid t /\
    elements t = before path ++ elements x ++ after path.
Proof.
  revert n x path. induction fuel as [|fuel IH]; intros n x path Hfuel Hx Hp.
  { unfold fixup_need in Hfuel. destruct (colour_of x), path; cbn in Hfuel; lia. }
  destruct path as [|par path].
  { exists (set_colour x BLACK). split; [done|]. split; [|cbn; by rewrite elements_set_colour, app_nil_r].
    split; [by destruct x|]. unfold short in Hx. destruct (colour_of x) eqn:E; [by exists (S n)|].
    exists n. destruct x; [done|]. cbn in E. by subst. }
  cbn [rb_fixup_loop]. unfold short, fixup_need in Hx, Hfuel. case_bool_decide as Ex.
  { rewrite Ex in Hx. exists (plug (set_colour x BLACK) (par :: path)). split; [done|].
    split; [|by rewrite elements_plug, elements_set_colour].
    apply (fits_valid (S n)). split; [done|]. split; [done|]. by destruct x. }
  apply colour_cases in Ex. rewrite Ex in Hx, Hfuel. cbn [length] in Hfuel.
  assert (Hal : at_left x par = is_left (f_side par)).
  { unfold at_left. destruct (f_side par); [done|]. destruct Hp as [Hs _].
    destruct (f_sibling par); [done|]. by rewrite andb_false_r. }
  cbn zeta. rewrite Hal. case_bool_decide as Es.
  - destruct par as [s pk pn pc [|wl wk wn wc wr]]; [done|]. cbn in Es. subst wc. cbn in Hp.
    destruct Hp as [(Hl & Hr & Hwl & Hwr) Hp]. destruct pc; [by destruct Hp|].
    set (par' := mk_frame s pk pn RED (if is_left s then wl else wr)).
    set (wf := mk_frame s wk wn BLACK (if is_left s then wr else wl)).
    assert (E : fixup_red (is_left s) (mk_frame s pk pn BLACK (Node wl wk wn RED wr)) = Some (par', wf)) by (by destruct s).
    cbn [f_side]. rewrite E. cbn [mbind option_bind].
    destruct (fixup_turn_spec (rb_fixup_loop fuel) n x par' (wf :: path)) as (t & Et & Hv & He); try done.
    + by destruct s; cbn; split_and!.
    + by destruct s.
    + intros m x' Hx' Hp' Hred. apply (IH m); [|done|done]. unfold fixup_need. rewrite Hred by done. lia.
    + exists t. split; [exact Et|]. split; [done|]. rewrite He. destruct s; elements_eq.
  - apply colour_cases in Es. cbn [mbind option_bind].
    destruct (fixup_turn_spec (rb_fixup_loop fuel) n x par path) as (t & Et & Hv & He); try done.
    + intros m x' Hx' Hp' _. apply (IH m); [|done|done].
      unfold fixup_need. destruct (colour_of x'), path; cbn [length] in *; lia.
    + exists t. split; [exact Et|]. by split.
Qed.

Lemma rb_delete_fixup_spec n x path :
  rb n x -> rb_path (S n) path ->
  exists t, rb_delete_fixup x path = Some t /\ valid t /\
    elements t = before path ++ elements x ++ after path.
Proof.
  intros Hx Hp. apply (rb_fixup_loop_spec _ n); [|unfold short|done].
  - unfold fixup_need. destruct (colour_of x), path; cbn [length]; lia.
  - destruct (colour_of x) eqn:E; [by apply rb_set_black|done].
Qed.

End Balance.

(** ** Order *)

Section Order.
Context {K : Type} (compare : K -> K -> Z) `{!TreeOrder compare}.
Implicit Types (t x : TREE_ELEMENT K) (path : list (frame K)) (L A B : list (K * Z)) (k : K).

Definition sorted L : Prop := StronglySorted (fun a b => compare (fst a) (fst b) < 0) L.

(** The elements before, at and after a key. *)
Definition less k L := filter (fun e => compare (fst e) k < 0) L.
Definition equal k L := filter (fun e => compare (fst e) k = 0) L.
Definition greater k L := filter (fun e => compare (fst e) k > 0) L.

Definition all_less k L : Prop := Forall (fun e => compare (fst e) k < 0) L.
Definition all_greater k L : Prop := Forall (fun e => compare (fst e) k > 0) L.

Lemma compare_refl k : compare k k = 0.
Proof. pose proof (compare_antisym k k). lia. Qed.

Lemma sorted_middle A e B :
  sorted (A ++ e :: B) ->
  Forall (fun a => compare (fst a) (fst e) < 0) A /\ Forall (fun b => compare (fst e) (fst b) < 0) B.
Proof.
  unfold sorted. induction A as [|a A IH]; cbn; intros H; inversion_clear H as [|? ? H1 H2]; [done|].
  destruct (IH H1) as [I1 I2]. split; [|done]. constructor; [|done].
  apply Forall_app in H2 as [_ H2]. by inversion H2.
Qed.

Lemma sorted_remove A e B : sorted (A ++ e :: B) -> sorted (A ++ B).
Proof.
  unfold sorted. induction A as [|a A IH]; cbn; intros H; inversion_clear H as [|? ? H1 H2]; [done|].
  constructor; [auto|]. apply Forall_app in H2 as [H2 H3]. apply Forall_app. split; [done|]. by inversion H3.
Qed.

Lemma sorted_add A e B :
  sorted (A ++ B) -> all_less (fst e) A -> all_greater (fst e) B -> sorted (A ++ e :: B).
Proof.
  unfold sorted. induction A as [|a A IH]; cbn; intros H Ha Hb.
  - constructor; [done|]. eapply Forall_impl; [exact Hb|]. intros b Hgt. cbn in *. by apply compare_antisym.
  - inversion_clear H as [|? ? H1 H2]. inversion_clear Ha as [|? ? Ha1 Ha2]. constructor; [auto|].
    apply Forall_app in H2 as [H2 H3]. apply Forall_app. split; [done|]. by constructor.
Qed.

(** Another element with the same key. *)
Lemma sorted_same A B (k : K) (n m : Z) : sorted (A ++ (k, n) :: B) -> sorted (A ++ (k, m) :: B).
Proof.
  intros H. destruct (sorted_middle _ _ _ H) as [H1 H2]. apply sorted_remove in H.
  apply (sorted_add A (k, m) B); [done|exact H1|].
  eapply Forall_impl; [exact H2|]. intros b Hb. cbn in *. by apply compare_antisym.
Qed.

Lemma split_key k A M B :
  all_less k A -> Forall (fun e => compare (fst e) k = 0) M -> all_greater k B ->
  less k (A ++ M ++ B) = A /\ equal k (A ++ M ++ B) = M /\ greater k (A ++ M ++ B) = B.
Proof.
  intros HA HM HB. unfold all_less, all_greater, less, equal, greater in *.
  rewrite Forall_forall in HA, HM, HB. rewrite !filter_app.
  assert (E : forall (P Q : K * Z -> Prop) `{!forall e, Decision (P e)} L,
    (forall e, e ∈ L -> Q e) -> (forall e, Q e -> ~ P e) -> filter P L = []).
  { intros P Q ? L HQ HN. apply filter_none. intros e He. auto. }
  rewrite (list_filter_keep _ A) by done. rewrite (E _ _ _ M HM), (E _ _ _ B HB), (E _ _ _ A HA) by (intros; lia).
  rewrite (list_filter_keep _ M) by done. rewrite (E _ _ _ B HB), (E _ _ _ A HA), (E _ _ _ M HM) by (intros; lia).
  rewrite (list_filter_keep _ B) by done. by rewrite !app_nil_r.
Qed.

(** ** The place of a key *)

Lemma tree_find_spec k n t path :
  fits n t path -> sorted (before path ++ elements t ++ after path) ->
  all_less k (before path) -> all_greater k (after path) ->
  let '(t', path') := tree_find compare k t path in
  plug t' path' = plug t path /\ (exists m, fits m t' path') /\
  all_less k (before path') /\ all_greater k (after path') /\
  match t' with null_element => True | Node _ k' _ _ _ => compare k' k = 0 end.
Proof.
  revert n path. induction t as [|l IHl k' c col r IHr]; intros n path Hf Hs Hb Ha; cbn [tree_find].
  { split_and!; eauto. }
  destruct (fits_down _ _ _ _ _ _ _ Hf) as (m & Hfl & Hfr). cbn in Hs.
  assert (Hs' : sorted ((before path ++ elements l) ++ (k', c) :: elements r ++ after path)).
  { by rewrite <- !app_assoc in Hs |- *. }
  rewrite <- !app_assoc in Hs. cbn in Hs.
  destruct (sorted_middle _ _ _ Hs') as [M1 M2]. apply Forall_app in M1 as [_ M1], M2 as [M2 _].
  destruct (Z.eqb_spec (compare k' k) 0) as [E|E]; [split_and!; eauto|].
  destruct (Z.ltb_spec (compare k' k) 0) as [Hlt|Hge].
  - specialize (IHr m (mk_frame Right k' c col l :: path) Hfr).
    destruct (tree_find compare k r _) as [t' path']. apply IHr; cbn.
    + by rewrite <- !app_assoc.
    + unfold all_less. rewrite !Forall_app. split; [done|]. split; [|by repeat constructor].
      eapply Forall_impl; [exact M1|]. cbn. intros e He. by eapply compare_trans.
    + done.
  - specialize (IHl m (mk_frame Left k' c col r :: path) Hfl).
    destruct (tree_find compare k l _) as [t' path']. apply IHl; cbn.
    + by rewrite app_nil_r.
    + by rewrite app_nil_r.
    + unfold all_greater. constructor; [cbn; lia|]. apply Forall_app. split; [|done].
      eapply Forall_impl; [exact M2|]. cbn. intros e He. apply compare_antisym.
      eapply compare_trans; [|exact He]. apply compare_antisym. lia.
Qed.

Lemma tree_find_root k t :
  valid t -> sorted (elements t) ->
  let '(t', path) := tree_find compare k t [] in
  (exists m, fits m t' path) /\
  match t' with
  | null_element => elements t = before path ++ after path /\
      less k (elements t) = before path /\ equal k (elements t) = [] /\ greater k (elements t) = after path
  | Node l k' n _ r => elements t = (before path ++ elements l) ++ (k', n) :: elements r ++ after path /\
      less k (elements t) = before path ++ elements l /\ equal k (elements t) = [(k', n)] /\
      greater k (elements t) = elements r ++ after path
  end.
Proof.
  intros Hv Hs. destruct (valid_fits t Hv) as [n Hf].
  pose proof (tree_find_spec k n t [] Hf) as H. destruct (tree_find compare k t []) as [t' path].
  destruct H as (Hp & Hm & Hb & Ha & Hk); [cbn; by rewrite app_nil_r|constructor..|].
  split; [done|]. assert (He : elements t = before path ++ elements t' ++ after path).
  { rewrite <- elements_plug, Hp. done. }
  destruct t' as [|l k' c col r].
  - cbn in He. rewrite He. split; [done|]. apply (split_key k (before path) [] (after path)); done.
  - assert (He' : elements t = (before path ++ elements l) ++ [(k', c)] ++ elements r ++ after path).
    { rewrite He. cbn. by rewrite <- !app_assoc. }
    rewrite He'. split; [done|]. rewrite He' in Hs. destruct (sorted_middle _ _ _ Hs) as [M1 M2].
    assert (Hk0 : compare k k' = 0) by (pose proof (compare_antisym k k'); pose proof (compare_antisym k' k); lia).
    apply split_key; [|by repeat constructor|].
    + eapply Forall_impl; [exact M1|]. cbn. intros e He1.
      apply compare_antisym. apply compare_antisym in He1.
      pose proof (compare_antisym (fst e) k). pose proof (compare_antisym (fst e) k').
      destruct (Z.lt_trichotomy (compare k (fst e)) 0) as [Hc|[Hc|Hc]].
      * exfalso. apply (compare_equal k k' (fst e) Hk0) in Hc. lia.
      * exfalso. pose proof (compare_equal k (fst e) k' Hc). pose proof (compare_antisym k k').
        pose proof (compare_antisym k' k). lia.
      * lia.
    + eapply Forall_impl; [exact M2|]. cbn. intros e He1. apply compare_antisym.
      by apply (compare_equal k k' (fst e) Hk0).
Qed.

End Order.

(** ** Deleting and the operations on trees *)

Section Operations.
Context {K : Type} (compare : K -> K -> Z) `{!TreeOrder compare}.
Implicit Types (t x : TREE_ELEMENT K) (path : list (frame K)) (tree : TREE K) (k : K).

(** What is left under the link of a deleted element. *)
Definition left_over (c : tree_colour) x path : Prop :=
  match c with
  | RED => exists n, fits n x path
  | BLACK => exists n, rb n x /\ rb_path (S n) path
  end.

Lemma take_out m l k n c r path :
  fits m (Node l k n c r) path ->
  left_over c r path /\ left_over c l path.
Proof.
  intros (H1 & H2 & H3). destruct c; cbn in H1.
  - destruct H1 as (Hl & Hr & Hl' & Hr').
    split; exists m; (split; [done|]); (split; [done|]); congruence.
  - destruct m as [|m]; [done|]. destruct H1 as [Hl Hr]. split; exists m; done.
Qed.

Lemma least_spec l k n c r inner :
  let '(nk, nn, nc, nr, inner') := least l k n c r inner in
  (nk, nn) :: elements nr ++ after inner' = elements (Node l k n c r) ++ after inner /\
  before inner' = before inner /\
  forall m path, fits m (Node l k n c r) (inner ++ path) ->
    exists m', fits m' (Node null_element nk nn nc nr) (inner' ++ path).
Proof.
  revert k n c r inner. induction l as [|l1 IH1 k1 n1 c1 l2 _]; intros k n c r inner; cbn [least].
  { split; [done|]. split; [done|]. eauto. }
  specialize (IH1 k1 n1 c1 l2 (mk_frame Left k n c r :: inner)).
  destruct (least l1 k1 n1 c1 l2 _) as [[[[nk nn] nc] nr] inner']. destruct IH1 as (E1 & E2 & Hf).
  split; [rewrite E1; cbn; by rewrite <- !app_assoc|]. split; [rewrite E2; cbn; by rewrite app_nil_r|].
  intros m path H. destruct (fits_down _ _ _ _ _ _ _ H) as (m' & Hl & _). by apply (Hf m').
Qed.

Lemma unlink_element_spec m l k n c r path :
  fits m (Node l k n c r) path ->
  let '(x, path', rc) := unlink_element l c r path in
  left_over rc x path' /\
  before path' ++ elements x ++ after path' = (before path ++ elements l) ++ elements r ++ after path.
Proof.
  intros Hf. destruct (take_out _ _ _ _ _ _ _ Hf) as [Hr Hl]. unfold unlink_element.
  destruct l as [|ll lk ln lc lr]; [split; [done|]; cbn; by rewrite app_nil_r|].
  destruct r as [|rl rk rn rc rr]; [split; [done|]; cbn; by rewrite <- !app_assoc|].
  set (l := Node ll lk ln lc lr) in *. clearbody l.
  pose proof (least_spec rl rk rn rc rr []) as H.
  destruct (least rl rk rn rc rr []) as [[[[nk nn] nc] nr] inner]. destruct H as (E1 & E2 & Hg).
  destruct (fits_down _ _ _ _ _ _ _ Hf) as (m1 & _ & Hfr).
  destruct (Hg m1 (mk_frame Right nk nn c l :: path) Hfr) as (m2 & Hf2).
  split; [apply (take_out _ _ _ _ _ _ _ Hf2)|].
  rewrite before_app, after_app, E2. cbn [before after f_side f_sibling f_key f_count app].
  rewrite app_nil_r in E1. rewrite app_nil_r. rewrite <- !app_assoc. cbn. do 2 f_equal.
  rewrite (app_assoc (elements nr)), app_comm_cons, E1. done.
Qed.

(** The path of the unlinked element is one of a tree as large as before. *)
Lemma unlink_element_path m l k n c r path :
  fits m (Node l k n c r) path ->
  let '(_, path', _) := unlink_element l c r path in
  exists m' y, fits m' y path' /\
    length (elements (plug y path')) = length (elements (plug (Node l k n c r) path)).
Proof.
  intros Hf. unfold unlink_element. destruct l as [|ll lk ln lc lr]; [eauto|].
  destruct r as [|rl rk rn rc rr]; [eauto|]. set (l := Node ll lk ln lc lr) in *. clearbody l.
  pose proof (least_spec rl rk rn rc rr []) as H.
  destruct (least rl rk rn rc rr []) as [[[[nk nn] nc] nr] inner]. destruct H as (E1 & E2 & Hg).
  destruct (fits_down _ _ _ _ _ _ _ Hf) as (m1 & _ & Hfr).
  destruct (Hg m1 (mk_frame Right nk nn c l :: path) Hfr) as (m2 & Hf2).
  exists m2, (Node null_element nk nn nc nr). split; [done|]. rewrite !elements_plug, before_app, after_app, E2.
  apply (f_equal length) in E1. repeat (rewrite ?length_app in E1; cbn in E1).
  repeat (rewrite ?length_app; cbn). lia.
Qed.

Lemma rebalance_spec rc x path :
  left_over rc x path ->
  exists t, (if bool_decide (rc = BLACK) then rb_delete_fixup x path else Some (plug x path)) = Some t /\
    valid t /\ elements t = before path ++ elements x ++ after path.
Proof.
  intros Hlo. destruct rc; cbn in *.
  - destruct Hlo as [n Hf]. exists (plug x path). split; [done|]. split; [by eapply fits_valid|apply elements_plug].
  - destruct Hlo as (n & Hx & Hp). by apply (rb_delete_fixup_spec n).
Qed.

(** ** The invariant of a tree *)

Record tree_wf tree : Prop := {
  wf_valid : valid (root tree);
  wf_sorted : sorted compare (elements (root tree));
  wf_count : elements_in_tree tree = Z.of_nat (length (elements (root tree)))
}.

Lemma init_tree_wf size limit free del : tree_wf (init_tree size limit free del).
Proof. split; [split; [done|by exists 0%nat]|constructor|done]. Qed.

Lemma free_tree_wf tree : tree_wf (fst (free_tree tree)).
Proof. split; [split; [done|by exists 0%nat]|constructor|done]. Qed.

(** The new element is put at its place. *)
Lemma insert_new_spec tree k path m :
  tree_wf tree -> tree_find compare k (root tree) [] = (null_element, path) -> fits m null_element path ->
  Z.of_nat (length (elements (root tree))) + 1 < 2 ^ 32 ->
  exists t, rb_insert (Node null_element k 1 RED null_element) path = Some t /\
    elements t = less compare k (elements (root tree)) ++ (k, 1) :: greater compare k (elements (root tree)) /\
    forall a, tree_wf (set_root (set_allocated tree a) t (u32 (elements_in_tree tree + 1))).
Proof.
  intros [Hv Hs Hc] Hfind (Hm & Hp & _) Hsmall. cbn in Hm. subst m.
  pose proof (tree_find_root compare k (root tree) Hv Hs) as H. rewrite Hfind in H.
  destruct H as (_ & He & El & Ee & Eg).
  destruct (rb_insert_spec k path Hp) as (t & E & Hvt & Het). exists t. split; [done|].
  rewrite El, Eg. split; [done|]. intros a. split; [done| |].
  - cbn. rewrite Het. apply sorted_add; [done|by rewrite <- He| |].
    + cbn. rewrite <- El. apply Forall_forall. intros e [He1 _]%list_elem_of_filter. done.
    + cbn. rewrite <- Eg. apply Forall_forall. intros e [He1 _]%list_elem_of_filter. done.
  - cbn. rewrite Het, Hc, He in *. rewrite !length_app in *. cbn [length].
    unfold u32. rewrite Z.mod_small; lia.
Qed.

(** What [tree_insert] should give: its result, the elements and the calls of
    the function that frees. *)
Definition over_limit tree (key_size : Z) : bool :=
  negb (memory_limit tree =? 0) && negb (elements_in_tree tree =? 0) &&
  (u64 (allocated tree + u32 (sizeof_TREE_ELEMENT + key_size + size_of_element tree)) >? memory_limit tree).

Definition insert_spec (alloc_ok : bool) tree k (key_size : Z)
  : insert_result * list (K * Z) * list (free_call K) :=
  let L := elements (root tree) in
  match equal compare k L with
  | (k', n) :: _ =>
      if negb (Z.land (flag tree) TREE_NO_DUPS =? 0) then (INSERT_NULL, L, [])
      else (INSERTED, less compare k L ++ (k', bump_count n) :: greater compare k L, [])
  | [] =>
      if negb (Z.land (flag tree) TREE_ONLY_DUPS =? 0) then (INSERT_UNIQUE, L, [])
      else if over_limit tree key_size then
        (if alloc_ok then INSERTED else INSERT_NULL, if alloc_ok then [(k, 1)] else [],
         snd (free_tree tree))
      else if alloc_ok then (INSERTED, less compare k L ++ (k, 1) :: greater compare k L, [])
      else (INSERT_NULL, L, [])
  end.

Definition tree_content tree : list (K * Z) := elements (root tree).

Lemma wf_set_allocated tree a : tree_wf tree -> tree_wf (set_allocated tree a).
Proof. intros [H1 H2 H3]. by split. Qed.

(** After a reset the new element is alone. *)
Lemma insert_after_reset fuel alloc_ok tree k key_size :
  Z.land (flag tree) TREE_ONLY_DUPS = 0 ->
  exists tree', tree_insert_rec compare (S fuel) alloc_ok (fst (reset_tree tree)) k key_size =
    Some (if alloc_ok then INSERTED else INSERT_NULL, tree', []) /\
    tree_content tree' = (if alloc_ok then [(k, 1)] else []) /\ tree_wf tree'.
Proof.
  intros Hf. cbn -[u32 u64 Z.land]. rewrite Hf, andb_false_r. cbn -[u32 u64]. destruct alloc_ok; cbn -[u32 u64].
  - eexists. split; [reflexivity|]. split; [done|].
    split; [split; [done|by exists 1%nat]|repeat constructor|done].
  - eexists. split; [reflexivity|]. split; [done|]. split; [split; [done|by exists 0%nat]|constructor|done].
Qed.

(** [tree_insert] on every branch. *)
Lemma tree_insert_ok alloc_ok tree k key_size :
  tree_wf tree -> Z.of_nat (length (tree_content tree)) + 1 < 2 ^ 32 ->
  exists res tree' freed, tree_insert compare alloc_ok tree k key_size = Some (res, tree', freed) /\
    tree_wf tree' /\ (res, tree_content tree', freed) = insert_spec alloc_ok tree k key_size.
Proof.
  intros Hwf Hsmall. pose proof Hwf as [Hv Hs Hc]. unfold tree_insert, insert_spec, tree_content in *.
  pose proof (tree_find_root compare k (root tree) Hv Hs) as H.
  change 2%nat with (S 1) at 1. set (one := 1%nat) at 1. cbn [tree_insert_rec].
  destruct (tree_find compare k (root tree) []) as [[|l k' n c r] path] eqn:Ef.
  - destruct H as ((m & Hm) & He & El & Ee & Eg). rewrite Ee.
    destruct (Z.land (flag tree) TREE_ONLY_DUPS =? 0) eqn:Ed; cbn [negb]; [|by eexists _, _, _].
    destruct (over_limit tree key_size) eqn:Eo; unfold over_limit in Eo; cbn zeta;
      cbn [set_allocated memory_limit elements_in_tree allocated size_of_element]; rewrite Eo.
    + destruct (insert_after_reset 0 alloc_ok (set_allocated tree (u64 (allocated tree +
        u32 (sizeof_TREE_ELEMENT + key_size + size_of_element tree)))) k key_size) as (tree' & E & Hc' & Hwf');
        [by apply Z.eqb_eq|].
      destruct (reset_tree _) as [tree1 freed] eqn:Er. cbn [fst] in E. unfold one. rewrite E. cbn [mbind option_bind].
      eexists _, tree', _. split; [reflexivity|]. split; [done|]. unfold tree_content in Hc'. rewrite Hc', app_nil_r.
      injection Er as _ <-. done.
    + destruct alloc_ok; cbn [negb]; [|eexists _, _, _; split; [reflexivity|]; split; [by apply wf_set_allocated|done]].
      destruct (insert_new_spec tree k path m Hwf Ef Hm Hsmall) as (t & E & Het & Hwf').
      rewrite E. cbn [mbind option_bind]. eexists _, _, _. split; [reflexivity|]. split; [apply Hwf'|].
      cbn. by rewrite Het.
  - destruct H as ((m & Hm) & He & El & Ee & Eg). rewrite Ee, El, Eg.
    destruct (negb _); [by eexists _, _, _|]. eexists _, _, _. split; [reflexivity|].
    assert (Hel : elements (plug (Node l k' (bump_count n) c r) path) =
      (before path ++ elements l) ++ (k', bump_count n) :: elements r ++ after path).
    { rewrite elements_plug. cbn. by rewrite <- !app_assoc. }
    split; [|cbn; by rewrite Hel]. split; cbn; rewrite ?Hel.
    + by apply (fits_valid m).
    + rewrite He in Hs. by eapply sorted_same.
    + rewrite Hc, He, !length_app. cbn. by rewrite !length_app.
Qed.

(** [tree_delete] on every branch. *)
Lemma tree_delete_ok tree k key_size :
  tree_wf tree -> with_delete tree = true -> Z.of_nat (length (tree_content tree)) < 2 ^ 32 ->
  match equal compare k (tree_content tree) with
  | [] => tree_delete compare tree k key_size = Some (1, tree, [])
  | (k', _) :: _ =>
      exists tree', tree_delete compare tree k key_size =
        Some (0, tree', if has_free tree then [free_free k'] else []) /\ tree_wf tree' /\
        tree_content tree' = less compare k (tree_content tree) ++ greater compare k (tree_content tree)
  end.
Proof.
  intros [Hv Hs Hc] Hdel Hsmall. unfold tree_delete, tree_content in *. rewrite Hdel. cbn [negb].
  pose proof (tree_find_root compare k (root tree) Hv Hs) as H.
  destruct (tree_find compare k (root tree) []) as [[|l k' n c r] path].
  - destruct H as (_ & _ & _ & -> & _). done.
  - destruct H as ((m & Hm) & He & -> & -> & ->).
    pose proof (unlink_element_spec m l k' n c r path Hm) as Hu.
    destruct (unlink_element l c r path) as [[x path'] rc]. destruct Hu as [Hlo Hel].
    destruct (rebalance_spec rc x path' Hlo) as (t & -> & Hvt & Het). cbn [mbind option_bind].
    eexists. split; [reflexivity|]. rewrite Hel in Het. split; [|done]. split; cbn; [done|..].
    + rewrite Het. rewrite He in Hs. by eapply sorted_remove.
    + rewrite Hc, Het. rewrite He in *. rewrite !length_app in *. cbn [length] in *. rewrite length_app in *.
      unfold u32. rewrite Z.mod_small; lia.
Qed.

(** [tree_insert] on every branch: a key that is there is counted (or refused),
    a new one gets its place in the order with the count 1, when the memory
    limit is passed the tree is emptied first, and the tree stays sorted and
    red-black. *)
Theorem tree_insert_correct alloc_ok tree k key_size :
  tree_wf tree -> Z.of_nat (length (tree_content tree)) + 1 < 2 ^ 32 ->
  exists res tree' freed, tree_insert compare alloc_ok tree k key_size = Some (res, tree', freed) /\
    tree_wf tree' /\ (res, tree_content tree', freed) = insert_spec alloc_ok tree k key_size.
Proof. apply tree_insert_ok. Qed.

(** C26: [tree_delete] takes out exactly the element with the key, and fails when
    there is none; the tree stays sorted and red-black. *)
Theorem tree_delete_correct tree k key_size :
  tree_wf tree -> with_delete tree = true -> Z.of_nat (length (tree_content tree)) < 2 ^ 32 ->
  match equal compare k (tree_content tree) with
  | [] => tree_delete compare tree k key_size = Some (1, tree, [])
  | (k', _) :: _ =>
      exists tree', tree_delete compare tree k key_size =
        Some (0, tree', if has_free tree then [free_free k'] else []) /\ tree_wf tree' /\
        tree_content tree' = less compare k (tree_content tree) ++ greater compare k (tree_content tree)
  end.
Proof. apply tree_delete_ok. Qed.

(** ** The height *)

Fixpoint height t : nat :=
  match t with null_element => 0 | Node l _ _ _ r => S (Nat.max (height l) (height r)) end.

Lemma rb_height n t :
  rb n t -> (height t <= 2 * n + match colour_of t with RED => 1 | BLACK => 0 end)%nat /\
  (2 ^ n <= length (elements t) + 1)%nat.
Proof.
  revert n. induction t as [|l IHl k c [] r IHr]; intros n; cbn [rb].
  - intros ->. done.
  - intros (Hl & Hr & Hl' & Hr'). destruct (IHl n Hl') as [H1 H2], (IHr n Hr') as [H3 H4].
    rewrite Hl in H1. rewrite Hr in H3. cbn [height colour_of elements]. rewrite length_app. cbn [length]. lia.
  - destruct n as [|n]; [done|]. intros [Hl Hr]. destruct (IHl n Hl) as [H1 H2], (IHr n Hr) as [H3 H4].
    cbn [height colour_of elements]. rewrite length_app. cbn [length]. rewrite Nat.pow_succ_r'.
    destruct (colour_of l), (colour_of r); lia.
Qed.

Lemma valid_height t :
  valid t -> Z.of_nat (length (elements t)) + 1 < 2 ^ 32 -> (height t <= 62)%nat.
Proof.
  intros [Hc [n Hn]] Hsmall. destruct (rb_height n t Hn) as [H1 H2]. rewrite Hc in H1.
  assert (Hlt : (n < 32)%nat); [|lia]. apply (Nat.pow_lt_mono_r_iff 2); [lia|].
  enough (Z.of_nat (2 ^ n) < Z.of_nat (2 ^ 32)) by lia. rewrite (Nat2Z.inj_pow 2 32). cbn [Z.of_nat]. lia.
Qed.

Lemma height_plug t path : (length path + height t <= height (plug t path))%nat.
Proof.
  revert t. induction path as [|f path IH]; intros t; [done|]. cbn [plug fold_left]. specialize (IH (plug1 f t)).
  unfold plug in IH. cbn [length]. assert (height t < height (plug1 f t))%nat; [|lia].
  unfold plug1. destruct (f_side f); cbn; lia.
Qed.

(** The array of [MAX_TREE_HEIGHT] links is long enough for every search of a
    tree with fewer than 2^32 - 1 elements, and for the link more that the
    balancing after a delete writes. *)
Theorem parents_long_enough tree k :
  tree_wf tree -> elements_in_tree tree + 1 < 2 ^ 32 ->
  let '(t, path) := tree_find compare k (root tree) [] in
  Z.of_nat (length path) + 1 < MAX_TREE_HEIGHT /\
  match t with
  | null_element => True
  | Node l _ _ c r =>
      let '(_, path', _) := unlink_element l c r path in Z.of_nat (length path') + 1 < MAX_TREE_HEIGHT
  end.
Proof.
  intros [Hv Hs Hc] Hsmall. rewrite Hc in Hsmall. pose proof (valid_height _ Hv Hsmall) as Hh.
  destruct (valid_fits _ Hv) as [n Hf].
  pose proof (tree_find_spec compare k n (root tree) [] Hf) as H.
  destruct (tree_find compare k (root tree) []) as [t path].
  destruct H as (Hp & [m Hm] & _); [cbn; by rewrite app_nil_r|constructor..|].
  pose proof (height_plug t path) as Hhp. rewrite Hp in Hhp. cbn [plug fold_left] in Hhp.
  unfold MAX_TREE_HEIGHT. split; [lia|]. destruct t as [|l k' c col r]; [done|].
  pose proof (unlink_element_path m l k' c col r path Hm) as Hu.
  destruct (unlink_element l col r path) as [[x path'] rc]. destruct Hu as (m' & y & Hf' & Hlen).
  rewrite Hp in Hlen. cbn [plug fold_left] in Hlen.
  pose proof (height_plug y path'). pose proof (valid_height _ (fits_valid _ _ _ Hf')) as Hh'.
  rewrite Hlen in Hh'. specialize (Hh' Hsmall). lia.
Qed.
End Operations.
