(* ===== verification/RbTreeSearch.v ===== *)
(** * Red-black trees: searching and walking

    [tree_search_key] finds the element that its flag asks for, also when the
    key compares equal to several elements; [tree_search_edge] and
    [tree_search_next] step through the elements in order, in both directions;
    [tree_walk] visits them in order until the action fails. *)
From Stdlib Require Import ZArith Lia List Bool.
From stdpp Require Import base tactics list sorting.
From S2P Require Import Prelude RbTree RbTreeInv.

Open Scope Z_scope.

Section Positions.
Context {K : Type}.
Implicit Types (t x : TREE_ELEMENT K) (path : list (frame K)) (tree : TREE K) (p q : position (K:=K)).

(** The elements before a position, at it and after it. *)
Definition pos_split p : option (list (K * Z) * (K * Z) * list (K * Z)) :=
  match p with
  | (Node l k n _ r, path) => Some (before path ++ elements l, (k, n), elements r ++ after path)
  | (null_element, _) => None
  end.

Definition pos_tree p : TREE_ELEMENT K := plug (fst p) (snd p).

(** The first element of [Y], and the last one of [X], in [X ++ Y]. *)
Definition first_of (X Y : list (K * Z)) : option (list (K * Z) * (K * Z) * list (K * Z)) :=
  match Y with [] => None | e :: Y => Some (X, e, Y) end.
Definition last_of (X Y : list (K * Z)) : option (list (K * Z) * (K * Z) * list (K * Z)) :=
  match rev X with [] => None | e :: X => Some (rev X, e, Y) end.

Lemma last_of_snoc X e Y : last_of (X ++ [e]) Y = Some (X, e, Y).
Proof. unfold last_of. rewrite rev_app_distr. cbn. by rewrite rev_involutive. Qed.

(** The position [p], if any, is in the tree [t] and splits its elements as
    given. *)
Definition denotes t (p : option position) (s : option (list (K * Z) * (K * Z) * list (K * Z))) : Prop :=
  match p with
  | None => s = None
  | Some p => pos_split p = s /\ s <> None /\ pos_tree p = t
  end.

Lemma denotes_node t l k n c r path :
  plug (Node l k n c r) path = t ->
  denotes t (Some (Node l k n c r, path)) (Some (before path ++ elements l, (k, n), elements r ++ after path)).
Proof. intros H. by split_and!. Qed.

Lemma denotes_elements t p A e B : denotes t (Some p) (Some (A, e, B)) -> elements t = A ++ e :: B.
Proof.
  intros (H1 & _ & <-). destruct p as [[|l k n c r] path]; [done|]. injection H1 as <- <- <-.
  unfold pos_tree. rewrite elements_plug. cbn. by rewrite <- !app_assoc.
Qed.

(** ** Edges and steps *)

Lemma edge_left_spec t path :
  t <> null_element ->
  denotes (plug t path) (Some (edge_left t path)) (first_of (before path) (elements t ++ after path)).
Proof.
  revert path. induction t as [|l IHl k n c r _]; intros path Ht; [done|]. cbn [edge_left].
  destruct l as [|ll lk ln lc lr].
  - cbn. split_and!; [by rewrite app_nil_r|done|done].
  - specialize (IHl (mk_frame Left k n c r :: path) ltac:(done)).
    change (plug (Node ll lk ln lc lr) (mk_frame Left k n c r :: path))
      with (plug (Node (Node ll lk ln lc lr) k n c r) path) in IHl.
    set (l := Node ll lk ln lc lr) in *. cbn [before after f_side f_sibling f_key f_count] in IHl.
    rewrite app_nil_r in IHl. cbn [elements]. by rewrite <- !app_assoc.
Qed.

Lemma edge_right_spec t path :
  t <> null_element ->
  denotes (plug t path) (Some (edge_right t path)) (last_of (before path ++ elements t) (after path)).
Proof.
  revert path. induction t as [|l _ k n c r IHr]; intros path Ht; [done|]. cbn [edge_right].
  destruct r as [|rl rk rn rc rr].
  - cbn. rewrite app_assoc, last_of_snoc. by split_and!.
  - specialize (IHr (mk_frame Right k n c l :: path) ltac:(done)).
    change (plug (Node rl rk rn rc rr) (mk_frame Right k n c l :: path))
      with (plug (Node l k n c (Node rl rk rn rc rr)) path) in IHr.
    set (r := Node rl rk rn rc rr) in *. cbn [before after f_side f_sibling f_key f_count app] in IHr.
    cbn [elements]. by rewrite <- !app_assoc in *.
Qed.

Lemma climb_right_spec x path :
  denotes (plug x path) (climb Right x path) (first_of (before path ++ elements x) (after path)).
Proof.
  revert x. induction path as [|[[] k n c s] path IH]; intros x; cbn [climb f_side]; [done|..].
  - cbn [before after f_side f_sibling f_key f_count app first_of]. rewrite app_nil_r.
    by apply (denotes_node _ x k n c s path).
  - specialize (IH (plug1 (mk_frame Right k n c s) x)). cbn in IH |- *. by rewrite <- !app_assoc.
Qed.

Lemma climb_left_spec x path :
  denotes (plug x path) (climb Left x path) (last_of (before path) (elements x ++ after path)).
Proof.
  revert x. induction path as [|[[] k n c s] path IH]; intros x; cbn [climb f_side]; [done|..].
  - specialize (IH (plug1 (mk_frame Left k n c s) x)). cbn in IH |- *. by rewrite app_nil_r, <- !app_assoc in *.
  - cbn [before f_side f_sibling f_key f_count]. rewrite app_assoc, last_of_snoc.
    apply (denotes_node _ s k n c x path). done.
Qed.

(** The first and the last element. *)
Lemma tree_search_edge_spec tree s :
  denotes (root tree) (tree_search_edge tree s)
    (match s with Left => first_of [] (elements (root tree)) | Right => last_of (elements (root tree)) [] end).
Proof.
  unfold tree_search_edge. destruct (root tree) as [|l k n c r] eqn:E; [by destruct s|]. rewrite <- E.
  destruct s; cbn [edge].
  - pose proof (edge_left_spec (root tree) []) as H. rewrite app_nil_r in H. apply H. by rewrite E.
  - apply (edge_right_spec (root tree) []). by rewrite E.
Qed.

(** One step of [tree_search_next]. *)
Lemma tree_search_next_spec t p A e B (s : side) :
  denotes t (Some p) (Some (A, e, B)) ->
  denotes t (tree_search_next s p)
    (match s with Right => first_of (A ++ [e]) B | Left => last_of A (e :: B) end).
Proof.
  intros (H1 & _ & <-). destruct p as [[|l k n c r] path]; [done|]. injection H1 as <- <- <-.
  unfold tree_search_next, pos_tree. cbn [fst snd]. destruct s; cbn [child opposite edge].
  - destruct l as [|ll lk ln lc lr].
    + pose proof (climb_left_spec (Node null_element k n c r) path) as H. cbn in H |- *. by rewrite app_nil_r.
    + pose proof (edge_right_spec (Node ll lk ln lc lr) (mk_frame Left k n c r :: path) ltac:(done)) as H.
      set (l := Node ll lk ln lc lr) in *. cbn [before after f_side f_sibling f_key f_count] in H.
      rewrite app_nil_r in H. exact H.
  - destruct r as [|rl rk rn rc rr].
    + pose proof (climb_right_spec (Node l k n c null_element) path) as H. cbn in H |- *. by rewrite <- app_assoc.
    + pose proof (edge_left_spec (Node rl rk rn rc rr) (mk_frame Right k n c l :: path) ltac:(done)) as H.
      set (r := Node rl rk rn rc rr) in *. cbn [before after f_side f_sibling f_key f_count app] in H.
      rewrite app_assoc in H. exact H.
Qed.

(** A scan in the direction [s] from a position, as the HEAP engine and the
    full-text search do it. *)
Fixpoint scan (fuel : nat) (s : side) (p : option position) : list (K * Z) :=
  match fuel, p with
  | S fuel, Some ((Node _ k n _ _, _) as p) => (k, n) :: scan fuel s (tree_search_next s p)
  | _, _ => []
  end.

Lemma scan_spec t (s : side) fuel (p : option (position (K:=K))) (A B : list (K * Z)) :
  (length (match s with Right => B | Left => A end) <= fuel)%nat ->
  denotes t p (match s with Right => first_of A B | Left => last_of A B end) ->
  scan fuel s p = match s with Right => B | Left => rev A end.
Proof.
  revert p A B. induction fuel as [|fuel IH]; intros p A B Hfuel Hp.
  { destruct s; [destruct A|destruct B]; cbn in *; done || lia. }
  destruct s.
  - destruct A as [|e A _] using rev_ind; [by destruct p as [p|]; [destruct Hp as (_ & ? & _)|]|].
    rewrite length_app in Hfuel. cbn in Hfuel. rewrite last_of_snoc in Hp. rewrite rev_app_distr. cbn [rev app].
    destruct p as [p|]; [|done]. pose proof (tree_search_next_spec t p A e B Left Hp) as Hn.
    destruct Hp as (H1 & _ & H3). destruct p as [[|l k n c r] path]; [done|]. injection H1 as <- <- <-.
    cbn [scan]. f_equal. eapply IH; [lia|exact Hn].
  - destruct B as [|e B]; [by destruct p as [p|]; [destruct Hp as (_ & ? & _)|]|]. cbn in Hfuel.
    destruct p as [p|]; [|done]. cbn [first_of] in Hp. pose proof (tree_search_next_spec t p A e B Right Hp) as Hn.
    destruct Hp as (H1 & _ & H3). destruct p as [[|l k n c r] path]; [done|]. injection H1 as <- <- <-.
    cbn [scan]. f_equal. eapply IH; [cbn; lia|exact Hn].
Qed.

(** From the first element [tree_search_next] steps through the elements in
    order, and from the last one backwards, each once. *)
Theorem tree_scan_in_order tree (s : side) :
  scan (length (elements (root tree))) s (tree_search_edge tree (opposite s)) =
  match s with Right => elements (root tree) | Left => rev (elements (root tree)) end.
Proof.
  pose proof (tree_search_edge_spec tree (opposite s)) as H.
  destruct s; [apply (scan_spec (root tree) Left _ _ (elements (root tree)) [])|
    apply (scan_spec (root tree) Right _ _ [] (elements (root tree)))]; done.
Qed.

(** ** Searching a key *)

Section SearchKey.
Context (cmp : K -> Z).

Definition low (L : list (K * Z)) := filter (fun e => cmp (fst e) < 0) L.
Definition same (L : list (K * Z)) := filter (fun e => cmp (fst e) = 0) L.
Definition high (L : list (K * Z)) := filter (fun e => cmp (fst e) > 0) L.

(** The comparison with the key goes along the order of the elements. *)
Definition along (L : list (K * Z)) : Prop :=
  StronglySorted (fun a b => Z.sgn (cmp (fst a)) <= Z.sgn (cmp (fst b))) L.

(** The equal element that a search going left on equal ones has in [lft]. *)
Definition if_equal (p : option position) : option position :=
  match p with
  | Some ((Node _ k _ _ _, _) as q) => if cmp k =? 0 then Some q else None
  | _ => None
  end.

(** What the loop has found when it is at [t]: the elements before go right,
    those after go left. *)
Record searched (root_t : TREE_ELEMENT K) (goes_right : K * Z -> Prop) t path (lft rgt : option position) : Prop := {
  searched_tree : plug t path = root_t;
  searched_before : Forall goes_right (before path);
  searched_after : Forall (fun e => ~ goes_right e) (after path);
  searched_lft : denotes root_t lft (first_of (before path ++ elements t) (after path));
  searched_rgt : denotes root_t rgt (last_of (before path) (elements t ++ after path))
}.

Lemma searched_right root_t goes_right l k n c r path lft rgt :
  searched root_t goes_right (Node l k n c r) path lft rgt ->
  goes_right (k, n) -> Forall goes_right (elements l) ->
  searched root_t goes_right r (mk_frame Right k n c l :: path) lft (Some (Node l k n c r, path)).
Proof.
  intros [H1 H2 H3 H4 H5] Hk Hl. split; cbn [before after f_side f_sibling f_key f_count app].
  - exact H1.
  - rewrite !Forall_app. by repeat constructor.
  - done.
  - cbn in H4. by rewrite <- !app_assoc in *.
  - rewrite app_assoc, last_of_snoc. by apply denotes_node.
Qed.

Lemma searched_left root_t goes_right l k n c r path lft rgt :
  searched root_t goes_right (Node l k n c r) path lft rgt ->
  ~ goes_right (k, n) -> Forall (fun e => ~ goes_right e) (elements r) ->
  searched root_t goes_right l (mk_frame Left k n c r :: path) (Some (Node l k n c r, path)) rgt.
Proof.
  intros [H1 H2 H3 H4 H5] Hk Hr. split; cbn [before after f_side f_sibling f_key f_count app].
  - exact H1.
  - by rewrite app_nil_r.
  - constructor; [done|]. rewrite Forall_app. by split.
  - rewrite app_nil_r. cbn [first_of]. by apply denotes_node.
  - rewrite app_nil_r. cbn in H5. by rewrite <- !app_assoc in H5.
Qed.

Lemma along_middle A e B :
  along (A ++ e :: B) ->
  Forall (fun a => Z.sgn (cmp (fst a)) <= Z.sgn (cmp (fst e))) A /\
  Forall (fun b => Z.sgn (cmp (fst e)) <= Z.sgn (cmp (fst b))) B.
Proof.
  unfold along. induction A as [|a A IH]; cbn; intros H; inversion_clear H as [|? ? H1 H2]; [done|].
  destruct (IH H1) as [I1 I2]. split; [|done]. constructor; [|done].
  apply Forall_app in H2 as [_ H2]. by inversion H2.
Qed.

Definition right_on (step : Z) (e : K * Z) : Prop := cmp (fst e) < 0 \/ (cmp (fst e) = 0 /\ step < 0).

Definition equal_found (keep : bool) (step : Z) (lft rgt : option position) : option position :=
  if keep then if step <? 0 then if_equal rgt else if_equal lft else None.

(** The element of a found position decides [if_equal]. *)
Lemma if_equal_denotes t (p : option (position (K:=K))) A e B :
  denotes t p (Some (A, e, B)) -> if_equal p = if cmp (fst e) =? 0 then p else None.
Proof.
  destruct p as [p|]; [|done]. intros (H1 & _ & _). destruct p as [[|l k n c r] path]; [done|].
  by injection H1 as <- <- <-.
Qed.

Lemma if_equal_none t (p : option (position (K:=K))) : denotes t p None -> if_equal p = None.
Proof. destruct p as [p|]; [|done]. by intros (_ & H & _). Qed.

Lemma if_equal_first t (p : option (position (K:=K))) X Y :
  denotes t p (first_of X Y) -> Forall (fun e => cmp (fst e) <> 0) Y -> if_equal p = None.
Proof.
  intros Hp HY. destruct Y as [|e Y]; [by apply (if_equal_none t)|]. cbn in Hp.
  rewrite (if_equal_denotes _ _ _ _ _ Hp). inversion_clear HY as [|? ? He _].
  by destruct (Z.eqb_spec (cmp (fst e)) 0).
Qed.

Lemma if_equal_last t (p : option (position (K:=K))) X Y :
  denotes t p (last_of X Y) -> Forall (fun e => cmp (fst e) <> 0) X -> if_equal p = None.
Proof.
  intros Hp HX. destruct X as [|e X _] using rev_ind; [by apply (if_equal_none t)|].
  rewrite last_of_snoc in Hp. rewrite (if_equal_denotes _ _ _ _ _ Hp).
  apply Forall_app in HX as [_ HX]. inversion_clear HX as [|? ? He _].
  by destruct (Z.eqb_spec (cmp (fst e)) 0).
Qed.

Lemma search_key_loop_spec root_t flag keep step t path lft rgt :
  on_equal flag = Some (keep, step) -> along (elements root_t) ->
  searched root_t (right_on step) t path lft rgt ->
  exists lft' rgt' path',
    search_key_loop cmp flag t path (equal_found keep step lft rgt) lft rgt =
      Some (equal_found keep step lft' rgt', lft', rgt') /\
    searched root_t (right_on step) null_element path' lft' rgt'.
Proof.
  intros Hon Hal. revert path lft rgt.
  assert (Hstep : step = 1 \/ step = -1) by (destruct flag; cbn in Hon; simplify_eq; auto).
  induction t as [|l IHl k n c r IHr]; intros path lft rgt Hs; cbn [search_key_loop]; [by eexists _, _, _|].
  pose proof (searched_tree _ _ _ _ _ _ Hs) as Htree.
  assert (Hm : along ((before path ++ elements l) ++ (k, n) :: elements r ++ after path)).
  { rewrite <- Htree, elements_plug in Hal. cbn in Hal. by rewrite <- !app_assoc in *. }
  destruct (along_middle _ _ _ Hm) as [M1 M2]. rewrite Forall_app in M1, M2.
  destruct M1 as [M1 M1'], M2 as [M2' M2]. cbn [fst] in *.
  assert (Hgo : forall eql, (right_on step (k, n) -> eql = equal_found keep step lft (Some (Node l k n c r, path))) ->
    (~ right_on step (k, n) -> eql = equal_found keep step (Some (Node l k n c r, path)) rgt) ->
    forall st, (st < 0 <-> right_on step (k, n)) ->
    exists lft' rgt' path', (if st <? 0
      then search_key_loop cmp flag r (mk_frame Right k n c l :: path) eql lft (Some (Node l k n c r, path))
      else search_key_loop cmp flag l (mk_frame Left k n c r :: path) eql (Some (Node l k n c r, path)) rgt) =
      Some (equal_found keep step lft' rgt', lft', rgt') /\
      searched root_t (right_on step) null_element path' lft' rgt').
  { intros eql E1 E2 st Hst. destruct (Z.ltb_spec st 0) as [Hlt|Hge].
    - apply Hst in Hlt. rewrite (E1 Hlt). apply IHr. eapply searched_right; [done..|].
      eapply Forall_impl; [exact M1'|]. unfold right_on in *. cbn in *. intros e He. lia.
    - assert (Hn : ~ right_on step (k, n)) by (rewrite <- Hst; lia). rewrite (E2 Hn). apply IHl.
      eapply searched_left; [done..|]. eapply Forall_impl; [exact M2'|].
      unfold right_on in *. cbn in *. intros e He. lia. }
  cbn zeta. rewrite Hon. destruct (Z.eqb_spec (cmp k) 0) as [E0|E0].
  - apply Hgo.
    + intros [Hr|[_ Hr]]; cbn in *; [lia|]. unfold equal_found. destruct keep; [|by destruct flag; cbn in Hon; simplify_eq].
      rewrite (proj2 (Z.ltb_lt _ _) Hr). cbn. by rewrite (proj2 (Z.eqb_eq _ _) E0).
    + intros Hr. unfold equal_found, right_on in *. cbn in Hr.
      destruct keep; [|destruct flag; cbn in Hon; simplify_eq; cbn in Hr; lia].
      destruct (Z.ltb_spec step 0); [lia|]. cbn. by rewrite (proj2 (Z.eqb_eq _ _) E0).
    + unfold right_on. cbn. lia.
  - destruct Hs as [_ _ _ Hlft Hrgt]. apply Hgo; [..|unfold right_on; cbn; lia]; unfold right_on, equal_found; cbn;
      intros Hr; destruct keep; try done; destruct (Z.ltb_spec step 0); try done;
      rewrite (proj2 (Z.eqb_neq _ _) E0).
    + eapply if_equal_last; [exact Hrgt|]. eapply Forall_impl; [exact M1|]. cbn. lia.
    + eapply if_equal_first; [exact Hlft|]. eapply Forall_impl; [exact M2|]. cbn. lia.
Qed.

(** What the flag asks for: [A] are the elements before the key, [E] those
    equal to it, [B] those after it. *)
Definition search_spec (flag : ha_rkey_function) (A E B : list (K * Z)) :=
  match flag with
  | HA_READ_KEY_EXACT => match E with [] => None | _ => first_of A (E ++ B) end
  | HA_READ_KEY_OR_NEXT => first_of A (E ++ B)
  | HA_READ_AFTER_KEY => first_of (A ++ E) B
  | HA_READ_BEFORE_KEY => last_of A (E ++ B)
  | HA_READ_PREFIX_LAST => match E with [] => None | _ => last_of (A ++ E) B end
  | HA_READ_PREFIX_LAST_OR_PREV => last_of (A ++ E) B
  | HA_READ_KEY_OR_PREV => match E with [] => last_of A B | _ => first_of A (E ++ B) end
  | _ => None
  end.

Lemma along_split L : along L -> L = low L ++ same L ++ high L.
Proof.
  induction 1 as [|e L Hs IH He]; [done|]. unfold low, same, high in *.
  assert (Hnone : forall (P : K * Z -> Prop) `{!forall a, Decision (P a)},
    (forall a, P a -> ~ Z.sgn (cmp (fst e)) <= Z.sgn (cmp (fst a))) -> filter P L = []).
  { intros P ? HP. apply filter_none. intros a Ha HPa. rewrite Forall_forall in He. by apply (HP a HPa), He. }
  rewrite !filter_cons. repeat case_decide; try lia.
  - cbn. by f_equal.
  - rewrite (Hnone (fun e => cmp (fst e) < 0)) in * by (intros; lia). cbn in *. by f_equal.
  - rewrite (Hnone (fun e => cmp (fst e) < 0)), (Hnone (fun e => cmp (fst e) = 0)) in * by (intros; lia).
    cbn in *. by f_equal.
Qed.

(** The end of the loop splits the elements as the step on equal ones says. *)
Lemma searched_end root_t step path lft rgt :
  along (elements root_t) -> searched root_t (right_on step) null_element path lft rgt ->
  let L := elements root_t in
  if step <? 0 then denotes root_t lft (first_of (low L ++ same L) (high L)) /\
                    denotes root_t rgt (last_of (low L ++ same L) (high L))
  else denotes root_t lft (first_of (low L) (same L ++ high L)) /\
       denotes root_t rgt (last_of (low L) (same L ++ high L)).
Proof.
  intros Hal [H1 H2 H3 H4 H5]. cbn zeta. cbn in H4, H5. rewrite app_nil_r in H4.
  pose proof (along_split _ Hal) as HL. set (L := elements root_t) in *.
  assert (EL : L = before path ++ after path) by (unfold L; rewrite <- H1, elements_plug; done).
  rewrite Forall_forall in H2, H3.
  assert (Hb : before path = if step <? 0 then low L ++ same L else low L).
  { assert (Hf : before path = filter (right_on step) L).
    { rewrite EL, filter_app, (list_filter_keep _ (before path)), (filter_none _ (after path)) by done.
      by rewrite app_nil_r. }
    rewrite Hf, HL at 1. rewrite !filter_app. unfold low, same, high.
    rewrite (list_filter_keep _ (filter (fun e => cmp (fst e) < 0) L))
      by (intros e [He _]%list_elem_of_filter; by left).
    rewrite (filter_none _ (filter (fun e => cmp (fst e) > 0) L))
      by (intros e [He _]%list_elem_of_filter; unfold right_on; lia).
    rewrite app_nil_r. destruct (Z.ltb_spec step 0).
    - rewrite (list_filter_keep _ (filter (fun e => cmp (fst e) = 0) L)); [done|].
      intros e [He _]%list_elem_of_filter. by right.
    - rewrite (filter_none _ (filter (fun e => cmp (fst e) = 0) L)); [by rewrite app_nil_r|].
      intros e [He _]%list_elem_of_filter. unfold right_on. lia. }
  assert (Ha : after path = if step <? 0 then high L else same L ++ high L).
  { apply (app_inv_head (before path)). rewrite <- EL, Hb, HL at 1. destruct (step <? 0); by rewrite <- ?app_assoc. }
  rewrite Hb, Ha in *. by destruct (step <? 0).
Qed.

Lemma if_equal_first_same t (p : option (position (K:=K))) L :
  denotes t p (first_of (low L) (same L ++ high L)) ->
  if_equal p = match same L with [] => None | _ => p end.
Proof.
  intros Hp. destruct (same L) as [|e E] eqn:Es.
  - eapply if_equal_first; [exact Hp|]. apply Forall_forall. intros e [He _]%list_elem_of_filter. lia.
  - cbn in Hp. rewrite (if_equal_denotes _ _ _ _ _ Hp).
    assert (He : e ∈ same L) by (rewrite Es; apply elem_of_cons; by left). apply list_elem_of_filter in He as [He _]. by rewrite He.
Qed.

Lemma if_equal_last_same t (p : option (position (K:=K))) L :
  denotes t p (last_of (low L ++ same L) (high L)) ->
  if_equal p = match same L with [] => None | _ => p end.
Proof.
  intros Hp. destruct (same L) as [|e E] eqn:Es.
  - rewrite app_nil_r in Hp. eapply if_equal_last; [exact Hp|]. apply Forall_forall.
    intros e [He _]%list_elem_of_filter. lia.
  - destruct (exists_last (l := e :: E)) as (E' & e' & El); [done|]. rewrite El in Es, Hp.
    rewrite app_assoc, last_of_snoc in Hp. rewrite (if_equal_denotes _ _ _ _ _ Hp).
    assert (He : e' ∈ same L) by (rewrite Es; apply elem_of_app; right; by apply list_elem_of_singleton).
    apply list_elem_of_filter in He as [He _]. by rewrite He.
Qed.

Lemma or_else_same (p : option (position (K:=K))) (E : list (K * Z)) :
  or_else (match E with [] => None | _ => p end) p = p.
Proof. by destruct E, p. Qed.

(** C27: [tree_search_key] finds the element the flag asks for: the first or the last
    of those equal to the key, the next after or the last before it. *)
Theorem tree_search_key_correct tree flag :
  along (elements (root tree)) ->
  let L := elements (root tree) in
  denotes (root tree) (tree_search_key cmp tree flag) (search_spec flag (low L) (same L) (high L)).
Proof.
  intros Hal. cbn zeta. unfold tree_search_key. destruct (on_equal flag) as [[keep step]|] eqn:Hon;
    [|destruct (search_key_loop _ _ _ _ _ _ _) as [[[? ?] ?]|]; by destruct flag].
  assert (Hs0 : searched (root tree) (right_on step) (root tree) [] None None)
    by (split; cbn; done || constructor).
  destruct (search_key_loop_spec _ flag keep step _ _ _ _ Hon Hal Hs0) as (lft & rgt & path & E & Hs).
  replace (equal_found keep step None None) with (@None (position (K:=K))) in E
    by (unfold equal_found; by destruct keep, (step <? 0)).
  rewrite E. pose proof (searched_end _ _ _ _ _ Hal Hs) as Hend.
  destruct flag; cbn in Hon; simplify_eq; cbn in Hend; destruct Hend as [Hl Hr]; unfold equal_found; cbn [Z.ltb Z.compare];
    rewrite ?(if_equal_first_same _ _ _ Hl), ?(if_equal_last_same _ _ _ Hr), ?or_else_same; cbn [search_spec]; try done.
  - by destruct (same _).
  - destruct (same (elements (root tree))) as [|e E'] eqn:Es; cbn [or_else]; [done|]. cbn [app first_of] in *.
    by destruct lft.
  - by destruct (same _).
Qed.

End SearchKey.
End Positions.

(** ** Walks and plain searches *)

Section Walks.
Context {K S : Type} (action : K -> Z -> S -> Z * S).

(** The action on a list of elements until it fails. *)
Fixpoint visit_all (L : list (K * Z)) (s : S) : Z * S :=
  match L with
  | [] => (0, s)
  | (k, n) :: L => let '(error, s) := action k n s in if error =? 0 then visit_all L s else (error, s)
  end.

Lemma visit_all_app L L' s :
  visit_all (L ++ L') s = let '(error, s') := visit_all L s in if error =? 0 then visit_all L' s' else (error, s').
Proof.
  revert s. induction L as [|[k n] L IH]; intros s; cbn; [done|].
  destruct (action k n s) as [error s']. destruct (error =? 0) eqn:E; [done|]. by rewrite E.
Qed.

(** [tree_walk] calls the action on the elements in order, or in the reverse
    order, until it returns an error, which it returns. *)
Theorem tree_walk_correct (tree : TREE K) visit s :
  tree_walk action tree visit s =
  visit_all (match visit with
             | left_root_right => elements (root tree)
             | right_root_left => rev (elements (root tree))
             end) s.
Proof.
  destruct visit; cbn [tree_walk]; generalize (root tree) as t; intros t; revert s.
  - induction t as [|l IHl k n c r IHr]; intros s; cbn; [done|]. rewrite visit_all_app, <- IHl.
    destruct (tree_walk_left_root_right action l s) as [error s1]. destruct (error =? 0); [|done].
    cbn. destruct (action k n s1) as [error2 s2]. by rewrite IHr.
  - induction t as [|l IHl k n c r IHr]; intros s; cbn; [done|].
    rewrite rev_app_distr. cbn. rewrite <- app_assoc, visit_all_app, <- IHr.
    destruct (tree_walk_right_root_left action r s) as [error s1]. destruct (error =? 0); [|done].
    cbn. destruct (action k n s1) as [error2 s2]. by rewrite IHl.
Qed.
End Walks.

Section History.
Context {K : Type} (compare : K -> K -> Z) `{!TreeOrder compare}.
Implicit Types (tree : TREE K) (k : K).

Lemma tree_search_find k (t : TREE_ELEMENT K) path :
  tree_search_loop compare k t =
  match fst (tree_find compare k t path) with Node _ k' _ _ _ => Some k' | null_element => None end.
Proof.
  revert path. induction t as [|l IHl k' n c r IHr]; intros path; cbn; [done|].
  destruct (compare k' k =? 0); [done|]. destruct (compare k' k <? 0); auto.
Qed.

Lemma tree_search_spec tree k :
  tree_wf compare tree -> tree_search compare tree k = fst <$> head (equal compare k (elements (root tree))).
Proof.
  intros [Hv Hs _]. unfold tree_search. rewrite (tree_search_find k _ []).
  pose proof (tree_find_root compare k (root tree) Hv Hs) as H.
  destruct (tree_find compare k (root tree) []) as [[|l k' n c r] path]; destruct H as (_ & _ & _ & -> & _); done.
Qed.

(** The operations of a user of the tree.  [alloc_ok]: the allocation of the
    element succeeds; the users set [flag] themselves. *)
Inductive tree_op :=
| Insert (alloc_ok : bool) (k : K) (key_size : Z)
| Delete (k : K) (key_size : Z)
| Search (k : K)
| SetFlag (f : Z).

Inductive tree_answer := Inserted (res : insert_result) | Deleted (res : Z) | Found (k : option K) | Set_.

Definition set_flag tree (f : Z) : TREE K :=
  mk_tree (root tree) (elements_in_tree tree) (size_of_element tree) (memory_limit tree) (allocated tree)
    (with_delete tree) (has_free tree) f.

(** The answer of an operation, the tree after it and the calls of [free]. *)
Definition run_tree_op tree (op : tree_op) : option (tree_answer * TREE K * list (free_call K)) :=
  match op with
  | Insert alloc_ok k key_size =>
      '(res, tree, freed) ← tree_insert compare alloc_ok tree k key_size; Some (Inserted res, tree, freed)
  | Delete k key_size =>
      '(res, tree, freed) ← tree_delete compare tree k key_size; Some (Deleted res, tree, freed)
  | Search k => Some (Found (tree_search compare tree k), tree, [])
  | SetFlag f => Some (Set_, set_flag tree f, [])
  end.

Fixpoint run_tree tree (ops : list tree_op) : option (list (tree_answer * list (free_call K)) * TREE K) :=
  match ops with
  | [] => Some ([], tree)
  | op :: ops =>
      '(answer, tree, freed) ← run_tree_op tree op;
      '(answers, tree) ← run_tree tree ops;
      Some ((answer, freed) :: answers, tree)
  end.

(** The same on the sorted list of keys with their counts, which also counts
    the memory and has the flag. *)
Record sorted_list := mk_sorted { keys : list (K * Z); memory : Z; the_flag : Z }.

Section Reference.
Variables (element_size limit : Z) (deletes frees : bool).

Definition memory_of (key_size : Z) : Z := u32 (sizeof_TREE_ELEMENT + key_size + element_size).

Definition free_all (L : list (K * Z)) : list (free_call K) :=
  if frees then
    if deletes || (limit =? 0) then map (fun e => free_free e.1) L
    else free_init :: map (fun e => free_free e.1) L ++ [free_end]
  else [].

Definition list_insert (alloc_ok : bool) (T : sorted_list) k (key_size : Z)
  : insert_result * sorted_list * list (free_call K) :=
  let L := keys T in
  match equal compare k L with
  | (k', n) :: _ =>
      if negb (Z.land (the_flag T) TREE_NO_DUPS =? 0) then (INSERT_NULL, T, [])
      else (INSERTED, mk_sorted (less compare k L ++ (k', bump_count n) :: greater compare k L) (memory T) (the_flag T), [])
  | [] =>
      if negb (Z.land (the_flag T) TREE_ONLY_DUPS =? 0) then (INSERT_UNIQUE, T, [])
      else
        let m := u64 (memory T + memory_of key_size) in
        let full := negb (limit =? 0) && negb (length L =? 0)%nat && (m >? limit) in
        let L1 := if full then [] else L in
        let m1 := if full then u64 (memory_of key_size) else m in
        let freed := if full then free_all L else [] in
        if alloc_ok
        then (INSERTED, mk_sorted (less compare k L1 ++ (k, 1) :: greater compare k L1) m1 (the_flag T), freed)
        else (INSERT_NULL, mk_sorted L1 m1 (the_flag T), freed)
  end.

Definition list_delete (T : sorted_list) k (key_size : Z) : Z * sorted_list * list (free_call K) :=
  let L := keys T in
  match equal compare k L with
  | (k', _) :: _ =>
      if deletes then
        (0, mk_sorted (less compare k L ++ greater compare k L)
              (u64 (memory T - (sizeof_TREE_ELEMENT + element_size + key_size))) (the_flag T),
         if frees then [free_free k'] else [])
      else (1, T, [])
  | [] => (1, T, [])
  end.

Definition list_op (T : sorted_list) (op : tree_op) : tree_answer * sorted_list * list (free_call K) :=
  match op with
  | Insert alloc_ok k key_size =>
      let '(res, T, freed) := list_insert alloc_ok T k key_size in (Inserted res, T, freed)
  | Delete k key_size => let '(res, T, freed) := list_delete T k key_size in (Deleted res, T, freed)
  | Search k => (Found (fst <$> head (equal compare k (keys T))), T, [])
  | SetFlag f => (Set_, mk_sorted (keys T) (memory T) f, [])
  end.

Fixpoint run_list (T : sorted_list) (ops : list tree_op) : list (tree_answer * list (free_call K)) * sorted_list :=
  match ops with
  | [] => ([], T)
  | op :: ops =>
      let '(answer, T, freed) := list_op T op in
      let '(answers, T) := run_list T ops in ((answer, freed) :: answers, T)
  end.

(** The tree stands for the list. *)
Record stands_for tree (T : sorted_list) : Prop := {
  sf_wf : tree_wf compare tree;
  sf_keys : elements (root tree) = keys T;
  sf_memory : allocated tree = memory T;
  sf_flag : flag tree = the_flag T;
  sf_size : size_of_element tree = element_size;
  sf_limit : memory_limit tree = limit;
  sf_deletes : with_delete tree = deletes;
  sf_frees : has_free tree = frees
}.

Lemma less_greater_length k (L : list (K * Z)) :
  (length (less compare k L) + length (greater compare k L) <= length L)%nat.
Proof.
  unfold less, greater. induction L as [|e L IH]; [done|]. rewrite !filter_cons. cbn [length].
  repeat case_decide; cbn [length]; lia.
Qed.

Lemma list_op_length T op : (length (keys (list_op T op).1.2) <= S (length (keys T)))%nat.
Proof.
  destruct op as [ok k ks|k ks|k|f]; cbn; [| |lia..]; pose proof (less_greater_length k (keys T)).
  - unfold list_insert. destruct (equal _ _ _) as [|[k' n] ?].
    + destruct (negb (Z.land _ _ =? 0)); cbn [fst snd]; [lia|]. destruct (_ && _ && _), ok; cbn [fst snd keys]; rewrite ?length_app; cbn; lia.
    + destruct (negb (Z.land _ _ =? 0)); cbn [fst snd keys]; [lia|]. rewrite length_app. cbn. lia.
  - unfold list_delete. destruct (equal _ _ _) as [|[k' n] ?]; cbn; [lia|]. destruct deletes; cbn; rewrite ?length_app; lia.
Qed.

Lemma delete_tree_element_elements (t : TREE_ELEMENT K) :
  delete_tree_element t = map (fun e => free_free e.1) (elements t).
Proof. induction t as [|l IHl k n c r IHr]; cbn; [done|]. by rewrite map_app, IHl, IHr. Qed.

(** The fields an insert sets beside the elements. *)
Lemma tree_insert_fields alloc_ok tree k ks res tree' freed :
  tree_insert compare alloc_ok tree k ks = Some (res, tree', freed) ->
  (flag tree' = flag tree /\ size_of_element tree' = size_of_element tree /\
   memory_limit tree' = memory_limit tree /\ with_delete tree' = with_delete tree /\ has_free tree' = has_free tree) /\
  allocated tree' =
    match tree_find compare k (root tree) [] with
    | (null_element, _) =>
        let size := u32 (sizeof_TREE_ELEMENT + ks + size_of_element tree) in
        if negb (Z.land (flag tree) TREE_ONLY_DUPS =? 0) then allocated tree
        else if over_limit tree ks then u64 size else u64 (allocated tree + size)
    | _ => allocated tree
    end.
Proof.
  unfold tree_insert, over_limit. cbn -[u32 u64 Z.land Z.mul Z.add Z.eqb Z.gtb rb_insert].
  destruct (tree_find _ _ _ _) as [[|l k' n c r] path]; [|by case_match; intros [= <- <- <-]].
  destruct (negb _) eqn:Ed; [by intros [= <- <- <-]|]. destruct (_ && _ && _).
  - rewrite Z.eqb_refl, andb_false_r. cbn -[u32 u64 Z.land]. by destruct alloc_ok; intros [= <- <- <-].
  - destruct alloc_ok; cbn [negb]; [|by intros [= <- <- <-]]. destruct (rb_insert _ path); [|done].
    by intros [= <- <- <-].
Qed.

Lemma equal_nil_find k tree :
  tree_wf compare tree ->
  match tree_find compare k (root tree) [] with
  | (null_element, _) => equal compare k (elements (root tree)) = []
  | _ => equal compare k (elements (root tree)) <> []
  end.
Proof.
  intros [Hv Hs _]. pose proof (tree_find_root compare k (root tree) Hv Hs) as H.
  destruct (tree_find compare k (root tree) []) as [[|l k' n c r] path]; by destruct H as (_ & _ & _ & -> & _).
Qed.

Lemma over_limit_list tree T ks :
  stands_for tree T ->
  over_limit tree ks =
  negb (limit =? 0) && negb (length (keys T) =? 0)%nat && (u64 (memory T + memory_of ks) >? limit).
Proof.
  intros [Hwf Hk Hm _ Hsz Hl _ _]. unfold over_limit, memory_of. rewrite Hsz, Hm, Hl.
  rewrite (wf_count _ _ Hwf), Hk. by destruct (length (keys T)).
Qed.

Lemma free_tree_all tree T : stands_for tree T -> snd (free_tree tree) = free_all (keys T).
Proof.
  intros [_ Hk _ _ _ Hl Hd Hf]. unfold free_tree, free_all. cbn [snd].
  by rewrite Hd, Hf, Hl, delete_tree_element_elements, Hk.
Qed.

Lemma insert_stands_for alloc_ok tree T k ks :
  stands_for tree T -> Z.of_nat (length (keys T)) + 1 < 2 ^ 32 ->
  exists tree', tree_insert compare alloc_ok tree k ks =
    Some ((list_insert alloc_ok T k ks).1.1, tree', (list_insert alloc_ok T k ks).2) /\
    stands_for tree' (list_insert alloc_ok T k ks).1.2.
Proof.
  intros Hsf Hsmall. pose proof Hsf as [Hwf Hk Hm Hfl Hsz Hl Hd Hfr].
  destruct (tree_insert_ok compare alloc_ok tree k ks Hwf) as (res & tree' & freed & E & Hwf' & Hspec);
    [unfold tree_content; by rewrite Hk|].
  destruct (tree_insert_fields _ _ _ _ _ _ _ E) as [(F1 & F2 & F3 & F4 & F5) Fa].
  exists tree'. rewrite E. unfold insert_spec, tree_content in Hspec.
  rewrite (over_limit_list _ _ _ Hsf), (free_tree_all _ _ Hsf) in Hspec.
  rewrite (over_limit_list _ _ _ Hsf) in Fa. pose proof (equal_nil_find k tree Hwf) as Hf.
  rewrite Hk, Hfl in *. unfold list_insert. fold (memory_of ks) in *.
  rewrite Hsz in Fa. fold (memory_of ks) in Fa.
  assert (Hset : forall L m, elements (root tree') = L -> allocated tree' = m ->
    stands_for tree' (mk_sorted L m (the_flag T))) by (intros; split; cbn; try done; by etrans).
  destruct (tree_find compare k (root tree) []) as [[|l k' n c r] path].
  - rewrite Hf in *. destruct (negb (Z.land _ _ =? 0)).
    { injection Hspec as -> Hc ->. split; [done|]. destruct T. apply Hset; cbn in *; congruence. }
    destruct (negb (limit =? 0) && _ && _), alloc_ok; injection Hspec as -> Hc ->;
      (split; [done|]; apply Hset; [done|by rewrite Fa, ?Hm]).
  - destruct (equal compare k (keys T)) as [|[k1 n1] E']; [done|]. destruct (negb (Z.land _ _ =? 0));
      injection Hspec as -> Hc ->; (split; [done|]); [|apply Hset; [done|by rewrite Fa, Hm]].
    destruct T. apply Hset; cbn in *; congruence.
Qed.

Lemma tree_delete_fields tree k ks res tree' freed :
  tree_delete compare tree k ks = Some (res, tree', freed) ->
  (flag tree' = flag tree /\ size_of_element tree' = size_of_element tree /\
   memory_limit tree' = memory_limit tree /\ with_delete tree' = with_delete tree /\ has_free tree' = has_free tree) /\
  (res = 0 -> allocated tree' = u64 (allocated tree - (sizeof_TREE_ELEMENT + size_of_element tree + ks))).
Proof.
  unfold tree_delete. destruct (negb _); [by intros [= <- <- <-]|].
  destruct (tree_find _ _ _ _) as [[|l k' n c r] path]; [by intros [= <- <- <-]|].
  destruct (unlink_element l c r path) as [[x path'] rc]. destruct (if bool_decide _ then _ else _); [|done].
  by intros [= <- <- <-].
Qed.

Lemma delete_stands_for tree T k ks :
  stands_for tree T -> Z.of_nat (length (keys T)) + 1 < 2 ^ 32 ->
  exists tree', tree_delete compare tree k ks =
    Some ((list_delete T k ks).1.1, tree', (list_delete T k ks).2) /\ stands_for tree' (list_delete T k ks).1.2.
Proof.
  intros Hsf Hsmall. pose proof Hsf as [Hwf Hk Hm Hfl Hsz Hl Hd Hfr]. unfold list_delete.
  destruct deletes eqn:Edel.
  - pose proof (tree_delete_ok compare tree k ks Hwf Hd) as H. unfold tree_content in H. rewrite Hk in H.
    destruct (equal compare k (keys T)) as [|[k' n] E']; [rewrite H by lia; by exists tree|].
    destruct H as (tree' & E & Hwf' & Hc); [lia|].
    destruct (tree_delete_fields _ _ _ _ _ _ E) as [(F1 & F2 & F3 & F4 & F5) Fa].
    exists tree'. rewrite E, Hfr. split; [done|]. split; cbn; try congruence. by rewrite Fa, Hm, Hsz.
  - assert (E : tree_delete compare tree k ks = Some (1, tree, [])) by (unfold tree_delete; by rewrite Hd).
    exists tree. rewrite E. by destruct (equal compare k (keys T)) as [|[k' n] E'].
Qed.

Lemma run_tree_op_spec tree T op :
  stands_for tree T -> Z.of_nat (length (keys T)) + 1 < 2 ^ 32 ->
  exists tree', run_tree_op tree op = Some ((list_op T op).1.1, tree', (list_op T op).2) /\
    stands_for tree' (list_op T op).1.2.
Proof.
  intros Hsf Hsmall. destruct op as [ok k ks|k ks|k|f]; cbn [run_tree_op list_op].
  - destruct (insert_stands_for ok tree T k ks Hsf Hsmall) as (tree' & -> & H). exists tree'.
    by destruct (list_insert ok T k ks) as [[] ?].
  - destruct (delete_stands_for tree T k ks Hsf Hsmall) as (tree' & -> & H). exists tree'.
    by destruct (list_delete T k ks) as [[] ?].
  - exists tree. rewrite tree_search_spec by apply Hsf. by rewrite (sf_keys _ _ Hsf).
  - exists (set_flag tree f). split; [done|]. destruct Hsf as [[? ? ?]]. by split.
Qed.

Lemma run_tree_spec ops : forall tree T,
  stands_for tree T -> Z.of_nat (length (keys T)) + Z.of_nat (length ops) < 2 ^ 32 ->
  exists tree', run_tree tree ops = Some ((run_list T ops).1, tree') /\ stands_for tree' (run_list T ops).2.
Proof.
  induction ops as [|op ops IH]; intros tree T Hsf Hlen; [by exists tree|]. cbn [length] in Hlen.
  destruct (run_tree_op_spec tree T op Hsf) as (tree1 & E & Hsf1); [lia|].
  pose proof (list_op_length T op) as Hl. cbn [run_tree run_list]. rewrite E.
  destruct (list_op T op) as [[answer T1] freed]. cbn [fst snd] in *. cbn [mbind option_bind].
  destruct (IH tree1 T1 Hsf1) as (tree2 & E2 & Hsf2); [lia|]. exists tree2. rewrite E2.
  by destruct (run_list T1 ops).
Qed.
End Reference.

(** C7: Refinement: any sequence of inserts, deletes, searches and changes of the
    flags on a new tree of any size, memory limit and free function, where any
    allocation may fail, gives the answers and the calls of the free function
    of the same sequence on a sorted list: an insert of a new key that passes
    the memory limit first empties the tree, one whose allocation fails adds
    nothing but is counted in the memory, and a tree without deletes refuses
    them.  The tree stays sorted, red-black and with these elements, for
    sequences shorter than 2^32. *)
Theorem tree_refines_sorted_list size limit free deletes ops :
  Z.of_nat (length ops) < 2 ^ 32 ->
  let new := init_tree size limit free deletes in
  let '(answers, T) := run_list (size_of_element new) limit deletes free (mk_sorted [] 0 0) ops in
  exists tree, run_tree new ops = Some (answers, tree) /\ tree_wf compare tree /\
    elements (root tree) = keys T /\ allocated tree = memory T.
Proof.
  intros Hlen new.
  destruct (run_tree_spec (size_of_element new) limit deletes free ops new (mk_sorted [] 0 0)) as (tree & E & Hsf);
    [split; try done; apply init_tree_wf|cbn; lia|].
  destruct (run_list _ _ _ _ _ ops) as [answers T]. exists tree. by destruct Hsf.
Qed.

(** The check of the debug build accepts the trees. *)
Lemma test_rb_tree_valid n (t : TREE_ELEMENT K) : rb n t -> test_rb_tree t = Z.of_nat n.
Proof.
  revert n. induction t as [|l IHl k c [] r IHr]; intros n; cbn [rb test_rb_tree].
  - by intros ->.
  - intros (Hl & Hr & Hl' & Hr'). rewrite Hl, Hr, (IHl n), (IHr n) by done.
    change (bool_decide (BLACK = RED)) with false. change (bool_decide (RED = BLACK)) with false.
    rewrite andb_false_r, Z.eqb_refl. destruct (Z.geb_spec (Z.of_nat n) 0); cbn -[Z.of_nat Z.add]; lia.
  - destruct n as [|n]; [done|]. intros [Hl Hr]. rewrite (IHl n), (IHr n) by done.
    change (bool_decide (BLACK = RED)) with false. change (bool_decide (BLACK = BLACK)) with true.
    rewrite Z.eqb_refl. destruct (Z.geb_spec (Z.of_nat n) 0); cbn -[Z.of_nat Z.add]; lia.
Qed.
End History.

Module TreeExamples.

Definition cmpZ (a b : Z) : Z := a - b.
#[export] Instance cmpZ_order : TreeOrder cmpZ.
Proof. unfold cmpZ. split; intros; lia. Qed.

Definition ins (k : Z) : tree_op (K:=Z) := Insert true k 0.
Definition del (k : Z) : tree_op (K:=Z) := Delete k 0.
Definition ops1 : list tree_op := [ins 5; ins 2; ins 9; ins 2; ins 7; ins 6; del 5; ins 1].

Definition tree_after (ops : list tree_op) : TREE Z :=
  match run_tree cmpZ (init_tree 8 0 false true) ops with Some (_, t) => t | None => init_tree 8 0 false true end.

(** The tree of these operations. *)
Definition tree1 : TREE Z := tree_after ops1.

(** A tree with memory for two elements: the third insert empties it, and the
    memory of this element, which is not allocated, is counted all the same, so
    that the next but one empties the tree again. *)
Definition ops2 : list tree_op :=
  [ins 5; ins 2; Insert false 9 0; Search 2; ins 7; del 7; ins 6; ins 4; SetFlag TREE_NO_DUPS; ins 4; Insert false 8 0].

Lemma tree_refines_sorted_list_witness :
  exists tree : TREE Z, run_tree cmpZ (init_tree 8 96 true true) ops2 =
    Some ([(Inserted INSERTED, []); (Inserted INSERTED, []); (Inserted INSERT_NULL, [free_free 2; free_free 5]);
           (Found None, []); (Inserted INSERTED, []); (Deleted 0, [free_free 7]); (Inserted INSERTED, []);
           (Inserted INSERTED, [free_free 6]); (Set_, []); (Inserted INSERT_NULL, []);
           (Inserted INSERT_NULL, [])], tree) /\
    tree_wf cmpZ tree /\ elements (root tree) = [(4, 1)] /\ allocated tree = 80.
Proof. refine (tree_refines_sorted_list cmpZ 8 96 true true ops2 _). vm_compute. reflexivity. Defined.

Lemma tree1_wf : tree_wf cmpZ tree1.
Proof.
  split.
  - split; [by vm_compute|]. exists 2%nat. vm_compute. tauto.
  - vm_compute. repeat constructor.
  - by vm_compute.
Defined.

Lemma tree_insert_correct_witness :
  exists res tree' freed, tree_insert cmpZ true tree1 3 0 = Some (res, tree', freed) /\ tree_wf cmpZ tree' /\
    (res, tree_content tree', freed) = (INSERTED, [(1, 1); (2, 2); (3, 1); (6, 1); (7, 1); (9, 1)], []).
Proof. refine (tree_insert_correct cmpZ true tree1 3 0 tree1_wf _). vm_compute. reflexivity. Defined.

Lemma tree_delete_correct_witness :
  exists tree', tree_delete cmpZ tree1 6 0 = Some (0, tree', []) /\ tree_wf cmpZ tree' /\
    tree_content tree' = [(1, 1); (2, 2); (7, 1); (9, 1)].
Proof. refine (tree_delete_correct cmpZ tree1 6 0 tree1_wf eq_refl _). vm_compute. reflexivity. Defined.

Lemma parents_long_enough_witness :
  let '(t, path) := tree_find cmpZ 6 (root tree1) [] in Z.of_nat (length path) + 1 < MAX_TREE_HEIGHT.
Proof.
  pose proof (parents_long_enough cmpZ tree1 6 tree1_wf) as H.
  destruct (tree_find cmpZ 6 (root tree1) []) as [t path].
  destruct H as [H _]; [vm_compute; reflexivity|exact H].
Defined.

(** Keys that agree with the searched one in the tens. *)
Definition tens (k : Z) (a : Z) : Z := a / 10 - k.
Definition tree2 : TREE Z := tree_after [ins 11; ins 25; ins 20; ins 37; ins 28; ins 41].

Lemma tree_search_key_correct_witness :
  elements (root tree2) = [(11, 1); (20, 1); (25, 1); (28, 1); (37, 1); (41, 1)] /\
  denotes (root tree2) (tree_search_key (tens 2) tree2 HA_READ_PREFIX_LAST)
    (Some ([(11, 1); (20, 1); (25, 1)], (28, 1), [(37, 1); (41, 1)])).
Proof.
  split; [by vm_compute|].
  refine (tree_search_key_correct (tens 2) tree2 HA_READ_PREFIX_LAST _). vm_compute. repeat constructor; discriminate.
Defined.

(** An allocation that fails is still counted in [allocated]. *)
Lemma failed_insert_counted :
  exists tree', tree_insert cmpZ false tree1 3 0 = Some (INSERT_NULL, tree', []) /\
    tree_content tree' = tree_content tree1 /\ allocated tree' = allocated tree1 + 32.
Proof. eexists. split; [vm_compute; reflexivity|]. by vm_compute. Qed.

End TreeExamples.
