(* ===== verification/Base64.v ===== *)
(** * Base64 (mysys/base64.c)

    The encoder behind TO_BASE64 and BINLOG statements, with a newline every 76
    characters, and the stream decoder that skips white space.  Characters and
    bytes are their codes. *)
From Stdlib Require Import ZArith Lia List Bool.
From stdpp Require Import base tactics list.
From S2P Require Import Prelude.

Open Scope Z_scope.

Definition MY_BASE64_DECODE_ALLOW_MULTIPLE_CHUNKS : Z := 1.

Definition range (a n : nat) : list Z := map Z.of_nat (seq a n).

Definition base64_table : list Z := range 65 26 ++ range 97 26 ++ range 48 10 ++ [43; 47].

Definition table_char (v : Z) : Z := nth (Z.to_nat v) base64_table 0.

(** -2: a space, -1: not a character of the encoding. *)
Definition from_base64_table : list Z :=
  [
   (-1); (-1); (-1); (-1); (-1); (-1); (-1); (-1); (-1); (-2); (-2); (-2); (-2); (-2); (-1); (-1);
   (-1); (-1); (-1); (-1); (-1); (-1); (-1); (-1); (-1); (-1); (-1); (-1); (-1); (-1); (-1); (-1);
   (-2); (-1); (-1); (-1); (-1); (-1); (-1); (-1); (-1); (-1); (-1); 62; (-1); (-1); (-1); 63;
   52; 53; 54; 55; 56; 57; 58; 59; 60; 61; (-1); (-1); (-1); (-1); (-1); (-1);
   (-1); 0; 1; 2; 3; 4; 5; 6; 7; 8; 9; 10; 11; 12; 13; 14;
   15; 16; 17; 18; 19; 20; 21; 22; 23; 24; 25; (-1); (-1); (-1); (-1); (-1);
   (-1); 26; 27; 28; 29; 30; 31; 32; 33; 34; 35; 36; 37; 38; 39; 40;
   41; 42; 43; 44; 45; 46; 47; 48; 49; 50; 51; (-1); (-1); (-1); (-1); (-1);
   (-1); (-1); (-1); (-1); (-1); (-1); (-1); (-1); (-1); (-1); (-1); (-1); (-1); (-1); (-1); (-1);
   (-1); (-1); (-1); (-1); (-1); (-1); (-1); (-1); (-1); (-1); (-1); (-1); (-1); (-1); (-1); (-1);
   (-2); (-1); (-1); (-1); (-1); (-1); (-1); (-1); (-1); (-1); (-1); (-1); (-1); (-1); (-1); (-1);
   (-1); (-1); (-1); (-1); (-1); (-1); (-1); (-1); (-1); (-1); (-1); (-1); (-1); (-1); (-1); (-1);
   (-1); (-1); (-1); (-1); (-1); (-1); (-1); (-1); (-1); (-1); (-1); (-1); (-1); (-1); (-1); (-1);
   (-1); (-1); (-1); (-1); (-1); (-1); (-1); (-1); (-1); (-1); (-1); (-1); (-1); (-1); (-1); (-1);
   (-1); (-1); (-1); (-1); (-1); (-1); (-1); (-1); (-1); (-1); (-1); (-1); (-1); (-1); (-1); (-1);
   (-1); (-1); (-1); (-1); (-1); (-1); (-1); (-1); (-1); (-1); (-1); (-1); (-1); (-1); (-1); (-1)].

Definition from_base64 (ch : Z) : Z := nth (Z.to_nat ch) from_base64_table (-1).

(** ** Lengths *)

Definition base64_encode_max_arg_length : Z := 1589695686.

(** [int] arithmetic; [None] on signed overflow. *)
Definition int_ok (v : Z) : option Z := if (- 2 ^ 31 <=? v) && (v <? 2 ^ 31) then Some v else None.

Lemma int_ok_in v : - 2 ^ 31 <= v < 2 ^ 31 -> int_ok v = Some v.
Proof. intros Hv. unfold int_ok. rewrite (proj2 (Z.leb_le _ _)), (proj2 (Z.ltb_lt _ _)) by lia. done. Qed.

Definition base64_needed_encoded_length (length_of_data : Z) : option Z :=
  n ← int_ok (length_of_data + 2);
  n ← int_ok (Z.quot n 3 * 4);
  m ← int_ok (n + Z.quot (n - 1) 76);
  int_ok (m + 1).

Definition base64_decode_max_arg_length : Z := 2147483647.

(** The cast to [int] is applied before the division. *)
Definition base64_needed_decoded_length (length_of_encoded_data : Z) : option Z :=
  int_ok (Z.quot (s32 (length_of_encoded_data + 3)) 4 * 3).

(** ** Encoding *)

(** The four characters of a group of bytes; [n] of them are data. *)
Definition encode_group (a b c : Z) (n : nat) : list Z :=
  let v := Z.shiftl (Z.shiftl a 8 + b) 8 + c in
  [table_char (Z.land (Z.shiftr v 18) 63);
   table_char (Z.land (Z.shiftr v 12) 63);
   (if (n <=? 1)%nat then 61 else table_char (Z.land (Z.shiftr v 6) 63));
   (if (n <=? 2)%nat then 61 else table_char (Z.land v 63))].

Fixpoint base64_encode_loop (len : Z) (src : list Z) : list Z :=
  match src with
  | [] => []
  | a :: src =>
      let nl := if len =? 76 then [10] else [] in
      let len := (if len =? 76 then 0 else len) + 4 in
      match src with
      | [] => nl ++ encode_group a 0 0 1
      | [b] => nl ++ encode_group a b 0 2
      | b :: c :: src => nl ++ encode_group a b c 3 ++ base64_encode_loop len src
      end
  end.

(** Without the terminating NUL. *)
Definition base64_encode (src : list Z) : list Z := base64_encode_loop 0 src.

(** ** Decoding *)

(** [src]: the characters from the current position to the end. *)
Record MY_BASE64_DECODER := mk_decoder {
  src : list Z;
  acc : Z;
  error : bool;
  state : Z;
  mark : Z
}.

Definition set_src (d : MY_BASE64_DECODER) (s : list Z) : MY_BASE64_DECODER :=
  mk_decoder s (acc d) (error d) (state d) (mark d).
Definition set_error (d : MY_BASE64_DECODER) (e : bool) : MY_BASE64_DECODER :=
  mk_decoder (src d) (acc d) e (state d) (mark d).
Definition set_state (d : MY_BASE64_DECODER) (s : Z) : MY_BASE64_DECODER :=
  mk_decoder (src d) (acc d) (error d) s (mark d).

Fixpoint skip_spaces (s : list Z) : list Z :=
  match s with
  | ch :: s' => if from_base64 ch =? -2 then skip_spaces s' else s
  | [] => []
  end.

(** True: the end of the input. *)
Definition my_base64_decoder_skip_spaces (d : MY_BASE64_DECODER) : bool * MY_BASE64_DECODER :=
  let d := set_src d (skip_spaces (src d)) in
  match src d with
  | _ :: _ => (false, d)
  | [] => (true, if state d >? 0 then set_error d true else d)
  end.

(** The next character [ch] and what follows it. *)
Definition my_base64_add (d : MY_BASE64_DECODER) (ch : Z) (rest : list Z) : bool * MY_BASE64_DECODER :=
  let c := u32 (Z.shiftl (acc d) 6) in
  let res := from_base64 ch in
  if res <? 0 then (true, mk_decoder rest c true (state d) (mark d))
  else (false, mk_decoder rest (u32 (c + res)) (error d) (state d) (mark d)).

Definition my_base64_decoder_getch (d : MY_BASE64_DECODER) : bool * MY_BASE64_DECODER :=
  let '(eof, d) := my_base64_decoder_skip_spaces d in
  if eof then (true, d)
  else
    match src d with
    | [] => (true, d)
    | ch :: rest =>
        let '(bad, d) := my_base64_add d ch rest in
        if negb bad then
          if negb (mark d =? 0) then (true, set_src (set_error d true) (ch :: rest))
          else (false, set_state d (state d + 1))
        else if (state d =? 0) || (state d =? 1) then (true, set_src d (ch :: rest))
        else if (state d =? 2) || (state d =? 3) then
          if ch =? 61 then
            (false, mk_decoder (src d) (acc d) false (state d + 1) (mark d + 1))
          else (true, set_src d (ch :: rest))
        else (true, d)
    end.

(** Four characters; false when one of them was not there. *)
Definition getch4 (d : MY_BASE64_DECODER) : bool * MY_BASE64_DECODER :=
  let '(e, d) := my_base64_decoder_getch d in
  if e then (true, d) else
  let '(e, d) := my_base64_decoder_getch d in
  if e then (true, d) else
  let '(e, d) := my_base64_decoder_getch d in
  if e then (true, d) else my_base64_decoder_getch d.

Definition acc_bytes (d : MY_BASE64_DECODER) : list Z :=
  [Z.land (Z.shiftr (acc d) 16) 255; Z.land (Z.shiftr (acc d) 8) 255; Z.land (acc d) 255].

(** [out] are the bytes up to [d]; [high] the largest number ever written. *)
Fixpoint decode_loop (fuel : nat) (flags : Z) (d : MY_BASE64_DECODER) (out : list Z) (high : nat)
  : option (MY_BASE64_DECODER * list Z * nat) :=
  match fuel with
  | O => None
  | S fuel =>
      let '(stop, d) := getch4 (mk_decoder (src d) 0 (error d) 0 (mark d)) in
      if stop then Some (d, out, high)
      else
        let out' := out ++ acc_bytes d in
        let high := Nat.max high (length out') in
        if mark d =? 0 then decode_loop fuel flags d out' high
        else
          let out' := take (length out' - Z.to_nat (mark d)) out' in
          if Z.land flags MY_BASE64_DECODE_ALLOW_MULTIPLE_CHUNKS =? 0 then Some (d, out', high)
          else decode_loop fuel flags (mk_decoder (src d) (acc d) (error d) (state d) 0) out' high
  end.

(** The result ([None] for -1), the rest of the input at [*end_ptr] and the
    number of bytes of [dst] that were used. *)
Definition base64_decode (s : list Z) (flags : Z) : option (option (list Z) * list Z * nat) :=
  '(d, out, high) ← decode_loop (S (length s)) flags (mk_decoder s 0 false 0 0) [] 0;
  let '(eof, d) := my_base64_decoder_skip_spaces (set_state d 0) in
  let err := error d || negb eof in
  Some (if err then None else Some out, src d, high).

(** ** Round trip *)

Definition is_byte (b : Z) : Prop := 0 <= b < 256.

Lemma from_base64_char v : 0 <= v < 64 -> from_base64 (table_char v) = v.
Proof.
  intros Hv.
  assert (H : forallb (fun n => from_base64 (table_char (Z.of_nat n)) =? Z.of_nat n) (seq 0 64) = true)
    by (vm_compute; reflexivity).
  rewrite forallb_forall in H. specialize (H (Z.to_nat v)). rewrite Z2Nat.id in H by lia.
  apply Z.eqb_eq, H, in_seq. lia.
Qed.

Lemma skip_char v s : 0 <= v < 64 -> skip_spaces (table_char v :: s) = table_char v :: s.
Proof. intros Hv. cbn [skip_spaces]. rewrite from_base64_char by done. by destruct (Z.eqb_spec v (-2)); [lia|]. Qed.

(** A character of the encoding. *)
Lemma getch_char v s c e st :
  0 <= v < 64 -> 0 <= c < 2 ^ 26 ->
  my_base64_decoder_getch (mk_decoder (table_char v :: s) c e st 0) =
  (false, mk_decoder s (c * 64 + v) e (st + 1) 0).
Proof.
  intros Hv Hc. unfold my_base64_decoder_getch, my_base64_decoder_skip_spaces. cbn [src set_src].
  rewrite skip_char by done. unfold set_src. cbn [src acc error state mark]. unfold my_base64_add.
  cbn [src acc error state mark]. rewrite from_base64_char by done.
  destruct (Z.ltb_spec v 0); [lia|]. cbn -[u32 Z.shiftl Z.mul Z.add].
  rewrite Z.shiftl_mul_pow2 by lia. unfold u32. rewrite (Z.mod_small (c * 2 ^ 6)), Z.mod_small by lia. done.
Qed.

(** A pad character after two or three characters. *)
Lemma getch_pad s c st m :
  st = 2 \/ st = 3 -> 0 <= c < 2 ^ 26 ->
  my_base64_decoder_getch (mk_decoder (61 :: s) c false st m) =
  (false, mk_decoder s (c * 64) false (st + 1) (m + 1)).
Proof.
  intros Hst Hc.
  assert (Hu : u32 (Z.shiftl c 6) = c * 64).
  { rewrite Z.shiftl_mul_pow2 by lia. unfold u32. rewrite Z.mod_small; lia. }
  assert (Hp : from_base64 61 = -1) by (vm_compute; reflexivity).
  unfold my_base64_decoder_getch, my_base64_decoder_skip_spaces. unfold my_base64_add.
  cbn [src set_src skip_spaces]. rewrite Hp. cbn [Z.eqb Pos.eqb src].
  destruct Hst as [-> | ->]; cbn -[u32 Z.shiftl Z.mul Z.add from_base64]; by rewrite Hu.
Qed.

Lemma getch_newline s c e st m :
  my_base64_decoder_getch (mk_decoder (10 :: s) c e st m) = my_base64_decoder_getch (mk_decoder s c e st m).
Proof.
  unfold my_base64_decoder_getch, my_base64_decoder_skip_spaces. cbn [src set_src skip_spaces].
  assert (Hn : from_base64 10 = -2) by (vm_compute; reflexivity). by rewrite Hn.
Qed.

Lemma getch4_newline (b : bool) s c e m :
  getch4 (mk_decoder ((if b then [10] else []) ++ s) c e 0 m) = getch4 (mk_decoder s c e 0 m).
Proof. destruct b; [|done]. unfold getch4. cbn [app]. by rewrite getch_newline. Qed.

Section Group.
Context (a b c : Z) (Ha : is_byte a) (Hb : is_byte b) (Hc : is_byte c).

Definition group_value : Z := a * 65536 + b * 256 + c.
Definition sextet (i : Z) : Z := group_value / 2 ^ i mod 64.

Lemma sextet_range i : 0 <= sextet i < 64.
Proof. apply Z.mod_pos_bound. lia. Qed.

Lemma encode_group_chars n :
  encode_group a b c n =
  [table_char (sextet 18); table_char (sextet 12);
   (if (n <=? 1)%nat then 61 else table_char (sextet 6));
   (if (n <=? 2)%nat then 61 else table_char (sextet 0))].
Proof.
  unfold encode_group, sextet, group_value. cbn zeta.
  change 63 with (Z.ones 6). rewrite !Z.land_ones, !Z.shiftr_div_pow2, !Z.shiftl_mul_pow2 by lia.
  change (2 ^ 0) with 1. rewrite Z.div_1_r. replace ((a * 2 ^ 8 + b) * 2 ^ 8 + c) with (a * 65536 + b * 256 + c) by lia.
  done.
Qed.

Lemma group_value_range : 0 <= group_value < 2 ^ 24.
Proof. unfold group_value, is_byte in *. lia. Qed.

Lemma sextets_value :
  ((sextet 18 * 64 + sextet 12) * 64 + sextet 6) * 64 + sextet 0 = group_value.
Proof.
  unfold sextet. pose proof group_value_range as Hg. generalize dependent group_value. intros g Hg.
  change (2 ^ 18) with 262144. change (2 ^ 12) with 4096. change (2 ^ 6) with 64. change (2 ^ 0) with 1.
  change (2 ^ 24) with 16777216 in Hg. Z.to_euclidean_division_equations. lia.
Qed.

Lemma group_bytes e st m s :
  acc_bytes (mk_decoder s group_value e st m) = [a; b; c].
Proof.
  unfold acc_bytes, group_value, is_byte in *. cbn [acc]. change 255 with (Z.ones 8).
  rewrite !Z.land_ones, !Z.shiftr_div_pow2 by lia. change (2 ^ 16) with 65536. change (2 ^ 8) with 256.
  repeat f_equal; Z.to_euclidean_division_equations; lia.
Qed.

(** The decoder on a whole group. *)
Lemma getch4_group s :
  getch4 (mk_decoder (encode_group a b c 3 ++ s) 0 false 0 0) = (false, mk_decoder s group_value false 4 0).
Proof.
  pose proof (sextet_range 18). pose proof (sextet_range 12). pose proof (sextet_range 6). pose proof (sextet_range 0).
  rewrite encode_group_chars. unfold getch4. cbn [app Nat.leb]. rewrite !getch_char by lia.
  rewrite <- sextets_value. done.
Qed.
End Group.

(** The last group of one and of two bytes. *)
Lemma getch4_one a s :
  is_byte a ->
  getch4 (mk_decoder (encode_group a 0 0 1 ++ s) 0 false 0 0) = (false, mk_decoder s (group_value a 0 0) false 4 2).
Proof.
  intros Ha. assert (H0 : is_byte 0) by (unfold is_byte; lia).
  pose proof (sextet_range a 0 0 18). pose proof (sextet_range a 0 0 12).
  assert (E : sextet a 0 0 6 = 0 /\ sextet a 0 0 0 = 0).
  { unfold sextet, group_value. change (2 ^ 6) with 64. change (2 ^ 0) with 1. Z.to_euclidean_division_equations. lia. }
  rewrite encode_group_chars. unfold getch4. cbn [app Nat.leb]. rewrite !getch_char by lia. rewrite !getch_pad by lia.
  rewrite <- (sextets_value a 0 0) by done. destruct E as [-> ->]. repeat f_equal. lia.
Qed.

Lemma getch4_two a b s :
  is_byte a -> is_byte b ->
  getch4 (mk_decoder (encode_group a b 0 2 ++ s) 0 false 0 0) = (false, mk_decoder s (group_value a b 0) false 4 1).
Proof.
  intros Ha Hb. assert (H0 : is_byte 0) by (unfold is_byte; lia).
  pose proof (sextet_range a b 0 18). pose proof (sextet_range a b 0 12). pose proof (sextet_range a b 0 6).
  assert (E : sextet a b 0 0 = 0).
  { unfold sextet, group_value. change (2 ^ 0) with 1. Z.to_euclidean_division_equations. lia. }
  rewrite encode_group_chars. unfold getch4. cbn [app Nat.leb]. rewrite !getch_char by lia. rewrite getch_pad by lia.
  rewrite <- (sextets_value a b 0) by done. rewrite E. repeat f_equal. lia.
Qed.

Lemma getch4_end c e st : getch4 (mk_decoder [] c e 0 st) = (true, mk_decoder [] c e 0 st).
Proof. done. Qed.

(** At the end of the input the loop ends. *)
Lemma decode_loop_end fuel flags c st m out high :
  decode_loop (S fuel) flags (mk_decoder [] c false st m) out high = Some (mk_decoder [] 0 false 0 m, out, high).
Proof. done. Qed.

Lemma decode_encoded n flags bytes len out high fuel c st :
  (length bytes <= n)%nat -> Forall is_byte bytes -> (length bytes < fuel)%nat ->
  exists d high', decode_loop fuel flags (mk_decoder (base64_encode_loop len bytes) c false st 0) out high =
    Some (d, out ++ bytes, high') /\ error d = false /\ src d = [].
Proof.
  revert bytes len out high fuel c st. induction n as [n IH] using lt_wf_ind.
  intros bytes len out high fuel c st Hn HF Hfuel. destruct fuel as [|fuel]; [lia|].
  destruct bytes as [|x bytes]; [eexists _, _; split; [rewrite app_nil_r; apply decode_loop_end|done]|].
  inversion_clear HF as [|? ? Hx HF']. cbn [base64_encode_loop decode_loop src acc error state mark]. cbn zeta.
  destruct bytes as [|y bytes].
  { rewrite getch4_newline. rewrite <- (app_nil_r (encode_group x 0 0 1)), getch4_one by done.
    rewrite group_bytes by (unfold is_byte in *; lia). cbn [mark Z.eqb]. destruct fuel as [|fuel]; [cbn in Hfuel; lia|].
    rewrite length_app. cbn [length]. replace (length out + 3 - Z.to_nat 2)%nat with (length (out ++ [x])) by (rewrite length_app; cbn; lia).
    change (out ++ [x; 0; 0]) with (out ++ [x] ++ [0; 0]). rewrite app_assoc, take_app_length.
    destruct (_ =? 0); [by eexists _, _|]. rewrite decode_loop_end. by eexists _, _. }
  inversion_clear HF' as [|? ? Hy HF'']. destruct bytes as [|z bytes].
  { rewrite getch4_newline. rewrite <- (app_nil_r (encode_group x y 0 2)), getch4_two by done.
    rewrite group_bytes by (unfold is_byte in *; lia). cbn [mark Z.eqb]. destruct fuel as [|fuel]; [cbn in Hfuel; lia|].
    rewrite length_app. cbn [length]. replace (length out + 3 - Z.to_nat 1)%nat with (length (out ++ [x; y])) by (rewrite length_app; cbn; lia).
    change (out ++ [x; y; 0]) with (out ++ [x; y] ++ [0]). rewrite app_assoc, take_app_length.
    destruct (_ =? 0); [by eexists _, _|]. rewrite decode_loop_end. by eexists _, _. }
  inversion_clear HF'' as [|? ? Hz HF3]. rewrite getch4_newline, getch4_group, group_bytes by done. cbn [mark Z.eqb].
  destruct (IH (length bytes)) with (bytes := bytes) (len := (if len =? 76 then 0 else len) + 4)
    (out := out ++ [x; y; z]) (high := Nat.max high (length (out ++ [x; y; z]))) (fuel := fuel)
    (c := group_value x y z) (st := 4) as (d & high' & E & He & Hs); try done; [cbn in Hn; lia|cbn in Hfuel; lia|].
  exists d, high'. rewrite E, <- app_assoc. done.
Qed.

Lemma encode_loop_length n bytes len j :
  (length bytes <= n)%nat -> len = 4 * j -> 0 <= j <= 19 ->
  Z.of_nat (length (base64_encode_loop len bytes)) =
  let g := (Z.of_nat (length bytes) + 2) / 3 in 4 * g + (if g =? 0 then 0 else (j + g - 1) / 19).
Proof.
  revert bytes len j. induction n as [n IH] using lt_wf_ind. intros bytes len j Hn -> Hj.
  destruct bytes as [|x bytes]; [done|]. cbn [base64_encode_loop]. cbn zeta.
  assert (Hnl : Z.of_nat (length (if 4 * j =? 76 then [10] else [])) = j / 19).
  { destruct (Z.eqb_spec (4 * j) 76) as [E|E]; cbn [length]; Z.to_euclidean_division_equations; lia. }
  destruct bytes as [|y [|z bytes]]; [rewrite length_app, Nat2Z.inj_add, Hnl; cbn [length encode_group]..|].
  - change ((Z.of_nat 1 + 2) / 3) with 1. cbn [Z.eqb]. rewrite Z.add_simpl_r. lia.
  - change ((Z.of_nat 2 + 2) / 3) with 1. cbn [Z.eqb]. rewrite Z.add_simpl_r. lia.
  - rewrite !length_app, !Nat2Z.inj_add, Hnl. cbn [length encode_group] in *.
    set (j' := (if 4 * j =? 76 then 0 else j) + 1).
    assert (Hj' : 1 <= j' <= 19) by (unfold j'; destruct (Z.eqb_spec (4 * j) 76); lia).
    erewrite (IH (length bytes) ltac:(lia) bytes _ j'); [|lia|unfold j'; by destruct (4 * j =? 76); lia|lia].
    cbn zeta. set (g := (Z.of_nat (length bytes) + 2) / 3).
    assert (Hg : (Z.of_nat (S (S (S (length bytes)))) + 2) / 3 = g + 1 /\ 0 <= g)
      by (unfold g; Z.to_euclidean_division_equations; lia).
    destruct Hg as [-> Hg]. rewrite (proj2 (Z.eqb_neq (g + 1) 0)) by lia.
    unfold j' in *. destruct (Z.eqb_spec (4 * j) 76), (Z.eqb_spec g 0); Z.to_euclidean_division_equations; lia.
Qed.

(** C39: [base64_decode] on what [base64_encode] wrote gives the bytes back, and
    reads to the end. *)
Theorem base64_decode_of_encode bytes flags :
  Forall is_byte bytes ->
  exists high, base64_decode (base64_encode bytes) flags = Some (Some bytes, [], high).
Proof.
  intros HF. unfold base64_decode, base64_encode.
  destruct (decode_encoded (length bytes) flags bytes 0 [] 0 (S (length (base64_encode_loop 0 bytes))) 0 0)
    as (d & high & -> & He & Hs); [done|done| |].
  { pose proof (encode_loop_length (length bytes) bytes 0 0 ltac:(lia) eq_refl ltac:(lia)) as H. cbn zeta in H.
    destruct (Z.eqb_spec ((Z.of_nat (length bytes) + 2) / 3) 0) as [E|E]; Z.to_euclidean_division_equations; lia. }
  exists high. cbn [mbind option_bind]. unfold my_base64_decoder_skip_spaces. cbn [set_src set_state src state].
  rewrite Hs. cbn. by rewrite He.
Qed.

(** The buffer of [base64_needed_encoded_length] bytes holds exactly the
    encoding and its NUL, for every length up to the maximum, and the
    computation does not overflow. *)
Theorem base64_encode_length bytes :
  Z.of_nat (length bytes) <= base64_encode_max_arg_length ->
  base64_needed_encoded_length (Z.of_nat (length bytes)) = Some (Z.of_nat (length (base64_encode bytes)) + 1).
Proof.
  intros Hmax. unfold base64_encode_max_arg_length in Hmax. unfold base64_encode.
  rewrite (encode_loop_length (length bytes) bytes 0 0) by lia. cbn zeta.
  set (n := Z.of_nat (length bytes)) in *. assert (Hn : 0 <= n) by (unfold n; lia). clearbody n.
  unfold base64_needed_encoded_length. rewrite int_ok_in by lia. cbn [mbind option_bind].
  rewrite (Z.quot_div_nonneg (n + 2)) by lia. set (g := (n + 2) / 3).
  assert (Hg : 3 * g <= n + 2 < 3 * g + 3 /\ 0 <= g) by (unfold g; Z.to_euclidean_division_equations; lia). clearbody g.
  rewrite int_ok_in by lia. cbn [mbind option_bind].
  assert (Hq : Z.quot (g * 4 - 1) 76 = if g =? 0 then 0 else (0 + g - 1) / 19).
  { destruct (Z.eqb_spec g 0) as [->|]; [done|]. rewrite Z.quot_div_nonneg by lia. Z.to_euclidean_division_equations. lia. }
  rewrite Hq. assert (Hb : 0 <= (if g =? 0 then 0 else (0 + g - 1) / 19) <= (g - 1) / 19 + 1 /\
    (g <> 0 -> (if g =? 0 then 0 else (0 + g - 1) / 19) = (g - 1) / 19))
    by (destruct (Z.eqb_spec g 0); Z.to_euclidean_division_equations; lia).
  set (m := if g =? 0 then _ else _) in *. clearbody m.
  assert (Hm : m <= 27889397) by (Z.to_euclidean_division_equations; lia).
  rewrite int_ok_in by lia. cbn [mbind option_bind]. rewrite int_ok_in by lia. f_equal. lia.
Qed.

(** ** Every input *)

Lemma skip_spaces_length s : (length (skip_spaces s) <= length s)%nat.
Proof. induction s as [|ch s IH]; cbn [skip_spaces length]; [done|]. destruct (_ =? _); cbn [length]; lia. Qed.

Lemma getch_length d :
  let '(e, d') := my_base64_decoder_getch d in
  (length (src d') <= length (src d))%nat /\ (e = false -> (length (src d') < length (src d))%nat).
Proof.
  unfold my_base64_decoder_getch, my_base64_decoder_skip_spaces. pose proof (skip_spaces_length (src d)) as Hl.
  destruct (skip_spaces (src d)) as [|ch rest] eqn:E; cbn [src set_src].
  - destruct (state _ >? 0); cbn; lia.
  - unfold my_base64_add. cbn [length] in Hl. destruct (from_base64 ch <? 0); cbn -[u32 Z.shiftl].
    + destruct (_ || _); cbn; [lia|]. destruct (_ || _); cbn; [|lia]. destruct (ch =? 61); cbn; lia.
    + destruct (negb _); cbn; lia.
Qed.

Lemma getch4_length d :
  let '(e, d') := getch4 d in e = false -> (length (src d') + 4 <= length (src d))%nat.
Proof.
  unfold getch4. pose proof (getch_length d) as H1. destruct (my_base64_decoder_getch d) as [[] d1]; [done|].
  pose proof (getch_length d1) as H2. destruct (my_base64_decoder_getch d1) as [[] d2]; [done|].
  pose proof (getch_length d2) as H3. destruct (my_base64_decoder_getch d2) as [[] d3]; [done|].
  pose proof (getch_length d3) as H4. destruct (my_base64_decoder_getch d3) as [e d4]. intros ->.
  destruct H1 as [_ H1], H2 as [_ H2], H3 as [_ H3], H4 as [_ H4].
  specialize (H1 eq_refl). specialize (H2 eq_refl). specialize (H3 eq_refl). specialize (H4 eq_refl). lia.
Qed.

Lemma decode_loop_total fuel flags d out high :
  (length (src d) < fuel)%nat ->
  exists d' out' high', decode_loop fuel flags d out high = Some (d', out', high') /\
    (high' <= Nat.max high (length out + 3 * (length (src d) / 4)))%nat.
Proof.
  revert d out high. induction fuel as [|fuel IH]; intros d out high Hf; [lia|]. cbn [decode_loop].
  pose proof (getch4_length (mk_decoder (src d) 0 (error d) 0 (mark d))) as H4.
  destruct (getch4 _) as [stop d1]. destruct stop; [eexists _, _, _; split; [done|lia]|].
  specialize (H4 eq_refl). cbn [src] in H4. cbn zeta.
  assert (Hout : length (out ++ acc_bytes d1) = (length out + 3)%nat) by (by rewrite length_app).
  assert (Hdiv : (3 * (length (src d1) / 4) + 3 <= 3 * (length (src d) / 4))%nat).
  { assert (length (src d1) / 4 + 1 <= length (src d) / 4)%nat; [|lia].
    rewrite <- (Nat.div_add (length (src d1)) 1 4) by lia. apply Nat.Div0.div_le_mono. lia. }
  destruct (mark d1 =? 0).
  - destruct (IH d1 (out ++ acc_bytes d1) (Nat.max high (length (out ++ acc_bytes d1)))) as (d' & out' & high' & E & Hh);
      [lia|]. exists d', out', high'. split; [done|]. lia.
  - set (out1 := take _ _). assert (Ho1 : (length out1 <= length out + 3)%nat)
      by (unfold out1; rewrite length_take; lia).
    destruct (_ =? 0); [eexists _, _, _; split; [done|lia]|].
    destruct (IH (mk_decoder (src d1) (acc d1) (error d1) (state d1) 0) out1
      (Nat.max high (length (out ++ acc_bytes d1)))) as (d' & out' & high' & E & Hh); [cbn; lia|].
    exists d', out', high'. split; [done|]. cbn [src] in Hh. lia.
Qed.

(** [base64_decode] returns on every input and never writes more bytes than
    [base64_needed_decoded_length] says, for inputs shorter than 2^31 - 3. *)
Theorem base64_decode_fits s flags :
  Z.of_nat (length s) + 3 < 2 ^ 31 ->
  exists result rest high, base64_decode s flags = Some (result, rest, high) /\
    exists n, base64_needed_decoded_length (Z.of_nat (length s)) = Some n /\ Z.of_nat high <= n.
Proof.
  intros Hlen. unfold base64_decode.
  destruct (decode_loop_total (S (length s)) flags (mk_decoder s 0 false 0 0) [] 0) as (d & out & high & -> & Hh);
    [cbn; lia|]. cbn [mbind option_bind].
  destruct (my_base64_decoder_skip_spaces (set_state d 0)) as [eof d']. eexists _, _, high. split; [done|].
  unfold base64_needed_decoded_length. 
  assert (Hs : s32 (Z.of_nat (length s) + 3) = Z.of_nat (length s) + 3) by (unfold s32; rewrite Z.mod_small; lia).
  rewrite Hs.
  rewrite Z.quot_div_nonneg by lia. rewrite int_ok_in by (Z.to_euclidean_division_equations; lia).
  eexists. split; [done|]. cbn [src length] in Hh.
  assert (Hd : Z.of_nat (length s / 4) = Z.of_nat (length s) / 4) by (apply Nat2Z.inj_div).
  Z.to_euclidean_division_equations. lia.
Qed.

Module Base64Examples.

Definition hello : list Z := [104; 101; 108; 108; 111].

Lemma base64_decode_of_encode_witness :
  base64_encode hello = [97; 71; 86; 115; 98; 71; 56; 61] /\
  exists high, base64_decode (base64_encode hello) 0 = Some (Some hello, [], high).
Proof.
  split; [by vm_compute|]. refine (base64_decode_of_encode hello 0 _). repeat constructor; discriminate.
Defined.

Lemma base64_encode_length_witness :
  base64_needed_encoded_length 5 = Some (Z.of_nat (length (base64_encode hello)) + 1).
Proof. refine (base64_encode_length hello _). vm_compute. discriminate. Defined.

Lemma base64_decode_fits_witness :
  exists result rest high, base64_decode [97; 71; 86; 115] 0 = Some (result, rest, high) /\
    exists n, base64_needed_decoded_length 4 = Some n /\ Z.of_nat high <= n.
Proof. refine (base64_decode_fits [97; 71; 86; 115] 0 _). vm_compute. reflexivity. Defined.

(** The longest argument the decoder says it takes: the needed length is
    negative. *)
Lemma needed_decoded_length_overflows :
  base64_needed_decoded_length base64_decode_max_arg_length = Some (-1610612733).
Proof. by vm_compute. Qed.

End Base64Examples.
