(* ===== verification/NetPack.v ===== *)
(** * Packed lengths of the protocol (sql-common/pack.c)

    Lengths before strings in packets take one, three, four or nine bytes.  A
    packet is the list of its bytes from the current position; reading past
    its end gives [None]. *)
From Stdlib Require Import ZArith Lia List Bool.
From stdpp Require Import base tactics list.
From S2P Require Import Prelude.

Open Scope Z_scope.

(** [~0] of [unsigned long]. *)
Definition NULL_LENGTH : Z := 2 ^ 64 - 1.

(** [uintNkorr] at [pos+1]. *)
Definition korr (n : nat) (pos : list Z) : option Z :=
  if (length pos <? n)%nat then None else Some (le_value (take n pos)).

(** The reader of nine bytes uses [m] of the eight after the mark. *)
Definition field_length (m : nat) (packet : list Z) : option (Z * list Z) :=
  match packet with
  | [] => None
  | b :: pos =>
      if b <? 251 then Some (b, pos)
      else if b =? 251 then Some (NULL_LENGTH, pos)
      else if b =? 252 then v ← korr 2 pos; Some (v, drop 2 pos)
      else if b =? 253 then v ← korr 3 pos; Some (v, drop 3 pos)
      else v ← korr m pos; Some (v, drop 8 pos)
  end.

Definition net_field_length : list Z -> option (Z * list Z) := field_length 4.
Definition net_field_length_ll : list Z -> option (Z * list Z) := field_length 8.

(** [None] inside: the packet pointer is set to NULL and 0 returned. *)
Definition safe_net_field_length_ll (packet : list Z) (packet_len : Z) : option (option (Z * list Z)) :=
  if packet_len <? 1 then Some None
  else
    match packet with
    | [] => None
    | b :: pos =>
        if b <? 251 then Some (Some (b, pos))
        else if b =? 251 then Some (Some (NULL_LENGTH, pos))
        else if b =? 252 then
          if packet_len <? 3 then Some None else v ← korr 2 pos; Some (Some (v, drop 2 pos))
        else if b =? 253 then
          if packet_len <? 4 then Some None else v ← korr 3 pos; Some (Some (v, drop 3 pos))
        else if (packet_len <? 9) || negb (b =? 254) then Some None
        else v ← korr 8 pos; Some (Some (v, drop 8 pos))
    end.

(** The bytes that are stored. *)
Definition net_store_length (length : Z) : list Z :=
  if length <? 251 then [length]
  else if length <? 65536 then 252 :: le_bytes 2 length
  else if length <? 16777216 then 253 :: le_bytes 3 length
  else 254 :: le_bytes 8 length.

Definition safe_net_store_length (packet_len length : Z) : option (list Z) :=
  if length <? 251 then if packet_len <? 1 then None else Some [length]
  else if length <? 65536 then if packet_len <? 3 then None else Some (252 :: le_bytes 2 length)
  else if length <? 16777216 then if packet_len <? 4 then None else Some (253 :: le_bytes 3 length)
  else if packet_len <? 9 then None else Some (254 :: le_bytes 8 length).

(** ** Round trips *)

Lemma korr_le_bytes n m v rest :
  (m <= n)%nat -> korr m (le_bytes n v ++ rest) = Some (v mod 256 ^ Z.of_nat m).
Proof.
  intros Hmn. unfold korr. rewrite length_app, le_bytes_length.
  destruct (Nat.ltb_spec (n + length rest) m); [lia|].
  rewrite take_app_le by (rewrite le_bytes_length; lia). f_equal. rewrite <- le_value_bytes. f_equal.
  revert v m Hmn H. induction n as [|n IH]; intros v [|m] Hmn H; cbn; try done; [lia|].
  f_equal. apply IH; lia.
Qed.

Lemma drop_le_bytes n v rest : drop n (le_bytes n v ++ rest) = rest.
Proof. apply drop_app_length'. by rewrite le_bytes_length. Qed.

Lemma field_length_store m v rest :
  (4 <= m <= 8)%nat -> 0 <= v < 256 ^ Z.of_nat m ->
  field_length m (net_store_length v ++ rest) = Some (v, rest).
Proof.
  intros Hm Hv. unfold field_length, net_store_length.
  destruct (Z.ltb_spec v 251); [cbn [app]; by rewrite (proj2 (Z.ltb_lt _ _))|].
  destruct (Z.ltb_spec v 65536); [|destruct (Z.ltb_spec v 16777216)];
    cbn -[le_bytes korr drop app]; rewrite <- app_comm_cons; cbn -[le_bytes korr drop app];
    rewrite korr_le_bytes, drop_le_bytes by lia; cbn [mbind option_bind]; by rewrite Z.mod_small by lia.
Qed.

(** Reading a stored length gives it back, with the rest of the packet, for
    every 64-bit length, and never the mark of NULL. *)
Theorem net_length_roundtrip v rest :
  0 <= v < 2 ^ 64 ->
  net_field_length_ll (net_store_length v ++ rest) = Some (v, rest) /\
  safe_net_field_length_ll (net_store_length v ++ rest) (Z.of_nat (length (net_store_length v ++ rest))) =
    Some (Some (v, rest)) /\
  head (net_store_length v) <> Some 251.
Proof.
  intros Hv. split; [apply field_length_store; lia|]. split.
  - pose proof (field_length_store 8 v rest ltac:(lia) Hv) as H. unfold field_length in H.
    unfold safe_net_field_length_ll, net_store_length in *.
    rewrite length_app, Nat2Z.inj_add. destruct (Z.ltb_spec v 251).
    + cbn [app length] in *. rewrite (proj2 (Z.ltb_ge _ 1)) by lia. by rewrite (proj2 (Z.ltb_lt v 251)).
    + destruct (Z.ltb_spec v 65536); [|destruct (Z.ltb_spec v 16777216)]; rewrite <- app_comm_cons in *;
        cbn [length]; rewrite le_bytes_length; cbn -[le_bytes korr drop app Z.of_nat Z.ltb] in *;
        rewrite !(proj2 (Z.ltb_ge _ _)) by lia; destruct (korr _ _); cbn in *; congruence.
  - unfold net_store_length. destruct (Z.ltb_spec v 251); [cbn; intros [= ->]; lia|].
    destruct (v <? 65536); [|destruct (v <? 16777216)]; done.
Qed.

(** The checked functions never read or write outside the packet. *)
Theorem safe_net_length_in_packet packet packet_len v :
  packet_len = Z.of_nat (length packet) ->
  (exists r, safe_net_field_length_ll packet packet_len = Some r /\
     match r with
     | Some (_, rest) => exists used, packet = used ++ rest
     | None => True
     end) /\
  match safe_net_store_length packet_len v with
  | Some bytes => bytes = net_store_length v /\ Z.of_nat (length bytes) <= packet_len
  | None => packet_len < Z.of_nat (length (net_store_length v))
  end.
Proof.
  intros ->. split.
  - unfold safe_net_field_length_ll. destruct packet as [|b pos]; [eexists; by split|].
    destruct (Z.ltb_spec (Z.of_nat (length (b :: pos))) 1); [eexists; by split|].
    assert (Hk : forall n, Z.of_nat (length (b :: pos)) <? Z.of_nat (S n) = false ->
      exists r, (v ← korr n pos; Some (Some (v, drop n pos))) = Some r /\
        match r with Some (_, rest) => exists used, b :: pos = used ++ rest | None => True end).
    { intros n Hn. unfold korr. cbn [length] in Hn. apply Z.ltb_ge in Hn.
      destruct (Nat.ltb_spec (length pos) n); [lia|].
      eexists. split; [reflexivity|]. exists (b :: take n pos). cbn. by rewrite take_drop. }
    destruct (b <? 251); [eexists; split; [reflexivity|]; by exists [b]|].
    destruct (b =? 251); [eexists; split; [reflexivity|]; by exists [b]|].
    destruct (b =? 252); [destruct (_ <? 3) eqn:E; [eexists; by split|by apply (Hk 2%nat)]|].
    destruct (b =? 253); [destruct (_ <? 4) eqn:E; [eexists; by split|by apply (Hk 3%nat)]|].
    destruct (_ <? 9) eqn:E; [eexists; by split|]. destruct (b =? 254); [by apply (Hk 8%nat)|eexists; by split].
  - unfold safe_net_store_length, net_store_length.
    destruct (v <? 251); [|destruct (v <? 65536); [|destruct (v <? 16777216)]];
      (match goal with |- context [if ?a <? ?b then _ else _] => destruct (Z.ltb_spec a b) end;
      [|split; [done|]]); cbn [length]; rewrite ?le_bytes_length; lia.
Qed.

Module NetPackExamples.

Lemma net_length_roundtrip_witness :
  net_store_length 300 = [252; 44; 1] /\ net_field_length_ll ([252; 44; 1] ++ [7]) = Some (300, [7]).
Proof. split; [by vm_compute|]. destruct (net_length_roundtrip 300 [7]) as [H _]; [lia|]. exact H. Defined.

Lemma safe_net_length_in_packet_witness :
  exists r, safe_net_field_length_ll [252; 44] 2 = Some r /\
    match r with Some (_, rest) => exists used, [252; 44] = used ++ rest | None => True end.
Proof. destruct (safe_net_length_in_packet [252; 44] 2 5 eq_refl) as [H _]. exact H. Defined.

(** The reader that returns [ulong] drops the upper half of a length. *)
Lemma net_field_length_truncates :
  net_field_length (net_store_length (2 ^ 32 + 5)) = Some (5, []).
Proof. by vm_compute. Qed.

End NetPackExamples.
