(* ===== verification/Decimal.v ===== *)
(** * Decimal numbers: representation, addition and subtraction (strings/decimal.c)

    A [decimal_t] has its digits in words of nine: [ROUND_UP intg] words before
    the point, [ROUND_UP frac] after it.  A pointer into a buffer that moves
    up is the rest of the buffer from there, one that moves down ([*--buf]) the
    words below it, the nearest first; words that are written downwards are
    collected in front of those written before.  Reading or writing outside
    a buffer gives [None].  [to] is not one of the operands. *)
From Stdlib Require Import ZArith Lia List Bool.
From stdpp Require Import base tactics list option.
From S2P Require Import Prelude.

Open Scope Z_scope.

(** ** Words *)

Definition DIG_PER_DEC1 : nat := 9.
Definition DIG_MASK : Z := 100000000.
Definition DIG_BASE : Z := 1000000000.
Definition DIG_MAX : Z := DIG_BASE - 1.

Definition powers10 (i : nat) : Z := 10 ^ Z.of_nat i.

Definition dig2bytes (i : nat) : nat := nth i [0; 1; 1; 2; 2; 3; 3; 4; 4; 4]%nat 0%nat.

Definition frac_max (i : nat) : Z :=
  nth i [900000000; 990000000; 999000000; 999900000; 999990000; 999999000; 999999900; 999999990] 0.

Definition ROUND_UP (x : nat) : nat :=
  ((x + (if (0 <? x)%nat then DIG_PER_DEC1 - 1 else 0)) / DIG_PER_DEC1)%nat.

Definition E_DEC_OK : Z := 0.
Definition E_DEC_TRUNCATED : Z := 1.
Definition E_DEC_OVERFLOW : Z := 2.
Definition E_DEC_BAD_NUM : Z := 8.

(** [len] is the number of words of [buf]. *)
Record decimal_t := mk_dec { intg : nat; frac : nat; sign : bool; buf : list Z }.

Definition len (d : decimal_t) : nat := length (buf d).

(** The sizes and the error. *)
Definition FIX_INTG_FRAC_ERROR (len intg1 frac1 : nat) : nat * nat * Z :=
  if (len <? intg1 + frac1)%nat then
    if (len <? intg1)%nat then (len, 0%nat, E_DEC_OVERFLOW)
    else (intg1, (len - intg1)%nat, E_DEC_TRUNCATED)
  else (intg1, frac1, E_DEC_OK).

(** The word and the carry. *)
Definition ADD (from1 from2 carry : Z) : Z * Z :=
  let a := from1 + from2 + carry in
  if DIG_BASE <=? a then (a - DIG_BASE, 1) else (a, 0).

Definition ADD2 (from1 from2 carry : Z) : Z * Z :=
  let a := from1 + from2 + carry in
  let '(a, carry) := if DIG_BASE <=? a then (a - DIG_BASE, 1) else (a, 0) in
  if DIG_BASE <=? a then (a - DIG_BASE, carry + 1) else (a, carry).

Definition SUB (from1 from2 carry : Z) : Z * Z :=
  let a := from1 - from2 - carry in
  if a <? 0 then (a + DIG_BASE, 1) else (a, 0).

(** The first words of a buffer replaced. *)
Definition overwrite (l b : list Z) : list Z := l ++ drop (length l) b.

Definition decimal_make_zero (d : decimal_t) : decimal_t := mk_dec 1 0 false (overwrite [0] (buf d)).

Definition decimal_neg (d : decimal_t) : decimal_t := mk_dec (intg d) (frac d) (negb (sign d)) (buf d).

(** ** Sizes *)

Definition max_words (intpart frac : nat) : list Z :=
  (if (intpart mod DIG_PER_DEC1 =? 0)%nat then [] else [powers10 (intpart mod DIG_PER_DEC1) - 1]) ++
  replicate (intpart / DIG_PER_DEC1) DIG_MAX ++
  replicate (frac / DIG_PER_DEC1) DIG_MAX ++
  (if (frac mod DIG_PER_DEC1 =? 0)%nat then [] else [frac_max (frac mod DIG_PER_DEC1 - 1)]).

Definition max_decimal (precision frac : nat) (to : decimal_t) : decimal_t :=
  mk_dec (precision - frac) frac false (overwrite (max_words (precision - frac) frac) (buf to)).

Definition decimal_size (precision scale : nat) : nat := (ROUND_UP (precision - scale) + ROUND_UP scale)%nat.

Definition decimal_bin_size (precision scale : nat) : nat :=
  let intg := (precision - scale)%nat in
  (intg / DIG_PER_DEC1 * 4 + dig2bytes (intg mod DIG_PER_DEC1) +
   scale / DIG_PER_DEC1 * 4 + dig2bytes (scale mod DIG_PER_DEC1))%nat.

Inductive dec_op := OP_PLUS | OP_MINUS | OP_MUL | OP_DIV.

Definition decimal_result_size (from1 from2 : decimal_t) (op : dec_op) (param : nat) : nat :=
  match op with
  | OP_MINUS => ROUND_UP (Nat.max (intg from1) (intg from2)) + ROUND_UP (Nat.max (frac from1) (frac from2))
  | OP_PLUS => ROUND_UP (Nat.max (intg from1) (intg from2) + 1) + ROUND_UP (Nat.max (frac from1) (frac from2))
  | OP_MUL => ROUND_UP (intg from1 + intg from2) + ROUND_UP (frac from1) + ROUND_UP (frac from2)
  | OP_DIV => ROUND_UP (intg from1 + intg from2 + 1 + frac from1 + frac from2 + param)
  end%nat.

(** ** Leading and trailing zeroes *)

Fixpoint skip_zero_words (b : list Z) (intg i : nat) : option (nat * list Z) :=
  if (intg =? 0)%nat then Some (0%nat, b)
  else match b with
       | [] => None
       | w :: b' => if w =? 0 then skip_zero_words b' (intg - i) DIG_PER_DEC1 else Some (intg, b)
       end.

Fixpoint lead_digits (i : nat) (w : Z) (intg : nat) : option nat :=
  if w <? powers10 i then
    match i with S i => lead_digits i w (intg - 1) | O => None end
  else Some intg.

(** The number of digits before the point without leading zeroes, and the
    words from the first one. *)
Definition remove_leading_zeroes (from : decimal_t) : option (nat * list Z) :=
  '(intg, buf0) ← skip_zero_words (buf from) (intg from) ((intg from - 1) mod DIG_PER_DEC1 + 1);
  if (0 <? intg)%nat then
    w ← head buf0;
    intg ← lead_digits ((intg - 1) mod DIG_PER_DEC1) w intg;
    Some (intg, buf0)
  else Some (0%nat, buf0).

Definition decimal_intg (from : decimal_t) : option nat := fst <$> remove_leading_zeroes from.

(** The digits after the point to the last one that is not zero; [b] are the
    words below the end. *)
Fixpoint skip_end_words (b : list Z) (frac i : nat) : option (nat * list Z) :=
  if (frac =? 0)%nat then Some (0%nat, b)
  else match b with
       | [] => None
       | w :: b' => if w =? 0 then skip_end_words b' (frac - i) DIG_PER_DEC1 else Some (frac, b)
       end.

Fixpoint end_digits (n i : nat) (w : Z) (frac : nat) : option nat :=
  match n with
  | O => None
  | S n => if w mod powers10 i =? 0 then end_digits n (S i) w (frac - 1) else Some frac
  end.

Definition decimal_actual_fraction (from : decimal_t) : option nat :=
  if (frac from =? 0)%nat then Some 0%nat
  else
    '(frac, b) ← skip_end_words (rev (take (ROUND_UP (intg from) + ROUND_UP (frac from)) (buf from)))
      (frac from) ((frac from - 1) mod DIG_PER_DEC1 + 1);
    if (0 <? frac)%nat then
      w ← head b;
      let i := (DIG_PER_DEC1 - (frac - 1) mod DIG_PER_DEC1)%nat in
      end_digits (S DIG_PER_DEC1 - i) i w frac
    else Some 0%nat.

Definition decimal_is_zero (from : decimal_t) : bool :=
  forallb (fun w => w =? 0) (take (ROUND_UP (intg from) + ROUND_UP (frac from)) (buf from)).

(** ** Loops over words, downwards *)

Fixpoint copy_down (n : nat) (src acc : list Z) : option (list Z * list Z) :=
  match n, src with
  | O, _ => Some (src, acc)
  | S n, x :: src => copy_down n src (x :: acc)
  | _, _ => None
  end.

Fixpoint add_down (n : nat) (src1 src2 : list Z) (carry : Z) (acc : list Z) : option (Z * list Z) :=
  match n, src1, src2 with
  | O, _, _ => Some (carry, acc)
  | S n, x :: src1, y :: src2 =>
      let '(a, carry) := ADD x y carry in add_down n src1 src2 carry (a :: acc)
  | _, _, _ => None
  end.

(** ADD with 0, to the start of the buffer. *)
Fixpoint carry_down (src : list Z) (carry : Z) (acc : list Z) : Z * list Z :=
  match src with
  | x :: src => let '(a, carry) := ADD x 0 carry in carry_down src carry (a :: acc)
  | [] => (carry, acc)
  end.

(** SUB of the words of [src] from 0. *)
Fixpoint borrow_down (n : nat) (src : list Z) (carry : Z) (acc : list Z) : option (list Z * Z * list Z) :=
  match n, src with
  | O, _ => Some (src, carry, acc)
  | S n, y :: src => let '(a, carry) := SUB 0 y carry in borrow_down n src carry (a :: acc)
  | _, _ => None
  end.

(** SUB until the start of [src2]. *)
Fixpoint sub_down (src1 src2 : list Z) (carry : Z) (acc : list Z) : option (list Z * Z * list Z) :=
  match src2, src1 with
  | [], _ => Some (src1, carry, acc)
  | y :: src2, x :: src1 => let '(a, carry) := SUB x y carry in sub_down src1 src2 carry (a :: acc)
  | _ :: _, [] => None
  end.

(** SUB of the carry while there is one, then the rest as it is. *)
Fixpoint sub_carry_down (src : list Z) (carry : Z) (acc : list Z) : list Z :=
  match src with
  | x :: src =>
      if carry =? 0 then sub_carry_down src carry (x :: acc)
      else let '(a, carry) := SUB x 0 carry in sub_carry_down src carry (a :: acc)
  | [] => acc
  end.

(** [acc] was written below the word [top] of [b]. *)
Definition written (top : nat) (acc b : list Z) : option (list Z) :=
  if (length acc <=? top)%nat then Some (take (top - length acc) b ++ acc ++ drop top b) else None.

(** ** Addition *)

(** The words of the sum from the operand [a] with more words after the point
    and [b] with fewer, [c] the one with more before it, by [n]. *)
Definition add_words (ia fa : nat) (a : list Z) (ib fb : nat) (b c : list Z) (n : nat) : option (list Z) :=
  '(src, acc) ← copy_down (fa - fb) (rev (take (ia + fa) a)) [];
  '(carry, acc) ← add_down (ia + fb - (ia - ib)) src (rev (take (ib + fb) b)) 0 acc;
  let '(carry, acc) := carry_down (rev (take n c)) carry acc in
  Some (if carry =? 0 then acc else 1 :: acc).

(** The sum with [intg0] words before the point. *)
Definition add_store (from1 from2 : decimal_t) (intg0 : nat) (to : decimal_t) : option (Z * decimal_t) :=
  let intg1 := ROUND_UP (intg from1) in let intg2 := ROUND_UP (intg from2) in
  let frac1 := ROUND_UP (frac from1) in let frac2 := ROUND_UP (frac from2) in
  let '(intg0, frac0, error) := FIX_INTG_FRAC_ERROR (len to) intg0 (Nat.max frac1 frac2) in
  if error =? E_DEC_OVERFLOW then Some (error, max_decimal (len to * DIG_PER_DEC1) 0 to)
  else
    let ok := error =? E_DEC_OK in
    let to_frac := Nat.max (frac from1) (frac from2) in
    let to_frac := if ok then to_frac else Nat.min to_frac (frac0 * DIG_PER_DEC1) in
    let frac1 := if ok then frac1 else Nat.min frac1 frac0 in
    let frac2 := if ok then frac2 else Nat.min frac2 frac0 in
    let intg1 := if ok then intg1 else Nat.min intg1 intg0 in
    let intg2 := if ok then intg2 else Nat.min intg2 intg0 in
    let '(c, n) := if (intg2 <? intg1)%nat then (buf from1, (intg1 - intg2)%nat)
                   else (buf from2, (intg2 - intg1)%nat) in
    acc ← (if (frac2 <? frac1)%nat then add_words intg1 frac1 (buf from1) intg2 frac2 (buf from2) c n
           else add_words intg2 frac2 (buf from2) intg1 frac1 (buf from1) c n);
    b ← written (intg0 + frac0) acc (buf to);
    Some (error, mk_dec (intg0 * DIG_PER_DEC1) to_frac (sign from1) b).

Definition do_add (from1 from2 to : decimal_t) : option (Z * decimal_t) :=
  let intg1 := ROUND_UP (intg from1) in let intg2 := ROUND_UP (intg from2) in
  let intg0 := Nat.max intg1 intg2 in
  w1 ← head (buf from1);
  w2 ← head (buf from2);
  let x := if (intg2 <? intg1)%nat then w1 else if (intg1 <? intg2)%nat then w2 else w1 + w2 in
  if DIG_MAX - 1 <? x then
    add_store from1 from2 (S intg0) (mk_dec (intg to) (frac to) (sign to) (overwrite [0] (buf to)))
  else add_store from1 from2 intg0 to.

(** ** Comparison and subtraction *)

Fixpoint skip_words (b : list Z) (n : nat) : list Z * nat :=
  match n, b with
  | S n', w :: b' => if w =? 0 then skip_words b' n' else (b, n)
  | _, _ => (b, n)
  end.

(** The words without the zeroes at the end. *)
Fixpoint strip_zeros (b : list Z) : list Z :=
  match b with
  | [] => []
  | w :: b => match strip_zeros b with [] => if w =? 0 then [] else [w] | b' => w :: b' end
  end.

(** [None]: the numbers are equal; otherwise whether the second is greater. *)
Fixpoint compare_words (b1 b2 : list Z) : option bool :=
  match b1, b2 with
  | x :: b1, y :: b2 => if x =? y then compare_words b1 b2 else Some (x <? y)
  | _ :: _, [] => Some false
  | [], _ :: _ => Some true
  | [], [] => None
  end.

(** A number without its leading zero words: from [start], with [ints] words
    before the point and [fracs] after it, which is negative when the last
    words before the point are zero. *)
Record operand := mk_op { start : list Z; ints : nat; fracs : Z; source : decimal_t }.

Definition operand_of (d : decimal_t) : operand :=
  let '(start, n) := skip_words (buf d) (ROUND_UP (intg d)) in
  mk_op start n (Z.of_nat (ROUND_UP (frac d))) d.

Definition op_words (o : operand) : list Z := take (Z.to_nat (Z.of_nat (ints o) + fracs o)) (start o).

Definition strip_op (o : operand) : operand :=
  mk_op (start o) (ints o) (Z.of_nat (length (strip_zeros (op_words o))) - Z.of_nat (ints o)) (source o).

(** The first part of [do_sub]: the operands, and [carry]; [None]: they are
    equal. *)
Definition sub_compare (from1 from2 : decimal_t) : option (operand * operand * bool) :=
  let o1 := operand_of from1 in
  let o2 := operand_of from2 in
  if (ints o1 <? ints o2)%nat then Some (o1, o2, true)
  else if (ints o1 =? ints o2)%nat then
    carry ← compare_words (strip_zeros (op_words o1)) (strip_zeros (op_words o2));
    Some (strip_op o1, strip_op o2, carry)
  else Some (o1, o2, false).

(** The words of the difference. *)
Definition sub_words (start1 : list Z) (intg1 : nat) (frac1 : Z) (start2 : list Z) (intg2 : nat) (frac2 : Z)
  (frac0 : nat) : option (list Z) :=
  let src1 := rev (take (Z.to_nat (Z.of_nat intg1 + frac1)) start1) in
  let src2 := rev (take (Z.to_nat (Z.of_nat intg2 + frac2)) start2) in
  '(src1, src2, carry, acc) ←
    (if frac2 <? frac1 then
       '(src1, acc) ← copy_down (Z.to_nat (frac1 - frac2)) src1
          (replicate (Z.to_nat (Z.of_nat frac0 - frac1)) 0);
       Some (src1, src2, 0, acc)
     else
       '(src2, carry, acc) ← borrow_down (Z.to_nat (frac2 - frac1)) src2 0
          (replicate (Z.to_nat (Z.of_nat frac0 - frac2)) 0);
       Some (src1, src2, carry, acc));
  '(src1, carry, acc) ← sub_down src1 src2 carry acc;
  Some (sub_carry_down src1 carry acc).

(** [o1] - [o2] with the sign [s]; [o1] is the greater. *)
Definition sub_store (o1 o2 : operand) (s : bool) (to : decimal_t) : option (Z * decimal_t) :=
  let from1 := source o1 in let from2 := source o2 in
  let frac0 := Nat.max (ROUND_UP (frac from1)) (ROUND_UP (frac from2)) in
  let '(intg1, frac0, error) := FIX_INTG_FRAC_ERROR (len to) (ints o1) frac0 in
  let ok := error =? E_DEC_OK in
  let to_frac := Nat.max (frac from1) (frac from2) in
  let to_frac := if ok then to_frac else Nat.min to_frac (frac0 * DIG_PER_DEC1) in
  let frac1 := if ok then fracs o1 else Z.min (fracs o1) (Z.of_nat frac0) in
  let frac2 := if ok then fracs o2 else Z.min (fracs o2) (Z.of_nat frac0) in
  let intg2 := if ok then ints o2 else Nat.min (ints o2) intg1 in
  acc ← sub_words (start o1) intg1 frac1 (start o2) intg2 frac2 frac0;
  let acc := replicate (intg1 + frac0 - length acc) 0 ++ acc in
  b ← written (intg1 + frac0) acc (buf to);
  Some (error, mk_dec (intg1 * DIG_PER_DEC1) to_frac s b).

Definition do_sub (from1 from2 to : decimal_t) : option (Z * decimal_t) :=
  match sub_compare from1 from2 with
  | None => Some (E_DEC_OK, decimal_make_zero to)
  | Some (o1, o2, carry) =>
      if carry then sub_store o2 o1 (negb (sign from1)) to else sub_store o1 o2 (sign from1) to
  end.

Definition decimal_add (from1 from2 to : decimal_t) : option (Z * decimal_t) :=
  if bool_decide (sign from1 = sign from2) then do_add from1 from2 to else do_sub from1 from2 to.

Definition decimal_sub (from1 from2 to : decimal_t) : option (Z * decimal_t) :=
  if bool_decide (sign from1 = sign from2) then do_sub from1 from2 to else do_add from1 from2 to.

Definition decimal_cmp (from1 from2 : decimal_t) : Z :=
  if bool_decide (sign from1 = sign from2) then
    match sub_compare from1 from2 with
    | None => 0
    | Some (_, _, carry) => if bool_decide (carry = sign from1) then 1 else -1
    end
  else if sign from1 then -1 else 1.
