(* ===== verification/DecimalValue.v ===== *)
(** * The value of decimal numbers

    Words as numbers, what the loops over words compute, well-formed decimals
    and their value. *)
From Stdlib Require Import ZArith Lia List Bool.
From stdpp Require Import base tactics list option.
From S2P Require Import Prelude Decimal.

Open Scope Z_scope.

Definition word (w : Z) : Prop := 0 <= w < DIG_BASE.

Definition words (l : list Z) : Z := fold_left (fun v w => v * DIG_BASE + w) l 0.

(** [B n] is the weight of the n-th word. *)
Definition B (n : nat) : Z := DIG_BASE ^ Z.of_nat n.

#[global] Arguments words : simpl never.
#[global] Arguments B : simpl never.

Lemma B_0 : B 0 = 1.
Proof. done. Qed.

Lemma B_S n : B (S n) = DIG_BASE * B n.
Proof. unfold B. rewrite Nat2Z.inj_succ, Z.pow_succ_r by lia. done. Qed.

Lemma B_add m n : B (m + n) = B m * B n.
Proof. unfold B. rewrite Nat2Z.inj_add, Z.pow_add_r by lia. done. Qed.

Lemma B_pos n : 0 < B n.
Proof. unfold B, DIG_BASE. apply Z.pow_pos_nonneg; lia. Qed.

Lemma B_le m n : (m <= n)%nat -> B m <= B n.
Proof. intros H. unfold B, DIG_BASE. apply Z.pow_le_mono_r; lia. Qed.

Lemma words_acc l v : fold_left (fun v w => v * DIG_BASE + w) l v = v * B (length l) + words l.
Proof.
  unfold words. revert v. induction l as [|w l IH]; intros v; cbn [fold_left length].
  - rewrite B_0. lia.
  - rewrite IH, (IH (0 * DIG_BASE + w)), B_S. ring.
Qed.

Lemma words_app l1 l2 : words (l1 ++ l2) = words l1 * B (length l2) + words l2.
Proof. unfold words at 1. rewrite fold_left_app, words_acc. done. Qed.

Lemma words_cons w l : words (w :: l) = w * B (length l) + words l.
Proof. apply (words_app [w] l). Qed.

Lemma words_nil : words [] = 0.
Proof. done. Qed.

Lemma words_one w : words [w] = w.
Proof. done. Qed.

Lemma words_zeros n : words (replicate n 0) = 0.
Proof. induction n as [|n IH]; [done|]. cbn [replicate]. rewrite words_cons, IH. done. Qed.

Lemma words_bound l : Forall word l -> 0 <= words l < B (length l).
Proof.
  induction 1 as [|w l Hw Hl IH]; [cbn [length]; rewrite words_nil, B_0; lia|].
  cbn [length]. rewrite words_cons, B_S. unfold word in Hw. pose proof (B_pos (length l)). nia.
Qed.

(** Lists of words with one value are equal. *)
Lemma words_inj l1 l2 :
  Forall word l1 -> Forall word l2 -> length l1 = length l2 -> words l1 = words l2 -> l1 = l2.
Proof.
  intros H1. revert l2. induction H1 as [|w l Hw Hl IH]; intros [|w' l2] H2 Hlen E; try done.
  apply list.Forall_cons in H2 as [Hw' H2]. injection Hlen as Hlen. rewrite !words_cons, <- Hlen in E.
  pose proof (words_bound l Hl) as B1. pose proof (words_bound l2 H2) as B2. rewrite <- Hlen in B2.
  assert (w = w') as -> by (unfold word in *; nia). f_equal. apply IH; [done..|lia].
Qed.

(** ** The loops *)

Lemma copy_down_spec n src acc :
  (n <= length src)%nat -> copy_down n src acc = Some (drop n src, rev (take n src) ++ acc).
Proof.
  revert src acc. induction n as [|n IH]; intros src acc Hn; [by destruct src|].
  destruct src as [|x src]; [cbn in Hn; lia|]. cbn [copy_down length take drop rev] in *.
  rewrite IH by lia. rewrite <- app_assoc. done.
Qed.

Definition carry_ok (c : Z) : Prop := c = 0 \/ c = 1.

Lemma ADD_spec x y c a c' :
  word x -> word y -> carry_ok c -> ADD x y c = (a, c') ->
  word a /\ carry_ok c' /\ a + c' * DIG_BASE = x + y + c.
Proof.
  unfold ADD, word, carry_ok, DIG_BASE. intros Hx Hy Hc. cbn zeta.
  destruct (Z.leb_spec 1000000000 (x + y + c)); intros [= <- <-]; lia.
Qed.

Lemma SUB_spec x y c a c' :
  word x -> word y -> carry_ok c -> SUB x y c = (a, c') ->
  word a /\ carry_ok c' /\ a - c' * DIG_BASE = x - y - c.
Proof.
  unfold SUB, word, carry_ok, DIG_BASE. intros Hx Hy Hc. cbn zeta.
  destruct (Z.ltb_spec (x - y - c) 0); intros [= <- <-]; lia.
Qed.

Lemma word_0 : word 0.
Proof. unfold word, DIG_BASE. lia. Qed.

Lemma word_1 : word 1.
Proof. unfold word, DIG_BASE. lia. Qed.

Create HintDb dec_db.
#[export] Hint Resolve word_0 word_1 : dec_db.

Lemma add_down_spec n s1 s2 c acc :
  (n <= length s1)%nat -> (n <= length s2)%nat -> Forall word s1 -> Forall word s2 -> carry_ok c ->
  exists c' out, add_down n s1 s2 c acc = Some (c', out ++ acc) /\ length out = n /\ Forall word out /\
    carry_ok c' /\ words out + c' * B n = words (rev (take n s1)) + words (rev (take n s2)) + c.
Proof.
  revert s1 s2 c acc. induction n as [|n IH]; intros s1 s2 c acc L1 L2 F1 F2 Hc.
  { exists c, []. rewrite B_0. destruct s1, s2; cbn; repeat split; try done; rewrite ?words_nil; lia. }
  destruct F1 as [|x s1 Hx F1]; [cbn in L1; lia|]. destruct F2 as [|y s2 Hy F2]; [cbn in L2; lia|].
  cbn [add_down length take rev] in *. destruct (ADD x y c) as [a c1] eqn:E.
  destruct (ADD_spec _ _ _ _ _ Hx Hy Hc E) as (Ha & Hc1 & Ea).
  destruct (IH s1 s2 c1 (a :: acc)) as (c' & out & -> & Hlen & Hout & Hc' & Ev); [lia..|done|done|done|].
  exists c', (out ++ [a]). rewrite <- app_assoc. split; [done|]. rewrite app_length. split; [cbn; lia|].
  split; [by apply Forall_app; split; [|constructor]|]. split; [done|].
  rewrite B_S, !words_app, !words_one. cbn [length]. change (B 1) with DIG_BASE. nia.
Qed.

Lemma carry_down_spec s c acc :
  Forall word s -> carry_ok c ->
  exists c' out, carry_down s c acc = (c', out ++ acc) /\ length out = length s /\ Forall word out /\
    carry_ok c' /\ words out + c' * B (length s) = words (rev s) + c.
Proof.
  intros F. revert c acc. induction F as [|x s Hx F IH]; intros c acc Hc.
  { exists c, []. cbn. rewrite B_0. repeat split; try done. rewrite words_nil. lia. }
  cbn [carry_down length rev]. destruct (ADD x 0 c) as [a c1] eqn:E.
  destruct (ADD_spec _ _ _ _ _ Hx word_0 Hc E) as (Ha & Hc1 & Ea).
  destruct (IH c1 (a :: acc) Hc1) as (c' & out & -> & Hlen & Hout & Hc' & Ev).
  exists c', (out ++ [a]). rewrite <- app_assoc. split; [done|]. rewrite app_length. split; [cbn; lia|].
  split; [by apply Forall_app; split; [|constructor]|]. split; [done|].
  rewrite B_S, !words_app, !words_one. cbn [length]. change (B 1) with DIG_BASE. nia.
Qed.

Lemma borrow_down_spec n s c acc :
  (n <= length s)%nat -> Forall word s -> carry_ok c ->
  exists c' out, borrow_down n s c acc = Some (drop n s, c', out ++ acc) /\ length out = n /\ Forall word out /\
    carry_ok c' /\ words out - c' * B n = - words (rev (take n s)) - c.
Proof.
  revert s c acc. induction n as [|n IH]; intros s c acc L F Hc.
  { exists c, []. rewrite B_0. destruct s; cbn; repeat split; try done; rewrite ?words_nil; lia. }
  destruct F as [|x s Hx F]; [cbn in L; lia|].
  cbn [borrow_down length take drop rev] in *. destruct (SUB 0 x c) as [a c1] eqn:E.
  destruct (SUB_spec _ _ _ _ _ word_0 Hx Hc E) as (Ha & Hc1 & Ea).
  destruct (IH s c1 (a :: acc)) as (c' & out & -> & Hlen & Hout & Hc' & Ev); [lia|done|done|].
  exists c', (out ++ [a]). rewrite <- app_assoc. split; [done|]. rewrite app_length. split; [cbn; lia|].
  split; [by apply Forall_app; split; [|constructor]|]. split; [done|].
  rewrite B_S, !words_app, !words_one. cbn [length]. change (B 1) with DIG_BASE. nia.
Qed.

Lemma sub_down_spec s1 s2 c acc :
  (length s2 <= length s1)%nat -> Forall word s1 -> Forall word s2 -> carry_ok c ->
  exists c' out, sub_down s1 s2 c acc = Some (drop (length s2) s1, c', out ++ acc) /\
    length out = length s2 /\ Forall word out /\
    carry_ok c' /\ words out - c' * B (length s2) = words (rev (take (length s2) s1)) - words (rev s2) - c.
Proof.
  intros L F1 F2. revert s1 c acc L F1. induction F2 as [|y s2 Hy F2 IH]; intros s1 c acc L F1 Hc.
  { exists c, []. cbn. rewrite B_0. destruct s1; cbn; repeat split; try done; rewrite ?words_nil; lia. }
  destruct F1 as [|x s1 Hx F1]; [cbn in L; lia|].
  cbn [sub_down length take drop rev] in *. destruct (SUB x y c) as [a c1] eqn:E.
  destruct (SUB_spec _ _ _ _ _ Hx Hy Hc E) as (Ha & Hc1 & Ea).
  destruct (IH s1 c1 (a :: acc)) as (c' & out & -> & Hlen & Hout & Hc' & Ev); [lia|done|done|].
  exists c', (out ++ [a]). rewrite <- app_assoc. split; [done|]. rewrite app_length. split; [cbn; lia|].
  split; [by apply Forall_app; split; [|constructor]|]. split; [done|].
  rewrite B_S, !words_app, !words_one. cbn [length]. change (B 1) with DIG_BASE. nia.
Qed.

Lemma sub_carry_down_spec s c acc :
  Forall word s -> carry_ok c ->
  exists c' out, sub_carry_down s c acc = out ++ acc /\ length out = length s /\ Forall word out /\
    carry_ok c' /\ words out - c' * B (length s) = words (rev s) - c.
Proof.
  intros F. revert c acc. induction F as [|x s Hx F IH]; intros c acc Hc.
  { exists c, []. cbn. rewrite B_0. repeat split; try done. rewrite words_nil. lia. }
  cbn [sub_carry_down length rev].
  assert (exists a c1, (if c =? 0 then sub_carry_down s c (x :: acc)
    else let '(a, carry) := SUB x 0 c in sub_carry_down s carry (a :: acc)) = sub_carry_down s c1 (a :: acc) /\
    word a /\ carry_ok c1 /\ a - c1 * DIG_BASE = x - c) as (a & c1 & -> & Ha & Hc1 & Ea).
  { destruct (Z.eqb_spec c 0) as [->|].
    - exists x, 0. split; [done|]. split; [done|]. split; [by left|lia].
    - destruct (SUB x 0 c) as [a c1] eqn:E. destruct (SUB_spec _ _ _ _ _ Hx word_0 Hc E) as (Ha & Hc1 & Ea).
      exists a, c1. split; [done|]. split; [done|]. split; [done|lia]. }
  destruct (IH c1 (a :: acc) Hc1) as (c' & out & -> & Hlen & Hout & Hc' & Ev).
  exists c', (out ++ [a]). rewrite <- app_assoc. split; [done|]. rewrite app_length. split; [cbn; lia|].
  split; [by apply Forall_app; split; [|constructor]|]. split; [done|].
  rewrite B_S, !words_app, !words_one. cbn [length]. change (B 1) with DIG_BASE. nia.
Qed.

(** ** Well-formed decimals *)

Definition IW (d : decimal_t) : nat := ROUND_UP (intg d).
Definition FW (d : decimal_t) : nat := ROUND_UP (frac d).

(** The digits are in the buffer, the words are below the base, the number
    before the point has at most [intg] digits and the one after it [frac]. *)
Record wf (d : decimal_t) : Prop := mk_wf {
  wf_len : (IW d + FW d <= len d)%nat;
  wf_digits : (0 < intg d + frac d)%nat;
  wf_words : Forall word (take (IW d + FW d) (buf d));
  wf_intg : words (take (IW d) (buf d)) < powers10 (intg d);
  wf_frac : (powers10 (9 * FW d - frac d) | words (take (IW d + FW d) (buf d)))
}.

(** The magnitude in units of the n-th word after the point, cut off there. *)
Definition magnitude (n : nat) (d : decimal_t) : Z :=
  words (take (IW d + Nat.min n (FW d)) (buf d)) * B (n - FW d).

(** The value in the same units. *)
Definition value (n : nat) (d : decimal_t) : Z :=
  if sign d then - magnitude n d else magnitude n d.

Lemma powers10_pos i : 0 < powers10 i.
Proof. unfold powers10. apply Z.pow_pos_nonneg; lia. Qed.

Lemma powers10_add i j : powers10 (i + j) = powers10 i * powers10 j.
Proof. unfold powers10. rewrite Nat2Z.inj_add, Z.pow_add_r by lia. done. Qed.

Lemma powers10_B n : B n = powers10 (9 * n).
Proof.
  unfold B, powers10. change DIG_BASE with (10 ^ 9). rewrite <- Z.pow_mul_r by lia. f_equal. lia.
Qed.

Lemma powers10_divide i j : (i <= j)%nat -> (powers10 i | powers10 j).
Proof. intros H. exists (powers10 (j - i)). rewrite <- powers10_add. f_equal. lia. Qed.

Lemma powers10_le i j : (i <= j)%nat -> powers10 i <= powers10 j.
Proof. intros H. unfold powers10. apply Z.pow_le_mono_r; lia. Qed.

Lemma ROUND_UP_spec x : (x <= 9 * ROUND_UP x /\ 9 * ROUND_UP x < x + 9)%nat.
Proof.
  unfold ROUND_UP. change DIG_PER_DEC1 with 9%nat. destruct (Nat.ltb_spec 0 x).
  - pose proof (Nat.div_mod_eq (x + (9 - 1)) 9). pose proof (Nat.mod_upper_bound (x + (9 - 1)) 9). lia.
  - assert (x = 0%nat) as -> by lia. cbn. lia.
Qed.

Lemma ROUND_UP_mul n : ROUND_UP (n * DIG_PER_DEC1) = n.
Proof. pose proof (ROUND_UP_spec (n * DIG_PER_DEC1)). change DIG_PER_DEC1 with 9%nat in *. lia. Qed.

Lemma ROUND_UP_le x y : (x <= y)%nat -> (ROUND_UP x <= ROUND_UP y)%nat.
Proof. intros H. pose proof (ROUND_UP_spec x). pose proof (ROUND_UP_spec y). lia. Qed.

Lemma ROUND_UP_max x y : ROUND_UP (Nat.max x y) = Nat.max (ROUND_UP x) (ROUND_UP y).
Proof.
  destruct (Nat.le_ge_cases x y) as [H|H]; pose proof (ROUND_UP_le _ _ H);
    [rewrite !Nat.max_r|rewrite !Nat.max_l]; done.
Qed.

Lemma wf_len_pos d : wf d -> (0 < len d)%nat.
Proof.
  intros H. pose proof (wf_len d H). pose proof (wf_digits d H).
  pose proof (ROUND_UP_spec (intg d)). pose proof (ROUND_UP_spec (frac d)). unfold IW, FW in *. lia.
Qed.

Lemma take_words n d : wf d -> (n <= IW d + FW d)%nat -> Forall word (take n (buf d)).
Proof.
  intros H Hn. pose proof (wf_words d H) as Hw. apply (Forall_take _ n) in Hw. rewrite take_take in Hw.
  by replace (n `min` (IW d + FW d))%nat with n in Hw by lia.
Qed.

Lemma magnitude_nonneg n d : wf d -> 0 <= magnitude n d.
Proof.
  intros H. unfold magnitude. pose proof (words_bound _ (take_words (IW d + n `min` FW d) d H ltac:(lia))).
  pose proof (B_pos (n - FW d)). nia.
Qed.

Lemma magnitude_0 d : magnitude 0 d = words (take (IW d) (buf d)).
Proof. unfold magnitude. cbn [Nat.min]. by rewrite Nat.sub_0_l, B_0, Z.mul_1_r, Nat.add_0_r. Qed.

(** More words after the point do not change the value. *)
Lemma magnitude_exact n d : (FW d <= n)%nat -> magnitude n d = magnitude (FW d) d * B (n - FW d).
Proof.
  intros Hn. unfold magnitude. rewrite Nat.min_r, Nat.min_id, Nat.sub_diag, B_0 by done. ring.
Qed.

Lemma value_exact n d : (FW d <= n)%nat -> value n d = value (FW d) d * B (n - FW d).
Proof. intros Hn. unfold value. rewrite magnitude_exact by done. destruct (sign d); lia. Qed.

Lemma len_take n d : (n <= len d)%nat -> length (take n (buf d)) = n.
Proof. intros H. rewrite length_take. unfold len in H. lia. Qed.

(** Cutting off rounds towards zero by less than a unit. *)
Lemma magnitude_cut n d :
  wf d -> (n <= FW d)%nat ->
  magnitude n d * B (FW d - n) <= magnitude (FW d) d < (magnitude n d + 1) * B (FW d - n).
Proof.
  intros H Hn. unfold magnitude. rewrite Nat.min_l, Nat.min_id, Nat.sub_diag, B_0, Z.mul_1_r by done.
  replace (n - FW d)%nat with 0%nat by lia. rewrite B_0, Z.mul_1_r.
  rewrite <- (take_drop (IW d + n) (take (IW d + FW d) (buf d))), take_take, words_app.
  replace ((IW d + n) `min` (IW d + FW d))%nat with (IW d + n)%nat by lia.
  rewrite length_drop, len_take by apply (wf_len d H).
  replace (IW d + FW d - (IW d + n))%nat with (FW d - n)%nat by lia.
  pose proof (words_bound _ (Forall_drop _ (IW d + n) _ (wf_words d H))) as Hb.
  rewrite length_drop, len_take in Hb by apply (wf_len d H).
  replace (IW d + FW d - (IW d + n))%nat with (FW d - n)%nat in Hb by lia. lia.
Qed.

Lemma magnitude_divide n d : wf d -> (FW d <= n)%nat -> (powers10 (9 * n - frac d) | magnitude n d).
Proof.
  intros H Hn. rewrite magnitude_exact by done. unfold magnitude.
  rewrite Nat.min_id, Nat.sub_diag, B_0, Z.mul_1_r.
  pose proof (ROUND_UP_spec (frac d)) as Hr. fold (FW d) in Hr.
  replace (9 * n - frac d)%nat with (9 * FW d - frac d + 9 * (n - FW d))%nat by lia.
  rewrite powers10_add, powers10_B. apply Z.mul_divide_mono_r, (wf_frac d H).
Qed.
