(* ===== verification/DecimalAdd.v ===== *)
(** * Addition of decimals: the words of the sum and its sizes *)
From Stdlib Require Import ZArith Lia List Bool.
From stdpp Require Import base tactics list option.
From S2P Require Import Prelude Decimal DecimalValue.

Open Scope Z_scope.

(** ** Addition *)

Lemma rev_take_rev {A} n (l : list A) : rev (take n (rev l)) = drop (length l - n) l.
Proof. by rewrite firstn_rev, rev_involutive. Qed.

Lemma rev_drop_rev {A} n (l : list A) : rev (drop n (rev l)) = take (length l - n) l.
Proof. by rewrite skipn_rev, rev_involutive. Qed.

Lemma words_split n l : (n <= length l)%nat -> words l = words (take n l) * B (length l - n) + words (drop n l).
Proof. intros H. rewrite <- (take_drop n l) at 1. by rewrite words_app, length_drop. Qed.

Lemma add_words_spec ia fa a ib fb b c n :
  (fb <= fa)%nat -> (ia + fa <= length a)%nat -> (ib + fb <= length b)%nat ->
  Forall word (take (ia + fa) a) -> Forall word (take (ib + fb) b) ->
  (n = ia - ib /\ (ib <= ia) /\ c = a \/ n = ib - ia /\ ia <= ib /\ (c = b \/ n = 0))%nat ->
  exists acc, add_words ia fa a ib fb b c n = Some acc /\ Forall word acc /\
    words acc = words (take (ia + fa) a) + words (take (ib + fb) b) * B (fa - fb) /\
    (length acc = (Nat.max ia ib + fa)%nat \/
     length acc = S (Nat.max ia ib + fa) /\ B (Nat.max ia ib + fa) <= words acc).
Proof.
  intros Hf La Lb Wa Wb Hc. unfold add_words.
  set (A := take (ia + fa) a) in *. set (Bw := take (ib + fb) b) in *.
  assert (LA : length A = (ia + fa)%nat) by (unfold A; rewrite length_take; lia).
  assert (LB : length Bw = (ib + fb)%nat) by (unfold Bw; rewrite length_take; lia).
  rewrite copy_down_spec by (rewrite rev_length; lia). cbn [mbind option_bind].
  rewrite rev_take_rev, app_nil_r, LA. replace (ia + fa - (fa - fb))%nat with (ia + fb)%nat by lia.
  set (m := (ia + fb - (ia - ib))%nat).
  destruct (add_down_spec m (drop (fa - fb) (rev A)) (rev Bw) 0 (drop (ia + fb) A))
    as (c1 & out1 & -> & L1 & F1 & C1 & V1);
    [rewrite length_drop, rev_length; lia|rewrite rev_length; lia|by apply Forall_drop, Forall_rev|by apply Forall_rev|
     by left|].
  cbn [mbind option_bind].
  rewrite rev_take_rev, LB in V1.
  assert (EA : rev (take m (drop (fa - fb) (rev A))) = drop (ia - ib) (take (ia + fb) A)).
  { rewrite <- (rev_involutive (drop (fa - fb) (rev A))), rev_drop_rev, rev_take_rev, LA, length_take, LA.
    f_equal; [lia|]. f_equal. lia. }
  rewrite EA in V1. clear EA.
  assert (WC : Forall word (take n c) /\ length (take n c) = n /\
    words (take n c) = words (take (ia - ib) A) + words (take (ib - ia) Bw)).
  { destruct Hc as [(-> & Hi & ->)|(-> & Hi & Hc)].
    - replace (ib - ia)%nat with 0%nat by lia. rewrite take_0, words_nil, Z.add_0_r.
      replace (take (ia - ib) a) with (take (ia - ib) A) by (unfold A; rewrite take_take; f_equal; lia).
      split; [by apply Forall_take|]. split; [rewrite length_take; lia|done].
    - replace (ia - ib)%nat with 0%nat by lia. rewrite take_0, words_nil, Z.add_0_l.
      replace (take (ib - ia) c) with (take (ib - ia) Bw).
      + split; [by apply Forall_take|]. split; [rewrite length_take; lia|done].
      + destruct Hc as [-> | ->]; [|by rewrite !take_0]. unfold Bw. rewrite take_take. f_equal. lia. }
  destruct WC as (WC & LC & VC).
  destruct (carry_down_spec (rev (take n c)) c1 (out1 ++ drop (ia + fb) A)) as (c2 & out2 & -> & L2 & F2 & C2 & V2);
    [by apply Forall_rev|done|].
  rewrite rev_length, LC in L2, V2. rewrite rev_involutive in V2.
  set (acc := out2 ++ out1 ++ drop (ia + fb) A).
  assert (Lacc : length acc = (Nat.max ia ib + fa)%nat).
  { unfold acc. rewrite !length_app, length_drop. lia. }
  assert (Facc : Forall word acc).
  { unfold acc. rewrite !Forall_app. split; [done|]. split; [done|by apply Forall_drop]. }
  assert (Vacc : words acc + c2 * B (length acc) = words A + words Bw * B (fa - fb)).
  { rewrite Lacc. unfold acc. rewrite !words_app, length_app, length_drop, L1, LA.
    replace (ia + fa - (ia + fb))%nat with (fa - fb)%nat by lia.
    rewrite (words_split (ia + fb) A), LA by lia. replace (ia + fa - (ia + fb))%nat with (fa - fb)%nat by lia.
    rewrite (words_split (ia - ib) (take (ia + fb) A)) by (rewrite length_take; lia).
    rewrite take_take, length_take, LA.
    replace ((ia - ib) `min` (ia + fb))%nat with (ia - ib)%nat by lia.
    replace ((ia + fb) `min` (ia + fa) - (ia - ib))%nat with m by lia.
    rewrite (words_split (ib - ia) Bw), LB by lia. replace (ib + fb - (ib - ia))%nat with m by lia.
    replace (ib + fb - m)%nat with (ib - ia)%nat in V1 by lia.
    replace (Nat.max ia ib + fa)%nat with (n + m + (fa - fb))%nat by lia. rewrite !B_add.
    pose proof (B_pos m). pose proof (B_pos (fa - fb)). nia. }
  pose proof (words_bound acc Facc) as Bacc. destruct C2 as [-> | ->]; cbn [Z.eqb].
  - exists acc. split; [done|]. split; [done|]. split; [lia|by left].
  - exists (1 :: acc). split; [done|]. split; [by constructor; [apply word_1|]|].
    rewrite words_cons. split; [lia|]. cbn [length]. right. rewrite Lacc in *. split; [done|lia].
Qed.

(** A list of words by its first word. *)
Lemma words_top w l : Forall word (w :: l) -> w * B (length l) <= words (w :: l) < (w + 1) * B (length l).
Proof. intros H. apply list.Forall_cons in H as [_ H]. rewrite words_cons. pose proof (words_bound l H). lia. Qed.

Lemma words_top_take w n d :
  head (buf d) = Some w -> (0 < n <= IW d + FW d)%nat -> wf d ->
  w * B (n - 1) <= words (take n (buf d)) < (w + 1) * B (n - 1) /\ word w.
Proof.
  intros Hw Hn Hd. pose proof (take_words n d Hd ltac:(lia)) as Ht. pose proof (wf_len d Hd) as Hl. unfold len in Hl.
  destruct (buf d) as [|w' l]; [done|]. injection Hw as ->. destruct n as [|n]; [lia|]. cbn [take] in *.
  pose proof (words_top w (take n l) Ht) as H. rewrite length_take in H. cbn [length] in Hl.
  replace (n `min` length l)%nat with (S n - 1)%nat in H by lia. split; [done|].
  by apply list.Forall_cons in Ht as [Ht _].
Qed.

Lemma FIX_spec n i f i' f' e :
  FIX_INTG_FRAC_ERROR n i f = (i', f', e) ->
  (e = E_DEC_OVERFLOW /\ (n < i)%nat) \/
  (i' = i /\ f' = Nat.min f (n - i) /\ (i <= n)%nat /\
   (e = E_DEC_OK /\ (f <= n - i)%nat \/ e = E_DEC_TRUNCATED /\ (n - i < f)%nat)).
Proof.
  unfold FIX_INTG_FRAC_ERROR. destruct (Nat.ltb_spec n (i + f)); [destruct (Nat.ltb_spec n i)|]; intros [= <- <- <-];
    [by left|right..]; split_and!; done || lia.
Qed.

(** The buffer after words were written below [top]. *)
Lemma written_spec top acc b :
  (length acc <= top <= length b)%nat ->
  exists b', written top acc b = Some b' /\ length b' = length b /\
    take top b' = take (top - length acc) b ++ acc.
Proof.
  intros H. unfold written. rewrite (proj2 (Nat.leb_le _ _)) by lia. eexists. split; [done|].
  rewrite !length_app, length_take, length_drop. split; [lia|].
  rewrite app_assoc, take_app_le by (rewrite length_app, length_take; lia).
  rewrite take_ge; [done|rewrite length_app, length_take; lia].
Qed.

Section Add.
Context (a b : decimal_t) (Ha : wf a) (Hb : wf b).

(** The words of the sum, cut off after [n] words. *)
Lemma add_words_sum n :
  (n <= Nat.max (FW a) (FW b))%nat ->
  let fa := Nat.min (FW a) n in let fb := Nat.min (FW b) n in
  let '(c, k) := if (IW b <? IW a)%nat then (buf a, (IW a - IW b)%nat) else (buf b, (IW b - IW a)%nat) in
  exists acc, (if (fb <? fa)%nat then add_words (IW a) fa (buf a) (IW b) fb (buf b) c k
               else add_words (IW b) fb (buf b) (IW a) fa (buf a) c k) = Some acc /\
    Forall word acc /\ words acc = magnitude n a + magnitude n b /\
    let m := (Nat.max (IW a) (IW b) + n)%nat in
    (length acc = m \/ length acc = S m /\ B m <= words acc).
Proof.
  intros Hn fa fb. pose proof (wf_len a Ha) as La. pose proof (wf_len b Hb) as Lb.
  pose proof (take_words (IW a + fa) a Ha ltac:(lia)) as Wa. pose proof (take_words (IW b + fb) b Hb ltac:(lia)) as Wb.
  unfold len in La, Lb.
  destruct (if (IW b <? IW a)%nat then (buf a, (IW a - IW b)%nat) else (buf b, (IW b - IW a)%nat)) as [c k] eqn:Ec.
  assert (Hm : magnitude n a = words (take (IW a + fa) (buf a)) * B (n - fa) /\
               magnitude n b = words (take (IW b + fb) (buf b)) * B (n - fb)).
  { unfold magnitude, fa, fb. rewrite !(Nat.min_comm n). split; f_equal; f_equal; lia. }
  destruct Hm as [-> ->]. destruct (Nat.ltb_spec fb fa).
  - destruct (add_words_spec (IW a) fa (buf a) (IW b) fb (buf b) c k) as (acc & -> & W & V & L);
      [lia..|done|done|destruct (Nat.ltb_spec (IW b) (IW a)); injection Ec as <- <-; intuition lia|].
    assert (fa = n) as Efa by lia. rewrite Efa in *. exists acc. split; [done|]. split; [done|].
    rewrite Nat.sub_diag, B_0. split; [lia|done].
  - destruct (add_words_spec (IW b) fb (buf b) (IW a) fa (buf a) c k) as (acc & -> & W & V & L);
      [lia..|done|done|destruct (Nat.ltb_spec (IW b) (IW a)); injection Ec as <- <-; intuition lia|].
    assert (fb = n) as Efb by lia. rewrite Efb in *. exists acc. split; [done|]. split; [done|].
    rewrite Nat.sub_diag, B_0, (Nat.max_comm (IW a)). split; [lia|done].
Qed.

(** Without a first word that could overflow the sum needs no extra word. *)
Lemma sum_fits n w1 w2 :
  head (buf a) = Some w1 -> head (buf b) = Some w2 ->
  (if (IW b <? IW a)%nat then w1 else if (IW a <? IW b)%nat then w2 else w1 + w2) <= DIG_MAX - 1 ->
  (n <= Nat.max (FW a) (FW b))%nat -> (0 < Nat.max (IW a) (IW b) \/ n = Nat.max (FW a) (FW b))%nat ->
  magnitude n a + magnitude n b < B (Nat.max (IW a) (IW b) + n).
Proof.
  intros H1 H2 Hx Hn Hpos. unfold magnitude.
  assert (Hz : forall d w, wf d -> head (buf d) = Some w -> let k := (IW d + n `min` FW d)%nat in
    (0 < k)%nat -> 0 <= words (take k (buf d)) * B (n - FW d) < (w + 1) * B (IW d + n - 1) /\ 0 <= w).
  { intros d w Hd Hw k Hk. destruct (words_top_take w k d Hw ltac:(lia) Hd) as [Ht Hw']. unfold word in Hw'.
    pose proof (B_pos (n - FW d)). pose proof (B_pos (k - 1)).
    replace (IW d + n - 1)%nat with (k - 1 + (n - FW d))%nat by lia. rewrite B_add. nia. }
  assert (Hle : forall d, wf d -> let k := (IW d + n `min` FW d)%nat in
    0 <= words (take k (buf d)) * B (n - FW d) < B (IW d + n)).
  { intros d Hd k. pose proof (words_bound _ (take_words k d Hd ltac:(lia))) as Hk.
    rewrite len_take in Hk by (pose proof (wf_len d Hd); lia). pose proof (B_pos (n - FW d)).
    replace (IW d + n)%nat with (k + (n - FW d))%nat by lia. rewrite B_add. nia. }
  pose proof (Hle a Ha) as La. pose proof (Hle b Hb) as Lb. cbn zeta in *.
  assert (HS : forall m, (0 < m)%nat -> B m = DIG_BASE * B (m - 1)).
  { intros m Hm. rewrite <- B_S. f_equal. lia. }
  unfold DIG_MAX in Hx. destruct (Nat.ltb_spec (IW b) (IW a)); [|destruct (Nat.ltb_spec (IW a) (IW b))].
  - destruct (Hz a w1 Ha H1 ltac:(lia)) as [Za _]. pose proof (B_le (IW b + n) (IW a + n - 1) ltac:(lia)).
    rewrite Nat.max_l, (HS (IW a + n)%nat) by lia. pose proof (B_pos (IW a + n - 1)). nia.
  - destruct (Hz b w2 Hb H2 ltac:(lia)) as [Zb _]. pose proof (B_le (IW a + n) (IW b + n - 1) ltac:(lia)).
    rewrite Nat.max_r, (HS (IW b + n)%nat) by lia. pose proof (B_pos (IW b + n - 1)). nia.
  - assert (IW a = IW b) as E by lia. rewrite Nat.max_l by lia.
    pose proof (wf_digits a Ha). pose proof (wf_digits b Hb).
    pose proof (ROUND_UP_spec (intg a)). pose proof (ROUND_UP_spec (frac a)).
    pose proof (ROUND_UP_spec (intg b)). pose proof (ROUND_UP_spec (frac b)).
    fold (IW a) (FW a) (IW b) (FW b) in *.
    destruct (Hz a w1 Ha H1 ltac:(lia)) as [Za _]. destruct (Hz b w2 Hb H2 ltac:(lia)) as [Zb _].
    rewrite <- E in *. rewrite (HS (IW a + n)%nat) by lia. pose proof (B_pos (IW a + n - 1)). nia.
Qed.
End Add.

(** ** The results of [do_add] and [do_sub] *)

Lemma IW_mul i f s b : IW (mk_dec (i * DIG_PER_DEC1) f s b) = i.
Proof. apply ROUND_UP_mul. Qed.

Lemma result_wf i n f s b :
  ROUND_UP f = n -> (i + n <= length b)%nat -> (0 < i + f)%nat -> Forall word (take (i + n) b) ->
  (powers10 (9 * n - f) | words (take (i + n) b)) -> wf (mk_dec (i * DIG_PER_DEC1) f s b).
Proof.
  intros Hf Hl Hp Hw Hd. split; rewrite ?IW_mul; unfold FW, len; cbn [intg frac buf]; rewrite ?Hf; try done.
  - change DIG_PER_DEC1 with 9%nat. lia.
  - assert (Ht : Forall word (take i b)).
    { apply (Forall_take _ i) in Hw. by rewrite take_take, Nat.min_l in Hw by lia. }
    apply words_bound in Ht. rewrite length_take, Nat.min_l, powers10_B in Ht by lia.
    replace (i * DIG_PER_DEC1)%nat with (9 * i)%nat by (change DIG_PER_DEC1 with 9%nat; lia). lia.
Qed.

(** The words after the point of a result, and its error. *)
Definition cut (err : Z) (n : nat) (a b : decimal_t) : Prop :=
  err = E_DEC_OK /\ n = Nat.max (FW a) (FW b) \/ err = E_DEC_TRUNCATED /\ (n < Nat.max (FW a) (FW b))%nat.

Lemma cut_le err n a b : cut err n a b -> (n <= Nat.max (FW a) (FW b))%nat.
Proof. unfold cut. lia. Qed.

(** The scale of the result, and that its last digits are zero. *)
Lemma result_frac err n a b :
  wf a -> wf b -> cut err n a b ->
  let f := Nat.max (frac a) (frac b) in
  let f' := if err =? E_DEC_OK then f else Nat.min f (n * DIG_PER_DEC1) in
  ROUND_UP f' = n /\
  forall v, v = magnitude n a + magnitude n b \/ v = magnitude n a - magnitude n b -> (powers10 (9 * n - f') | v).
Proof.
  intros Ha Hb Hc f f'. change DIG_PER_DEC1 with 9%nat in f'.
  assert (Hf : ROUND_UP f = Nat.max (FW a) (FW b)) by apply ROUND_UP_max.
  pose proof (ROUND_UP_spec f) as Hr. destruct Hc as [[-> Hn]|[-> Hn]]; cbn in f'.
  - unfold f'. split; [lia|]. intros v Hv.
    assert (forall d, wf d -> (frac d <= f)%nat -> (FW d <= n)%nat -> (powers10 (9 * n - f) | magnitude n d)) as Hd.
    { intros d Wd Hd Hd'. apply (Z.divide_trans _ (powers10 (9 * n - frac d))); [apply powers10_divide; lia|].
      by apply magnitude_divide. }
    pose proof (Hd a Ha ltac:(lia) ltac:(lia)). pose proof (Hd b Hb ltac:(lia) ltac:(lia)).
    destruct Hv as [-> | ->]; [by apply Z.divide_add_r|by apply Z.divide_sub_r].
  - unfold f'. rewrite Nat.min_r by lia. split; [apply (ROUND_UP_mul n)|]. intros v _.
    replace (9 * n - n * 9)%nat with 0%nat by lia. apply Z.divide_1_l.
Qed.

Lemma max_words_full n : max_words (n * DIG_PER_DEC1) 0 = replicate n DIG_MAX.
Proof.
  unfold max_words. rewrite Nat.Div0.mod_mul, Nat.div_mul by done. cbn. by rewrite app_nil_r.
Qed.

Lemma words_max n : words (replicate n DIG_MAX) = B n - 1.
Proof.
  induction n as [|n IH]; [done|]. cbn [replicate]. rewrite words_cons, IH, B_S, length_replicate.
  unfold DIG_MAX. lia.
Qed.

Lemma max_decimal_spec to :
  (0 < len to)%nat ->
  let r := max_decimal (len to * DIG_PER_DEC1) 0 to in
  wf r /\ len r = len to /\ sign r = false /\ FW r = 0%nat /\ magnitude 0 r = B (len to) - 1.
Proof.
  intros Hl r. unfold r, max_decimal. rewrite Nat.sub_0_r, max_words_full. unfold overwrite, len in *.
  rewrite length_replicate, drop_ge, app_nil_r by lia. set (n := length (buf to)) in *.
  assert (Ht : take (n + 0) (replicate n DIG_MAX) = replicate n DIG_MAX) by (rewrite take_ge; [done|rewrite length_replicate; lia]).
  split; [|split; [by cbn; rewrite length_replicate|split; [done|split; [done|]]]].
  - apply (result_wf n 0); [done|rewrite length_replicate; lia|lia|..].
    + rewrite Ht. apply Forall_replicate. unfold word, DIG_MAX, DIG_BASE. lia.
    + apply Z.divide_1_l.
  - unfold magnitude. rewrite IW_mul. change (FW _) with 0%nat. cbn [buf Nat.min Nat.sub]. by rewrite Ht, words_max, B_0, Z.mul_1_r.
Qed.

(** The words of a result written into the buffer, with zeroes before them. *)
Lemma result_spec err n i s v a b acc bf :
  wf a -> wf b -> cut err n a b -> (0 < i + Nat.max (frac a) (frac b))%nat ->
  (i + n <= length bf)%nat -> (0 < length bf)%nat -> (length acc <= i + n)%nat -> Forall word acc -> words acc = v ->
  v = magnitude n a + magnitude n b \/ v = magnitude n a - magnitude n b ->
  take (i + n - length acc) bf = replicate (i + n - length acc) 0 ->
  (err = E_DEC_TRUNCATED -> (i + n)%nat = length bf) ->
  exists b', written (i + n) acc bf = Some b' /\
    let r := mk_dec (i * DIG_PER_DEC1)
      (if err =? E_DEC_OK then Nat.max (frac a) (frac b) else Nat.min (Nat.max (frac a) (frac b)) (n * DIG_PER_DEC1)) s b' in
    wf r /\ len r = length bf /\ FW r = n /\ IW r = i /\ magnitude n r = v.
Proof.
  intros Ha Hb Hc Hp Hl Hl' La Wacc Vacc Hv Hz Ht.
  destruct (result_frac err n a b Ha Hb Hc) as [Hf Hd].
  destruct (written_spec (i + n) acc bf ltac:(lia)) as (b' & -> & Lb & Tb). rewrite Hz in Tb.
  exists b'. split; [done|]. cbn zeta in *.
  set (f := if err =? E_DEC_OK then Nat.max (frac a) (frac b)
            else Nat.min (Nat.max (frac a) (frac b)) (n * DIG_PER_DEC1)) in *.
  assert (Wr : Forall word (take (i + n) b')).
  { rewrite Tb. apply Forall_app. split; [apply Forall_replicate, word_0|done]. }
  assert (Vr : words (take (i + n) b') = v) by (rewrite Tb, words_app, words_zeros; lia).
  split; [|split; [done|split; [done|split; [apply IW_mul|]]]].
  - apply (result_wf i n); [done|lia| |done|rewrite Vr; by apply Hd].
    destruct Hc as [[He Hn]|[He Hn]]; unfold f; rewrite He; cbn [Z.eqb Pos.eqb E_DEC_OK E_DEC_TRUNCATED]; [lia|].
    specialize (Ht He). change DIG_PER_DEC1 with 9%nat. change (E_DEC_TRUNCATED =? E_DEC_OK) with false. cbn iota. lia.
  - unfold magnitude. rewrite IW_mul. replace (FW _) with n by done. cbn [buf].
    by rewrite Nat.min_id, Nat.sub_diag, B_0, Z.mul_1_r.
Qed.

(** The first words of operands that fill the buffer. *)
Lemma add_overflow a b n w1 w2 :
  wf a -> wf b -> len a = n -> len b = n -> (0 < n)%nat -> head (buf a) = Some w1 -> head (buf b) = Some w2 ->
  Nat.max (IW a) (IW b) = n ->
  DIG_MAX <= (if (IW b <? IW a)%nat then w1 else if (IW a <? IW b)%nat then w2 else w1 + w2) ->
  DIG_MAX * B (n - 1) <= magnitude 0 a + magnitude 0 b.
Proof.
  intros Ha Hb La Lb Hn H1 H2 Hm Hx. pose proof (magnitude_nonneg 0 a Ha) as Pa. pose proof (magnitude_nonneg 0 b Hb) as Pb.
  assert (Hz : forall d w, wf d -> head (buf d) = Some w -> IW d = n -> w * B (n - 1) <= magnitude 0 d).
  { intros d w Hd Hw HI. rewrite magnitude_0, HI.
    destruct (words_top_take w n d Hw ltac:(lia) Hd) as [Ht _]. apply Ht. }
  pose proof (B_pos (n - 1)).
  destruct (Nat.ltb_spec (IW b) (IW a)); [|destruct (Nat.ltb_spec (IW a) (IW b))].
  - pose proof (Hz a w1 Ha H1 ltac:(lia)). nia.
  - pose proof (Hz b w2 Hb H2 ltac:(lia)). nia.
  - pose proof (Hz a w1 Ha H1 ltac:(lia)). pose proof (Hz b w2 Hb H2 ltac:(lia)). nia.
Qed.

(** The sum stored in the buffer of the result. *)
Lemma add_stored a b to w1 w2 i err n :
  wf a -> wf b -> len a = len to -> len b = len to -> head (buf a) = Some w1 -> head (buf b) = Some w2 ->
  (i = Nat.max (IW a) (IW b) /\
   (if (IW b <? IW a)%nat then w1 else if (IW a <? IW b)%nat then w2 else w1 + w2) <= DIG_MAX - 1 \/
   i = S (Nat.max (IW a) (IW b)) /\ head (buf to) = Some 0) ->
  (i <= len to)%nat -> n = Nat.min (Nat.max (FW a) (FW b)) (len to - i) -> cut err n a b ->
  let fa := Nat.min (FW a) n in let fb := Nat.min (FW b) n in
  let '(c, k) := if (IW b <? IW a)%nat then (buf a, (IW a - IW b)%nat) else (buf b, (IW b - IW a)%nat) in
  exists acc b', (if (fb <? fa)%nat then add_words (IW a) fa (buf a) (IW b) fb (buf b) c k
               else add_words (IW b) fb (buf b) (IW a) fa (buf a) c k) = Some acc /\
    written (i + n) acc (buf to) = Some b' /\
    let r := mk_dec (i * DIG_PER_DEC1)
      (if err =? E_DEC_OK then Nat.max (frac a) (frac b) else Nat.min (Nat.max (frac a) (frac b)) (n * DIG_PER_DEC1))
      (sign a) b' in
    wf r /\ len r = len to /\ FW r = n /\ magnitude n r = magnitude n a + magnitude n b.
Proof.
  intros Ha Hb La Lb H1 H2 Hi Hle Hn Hc fa fb.
  pose proof (add_words_sum a b Ha Hb n ltac:(lia)) as Hs. cbn zeta in Hs.
  destruct (if (IW b <? IW a)%nat then (buf a, (IW a - IW b)%nat) else (buf b, (IW b - IW a)%nat)) as [c k].
  destruct Hs as (acc & Ea & Wacc & Vacc & Lacc). exists acc. unfold fa, fb. rewrite Ea.
  pose proof (wf_digits a Ha) as Da. pose proof (wf_len a Ha) as Wa. pose proof (wf_len b Hb) as Wb.
  pose proof (ROUND_UP_spec (intg a)) as Ra. pose proof (ROUND_UP_spec (frac a)) as Ra'. fold (IW a) (FW a) in Ra, Ra'.
  assert (Hlen : (length acc <= i + n)%nat /\
    take (i + n - length acc) (buf to) = replicate (i + n - length acc) 0).
  { destruct Hi as [[-> Hx]|[-> H0]].
    - pose proof (sum_fits a b Ha Hb n w1 w2 H1 H2 Hx ltac:(lia) ltac:(unfold cut in Hc; lia)).
      assert (length acc = (Nat.max (IW a) (IW b) + n)%nat) as -> by lia. rewrite Nat.sub_diag. split; [lia|done].
    - split; [lia|]. destruct Lacc as [-> | [-> _]]; [|by replace (_ - _)%nat with 0%nat by lia].
      replace (_ - _)%nat with 1%nat by lia. destruct (buf to); [done|]. by injection H0 as ->. }
  destruct Hlen as [Hlen Hzero].
  destruct (result_spec err n i (sign a) (magnitude n a + magnitude n b) a b acc (buf to) Ha Hb Hc) as (b' & Eb & Wr & Lr & Fr & _ & Mr);
    try done; unfold len in *; [lia..|by left| |].
  { intros ->. unfold cut in Hc. destruct Hc as [[Hc _]|[_ Hc]]; [done|lia]. }
  exists b'. rewrite Mr. done.
Qed.

(** What [do_add] gives. *)
Definition add_result (a b to : decimal_t) (err : Z) (r : decimal_t) : Prop :=
  wf r /\ len r = len to /\
  ((err = E_DEC_OVERFLOW /\ DIG_MAX * B (len to - 1) <= magnitude 0 a + magnitude 0 b /\
    sign r = false /\ FW r = 0%nat /\ magnitude 0 r = B (len to) - 1) \/
   (cut err (FW r) a b /\ sign r = sign a /\
    magnitude (FW r) r = magnitude (FW r) a + magnitude (FW r) b)).

Lemma add_store_spec a b to w1 w2 i :
  let x := if (IW b <? IW a)%nat then w1 else if (IW a <? IW b)%nat then w2 else w1 + w2 in
  wf a -> wf b -> len a = len to -> len b = len to -> head (buf a) = Some w1 -> head (buf b) = Some w2 ->
  i = Nat.max (IW a) (IW b) /\ x <= DIG_MAX - 1 \/
  i = S (Nat.max (IW a) (IW b)) /\ DIG_MAX <= x /\ head (buf to) = Some 0 ->
  exists err r, add_store a b i to = Some (err, r) /\ add_result a b to err r.
Proof.
  intros x Ha Hb La Lb E1 E2 Hx. unfold add_store. fold (IW a) (IW b) (FW a) (FW b).
  pose proof (wf_len a Ha) as Wa. pose proof (wf_len b Hb) as Wb. pose proof (wf_len_pos a Ha) as Pa.
  destruct (FIX_INTG_FRAC_ERROR (len to) i (Nat.max (FW a) (FW b))) as [[i' n] err] eqn:EF.
  apply FIX_spec in EF as [[-> Ho]|(-> & En & Hi & He)].
  - cbn [Z.eqb Pos.eqb]. destruct (max_decimal_spec to ltac:(lia)) as (M1 & M2 & M3 & M4 & M5).
    eexists _, _. split; [done|]. split; [done|]. split; [congruence|]. left. split; [done|].
    split; [|done]. apply (add_overflow a b (len to) w1 w2); try done; lia.
  - assert (Hc : cut err n a b) by (unfold cut; destruct He as [[-> He]|[-> He]]; [left|right]; split; done || lia).
    replace (err =? E_DEC_OVERFLOW) with false by (by destruct He as [[-> _]|[-> _]]).
    assert (Hii : forall j, (j <= i)%nat -> (if err =? E_DEC_OK then j else Nat.min j i) = j)
      by (intros j Hj; destruct (err =? E_DEC_OK); lia).
    assert (Hif : forall f, (f <= Nat.max (FW a) (FW b))%nat ->
      (if err =? E_DEC_OK then f else Nat.min f n) = Nat.min f n).
    { intros f Hf. destruct (Z.eqb_spec err E_DEC_OK) as [->|]; [destruct He as [[_ He]|[He _]]; [lia|done]|done]. }
    rewrite (Hii (IW a)), (Hii (IW b)), (Hif (FW a)), (Hif (FW b)) by lia.
    pose proof (add_stored a b to w1 w2 i err n Ha Hb La Lb E1 E2) as Hs.
    destruct (if (IW b <? IW a)%nat then (buf a, (IW a - IW b)%nat) else (buf b, (IW b - IW a)%nat)) as [c k].
    destruct Hs as (acc & b' & -> & Eb & Wr & Lr & Fr & Mr); [|done|done|done|].
    { destruct Hx as [Hx|(Hx & _ & H0)]; [by left|by right]. }
    cbn [mbind option_bind]. rewrite Eb. eexists _, _. split; [done|]. split; [done|]. split; [done|].
    right. rewrite Fr. done.
Qed.

Lemma do_add_spec a b to :
  wf a -> wf b -> len a = len to -> len b = len to ->
  exists err r, do_add a b to = Some (err, r) /\ add_result a b to err r.
Proof.
  intros Ha Hb La Lb. unfold do_add. fold (IW a) (IW b).
  pose proof (wf_len_pos a Ha) as Pa. pose proof (wf_len_pos b Hb) as Pb.
  destruct (head (buf a)) as [w1|] eqn:E1; [|unfold len in *; destruct (buf a); cbn in *; [lia|done]].
  destruct (head (buf b)) as [w2|] eqn:E2; [|unfold len in *; destruct (buf b); cbn in *; [lia|done]].
  cbn [mbind option_bind]. destruct (Z.ltb_spec (DIG_MAX - 1) (if (IW b <? IW a)%nat then w1
    else if (IW a <? IW b)%nat then w2 else w1 + w2)) as [Hx|Hx].
  - set (to1 := mk_dec _ _ _ _). assert (L1 : len to1 = len to).
    { unfold to1, overwrite, len in *. cbn. rewrite length_drop. destruct (buf to); cbn in *; lia. }
    destruct (add_store_spec a b to1 w1 w2 (S (Nat.max (IW a) (IW b)))) as (err & r & E & Hr);
      try done; [congruence..|right; split; [done|split; [lia|done]]|].
    exists err, r. split; [done|]. unfold add_result in *. by rewrite L1 in Hr.
  - apply (add_store_spec a b to w1 w2); try done. left. done.
Qed.

(** ** Numbers from words *)

(** A result of the digits in the words [l]. *)
Lemma digits_result i f s l to :
  Forall word l -> length l = (ROUND_UP i + ROUND_UP f)%nat -> (length l <= len to)%nat -> (0 < i + f)%nat ->
  (powers10 (9 * ROUND_UP f - f) | words l) -> words l < powers10 i * B (ROUND_UP f) ->
  let r := mk_dec i f s (overwrite l (buf to)) in wf r /\ magnitude (FW r) r = words l.
Proof.
  intros Hw Hl Hlen Hd Hdiv Hi r. unfold len in *. change (ROUND_UP i) with (IW r) in *. change (ROUND_UP f) with (FW r) in *.
  assert (Ht : take (IW r + FW r) (buf r) = l) by (unfold r at 3, overwrite; cbn [buf]; by apply take_app_length').
  assert (Ht' : take (IW r) (buf r) = take (IW r) l) by (rewrite <- Ht, take_take; f_equal; lia).
  split; [constructor|].
  - unfold len, r at 3, overwrite. cbn [buf]. rewrite length_app, length_drop. lia.
  - exact Hd.
  - by rewrite Ht.
  - rewrite Ht'. pose proof (words_split (IW r) l ltac:(lia)) as Hs. pose proof (words_bound _ (Forall_drop _ (IW r) _ Hw)) as Hb.
    replace (length l - IW r)%nat with (FW r) in Hs by lia. pose proof (B_pos (FW r)). cbn [intg r]. nia.
  - by rewrite Ht.
  - unfold magnitude. by rewrite Nat.min_id, Nat.sub_diag, B_0, Z.mul_1_r, Ht.
Qed.

Lemma magnitude_lt n d : wf d -> (FW d <= n)%nat -> magnitude n d < powers10 (intg d) * B n.
Proof.
  intros H Hn. rewrite magnitude_exact by done. unfold magnitude. rewrite Nat.min_id, Nat.sub_diag, B_0, Z.mul_1_r.
  pose proof (wf_len d H) as Hlen. rewrite (words_split (IW d)), take_take, Nat.min_l by (rewrite ?len_take; lia). rewrite len_take by done.
  replace (IW d + FW d - IW d)%nat with (FW d) by lia.
  pose proof (words_bound _ (Forall_drop _ (IW d) _ (wf_words d H))) as Hb. rewrite length_drop, len_take in Hb by done.
  replace (IW d + FW d - IW d)%nat with (FW d) in Hb by lia. pose proof (wf_intg d H) as Hi. pose proof (B_pos (FW d)). pose proof (B_pos (n - FW d)).
  replace (B n) with (B (FW d) * B (n - FW d)) by (rewrite <- B_add; f_equal; lia). rewrite Z.mul_assoc. apply Z.mul_lt_mono_pos_r; [done|]. nia.
Qed.

(** A magnitude with its sign. *)
Definition signed (s : bool) (v : Z) : Z := if s then - v else v.

Lemma value_signed n d : value n d = signed (sign d) (magnitude n d).
Proof. done. Qed.
