(* ===== verification/DecimalSub.v ===== *)
(** * Comparison and subtraction of decimals, and that the arithmetic is exact *)
From Stdlib Require Import ZArith Lia List Bool.
From stdpp Require Import base tactics list option.
From S2P Require Import Prelude Decimal DecimalValue DecimalAdd.

Open Scope Z_scope.

(** ** Comparison *)

(** The magnitude at fewer words after the point. *)
Lemma magnitude_div n m d : wf d -> (n <= m)%nat -> magnitude n d = magnitude m d / B (m - n).
Proof.
  intros H Hnm. pose proof (wf_len d H) as Hl. unfold magnitude.
  pose proof (take_words (IW d + m `min` FW d) d H ltac:(lia)) as Hw.
  rewrite (words_split (IW d + n `min` FW d) (take (IW d + m `min` FW d) (buf d)))
    by (rewrite len_take; lia).
  rewrite take_take, len_take by lia.
  replace ((IW d + n `min` FW d) `min` (IW d + m `min` FW d))%nat with (IW d + n `min` FW d)%nat by lia.
  pose proof (words_bound _ (Forall_drop _ (IW d + n `min` FW d) _ Hw)) as Hb.
  rewrite length_drop, len_take in Hb by lia.
  replace (IW d + m `min` FW d - (IW d + n `min` FW d))%nat with (m `min` FW d - n `min` FW d)%nat in * by lia.
  set (low := words _) in *. set (high := words (take _ _)) in *. set (k := (m `min` FW d - n `min` FW d)%nat) in *.
  pose proof (B_pos (m - n)). pose proof (B_pos (m - FW d)). pose proof (B_pos k).
  assert (E : B k * B (m - FW d) = B (n - FW d) * B (m - n)) by (rewrite <- !B_add; f_equal; lia).
  apply (Z.div_unique _ _ _ (low * B (m - FW d))).
  - left. split; [nia|]. destruct (Nat.le_gt_cases (FW d) n).
    + replace k with 0%nat in * by lia. rewrite B_0 in *. assert (low = 0) as -> by lia. lia.
    + replace (B (m - n)) with (B k * B (m - FW d)); [nia|]. rewrite <- B_add. f_equal. lia.
  - rewrite Z.mul_add_distr_r, <- Z.mul_assoc, E. ring.
Qed.

Lemma strip_zeros_spec l : exists k, l = strip_zeros l ++ replicate k 0.
Proof.
  induction l as [|w l [k IH]]; [by exists 0%nat|]. cbn [strip_zeros].
  destruct (strip_zeros l) as [|x l'] eqn:E.
  - destruct (Z.eqb_spec w 0) as [->|]; cbn in IH; rewrite IH; [by exists (S k)|by exists k].
  - exists k. by rewrite IH at 1.
Qed.

(** A list of words that does not end in zero. *)
Definition stripped (l : list Z) : Prop := strip_zeros l = l.

Lemma strip_stripped l : stripped (strip_zeros l).
Proof.
  unfold stripped. induction l as [|w l IH]; [done|]. cbn [strip_zeros].
  destruct (strip_zeros l) as [|x l'] eqn:E.
  - destruct (Z.eqb_spec w 0); [done|]. cbn. by destruct (Z.eqb_spec w 0).
  - cbn [strip_zeros] in *. by rewrite IH.
Qed.

Lemma stripped_tail w l : stripped (w :: l) -> stripped l.
Proof.
  unfold stripped. cbn [strip_zeros]. destruct (strip_zeros l) as [|x l'] eqn:E.
  - destruct (w =? 0); [done|]. by intros [= <-].
  - by intros [= <-].
Qed.

Lemma stripped_pos l : stripped l -> Forall word l -> l <> [] -> 0 < words l.
Proof.
  intros Hs Hw Hn. induction Hw as [|w l Hw Hl IH]; [done|]. rewrite words_cons. unfold word in Hw.
  pose proof (B_pos (length l)). pose proof (words_bound l Hl). destruct l as [|x l].
  - unfold stripped in Hs. cbn in Hs. destruct (Z.eqb_spec w 0); [done|]. rewrite words_nil. cbn [length]. rewrite B_0. lia.
  - pose proof (IH (stripped_tail _ _ Hs) ltac:(done)). nia.
Qed.

(** Words as a fraction in units of the [n]-th word. *)
Definition fraction (n : nat) (l : list Z) : Z := words l * B (n - length l).

Lemma compare_words_spec l1 l2 n :
  Forall word l1 -> Forall word l2 -> stripped l1 -> stripped l2 -> (length l1 <= n)%nat -> (length l2 <= n)%nat ->
  match compare_words l1 l2 with
  | None => fraction n l1 = fraction n l2
  | Some true => fraction n l1 < fraction n l2
  | Some false => fraction n l2 < fraction n l1
  end.
Proof.
  intros W1. revert l2 n. induction W1 as [|x l1 Hx W1 IH]; intros [|y l2] n W2 S1 S2 L1 L2; cbn [compare_words].
  - done.
  - unfold fraction. rewrite words_nil. pose proof (stripped_pos _ S2 W2 ltac:(done)). pose proof (B_pos (n - length (y :: l2))). nia.
  - unfold fraction. rewrite words_nil. pose proof (stripped_pos (x :: l1) S1 ltac:(by constructor) ltac:(done)).
    pose proof (B_pos (n - length (x :: l1))). nia.
  - apply list.Forall_cons in W2 as [Hy W2]. cbn [length] in L1, L2. destruct n as [|n]; [lia|].
    assert (E : forall w l, (length l <= n)%nat -> fraction (S n) (w :: l) = w * B n + fraction n l).
    { intros w l Hl. unfold fraction. cbn [length]. rewrite words_cons.
      replace (S n - S (length l))%nat with (n - length l)%nat by lia.
      replace (B n) with (B (length l) * B (n - length l)); [ring|]. rewrite <- B_add. f_equal. lia. }
    assert (Bd : forall l, Forall word l -> (length l <= n)%nat -> 0 <= fraction n l < B n).
    { intros l Wl Hl. unfold fraction. pose proof (words_bound l Wl). pose proof (B_pos (n - length l)).
      replace (B n) with (B (length l) * B (n - length l)); [nia|]. rewrite <- B_add. f_equal. lia. }
    rewrite !E by lia. pose proof (Bd l1 W1 ltac:(lia)). pose proof (Bd l2 W2 ltac:(lia)).
    destruct (Z.eqb_spec x y) as [->|].
    + specialize (IH l2 n W2 (stripped_tail _ _ S1) (stripped_tail _ _ S2) ltac:(lia) ltac:(lia)).
      destruct (compare_words l1 l2) as [[]|]; lia.
    + destruct (Z.ltb_spec x y); unfold word in *; nia.
Qed.

Lemma skip_words_spec b n :
  (n <= length b)%nat ->
  let '(b', n') := skip_words b n in
  (n' <= n)%nat /\ b' = drop (n - n') b /\ take (n - n') b = replicate (n - n') 0 /\
  ((0 < n')%nat -> exists w, head b' = Some w /\ w <> 0).
Proof.
  revert n. induction b as [|w b IH]; intros [|n] Hn; cbn [skip_words length] in *; try lia;
    [by split_and!; [lia|..|lia]|by split_and!; [lia|..|lia]|].
  destruct (Z.eqb_spec w 0) as [->|Hw].
  - specialize (IH n ltac:(lia)). destruct (skip_words b n) as [b' n']. destruct IH as (H1 & H2 & H3 & H4).
    replace (S n - n')%nat with (S (n - n')) by lia. cbn [drop take replicate]. rewrite H3. split; [lia|done].
  - rewrite Nat.sub_diag. split; [done|]. split; [done|]. split; [done|]. intros _. by exists w.
Qed.

(** An operand of [do_sub] as a view of a decimal. *)
Record op_ok (d : decimal_t) (o : operand) : Prop := {
  op_source : source o = d;
  op_ints : (ints o <= IW d)%nat;
  op_start : start o = drop (IW d - ints o) (buf d);
  op_zeros : take (IW d - ints o) (buf d) = replicate (IW d - ints o) 0;
  op_lead : (0 < ints o)%nat -> exists w, head (start o) = Some w /\ w <> 0;
  op_fracs : - Z.of_nat (ints o) <= fracs o <= Z.of_nat (FW d);
  op_tail : let k := Z.to_nat (Z.of_nat (ints o) + fracs o) in
    drop k (take (ints o + FW d) (start o)) = replicate (ints o + FW d - k) 0
}.

Lemma operand_of_ok d : wf d -> op_ok d (operand_of d) /\ fracs (operand_of d) = Z.of_nat (FW d).
Proof.
  intros H. pose proof (wf_len d H) as Hl. unfold operand_of. fold (IW d) (FW d).
  pose proof (skip_words_spec (buf d) (IW d) ltac:(unfold len in Hl; lia)) as Hs.
  destruct (skip_words (buf d) (IW d)) as [b k]. destruct Hs as (H1 & H2 & H3 & H4). split; [|done].
  split; cbn [source ints start fracs]; try done; [lia|].
  replace (Z.to_nat _) with (k + FW d)%nat by lia. rewrite Nat.sub_diag, drop_ge; [done|rewrite length_take; lia].
Qed.

Lemma op_prefix d o n : wf d -> op_ok d o -> (n <= FW d)%nat ->
  take (IW d + n) (buf d) = replicate (IW d - ints o) 0 ++ take (ints o + n) (start o).
Proof.
  intros H Ho Hn. pose proof (wf_len d H) as Hl. unfold len in Hl.
  rewrite (op_start d o Ho), <- (op_zeros d o Ho). pose proof (op_ints d o Ho).
  rewrite take_drop_commute. replace (IW d - ints o + (ints o + n))%nat with (IW d + n)%nat by lia.
  rewrite <- (take_drop (IW d - ints o) (take (IW d + n) (buf d))) at 1. rewrite take_take. f_equal. f_equal. lia.
Qed.

(** The words of an operand, cut off after [n] words, give the magnitude. *)
Lemma op_value d o n :
  wf d -> op_ok d o ->
  let f := Z.min (fracs o) (Z.of_nat n) in
  words (take (Z.to_nat (Z.of_nat (ints o) + f)) (start o)) * B (Z.to_nat (Z.of_nat n - f)) = magnitude n d.
Proof.
  intros H Ho f. pose proof (op_fracs d o Ho) as Hf. pose proof (wf_len d H) as Hl. unfold len in Hl.
  pose proof (op_ints d o Ho) as Hi. unfold magnitude.
  rewrite (op_prefix d o (n `min` FW d) H Ho), words_app, words_zeros by lia. cbn [Z.mul Z.add]. rewrite Z.add_0_l.
  set (k := Z.to_nat (Z.of_nat (ints o) + f)).
  assert (Ls : (ints o + FW d <= length (start o))%nat) by (rewrite (op_start d o Ho), length_drop; lia).
  rewrite (words_split k (take (ints o + n `min` FW d) (start o))) by (rewrite length_take; lia).
  rewrite take_take, length_take.
  assert (E0 : words (drop k (take (ints o + n `min` FW d) (start o))) = 0).
  { destruct (Z.le_gt_cases (fracs o) (Z.of_nat n)).
    - pose proof (op_tail d o Ho) as Ht. cbn zeta in Ht. replace (Z.to_nat _) with k in Ht by lia.
      apply (f_equal (take (ints o + n `min` FW d - k))) in Ht. rewrite take_drop_commute, take_take in Ht.
      replace ((k + (ints o + n `min` FW d - k)) `min` (ints o + FW d))%nat with (ints o + n `min` FW d)%nat in Ht by lia.
      rewrite Ht, take_replicate. apply words_zeros.
    - rewrite drop_ge; [done|]. rewrite length_take. lia. }
  rewrite E0, Z.add_0_r. replace (k `min` (ints o + n `min` FW d))%nat with k by lia.
  rewrite <- Z.mul_assoc, <- B_add. f_equal. f_equal. lia.
Qed.

Lemma op_words_ok d o : wf d -> op_ok d o -> Forall word (take (ints o + FW d) (start o)).
Proof.
  intros H Ho. pose proof (wf_words d H) as Hw. rewrite (op_prefix d o (FW d) H Ho) in Hw by done.
  by apply Forall_app in Hw as [_ Hw].
Qed.

Lemma op_length d o : wf d -> op_ok d o -> (ints o + FW d <= length (start o))%nat.
Proof.
  intros H Ho. pose proof (wf_len d H) as Hl. unfold len in Hl. pose proof (op_ints d o Ho).
  rewrite (op_start d o Ho), length_drop. lia.
Qed.

(** The first word of an operand is not zero. *)
Lemma op_size d o n :
  wf d -> op_ok d o ->
  magnitude n d < B (ints o + n) /\ ((0 < ints o)%nat -> B (ints o - 1 + n) <= magnitude n d).
Proof.
  intros H Ho. pose proof (op_length d o H Ho) as Hl. pose proof (op_words_ok d o H Ho) as Hw.
  pose proof (op_ints d o Ho) as Hi. unfold magnitude.
  rewrite (op_prefix d o (n `min` FW d) H Ho), words_app, words_zeros by lia. rewrite Z.mul_0_l, Z.add_0_l.
  assert (Hk : Forall word (take (ints o + n `min` FW d) (start o))).
  { apply (Forall_take _ (ints o + n `min` FW d)) in Hw. rewrite take_take in Hw.
    by replace ((ints o + n `min` FW d) `min` (ints o + FW d))%nat with (ints o + n `min` FW d)%nat in Hw by lia. }
  pose proof (B_pos (n - FW d)). split.
  - pose proof (words_bound _ Hk) as Hb. rewrite length_take in Hb.
    replace (ints o + n)%nat with ((ints o + n `min` FW d) `min` length (start o) + (n - FW d))%nat by lia.
    rewrite B_add. nia.
  - intros Hp. destruct (op_lead d o Ho Hp) as (w & Hw0 & Hne). destruct (start o) as [|w' l]; [done|]. injection Hw0 as ->.
    destruct (ints o) as [|i] eqn:Ei; [lia|]. cbn [take Nat.add length] in *.
    pose proof (words_top _ _ Hk) as Ht. rewrite length_take in Ht. apply list.Forall_cons in Hk as [Hww _]. unfold word in Hww.
    replace (S i - 1 + n)%nat with ((i + n `min` FW d) `min` length l + (n - FW d))%nat by lia.
    rewrite B_add. pose proof (B_pos ((i + n `min` FW d) `min` length l)). nia.
Qed.

Lemma strip_op_ok d o :
  wf d -> op_ok d o -> fracs o = Z.of_nat (FW d) -> op_ok d (strip_op o).
Proof.
  intros H Ho Hf. pose proof (op_length d o H Ho) as Hl. destruct Ho as [O1 O2 O3 O4 O5 O6 O7].
  unfold strip_op, op_words. rewrite Hf. replace (Z.to_nat _) with (ints o + FW d)%nat by lia.
  set (l := take (ints o + FW d) (start o)). destruct (strip_zeros_spec l) as [k Hk].
  assert (Hlen : (length (strip_zeros l) + k = ints o + FW d)%nat).
  { apply (f_equal length) in Hk. rewrite length_app, length_replicate in Hk. unfold l in Hk at 1.
    rewrite length_take in Hk. lia. }
  split; cbn [source ints start fracs]; try done; [lia|].
  replace (Z.to_nat _) with (length (strip_zeros l)) by lia. fold l. rewrite Hk at 2. rewrite drop_app_length. f_equal. lia.
Qed.

(** The magnitude of an operand as a fraction. *)
Lemma op_fraction d o n :
  wf d -> op_ok d o -> fracs o = Z.of_nat (FW d) -> (FW d <= n)%nat ->
  fraction (ints o + n) (strip_zeros (op_words o)) = magnitude n d.
Proof.
  intros H Ho Hf Hn. pose proof (op_length d o H Ho) as Hl. rewrite <- (op_value d o n H Ho). cbn zeta.
  rewrite Z.min_l, Hf by lia. unfold op_words. rewrite Hf. unfold fraction.
  replace (Z.to_nat (Z.of_nat (ints o) + Z.of_nat (FW d))) with (ints o + FW d)%nat by lia.
  set (l := take (ints o + FW d) (start o)). destruct (strip_zeros_spec l) as [k Hk].
  assert (Hlen : (length (strip_zeros l) + k = ints o + FW d)%nat).
  { apply (f_equal length) in Hk. rewrite length_app, length_replicate in Hk. unfold l in Hk at 1.
    rewrite length_take in Hk. lia. }
  rewrite Hk at 3. rewrite words_app, words_zeros, length_replicate, Z.add_0_r, <- Z.mul_assoc, <- B_add.
  f_equal. f_equal. lia.
Qed.

Lemma sub_compare_spec a b :
  wf a -> wf b ->
  let n := Nat.max (FW a) (FW b) in
  match sub_compare a b with
  | None => magnitude n a = magnitude n b
  | Some (o1, o2, carry) =>
      op_ok a o1 /\ op_ok b o2 /\
      (ints o1 = ints o2 \/ 0 <= fracs o1 /\ 0 <= fracs o2) /\
      if carry then magnitude n a < magnitude n b /\ (ints o1 <= ints o2)%nat
      else magnitude n b < magnitude n a /\ (ints o2 <= ints o1)%nat
  end.
Proof.
  intros Ha Hb n. unfold sub_compare.
  destruct (operand_of_ok a Ha) as [Oa Fa]. destruct (operand_of_ok b Hb) as [Ob Fb].
  set (o1 := operand_of a) in *. set (o2 := operand_of b) in *.
  destruct (op_size a o1 n Ha Oa) as [Ua La]. destruct (op_size b o2 n Hb Ob) as [Ub Lb].
  destruct (Nat.ltb_spec (ints o1) (ints o2)) as [Hlt|Hge]; [|destruct (Nat.eqb_spec (ints o1) (ints o2)) as [He|Hne]].
  - split; [done|]. split; [done|]. split; [right; lia|]. split; [|lia].
    pose proof (B_le (ints o1 + n) (ints o2 - 1 + n) ltac:(lia)). specialize (Lb ltac:(lia)). lia.
  - pose proof (op_words_ok a o1 Ha Oa) as Wa. pose proof (op_words_ok b o2 Hb Ob) as Wb.
    pose proof (op_length a o1 Ha Oa) as Lena. pose proof (op_length b o2 Hb Ob) as Lenb.
    assert (Hs : forall d o, fracs o = Z.of_nat (FW d) -> (ints o + FW d <= length (start o))%nat ->
      Forall word (take (ints o + FW d) (start o)) -> Forall word (strip_zeros (op_words o)) /\
      (length (strip_zeros (op_words o)) <= ints o + FW d)%nat).
    { intros d o Hf Hlo Hw. unfold op_words. rewrite Hf.
      replace (Z.to_nat _) with (ints o + FW d)%nat by lia.
      destruct (strip_zeros_spec (take (ints o + FW d) (start o))) as [k Hk].
      pose proof (f_equal length Hk) as Hl. rewrite length_app, length_replicate, length_take in Hl.
      rewrite Hk in Hw. apply Forall_app in Hw as [Hw _]. split; [done|lia]. }
    destruct (Hs a o1 Fa Lena Wa) as [Sa Ka]. destruct (Hs b o2 Fb Lenb Wb) as [Sb Kb].
    pose proof (compare_words_spec _ _ (ints o1 + n) Sa Sb (strip_stripped _) (strip_stripped _)
      ltac:(lia) ltac:(lia)) as Hc.
    pose proof (op_fraction b o2 n Hb Ob Fb ltac:(lia)) as Eb. rewrite <- He in Eb.
    rewrite (op_fraction a o1 n Ha Oa Fa ltac:(lia)), Eb in Hc.
    destruct (compare_words _ _) as [c|]; cbn [mbind option_bind]; [|done].
    split; [by apply strip_op_ok|]. split; [by apply strip_op_ok|]. split; [by left|]. cbn [strip_op ints].
    destruct c; (split; [done|lia]).
  - split; [done|]. split; [done|]. split; [right; lia|]. split; [|lia].
    pose proof (B_le (ints o2 + n) (ints o1 - 1 + n) ltac:(lia)). specialize (La ltac:(lia)). lia.
Qed.

(** ** Subtraction *)

(** Both parts of the loop on the words that both operands have. *)
Lemma sub_tail_spec p1 p2 c acc :
  (length p2 <= length p1)%nat -> Forall word p1 -> Forall word p2 -> carry_ok c ->
  exists c' out, ('(src1, carry, acc) ← sub_down (rev p1) (rev p2) c acc; Some (sub_carry_down src1 carry acc)) =
      Some (out ++ acc) /\
    length out = length p1 /\ Forall word out /\ carry_ok c' /\
    words out - c' * B (length p1) = words p1 - words p2 - c.
Proof.
  intros L W1 W2 Hc.
  destruct (sub_down_spec (rev p1) (rev p2) c acc) as (c1 & out1 & -> & L1 & F1 & C1 & V1);
    [rewrite !rev_length; lia|by apply Forall_rev|by apply Forall_rev|done|]. cbn [mbind option_bind].
  rewrite !rev_length, rev_involutive, rev_take_rev in *.
  destruct (sub_carry_down_spec (drop (length p2) (rev p1)) c1 (out1 ++ acc)) as (c2 & out2 & -> & L2 & F2 & C2 & V2);
    [by apply Forall_drop, Forall_rev|done|].
  rewrite length_drop, rev_length, rev_drop_rev in *.
  exists c2, (out2 ++ out1). rewrite <- app_assoc. split; [done|]. rewrite length_app. split; [lia|].
  split; [by apply Forall_app|]. split; [done|].
  rewrite words_app, L1, (words_split (length p1 - length p2) p1) by lia.
  replace (length p1 - (length p1 - length p2))%nat with (length p2) by lia.
  replace (B (length p1)) with (B (length p1 - length p2) * B (length p2)) by (rewrite <- B_add; f_equal; lia).
  pose proof (B_pos (length p2)). nia.
Qed.

Lemma no_borrow acc c v :
  Forall word acc -> carry_ok c -> words acc - c * B (length acc) = v -> 0 <= v -> words acc = v.
Proof. intros W Hc E Hv. pose proof (words_bound acc W). destruct Hc as [-> | ->]; lia. Qed.

Lemma sub_words_spec s1 k1 f1 s2 k2 f2 n :
  let w1 := take (Z.to_nat (Z.of_nat k1 + f1)) s1 in let w2 := take (Z.to_nat (Z.of_nat k2 + f2)) s2 in
  let v1 := words w1 * B (Z.to_nat (Z.of_nat n - f1)) in let v2 := words w2 * B (Z.to_nat (Z.of_nat n - f2)) in
  Forall word w1 -> Forall word w2 -> 0 <= Z.of_nat k1 + f1 <= Z.of_nat (length s1) ->
  0 <= Z.of_nat k2 + f2 <= Z.of_nat (length s2) -> (k2 <= k1)%nat -> f1 <= Z.of_nat n -> f2 <= Z.of_nat n ->
  (k1 = k2 \/ 0 <= f1 /\ 0 <= f2) -> v2 <= v1 ->
  exists acc, sub_words s1 k1 f1 s2 k2 f2 n = Some acc /\ Forall word acc /\ length acc = (k1 + n)%nat /\
    words acc = v1 - v2.
Proof.
  intros w1 w2 v1 v2 W1 W2 L1 L2 Hk H1 H2 Hf Hv. unfold sub_words. fold w1 w2.
  assert (Lw1 : length w1 = Z.to_nat (Z.of_nat k1 + f1)) by (unfold w1; rewrite length_take; lia).
  assert (Lw2 : length w2 = Z.to_nat (Z.of_nat k2 + f2)) by (unfold w2; rewrite length_take; lia).
  destruct (Z.ltb_spec f2 f1).
  - set (c := Z.to_nat (f1 - f2)). set (z := Z.to_nat (Z.of_nat n - f1)) in *.
    rewrite copy_down_spec by (rewrite rev_length; lia). cbn [mbind option_bind].
    rewrite rev_take_rev, skipn_rev.
    destruct (sub_tail_spec (take (length w1 - c) w1) w2 0 (drop (length w1 - c) w1 ++ replicate z 0))
      as (c' & out & -> & Lo & Fo & Co & Vo); [rewrite length_take; lia|by apply Forall_take|done|by left|].
    rewrite length_take in *. replace ((length w1 - c) `min` length w1)%nat with (length w1 - c)%nat in * by lia.
    eexists. split; [done|]. rewrite !Forall_app, !length_app, length_drop, length_replicate.
    split; [split; [done|split; [by apply Forall_drop|apply Forall_replicate, word_0]]|]. split; [lia|].
    eapply no_borrow; [by rewrite !Forall_app; split; [|split; [apply Forall_drop|apply Forall_replicate, word_0]]|
      exact Co| |lia].
    rewrite !words_app, words_zeros, !length_app, length_drop, length_replicate.
    unfold v1, v2. rewrite (words_split (length w1 - c) w1) by lia.
    replace (Z.to_nat (Z.of_nat n - f2)) with (length w1 - (length w1 - c) + z)%nat by lia.
    rewrite Lo, !B_add. pose proof (B_pos (length w1 - (length w1 - c))). pose proof (B_pos z). nia.
  - set (c := Z.to_nat (f2 - f1)). set (z := Z.to_nat (Z.of_nat n - f2)) in *.
    destruct (borrow_down_spec c (rev w2) 0 (replicate z 0)) as (c0 & out0 & -> & L0 & F0 & C0 & V0);
      [rewrite rev_length; lia|by apply Forall_rev|by left|]. cbn [mbind option_bind].
    rewrite rev_take_rev in V0. rewrite skipn_rev.
    destruct (sub_tail_spec w1 (take (length w2 - c) w2) c0 (out0 ++ replicate z 0))
      as (c' & out & -> & Lo & Fo & Co & Vo); [rewrite length_take; lia|done|by apply Forall_take|done|].
    eexists. split; [done|]. rewrite !Forall_app, !length_app, length_replicate.
    split; [split; [done|split; [done|apply Forall_replicate, word_0]]|]. split; [lia|].
    eapply no_borrow; [by rewrite !Forall_app; split; [|split; [|apply Forall_replicate, word_0]]|exact Co| |lia].
    rewrite !words_app, words_zeros, !length_app, length_replicate.
    unfold v1, v2. rewrite (words_split (length w2 - c) w2) by lia.
    replace (length w2 - (length w2 - c))%nat with c by lia.
    replace (Z.to_nat (Z.of_nat n - f1)) with (c + z)%nat by lia.
    rewrite Lo, L0, !B_add. pose proof (B_pos c). pose proof (B_pos z). nia.
Qed.

Lemma magnitude_mono n m a b :
  wf a -> wf b -> (n <= m)%nat -> magnitude m a <= magnitude m b -> magnitude n a <= magnitude n b.
Proof.
  intros Ha Hb Hn H. rewrite (magnitude_div n m a), (magnitude_div n m b) by done.
  apply Z.div_le_mono; [apply B_pos|done].
Qed.

Lemma op_cut_words d o n :
  wf d -> op_ok d o ->
  let k := Z.of_nat (ints o) + Z.min (fracs o) (Z.of_nat n) in
  Forall word (take (Z.to_nat k) (start o)) /\ 0 <= k <= Z.of_nat (length (start o)).
Proof.
  intros H Ho k. pose proof (op_fracs d o Ho). pose proof (op_length d o H Ho).
  pose proof (op_words_ok d o H Ho) as Hw. split; [|lia].
  apply (Forall_take _ (Z.to_nat k)) in Hw. rewrite take_take in Hw.
  by replace (Z.to_nat k `min` (ints o + FW d))%nat with (Z.to_nat k) in Hw by lia.
Qed.

(** The difference stored in the buffer of the result; [p] is the greater. *)
Lemma sub_stored p q op oq to err n s :
  wf p -> wf q -> len p = len to -> len q = len to -> op_ok p op -> op_ok q oq ->
  (ints oq <= ints op)%nat -> (ints op = ints oq \/ 0 <= fracs op /\ 0 <= fracs oq) ->
  magnitude (Nat.max (FW p) (FW q)) q < magnitude (Nat.max (FW p) (FW q)) p ->
  n = Nat.min (Nat.max (FW p) (FW q)) (len to - ints op) -> cut err n p q ->
  let i := ints op in
  exists acc b', sub_words (start op) i (Z.min (fracs op) (Z.of_nat n)) (start oq) (ints oq)
      (Z.min (fracs oq) (Z.of_nat n)) n = Some acc /\
    length acc = (i + n)%nat /\ written (i + n) acc (buf to) = Some b' /\
    let r := mk_dec (i * DIG_PER_DEC1)
      (if err =? E_DEC_OK then Nat.max (frac p) (frac q) else Nat.min (Nat.max (frac p) (frac q)) (n * DIG_PER_DEC1))
      s b' in
    wf r /\ len r = len to /\ FW r = n /\ magnitude n r = magnitude n p - magnitude n q.
Proof.
  intros Hp Hq Lp Lq Op Oq Hi Hf Hlt Hn Hc i.
  pose proof (op_fracs p op Op). pose proof (op_fracs q oq Oq). pose proof (op_ints p op Op).
  pose proof (wf_len p Hp) as Wp. pose proof (wf_len q Hq) as Wq. pose proof (wf_len_pos p Hp) as Lpos.
  destruct (op_cut_words p op n Hp Op) as [W1 K1]. destruct (op_cut_words q oq n Hq Oq) as [W2 K2].
  pose proof (op_value p op n Hp Op) as V1. pose proof (op_value q oq n Hq Oq) as V2. cbn zeta in V1, V2.
  destruct (sub_words_spec (start op) i (Z.min (fracs op) (Z.of_nat n)) (start oq) (ints oq)
      (Z.min (fracs oq) (Z.of_nat n)) n) as (acc & Ea & Wacc & Lacc & Vacc); try done; try lia.
  { unfold i. rewrite V1, V2. apply (magnitude_mono n (Nat.max (FW p) (FW q))); [done|done|lia|lia]. }
  unfold i in Vacc. rewrite V1, V2 in Vacc. exists acc. rewrite Ea.
  assert (Hpos : (0 < i + Nat.max (frac p) (frac q))%nat).
  { destruct (Nat.eq_0_gt_0_cases (i + Nat.max (frac p) (frac q))) as [E|]; [|done].
    destruct (op_size p op 0 Hp Op) as [U _]. pose proof (magnitude_nonneg 0 q Hq).
    assert (FW p = 0%nat /\ FW q = 0%nat) as [Fp Fq].
    { split; [unfold FW; replace (frac p) with 0%nat by lia|unfold FW; replace (frac q) with 0%nat by lia]; done. }
    rewrite Fp, Fq in Hlt. cbn [Nat.max] in Hlt. replace (ints op + 0)%nat with 0%nat in U by lia. rewrite B_0 in U. lia. }
  destruct (result_spec err n i s (magnitude n p - magnitude n q) p q acc (buf to) Hp Hq Hc)
    as (b' & Eb & Wr & Lr & Fr & _ & Mr); try done; unfold len in *; try lia.
  { by replace (i + n - length acc)%nat with 0%nat by lia. }
  { intros ->. unfold cut in Hc. destruct Hc as [[Hc _]|[_ Hc]]; [done|lia]. }
  exists b'. split; [done|]. split; [done|]. split; [done|]. by rewrite Mr.
Qed.

Lemma make_zero_spec to :
  (0 < len to)%nat ->
  let r := decimal_make_zero to in
  wf r /\ len r = len to /\ sign r = false /\ FW r = 0%nat /\ forall n, magnitude n r = 0.
Proof.
  intros Hl r. unfold r, decimal_make_zero, overwrite, len in *. destruct (buf to) as [|w l]; [cbn in Hl; lia|].
  cbn [length drop app]. split; [|split; [done|split; [done|split; [done|]]]].
  - split; change (IW _) with 1%nat; change (FW _) with 0%nat; unfold len; cbn [intg frac buf take Nat.add length];
      rewrite ?take_0, ?words_one; [lia|lia|constructor; [apply word_0|constructor]|apply powers10_pos|apply Z.divide_0_r].
  - intros n. unfold magnitude. change (IW _) with 1%nat. change (FW _) with 0%nat. rewrite Nat.min_0_r. cbn [Nat.add buf take].
    by rewrite take_0, words_one.
Qed.

Lemma cut_comm err n a b : cut err n a b -> cut err n b a.
Proof. unfold cut. by rewrite (Nat.max_comm (FW b)). Qed.

Lemma FIX_fits l i f i' n err a b :
  FIX_INTG_FRAC_ERROR l i f = (i', n, err) -> f = Nat.max (FW a) (FW b) -> (i <= l)%nat ->
  i' = i /\ n = Nat.min f (l - i) /\ cut err n a b /\ (err = E_DEC_OK -> n = f).
Proof.
  intros E Hf Hi. apply FIX_spec in E as [[_ E]|(-> & -> & _ & E)]; [lia|]. split; [done|]. split; [done|].
  unfold cut. destruct E as [[-> E]|[-> E]]; (split; [lia|]); [lia|done].
Qed.

Lemma sub_store_spec p q op oq s to :
  wf p -> wf q -> len p = len to -> len q = len to -> op_ok p op -> op_ok q oq ->
  (ints oq <= ints op)%nat -> (ints op = ints oq \/ 0 <= fracs op /\ 0 <= fracs oq) ->
  magnitude (Nat.max (FW p) (FW q)) q < magnitude (Nat.max (FW p) (FW q)) p ->
  exists err r, sub_store op oq s to = Some (err, r) /\ wf r /\ len r = len to /\ cut err (FW r) p q /\ sign r = s /\
    magnitude (FW r) r = magnitude (FW r) p - magnitude (FW r) q.
Proof.
  intros Hp Hq Lp Lq Op Oq Hi Hf Hlt. unfold sub_store.
  rewrite (op_source p op Op), (op_source q oq Oq). fold (FW p) (FW q).
  pose proof (wf_len p Hp) as Wp. pose proof (op_ints p op Op) as Ip.
  pose proof (op_fracs p op Op) as Fp. pose proof (op_fracs q oq Oq) as Fq.
  destruct (FIX_INTG_FRAC_ERROR (len to) (ints op) (Nat.max (FW p) (FW q))) as [[i n] err] eqn:EF.
  apply (FIX_fits _ _ _ _ _ _ p q) in EF as (-> & Hn & Hc & Hok); [|done|lia].
  assert (Hif : forall f, f <= Z.of_nat (Nat.max (FW p) (FW q)) ->
    (if err =? E_DEC_OK then f else Z.min f (Z.of_nat n)) = Z.min f (Z.of_nat n)).
  { intros f Hfm. destruct (Z.eqb_spec err E_DEC_OK) as [E|]; [|done]. specialize (Hok E). lia. }
  replace (if err =? E_DEC_OK then ints oq else Nat.min (ints oq) (ints op)) with (ints oq)
    by (destruct (err =? E_DEC_OK); lia).
  rewrite (Hif (fracs op)), (Hif (fracs oq)) by lia.
  destruct (sub_stored p q op oq to err n s) as (acc & b' & -> & Lacc & Eb & Wr & Lr & Fr & Mr); try done.
  cbn [mbind option_bind]. rewrite Lacc, Nat.sub_diag. cbn [replicate app]. rewrite Eb.
  eexists _, _. split; [done|]. split; [done|]. split; [done|]. by rewrite Fr.
Qed.

Lemma do_sub_spec a b to :
  wf a -> wf b -> len a = len to -> len b = len to ->
  let m := Nat.max (FW a) (FW b) in
  exists err r, do_sub a b to = Some (err, r) /\ wf r /\ len r = len to /\
    ((err = E_DEC_OK /\ magnitude m a = magnitude m b /\ sign r = false /\ FW r = 0%nat /\
      forall n, magnitude n r = 0) \/
     (cut err (FW r) a b /\
      ((magnitude m b < magnitude m a /\ sign r = sign a /\
        magnitude (FW r) r = magnitude (FW r) a - magnitude (FW r) b) \/
       (magnitude m a < magnitude m b /\ sign r = negb (sign a) /\
        magnitude (FW r) r = magnitude (FW r) b - magnitude (FW r) a)))).
Proof.
  intros Ha Hb La Lb m. unfold do_sub.
  pose proof (sub_compare_spec a b Ha Hb) as Hs. cbn zeta in Hs. fold m in Hs.
  destruct (sub_compare a b) as [[[o1 o2] carry]|].
  - destruct Hs as (O1 & O2 & Hf & Hc). destruct carry; destruct Hc as [Hlt Hi].
    + destruct (sub_store_spec b a o2 o1 (negb (sign a)) to) as (err & r & -> & Wr & Lr & Hc & Sr & Mr); try done;
        [destruct Hf as [->|[? ?]]; [by left|by right]|by rewrite (Nat.max_comm (FW b))|].
      exists err, r. split; [done|]. split; [done|]. split; [done|]. right. split; [by apply cut_comm|]. by right.
    + destruct (sub_store_spec a b o1 o2 (sign a) to) as (err & r & -> & Wr & Lr & Hc & Sr & Mr); try done.
      exists err, r. split; [done|]. split; [done|]. split; [done|]. right. split; [done|]. by left.
  - pose proof (wf_len_pos a Ha) as Hl. rewrite La in Hl.
    destruct (make_zero_spec to Hl) as (Z1 & Z2 & Z3 & Z4 & Z5). eexists _, _. split; [done|]. split; [done|].
    split; [done|]. by left.
Qed.

(** ** The theorems *)

(** Zero has no sign. *)
Definition proper (d : decimal_t) : Prop := wf d /\ (sign d = true -> 0 < magnitude (FW d) d).

(** The value in smaller units. *)
Lemma value_scale n m d : (FW d <= m)%nat -> (m <= n)%nat -> value n d = value m d * B (n - m).
Proof.
  intros Hd Hm. rewrite (value_exact n), (value_exact m) by lia. rewrite <- Z.mul_assoc, <- B_add.
  f_equal. f_equal. lia.
Qed.

(** What an operation gives that is [op] on numbers, in units of the [n]-th word
    after the point: the exact result; or [op] of the operands cut off after as
    many words as the result has; or the largest number, when the result would
    fill the buffer up to its first word. *)
Definition exact (op : Z -> Z -> Z) (a b to : decimal_t) (res : option (Z * decimal_t)) : Prop :=
  exists err r, res = Some (err, r) /\ wf r /\ len r = len to /\
    ((err = E_DEC_OVERFLOW /\ DIG_MAX * B (len to - 1) <= Z.abs (op (value 0 a) (value 0 b)) /\
      value 0 r = B (len to) - 1) \/
     (err = E_DEC_TRUNCATED /\ (FW r < Nat.max (FW a) (FW b))%nat /\
      value (FW r) r = op (value (FW r) a) (value (FW r) b)) \/
     (err = E_DEC_OK /\ (proper a -> proper b -> proper r) /\
      forall n, (Nat.max (FW a) (FW b) <= n)%nat -> value n r = op (value n a) (value n b))).

(** The operation on signed numbers that adds the magnitudes of [a] and [b], or
    subtracts them. *)
Definition adds (op : Z -> Z -> Z) (a b : decimal_t) : Prop :=
  op = Z.add /\ sign b = sign a \/ op = Z.sub /\ sign b = negb (sign a).
Definition subtracts (op : Z -> Z -> Z) (a b : decimal_t) : Prop :=
  op = Z.add /\ sign b = negb (sign a) \/ op = Z.sub /\ sign b = sign a.

Lemma exact_of_cut op a b to err r :
  op = Z.add \/ op = Z.sub -> wf r -> len r = len to -> cut err (FW r) a b ->
  (FW r = Nat.max (FW a) (FW b) -> proper a -> proper b -> proper r) ->
  value (FW r) r = op (value (FW r) a) (value (FW r) b) -> exact op a b to (Some (err, r)).
Proof.
  intros Hop Wr Lr Hc Pr Hv. exists err, r. split; [done|]. split; [done|]. split; [done|]. right.
  destruct Hc as [[-> Hn]|[-> Hn]]; [right|by left]. split; [done|]. split; [by apply Pr|]. intros n Hm.
  rewrite (value_scale n (FW r) r), (value_scale n (FW r) a), (value_scale n (FW r) b), Hv by lia.
  destruct Hop as [-> | ->]; lia.
Qed.

Lemma magnitude_pos n d : wf d -> (FW d <= n)%nat -> 0 < magnitude (FW d) d -> 0 < magnitude n d.
Proof. intros H Hn Hp. rewrite magnitude_exact by done. pose proof (B_pos (n - FW d)). nia. Qed.

Lemma do_add_exact op a b to :
  wf a -> wf b -> len a = len to -> len b = len to -> adds op a b -> exact op a b to (do_add a b to).
Proof.
  intros Ha Hb La Lb Hs. destruct (do_add_spec a b to Ha Hb La Lb) as (err & r & -> & Wr & Lr & [H|H]).
  - destruct H as (-> & Ho & Sr & Fr & Mr). exists E_DEC_OVERFLOW, r. split; [done|]. split; [done|]. split; [done|].
    left. split; [done|]. unfold value. rewrite Sr, Mr.
    pose proof (magnitude_nonneg 0 a Ha). pose proof (magnitude_nonneg 0 b Hb).
    destruct Hs as [[-> ->]|[-> ->]]; destruct (sign a); cbn [negb]; lia.
  - destruct H as (Hc & Sr & Mr). apply exact_of_cut; try done.
    + destruct Hs as [[-> _]|[-> _]]; [by left|by right].
    + intros Hn [_ Pa] [_ _]. split; [done|]. rewrite Sr, Mr. intros Sa.
      pose proof (magnitude_pos (FW r) a Ha ltac:(lia) (Pa Sa)). pose proof (magnitude_nonneg (FW r) b Hb). lia.
    + unfold value. rewrite Sr, Mr. destruct Hs as [[-> ->]|[-> ->]]; destruct (sign a); cbn [negb]; lia.
Qed.

Lemma do_sub_exact op a b to :
  wf a -> wf b -> len a = len to -> len b = len to -> subtracts op a b -> exact op a b to (do_sub a b to).
Proof.
  intros Ha Hb La Lb Hs. destruct (do_sub_spec a b to Ha Hb La Lb) as (err & r & -> & Wr & Lr & [H|H]).
  - destruct H as (-> & Me & Sr & Fr & Mr). exists E_DEC_OK, r. split; [done|]. split; [done|]. split; [done|].
    right. right. split; [done|]. split; [intros _ _; split; [done|congruence]|]. intros n Hn.
    rewrite (value_scale n (Nat.max (FW a) (FW b)) a), (value_scale n (Nat.max (FW a) (FW b)) b) by lia.
    unfold value. rewrite Sr, Mr, Me. destruct Hs as [[-> ->]|[-> ->]]; destruct (sign a); cbn [negb]; lia.
  - destruct H as (Hc & H). apply exact_of_cut; try done.
    + destruct Hs as [[-> _]|[-> _]]; [by left|by right].
    + intros Hn _ _. split; [done|]. intros _. rewrite <- Hn in H. lia.
    + unfold value. destruct H as [(_ & -> & ->)|(_ & -> & ->)]; destruct Hs as [[-> ->]|[-> ->]];
        destruct (sign a); cbn [negb]; lia.
Qed.

Lemma sign_cases a b : sign b = sign a \/ sign b = negb (sign a).
Proof. destruct (sign a), (sign b); auto. Qed.

(** C11: [decimal_add] and [decimal_sub] give the exact sum and difference, or that
    of the operands cut off where the result has no more words, or report that
    it overflows; they write only words of the result's buffer. *)
Theorem decimal_add_sub_correct a b to :
  wf a -> wf b -> len a = len to -> len b = len to ->
  exact Z.add a b to (decimal_add a b to) /\ exact Z.sub a b to (decimal_sub a b to).
Proof.
  intros Ha Hb La Lb. unfold decimal_add, decimal_sub. destruct (sign_cases a b) as [E|E].
  - rewrite bool_decide_true by done. split; [apply do_add_exact|apply do_sub_exact]; try done; [by left|by right].
  - rewrite bool_decide_false by (rewrite E; by destruct (sign a)).
    split; [apply do_sub_exact|apply do_add_exact]; try done; [by left|by right].
Qed.

(** [decimal_cmp] compares the values: it gives -1, 0 or 1 when the first is
    smaller, equal or greater, whatever the number of leading and trailing
    zeroes of the operands. *)
Lemma decimal_cmp_value a b n :
  proper a -> proper b -> (Nat.max (FW a) (FW b) <= n)%nat ->
  decimal_cmp a b = Z.sgn (value n a - value n b).
Proof.
  intros [Ha Pa] [Hb Pb] Hn. unfold decimal_cmp.
  pose proof (magnitude_nonneg (FW a) a Ha) as Na. pose proof (magnitude_nonneg (FW b) b Hb) as Nb.
  case_bool_decide as E.
  - set (m := Nat.max (FW a) (FW b)) in *.
    rewrite (value_scale n m a), (value_scale n m b), <- Z.mul_sub_distr_r, Z.sgn_mul by lia.
    rewrite (Z.sgn_pos (B (n - m))) by apply B_pos. rewrite Z.mul_1_r.
    pose proof (sub_compare_spec a b Ha Hb) as Hs. cbn zeta in Hs. fold m in Hs. unfold value. rewrite <- E.
    destruct (sub_compare a b) as [[[o1 o2] []]|].
    + destruct Hs as (_ & _ & _ & Hs & _). destruct (sign a); symmetry; [apply Z.sgn_pos|apply Z.sgn_neg]; lia.
    + destruct Hs as (_ & _ & _ & Hs & _). destruct (sign a); symmetry; [apply Z.sgn_neg|apply Z.sgn_pos]; lia.
    + rewrite Hs. destruct (sign a); lia.
  - pose proof (B_pos (n - FW a)). pose proof (B_pos (n - FW b)).
    rewrite (value_exact n a), (value_exact n b) by lia. unfold value.
    destruct (sign a), (sign b); try done; [specialize (Pa eq_refl)|specialize (Pb eq_refl)]; symmetry; [apply Z.sgn_neg|apply Z.sgn_pos]; nia.
Qed.
