(* ===== verification/DecimalMul.v ===== *)
(** * Multiplication of decimals (decimal_mul of strings/decimal.c)

    The product of every word of the first factor with the second is added to
    the words of the result, row by row.  [p] stands for the pointer
    [to->buf + p - 1]. *)
From Stdlib Require Import ZArith Lia List Bool.
From stdpp Require Import base tactics list option.
From S2P Require Import Prelude Decimal DecimalValue DecimalAdd DecimalSub.

Open Scope Z_scope.

(** ** The function *)

(** The carry, the position and the words. *)
Fixpoint mul_inner (x : Z) (src2 : list Z) (p : nat) (carry : Z) (b : list Z) : option (Z * nat * list Z) :=
  match src2 with
  | [] => Some (carry, p, b)
  | y :: src2 =>
      match p with
      | O => None
      | S q =>
          let prod := x * y in
          let hi := prod / DIG_BASE in
          let lo := prod - hi * DIG_BASE in
          w ← b !! q;
          let '(a, carry) := ADD2 w lo carry in
          mul_inner x src2 q (carry + hi) (<[q := a]> b)
      end
  end.

(** True: E_DEC_OVERFLOW is returned. *)
Fixpoint mul_ripple (p : nat) (carry : Z) (b : list Z) : option (bool * list Z) :=
  if carry =? 0 then Some (false, b)
  else match p with
       | O => Some (true, b)
       | S q => w ← b !! q; let '(a, carry) := ADD w 0 carry in mul_ripple q carry (<[q := a]> b)
       end.

Definition mul_row (x : Z) (src2 : list Z) (p : nat) (b : list Z) : option (bool * list Z) :=
  '(carry, p, b) ← mul_inner x src2 p 0 b;
  if carry =? 0 then Some (false, b)
  else match p with
       | O => Some (true, b)
       | S q => w ← b !! q; let '(a, carry) := ADD2 w 0 carry in mul_ripple q carry (<[q := a]> b)
       end.

Fixpoint mul_rows (src1 src2 : list Z) (start0 : nat) (b : list Z) : option (bool * list Z) :=
  match src1 with
  | [] => Some (false, b)
  | x :: src1 =>
      '(overflow, b) ← mul_row x src2 start0 b;
      if (overflow : bool) then Some (true, b) else mul_rows src1 src2 (start0 - 1) b
  end.

(** The words of a factor that are used: [i] before the point, [f] after it;
    below the last one, the nearest first. *)
Definition factor_words (d : decimal_t) (i f : Z) : list Z :=
  rev (take (Z.to_nat (i + f)) (drop (Z.to_nat (Z.of_nat (ROUND_UP (intg d)) - i)) (buf d))).

(** How many words of the factors are used when the product of all would not
    fit; [intg0] and [frac0] are the words there are, of [i] and [j]. *)
Definition mul_bounds (error : Z) (i j intg0 frac0 : nat) (intg1 intg2 frac1 frac2 : Z) : Z * Z * Z * Z :=
  if error =? E_DEC_OK then (intg1, intg2, frac1, frac2)
  else if (intg0 <? i)%nat then
    let i := Z.of_nat i - Z.of_nat intg0 in
    let j := Z.shiftr i 1 in
    (intg1 - j, intg2 - (i - j), 0, 0)
  else
    let j := Z.of_nat j - Z.of_nat frac0 in
    let i := Z.shiftr j 1 in
    if frac1 <=? frac2 then (intg1, intg2, frac1 - i, frac2 - (j - i))
    else (intg1, intg2, frac1 - (j - i), frac2 - i).

(** The words before the point that are zero are removed, but for one: how
    many, and the digits that are left. *)
Fixpoint lead_zero_words (b : list Z) (intg : nat) : option (nat * nat) :=
  match b with
  | [] => None
  | w :: b =>
      if (w =? 0) && (DIG_PER_DEC1 <? intg)%nat then
        '(k, intg) ← lead_zero_words b (intg - DIG_PER_DEC1); Some (S k, intg)
      else Some (0%nat, intg)
  end.

Definition mul_finish (intg0 frac0 : nat) (to : decimal_t) : option decimal_t :=
  to ← (if sign to then
          if (intg0 + frac0 =? 0)%nat then None
          else Some (if forallb (fun w => w =? 0) (take (intg0 + frac0) (buf to)) then decimal_make_zero to else to)
        else Some to);
  '(k, intg) ← lead_zero_words (buf to) (intg to);
  let d_to_move := (intg0 + ROUND_UP (frac to) - k)%nat in
  let b := if (0 <? k)%nat then take d_to_move (drop k (buf to)) ++ drop d_to_move (buf to) else buf to in
  Some (mk_dec intg (frac to) (sign to) b).

Definition decimal_mul (from1 from2 to : decimal_t) : option (Z * decimal_t) :=
  let intg1 := ROUND_UP (intg from1) in let intg2 := ROUND_UP (intg from2) in
  let frac1 := ROUND_UP (frac from1) in let frac2 := ROUND_UP (frac from2) in
  let i := ROUND_UP (intg from1 + intg from2) in
  let j := (frac1 + frac2)%nat in
  let '(intg0, frac0, error) := FIX_INTG_FRAC_ERROR (len to) i j in
  let to_sign := xorb (sign from1) (sign from2) in
  let to_frac := (frac from1 + frac from2)%nat in
  let to_frac := if error =? E_DEC_OK then to_frac else Nat.min to_frac (frac0 * DIG_PER_DEC1) in
  let to_intg := (intg0 * DIG_PER_DEC1)%nat in
  let '(i1, i2, f1, f2) := mul_bounds error i j intg0 frac0
    (Z.of_nat intg1) (Z.of_nat intg2) (Z.of_nat frac1) (Z.of_nat frac2) in
  let b := replicate (intg0 + frac0) 0 ++ drop (intg0 + frac0) (buf to) in
  '(overflow, b) ← mul_rows (factor_words from1 i1 f1) (factor_words from2 i2 f2) (intg0 + frac0) b;
  let to := mk_dec to_intg to_frac to_sign b in
  if (overflow : bool) then Some (E_DEC_OVERFLOW, to)
  else to ← mul_finish intg0 frac0 to; Some (error, to).

(** ** The product *)

Lemma words_insert l q w a :
  l !! q = Some w -> words (<[q := a]> l) = words l + (a - w) * B (length l - 1 - q).
Proof.
  intros Hq. pose proof (lookup_lt_Some _ _ _ Hq) as Hl.
  assert (E : words l = words (take q l ++ w :: drop (S q) l)) by (by rewrite take_drop_middle).
  rewrite insert_take_drop, E, !words_app, !words_cons by done. cbn [length].
  rewrite length_drop. replace (length l - S q)%nat with (length l - 1 - q)%nat by lia. ring.
Qed.

Lemma Forall_insert_word l q a : Forall word l -> word a -> Forall word (<[q := a]> l).
Proof. intros Hl Ha. by apply Forall_insert. Qed.

Lemma ADD2_spec x y c a c' :
  word x -> word y -> word c -> ADD2 x y c = (a, c') -> word a /\ 0 <= c' /\ a + c' * DIG_BASE = x + y + c.
Proof.
  unfold ADD2, word, DIG_BASE. intros Hx Hy Hc. cbn zeta.
  destruct (Z.leb_spec 1000000000 (x + y + c)).
  - destruct (Z.leb_spec 1000000000 (x + y + c - 1000000000)); intros [= <- <-]; lia.
  - destruct (Z.leb_spec 1000000000 (x + y + c)); intros [= <- <-]; lia.
Qed.

Section Rows.
(** [n] words of the buffer are for the product. *)
Context (n : nat) (rest : list Z).

Lemma mul_inner_spec x src2 p c b :
  word x -> Forall word src2 -> (length src2 <= p <= n)%nat -> word c -> Forall word b -> length b = n ->
  exists c' b', mul_inner x src2 p c (b ++ rest) = Some (c', (p - length src2)%nat, b' ++ rest) /\ word c' /\ Forall word b' /\ length b' = n /\
    words b' + c' * B (n - (p - length src2)) = words b + (c + x * words (rev src2)) * B (n - p).
Proof.
  intros Hx Hs. revert p c b. induction Hs as [|y src2 Hy Hs IH]; intros p c b Hp Hc Hb Lb.
  { exists c, b. cbn [mul_inner length rev]. rewrite Nat.sub_0_r, words_nil. split; [done|]. split; [done|]. split; [done|]. split; [done|lia]. }
  cbn [mul_inner length] in *. destruct p as [|q]; [lia|].
  destruct (lookup_lt_is_Some_2 b q ltac:(lia)) as [w Hw].
    rewrite (lookup_app_l_Some _ _ _ _ Hw). cbn [mbind option_bind].
  assert (Hw' : word w) by (rewrite Forall_lookup in Hb; by apply (Hb q)).
  set (hi := x * y / DIG_BASE). set (lo := x * y - hi * DIG_BASE).
  assert (Hh : word lo /\ 0 <= hi /\ lo + hi * DIG_BASE = x * y).
  { unfold lo. pose proof (Z.mod_pos_bound (x * y) DIG_BASE ltac:(done)) as Hm. rewrite Z.mod_eq in Hm by done.
    fold hi in Hm. unfold word in *. split; [lia|]. split; [|lia]. apply Z.div_pos; [nia|done]. }
  destruct Hh as (Hlo & Hhi & Exy).
  destruct (ADD2 w lo c) as [a c1] eqn:Ea. destruct (ADD2_spec _ _ _ _ _ Hw' Hlo Hc Ea) as (Ha & Hc1 & Eac).
  rewrite insert_app_l by lia. assert (Hcarry : word (c1 + hi)) by (unfold word, DIG_BASE in *; nia).
  destruct (IH q (c1 + hi) (<[q := a]> b)) as (c' & b' & -> & H1 & H2 & H3 & H4);
    [lia|done|by apply Forall_insert_word|by rewrite length_insert|].
  exists c', b'. split; [repeat f_equal; lia|]. split; [done|]. split; [done|]. split; [done|].
  replace (S q - S (length src2))%nat with (q - length src2)%nat by lia. rewrite H4, (words_insert _ _ _ _ Hw), Lb.
  cbn [rev]. rewrite words_app, words_one. cbn [length]. change (B 1) with DIG_BASE.
  replace (n - 1 - q)%nat with (n - S q)%nat by lia. replace (n - q)%nat with (S (n - S q)) by lia. rewrite B_S.
  pose proof (B_pos (n - S q)). nia.
Qed.

Lemma mul_ripple_spec p c b :
  (p <= n)%nat -> carry_ok c -> Forall word b -> length b = n -> words b + c * B (n - p) < B n ->
  exists b', mul_ripple p c (b ++ rest) = Some (false, b' ++ rest) /\ Forall word b' /\ length b' = n /\ words b' = words b + c * B (n - p).
Proof.
  revert c b. induction p as [|q IH]; intros c b Hp Hc Hb Lb Hv; cbn [mul_ripple].
  - pose proof (words_bound b Hb). rewrite Nat.sub_0_r in *. destruct Hc as [-> | ->]; [|lia]. cbn [Z.eqb].
    exists b. split; [done|]. split; [done|]. split; [done|lia].
  - destruct Hc as [-> | ->]; cbn [Z.eqb].
    { exists b. split; [done|]. split; [done|]. split; [done|lia]. }
    destruct (lookup_lt_is_Some_2 b q ltac:(lia)) as [w Hw].
    rewrite (lookup_app_l_Some _ _ _ _ Hw). cbn [mbind option_bind].
    assert (Hw' : word w) by (rewrite Forall_lookup in Hb; by apply (Hb q)).
    destruct (ADD w 0 1) as [a c1] eqn:Ea. destruct (ADD_spec _ _ _ _ _ Hw' word_0 ltac:(by right) Ea) as (Ha & Hc1 & Eac).
    rewrite insert_app_l by lia. assert (E : words (<[q := a]> b) + c1 * B (n - q) = words b + 1 * B (n - S q)).
    { rewrite (words_insert _ _ _ _ Hw), Lb. replace (n - 1 - q)%nat with (n - S q)%nat by lia.
      replace (n - q)%nat with (S (n - S q)) by lia. rewrite B_S. pose proof (B_pos (n - S q)). nia. }
    destruct (IH c1 (<[q := a]> b)) as (b' & -> & H1 & H2 & H3); [lia|done|by apply Forall_insert_word|by rewrite length_insert|lia|].
    exists b'. split; [done|]. split; [done|]. split; [done|lia].
Qed.

Lemma mul_row_spec x src2 p b :
  word x -> Forall word src2 -> (length src2 <= p <= n)%nat -> Forall word b -> length b = n ->
  words b + x * words (rev src2) * B (n - p) < B n ->
  exists b', mul_row x src2 p (b ++ rest) = Some (false, b' ++ rest) /\ Forall word b' /\ length b' = n /\
    words b' = words b + x * words (rev src2) * B (n - p).
Proof.
  intros Hx Hs Hp Hb Lb Hv. unfold mul_row.
  destruct (mul_inner_spec x src2 p 0 b Hx Hs Hp word_0 Hb Lb) as (c & b1 & -> & Hc & Hb1 & Lb1 & E1).
  cbn [mbind option_bind]. rewrite Z.add_0_l in E1. pose proof (words_bound b1 Hb1) as Bd. rewrite Lb1 in Bd.
  destruct (Z.eqb_spec c 0) as [->|Hne]; [exists b1; split; [done|]; split; [done|]; split; [done|lia]|].
  set (q0 := (p - length src2)%nat) in *. destruct q0 as [|q] eqn:Eq.
  { exfalso. rewrite Nat.sub_0_r in E1. unfold word in Hc. pose proof (B_pos n). nia. }
  destruct (lookup_lt_is_Some_2 b1 q ltac:(lia)) as [w Hw].
    rewrite (lookup_app_l_Some _ _ _ _ Hw). cbn [mbind option_bind].
  assert (Hw' : word w) by (rewrite Forall_lookup in Hb1; by apply (Hb1 q)).
  destruct (ADD2 w 0 c) as [a c1] eqn:Ea. destruct (ADD2_spec _ _ _ _ _ Hw' word_0 Hc Ea) as (Ha & Hc1 & Eac).
  rewrite insert_app_l by lia. assert (E : words (<[q := a]> b1) + c1 * B (n - q) = words b1 + c * B (n - S q)).
  { rewrite (words_insert _ _ _ _ Hw), Lb1. replace (n - 1 - q)%nat with (n - S q)%nat by lia.
    replace (n - q)%nat with (S (n - S q)) by lia. rewrite B_S. pose proof (B_pos (n - S q)). nia. }
  destruct (mul_ripple_spec q c1 (<[q := a]> b1)) as (b' & -> & H1 & H2 & H3);
    [lia|unfold word, carry_ok, DIG_BASE in *; lia|by apply Forall_insert_word|by rewrite length_insert|lia|].
  exists b'. split; [done|]. split; [done|]. split; [done|lia].
Qed.

Lemma mul_rows_spec src1 src2 p b :
  Forall word src1 -> Forall word src2 -> (length src1 + length src2 <= S p)%nat -> (p <= n)%nat ->
  (src1 = [] \/ length src2 <= p)%nat -> Forall word b -> length b = n ->
  words b + words (rev src1) * words (rev src2) * B (n - p) < B n ->
  exists b', mul_rows src1 src2 p (b ++ rest) = Some (false, b' ++ rest) /\ Forall word b' /\ length b' = n /\
    words b' = words b + words (rev src1) * words (rev src2) * B (n - p).
Proof.
  intros H1 Hs. revert p b. induction H1 as [|x src1 Hx H1 IH]; intros p b Hl Hp Hs2 Hb Lb Hv.
  { exists b. cbn [mul_rows rev]. rewrite words_nil. split; [done|]. split; [done|]. split; [done|lia]. }
  cbn [mul_rows rev length] in *. rewrite words_app, words_one in *. cbn [length] in *. change (B 1) with DIG_BASE in *.
  destruct Hs2 as [|Hs2]; [done|].
  pose proof (words_bound (rev src1) ltac:(by apply Forall_rev)) as B1.
  pose proof (words_bound (rev src2) ltac:(by apply Forall_rev)) as B2.
  pose proof (B_pos (n - p)) as Bp. assert (0 <= words (rev src1) * words (rev src2)) by nia.
  destruct (mul_row_spec x src2 p b) as (b1 & -> & W1 & L1 & E1); [done|done|lia|done|done|unfold DIG_BASE in *; nia|].
  cbn [mbind option_bind].
  destruct src1 as [|x' src1'].
  { exists b1. cbn [mul_rows rev]. rewrite words_nil. split; [done|]. split; [done|]. split; [done|lia]. }
  cbn [length] in Hl. assert (EB : B (n - (p - 1)) = DIG_BASE * B (n - p)).
  { replace (n - (p - 1))%nat with (S (n - p)) by lia. apply B_S. }
  destruct (IH (p - 1)%nat b1) as (b' & -> & W2 & L2 & E2); [cbn [length]; lia|lia|right; lia|done|done|rewrite EB; nia|].
  exists b'. split; [done|]. split; [done|]. split; [done|]. rewrite E2, E1, EB. ring.
Qed.
End Rows.

(** ** The result *)

Lemma all_zero_words l : Forall word l -> forallb (fun w => w =? 0) l = (words l =? 0).
Proof.
  intros Hl. destruct (Z.eqb_spec (words l) 0) as [E|E].
  - rewrite (words_inj l (replicate (length l) 0)); [|done|apply Forall_replicate, word_0|by rewrite length_replicate|by rewrite words_zeros].
    apply forallb_forall. intros w Hw. apply Z.eqb_eq. apply list_elem_of_In in Hw. by apply elem_of_replicate in Hw as [-> _].
  - destruct (forallb _ l) eqn:F; [|done]. exfalso. apply E. rewrite <- (words_zeros (length l)). f_equal.
    rewrite forallb_forall in F. clear -F. induction l as [|w l IH]; [done|]. cbn [length replicate]. f_equal.
    + apply Z.eqb_eq, F. by left.
    + apply IH. intros x Hx. apply F. by right.
Qed.

Lemma lead_zero_words_spec b i :
  (i <= length b)%nat -> (0 < length b)%nat ->
  exists k, lead_zero_words b (i * DIG_PER_DEC1) = Some (k, (i - k) * DIG_PER_DEC1)%nat /\
    (k = 0 \/ k < i)%nat /\ take k b = replicate k 0.
Proof.
  change DIG_PER_DEC1 with 9%nat. revert i. induction b as [|w b IH]; intros i Hi Hl; [cbn in Hl; lia|].
  cbn [lead_zero_words length] in *. change DIG_PER_DEC1 with 9%nat in *.
  destruct (Z.eqb_spec w 0) as [->|]; [destruct (Nat.ltb_spec 9 (i * 9))|]; cbn [andb].
  - replace (i * 9 - 9)%nat with ((i - 1) * 9)%nat by lia.
    destruct (IH (i - 1)%nat) as (k & -> & Hk & Hz); [lia|lia|]. exists (S k). cbn [mbind option_bind take replicate].
    rewrite Hz. replace (i - S k)%nat with (i - 1 - k)%nat by lia. split; [done|]. split; [right; lia|done].
  - exists 0%nat. rewrite Nat.sub_0_r. split; [done|]. split; [by left|done].
  - exists 0%nat. rewrite Nat.sub_0_r. split; [done|]. split; [by left|done].
Qed.

(** The words moved up over the zeroes. *)
Lemma move_up_spec k d b :
  (k + d <= length b)%nat -> take k b = replicate k 0 ->
  let b' := if (0 <? k)%nat then take d (drop k b) ++ drop d b else b in
  length b' = length b /\ take d b' = drop k (take (k + d) b) /\ words (take d b') = words (take (k + d) b).
Proof.
  intros Hl Hz b'.
  assert (Hb : length b' = length b /\ take d b' = drop k (take (k + d) b)).
  { unfold b'. destruct (Nat.ltb_spec 0 k); [|replace k with 0%nat by lia; done].
    rewrite length_app, length_take, !length_drop. split; [lia|].
    rewrite take_app_le by (rewrite length_take, length_drop; lia). rewrite take_take, Nat.min_id.
    by rewrite take_drop_commute. }
  destruct Hb as [H1 H2]. split; [done|]. split; [done|]. rewrite H2.
  rewrite (words_split k (take (k + d) b)) by (rewrite length_take; lia). rewrite take_take, Nat.min_l, Hz, words_zeros by lia. lia.
Qed.

Lemma mul_finish_spec i0 j0 f s b :
  let R := ROUND_UP f in let T := words (take (i0 + j0) b) in
  (i0 + j0 <= length b)%nat -> (R <= j0)%nat -> (0 < i0 + f)%nat -> Forall word (take (i0 + j0) b) ->
  T = words (take (i0 + R) b) * B (j0 - R) -> (powers10 (9 * R - f) | words (take (i0 + R) b)) ->
  exists r, mul_finish i0 j0 (mk_dec (i0 * DIG_PER_DEC1) f s b) = Some r /\ wf r /\ len r = length b /\
    (FW r <= j0)%nat /\ magnitude j0 r = T /\ (if sign r then 0 < T /\ s = true else s = false \/ T = 0).
Proof.
  intros R T Hl HR Hp Hw HT Hd. unfold mul_finish. cbn [sign buf].
  pose proof (words_bound _ Hw) as HT0. fold T in HT0.
  pose proof (ROUND_UP_spec f) as Hf. fold R in Hf.
  destruct (decide (s = true /\ T = 0)) as [[-> HT1]|Hnz].
  - destruct (Nat.eqb_spec (i0 + j0) 0); [lia|]. rewrite all_zero_words by done. fold T. rewrite HT1. cbn [Z.eqb mbind option_bind].
    set (to := mk_dec _ _ _ _). destruct (make_zero_spec to) as (Z1 & Z2 & Z3 & Z4 & Z5); [unfold len; cbn; lia|].
    unfold decimal_make_zero, overwrite in *. cbn [buf intg app length lead_zero_words] in *.
    change (DIG_PER_DEC1 <? 1)%nat with false. cbn [andb Z.eqb mbind option_bind frac sign Nat.ltb Nat.leb].
    eexists. split; [done|]. split; [done|]. split; [done|]. rewrite Z4, Z5. split; [lia|]. split; [done|]. by right.
  - assert (E : (if s then if (i0 + j0 =? 0)%nat then None
        else Some (if forallb (fun w => w =? 0) (take (i0 + j0) b) then decimal_make_zero (mk_dec (i0 * DIG_PER_DEC1) f s b)
                   else mk_dec (i0 * DIG_PER_DEC1) f s b)
        else Some (mk_dec (i0 * DIG_PER_DEC1) f s b)) = Some (mk_dec (i0 * DIG_PER_DEC1) f s b)).
    { destruct s; [|done]. destruct (Nat.eqb_spec (i0 + j0) 0); [lia|]. rewrite all_zero_words by done. fold T.
      destruct (Z.eqb_spec T 0); [by destruct Hnz|done]. }
    rewrite E. clear E. cbn [mbind option_bind buf intg frac sign]. fold R.
    destruct (lead_zero_words_spec b i0 ltac:(lia) ltac:(lia)) as (k & -> & Hk & Hz). cbn [mbind option_bind].
    destruct (move_up_spec k (i0 + R - k) b ltac:(lia) Hz) as (L1 & L2 & L3). cbn zeta in *.
    set (b' := if (0 <? k)%nat then take (i0 + R - k) (drop k b) ++ drop (i0 + R - k) b else b) in *.
    replace (k + (i0 + R - k))%nat with (i0 + R)%nat in * by lia.
    replace (i0 + R - k)%nat with (i0 - k + R)%nat in * by lia.
    eexists. split; [done|]. split; [|split; [done|split; [done|split]]].
    + apply (result_wf (i0 - k) R); [done|lia|lia| |by rewrite L3].
      rewrite L2. apply Forall_drop. apply (Forall_take _ (i0 + R)) in Hw. by rewrite take_take, Nat.min_l in Hw by lia.
    + unfold magnitude. rewrite IW_mul. change (FW _) with R. cbn [buf]. by rewrite Nat.min_r, L3 by done.
    + cbn [sign]. destruct s; [|by left]. split; [|done]. destruct (Z.eq_dec T 0); [by destruct Hnz|lia].
Qed.

Lemma factor_words_all d : factor_words d (Z.of_nat (IW d)) (Z.of_nat (FW d)) = rev (take (IW d + FW d) (buf d)).
Proof.
  unfold factor_words. fold (IW d). rewrite Z.sub_diag. change (Z.to_nat 0) with 0%nat. rewrite drop_0. repeat f_equal. lia.
Qed.

(** The magnitude is below the power of ten that [intg] gives. *)
Lemma magnitude_size d : wf d -> magnitude (FW d) d < powers10 (intg d) * B (FW d).
Proof.
  intros H. pose proof (wf_len d H) as Hl. unfold magnitude. rewrite Nat.min_id, Nat.sub_diag, B_0, Z.mul_1_r.
  rewrite (words_split (IW d) (take (IW d + FW d) (buf d))) by (rewrite len_take; lia).
  rewrite take_take, len_take, Nat.min_l by lia. replace (IW d + FW d - IW d)%nat with (FW d) by lia.
  pose proof (words_bound _ (Forall_drop _ (IW d) _ (wf_words d H))) as Hb. rewrite length_drop, len_take in Hb by lia.
  replace (IW d + FW d - IW d)%nat with (FW d) in Hb by lia. pose proof (wf_intg d H). pose proof (B_pos (FW d)). nia.
Qed.

(** A multiple of a weight has zeroes in the last words. *)
Lemma words_divided m j l :
  (m + j = length l)%nat -> Forall word l -> (B j | words l) -> words l = words (take m l) * B j.
Proof.
  intros Hl Hw Hd. rewrite (words_split m l) in * by lia. replace (length l - m)%nat with j in * by lia.
  pose proof (words_bound _ (Forall_drop _ m _ Hw)) as Hb. rewrite length_drop in Hb. replace (length l - m)%nat with j in Hb by lia.
  apply Z.divide_add_cancel_r in Hd; [|apply Z.divide_factor_r]. destruct Hd as [q Hq]. pose proof (B_pos j).
  assert (q = 0) by nia. subst q. lia.
Qed.

Section Product.
Context (a b : decimal_t) (Ha : wf a) (Hb : wf b).
Let I0 := ROUND_UP (intg a + intg b).
Let J := (FW a + FW b)%nat.
Let P := magnitude (FW a) a * magnitude (FW b) b.

Lemma product_bound : 0 <= P < B (I0 + J).
Proof.
  pose proof (magnitude_size a Ha). pose proof (magnitude_size b Hb). pose proof (magnitude_nonneg (FW a) a Ha).
  pose proof (magnitude_nonneg (FW b) b Hb). unfold P, J, I0. rewrite !B_add, powers10_B.
  pose proof (ROUND_UP_spec (intg a + intg b)).
  pose proof (powers10_le (intg a + intg b) (9 * ROUND_UP (intg a + intg b)) ltac:(lia)) as Hle.
  rewrite powers10_add in Hle. pose proof (B_pos (FW a)). pose proof (B_pos (FW b)).
  pose proof (powers10_pos (intg a)). pose proof (powers10_pos (intg b)).
  split; [nia|]. apply (Z.lt_le_trans _ ((powers10 (intg a) * B (FW a)) * (powers10 (intg b) * B (FW b)))); [nia|].
  replace (powers10 (intg a) * B (FW a) * (powers10 (intg b) * B (FW b))) with
    (powers10 (intg a) * powers10 (intg b) * (B (FW a) * B (FW b))) by ring. nia.
Qed.

Lemma product_divide : (powers10 (9 * J - (frac a + frac b)) | P).
Proof.
  pose proof (magnitude_divide (FW a) a Ha ltac:(lia)) as [x Ex]. pose proof (magnitude_divide (FW b) b Hb ltac:(lia)) as [y Ey].
  pose proof (ROUND_UP_spec (frac a)) as Fa. pose proof (ROUND_UP_spec (frac b)) as Fb. fold (FW a) (FW b) in Fa, Fb.
  unfold P, J. replace (9 * (FW a + FW b) - (frac a + frac b))%nat with (9 * FW a - frac a + (9 * FW b - frac b))%nat by lia.
  rewrite powers10_add, Ex, Ey. exists (x * y). ring.
Qed.

Lemma product_rows rest :
  exists l, mul_rows (rev (take (IW a + FW a) (buf a))) (rev (take (IW b + FW b) (buf b))) (I0 + J)
      (replicate (I0 + J) 0 ++ rest) = Some (false, l ++ rest) /\
    length l = (I0 + J)%nat /\ Forall word l /\ words l = P.
Proof.
  pose proof (wf_len a Ha) as La. pose proof (wf_len b Hb) as Lb. pose proof product_bound as HP.
  pose proof (ROUND_UP_spec (intg a + intg b)) as Hi. pose proof (ROUND_UP_spec (intg a)) as Hi1.
  pose proof (ROUND_UP_spec (intg b)) as Hi2. fold I0 in Hi. fold (IW a) in Hi1. fold (IW b) in Hi2.
  assert (EP : words (take (IW a + FW a) (buf a)) * words (take (IW b + FW b) (buf b)) = P).
  { unfold P, magnitude. rewrite !Nat.min_id, !Nat.sub_diag, B_0. ring. }
  destruct (mul_rows_spec (I0 + J) rest (rev (take (IW a + FW a) (buf a))) (rev (take (IW b + FW b) (buf b))) (I0 + J)
    (replicate (I0 + J) 0)) as (l & -> & Wl & Ll & Vl);
    rewrite ?rev_length, ?len_take, ?rev_involutive, ?words_zeros, ?Nat.sub_diag, ?B_0, ?EP by lia;
    try (unfold J; lia); try (apply Forall_rev, wf_words; done); try (apply Forall_replicate, word_0);
    try (by rewrite length_replicate).
  - fold I0 J in HP. lia.
  - exists l. split; [done|]. split; [done|]. split; [done|]. rewrite Vl, !rev_involutive, words_zeros, Nat.sub_diag, B_0, EP. lia.
Qed.
End Product.

(** C10: When the buffer has the size that [decimal_result_size] gives,
    [decimal_mul] gives the exact product, without error, and never a negative
    zero. *)
Theorem decimal_mul_correct a b to :
  wf a -> wf b -> (decimal_result_size a b OP_MUL 0 <= len to)%nat ->
  exists r, decimal_mul a b to = Some (E_DEC_OK, r) /\ proper r /\ len r = len to /\
    forall n m, (FW a <= n)%nat -> (FW b <= m)%nat -> value (n + m) r = value n a * value m b.
Proof.
  intros Ha Hb Hs. unfold decimal_result_size in Hs. fold (FW a) (FW b) in Hs. unfold decimal_mul.
  fold (IW a) (IW b) (FW a) (FW b). set (I0 := ROUND_UP (intg a + intg b)) in *. set (J := (FW a + FW b)%nat).
  destruct (FIX_INTG_FRAC_ERROR (len to) I0 J) as [[i0 j0] err] eqn:EF.
  apply FIX_spec in EF as [[_ E]|(-> & Ej & _ & E)]; [lia|]. destruct E as [[-> E]|[_ E]]; [|unfold J in E; lia].
  replace j0 with J in * by lia. clear Ej j0.
  unfold mul_bounds. change (E_DEC_OK =? E_DEC_OK) with true. cbn iota. rewrite !factor_words_all.
  destruct (product_rows a b Ha Hb (drop (I0 + J) (buf to))) as (l & El & Ll & Wl & Vl). fold I0 J in El, Ll.
  rewrite El. cbn [mbind option_bind].
  pose proof (ROUND_UP_spec (frac a + frac b)) as Hf. set (R := ROUND_UP (frac a + frac b)) in *.
  pose proof (ROUND_UP_spec (frac a)) as Fa. pose proof (ROUND_UP_spec (frac b)) as Fb. fold (FW a) (FW b) in Fa, Fb.
  assert (HR : (R <= J)%nat) by (unfold J; lia).
  pose proof (product_divide a b Ha Hb) as HD. fold J in HD. rewrite <- Vl in HD.
  assert (HB : words l = words (take (I0 + R) l) * B (J - R)).
  { apply words_divided; [lia|done|]. rewrite powers10_B. eapply Z.divide_trans; [|exact HD]. apply powers10_divide. lia. }
  set (bb := l ++ drop (I0 + J) (buf to)).
  assert (Tb : forall k, (k <= I0 + J)%nat -> take k bb = take k l).
  { intros k Hk. unfold bb. by rewrite take_app_le by lia. }
  assert (Lb : length bb = len to) by (unfold bb, len in *; rewrite length_app, length_drop; lia).
  pose proof (wf_digits a Ha) as Da. pose proof (ROUND_UP_spec (intg a + intg b)) as Di. fold I0 in Di.
  destruct (mul_finish_spec I0 J (frac a + frac b) (xorb (sign a) (sign b)) bb) as (r & -> & Wr & Lr & Fr & Mr & Sr).
  - unfold len in *. lia.
  - done.
  - lia.
  - rewrite Tb by lia. by apply Forall_take.
  - fold R. rewrite !Tb by lia. by rewrite <- HB, take_ge by lia.
  - fold R. rewrite Tb by lia. rewrite HB in HD. rewrite powers10_B in HD.
    replace (9 * J - (frac a + frac b))%nat with (9 * R - (frac a + frac b) + 9 * (J - R))%nat in HD by lia.
    rewrite powers10_add in HD. apply Z.mul_divide_cancel_r in HD; [done|]. pose proof (powers10_pos (9 * (J - R))). lia.
  - rewrite Tb in Mr, Sr by lia. rewrite take_ge in Mr, Sr by lia. rewrite Vl in Mr, Sr.
    exists r. split; [done|]. split; [|split; [lia|]].
    + split; [done|]. intros Es. rewrite Es in Sr. rewrite (magnitude_exact J) in Mr by done. pose proof (B_pos (J - FW r)). nia.
    + intros n m Hn Hm. rewrite (value_scale (n + m) J r), (value_exact n a), (value_exact m b) by (unfold J; lia).
      replace (n + m - J)%nat with ((n - FW a) + (m - FW b))%nat by (unfold J; lia). rewrite B_add.
      assert (Ev : value J r = value (FW a) a * value (FW b) b); [|rewrite Ev; ring].
      unfold value. rewrite Mr. destruct (sign a), (sign b), (sign r); cbn [xorb] in Sr; lia.
Qed.
