(* ===== verification/DecimalInt.v ===== *)
(** * Decimals and integers (ull2dec to decimal2longlong of strings/decimal.c)

    Unsigned 64-bit arithmetic wraps around; the signed multiplication in
    [decimal2longlong], whose overflow is looked for after the fact, is taken to
    wrap around as well.  A conversion from a decimal gives the error and the
    integer. *)
From Stdlib Require Import ZArith Lia List Bool.
From stdpp Require Import base tactics list option.
From S2P Require Import Prelude StrNum Decimal DecimalValue DecimalAdd DecimalSub.

Open Scope Z_scope.

(** ** The functions *)

(** The number of words of [from]; [None] when the fuel is used up. *)
Fixpoint ull_words (fuel : nat) (intg1 : nat) (from : Z) : option nat :=
  if DIG_BASE <=? from then
    match fuel with
    | O => None
    | S fuel => ull_words fuel (S intg1) (from / DIG_BASE)
    end
  else Some intg1.

(** The words of [x], downwards. *)
Fixpoint ull_store (intg1 : nat) (x : Z) (acc : list Z) : list Z :=
  match intg1 with
  | O => acc
  | S intg1 => let y := x / DIG_BASE in ull_store intg1 y (x - y * DIG_BASE :: acc)
  end.

(** A 64-bit number has at most three words. *)
Definition ull2dec (from : Z) (to : decimal_t) : option (Z * decimal_t) :=
  intg1 ← ull_words 3 1 from;
  let '(intg1, error) := if (len to <? intg1)%nat then (len to, E_DEC_OVERFLOW) else (intg1, E_DEC_OK) in
  Some (error, mk_dec (intg1 * DIG_PER_DEC1) 0 (sign to) (overwrite (ull_store intg1 from []) (buf to))).

Definition set_sign (s : bool) (d : decimal_t) : decimal_t := mk_dec (intg d) (frac d) s (buf d).

Definition ulonglong2decimal (from : Z) (to : decimal_t) : option (Z * decimal_t) :=
  ull2dec from (set_sign false to).

Definition LONGLONG_MAX : Z := 2 ^ 63 - 1.

Definition longlong2decimal (from : Z) (to : decimal_t) : option (Z * decimal_t) :=
  let to := set_sign (from <? 0) to in
  if from <? 0 then
    if from =? LONGLONG_MIN then ull2dec (u64 from) to
    else ull2dec (- from) to
  else ull2dec from to.

(** [inl] the result and the words that follow, [inr] the overflow. *)
Fixpoint dec2ull_loop (buf : list Z) (intg : nat) (x : Z) : option (Z * list Z + unit) :=
  if (intg =? 0)%nat then Some (inl (x, buf))
  else match buf with
       | [] => None
       | w :: buf =>
           let y := x in
           let x := u64 (x * DIG_BASE + w) in
           if (ULONGLONG_MAX / DIG_BASE <? y) || (x <? y) then Some (inr tt)
           else dec2ull_loop buf (intg - DIG_PER_DEC1) x
       end.

Fixpoint frac_loop (buf : list Z) (frac : nat) : option Z :=
  if (frac =? 0)%nat then Some E_DEC_OK
  else match buf with
       | [] => None
       | w :: buf => if w =? 0 then frac_loop buf (frac - DIG_PER_DEC1) else Some E_DEC_TRUNCATED
       end.

Definition decimal2ulonglong (from : decimal_t) : option (Z * Z) :=
  if sign from then Some (E_DEC_OVERFLOW, 0)
  else
    r ← dec2ull_loop (buf from) (intg from) 0;
    match r with
    | inr _ => Some (E_DEC_OVERFLOW, ULONGLONG_MAX)
    | inl (x, buf) => error ← frac_loop buf (frac from); Some (error, x)
    end.

Fixpoint dec2ll_loop (buf : list Z) (intg : nat) (x : Z) : option (Z * list Z + unit) :=
  if (intg =? 0)%nat then Some (inl (x, buf))
  else match buf with
       | [] => None
       | w :: buf =>
           let y := x in
           let x := s64 (x * DIG_BASE - w) in
           if (y <? Z.quot LONGLONG_MIN DIG_BASE) || (y <? x) then Some (inr tt)
           else dec2ll_loop buf (intg - DIG_PER_DEC1) x
       end.

Definition decimal2longlong (from : decimal_t) : option (Z * Z) :=
  r ← dec2ll_loop (buf from) (intg from) 0;
  match r with
  | inr _ => Some (E_DEC_OVERFLOW, if sign from then LONGLONG_MIN else LONGLONG_MAX)
  | inl (x, buf) =>
      if negb (sign from) && (x =? LONGLONG_MIN) then Some (E_DEC_OVERFLOW, LONGLONG_MAX)
      else error ← frac_loop buf (frac from); Some (error, if sign from then x else - x)
  end.

(** ** From integers *)

Lemma ull_store_spec n x acc :
  0 <= x -> exists l, ull_store n x acc = l ++ acc /\ length l = n /\ Forall word l /\ words l = x mod B n.
Proof.
  revert x acc. induction n as [|n IH]; intros x acc Hx; cbn [ull_store].
  { exists []. rewrite B_0, Z.mod_1_r. done. }
  set (w := x - x / DIG_BASE * DIG_BASE). assert (Ew : w = x mod DIG_BASE) by (unfold w; rewrite Z.mod_eq by done; lia).
  destruct (IH (x / DIG_BASE) (w :: acc)) as (l & -> & Ll & Wl & El); [apply Z.div_pos; done|].
  exists (l ++ [w]). rewrite <- app_assoc, length_app. split; [done|]. split; [cbn; lia|].
  pose proof (Z.mod_pos_bound x DIG_BASE ltac:(done)) as Hw. rewrite <- Ew in Hw.
  split; [by apply Forall_app; split; [|constructor]|].
  rewrite words_app, words_one, El, B_S. cbn [length]. change (B 1) with DIG_BASE.
  rewrite Z.rem_mul_r by (pose proof (B_pos n); done || lia). lia.
Qed.

Lemma ull_words_spec fuel k x :
  0 <= x < B (S fuel) ->
  exists n, ull_words fuel k x = Some (k + n)%nat /\ x < B (S n) /\ (n = 0%nat \/ B n <= x) /\ (n <= fuel)%nat.
Proof.
  revert k x. induction fuel as [|fuel IH]; intros k x Hx; cbn [ull_words]; destruct (Z.leb_spec DIG_BASE x).
  - change (B 1) with DIG_BASE in Hx. lia.
  - exists 0%nat. rewrite Nat.add_0_r. split; [done|]. change (B 1) with DIG_BASE. split; [lia|]. split; [by left|lia].
  - assert (Hq : 0 <= x / DIG_BASE < B (S fuel)).
    { split; [apply Z.div_pos; lia || done|]. apply Z.div_lt_upper_bound; [done|]. rewrite <- B_S. lia. }
    destruct (IH (S k) _ Hq) as (n & -> & H1 & H2 & H3). exists (S n). split; [f_equal; lia|].
    pose proof (Z.mul_div_le x DIG_BASE ltac:(done)). pose proof (Z.mul_succ_div_gt x DIG_BASE ltac:(done)).
    rewrite !(B_S (S n)). split; [unfold DIG_BASE in *; lia|]. split; [|lia]. right. destruct H2 as [->|H2]; [change (B 1) with DIG_BASE; lia|].
    rewrite B_S. unfold DIG_BASE in *; lia.
  - exists 0%nat. rewrite Nat.add_0_r. split; [done|]. change (B 1) with DIG_BASE. split; [lia|]. split; [by left|lia].
Qed.

Lemma ull2dec_spec v to :
  0 <= v < 2 ^ 64 -> (0 < len to)%nat ->
  exists err r, ull2dec v to = Some (err, r) /\ wf r /\ len r = len to /\ sign r = sign to /\ frac r = 0%nat /\
    magnitude 0 r = v mod B (len to) /\ err = (if v <? B (len to) then E_DEC_OK else E_DEC_OVERFLOW).
Proof.
  intros Hv Hl. unfold ull2dec.
  destruct (ull_words_spec 3 1 v) as (n & -> & H1 & H2 & H3); [change (B 4) with (10 ^ 36); lia|].
  cbn [mbind option_bind].
  assert (HB : B (len to) <= v <-> (len to < 1 + n)%nat).
  { split; intros H; [apply Nat.nle_gt; intros Hle; pose proof (B_le _ _ Hle); cbn [Nat.add] in *; lia|].
    destruct H2 as [->|H2]; [lia|]. pose proof (B_le (len to) n ltac:(lia)). lia. }
  set (m := Nat.min (len to) (1 + n)).
  assert (E : (if (len to <? 1 + n)%nat then (len to, E_DEC_OVERFLOW) else ((1 + n)%nat, E_DEC_OK)) =
    (m, if v <? B (len to) then E_DEC_OK else E_DEC_OVERFLOW)).
  { unfold m. destruct (Nat.ltb_spec (len to) (1 + n)), (Z.ltb_spec v (B (len to))); try lia; f_equal; lia. }
  rewrite E. clear E. destruct (ull_store_spec m v [] ltac:(lia)) as (l & -> & Ll & Wl & El). rewrite app_nil_r.
  assert (Em : v mod B m = v mod B (len to)).
  { destruct (Nat.le_gt_cases (len to) (1 + n)) as [Hc|Hc]; [unfold m; by rewrite Nat.min_l|].
    assert (v < B (len to)) by lia. rewrite !Z.mod_small; [done|lia|]. unfold m. rewrite Nat.min_r by lia. cbn [Nat.add]. lia. }
  eexists _, _. split; [done|].
  assert (Tk : forall k, (k <= m)%nat -> take k (overwrite l (buf to)) = take k l).
  { intros k Hk. unfold overwrite. by rewrite take_app_le by lia. }
  assert (Lo : length (overwrite l (buf to)) = len to) by (unfold overwrite, len in *; rewrite length_app, length_drop; lia).
  assert (Ew : words (take m l) = v mod B (len to)) by (rewrite take_ge by lia; lia).
  split; [|split; [done|split; [done|split; [done|split; [|done]]]]].
  - apply (result_wf m 0); [done|lia|lia| |].
    + rewrite Nat.add_0_r, Tk by lia. by apply Forall_take.
    + rewrite Nat.mul_0_r. apply Z.divide_1_l.
  - rewrite magnitude_0, IW_mul. cbn [buf]. by rewrite Tk.
Qed.

(** An integer that fits becomes a decimal of the same value, without error; a
    buffer of three words is always enough. *)
Theorem longlong2decimal_correct v to :
  is_s64 v -> (3 <= len to)%nat ->
  exists r, longlong2decimal v to = Some (E_DEC_OK, r) /\ proper r /\ len r = len to /\ frac r = 0%nat /\
    value 0 r = v.
Proof.
  unfold is_s64. intros Hv Hl. pose proof (B_le 3 (len to) Hl) as HB. change (B 3) with (10 ^ 27) in HB.
  assert (E : longlong2decimal v to = ull2dec (Z.abs v) (set_sign (v <? 0) to)).
  { unfold longlong2decimal. destruct (Z.ltb_spec v 0); [|by rewrite Z.abs_eq by lia].
    destruct (Z.eqb_spec v LONGLONG_MIN) as [->|]; [done|]. by rewrite Z.abs_neq by lia. }
  rewrite E. destruct (ull2dec_spec (Z.abs v) (set_sign (v <? 0) to)) as (err & r & -> & Wr & Lr & Sr & Fr & Mr & ->); [lia| |].
  { change (len (set_sign _ to)) with (len to). lia. }
  change (len (set_sign _ to)) with (len to) in *. rewrite Z.mod_small in Mr by lia.
  destruct (Z.ltb_spec (Z.abs v) (B (len to))) as [_|]; [|lia].
  exists r. assert (Ef : FW r = 0%nat) by (unfold FW; by rewrite Fr).
  cbn [set_sign sign] in Sr. split; [done|]. split; [|split; [done|split; [done|]]].
  - split; [done|]. rewrite Sr, Ef, Mr. destruct (Z.ltb_spec v 0); [lia|done].
  - unfold value. rewrite Sr, Mr. destruct (Z.ltb_spec v 0); lia.
Qed.

(** ** To integers *)

Lemma ROUND_UP_step n : (0 < n)%nat -> ROUND_UP n = S (ROUND_UP (n - DIG_PER_DEC1)).
Proof.
  intros H. pose proof (ROUND_UP_spec n). pose proof (ROUND_UP_spec (n - DIG_PER_DEC1)).
  change DIG_PER_DEC1 with 9%nat in *. lia.
Qed.

(** The loop over the words before the point computes their value, and notices
    exactly the values that are too large. *)
Lemma dec2ull_loop_spec b n x :
  (ROUND_UP n <= length b)%nat -> Forall word (take (ROUND_UP n) b) -> 0 <= x < 2 ^ 64 ->
  let v := x * B (ROUND_UP n) + words (take (ROUND_UP n) b) in
  dec2ull_loop b n x = Some (if v <? 2 ^ 64 then inl (v, drop (ROUND_UP n) b) else inr tt).
Proof.
  revert n x. induction b as [|w b IH]; intros n x Hl Hw Hx; cbn [dec2ull_loop length] in *;
    destruct (Nat.eqb_spec n 0) as [->|Hn]; try (change (ROUND_UP 0) with 0%nat; cbn [take drop]; rewrite B_0, words_nil;
      destruct (Z.ltb_spec (x * 1 + 0) (2 ^ 64)); [repeat f_equal; lia|lia]).
  { pose proof (ROUND_UP_step n). lia. }
  rewrite (ROUND_UP_step n) in * by lia. set (k := ROUND_UP (n - DIG_PER_DEC1)) in *. cbn [take drop] in *.
  apply list.Forall_cons in Hw as [Hw Hws]. pose proof (words_bound _ Hws) as Hb.
  rewrite length_take, Nat.min_l in Hb by lia. rewrite words_cons, length_take, Nat.min_l, B_S by lia.
  pose proof (B_pos k) as Bk. unfold word in Hw. unfold u64.
  set (R := words (take k b)) in *.
  assert (Ev : x * (DIG_BASE * B k) + (w * B k + R) = (x * DIG_BASE + w) * B k + R) by ring. rewrite Ev.
  destruct (Z.le_gt_cases (2 ^ 64) (x * DIG_BASE + w)) as [Hov|Hov].
  - destruct (Z.ltb_spec ((x * DIG_BASE + w) * B k + R) (2 ^ 64)); [nia|].
    destruct (Z.ltb_spec (ULONGLONG_MAX / DIG_BASE) x) as [|Hy]; [done|]. cbn [orb].
    destruct (Z.ltb_spec ((x * DIG_BASE + w) mod 2 ^ 64) x) as [|Hxy]; [done|exfalso].
    change (ULONGLONG_MAX / DIG_BASE) with 18446744073 in Hy. unfold DIG_BASE in *.
    rewrite (Z.mod_eq _ (2 ^ 64)) in Hxy by lia.
    assert ((x * 1000000000 + w) / 2 ^ 64 = 1) as E1 by (symmetry; apply (Z.div_unique _ _ _ (x * 1000000000 + w - 2 ^ 64)); lia). lia.
  - rewrite Z.mod_small by (unfold DIG_BASE in *; lia).
    destruct (Z.ltb_spec (ULONGLONG_MAX / DIG_BASE) x) as [Hy|_].
    { change (ULONGLONG_MAX / DIG_BASE) with 18446744073 in Hy. unfold DIG_BASE in *. lia. }
    destruct (Z.ltb_spec (x * DIG_BASE + w) x) as [|_]; [unfold DIG_BASE in *; lia|]. cbn [orb].
    rewrite IH; [done|lia|done|unfold DIG_BASE in *; lia].
Qed.

(** The same for the negative of the value and 64 bits with a sign. *)
Lemma dec2ll_loop_spec b n x :
  (ROUND_UP n <= length b)%nat -> Forall word (take (ROUND_UP n) b) -> 0 <= x <= 2 ^ 63 ->
  let v := x * B (ROUND_UP n) + words (take (ROUND_UP n) b) in
  dec2ll_loop b n (- x) = Some (if v <=? 2 ^ 63 then inl (- v, drop (ROUND_UP n) b) else inr tt).
Proof.
  revert n x. induction b as [|w b IH]; intros n x Hl Hw Hx; cbn [dec2ll_loop length] in *;
    destruct (Nat.eqb_spec n 0) as [->|Hn]; try (change (ROUND_UP 0) with 0%nat; cbn [take drop]; rewrite B_0, words_nil;
      destruct (Z.leb_spec (x * 1 + 0) (2 ^ 63)); [repeat f_equal; lia|lia]).
  { pose proof (ROUND_UP_step n). lia. }
  rewrite (ROUND_UP_step n) in * by lia. set (k := ROUND_UP (n - DIG_PER_DEC1)) in *. cbn [take drop] in *.
  apply list.Forall_cons in Hw as [Hw Hws]. pose proof (words_bound _ Hws) as Hb.
  rewrite length_take, Nat.min_l in Hb by lia. rewrite words_cons, length_take, Nat.min_l, B_S by lia.
  pose proof (B_pos k) as Bk. unfold word in Hw. set (R := words (take k b)) in *.
  assert (Ev : x * (DIG_BASE * B k) + (w * B k + R) = (x * DIG_BASE + w) * B k + R) by ring. rewrite Ev.
  replace (- x * DIG_BASE - w) with (- (x * DIG_BASE + w)) by ring.
  change (Z.quot LONGLONG_MIN DIG_BASE) with (- 9223372036).
  destruct (Z.lt_ge_cases (2 ^ 63) (x * DIG_BASE + w)) as [Hov|Hov].
  - destruct (Z.leb_spec ((x * DIG_BASE + w) * B k + R) (2 ^ 63)); [nia|].
    destruct (Z.ltb_spec (- x) (- 9223372036)) as [|Hy]; [done|]. cbn [orb]. unfold DIG_BASE, s64 in *.
    rewrite <- (Z.mod_unique (- (x * 1000000000 + w) + 2 ^ 63) (2 ^ 64) (- 1) (- (x * 1000000000 + w) + 2 ^ 63 + 2 ^ 64)) by lia.
    destruct (Z.ltb_spec (- x) (- (x * 1000000000 + w) + 2 ^ 63 + 2 ^ 64 - 2 ^ 63)) as [|Hxy]; [done|lia].
  - rewrite s64_small by (unfold DIG_BASE in *; lia).
    destruct (Z.ltb_spec (- x) (- 9223372036)) as [Hy|_]; [unfold DIG_BASE in *; lia|].
    destruct (Z.ltb_spec (- x) (- (x * DIG_BASE + w))) as [|_]; [unfold DIG_BASE in *; lia|]. cbn [orb].
    rewrite IH; [done|lia|done|unfold DIG_BASE in *; lia].
Qed.

Lemma frac_loop_spec b n :
  (ROUND_UP n <= length b)%nat -> Forall word (take (ROUND_UP n) b) ->
  frac_loop b n = Some (if words (take (ROUND_UP n) b) =? 0 then E_DEC_OK else E_DEC_TRUNCATED).
Proof.
  revert n. induction b as [|w b IH]; intros n Hl Hw; cbn [frac_loop length] in *;
    destruct (Nat.eqb_spec n 0) as [->|Hn]; try done.
  { pose proof (ROUND_UP_step n). lia. }
  rewrite (ROUND_UP_step n) in * by lia. set (k := ROUND_UP (n - DIG_PER_DEC1)) in *. cbn [take] in *.
  apply list.Forall_cons in Hw as [Hw Hws]. pose proof (words_bound _ Hws) as Hb.
  rewrite words_cons, length_take, Nat.min_l in * by lia. pose proof (B_pos k). unfold word in Hw.
  destruct (Z.eqb_spec w 0) as [->|Hnz]; [apply IH; [lia|done]|].
  destruct (Z.eqb_spec (w * B k + words (take k b)) 0); [nia|done].
Qed.

(** The digits after the point, as a number. *)
Lemma magnitude_parts d :
  wf d -> magnitude (FW d) d = magnitude 0 d * B (FW d) + words (take (FW d) (drop (IW d) (buf d))).
Proof.
  intros H. pose proof (wf_len d H) as Hl. rewrite magnitude_0. unfold magnitude.
  rewrite Nat.min_id, Nat.sub_diag, B_0, Z.mul_1_r, (words_split (IW d)) by (rewrite len_take; lia).
  rewrite take_take, Nat.min_l, len_take by lia. replace (IW d + FW d - IW d)%nat with (FW d) by lia.
  do 2 f_equal. by rewrite skipn_firstn_comm, Nat.add_sub_swap, Nat.sub_diag by lia.
Qed.

(** The error of the loop over the words after the point. *)
Lemma frac_loop_wf d :
  wf d -> frac_loop (drop (IW d) (buf d)) (frac d) =
  Some (if magnitude (FW d) d =? magnitude 0 d * B (FW d) then E_DEC_OK else E_DEC_TRUNCATED).
Proof.
  intros H. pose proof (wf_len d H) as Hl. unfold len in Hl. fold (FW d).
  rewrite frac_loop_spec; fold (FW d).
  - rewrite magnitude_parts by done. f_equal. destruct (Z.eqb_spec (words (take (FW d) (drop (IW d) (buf d)))) 0), (Z.eqb_spec (magnitude 0 d * B (FW d) + words (take (FW d) (drop (IW d) (buf d)))) (magnitude 0 d * B (FW d))); try done; lia.
  - rewrite length_drop. lia.
  - pose proof (Forall_drop _ (IW d) _ (wf_words d H)) as Hd.
    by rewrite skipn_firstn_comm, Nat.add_sub_swap, Nat.sub_diag in Hd by lia.
Qed.

(** The value without the digits after the point, into the range. *)
Definition clip (lo hi v : Z) : Z := Z.max lo (Z.min hi v).

Definition conversion_error (lo hi : Z) (d : decimal_t) : Z :=
  if (value 0 d <? lo) || (hi <? value 0 d) then E_DEC_OVERFLOW
  else if value (FW d) d =? value 0 d * B (FW d) then E_DEC_OK else E_DEC_TRUNCATED.

(** [decimal2longlong] gives the number without its digits after the point or
    the nearest 64-bit integer; the error tells whether it is the same number,
    was cut off, or was out of range. *)
Theorem decimal2longlong_correct d :
  wf d ->
  decimal2longlong d = Some (conversion_error LONGLONG_MIN LONGLONG_MAX d, clip LONGLONG_MIN LONGLONG_MAX (value 0 d)).
Proof.
  intros H. pose proof (wf_len d H) as Hl. unfold len in Hl. unfold decimal2longlong.
  pose proof (dec2ll_loop_spec (buf d) (intg d) 0) as Hs. fold (IW d) in Hs.
  cbn zeta in Hs. change (- 0) with 0 in Hs. rewrite Hs by (lia || by apply take_words; [|lia]). clear Hs.
  rewrite Z.mul_0_l, Z.add_0_l, <- magnitude_0. pose proof (magnitude_nonneg 0 d H) as Hn.
  cbn [mbind option_bind]. unfold conversion_error, clip, LONGLONG_MIN, LONGLONG_MAX, value in *.
  destruct (Z.leb_spec (magnitude 0 d) (2 ^ 63)) as [Hm|Hm].
  - rewrite frac_loop_wf by done. cbn [mbind option_bind].
    destruct (sign d); cbn [negb andb].
    + destruct (Z.ltb_spec (- magnitude 0 d) (- 2 ^ 63)); [lia|]. destruct (Z.ltb_spec (2 ^ 63 - 1) (- magnitude 0 d)); [lia|]. cbn [orb].
      f_equal. f_equal; [|lia]. destruct (Z.eqb_spec (magnitude (FW d) d) (magnitude 0 d * B (FW d))),
        (Z.eqb_spec (- magnitude (FW d) d) (- magnitude 0 d * B (FW d))); done || lia.
    + destruct (Z.ltb_spec (magnitude 0 d) (- 2 ^ 63)); [lia|]. cbn [orb].
      destruct (Z.eqb_spec (- magnitude 0 d) (- 2 ^ 63)), (Z.ltb_spec (2 ^ 63 - 1) (magnitude 0 d)); try lia; f_equal; f_equal; lia.
  - f_equal. destruct (sign d).
    + destruct (Z.ltb_spec (- magnitude 0 d) (- 2 ^ 63)); [|lia]. cbn [orb]. f_equal. lia.
    + destruct (Z.ltb_spec (2 ^ 63 - 1) (magnitude 0 d)); [|lia]. rewrite orb_true_r. f_equal. lia.
Qed.

(** [decimal2ulonglong] likewise, for the integers without sign. *)
Theorem decimal2ulonglong_correct d :
  proper d ->
  decimal2ulonglong d = Some (if sign d then E_DEC_OVERFLOW else conversion_error 0 ULONGLONG_MAX d, clip 0 ULONGLONG_MAX (value 0 d)).
Proof.
  intros [H _]. pose proof (wf_len d H) as Hl. unfold len in Hl. unfold decimal2ulonglong.
  pose proof (magnitude_nonneg 0 d H) as Hn. unfold conversion_error, clip, ULONGLONG_MAX, value in *.
  destruct (sign d); [f_equal; f_equal; lia|].
  pose proof (dec2ull_loop_spec (buf d) (intg d) 0) as Hs. fold (IW d) in Hs.
  cbn zeta in Hs. rewrite Hs by (lia || by apply take_words; [|lia]). clear Hs.
  rewrite Z.mul_0_l, Z.add_0_l, <- magnitude_0. cbn [mbind option_bind].
  destruct (Z.ltb_spec (magnitude 0 d) 0); [lia|]. cbn [orb].
  destruct (Z.ltb_spec (magnitude 0 d) (2 ^ 64)), (Z.ltb_spec (2 ^ 64 - 1) (magnitude 0 d)); try lia.
  - rewrite frac_loop_wf by done. cbn [mbind option_bind]. f_equal. f_equal. lia.
  - f_equal. f_equal. lia.
Qed.
