(* ===== verification/DecimalBin.v ===== *)
(** * The binary format of decimals (decimal2bin, bin2decimal of strings/decimal.c)

    The bytes that [decimal2bin] writes from [to] on are its result.
    [bin2decimal] reads the bytes of [from] and stores words in the buffer of
    [to], [q] is the position of the pointer [buf] in it.  [mask] is 0, or -1 for
    negative numbers.  The precision is at least the scale. *)
From Stdlib Require Import ZArith Lia List Bool.
From stdpp Require Import base tactics list option.
From S2P Require Import Prelude Decimal DecimalValue DecimalAdd DecimalSub.

Open Scope Z_scope.

(** ** Integers, high byte first (include/myisampack.h) *)

Definition uchar (x : Z) : Z := x mod 256.
Definition int8 (x : Z) : Z := (x + 128) mod 256 - 128.
Definition int16 (x : Z) : Z := (x + 32768) mod 65536 - 32768.

Definition mi_int1store (a : Z) : list Z := [uchar a].
Definition mi_int2store (a : Z) : list Z :=
  let def_temp := u32 a in [uchar (Z.shiftr def_temp 8); uchar def_temp].
Definition mi_int3store (a : Z) : list Z :=
  let def_temp := u64 a in [uchar (Z.shiftr def_temp 16); uchar (Z.shiftr def_temp 8); uchar def_temp].
Definition mi_int4store (a : Z) : list Z :=
  let def_temp := u64 a in
  [uchar (Z.shiftr def_temp 24); uchar (Z.shiftr def_temp 16); uchar (Z.shiftr def_temp 8); uchar def_temp].

Definition mi_sint1korr (a : list Z) : option Z :=
  match a with a0 :: _ => Some (int8 a0) | _ => None end.
Definition mi_sint2korr (a : list Z) : option Z :=
  match a with a0 :: a1 :: _ => Some (int16 (a1 + Z.shiftl (int8 a0) 8)) | _ => None end.
Definition mi_sint3korr (a : list Z) : option Z :=
  match a with
  | a0 :: a1 :: a2 :: _ =>
      Some (s32 (if has_flag a0 128
                 then Z.lor (Z.lor (Z.lor (Z.shiftl 255 24) (Z.shiftl a0 16)) (Z.shiftl a1 8)) a2
                 else Z.lor (Z.lor (Z.shiftl a0 16) (Z.shiftl a1 8)) a2))
  | _ => None
  end.
Definition mi_sint4korr (a : list Z) : option Z :=
  match a with
  | a0 :: a1 :: a2 :: a3 :: _ => Some (s32 (a3 + Z.shiftl a2 8 + Z.shiftl a1 16 + Z.shiftl (int8 a0) 24))
  | _ => None
  end.

(** ** The functions *)

(** The switch on the number of bytes that stores [x]. *)
Definition store_digits (i : nat) (x : Z) : option (list Z) :=
  match i with
  | 1%nat => Some (mi_int1store x)
  | 2%nat => Some (mi_int2store x)
  | 3%nat => Some (mi_int3store x)
  | 4%nat => Some (mi_int4store x)
  | _ => None
  end.

(** The one that reads. *)
Definition load_digits (i : nat) (from : list Z) : option Z :=
  match i with
  | 1%nat => mi_sint1korr from
  | 2%nat => mi_sint2korr from
  | 3%nat => mi_sint3korr from
  | 4%nat => mi_sint4korr from
  | _ => None
  end.

Definition bin_bytes (words digits : nat) : nat := (words * 4 + dig2bytes digits)%nat.

(** The first word, when it has less than nine digits, and the words after it. *)
Definition store_first (mask : Z) (intg1x : nat) (buf1 : list Z) : option (list Z * list Z) :=
  if (intg1x =? 0)%nat then Some ([], buf1)
  else match buf1 with
       | [] => None
       | w :: buf1 =>
           bytes ← store_digits (dig2bytes intg1x) (Z.lxor (w mod powers10 intg1x) mask);
           Some (bytes, buf1)
       end.

Fixpoint store_words (mask : Z) (n : nat) (buf1 : list Z) : option (list Z * list Z) :=
  match n, buf1 with
  | O, _ => Some ([], buf1)
  | S n, w :: buf1 =>
      '(bytes, buf1) ← store_words mask n buf1;
      Some (mi_int4store (Z.lxor w mask) ++ bytes, buf1)
  | _, _ => None
  end.

(** The digits that fit in the same number of bytes. *)
Fixpoint more_digits (fuel i lim frac1x : nat) : nat :=
  match fuel with
  | O => frac1x
  | S fuel =>
      if (frac1x <? lim)%nat && (dig2bytes frac1x =? i)%nat then more_digits fuel i lim (S frac1x) else frac1x
  end.

(** The last word, when not all of its digits are stored. *)
Definition store_last (mask : Z) (frac0 frac0x frac1 frac1x : nat) (buf1 : list Z) : option (list Z) :=
  if (frac1x =? 0)%nat then Some []
  else
    let i := dig2bytes frac1x in
    let lim := if (frac1 <? frac0)%nat then DIG_PER_DEC1 else frac0x in
    let frac1x := more_digits DIG_PER_DEC1 i lim frac1x in
    w ← head buf1;
    store_digits i (Z.lxor (w / powers10 (DIG_PER_DEC1 - frac1x)) mask).

(** [orig_to[0]^= 0x80] *)
Definition flip_first (bytes : list Z) : option (list Z) :=
  match bytes with [] => None | x :: bytes => Some (Z.lxor x 128 :: bytes) end.

(** How many words and digits of the fraction are stored, the size that is
    left for them, and the error. *)
Definition bin_frac (error : Z) (fsize0 fsize1 frac0 frac0x frac1 frac1x : nat) : nat * nat * nat * Z :=
  if (fsize0 <? fsize1)%nat then (frac0, frac0x, fsize0, E_DEC_TRUNCATED)
  else if (fsize1 <? fsize0)%nat && negb (frac1x =? 0)%nat then
    if (frac0 =? frac1)%nat then (frac1, frac0x, fsize1, error)
    else (S frac1, 0%nat, fsize0, error)
  else (frac1, frac1x, fsize0, error).

Definition decimal2bin (from : decimal_t) (precision frac_ : nat) : option (Z * list Z) :=
  let intg := (precision - frac_)%nat in
  let intg0 := (intg / DIG_PER_DEC1)%nat in let frac0 := (frac_ / DIG_PER_DEC1)%nat in
  let intg0x := (intg mod DIG_PER_DEC1)%nat in let frac0x := (frac_ mod DIG_PER_DEC1)%nat in
  let frac1 := (frac from / DIG_PER_DEC1)%nat in let frac1x := (frac from mod DIG_PER_DEC1)%nat in
  let isize0 := bin_bytes intg0 intg0x in
  let fsize0 := bin_bytes frac0 frac0x in
  let fsize1 := bin_bytes frac1 frac1x in
  let size := (isize0 + fsize0)%nat in
  '(from_intg, buf1) ← remove_leading_zeroes from;
  let mask := if sign from then - 1 else 0 in
  let '(mask, intg, buf1) := if (from_intg + fsize1 =? 0)%nat then (0, 1%nat, [0]) else (mask, intg, buf1) in
  let intg1 := (from_intg / DIG_PER_DEC1)%nat in let intg1x := (from_intg mod DIG_PER_DEC1)%nat in
  let isize1 := bin_bytes intg1 intg1x in
  let '(to, buf1, intg1, intg1x, error) :=
    if (intg <? from_intg)%nat then
      ([], drop (ROUND_UP from_intg - ROUND_UP intg) buf1, intg0, intg0x, E_DEC_OVERFLOW)
    else (replicate (isize0 - isize1) (uchar mask), buf1, intg1, intg1x, E_DEC_OK) in
  let '(frac1, frac1x, fsize0, error) := bin_frac error fsize0 fsize1 frac0 frac0x frac1 frac1x in
  '(first, buf1) ← store_first mask intg1x buf1;
  '(full, buf1) ← store_words mask (intg1 + frac1) buf1;
  last ← store_last mask frac0 frac0x frac1 frac1x buf1;
  let to := to ++ first ++ full ++ last in
  let to := to ++ replicate (Nat.min (fsize0 - fsize1) (size - length to)) (uchar mask) in
  to ← flip_first to;
  Some (error, to).

(** [Bad] is [goto err]. *)
Inductive read_result :=
  | Read (from : list Z) (q : nat) (b : list Z) (intg : nat)
  | Bad (b : list Z).

Definition set_word (q : nat) (x : Z) (b : list Z) : option (list Z) :=
  if (q <? length b)%nat then Some (<[q := x]> b) else None.

Definition read_first (mask : Z) (intg0x : nat) (from b : list Z) (intg : nat) : option read_result :=
  if (intg0x =? 0)%nat then Some (Read from 0 b intg)
  else
    let i := dig2bytes intg0x in
    x ← load_digits i from;
    let x := Z.lxor x mask in
    b ← set_word 0 x b;
    Some (if powers10 (intg0x + 1) <=? u64 x then Bad b
          else if negb (x =? 0) then Read (drop i from) 1 b intg
          else Read (drop i from) 0 b (intg - intg0x)).

Fixpoint read_intg (n : nat) (mask : Z) (from : list Z) (q : nat) (b : list Z) (intg : nat) : option read_result :=
  match n with
  | O => Some (Read from q b intg)
  | S n =>
      x ← mi_sint4korr from;
      let x := Z.lxor x mask in
      b ← set_word q x b;
      if DIG_MAX <? u32 x then Some (Bad b)
      else if (0 <? q)%nat || negb (x =? 0) then read_intg n mask (drop 4 from) (S q) b intg
      else read_intg n mask (drop 4 from) q b (intg - DIG_PER_DEC1)
  end.

Fixpoint read_frac (n : nat) (mask : Z) (from : list Z) (q : nat) (b : list Z) (intg : nat) : option read_result :=
  match n with
  | O => Some (Read from q b intg)
  | S n =>
      x ← mi_sint4korr from;
      let x := Z.lxor x mask in
      b ← set_word q x b;
      if DIG_MAX <? u32 x then Some (Bad b)
      else read_frac n mask (drop 4 from) (S q) b intg
  end.

Definition read_last (mask : Z) (frac0x : nat) (from : list Z) (q : nat) (b : list Z) (intg : nat) : option read_result :=
  if (frac0x =? 0)%nat then Some (Read from q b intg)
  else
    x ← load_digits (dig2bytes frac0x) from;
    let x := s32 (Z.lxor x mask * powers10 (DIG_PER_DEC1 - frac0x)) in
    b ← set_word q x b;
    Some (if DIG_MAX <? u32 x then Bad b else Read from (S q) b intg).

(** The next step, unless there was an error. *)
Definition and_read (r : option read_result) (k : list Z -> nat -> list Z -> nat -> option read_result) : option read_result :=
  r ← r;
  match r with
  | Read from q b intg => k from q b intg
  | Bad b => Some (Bad b)
  end.

Definition bin2decimal (from : list Z) (to : decimal_t) (precision scale : nat) : option (Z * decimal_t) :=
  let intg := (precision - scale)%nat in
  let intg0 := (intg / DIG_PER_DEC1)%nat in let frac0 := (scale / DIG_PER_DEC1)%nat in
  let intg0x := (intg mod DIG_PER_DEC1)%nat in let frac0x := (scale mod DIG_PER_DEC1)%nat in
  let bin_size := decimal_bin_size precision scale in
  if (length from <? bin_size)%nat then None
  else
    first ← head from;
    let mask := if has_flag first 128 then 0 else - 1 in
    from ← flip_first (take bin_size from);
    let '(intg1, frac1, error) := FIX_INTG_FRAC_ERROR (len to) (ROUND_UP intg) (ROUND_UP scale) in
    let '(from, intg0, intg0x, frac0, frac0x) :=
      if error =? E_DEC_OK then (from, intg0, intg0x, frac0, frac0x)
      else if (intg1 <? ROUND_UP intg)%nat then
        (drop (dig2bytes intg0x + 4 * (intg0 - intg1)) from, intg1, 0%nat, 0%nat, 0%nat)
      else (from, intg0, intg0x, frac1, 0%nat) in
    let to_intg := (intg0 * DIG_PER_DEC1 + intg0x)%nat in
    let to_frac := (frac0 * DIG_PER_DEC1 + frac0x)%nat in
    r ← and_read (read_first mask intg0x from (buf to) to_intg) (fun from q b to_intg =>
        and_read (read_intg intg0 mask from q b to_intg) (fun from q b to_intg =>
        and_read (read_frac frac0 mask from q b to_intg) (fun from q b to_intg =>
        read_last mask frac0x from q b to_intg)));
    Some (match r with
          | Bad b => (E_DEC_BAD_NUM, decimal_make_zero (mk_dec to_intg to_frac (negb (mask =? 0)) b))
          | Read _ _ b to_intg =>
              let to := mk_dec to_intg to_frac (negb (mask =? 0)) b in
              (error, if (to_intg =? 0)%nat && (to_frac =? 0)%nat then decimal_make_zero to else to)
          end).

(** ** Numbers by their digits in some base *)

Definition radix (b : Z) (l : list Z) : Z := fold_left (fun v d => v * b + d) l 0.
Definition digits (b : Z) : list Z -> Prop := Forall (fun d => 0 <= d < b).

Lemma radix_acc b l v : fold_left (fun v d => v * b + d) l v = v * b ^ Z.of_nat (length l) + radix b l.
Proof.
  unfold radix. revert v. induction l as [|d l IH]; intros v; cbn [fold_left length].
  - rewrite Z.pow_0_r. lia.
  - rewrite IH, (IH (0 * b + d)), Nat2Z.inj_succ, Z.pow_succ_r by lia. ring.
Qed.

Lemma radix_app b l1 l2 : radix b (l1 ++ l2) = radix b l1 * b ^ Z.of_nat (length l2) + radix b l2.
Proof. unfold radix at 1. rewrite fold_left_app, radix_acc. done. Qed.

Lemma radix_cons b d l : radix b (d :: l) = d * b ^ Z.of_nat (length l) + radix b l.
Proof. apply (radix_app b [d] l). Qed.

Lemma radix_zeros b n : radix b (replicate n 0) = 0.
Proof. induction n as [|n IH]; [done|]. cbn [replicate]. rewrite radix_cons, IH. lia. Qed.

Lemma radix_bound b l : digits b l -> 0 <= radix b l < b ^ Z.of_nat (length l).
Proof.
  induction 1 as [|d l Hd Hl IH]; [by cbn|].
  cbn [length]. rewrite radix_cons, Nat2Z.inj_succ, Z.pow_succ_r by lia. nia.
Qed.

(** Numbers in the same format are compared part by part. *)
Lemma sgn_parts x y x' y' b :
  0 <= y < b -> 0 <= y' < b ->
  Z.sgn ((x * b + y) - (x' * b + y')) = if x =? x' then Z.sgn (y - y') else Z.sgn (x - x').
Proof.
  intros Hy Hy'. destruct (Z.eqb_spec x x') as [->|Hne]; [f_equal; lia|].
  destruct (Z.lt_ge_cases x x'); [rewrite !Z.sgn_neg by nia|rewrite !Z.sgn_pos by nia]; done.
Qed.

(** The sign of the first difference. *)
Fixpoint lex (l l' : list Z) : Z :=
  match l, l' with
  | x :: l, x' :: l' => if x =? x' then lex l l' else Z.sgn (x - x')
  | _, _ => 0
  end.

Lemma radix_lex b l l' :
  digits b l -> digits b l' -> length l = length l' -> Z.sgn (radix b l - radix b l') = lex l l'.
Proof.
  intros H. revert l'. induction H as [|x l Hx H IH]; intros [|x' l'] H' E; try done.
  apply list.Forall_cons in H' as [Hx' H']. injection E as E. cbn [lex]. rewrite !radix_cons, <- E.
  rewrite sgn_parts, IH; [done|done|done|by apply radix_bound|]. rewrite E. by apply radix_bound.
Qed.

Lemma memcmp_lex l l' : length l = length l' -> Z.sgn (memcmp l l' (length l)) = lex l l'.
Proof.
  revert l'. induction l as [|x l IH]; intros [|x' l'] E; try done. injection E as E. cbn [memcmp lex length].
  destruct (Z.eqb_spec x x'); [by apply IH|done].
Qed.

Lemma radix_inj b l l' : digits b l -> digits b l' -> length l = length l' -> radix b l = radix b l' -> l = l'.
Proof.
  intros H H' E Hr. pose proof (radix_lex b l l' H H' E) as Hl. rewrite Hr, Z.sub_diag in Hl. cbn in Hl. clear H H' Hr.
  revert l' E Hl. induction l as [|x l IH]; intros [|x' l'] E Hl; try done. injection E as E. cbn [lex] in Hl.
  destruct (Z.eqb_spec x x') as [->|]; [f_equal; by apply IH|]. exfalso. symmetry in Hl. apply Z.sgn_null_iff in Hl. lia.
Qed.

(** ** Bytes *)

Fixpoint be_bytes (n : nat) (x : Z) : list Z :=
  match n with O => [] | S n => x / 256 ^ Z.of_nat n mod 256 :: be_bytes n x end.

Lemma be_bytes_length n x : length (be_bytes n x) = n.
Proof. induction n as [|n IH]; cbn; [done|by rewrite IH]. Qed.

Lemma be_bytes_digits n x : digits 256 (be_bytes n x).
Proof. induction n as [|n IH]; constructor; [|done]. apply Z.mod_pos_bound. lia. Qed.

Lemma be_bytes_radix n x : radix 256 (be_bytes n x) = x mod 256 ^ Z.of_nat n.
Proof.
  induction n as [|n IH]; cbn [be_bytes]; [by rewrite Z.mod_1_r|].
  rewrite radix_cons, IH, be_bytes_length, Nat2Z.inj_succ, Z.pow_succ_r by lia.
  rewrite (Z.mul_comm 256), Z.rem_mul_r by lia. lia.
Qed.

Lemma be_bytes_0 n : be_bytes n 0 = replicate n 0.
Proof. induction n as [|n IH]; cbn; [done|]. rewrite IH. by rewrite Z.div_0_l by lia. Qed.

Ltac bytes_lia := unfold uchar, int8, int16, u32, u64, s32 in *; Z.to_euclidean_division_equations; lia.

Lemma store_digits_spec i x : (1 <= i <= 4)%nat -> store_digits i x = Some (be_bytes i x).
Proof.
  intros Hi. assert (i = 1 \/ i = 2 \/ i = 3 \/ i = 4)%nat as [-> | [-> | [-> | ->]]] by lia; cbn [store_digits];
    unfold mi_int1store, mi_int2store, mi_int3store, mi_int4store; cbn [be_bytes]; cbn zeta;
    rewrite ?Z.shiftr_div_pow2 by lia; change (256 ^ Z.of_nat 0) with 1; change (256 ^ Z.of_nat 1) with 256;
    change (256 ^ Z.of_nat 2) with 65536; change (256 ^ Z.of_nat 3) with 16777216;
    change (2 ^ 8) with 256; change (2 ^ 16) with 65536; change (2 ^ 24) with 16777216; repeat f_equal; bytes_lia.
Qed.

Lemma lor_shift a b k : 0 <= k -> 0 <= a -> 0 <= b < 2 ^ k -> Z.lor (Z.shiftl a k) b = a * 2 ^ k + b.
Proof.
  intros Hk Ha Hb. rewrite <- Z.add_lor_land, Z.shiftl_mul_pow2 by done.
  assert (E : Z.land (a * 2 ^ k) b = 0); [|lia].
  apply Z.bits_inj'. intros n Hn. rewrite Z.land_spec, Z.bits_0, <- Z.shiftl_mul_pow2 by done.
  destruct (Z.lt_ge_cases n k) as [Hlt|Hge]; [by rewrite Z.shiftl_spec_low|].
  assert (Z.testbit b n = false) as ->; [|by rewrite andb_false_r]. apply Z.testbit_false; [done|].
  rewrite Z.div_small; [done|]. pose proof (Z.pow_le_mono_r 2 k n ltac:(lia) Hge). lia.
Qed.

Lemma byte_top b : 0 <= b < 256 -> has_flag b 128 = (128 <=? b) /\ Z.lxor b 128 = if 128 <=? b then b - 128 else b + 128.
Proof.
  intros Hb. assert (E : forallb (fun n => let b := Z.of_nat n in
    Bool.eqb (has_flag b 128) (128 <=? b) && (Z.lxor b 128 =? if 128 <=? b then b - 128 else b + 128)) (List.seq 0 256) = true)
    by (vm_compute; reflexivity).
  rewrite forallb_forall in E. specialize (E (Z.to_nat b)). rewrite Z2Nat.id in E by lia.
  destruct (andb_prop _ _ (E ltac:(apply in_seq; lia))) as [E1 E2]. apply Bool.eqb_prop in E1. apply Z.eqb_eq in E2. done.
Qed.

(** The bytes of a number with sign are read back. *)
Lemma load_digits_spec i x rest :
  (1 <= i <= 4)%nat -> - (128 * 256 ^ Z.of_nat (i - 1)) <= x < 128 * 256 ^ Z.of_nat (i - 1) ->
  load_digits i (be_bytes i x ++ rest) = Some x.
Proof.
  intros Hi. assert (i = 1 \/ i = 2 \/ i = 3 \/ i = 4)%nat as [-> | [-> | [-> | ->]]] by lia;
    cbn [load_digits be_bytes app mi_sint1korr mi_sint2korr mi_sint3korr mi_sint4korr Nat.sub];
    change (256 ^ Z.of_nat 0) with 1; change (256 ^ Z.of_nat 1) with 256;
    change (256 ^ Z.of_nat 2) with 65536; change (256 ^ Z.of_nat 3) with 16777216; intros Hx; f_equal.
  - bytes_lia.
  - rewrite Z.shiftl_mul_pow2 by lia. bytes_lia.
  - set (a := x / 65536 mod 256). set (b := x / 256 mod 256). set (c := x / 1 mod 256).
    assert (Ha : 0 <= a < 256) by (apply Z.mod_pos_bound; lia). assert (Hb : 0 <= b < 256) by (apply Z.mod_pos_bound; lia).
    assert (Hc : 0 <= c < 256) by (apply Z.mod_pos_bound; lia).
    destruct (byte_top a Ha) as [-> _].
    assert (E1 : Z.lor (Z.lor (Z.shiftl a 16) (Z.shiftl b 8)) c = a * 65536 + b * 256 + c).
    { rewrite <- Z.lor_assoc, (lor_shift b c 8), lor_shift by lia. lia. }
    assert (E2 : Z.lor (Z.lor (Z.lor (Z.shiftl 255 24) (Z.shiftl a 16)) (Z.shiftl b 8)) c = 255 * 16777216 + (a * 65536 + b * 256 + c)).
    { rewrite <- !Z.lor_assoc, (Z.lor_assoc (Z.shiftl a 16)), E1, lor_shift by lia. lia. }
    rewrite E1, E2. unfold a, b, c. destruct (Z.leb_spec 128 (x / 65536 mod 256)); bytes_lia.
  - rewrite !Z.shiftl_mul_pow2 by lia. bytes_lia.
Qed.

(** Negative numbers have their bytes inverted. *)
Definition inverted (mask b : Z) : Z := if mask =? 0 then b else 255 - b.

Definition is_mask (mask : Z) : Prop := mask = 0 \/ mask = - 1.

Lemma lxor_mask x mask : is_mask mask -> Z.lxor x mask = if mask =? 0 then x else - x - 1.
Proof.
  intros [-> | ->]; cbn [Z.eqb]; [apply Z.lxor_0_r|]. rewrite Z.lxor_m1_r. unfold Z.lnot. lia.
Qed.

Lemma lxor_mask_twice x mask : Z.lxor (Z.lxor x mask) mask = x.
Proof. by rewrite Z.lxor_assoc, Z.lxor_nilpotent, Z.lxor_0_r. Qed.

Lemma be_bytes_mask n x mask : is_mask mask -> be_bytes n (Z.lxor x mask) = map (inverted mask) (be_bytes n x).
Proof.
  intros Hm. rewrite lxor_mask by done. unfold inverted. induction n as [|n IH]; [done|]. cbn [be_bytes map].
  rewrite IH. f_equal. destruct Hm as [-> | ->]; cbn [Z.eqb]; [done|].
  set (P := 256 ^ Z.of_nat n). assert (HP : 0 < P) by (apply Z.pow_pos_nonneg; lia).
  pose proof (Z.div_mod x P ltac:(lia)) as Ed. pose proof (Z.mod_pos_bound x P HP) as Em.
  rewrite <- (Z.div_unique (- x - 1) P (- (x / P) - 1) (P - 1 - x mod P)) by lia. bytes_lia.
Qed.

Lemma mask_byte mask n : is_mask mask -> replicate n (uchar mask) = map (inverted mask) (replicate n 0).
Proof. intros [-> | ->]; induction n as [|n IH]; cbn [replicate map]; rewrite ?IH; done. Qed.
