(* ===== verification/DecimalBinSpec.v ===== *)
(** * The binary format keeps values and their order

    What [decimal2bin] writes is the sequence of the groups of digits that the
    format has, each in its bytes; [bin2decimal] reads it back, and [memcmp]
    compares it like the numbers. *)
From Stdlib Require Import ZArith Lia List Bool.
From stdpp Require Import base tactics list option.
From S2P Require Import Prelude Decimal DecimalValue DecimalAdd DecimalSub DecimalBin.

Open Scope Z_scope.

#[local] Opaque Nat.div Nat.modulo.

(** ** Leading zeroes *)

Lemma div9 n : (n = 9 * (n / 9) + n mod 9 /\ n mod 9 < 9)%nat.
Proof. split; [apply Nat.div_mod_eq|]. apply Nat.mod_upper_bound. lia. Qed.

Lemma skip_zero_words_spec b n i :
  (ROUND_UP n <= length b)%nat -> (n = 0 \/ i = (n - 1) mod DIG_PER_DEC1 + 1)%nat ->
  exists k n', skip_zero_words b n i = Some (n', drop k b) /\ (k + ROUND_UP n' = ROUND_UP n)%nat /\
    take k b = replicate k 0 /\ (n' = n \/ n' < n /\ n' mod 9 = 0)%nat /\ (n' = 0%nat \/ head (drop k b) <> Some 0).
Proof.
  change DIG_PER_DEC1 with 9%nat. revert n i. induction b as [|w b IH]; intros n i Hl Hi; cbn [skip_zero_words length] in *;
    (destruct (Nat.eqb_spec n 0) as [->|Hn]; [exists 0%nat, 0%nat; repeat split; auto|]); pose proof (ROUND_UP_spec n) as Hr; [lia|].
  destruct Hi as [|Hi]; [done|].
  destruct (Z.eqb_spec w 0) as [->|Hw].
  - pose proof (ROUND_UP_spec (n - i)) as Hr'. pose proof (div9 (n - 1)) as Hd. assert (E : ROUND_UP n = S (ROUND_UP (n - i))) by lia.
    destruct (IH (n - i)%nat 9%nat) as (k & n' & E' & Hk & Ht & Hm & Hh); [lia|pose proof (div9 (n - i - 1)); lia|].
    exists (S k), n'. change DIG_PER_DEC1 with 9%nat. cbn [take drop replicate]. rewrite Ht. split; [done|]. split; [lia|]. split; [done|].
    split; [right; destruct Hm as [->|Hm]; [pose proof (div9 (n - i))|]; lia|done].
  - exists 0%nat, n. cbn [take drop replicate head]. split; [done|]. split; [done|]. split; [done|]. split; [by left|right; congruence].
Qed.

Lemma lead_digits_spec i w n :
  0 < w < powers10 (S i) ->
  exists j, (j <= i)%nat /\ lead_digits i w n = Some (n - j)%nat /\ powers10 (i - j) <= w < powers10 (S (i - j)).
Proof.
  revert n. induction i as [|i IH]; intros n Hw; cbn [lead_digits]; match goal with |- context [w <? ?p] => destruct (Z.ltb_spec w p) as [H|H] end.
  - change (powers10 0) with 1 in H. lia.
  - exists 0%nat. rewrite !Nat.sub_0_r. split; [done|]. split; [done|lia].
  - destruct (IH (n - 1)%nat) as (j & Hj & -> & Hp); [lia|]. exists (S j). split; [lia|]. split; [f_equal; lia|done].
  - exists 0%nat. rewrite !Nat.sub_0_r. split; [lia|]. split; [done|lia].
Qed.

Lemma remove_leading_zeroes_spec d :
  wf d ->
  exists k n, remove_leading_zeroes d = Some (n, drop k (buf d)) /\ (k + ROUND_UP n = IW d)%nat /\
    take k (buf d) = replicate k 0 /\ magnitude 0 d = words (take (ROUND_UP n) (drop k (buf d))) /\
    magnitude 0 d < powers10 n /\ (n = 0%nat \/ powers10 (n - 1) <= magnitude 0 d).
Proof.
  intros H. pose proof (wf_len d H) as Hl. unfold len in Hl. unfold remove_leading_zeroes.
  destruct (skip_zero_words_spec (buf d) (intg d) ((intg d - 1) mod DIG_PER_DEC1 + 1)) as (k & n' & -> & Hk & Ht & Hm & Hh);
    [fold (IW d); lia|by right|]. cbn [mbind option_bind]. fold (IW d) in Hk.
  assert (Em : forall m, (k + m = IW d)%nat -> magnitude 0 d = words (take m (drop k (buf d)))).
  { intros m Hkm. rewrite magnitude_0, (words_split k (take (IW d) (buf d))) by (rewrite length_take; lia).
    rewrite take_take, Nat.min_l, Ht, words_zeros by lia. by rewrite skipn_firstn_comm, <- Hkm, Nat.add_comm, Nat.add_sub by lia. }
  pose proof (ROUND_UP_spec n') as Hr. set (m := ROUND_UP n') in *. clearbody m.
  destruct (Nat.ltb_spec 0 n') as [Hp|Hp].
  2: { exists k, 0%nat. assert (m = 0)%nat by lia. change (ROUND_UP 0) with 0%nat. split; [done|]. split; [lia|]. split; [done|].
       specialize (Em 0%nat ltac:(lia)). rewrite Em, take_0, words_nil. split; [done|]. split; [done|by left]. }
  destruct Hh as [|Hh]; [lia|].
  pose proof (Forall_drop _ k _ (take_words (IW d) d H ltac:(lia))) as Hw.
  rewrite skipn_firstn_comm in Hw. replace (IW d - k)%nat with m in Hw by lia.
  assert (Hup : words (take m (drop k (buf d))) < powers10 n').
  { rewrite <- Em by lia. rewrite magnitude_0. destruct Hm as [->|[_ Hm]]; [apply (wf_intg d H)|].
    rewrite <- magnitude_0, (Em m) by lia. pose proof (words_bound _ Hw) as Hb. rewrite length_take, length_drop, Nat.min_l, powers10_B in Hb by lia.
    replace (9 * m)%nat with n' in Hb by (pose proof (div9 n'); lia). lia. }
  assert (Hdl : (m <= length (drop k (buf d)))%nat) by (rewrite length_drop; lia).
  destruct (drop k (buf d)) as [|w b] eqn:Eb; [cbn in Hdl; lia|]. destruct m as [|m']; [lia|]. cbn [take head length] in *.
  apply list.Forall_cons in Hw as [Hw Hws]. pose proof (words_bound _ Hws) as Hb.
  rewrite words_cons in *. rewrite length_take, Nat.min_l in * by lia.
  set (i := ((n' - 1) mod DIG_PER_DEC1)%nat). assert (Hi : n' = (i + 1 + 9 * m')%nat) by (unfold i; change DIG_PER_DEC1 with 9%nat; pose proof (div9 (n' - 1)); lia).
  assert (Hi8 : (i < 9)%nat) by (unfold i; change DIG_PER_DEC1 with 9%nat; pose proof (div9 (n' - 1)); lia).
  rewrite Hi, powers10_add, <- powers10_B in Hup. pose proof (B_pos m').
  cbn [mbind option_bind]. destruct (lead_digits_spec i w n') as (j & Hj & -> & Hpl).
  { unfold word in Hw. assert (w <> 0) by congruence. replace (S i) with (i + 1)%nat by lia. nia. }
  cbn [mbind option_bind]. exists k, (n' - j)%nat. rewrite Eb. pose proof (ROUND_UP_spec (n' - j)) as Hr'.
  assert (Er : ROUND_UP (n' - j) = S m') by lia. rewrite Er. specialize (Em (S m') ltac:(lia)). cbn [take] in Em. rewrite words_cons, length_take, Nat.min_l in Em by lia.
  split; [done|]. split; [lia|]. split; [done|]. rewrite Em. cbn [take]. rewrite words_cons, length_take, Nat.min_l by lia. split; [done|].
  replace (n' - j)%nat with (S (i - j) + 9 * m')%nat by lia. split; [|right; replace (S (i - j) + 9 * m' - 1)%nat with (i - j + 9 * m')%nat by lia];
    rewrite powers10_add, <- powers10_B; nia.
Qed.

(** ** The format *)

Definition four (l : list Z) : list Z := concat (map (be_bytes 4) l).

(** The words before the point: of the first one as many bytes as the digits
    beyond full words take. *)
Definition enc_intg (intg : nat) (l : list Z) : list Z :=
  if (intg mod 9 =? 0)%nat then four l
  else be_bytes (dig2bytes (intg mod 9)) (hd 0 l) ++ four (tail l).

(** The words after it: of the last one the first digits. *)
Definition enc_frac (scale : nat) (l : list Z) : list Z :=
  four (take (scale / 9) l) ++
  (if (scale mod 9 =? 0)%nat then []
   else be_bytes (dig2bytes (scale mod 9)) (nth (scale / 9) l 0 / powers10 (9 - scale mod 9))).

Definition size_of (n : nat) : nat := bin_bytes (n / 9) (n mod 9).

Lemma four_app l1 l2 : four (l1 ++ l2) = four l1 ++ four l2.
Proof. unfold four. by rewrite map_app, concat_app. Qed.

Lemma four_length l : length (four l) = (4 * length l)%nat.
Proof. induction l as [|w l IH]; [done|]. change (four (w :: l)) with (be_bytes 4 w ++ four l). rewrite length_app, be_bytes_length, IH. cbn. lia. Qed.

Lemma four_zeros n : four (replicate n 0) = replicate (4 * n) 0.
Proof.
  induction n as [|n IH]; [done|]. change (four (replicate (S n) 0)) with (be_bytes 4 0 ++ four (replicate n 0)).
  rewrite IH, be_bytes_0. by replace (4 * S n)%nat with (4 + 4 * n)%nat by lia.
Qed.

Lemma four_digits l : digits 256 (four l).
Proof. induction l as [|w l IH]; [constructor|]. apply Forall_app. split; [apply be_bytes_digits|done]. Qed.

(** Words as digits of 32 bits. *)
Lemma four_radix l : Forall word l -> radix 256 (four l) = radix (2 ^ 32) l.
Proof.
  induction 1 as [|w l Hw Hl IH]; [done|]. change (four (w :: l)) with (be_bytes 4 w ++ four l).
  rewrite radix_app, radix_cons, be_bytes_radix, IH, four_length, Z.mod_small by (unfold word, DIG_BASE in Hw; change (256 ^ Z.of_nat 4) with 4294967296; lia).
  rewrite Nat2Z.inj_mul, Z.pow_mul_r by lia. done.
Qed.

Lemma word_digits l : Forall word l -> digits (2 ^ 32) l.
Proof. intros H. unfold digits. eapply list.Forall_impl; [exact H|]. unfold word, DIG_BASE. lia. Qed.

Lemma dig_range k : (0 < k < 9)%nat -> (1 <= dig2bytes k <= 4)%nat /\ powers10 k <= 128 * 256 ^ Z.of_nat (dig2bytes k - 1).
Proof.
  intros H. assert (k = 1 \/ k = 2 \/ k = 3 \/ k = 4 \/ k = 5 \/ k = 6 \/ k = 7 \/ k = 8)%nat as Hk by lia.
  repeat destruct Hk as [->|Hk]; [..|subst k]; (split; [cbn; lia|vm_compute; discriminate]).
Qed.

Lemma dig_fits k x : (0 < k < 9)%nat -> 0 <= x < powers10 k -> 0 <= x < 256 ^ Z.of_nat (dig2bytes k).
Proof.
  intros Hk Hx. destruct (dig_range k Hk) as [Hd Hp].
  replace (Z.of_nat (dig2bytes k)) with (Z.succ (Z.of_nat (dig2bytes k - 1))) by lia. rewrite Z.pow_succ_r by lia. lia.
Qed.

Lemma dig2bytes_le i j : (i <= j <= 9)%nat -> (dig2bytes i <= dig2bytes j <= 4)%nat.
Proof.
  intros H. assert (E : forallb (fun i => forallb (fun j => ((j <? i) || ((dig2bytes i <=? dig2bytes j) && (dig2bytes j <=? 4)))%nat)
    (List.seq 0 10)) (List.seq 0 10) = true) by (vm_compute; reflexivity).
  rewrite forallb_forall in E. specialize (E i ltac:(apply in_seq; lia)). rewrite forallb_forall in E.
  specialize (E j ltac:(apply in_seq; lia)). apply orb_prop in E as [E|E]; [apply Nat.ltb_lt in E; lia|].
  apply andb_prop in E as [E1 E2]. apply Nat.leb_le in E1, E2. lia.
Qed.

Lemma size_of_le i j : (i <= j)%nat -> (size_of i <= size_of j)%nat.
Proof.
  intros H. unfold size_of, bin_bytes. pose proof (div9 i). pose proof (div9 j).
  destruct (Nat.eq_dec (i / 9)%nat (j / 9)%nat) as [E|E].
  - pose proof (dig2bytes_le (i mod 9)%nat (j mod 9)%nat ltac:(lia)). lia.
  - pose proof (dig2bytes_le (i mod 9)%nat 9 ltac:(lia)). lia.
Qed.

Lemma round_up_div n : ROUND_UP n = (n / 9 + if n mod 9 =? 0 then 0 else 1)%nat.
Proof. pose proof (ROUND_UP_spec n). pose proof (div9 n). destruct (Nat.eqb_spec (n mod 9)%nat 0%nat); lia. Qed.

Lemma round_up_full n : (n mod 9 = 0)%nat -> ROUND_UP n = (n / 9)%nat.
Proof. intros E. rewrite round_up_div, E. cbn [Nat.eqb]. lia. Qed.

Lemma round_up_part n : (n mod 9 <> 0)%nat -> ROUND_UP n = S (n / 9)%nat.
Proof. intros E. rewrite round_up_div, (proj2 (Nat.eqb_neq _ _) E). lia. Qed.

Lemma enc_intg_length n l : length l = ROUND_UP n -> length (enc_intg n l) = size_of n.
Proof.
  intros Hl. rewrite round_up_div in Hl. unfold enc_intg, size_of, bin_bytes. destruct (Nat.eqb_spec (n mod 9)%nat 0%nat) as [E|E].
  - rewrite four_length, E. change (dig2bytes 0) with 0%nat. lia.
  - destruct l as [|w l]; [cbn in Hl; lia|]. cbn [hd tail length] in *. rewrite length_app, be_bytes_length, four_length. lia.
Qed.

Lemma enc_intg_digits n l : digits 256 (enc_intg n l).
Proof. unfold enc_intg. destruct (_ =? 0)%nat; [apply four_digits|]. apply Forall_app. split; [apply be_bytes_digits|apply four_digits]. Qed.

(** The first word has no more digits than there are. *)
Lemma first_word n w l :
  (n mod 9 <> 0)%nat -> length (w :: l) = ROUND_UP n -> Forall word (w :: l) -> words (w :: l) < powers10 n -> w < powers10 (n mod 9).
Proof.
  intros Hn Hl Hw Hp. apply list.Forall_cons in Hw as [Hw Hws]. pose proof (words_bound _ Hws) as Hb. pose proof (div9 n) as Hd.
  rewrite round_up_div in Hl. destruct (Nat.eqb_spec (n mod 9)%nat 0%nat); [lia|]. cbn [length] in Hl.
  rewrite words_cons in Hp. replace n with (n mod 9 + 9 * length l)%nat in Hp by lia.
  rewrite powers10_add, <- powers10_B in Hp. pose proof (B_pos (length l)). nia.
Qed.

Lemma enc_intg_radix n l :
  length l = ROUND_UP n -> Forall word l -> words l < powers10 n -> radix 256 (enc_intg n l) = radix (2 ^ 32) l.
Proof.
  intros Hl Hw Hp. unfold enc_intg. destruct (Nat.eqb_spec (n mod 9)%nat 0%nat) as [E|E]; [by apply four_radix|].
  pose proof (div9 n) as Hd. destruct l as [|w l]; [rewrite round_up_div in Hl; destruct (Nat.eqb_spec (n mod 9)%nat 0%nat); cbn in Hl; lia|].
  pose proof (first_word n w l E Hl Hw Hp) as Hf. apply list.Forall_cons in Hw as [Hw Hws]. cbn [hd tail].
  rewrite radix_app, radix_cons, be_bytes_radix, four_radix, four_length by done.
  rewrite Z.mod_small by (apply dig_fits; [lia|unfold word in Hw; lia]).
  rewrite Nat2Z.inj_mul, Z.pow_mul_r by lia. done.
Qed.

(** A number with fewer digits has zeroes in front. *)
Lemma enc_intg_pad n n1 l :
  (n1 <= n)%nat -> length l = ROUND_UP n1 -> Forall word l -> words l < powers10 n1 ->
  replicate (size_of n - size_of n1) 0 ++ enc_intg n1 l = enc_intg n (replicate (ROUND_UP n - ROUND_UP n1) 0 ++ l).
Proof.
  intros Hn Hl Hw Hp. pose proof (ROUND_UP_le _ _ Hn) as Hr. set (l' := replicate _ 0 ++ l).
  assert (Hl' : length l' = ROUND_UP n) by (unfold l'; rewrite length_app, length_replicate; lia).
  assert (Hw' : Forall word l') by (apply Forall_app; split; [apply Forall_replicate, word_0|done]).
  assert (Hp' : words l' < powers10 n).
  { unfold l'. rewrite words_app, words_zeros. pose proof (powers10_le _ _ Hn). lia. }
  apply (radix_inj 256).
  - apply Forall_app. split; [apply Forall_replicate; lia|apply enc_intg_digits].
  - apply enc_intg_digits.
  - rewrite length_app, length_replicate, !enc_intg_length by done. pose proof (size_of_le _ _ Hn). lia.
  - rewrite radix_app, radix_zeros, !enc_intg_radix by done. unfold l'. by rewrite radix_app, radix_zeros.
Qed.

Lemma enc_frac_length s l : length l = ROUND_UP s -> length (enc_frac s l) = size_of s.
Proof.
  intros Hl. rewrite round_up_div in Hl. unfold enc_frac, size_of, bin_bytes.
  rewrite length_app, four_length, length_take. destruct (Nat.eqb_spec (s mod 9)%nat 0%nat) as [E|E].
  - rewrite E. change (dig2bytes 0) with 0%nat. cbn [length]. lia.
  - rewrite be_bytes_length. lia.
Qed.

Lemma enc_frac_digits s l : digits 256 (enc_frac s l).
Proof. apply Forall_app. split; [apply four_digits|]. destruct (_ =? 0)%nat; [constructor|apply be_bytes_digits]. Qed.

Lemma nth_zeros n k : nth k (replicate n 0) 0 = 0.
Proof. revert k. induction n as [|n IH]; intros [|k]; cbn; [done..|apply IH]. Qed.

(** Words that are not there are zero. *)
Lemma enc_frac_pad s l :
  (length l <= s / 9)%nat ->
  enc_frac s (l ++ replicate (ROUND_UP s - length l) 0) = four l ++ replicate (size_of s - 4 * length l) 0.
Proof.
  intros Hl. pose proof (round_up_div s) as Hr. unfold enc_frac, size_of, bin_bytes.
  rewrite take_app_ge, take_replicate, four_app, four_zeros, <- app_assoc by done. f_equal.
  destruct (Nat.eqb_spec (s mod 9)%nat 0%nat) as [E|E].
  - rewrite app_nil_r, E. change (dig2bytes 0) with 0%nat. f_equal. lia.
  - rewrite app_nth2, nth_zeros, Z.div_0_l, be_bytes_0, <- replicate_add by (done || pose proof (powers10_pos (9 - s mod 9)); lia).
    f_equal. lia.
Qed.

(** ** What is stored *)

Lemma int4store_spec x : mi_int4store x = be_bytes 4 x.
Proof. apply (inj Some), (store_digits_spec 4). lia. Qed.

Section Store.
Context (mask : Z) (Hm : is_mask mask).
Let inv := map (inverted mask).

Lemma store_words_spec n b : (n <= length b)%nat -> store_words mask n b = Some (inv (four (take n b)), drop n b).
Proof.
  revert b. induction n as [|n IH]; intros b Hn; [by destruct b|]. destruct b as [|w b]; [cbn in Hn; lia|].
  cbn [store_words length take drop] in *. rewrite IH by lia. cbn [mbind option_bind].
  rewrite int4store_spec, be_bytes_mask by done. unfold inv, four. cbn [map concat]. by rewrite map_app.
Qed.

Lemma store_head n f b :
  (ROUND_UP n + f <= length b)%nat -> Forall word (take (ROUND_UP n) b) -> words (take (ROUND_UP n) b) < powers10 n ->
  exists first b1 full, store_first mask (n mod 9) b = Some (first, b1) /\
    store_words mask (n / 9 + f) b1 = Some (full, drop (ROUND_UP n + f) b) /\
    first ++ full = inv (enc_intg n (take (ROUND_UP n) b) ++ four (take f (drop (ROUND_UP n) b))).
Proof.
  intros Hl Hw Hp. pose proof (round_up_div n) as Hr. pose proof (div9 n) as Hd. unfold store_first, enc_intg in *.
  destruct (Nat.eqb_spec (n mod 9)%nat 0%nat) as [E|E].
  - rewrite Nat.add_0_r in Hr. rewrite Hr in *. eexists [], b, _. split; [done|]. rewrite store_words_spec by lia. split; [done|].
    cbn [app]. by rewrite <- four_app, take_take_drop.
  - destruct b as [|w b]; [cbn [length] in Hl; lia|]. rewrite Nat.add_1_r in Hr. rewrite Hr in *. cbn [take drop length hd tail Nat.add] in *.
    pose proof (first_word n w (take (n / 9) b) E) as Hf. cbn [length] in Hf. rewrite length_take in Hf.
    specialize (Hf ltac:(lia) Hw Hp). apply list.Forall_cons in Hw as [Hw _].
    rewrite store_digits_spec, Z.mod_small by (unfold word in Hw; lia || destruct (dig_range (n mod 9) ltac:(lia)); done).
    cbn [mbind option_bind]. eexists _, b, _. split; [done|]. rewrite store_words_spec by lia. split; [done|].
    rewrite be_bytes_mask by done. unfold inv. by rewrite <- map_app, <- app_assoc, <- four_app, take_take_drop.
Qed.

Lemma more_digits_spec fuel i lim x :
  (x <= lim <= x + fuel)%nat -> (forall y, (x <= y < lim)%nat -> dig2bytes y = i) -> more_digits fuel i lim x = lim.
Proof.
  revert x. induction fuel as [|fuel IH]; intros x Hx Hy; cbn [more_digits]; [lia|].
  destruct (Nat.ltb_spec x lim) as [H|H]; [|cbn [andb]; lia].
  rewrite (Hy x), Nat.eqb_refl by lia. cbn [andb]. apply IH; [lia|]. intros y Hy'. apply Hy. lia.
Qed.

(** The digits after the point when they are full words. *)
Lemma frac_full s b g fs f :
  (g <= s / 9)%nat -> (g <= length b)%nat -> (size_of s - 4 * g <= fs - size_of f)%nat ->
  inv (four (take g b)) ++ [] ++ replicate (Nat.min (fs - size_of f) (size_of s - (4 * g + 0))) (uchar mask) =
  inv (enc_frac s (take g b ++ replicate (ROUND_UP s - g) 0)).
Proof.
  intros Hg Hb Hf. pose proof (enc_frac_pad s (take g b)) as Hp. rewrite length_take, Nat.min_l in Hp by done.
  rewrite Hp, mask_byte by done. unfold inv. rewrite map_app. cbn [app]. do 3 f_equal. lia.
Qed.

(** When the last word is not full. *)
Lemma frac_part_word s b :
  (s mod 9 <> 0)%nat -> (s / 9 < length b)%nat ->
  exists w, head (drop (s / 9) b) = Some w /\
    four (take (s / 9) b) ++ be_bytes (dig2bytes (s mod 9)) (w / powers10 (9 - s mod 9)) = enc_frac s (take (S (s / 9)) b).
Proof.
  intros Hs Hl. destruct (lookup_lt_is_Some_2 b (s / 9) Hl) as [w Hw].
  exists w. rewrite (drop_S _ _ _ Hw). split; [done|]. unfold enc_frac. rewrite take_take, Nat.min_l by lia. f_equal.
  destruct (Nat.eqb_spec (s mod 9)%nat 0%nat); [done|]. do 2 f_equal. symmetry. apply nth_lookup_Some. by rewrite lookup_take_lt by lia.
Qed.

(** The last word has digits of the number and of the format: all digits of
    the format are stored. *)
Lemma store_last_same s f1x b :
  (f1x <> 0)%nat -> (f1x <= s mod 9)%nat -> dig2bytes f1x = dig2bytes (s mod 9) -> (s / 9 < length b)%nat ->
  exists last, store_last mask (s / 9) (s mod 9) (s / 9) f1x (drop (s / 9) b) = Some last /\
    inv (four (take (s / 9) b)) ++ last = inv (enc_frac s (take (S (s / 9)) b)).
Proof.
  intros Hx0 Hxl Hxd Hb. pose proof (div9 s) as Hs9. pose proof (dig_range (s mod 9) ltac:(lia)) as [Hds _].
  destruct (frac_part_word s b ltac:(lia) Hb) as (w & Hw & Ew).
  unfold store_last. destruct (Nat.eqb_spec f1x 0); [done|]. rewrite Nat.ltb_irrefl, Hw. cbn [mbind option_bind].
  rewrite more_digits_spec; [|change DIG_PER_DEC1 with 9%nat; lia|].
  2: { intros y Hy. pose proof (dig2bytes_le f1x y ltac:(lia)). pose proof (dig2bytes_le y (s mod 9) ltac:(lia)). lia. }
  rewrite Hxd, store_digits_spec by done. eexists. split; [done|].
  rewrite be_bytes_mask by done. unfold inv. by rewrite <- map_app, <- Ew.
Qed.

(** The last word of the number takes four bytes and is followed by others in the format: it is stored in full. *)
Lemma store_last_full s f b :
  (f / 9 < s / 9)%nat -> dig2bytes (f mod 9) = 4%nat -> (f / 9 < length b)%nat ->
  exists last, store_last mask (s / 9) (s mod 9) (f / 9) (f mod 9) (drop (f / 9) b) = Some last /\
    inv (four (take (f / 9) b)) ++ last = inv (four (take (S (f / 9)) b)).
Proof.
  intros Hc Hd4 Hb. pose proof (div9 f) as Hf9. unfold store_last.
  destruct (Nat.eqb_spec (f mod 9)%nat 0%nat) as [E|E]; [by rewrite E in Hd4|]. rewrite (proj2 (Nat.ltb_lt _ _)) by done.
  rewrite more_digits_spec; [|change DIG_PER_DEC1 with 9%nat; lia|].
  2: { intros y Hy. change DIG_PER_DEC1 with 9%nat in Hy. pose proof (dig2bytes_le (f mod 9) y ltac:(lia)). pose proof (dig2bytes_le y 9 ltac:(lia)). lia. }
  destruct (lookup_lt_is_Some_2 b (f / 9) ltac:(lia)) as [w Hw]. rewrite (drop_S _ _ _ Hw). cbn [head mbind option_bind].
  rewrite Hd4, store_digits_spec by lia. eexists. split; [done|]. change (powers10 (DIG_PER_DEC1 - DIG_PER_DEC1)) with 1.
  rewrite Z.div_1_r, be_bytes_mask, (take_S_r _ _ _ Hw), four_app by done. unfold inv. by rewrite map_app.
Qed.

Lemma frac_part s f b f1 f1x fs e :
  (f <= s)%nat -> (ROUND_UP f <= length b)%nat ->
  bin_frac E_DEC_OK (size_of s) (size_of f) (s / 9) (s mod 9) (f / 9) (f mod 9) = (f1, f1x, fs, e) ->
  e = E_DEC_OK /\ (f1 <= ROUND_UP f)%nat /\ exists last, store_last mask (s / 9) (s mod 9) f1 f1x (drop f1 b) = Some last /\
    inv (four (take f1 b)) ++ last ++ replicate (Nat.min (fs - size_of f) (size_of s - (4 * f1 + length last))) (uchar mask) =
    inv (enc_frac s (take (ROUND_UP f) b ++ replicate (ROUND_UP s - ROUND_UP f) 0)).
Proof.
  intros Hf Hb. pose proof (size_of_le _ _ Hf) as Hz. pose proof (div9 s) as Hs9. pose proof (div9 f) as Hf9. unfold bin_frac.
  destruct (Nat.ltb_spec (size_of s) (size_of f)); [lia|].
  destruct (Nat.eqb_spec (f mod 9)%nat 0%nat) as [E|E]; cbn [negb].
  { rewrite andb_false_r. intros [= <- <- <- <-]. rewrite (round_up_full f E) in *. split; [done|]. split; [done|].
    exists []. split; [unfold store_last; by rewrite E|]. apply frac_full; [lia|lia|]. unfold size_of, bin_bytes. rewrite E. change (dig2bytes 0) with 0%nat. lia. }
  rewrite (round_up_part f E) in *. pose proof (dig_range (f mod 9) ltac:(lia)) as [Hd _].
  destruct (Nat.eq_dec (s / 9)%nat (f / 9)%nat) as [Ed|Ed].
  - intros Hbf. assert (Hc : f1 = (s / 9)%nat /\ e = E_DEC_OK /\ fs = size_of f /\ f1x <> 0%nat /\
      dig2bytes f1x = dig2bytes (s mod 9) /\ (f1x <= s mod 9)%nat).
    { rewrite Ed, Nat.eqb_refl in Hbf. pose proof (dig2bytes_le (f mod 9) (s mod 9) ltac:(lia)). rewrite Ed.
      destruct (Nat.ltb_spec (size_of f) (size_of s)); cbn [andb] in Hbf; injection Hbf as <- <- <- <-; repeat split; try done; try lia.
      unfold size_of, bin_bytes in *. lia. }
    destruct Hc as (-> & -> & -> & Hx0 & Hxd & Hxl). split; [done|]. split; [lia|].
    destruct (store_last_same s f1x b Hx0 Hxl Hxd ltac:(lia)) as (last & -> & El). exists last. split; [done|].
    rewrite Nat.sub_diag, (round_up_part s), Ed, Nat.sub_diag in * by lia. cbn [Nat.min replicate]. by rewrite !app_nil_r, <- El.
  - destruct (Nat.ltb_spec (size_of f) (size_of s)) as [Hs|Hs]; cbn [andb].
    + destruct (Nat.eqb_spec (s / 9)%nat (f / 9)%nat); [done|]. intros [= <- <- <- <-]. split; [done|]. split; [lia|].
      exists []. split; [done|]. apply frac_full; [lia|lia|]. unfold size_of, bin_bytes in *. lia.
    + intros [= <- <- <- <-]. split; [done|]. split; [lia|].
      assert (Hc : (s / 9 = S (f / 9) /\ s mod 9 = 0 /\ dig2bytes (f mod 9) = 4 /\ size_of s = size_of f)%nat).
      { unfold size_of, bin_bytes in *. destruct (Nat.eq_dec (s mod 9)%nat 0%nat) as [->|Hsx]; [change (dig2bytes 0) with 0%nat in *; lia|].
        pose proof (dig_range (s mod 9) ltac:(lia)). lia. }
      destruct Hc as (Hc & Hsx & Hd4 & Hsz). destruct (store_last_full s f b ltac:(lia) Hd4 ltac:(lia)) as (last & -> & El).
      exists last. split; [done|]. rewrite Hsz, Nat.sub_diag, (round_up_full s Hsx), Hc, Nat.sub_diag. cbn [Nat.min replicate].
      rewrite !app_nil_r, El. unfold enc_frac. rewrite Hsx, Hc. cbn [Nat.eqb]. by rewrite app_nil_r, take_take, Nat.min_id.
Qed.
End Store.

(** ** decimal2bin *)

(** The words [W] before and [F] after the point are those of [d] in the format
    of [p] digits, [s] of them after the point. *)
Record in_format (p s : nat) (d : decimal_t) (W F : list Z) : Prop := mk_format {
  format_intg : length W = ROUND_UP (p - s);
  format_frac : length F = ROUND_UP s;
  format_words : Forall word (W ++ F);
  format_size : words W < powers10 (p - s);
  format_value : words (W ++ F) = magnitude (ROUND_UP s) d;
  format_digits : (powers10 (9 * ROUND_UP s - s) | words (W ++ F))
}.

Definition mask_of (neg : bool) : Z := if neg then - 1 else 0.

Lemma mask_of_mask neg : is_mask (mask_of neg).
Proof. destruct neg; [by right|by left]. Qed.

(** [d] has at most [p] digits, [s] of them after the point. *)
Definition fits (p s : nat) (d : decimal_t) : Prop :=
  wf d /\ (frac d <= s <= p)%nat /\ (0 < p)%nat /\ magnitude 0 d < powers10 (p - s).

Lemma format_of p s d k n b :
  fits p s d -> (k + ROUND_UP n = IW d)%nat -> (n <= p - s)%nat -> take k (buf d) = replicate k 0 ->
  take (ROUND_UP n + FW d) b = take (ROUND_UP n + FW d) (drop k (buf d)) ->
  in_format p s d (replicate (ROUND_UP (p - s) - ROUND_UP n) 0 ++ take (ROUND_UP n) b)
    (take (FW d) (drop (ROUND_UP n) b) ++ replicate (ROUND_UP s - FW d) 0).
Proof.
  intros (H & Hs & Hp & Hm) Hk Hn Hz Hb. pose proof (wf_len d H) as Hl. unfold len in Hl.
  pose proof (ROUND_UP_le _ _ Hn) as Hr. pose proof (ROUND_UP_le (frac d) s ltac:(lia)) as Hrf. fold (FW d) in Hrf.
  set (m := ROUND_UP n) in *. set (T := take (m + FW d) (drop k (buf d))) in *.
  assert (LT : length T = (m + FW d)%nat) by (unfold T; rewrite length_take, length_drop; lia).
  assert (E1 : take m b = take m T) by (rewrite <- Hb, take_take; f_equal; lia).
  assert (E2 : take (FW d) (drop m b) = drop m T) by (rewrite <- Hb, skipn_firstn_comm; f_equal; lia).
  assert (WT : Forall word T).
  { pose proof (Forall_drop _ k _ (wf_words d H)) as Hw. rewrite skipn_firstn_comm in Hw.
    replace (IW d + FW d - k)%nat with (m + FW d)%nat in Hw by lia. done. }
  assert (VT : words (take (IW d + FW d) (buf d)) = words T).
  { rewrite (words_split k) by (rewrite length_take; lia). rewrite take_take, Nat.min_l, Hz, words_zeros by lia.
    unfold T. rewrite skipn_firstn_comm. replace (IW d + FW d - k)%nat with (m + FW d)%nat by lia. lia. }
  assert (VM : words (take m T) = magnitude 0 d).
  { rewrite magnitude_0, (words_split k (take (IW d) (buf d))) by (rewrite length_take; lia). rewrite take_take, Nat.min_l, Hz, words_zeros by lia.
    unfold T. rewrite take_take, Nat.min_l, skipn_firstn_comm by lia. by replace (IW d - k)%nat with m by lia. }
  rewrite E1, E2. set (W := replicate _ 0 ++ take m T). set (F := drop m T ++ replicate _ 0).
  assert (EV : words (W ++ F) = magnitude (ROUND_UP s) d).
  { unfold W, F. rewrite <- app_assoc, (app_assoc (take m T)), take_drop, !words_app, !words_zeros, length_replicate.
    unfold magnitude. rewrite Nat.min_r, VT by done. ring. }
  split; [| | | | |].
  - unfold W. rewrite length_app, length_replicate, length_take. lia.
  - unfold F. rewrite length_app, length_replicate, length_drop. lia.
  - unfold W, F. repeat (apply Forall_app; split); try (apply Forall_replicate, word_0); [by apply Forall_take|by apply Forall_drop].
  - unfold W. rewrite words_app, words_zeros, VM. lia.
  - done.
  - rewrite EV. eapply Z.divide_trans; [|apply magnitude_divide; done]. apply powers10_divide. lia.
Qed.

(** Where the words are read: a zero without digits is stored as such, without
    its sign. *)
Lemma bin_start d k n i :
  wf d -> (k + ROUND_UP n = IW d)%nat -> (n <= i)%nat -> magnitude 0 d < powers10 n ->
  exists neg i' b, (if (n + size_of (frac d) =? 0)%nat then (0, 1%nat, [0])
      else (if sign d then - 1 else 0, i, drop k (buf d))) = (mask_of neg, i', b) /\
    (n <= i')%nat /\ (ROUND_UP n + FW d <= length b)%nat /\
    take (ROUND_UP n + FW d) b = take (ROUND_UP n + FW d) (drop k (buf d)) /\ (neg = sign d \/ neg = false /\ magnitude (FW d) d = 0).
Proof.
  intros H Hk Hn Mn. pose proof (wf_len d H) as Hl. unfold len in Hl. destruct (Nat.eqb_spec (n + size_of (frac d)) 0) as [E0|E0].
  - assert (n = 0%nat) as -> by lia. assert (Hf : frac d = 0%nat).
    { destruct (Nat.eq_dec (frac d) 0%nat); [done|]. pose proof (size_of_le 1 (frac d) ltac:(lia)).
      assert (size_of 1 = 1%nat) by (vm_compute; reflexivity). lia. }
    assert (Ef : FW d = 0%nat) by (unfold FW; by rewrite Hf). rewrite Ef. exists false, 1%nat, [0]. cbn [length].
    split; [done|]. split; [lia|]. split; [change (ROUND_UP 0) with 0%nat; lia|]. split; [done|]. right. split; [done|].
    change (powers10 0) with 1 in Mn. pose proof (magnitude_nonneg 0 d H). lia.
  - exists (sign d), i, (drop k (buf d)). rewrite length_drop. split; [done|]. split; [done|]. split; [lia|]. split; [done|by left].
Qed.

Lemma decimal2bin_spec d p s :
  fits p s d ->
  exists W F neg, in_format p s d W F /\ (neg = sign d \/ neg = false /\ magnitude (FW d) d = 0) /\
    decimal2bin d p s =
      bytes ← flip_first (map (inverted (mask_of neg)) (enc_intg (p - s) W ++ enc_frac s F)); Some (E_DEC_OK, bytes).
Proof.
  intros Hfit. pose proof Hfit as (H & Hs & Hp & Hm).
  destruct (remove_leading_zeroes_spec d H) as (k & n & Er & Hk & Hz & Mw & Mn & Ml).
  assert (Hn : (n <= p - s)%nat).
  { destruct Ml as [->|Ml]; [lia|]. apply Nat.nlt_ge. intros Hc. pose proof (powers10_le (p - s) (n - 1) ltac:(lia)). lia. }
  unfold decimal2bin. rewrite Er. cbn [mbind option_bind]. change DIG_PER_DEC1 with 9%nat.
  fold (size_of (p - s)) (size_of s) (size_of n) (size_of (frac d)).
  destruct (bin_start d k n (p - s) H Hk Hn Mn) as (neg & i & b & -> & Hi & Hb & Et & Hneg). destruct (Nat.ltb_spec i n); [lia|].
  pose proof (format_of p s d k n b Hfit Hk Hn Hz Et) as Hform.
  eexists _, _, neg. split; [exact Hform|]. split; [done|].
  destruct (bin_frac _ _ _ _ _ _ _) as [[[f1 f1x] fs] e] eqn:Ebf. pose proof (mask_of_mask neg) as Hmask.
  destruct (frac_part (mask_of neg) Hmask s (frac d) (drop (ROUND_UP n) b) f1 f1x fs e) as (-> & Hf1 & last & El & Ef);
    [lia|rewrite length_drop; fold (FW d); lia|done|]. fold (FW d) in Hf1, Ef.
  assert (Ew : words (take (ROUND_UP n) b) = magnitude 0 d /\ Forall word (take (ROUND_UP n) b)).
  { pose proof (Forall_drop _ k _ (take_words (IW d) d H ltac:(lia))) as Hw. rewrite skipn_firstn_comm in Hw.
    replace (IW d - k)%nat with (ROUND_UP n) in Hw by lia.
    apply (f_equal (take (ROUND_UP n))) in Et. rewrite !take_take, !Nat.min_l in Et by lia. rewrite Et. done. }
  destruct Ew as [Ew Ww].
  destruct (store_head (mask_of neg) Hmask n f1 b) as (first & b1 & full & -> & E2 & E3); [lia|done|lia|].
  cbn [mbind option_bind]. rewrite E2. cbn [mbind option_bind]. rewrite drop_drop in El. rewrite El. cbn [mbind option_bind].
  f_equal. f_equal. rewrite (app_assoc first full last), E3, <- enc_intg_pad by (done || rewrite ?length_take; lia).
  rewrite !map_app, <- Ef, <- !mask_byte, <- !app_assoc by done. do 5 f_equal.
  rewrite !length_app, !map_length, length_replicate, enc_intg_length, four_length, length_take, length_drop by (rewrite length_take; lia).
  pose proof (size_of_le n (p - s) Hn). lia.
Qed.

(** ** The order of the bytes *)

Lemma be_head n x :
  (1 <= n)%nat -> 0 <= x < 128 * 256 ^ Z.of_nat (n - 1) -> exists h t, be_bytes n x = h :: t /\ 0 <= h < 128.
Proof.
  intros Hn Hx. destruct n as [|n]; [lia|]. cbn [be_bytes]. eexists _, _. split; [done|].
  replace (S n - 1)%nat with n in Hx by lia. set (P := 256 ^ Z.of_nat n) in *. assert (0 < P) by (apply Z.pow_pos_nonneg; lia).
  assert (x / P < 128) by (apply Z.div_lt_upper_bound; lia). assert (0 <= x / P) by (apply Z.div_pos; lia).
  rewrite Z.mod_small; lia.
Qed.

Lemma word_fits w : word w -> 0 <= w < 128 * 256 ^ Z.of_nat (4 - 1).
Proof. unfold word, DIG_BASE. change (256 ^ Z.of_nat (4 - 1)) with 16777216. lia. Qed.

Lemma DIG_BASE_split k : (k <= 9)%nat -> DIG_BASE = powers10 k * powers10 (9 - k).
Proof. intros H. rewrite <- powers10_add. by replace (k + (9 - k))%nat with 9%nat by lia. Qed.

(** The first [k] digits of a word. *)
Lemma last_digits k w : (0 < k < 9)%nat -> word w -> 0 <= w / powers10 (9 - k) < powers10 k.
Proof.
  intros Hk [Hw0 Hw]. pose proof (powers10_pos (9 - k)). split; [apply Z.div_pos; lia|].
  apply Z.div_lt_upper_bound; [done|]. rewrite (DIG_BASE_split k) in Hw by lia. lia.
Qed.

Section Body.
Context (p s : nat) (d : decimal_t) (W F : list Z) (Hf : in_format p s d W F).
Let body := enc_intg (p - s) W ++ enc_frac s F.

Lemma body_length : length body = decimal_bin_size p s.
Proof.
  unfold body. rewrite length_app, enc_intg_length, enc_frac_length by apply Hf. unfold size_of, bin_bytes, decimal_bin_size.
  change DIG_PER_DEC1 with 9%nat. lia.
Qed.

Lemma body_digits : digits 256 body.
Proof. apply Forall_app. split; [apply enc_intg_digits|apply enc_frac_digits]. Qed.

Lemma W_words : Forall word W.
Proof. apply (Forall_app _ W F), Hf. Qed.

Lemma F_words : Forall word F.
Proof. apply (Forall_app _ W F), Hf. Qed.

Lemma nth_word k : word (nth k F 0).
Proof.
  destruct (F !! k) as [w|] eqn:E.
  - rewrite (nth_lookup_Some _ _ _ _ E). pose proof F_words as H. rewrite Forall_lookup in H. by apply (H k).
  - rewrite nth_overflow; [apply word_0|]. by apply lookup_ge_None.
Qed.

(** The first bit of the first byte is free. *)
Lemma body_head : (s <= p)%nat -> (0 < p)%nat -> exists h t, body = h :: t /\ 0 <= h < 128.
Proof.
  intros Hs Hp.
  assert (Hb : forall l l' : list Z, (exists h t, l = h :: t /\ 0 <= h < 128) -> exists h t, l ++ l' = h :: t /\ 0 <= h < 128).
  { intros l l' (h & t & -> & Hh). by exists h, (t ++ l'). }
  pose proof W_words as Ww. pose proof F_words as Wf. pose proof (format_intg _ _ _ _ _ Hf) as LW. pose proof (format_frac _ _ _ _ _ Hf) as LF.
  pose proof (div9 (p - s)) as Hd. pose proof (div9 s) as Hd'. rewrite round_up_div in LW, LF. pose proof (nth_word 0) as N0.
  unfold body. destruct W as [|w W'] eqn:EW; cbn [length] in *.
  - unfold enc_intg. destruct (Nat.eqb_spec ((p - s) mod 9)%nat 0%nat); [|lia]. cbn [four map concat app].
    unfold enc_frac. destruct (Nat.eq_dec (s / 9)%nat 0%nat) as [E0|E0].
    + rewrite E0. cbn [take four map concat app]. destruct (Nat.eqb_spec (s mod 9)%nat 0%nat); [lia|].
      destruct (dig_range (s mod 9) ltac:(lia)) as [Hdr Hdp]. apply be_head; [lia|].
      pose proof (last_digits (s mod 9) (nth 0 F 0) ltac:(lia) N0). lia.
    + destruct F as [|w F']; [cbn [length] in LF; lia|]. apply Hb. destruct (s / 9)%nat; [done|]. cbn [take].
      change (four (w :: ?l)) with (be_bytes 4 w ++ four l). apply Hb, be_head; [lia|]. apply word_fits. by apply list.Forall_cons in Wf as [? _].
  - apply Hb. unfold enc_intg. destruct (Nat.eqb_spec ((p - s) mod 9)%nat 0%nat) as [E0|E0].
    + change (four (w :: W')) with (be_bytes 4 w ++ four W'). apply Hb, be_head; [lia|]. apply word_fits. by apply list.Forall_cons in Ww as [? _].
    + cbn [hd tail]. destruct (dig_range ((p - s) mod 9) ltac:(lia)) as [Hdr Hdp]. apply Hb, be_head; [lia|].
      pose proof (first_word (p - s) w W' E0) as Hw. specialize (Hw ltac:(apply Hf) Ww ltac:(apply Hf)).
      apply list.Forall_cons in Ww as [Ww _]. unfold word in Ww. lia.
Qed.

(** The digits of the last word that are stored. *)
Definition last_group : Z := if (s mod 9 =? 0)%nat then 0 else nth (s / 9) F 0 / powers10 (9 - s mod 9).

Lemma last_group_fits : 0 <= last_group < 256 ^ Z.of_nat (dig2bytes (s mod 9)).
Proof.
  unfold last_group. pose proof (div9 s). destruct (Nat.eqb_spec (s mod 9)%nat 0%nat) as [->|E]; [done|].
  apply dig_fits; [lia|]. apply last_digits; [lia|apply nth_word].
Qed.

Lemma last_group_bound : 0 <= last_group * powers10 (9 - s mod 9) < if (s mod 9 =? 0)%nat then 1 else DIG_BASE.
Proof.
  unfold last_group. pose proof (div9 s). destruct (Nat.eqb_spec (s mod 9)%nat 0%nat) as [E|E]; [lia|].
  pose proof (last_digits (s mod 9) (nth (s / 9) F 0) ltac:(lia) (nth_word _)) as Hl. pose proof (powers10_pos (9 - s mod 9)).
  rewrite (DIG_BASE_split (s mod 9)) by lia. nia.
Qed.

Lemma body_radix :
  radix 256 body = radix (2 ^ 32) (W ++ take (s / 9) F) * 256 ^ Z.of_nat (dig2bytes (s mod 9)) + last_group.
Proof.
  pose proof W_words as Ww. pose proof F_words as Wf. pose proof last_group_fits as Hg. unfold body.
  rewrite radix_app, enc_intg_radix, radix_app, enc_frac_length by (done || apply Hf). unfold enc_frac, size_of, bin_bytes.
  assert (El : radix 256 (if (s mod 9 =? 0)%nat then [] else be_bytes (dig2bytes (s mod 9)) (nth (s / 9) F 0 / powers10 (9 - s mod 9))) = last_group /\
    length (if (s mod 9 =? 0)%nat then [] else be_bytes (dig2bytes (s mod 9)) (nth (s / 9) F 0 / powers10 (9 - s mod 9))) = dig2bytes (s mod 9)).
  { unfold last_group in *. destruct (Nat.eqb_spec (s mod 9)%nat 0%nat) as [->|E]; [done|].
    rewrite be_bytes_radix, be_bytes_length, Z.mod_small by done. done. }
  destruct El as [E1 E2]. rewrite radix_app, E1, E2, four_radix by by apply Forall_take.
  assert (E3 : (s / 9 * 4 + dig2bytes (s mod 9) = 4 * length (take (s / 9) F) + dig2bytes (s mod 9))%nat).
  { rewrite length_take. pose proof (format_frac _ _ _ _ _ Hf) as LF. rewrite round_up_div in LF. lia. }
  rewrite E3, Nat2Z.inj_add, Nat2Z.inj_mul, Z.pow_add_r, Z.pow_mul_r by lia. change (256 ^ Z.of_nat 4) with (2 ^ 32). ring.
Qed.

Lemma last_word :
  (s mod 9 <> 0)%nat -> words (W ++ F) = words (W ++ take (s / 9) F) * DIG_BASE + nth (s / 9) F 0.
Proof.
  intros E. pose proof (format_frac _ _ _ _ _ Hf) as LF. rewrite (round_up_part s E) in LF.
  assert (EF : F = take (s / 9) F ++ [nth (s / 9) F 0]).
  { destruct (lookup_lt_is_Some_2 F (s / 9) ltac:(lia)) as [w Hw]. rewrite (nth_lookup_Some _ _ _ _ Hw), <- take_S_r by done.
    by rewrite take_ge by lia. }
  rewrite EF at 1. by rewrite app_assoc, (words_app _ [_]), words_one.
Qed.

(** The digits of the last word that are not stored are zero. *)
Lemma last_divides : (s mod 9 <> 0)%nat -> (powers10 (9 - s mod 9) | nth (s / 9) F 0).
Proof.
  intros E. pose proof (div9 s) as Hd. pose proof (format_digits _ _ _ _ _ Hf) as Hdiv. rewrite last_word, (round_up_part s E) in Hdiv by done.
  replace (9 * S (s / 9) - s)%nat with (9 - s mod 9)%nat in Hdiv by lia.
  apply Z.divide_add_cancel_r in Hdiv; [done|]. apply Z.divide_mul_r. change DIG_BASE with (powers10 9). apply powers10_divide. lia.
Qed.

Lemma words_parts :
  words (W ++ F) = words (W ++ take (s / 9) F) * (if (s mod 9 =? 0)%nat then 1 else DIG_BASE) + last_group * powers10 (9 - s mod 9).
Proof.
  pose proof (format_frac _ _ _ _ _ Hf) as LF. unfold last_group. destruct (Nat.eqb_spec (s mod 9)%nat 0%nat) as [E|E].
  - rewrite (round_up_full s E) in LF. rewrite take_ge by lia. lia.
  - rewrite last_word by done. destruct (last_divides E) as [q Hq]. pose proof (powers10_pos (9 - s mod 9)).
    rewrite Hq, Z.div_mul by lia. done.
Qed.
End Body.

(** Numbers in one format are ordered like their bytes. *)
Lemma body_order p s a b W F W' F' :
  in_format p s a W F -> in_format p s b W' F' -> (s <= p)%nat ->
  Z.sgn (radix 256 (enc_intg (p - s) W ++ enc_frac s F) - radix 256 (enc_intg (p - s) W' ++ enc_frac s F')) =
  Z.sgn (magnitude (ROUND_UP s) a - magnitude (ROUND_UP s) b).
Proof.
  intros Ha Hb Hs. rewrite (body_radix p s a W F Ha), (body_radix p s b W' F' Hb).
  rewrite <- (format_value _ _ _ _ _ Ha), <- (format_value _ _ _ _ _ Hb), (words_parts p s a W F Ha), (words_parts p s b W' F' Hb).
  rewrite sgn_parts by (exact (last_group_fits p s a W F Ha) || exact (last_group_fits p s b W' F' Hb)).
  set (g := last_group s F). set (g' := last_group s F'). set (T := W ++ take (s / 9) F). set (T' := W' ++ take (s / 9) F').
  assert (HT : Forall word T /\ Forall word T' /\ length T = length T').
  { unfold T, T'. rewrite !length_app, !length_take, (format_intg _ _ _ _ _ Ha), (format_intg _ _ _ _ _ Hb), (format_frac _ _ _ _ _ Ha), (format_frac _ _ _ _ _ Hb).
    split; [|split; [|done]]; apply Forall_app; (split; [eapply W_words; eassumption|apply Forall_take; eapply F_words; eassumption]). }
  destruct HT as (WT & WT' & LT).
  pose proof (radix_lex (2 ^ 32) T T' (word_digits _ WT) (word_digits _ WT') LT) as R1.
  pose proof (radix_lex DIG_BASE T T' WT WT' LT) as R2. change (radix DIG_BASE T) with (words T) in R2. change (radix DIG_BASE T') with (words T') in R2.
  rewrite sgn_parts by (exact (last_group_bound p s a W F Ha) || exact (last_group_bound p s b W' F' Hb)).
  fold g g'. rewrite <- Z.mul_sub_distr_r, Z.sgn_mul, (Z.sgn_pos (powers10 _)), Z.mul_1_r, R1, R2 by apply powers10_pos.
  destruct (Z.eqb_spec (radix (2 ^ 32) T) (radix (2 ^ 32) T')), (Z.eqb_spec (words T) (words T')); try done; exfalso; lia.
Qed.

Lemma radix_inverted l : radix 256 (map (inverted (- 1)) l) = 256 ^ Z.of_nat (length l) - 1 - radix 256 l.
Proof.
  induction l as [|x l IH]; [done|]. cbn [map length]. rewrite !radix_cons, IH, map_length, Nat2Z.inj_succ, Z.pow_succ_r by lia.
  change (inverted (- 1) x) with (255 - x). ring.
Qed.

Lemma inverted_digits mask l : digits 256 l -> digits 256 (map (inverted mask) l).
Proof.
  intros H. induction H as [|x l Hx H IH]; constructor; [|done]. unfold inverted. destruct (mask =? 0); lia.
Qed.

(** The first bit of the bytes is the opposite of the sign. *)
Lemma flip_first_spec neg e h t :
  e = h :: t -> 0 <= h < 128 -> digits 256 e ->
  exists x l, flip_first (map (inverted (mask_of neg)) e) = Some (x :: l) /\ length (x :: l) = length e /\ digits 256 (x :: l) /\
    has_flag x 128 = negb neg /\ flip_first (x :: l) = Some (map (inverted (mask_of neg)) e) /\
    radix 256 (x :: l) = 128 * 256 ^ Z.of_nat (length t) + if neg then - 1 - radix 256 e else radix 256 e.
Proof.
  intros -> Hh Hd. cbn [map flip_first]. set (y := inverted (mask_of neg) h).
  assert (Hy : 0 <= y < 256 /\ (128 <=? y) = neg).
  { unfold y, inverted, mask_of. destruct neg; cbn [Z.eqb]; [destruct (Z.leb_spec 128 (255 - h))|destruct (Z.leb_spec 128 h)]; lia. }
  destruct Hy as [Hy Hn]. destruct (byte_top y Hy) as [_ Ex]. rewrite Hn in Ex.
  assert (Hx : 0 <= Z.lxor y 128 < 256 /\ (128 <=? Z.lxor y 128) = negb neg).
  { rewrite Ex. destruct neg; cbn [negb]; [apply Z.leb_le in Hn|apply Z.leb_gt in Hn]; (split; [lia|]);
      [apply Z.leb_gt; lia|apply Z.leb_le; lia]. }
  destruct Hx as [Hx Hxn]. exists (Z.lxor y 128), (map (inverted (mask_of neg)) t). apply list.Forall_cons in Hd as [_ Hd].
  split; [done|]. cbn [length]. rewrite map_length. split; [done|]. split; [constructor; [done|by apply inverted_digits]|].
  destruct (byte_top (Z.lxor y 128) Hx) as [-> _]. split; [done|]. split; [by rewrite Z.lxor_assoc, Z.lxor_nilpotent, Z.lxor_0_r|].
  rewrite radix_cons, Ex, map_length, radix_cons. unfold y, mask_of. destruct neg.
  - rewrite radix_inverted. change (inverted (- 1) h) with (255 - h). ring.
  - change (inverted 0 h) with h. replace (map (inverted 0) t) with t; [ring|].
    clear. induction t as [|x t IH]; [done|]. cbn. by rewrite <- IH.
Qed.

(** The bytes of a number that fits, as a number. *)
Lemma decimal2bin_bytes d p s :
  fits p s d -> (sign d = true -> 0 < magnitude (FW d) d) ->
  exists l, decimal2bin d p s = Some (E_DEC_OK, l) /\ length l = decimal_bin_size p s /\ digits 256 l /\
    exists W F, in_format p s d W F /\
      radix 256 l = 128 * 256 ^ Z.of_nat (decimal_bin_size p s - 1) +
        let r := radix 256 (enc_intg (p - s) W ++ enc_frac s F) in if sign d then - 1 - r else r.
Proof.
  intros Hf Hp. destruct (decimal2bin_spec d p s Hf) as (W & F & neg & Hform & Hn & E). destruct Hf as (H & Hs & H0 & Hm).
  pose proof (body_length p s d W F Hform) as BL. pose proof (body_digits p s W F) as BD.
  destruct (body_head p s d W F Hform ltac:(lia) ltac:(lia)) as (h & t & Eb & Hh).
  destruct (flip_first_spec neg _ h t Eb Hh BD) as (x & l & Ef & Ll & Dl & _ & _ & Rl).
  rewrite E, Ef. exists (x :: l). split; [done|]. split; [lia|]. split; [done|]. exists W, F. split; [done|].
  assert (neg = sign d) as <-.
  { destruct Hn as [|[-> Hz]]; [done|]. destruct (sign d); [specialize (Hp eq_refl); lia|done]. }
  assert (Lt : length t = (decimal_bin_size p s - 1)%nat) by (rewrite <- BL, Eb; cbn [length]; lia).
  by rewrite Rl, Lt.
Qed.

