(* ===== verification/DecimalBinRead.v ===== *)
(** * The binary format is read back *)
From Stdlib Require Import ZArith Lia List Bool.
From stdpp Require Import base tactics list option.
From S2P Require Import Prelude Decimal DecimalValue DecimalAdd DecimalSub DecimalBin DecimalBinSpec.

Open Scope Z_scope.

#[local] Opaque Nat.div Nat.modulo.

(** A word written at [q]. *)
Lemma set_word_spec q w b :
  (q < length b)%nat ->
  set_word q w b = Some (<[q := w]> b) /\ length (<[q := w]> b) = length b /\ take (S q) (<[q := w]> b) = take q b ++ [w].
Proof.
  intros H. unfold set_word. rewrite (proj2 (Nat.ltb_lt _ _) H), length_insert. split; [done|]. split; [done|].
  rewrite (take_S_r _ _ w) by by apply list_lookup_insert_eq. by rewrite take_insert_ge by lia.
Qed.

Section Read.
Context (mask : Z) (Hm : is_mask mask).
Let inv := map (inverted mask).

Lemma load_group i w rest :
  (1 <= i <= 4)%nat -> 0 <= w < 128 * 256 ^ Z.of_nat (i - 1) ->
  load_digits i (inv (be_bytes i w) ++ rest) = Some (Z.lxor w mask).
Proof.
  intros Hi Hw. unfold inv. rewrite <- be_bytes_mask by done. apply load_digits_spec; [done|].
  rewrite lxor_mask by done. destruct (mask =? 0); lia.
Qed.

Lemma load_word w rest : word w -> mi_sint4korr (inv (be_bytes 4 w) ++ rest) = Some (Z.lxor w mask).
Proof. intros Hw. apply (load_group 4); [lia|]. by apply word_fits. Qed.

Lemma drop_group i w rest : drop i (inv (be_bytes i w) ++ rest) = rest.
Proof. apply drop_app_length'. unfold inv. by rewrite map_length, be_bytes_length. Qed.

Lemma inv_four w l rest : inv (four (w :: l)) ++ rest = inv (be_bytes 4 w) ++ inv (four l) ++ rest.
Proof. unfold inv. change (four (w :: l)) with (be_bytes 4 w ++ four l). by rewrite map_app, <- app_assoc. Qed.

Lemma word_ok w : word w -> (DIG_MAX <? u32 w) = false.
Proof. intros [H0 H1]. unfold DIG_MAX, DIG_BASE in *. apply Z.ltb_ge. rewrite u32_small; lia. Qed.

(** Words before the point: those that are zero at the start are left out. *)
Lemma read_intg_spec l rest q b i :
  Forall word l -> (q + length l <= length b)%nat ->
  exists z b', read_intg (length l) mask (inv (four l) ++ rest) q b i =
      Some (Read rest (q + (length l - z)) b' (i - 9 * z)) /\
    length b' = length b /\ (z <= length l)%nat /\ (q = 0 \/ z = 0)%nat /\ take z l = replicate z 0 /\
    take (q + (length l - z)) b' = take q b ++ drop z l.
Proof.
  intros Hl. revert q b i. induction Hl as [|w l Hw Hl IH]; intros q b i Hq; cbn [length] in *.
  { exists 0%nat, b. cbn. rewrite Nat.add_0_r, Nat.sub_0_r, app_nil_r. repeat split; auto. }
  cbn [read_intg]. rewrite inv_four, load_word, drop_group by done. cbn [mbind option_bind].
  rewrite lxor_mask_twice. destruct (set_word_spec q w b ltac:(lia)) as (-> & Lb & Tb). cbn [mbind option_bind]. rewrite word_ok by done.
  destruct (Nat.ltb_spec 0 q) as [Hq0|Hq0]; [|destruct (Z.eqb_spec w 0) as [->|Hw0]]; cbn [orb negb].
  - destruct (IH (S q) (<[q := w]> b) i ltac:(lia)) as (z & b' & E & Lb' & _ & [? | ->] & _ & Tb'); [lia|].
    exists 0%nat, b'. rewrite !Nat.sub_0_r in *. rewrite E, Tb in *. replace (q + S (length l))%nat with (S q + length l)%nat by lia.
    split; [done|]. split; [lia|]. split; [lia|]. split; [by right|]. split; [done|]. by rewrite Tb', <- app_assoc.
  - assert (q = 0%nat) as -> by lia. destruct (IH 0%nat (<[0%nat := 0]> b) (i - 9)%nat ltac:(lia)) as (z & b' & E & Lb' & Hz & _ & Tz & Tb').
    exists (S z), b'. change DIG_PER_DEC1 with 9%nat. rewrite E. cbn [take replicate drop Nat.sub Nat.add] in *. rewrite Tz, Tb'.
    split; [by replace (i - 9 * S z)%nat with (i - 9 - 9 * z)%nat by lia|]. split; [lia|]. split; [lia|]. split; [by left|]. done.
  - destruct (IH (S q) (<[q := w]> b) i ltac:(lia)) as (z & b' & E & Lb' & _ & [? | ->] & _ & Tb'); [lia|].
    exists 0%nat, b'. rewrite !Nat.sub_0_r in *. rewrite E, Tb in *. replace (q + S (length l))%nat with (S q + length l)%nat by lia.
    split; [done|]. split; [lia|]. split; [lia|]. split; [by right|]. split; [done|]. by rewrite Tb', <- app_assoc.
Qed.

Lemma read_frac_spec l rest q b i :
  Forall word l -> (q + length l <= length b)%nat ->
  exists b', read_frac (length l) mask (inv (four l) ++ rest) q b i = Some (Read rest (q + length l) b' i) /\
    length b' = length b /\ take (q + length l) b' = take q b ++ l.
Proof.
  intros Hl. revert q b. induction Hl as [|w l Hw Hl IH]; intros q b Hq; cbn [length] in *.
  { exists b. cbn. rewrite Nat.add_0_r, app_nil_r. auto. }
  cbn [read_frac]. rewrite inv_four, load_word, drop_group by done. cbn [mbind option_bind].
  rewrite lxor_mask_twice. destruct (set_word_spec q w b ltac:(lia)) as (-> & Lb & Tb). cbn [mbind option_bind]. rewrite word_ok by done.
  destruct (IH (S q) (<[q := w]> b) ltac:(lia)) as (b' & E & Lb' & Tb').
  exists b'. rewrite E, Tb in *. replace (q + S (length l))%nat with (S q + length l)%nat by lia.
  split; [done|]. split; [lia|]. by rewrite Tb', <- app_assoc.
Qed.

(** The first word, when it is not full. *)
Lemma read_first_spec n w rest b :
  (n mod 9 <> 0)%nat -> 0 <= w < powers10 (n mod 9) -> (0 < length b)%nat ->
  read_first mask (n mod 9) (inv (be_bytes (dig2bytes (n mod 9)) w) ++ rest) b n =
    Some (if w =? 0 then Read rest 0 (<[0%nat := w]> b) (n - n mod 9) else Read rest 1 (<[0%nat := w]> b) n).
Proof.
  intros Hn Hw Hb. unfold read_first. destruct (Nat.eqb_spec (n mod 9)%nat 0%nat); [done|].
  pose proof (div9 n). destruct (dig_range (n mod 9) ltac:(lia)) as [Hd Hp].
  rewrite load_group, drop_group by lia. cbn [mbind option_bind]. rewrite lxor_mask_twice.
  destruct (set_word_spec 0 w b Hb) as (-> & _ & _). cbn [mbind option_bind].
  pose proof (powers10_le (n mod 9) (n mod 9 + 1) ltac:(lia)). pose proof (powers10_le (n mod 9) 9 ltac:(lia)) as H9.
  change (powers10 9) with 1000000000 in H9. rewrite u64_small by lia. rewrite (proj2 (Z.leb_gt _ _)) by lia.
  by destruct (w =? 0).
Qed.

(** The last word. *)
Lemma read_last_spec s g q b i rest :
  (s mod 9 <> 0)%nat -> 0 <= g < powers10 (s mod 9) -> (q < length b)%nat ->
  let w := g * powers10 (9 - s mod 9) in
  read_last mask (s mod 9) (inv (be_bytes (dig2bytes (s mod 9)) g) ++ rest) q b i =
    Some (Read (inv (be_bytes (dig2bytes (s mod 9)) g) ++ rest) (S q) (<[q := w]> b) i).
Proof.
  intros Hs Hg Hq w. unfold read_last. destruct (Nat.eqb_spec (s mod 9)%nat 0%nat); [done|].
  pose proof (div9 s). destruct (dig_range (s mod 9) ltac:(lia)) as [Hd Hp].
  rewrite load_group by lia. cbn [mbind option_bind]. rewrite lxor_mask_twice. change (DIG_PER_DEC1 - s mod 9)%nat with (9 - s mod 9)%nat. fold w.
  assert (Hw : word w).
  { unfold word, w. rewrite (DIG_BASE_split (s mod 9)) by lia. pose proof (powers10_pos (9 - s mod 9)). nia. }
  assert (Es : s32 w = w) by (unfold word, DIG_BASE in Hw; unfold s32; rewrite Z.mod_small; lia).
  rewrite Es. destruct (set_word_spec q w b Hq) as (-> & _ & _). cbn [mbind option_bind]. by rewrite word_ok.
Qed.

(** The part before the point: [D] are the words without zeroes at the start. *)
Lemma read_head n W rest b K :
  length W = ROUND_UP n -> Forall word W -> words W < powers10 n -> (length W <= length b)%nat ->
  exists z b' i, and_read (read_first mask (n mod 9) (inv (enc_intg n W) ++ rest) b n)
      (fun from q b i => and_read (read_intg (n / 9) mask from q b i) K) = K rest (length (drop z W)) b' i /\
    length b' = length b /\ (z <= length W)%nat /\ take z W = replicate z 0 /\ take (length (drop z W)) b' = drop z W /\
    (i = (length (drop z W) * 9)%nat \/ i = n /\ z = 0%nat).
Proof.
  intros Lw Hw Hp Hb. pose proof (round_up_div n) as Hr. pose proof (div9 n) as Hd. unfold enc_intg.
  destruct (Nat.eqb_spec (n mod 9)%nat 0%nat) as [E|E].
  - unfold read_first. rewrite E. cbn [Nat.eqb and_read mbind option_bind].
    destruct (read_intg_spec W rest 0 b n Hw ltac:(lia)) as (z & b' & Er & Lb & Hz & _ & Tz & Tb).
    replace (n / 9)%nat with (length W) by lia. rewrite Er. cbn [and_read mbind option_bind Nat.add take app] in *.
    exists z, b', (n - 9 * z)%nat. rewrite length_drop. split; [done|]. split; [done|]. split; [done|]. split; [done|]. split; [done|].
    left. lia.
  - destruct W as [|w W]; [cbn [length] in Lw; lia|]. cbn [hd tail length] in *. unfold inv. rewrite map_app, <- app_assoc.
    pose proof (first_word n w W E ltac:(cbn [length]; lia) Hw Hp) as Hf. apply list.Forall_cons in Hw as [Hw Hws].
    rewrite read_first_spec by (done || unfold word in Hw; lia). destruct (set_word_spec 0 w b ltac:(lia)) as (_ & Lb & Tb).
    replace (n / 9)%nat with (length W) by lia.
    destruct (Z.eqb_spec w 0) as [->|Hw0]; cbn [and_read mbind option_bind].
    + destruct (read_intg_spec W rest 0 (<[0%nat := 0]> b) (n - n mod 9) Hws ltac:(lia)) as (z & b' & Er & Lb' & Hz & _ & Tz & Tb').
      unfold inv in Er. rewrite Er. cbn [mbind option_bind Nat.add take app] in *. exists (S z), b', (n - n mod 9 - 9 * z)%nat. cbn [drop take replicate].
      rewrite length_drop, Tz. split; [done|]. split; [lia|]. split; [lia|]. split; [done|]. split; [done|]. left. lia.
    + destruct (read_intg_spec W rest 1 (<[0%nat := w]> b) n Hws ltac:(lia)) as (z & b' & Er & Lb' & _ & [?| ->] & _ & Tb'); [done|].
      unfold inv in Er. rewrite Er. cbn [mbind option_bind]. rewrite Tb, !Nat.sub_0_r in Tb'. cbn [take drop app] in Tb'.
      rewrite Nat.mul_0_r, !Nat.sub_0_r.
      exists 0%nat, b', n. cbn [drop take replicate length].
      split; [done|]. split; [lia|]. split; [lia|]. split; [done|]. split; [|by right]. exact Tb'.
Qed.

(** The part after it. *)
Lemma read_tail s F q b i :
  length F = ROUND_UP s -> Forall word F -> ((s mod 9 <> 0)%nat -> (powers10 (9 - s mod 9) | nth (s / 9) F 0)) ->
  (q + length F <= length b)%nat ->
  exists from b', and_read (read_frac (s / 9) mask (inv (enc_frac s F)) q b i)
      (fun from q b i => read_last mask (s mod 9) from q b i) = Some (Read from (q + length F) b' i) /\
    length b' = length b /\ take (q + length F) b' = take q b ++ F.
Proof.
  intros LF HF Hd Hq. pose proof (round_up_full s) as Hr0. pose proof (round_up_part s) as Hr1. pose proof (div9 s) as H9. unfold enc_frac, inv. rewrite map_app.
  set (T := take (s / 9) F). assert (LT : length T = (s / 9)%nat) by (unfold T; rewrite length_take; destruct (Nat.eq_dec (s mod 9)%nat 0%nat); lia).
  destruct (read_frac_spec T (map (inverted mask) (if (s mod 9 =? 0)%nat then [] else
    be_bytes (dig2bytes (s mod 9)) (nth (s / 9) F 0 / powers10 (9 - s mod 9)))) q b i) as (b' & Er & Lb & Tb); [by apply Forall_take|lia|].
  rewrite LT in *. unfold inv in Er. rewrite Er. cbn [and_read mbind option_bind].
  destruct (Nat.eqb_spec (s mod 9)%nat 0%nat) as [E|E]; [specialize (Hr0 E)|specialize (Hr1 E)].
  - unfold read_last. rewrite E. cbn [Nat.eqb]. eexists _, b'. replace (length F) with (s / 9)%nat by lia. split; [done|]. split; [done|].
    rewrite Tb. unfold T. by rewrite (take_ge F) by lia.
  - destruct (lookup_lt_is_Some_2 F (s / 9) ltac:(lia)) as [w Hw]. rewrite (nth_lookup_Some _ _ _ _ Hw) in *.
    assert (Ww : word w) by (rewrite Forall_lookup in HF; by apply (HF (s / 9)%nat)).
    pose proof (last_digits (s mod 9) w ltac:(lia) Ww) as Hg. destruct (Hd E) as [g Eg].
    assert (Ew : w / powers10 (9 - s mod 9) * powers10 (9 - s mod 9) = w).
    { rewrite Eg at 1. rewrite Z.div_mul; [done|]. pose proof (powers10_pos (9 - s mod 9)). lia. }
    pose proof (read_last_spec s _ (q + s / 9) b' i [] E Hg ltac:(lia)) as El. rewrite app_nil_r in El. unfold inv in El. cbn zeta in El.
    rewrite El, Ew. destruct (set_word_spec (q + s / 9) w b' ltac:(lia)) as (_ & Lb' & Tb'). eexists _, _.
    replace (q + length F)%nat with (S (q + s / 9))%nat by lia. split; [done|]. split; [lia|]. rewrite Tb', Tb, <- app_assoc. f_equal.
    unfold T. rewrite <- (take_S_r _ _ _ Hw). by rewrite (take_ge F) by lia.
Qed.
End Read.

(** ** bin2decimal *)

Lemma FIX_enough n i f : (i + f <= n)%nat -> FIX_INTG_FRAC_ERROR n i f = (i, f, E_DEC_OK).
Proof. intros H. unfold FIX_INTG_FRAC_ERROR. by rewrite (proj2 (Nat.ltb_ge _ _)). Qed.

(** Leading words that are zero do not change the value. *)
Lemma drop_zeros z l : (z <= length l)%nat -> take z l = replicate z 0 -> words (drop z l) = words l.
Proof. intros Hz Ht. rewrite (words_split z l) by done. rewrite Ht, words_zeros. lia. Qed.

(** The number that was read: [D] before and [F] after the point. *)
Lemma read_wf p s d W F z b i neg :
  in_format p s d W F -> (s <= p)%nat -> (z <= length W)%nat -> take z W = replicate z 0 ->
  take (length (drop z W) + length F) b = drop z W ++ F -> (length (drop z W) + length F <= length b)%nat ->
  (i = (length (drop z W) * 9)%nat \/ i = (p - s)%nat /\ z = 0%nat) -> (0 < i + s)%nat ->
  let r := mk_dec i s neg b in wf r /\ FW r = ROUND_UP s /\ magnitude (ROUND_UP s) r = magnitude (ROUND_UP s) d.
Proof.
  intros Hf Hs Hz Tz Tb Hl Hi Hp r. set (D := drop z W) in *.
  assert (Ei : IW r = length D).
  { unfold IW, r. cbn [intg]. destruct Hi as [->|[-> ->]]; [apply ROUND_UP_mul|]. unfold D. by rewrite drop_0, (format_intg _ _ _ _ _ Hf). }
  assert (Ef : FW r = length F) by (unfold FW, r; cbn [frac]; by rewrite (format_frac _ _ _ _ _ Hf)).
  assert (ED : words (D ++ F) = words (W ++ F)) by (unfold D; by rewrite !words_app, drop_zeros).
  assert (Ww : Forall word (D ++ F)).
  { apply Forall_app. split; [apply Forall_drop; by eapply W_words|by eapply F_words]. }
  assert (Td : take (length D) b = D).
  { transitivity (take (length D) (take (length D + length F) b)); [rewrite take_take; f_equal; lia|]. rewrite Tb. by rewrite take_app_length. }
  split; [|split; [by rewrite Ef, (format_frac _ _ _ _ _ Hf)|]].
  - split; rewrite ?Ei, ?Ef; unfold r; cbn [buf intg frac len].
    + unfold len. cbn [buf]. lia.
    + lia.
    + by rewrite Tb.
    + rewrite Td. unfold D. rewrite drop_zeros by done. destruct Hi as [->|[-> ->]]; [|apply Hf].
      rewrite <- (drop_zeros z W) by done. fold D. apply Forall_app in Ww as [Ww _]. pose proof (words_bound _ Ww) as Hb.
      rewrite powers10_B in Hb. replace (length D * 9)%nat with (9 * length D)%nat by lia. lia.
    + rewrite Tb, ED, (format_frac _ _ _ _ _ Hf). apply Hf.
  - rewrite <- (format_value _ _ _ _ _ Hf), <- ED. unfold magnitude. rewrite Ei, Ef, <- (format_frac _ _ _ _ _ Hf), Nat.min_id, Nat.sub_diag, B_0.
    unfold r. cbn [buf]. rewrite Tb. lia.
Qed.

Lemma read_value p s d W F z b i neg :
  in_format p s d W F -> (frac d <= s <= p)%nat -> (0 < p)%nat -> (z <= length W)%nat -> take z W = replicate z 0 ->
  take (length (drop z W) + length F) b = drop z W ++ F -> (length (drop z W) + length F <= length b /\ 0 < length b)%nat ->
  (i = (length (drop z W) * 9)%nat \/ i = (p - s)%nat /\ z = 0%nat) ->
  let to := mk_dec i s (negb (mask_of neg =? 0)) b in
  let r := if (i =? 0)%nat && (s =? 0)%nat then decimal_make_zero to else to in
  wf r /\ len r = length b /\ frac r = s /\
  forall n, (ROUND_UP s <= n)%nat -> magnitude n r = magnitude n d /\ (sign r = neg \/ magnitude n d = 0).
Proof.
  intros Hf Hs Hp Hz Tz Tb [Hl Hl0] Hi to r. assert (Sg : sign to = neg) by by destruct neg.
  assert (Hd : forall n, (ROUND_UP s <= n)%nat -> magnitude n d = magnitude (ROUND_UP s) d * B (n - ROUND_UP s)).
  { intros n Hn. pose proof (ROUND_UP_le (frac d) s ltac:(lia)). rewrite (magnitude_exact n), (magnitude_exact (ROUND_UP s)) by (unfold FW; lia).
    rewrite <- Z.mul_assoc, <- B_add. do 2 f_equal. unfold FW. lia. }
  subst r. destruct (Nat.eqb_spec i 0) as [Ei|Ei]; [destruct (Nat.eqb_spec s 0) as [Es|Es]|]; cbn [andb].
  2, 3: destruct (read_wf p s d W F z b i (negb (mask_of neg =? 0)) Hf ltac:(lia) Hz Tz Tb Hl Hi ltac:(lia)) as (Wr & Fr & Mr);
    fold to in Wr, Fr, Mr; (split; [done|]); (split; [done|]); (split; [done|]); intros n Hn; (split; [|by left]);
    rewrite Hd, <- Mr, (magnitude_exact n), (magnitude_exact (ROUND_UP s)), Fr, Nat.sub_diag, B_0 by lia; ring.
  destruct (make_zero_spec to) as (Z1 & Z2 & Z3 & Z4 & Z5); [done|]. split; [done|]. split; [done|]. split; [by subst s|].
  intros n Hn. assert (E0 : magnitude n d = 0); [|rewrite E0; split; [apply Z5|by right]].
  rewrite Hd, <- (format_value _ _ _ _ _ Hf) by done. pose proof (format_frac _ _ _ _ _ Hf) as LF. subst s.
  destruct F; [|done]. rewrite app_nil_r, <- (drop_zeros z W) by done.
  destruct (drop z W) as [|w D]; [done|]. cbn [length] in Hi. lia.
Qed.

(** C15: A number that fits the format is stored without error in
    [decimal_bin_size] bytes, and [bin2decimal] reads the same value back, with
    the digits after the point that the format has. *)
Theorem decimal_bin_roundtrip d p s to :
  fits p s d -> (decimal_size p s <= len to)%nat ->
  exists l r, decimal2bin d p s = Some (E_DEC_OK, l) /\ length l = decimal_bin_size p s /\
    bin2decimal l to p s = Some (E_DEC_OK, r) /\ wf r /\ len r = len to /\ frac r = s /\
    forall n, (ROUND_UP s <= n)%nat -> value n r = value n d.
Proof.
  intros Hfit Hl. destruct (decimal2bin_spec d p s Hfit) as (W & F & neg & Hf & Hn & E). destruct Hfit as (H & Hs & H0 & Hm).
  pose proof (body_length p s d W F Hf) as BL.
  destruct (body_head p s d W F Hf ltac:(lia) ltac:(lia)) as (h & t & Eb & Hh).
  destruct (flip_first_spec neg _ h t Eb Hh (body_digits p s W F)) as (x & l & Ef & Ll & _ & Fl & Ff & _).
  rewrite E, Ef. cbn [mbind option_bind]. exists (x :: l).
  pose proof (format_intg _ _ _ _ _ Hf) as LW. pose proof (format_frac _ _ _ _ _ Hf) as LF. unfold decimal_size in Hl.
  unfold bin2decimal. rewrite (proj2 (Nat.ltb_ge _ _)) by lia. cbn [head mbind option_bind]. rewrite Fl, take_ge, Ff by lia.
  cbn [mbind option_bind]. rewrite FIX_enough by lia. change (E_DEC_OK =? E_DEC_OK) with true. cbn iota.
  change DIG_PER_DEC1 with 9%nat. replace ((p - s) / 9 * 9 + (p - s) mod 9)%nat with (p - s)%nat by (pose proof (div9 (p - s)); lia).
  replace (s / 9 * 9 + s mod 9)%nat with s by (pose proof (div9 s); lia). rewrite map_app.
  replace (if negb neg then 0 else - 1) with (mask_of neg) by by destruct neg.
  pose proof (mask_of_mask neg) as Hmask. pose proof (W_words p s d W F Hf) as Ww. pose proof (F_words p s d W F Hf) as Wf.
  destruct (read_head (mask_of neg) Hmask (p - s) W (map (inverted (mask_of neg)) (enc_frac s F)) (buf to)
    (fun from q b i => and_read (read_frac (s / 9) (mask_of neg) from q b i) (fun from q b i => read_last (mask_of neg) (s mod 9) from q b i)))
    as (z & b1 & i & E1 & L1 & Hz & Tz & T1 & Hi); [done|done|apply Hf|unfold len in Hl; lia|]. cbn beta in E1. rewrite E1. clear E1.
  set (D := drop z W) in *. assert (LD : (length D <= length W)%nat) by (unfold D; rewrite length_drop; lia).
  destruct (read_tail (mask_of neg) Hmask s F (length D) b1 i) as (from & b2 & -> & L2 & T2); [done|done|by eapply last_divides|unfold len in Hl; lia|].
  cbn [mbind option_bind]. rewrite T1 in T2.
  pose proof (ROUND_UP_spec (p - s)) as R1. pose proof (ROUND_UP_spec s) as R2. unfold len in Hl.
  destruct (read_value p s d W F z b2 i neg Hf ltac:(lia) ltac:(lia) Hz Tz T2 ltac:(fold D; lia) Hi) as (Wr & Lr & Fr & Mr).
  eexists. split; [done|]. split; [lia|]. split; [done|]. split; [exact Wr|]. split; [unfold len in *; lia|]. split; [exact Fr|].
  intros n Hns. destruct (Mr n Hns) as [Em Es]. unfold value. rewrite Em. destruct Hn as [->|[-> Hn]].
  - destruct Es as [Es|Hz0]; [by rewrite Es|]. rewrite Hz0. by case_match; destruct (sign d).
  - rewrite magnitude_exact, Hn by (pose proof (ROUND_UP_le (frac d) s ltac:(lia)); unfold FW; lia). rewrite Z.mul_0_l. by case_match; destruct (sign d).
Qed.
