(* ===== verification/DecimalRound.v ===== *)
(** * Rounding and shifting of decimals (decimal_round, decimal_shift of strings/decimal.c)

    Positions in a buffer are counted from its start; reading or writing a word
    outside gives [None].  [decimal_round] is modelled for a result that is the
    number itself ([same]) and for one that is another. *)
From Stdlib Require Import ZArith Lia List Bool.
From stdpp Require Import base tactics list option.
From S2P Require Import Prelude Decimal DecimalValue.

Open Scope Z_scope.

Inductive decimal_round_mode := TRUNCATE | HALF_EVEN | HALF_UP | CEILING | FLOOR.

#[export] Instance decimal_round_mode_eq_dec : EqDecision decimal_round_mode.
Proof. solve_decision. Defined.

(** ** decimal_round *)

Definition round_digit_of (mode : decimal_round_mode) (s : bool) : Z :=
  match mode with
  | HALF_UP | HALF_EVEN => 5
  | CEILING => if s then 10 else 0
  | FLOOR => if s then 0 else 10
  | TRUNCATE => 10
  end.

(** The words from [i] to before [j] set to zero. *)
Definition fill_zero (i j : nat) (b : list Z) : option (list Z) :=
  if (j <=? i)%nat then Some b
  else if (j <=? length b)%nat then Some (take i b ++ replicate (j - i) 0 ++ drop j b) else None.

Definition copy_words (n : nat) (src dst : list Z) : option (list Z) :=
  if (n <=? length src)%nat && (n <=? length dst)%nat then Some (overwrite (take n src) dst) else None.

Definition set_frac (f : nat) (d : decimal_t) : decimal_t := mk_dec (intg d) f (sign d) (buf d).

(** Whether the number cut off before the word [n0] is increased. *)
Definition round_up_word (mode : decimal_round_mode) (round_digit : Z) (n0 n1 : nat) (b : list Z) : option bool :=
  if round_digit =? 0 then Some (existsb (fun w => negb (w =? 0)) (take (n1 - n0) (drop n0 b)))
  else if round_digit =? 5 then
    w ← b !! n0;
    let x := w / DIG_MASK in
    if 5 <? x then Some true
    else if x =? 5 then
      if bool_decide (mode = HALF_UP) then Some true
      else match n0 with
           | O => Some false
           | S q => y ← b !! q; Some (Z.odd y)
           end
    else Some false
  else Some false.

(** The carry into the words before [q]: where it ends, [None] when it is
    carried out of the number. *)
Fixpoint round_carry (q : nat) (b : list Z) : option (option nat * list Z) :=
  match q with
  | O => Some (None, b)
  | S q =>
      w ← b !! q;
      let '(a, carry) := ADD w 0 1 in
      if carry =? 0 then Some (Some q, <[q := a]> b) else round_carry q (<[q := a]> b)
  end.

(** The last word before [n] that is not zero. *)
Fixpoint last_nonzero (n : nat) (b : list Z) : option (option nat) :=
  match n with
  | O => Some None
  | S q => w ← b !! q; if w =? 0 then last_nonzero q b else Some (Some q)
  end.

(** The end of the function, with the position of [buf1]. *)
Definition round_done (intg0 frac0 frac1 scale error : Z) (q : nat) (to : decimal_t) : option (Z * decimal_t) :=
  b ← (if frac0 <? frac1 then
         fill_zero (if (scale =? 0) && (intg0 =? 0) then 1 else Z.to_nat (intg0 + frac0)) (len to) (buf to)
       else Some (buf to));
  let first_dig := (intg to mod DIG_PER_DEC1)%nat in
  w ← (if (first_dig =? 0)%nat then Some 0 else b !! q);
  let to_intg := if negb (first_dig =? 0)%nat && (powers10 first_dig <=? w) then S (intg to) else intg to in
  Some (error, mk_dec to_intg (Z.to_nat (Z.max scale 0)) (sign to) b).

(** The word at [q] was rounded. *)
Definition round_normalize (intg0 frac0 frac1 scale error : Z) (q : nat) (to : decimal_t) : option (Z * decimal_t) :=
  let set_buf to_intg b := mk_dec to_intg (frac to) (sign to) b in
  w ← buf to !! q;
  if DIG_BASE <=? w then
    '(stop, b) ← round_carry q (<[q := w - DIG_BASE]> (buf to));
    match stop with
    | Some q => round_done intg0 frac0 frac1 scale error q (set_buf (intg to) b)
    | None =>
        let '(frac0, scale, error) :=
          if Z.of_nat (len to) <=? frac0 + intg0 then (frac0 - 1, (frac0 - 1) * 9, E_DEC_TRUNCATED)
          else (frac0, scale, error) in
        let m := Z.to_nat (intg0 + Z.max frac0 0) in
        if (m <? len to)%nat then
          round_done (intg0 + 1) frac0 frac1 scale error 0 (set_buf (S (intg to)) (1 :: take m b ++ drop (S m) b))
        else None
    end
  else
    stop ← last_nonzero (S q) (buf to);
    match stop with
    | Some q => round_done intg0 frac0 frac1 scale error q to
    | None =>
        b ← fill_zero 0 (Z.to_nat (frac0 + 1)) (buf to);
        Some (E_DEC_OK, mk_dec 1 (Z.to_nat (Z.max scale 0)) false b)
    end.

(** The digits of the word at [q] after [pos] are cut off. *)
Definition round_word (mode : decimal_round_mode) (round_digit : Z) (pos : nat) (w : Z) : Z :=
  let x := w / powers10 pos in
  let y := x mod 10 in
  let x' := if (round_digit <? y) ||
               ((round_digit =? 5) && (y =? 5) && (bool_decide (mode = HALF_UP) || Z.odd (x / 10)))
            then x + 10 else x in
  powers10 pos * (x' - y).

Definition round_at (mode : decimal_round_mode) (round_digit intg0 frac0 frac1 scale error : Z) (to : decimal_t) :
  option (Z * decimal_t) :=
  let set_buf b := mk_dec (intg to) (frac to) (sign to) b in
  if frac0 + intg0 <? 0 then None
  else
    let n0 := Z.to_nat (frac0 + intg0) in
    if scale =? frac0 * 9 then
      do_inc ← round_up_word mode round_digit n0 (Z.to_nat (frac1 + intg0)) (buf to);
      match n0 with
      | O =>
          if (do_inc : bool) then
            b ← (if (0 <? len to)%nat then Some (<[0%nat := DIG_BASE]> (buf to)) else None);
            round_normalize intg0 frac0 frac1 scale error 0 (set_buf b)
          else Some (E_DEC_OK, decimal_make_zero to)
      | S q =>
          w ← buf to !! q;
          round_normalize intg0 frac0 frac1 scale error q
            (if (do_inc : bool) then set_buf (<[q := w + 1]> (buf to)) else to)
      end
    else
      match n0 with
      | O => None
      | S q =>
          w ← buf to !! q;
          round_normalize intg0 frac0 frac1 scale error q
            (set_buf (<[q := round_word mode round_digit (Z.to_nat (frac0 * 9 - scale - 1)) w]> (buf to)))
      end.

Definition decimal_round (from to : decimal_t) (same : bool) (scale : Z) (mode : decimal_round_mode) :
  option (Z * decimal_t) :=
  let frac0 := if 0 <? scale then Z.of_nat (ROUND_UP (Z.to_nat scale)) else Z.quot scale 9 in
  let frac1 := Z.of_nat (ROUND_UP (frac from)) in
  let intg0 := Z.of_nat (ROUND_UP (intg from)) in
  let '(frac0, scale, error) :=
    if Z.of_nat (len to) <? frac0 + intg0
    then (Z.of_nat (len to) - intg0, (Z.of_nat (len to) - intg0) * 9, E_DEC_TRUNCATED)
    else (frac0, scale, E_DEC_OK) in
  if scale + Z.of_nat (intg from) <? 0 then Some (E_DEC_OK, decimal_make_zero to)
  else
    to ← (if same then Some to
          else
            b ← copy_words (Z.to_nat (intg0 + Z.max frac1 frac0)) (buf from) (buf to);
            Some (mk_dec (Nat.min (ROUND_UP (intg from)) (len to) * DIG_PER_DEC1) (frac to) (sign from) b));
    if frac1 <? frac0 then
      b ← fill_zero (Z.to_nat (intg0 + frac1)) (Z.to_nat (intg0 + frac0)) (buf to);
      Some (error, mk_dec (intg to) (Z.to_nat scale) (sign to) b)
    else if Z.of_nat (frac from) <=? scale then Some (error, set_frac (Z.to_nat scale) to)
    else round_at mode (round_digit_of mode (sign from)) intg0 frac0 frac1 scale error to.

(** ** decimal_shift *)

Fixpoint first_digit (i : nat) (w : Z) (start : Z) : option Z :=
  if w <? powers10 i then
    match i with S i => first_digit i w (start + 1) | O => None end
  else Some start.

Fixpoint last_digit (n i : nat) (w : Z) (stop : Z) : option Z :=
  match n with
  | O => None
  | S n => if w mod powers10 i =? 0 then last_digit n (S i) w (stop - 1) else Some stop
  end.

(** The first word that is not zero. *)
Fixpoint first_nonzero (b : list Z) : option nat :=
  match b with
  | [] => None
  | w :: b => if w =? 0 then S <$> first_nonzero b else Some 0%nat
  end.

(** The positions of the first digit that is not zero and after the last one. *)
Definition digits_bounds (from : decimal_t) : option (Z * Z) :=
  let end_ := (ROUND_UP (intg from) + ROUND_UP (frac from))%nat in
  if (len from <? end_)%nat then None
  else
    match first_nonzero (take end_ (buf from)) with
    | None => Some (0, 0)
    | Some buf_beg =>
        let '(start, i) :=
          if (buf_beg =? 0)%nat && negb (intg from =? 0)%nat then
            let i := ((intg from - 1) mod DIG_PER_DEC1 + 1)%nat in (9 - Z.of_nat i, (i - 1)%nat)
          else (Z.of_nat buf_beg * 9, 8%nat) in
        w ← buf from !! buf_beg;
        start ← first_digit i w start;
        stop ← last_nonzero end_ (buf from);
        buf_end ← stop;
        let '(stop, i) :=
          if (S buf_end =? end_)%nat && negb (frac from =? 0)%nat then
            let i := ((frac from - 1) mod DIG_PER_DEC1 + 1)%nat in (Z.of_nat buf_end * 9 + Z.of_nat i, (10 - i)%nat)
          else (Z.of_nat (S buf_end) * 9, 1%nat) in
        w ← buf from !! buf_end;
        stop ← last_digit (10 - i) i w stop;
        Some (start, stop)
    end.

(** [ROUND_UP] of an [int]. *)
Definition round_up (x : Z) : Z := Z.quot (x + (if 0 <? x then 8 else 0)) 9.

Definition word_at (b : list Z) (i : Z) : option Z := if i <? 0 then None else b !! Z.to_nat i.
Definition set_at (i x : Z) (b : list Z) : option (list Z) :=
  if (i <? 0) || (Z.of_nat (length b) <=? i) then None else Some (<[Z.to_nat i := x]> b).

Fixpoint mini_left_loop (n : nat) (from : Z) (shift c_shift : nat) (b : list Z) : option (list Z) :=
  w ← word_at b from;
  match n with
  | O => set_at from (w mod powers10 c_shift * powers10 shift) b
  | S n =>
      w' ← word_at b (from + 1);
      b ← set_at from (w mod powers10 c_shift * powers10 shift + w' / powers10 c_shift) b;
      mini_left_loop n (from + 1) shift c_shift b
  end.

Definition do_mini_left_shift (shift : nat) (beg last : Z) (b : list Z) : option (list Z) :=
  let from := round_up (beg + 1) - 1 in
  let end_ := round_up last - 1 in
  let c_shift := (DIG_PER_DEC1 - shift)%nat in
  b ← (if Z.rem beg 9 <? Z.of_nat shift then
         w ← word_at b from; set_at (from - 1) (w / powers10 c_shift) b
       else Some b);
  mini_left_loop (Z.to_nat (end_ - from)) from shift c_shift b.

Fixpoint mini_right_loop (n : nat) (from : Z) (shift c_shift : nat) (b : list Z) : option (list Z) :=
  w ← word_at b from;
  match n with
  | O => set_at from (w / powers10 shift) b
  | S n =>
      w' ← word_at b (from - 1);
      b ← set_at from (w / powers10 shift + w' mod powers10 shift * powers10 c_shift) b;
      mini_right_loop n (from - 1) shift c_shift b
  end.

Definition do_mini_right_shift (shift : nat) (beg last : Z) (b : list Z) : option (list Z) :=
  let from := round_up last - 1 in
  let end_ := round_up (beg + 1) - 1 in
  let c_shift := (DIG_PER_DEC1 - shift)%nat in
  b ← (if 9 - (Z.rem (last - 1) 9 + 1) <? Z.of_nat shift then
         w ← word_at b from; set_at (from + 1) (w mod powers10 shift * powers10 c_shift) b
       else Some b);
  mini_right_loop (Z.to_nat (from - end_)) from shift c_shift b.

(** The words from [t] to [barier] get those [d] further on, which become
    zero. *)
Definition move_left (t barier d : Z) (b : list Z) : option (list Z) :=
  if (t <? 0) || (Z.of_nat (length b) <=? barier + d) then None
  else
    let n := Z.to_nat (barier - t + 1) in
    Some (take (Z.to_nat t) b ++ take n (drop (Z.to_nat (t + d)) b) ++ replicate (Z.to_nat d) 0 ++
          drop (Z.to_nat t + n + Z.to_nat d) b).

(** The words from [barier] to [t] get those [d] before. *)
Definition move_right (t barier d : Z) (b : list Z) : option (list Z) :=
  if (barier - d <? 0) || (Z.of_nat (length b) <=? t) then None
  else
    let n := Z.to_nat (t - barier + 1) in
    Some (take (Z.to_nat (barier - d)) b ++ replicate (Z.to_nat d) 0 ++
          take n (drop (Z.to_nat (barier - d)) b) ++ drop (Z.to_nat barier + n) b).

(** The words from the point to the digits, or from the digits to the point. *)
Definition fill_gaps (beg end_ new_point : Z) (b : list Z) : option (list Z) :=
  let beg := round_up (beg + 1) - 1 in
  let end_ := round_up end_ - 1 in
  let new_point := if new_point =? 0 then 0 else round_up new_point - 1 in
  if new_point <? 0 then None
  else if end_ <? new_point then fill_zero (Z.to_nat (end_ + 1)) (Z.to_nat (new_point + 1)) b
  else fill_zero (Z.to_nat new_point) (Z.to_nat beg) b.

(** After the alignment inside the words: the words are moved. *)
Definition shift_words (err beg end_ new_point digits_int digits_frac : Z) (dec : decimal_t) : option (Z * decimal_t) :=
  let new_front := new_point - digits_int in
  '(b, d) ←
    (if (9 <=? new_front) || (new_front <? 0) then
       if 0 <? new_front then
         let d := Z.quot new_front 9 in
         b ← move_left (round_up (beg + 1) - 1 - d) (round_up end_ - 1 - d) d (buf dec); Some (b, - d)
       else
         let d := Z.quot (1 - new_front) 9 in
         b ← move_right (round_up end_ - 1 + d) (round_up (beg + 1) - 1 + d) d (buf dec); Some (b, d)
     else Some (buf dec, 0));
  b ← fill_gaps (beg + d * 9) (end_ + d * 9) (new_point + d * 9) b;
  Some (err, mk_dec (Z.to_nat digits_int) (Z.to_nat digits_frac) (sign dec) b).

(** The alignment inside the words. *)
Definition shift_digits (err shift beg end_ new_point digits_int digits_frac : Z) (dec : decimal_t) : option (Z * decimal_t) :=
  if Z.rem shift 9 =? 0 then shift_words err beg end_ new_point digits_int digits_frac dec
  else
    let '(l, r, do_left) :=
      if 0 <? shift then let l := Z.rem shift 9 in (l, 9 - l, l <=? beg)
      else let r := Z.rem (- shift) 9 in (9 - r, r, negb (r <=? Z.of_nat (len dec) * 9 - end_)) in
    b ← (if (do_left : bool) then do_mini_left_shift (Z.to_nat l) beg end_ (buf dec)
         else do_mini_right_shift (Z.to_nat r) beg end_ (buf dec));
    let mini_shift := if do_left then - l else r in
    let new_point := new_point + mini_shift in
    let dec := mk_dec (intg dec) (frac dec) (sign dec) b in
    if (shift + mini_shift =? 0) && (new_point - digits_int <? 9)
    then Some (err, mk_dec (Z.to_nat digits_int) (Z.to_nat digits_frac) (sign dec) b)
    else shift_words err (beg + mini_shift) (end_ + mini_shift) new_point digits_int digits_frac dec.

Definition decimal_shift (dec : decimal_t) (shift : Z) : option (Z * decimal_t) :=
  let point := Z.of_nat (ROUND_UP (intg dec)) * 9 in
  let new_point := point + shift in
  if shift =? 0 then Some (E_DEC_OK, dec)
  else
    '(beg, end_) ← digits_bounds dec;
    if beg =? end_ then Some (E_DEC_OK, decimal_make_zero dec)
    else
      let digits_int := Z.max (new_point - beg) 0 in
      let digits_frac := Z.max (end_ - new_point) 0 in
      let new_frac_len := round_up digits_frac in
      let new_len := round_up digits_int + new_frac_len in
      let length := Z.of_nat (len dec) in
      if length <? new_len then
        let lack := new_len - length in
        if new_frac_len <? lack then Some (E_DEC_OVERFLOW, dec)
        else
          let new_frac_len := new_frac_len - lack in
          let diff := digits_frac - new_frac_len * 9 in
          '(_, dec) ← decimal_round dec dec true (end_ - point - diff) HALF_UP;
          let end_ := end_ - diff in
          if end_ <=? beg then Some (E_DEC_TRUNCATED, decimal_make_zero dec)
          else shift_digits E_DEC_TRUNCATED shift beg end_ new_point digits_int (new_frac_len * 9) dec
      else shift_digits E_DEC_OK shift beg end_ new_point digits_int digits_frac dec.
