(* ===== verification/DecimalRoundSpec.v ===== *)
(** * What rounding computes

    [decimal_round] with the modes HALF_UP and TRUNCATE gives the number with
    [scale] digits after the point that the mode asks for, when there is room
    for a carry. *)
From Stdlib Require Import ZArith Lia List Bool.
From stdpp Require Import base tactics list option.
From S2P Require Import Prelude Decimal DecimalValue DecimalAdd DecimalSub DecimalRound.

Open Scope Z_scope.

#[local] Opaque Nat.div Nat.modulo Z.rem Z.quot.

(** ** The number rounded to a multiple of [u] *)

Inductive simple_mode : decimal_round_mode -> Prop :=
| simple_half_up : simple_mode HALF_UP
| simple_truncate : simple_mode TRUNCATE.

Definition half (mode : decimal_round_mode) (u : Z) : Z := if decide (mode = HALF_UP) then u / 2 else 0.

Definition rounded (mode : decimal_round_mode) (x u : Z) : Z := (x + half mode u) / u * u.

Lemma rounded_exact mode x u : 0 < u -> (u | x) -> rounded mode x u = x.
Proof.
  intros Hu [q ->]. unfold rounded, half. replace ((q * u + _) / u) with q; [done|].
  rewrite Z.div_add_l by lia. rewrite Z.div_small; [lia|]. destruct (decide _); [|lia]. split; [apply Z.div_pos; lia|]. apply Z.div_lt; lia.
Qed.

Lemma half_bound mode u : 0 < u -> 0 <= half mode u < u.
Proof. intros Hu. unfold half. destruct (decide _); [|lia]. split; [apply Z.div_pos; lia|]. apply Z.div_lt; lia. Qed.

Lemma rounded_le mode x u M : 0 < u -> (u | M) -> x < M -> rounded mode x u <= M.
Proof.
  intros Hu [m ->] Hx. unfold rounded. pose proof (half_bound mode u Hu). assert ((x + half mode u) / u < m + 1) by (apply Z.div_lt_upper_bound; lia). nia.
Qed.

Lemma rounded_nonneg mode x u : 0 < u -> 0 <= x -> 0 <= rounded mode x u.
Proof. intros Hu Hx. unfold rounded. pose proof (half_bound mode u Hu). assert (0 <= (x + half mode u) / u) by (apply Z.div_pos; lia). nia. Qed.

Lemma rounded_add mode P x u : 0 < u -> (u | P) -> rounded mode (P + x) u = P + rounded mode x u.
Proof. intros Hu [m ->]. unfold rounded. rewrite <- Z.add_assoc, Z.div_add_l by lia. ring. Qed.

(** The digits after those that are looked at do not count. *)
Lemma rounded_rest mode y u v rest : 0 < u -> Z.even u = true -> 0 <= rest < v -> rounded mode (y * v + rest) (u * v) = rounded mode y u * v.
Proof.
  intros Hu He Hr. unfold rounded, half. apply Z.even_spec in He as [m ->].
  assert (E : (if decide (mode = HALF_UP) then 2 * m * v / 2 else 0) = (if decide (mode = HALF_UP) then 2 * m / 2 else 0) * v).
  { destruct (decide _); [|done]. rewrite <- Z.mul_assoc, !(Z.mul_comm 2), !Z.div_mul by lia. ring. }
  rewrite E. set (h := if decide _ then _ else _). replace (y * v + rest + h * v) with ((y + h) * v + rest) by ring.
  rewrite (Z.mul_comm (2 * m) v), <- Z.div_div, Z.div_add_l, (Z.div_small rest) by lia. rewrite Z.add_0_r. ring.
Qed.

(** ** The word in which the number ends *)

Lemma round_word_spec mode pos w :
  simple_mode mode -> 0 <= w -> round_word mode (round_digit_of mode false) pos w = rounded mode w (powers10 (S pos)).
Proof.
  intros Hm Hw. unfold round_word, rounded, half. pose proof (powers10_pos pos) as Hp. set (p := powers10 pos) in *.
  assert (ES : powers10 (S pos) = p * 10) by (unfold p; change (S pos) with (1 + pos)%nat; rewrite powers10_add; change (powers10 1) with 10; lia).
  rewrite ES. pose proof (Z.div_mod w p ltac:(lia)) as H1. pose proof (Z.mod_pos_bound w p Hp) as H2. set (x := w / p) in *.
  pose proof (Z.div_mod x 10 ltac:(lia)) as H3. pose proof (Z.mod_pos_bound x 10 ltac:(lia)) as H4. set (y := x mod 10) in *.
  destruct Hm; cbn [round_digit_of].
  - rewrite decide_True by done. rewrite bool_decide_true by done. cbn [orb]. rewrite andb_true_r. replace (p * 10 / 2) with (5 * p) by (rewrite <- (Z.div_mul (5 * p) 2) by lia; f_equal; lia).
    change (5 =? 5) with true. cbn [andb]. destruct (Z.ltb_spec 5 y), (Z.eqb_spec y 5); cbn [orb]; rewrite <- (Z.div_unique (w + 5 * p) (p * 10) (if 5 <=? y then x / 10 + 1 else x / 10) (w + 5 * p - p * 10 * (if 5 <=? y then x / 10 + 1 else x / 10)));
      try (destruct (Z.leb_spec 5 y); nia).
  - rewrite decide_False by done. rewrite bool_decide_false by done. change (10 =? 5) with false. cbn [andb orb]. rewrite orb_false_r.
    rewrite (proj2 (Z.ltb_ge _ _)) by lia. rewrite Z.add_0_r, <- Z.div_div by lia. fold x. nia.
Qed.

(** ** The carry *)

Lemma take_S_insert (b : list Z) q a : (q < length b)%nat -> take (S q) (<[q := a]> b) = take q b ++ [a].
Proof. intros H. rewrite (take_S_r (<[q := a]> b) q a) by (by apply list_lookup_insert_eq). by rewrite take_insert_ge by lia. Qed.

Lemma words_take_S (b : list Z) q w : b !! q = Some w -> words (take (S q) b) = words (take q b) * DIG_BASE + w.
Proof. intros H. rewrite (take_S_r b q w H), words_app, words_one. done. Qed.

Lemma round_carry_spec q b :
  (q <= length b)%nat -> Forall word (take q b) ->
  exists stop b', round_carry q b = Some (stop, b') /\ length b' = length b /\ drop q b' = drop q b /\ Forall word (take q b') /\
    match stop with
    | Some p => (p < q)%nat /\ words (take q b') = words (take q b) + 1 /\ take p b' = take p b /\ exists w, b !! p = Some w /\ b' !! p = Some (w + 1)
    | None => words (take q b) + 1 = B q /\ take q b' = replicate q 0
    end.
Proof.
  revert b. induction q as [|q IH]; intros b Hl Hw; cbn [round_carry].
  { exists None, b. rewrite take_0, words_nil, B_0. repeat (split; [done|]). done. }
  destruct (lookup_lt_is_Some_2 b q ltac:(lia)) as [w Eb]. rewrite Eb. cbn [mbind option_bind].
  rewrite (take_S_r b q w Eb) in Hw. apply Forall_app in Hw as [Hw Hw1]. apply list.Forall_cons in Hw1 as [Hw1 _].
  unfold ADD. rewrite Z.add_0_r. destruct (Z.leb_spec DIG_BASE (w + 1)) as [Hc|Hc].
  - assert (Ew : w + 1 = DIG_BASE) by (destruct Hw1; lia). change (1 =? 0) with false. cbv iota. rewrite Ew, Z.sub_diag.
    destruct (IH (<[q := 0]> b)) as (stop & b' & -> & Lb & Db & Wb & Hs); [rewrite length_insert; lia|by rewrite take_insert_ge by lia|].
    assert (Eq : b' !! q = Some 0).
    { rewrite <- (Nat.add_0_r q), <- lookup_drop, Db, lookup_drop, Nat.add_0_r. apply list_lookup_insert_eq. lia. }
    exists stop, b'. split; [done|]. split; [by rewrite Lb, length_insert|].
    split; [rewrite <- (Nat.add_1_r q), <- !drop_drop, Db, !drop_drop; apply drop_insert_lt; lia|].
    split; [rewrite (take_S_r b' q 0 Eq); apply Forall_app; split; [done|by apply list.Forall_singleton, word_0]|].
    rewrite (words_take_S b q w Eb), (words_take_S b' q 0 Eq). rewrite take_insert_ge in Hs by lia. destruct stop as [p|].
    + destruct Hs as (Hp & V & T & w0 & E1 & E2). split; [lia|]. split; [lia|]. rewrite take_insert_ge in T by lia. split; [done|].
      exists w0. rewrite list_lookup_insert_ne in E1 by lia. done.
    + destruct Hs as (V & T). rewrite B_S. split; [lia|]. rewrite (take_S_r b' q 0 Eq), T. by rewrite <- Nat.add_1_r, replicate_add.
  - change (0 =? 0) with true. cbv iota. exists (Some q), (<[q := w + 1]> b). split; [done|]. split; [apply length_insert|].
    split; [apply drop_insert_lt; lia|]. rewrite take_S_insert by lia. split; [apply Forall_app; split; [done|apply list.Forall_singleton; destruct Hw1; split; lia]|].
    split; [lia|]. rewrite words_app, words_one, (words_take_S b q w Eb). change (B (length [w + 1])) with DIG_BASE. split; [lia|].
    split; [apply take_insert_ge; lia|]. exists w. split; [done|]. apply list_lookup_insert_eq. lia.
Qed.

Lemma last_nonzero_spec n b :
  (n <= length b)%nat ->
  (last_nonzero n b = Some None /\ take n b = replicate n 0) \/
  exists p, last_nonzero n b = Some (Some p) /\ (p < n)%nat /\ exists w, b !! p = Some w /\ w <> 0.
Proof.
  induction n as [|n IH]; intros Hl; cbn [last_nonzero]; [by left|].
  destruct (lookup_lt_is_Some_2 b n ltac:(lia)) as [w Eb]. rewrite Eb. cbn [mbind option_bind].
  destruct (Z.eqb_spec w 0) as [->|Hw].
  - destruct (IH ltac:(lia)) as [[-> T]|(p & -> & Hp & H)]; [left|right; exists p; split; [done|]; split; [lia|done]].
    split; [done|]. rewrite (take_S_r b n 0 Eb), T. by rewrite <- Nat.add_1_r, replicate_add.
  - right. exists n. split; [done|]. split; [lia|]. by exists w.
Qed.

(** ** The end of the function *)

Lemma ROUND_UP_next_digit n : (n mod DIG_PER_DEC1 <> 0)%nat -> ROUND_UP (S n) = ROUND_UP n.
Proof.
  intros H. pose proof (ROUND_UP_spec n). pose proof (ROUND_UP_spec (S n)). change DIG_PER_DEC1 with 9%nat in *.
  pose proof (Nat.div_mod_eq n 9). pose proof (Nat.mod_upper_bound n 9). lia.
Qed.

Lemma fill_zero_spec i j b :
  (j <= length b)%nat -> exists b', fill_zero i j b = Some b' /\ length b' = length b /\ take i b' = take i b /\
    forall k, (i <= k <= j)%nat -> take k b' = take i b ++ replicate (k - i) 0.
Proof.
  intros Hj. unfold fill_zero. destruct (Nat.leb_spec j i) as [H|H].
  { exists b. repeat (split; [done|]). intros k Hk. assert (k = i) as -> by lia. by rewrite Nat.sub_diag, app_nil_r. }
  rewrite (proj2 (Nat.leb_le _ _)) by done. eexists. split; [done|]. split; [rewrite !length_app, length_take, length_replicate, length_drop; lia|].
  split; [apply take_app_length'; rewrite length_take; lia|]. intros k Hk.
  rewrite take_app, take_ge by (rewrite length_take; lia). f_equal. rewrite length_take, Nat.min_l by lia.
  rewrite take_app_le by (rewrite length_replicate; lia). rewrite take_replicate. f_equal. lia.
Qed.

Lemma small_power i : (i < 9)%nat -> word (powers10 i).
Proof.
  intros H. pose proof (powers10_pos i). split; [lia|]. change DIG_BASE with (powers10 9). unfold powers10. apply Z.pow_lt_mono_r; lia.
Qed.

(** A word list whose value is that of a first word only. *)
Lemma top_word_only l c : Forall word l -> word c -> (0 < length l)%nat -> words l = c * B (length l - 1) -> l = c :: replicate (length l - 1) 0.
Proof.
  intros Hl Hc H0 E. apply words_inj; [done|constructor; [done|by apply Forall_replicate]|cbn; rewrite length_replicate; lia|].
  rewrite words_cons, words_zeros, length_replicate, E. lia.
Qed.

Section round.
Context (F : nat) (sc f0 : Z).
Context (Hf0 : f0 <= Z.of_nat F) (H9 : 0 <= 9 * f0 - sc <= 8).

Let G : nat := Z.to_nat (Z.max f0 0).
Let fr : nat := Z.to_nat (Z.max sc 0).

Lemma round_frac : ROUND_UP fr = G.
Proof. pose proof (ROUND_UP_spec fr). unfold fr, G in *. lia. Qed.

(** The digits before the point after the check for one more. *)
Definition more_intg (ig : nat) (w : Z) : nat :=
  if negb (ig mod DIG_PER_DEC1 =? 0)%nat && (powers10 (ig mod DIG_PER_DEC1) <=? w) then S ig else ig.

Lemma more_intg_words ig w : ROUND_UP (more_intg ig w) = ROUND_UP ig.
Proof.
  unfold more_intg. destruct (Nat.eqb_spec (ig mod DIG_PER_DEC1) 0); [done|]. cbn [negb andb]. destruct (_ <=? w); [|done]. by apply ROUND_UP_next_digit.
Qed.

Lemma round_done_spec err q to w :
  let I := IW to in
  let K := words (take (Z.to_nat (Z.of_nat I + f0)) (buf to)) in
  0 < Z.of_nat I + f0 -> (I + F <= len to)%nat -> buf to !! q = Some w -> (q < Z.to_nat (Z.of_nat I + f0))%nat ->
  Forall word (take (Z.to_nat (Z.of_nat I + f0)) (buf to)) -> (powers10 (Z.to_nat (9 * f0 - sc)) | K) ->
  K * B (Z.to_nat (Z.of_nat G - f0)) < powers10 (more_intg (intg to) w) * B G ->
  exists r, round_done (Z.of_nat I) f0 (Z.of_nat F) sc err q to = Some (err, r) /\
    wf r /\ frac r = fr /\ sign r = sign to /\ len r = len to /\ magnitude F r = K * B (Z.to_nat (Z.of_nat F - f0)).
Proof.
  intros I K Hpos Hlen Hq Hqn Hw Hdiv Hlt. unfold round_done, len in *. set (n := Z.to_nat (Z.of_nat I + f0)) in *.
  assert (Eix : (if (sc =? 0) && (Z.of_nat I =? 0) then 1%nat else n) = n) by (destruct (Z.eqb_spec sc 0), (Z.eqb_spec (Z.of_nat I) 0); cbn [andb]; lia).
  rewrite Eix. clear Eix.
  assert (Hb : exists b, (if f0 <? Z.of_nat F then fill_zero n (length (buf to)) (buf to) else Some (buf to)) = Some b /\ length b = length (buf to) /\
    take n b = take n (buf to) /\ take (I + G) b = take n (buf to) ++ replicate (I + G - n) 0).
  { destruct (Z.ltb_spec f0 (Z.of_nat F)) as [H|H].
    - destruct (fill_zero_spec n (length (buf to)) (buf to) ltac:(lia)) as (b & E & Lb & Tb & Tk). exists b. split; [done|]. split; [done|]. split; [done|]. apply Tk. unfold G. lia.
    - exists (buf to). repeat (split; [done|]). replace (I + G)%nat with n by (unfold G; lia). by rewrite Nat.sub_diag, app_nil_r. }
  destruct Hb as (b & -> & Lb & Tn & TG). cbn [mbind option_bind].
  assert (Hbq : b !! q = Some w) by (rewrite <- (lookup_take_lt b n q) by lia; rewrite Tn, lookup_take_lt by lia; exact Hq).
  set (ig := intg to) in *. assert (Ew : exists w', (if (ig mod DIG_PER_DEC1 =? 0)%nat then Some 0 else b !! q) = Some w' /\
    (if negb (ig mod DIG_PER_DEC1 =? 0)%nat && (powers10 (ig mod DIG_PER_DEC1) <=? w') then S ig else ig) = more_intg ig w).
  { rewrite Hbq. unfold more_intg. destruct (ig mod DIG_PER_DEC1 =? 0)%nat; by eexists. }
  destruct Ew as (w' & -> & Em). cbn [mbind option_bind]. rewrite Em. fold fr. eexists. split; [done|].
  pose proof round_frac as EG. set (l := take (I + G) b) in *. assert (Hn : (n <= I + G)%nat) by (unfold G; lia).
  assert (Ln : length (take n (buf to)) = n) by (rewrite length_take; unfold G in *; lia).
  assert (Ll : length l = (I + G)%nat) by (unfold l; rewrite length_take; unfold G in *; lia).
  assert (EI : ROUND_UP (more_intg ig w) = I) by apply more_intg_words.
  assert (Vl : words l = K * B (Z.to_nat (Z.of_nat G - f0))).
  { rewrite TG, words_app, words_zeros, length_replicate, Z.add_0_r. do 2 f_equal. unfold G in *. lia. }
  destruct (digits_result (more_intg ig w) fr (sign to) l (mk_dec 0 0 false b)) as [Hwf Hval]; rewrite ?EG, ?EI, ?Vl; try done.
  - rewrite TG. apply Forall_app. split; [done|by apply Forall_replicate].
  - unfold len. cbn [buf]. rewrite Ll. unfold G. lia.
  - pose proof (ROUND_UP_spec (more_intg ig w)). rewrite EI in *. pose proof (ROUND_UP_spec fr). rewrite EG in *. unfold G in *. lia.
  - apply Z.divide_mul_l. eapply Z.divide_trans; [|exact Hdiv]. apply powers10_divide. unfold G, fr. lia.
  - assert (Eb : overwrite l b = b) by (unfold overwrite; rewrite Ll; apply take_drop). cbn [buf] in Hwf, Hval. rewrite Eb in Hwf, Hval.
    split; [done|]. split; [done|]. split; [done|]. split; [done|]. set (r := mk_dec _ _ _ _) in *. assert (HF : FW r = G) by exact EG.
    rewrite (magnitude_exact F r) by (rewrite HF; unfold G; lia). rewrite Hval, Vl, HF, <- Z.mul_assoc, <- B_add. do 2 f_equal. unfold G. lia.
Qed.
(** The check for one more digit is enough. *)
Lemma more_intg_enough ig l p w :
  Forall word l -> Z.of_nat (length l) = Z.of_nat (ROUND_UP ig) + f0 -> l !! p = Some w -> 0 < w ->
  words l * B (Z.to_nat (Z.of_nat G - f0)) <= powers10 ig * B G ->
  words l * B (Z.to_nat (Z.of_nat G - f0)) < powers10 (more_intg ig w) * B G.
Proof.
  intros Hl Ln Hp Hw Hle. pose proof (B_pos G) as HG. set (g := Z.to_nat (Z.of_nat G - f0)) in *. pose proof (B_pos g) as Hg.
  assert (Hmono : powers10 ig <= powers10 (more_intg ig w)) by (apply powers10_le; unfold more_intg; destruct (_ && _); lia).
  destruct (Z.le_lteq (words l * B g) (powers10 ig * B G)) as [[Hlt|Heq] _]; [done|nia|].
  pose proof (ROUND_UP_spec ig) as Hru. pose proof (words_bound l Hl) as Hb. pose proof (lookup_lt_Some _ _ _ Hp) as Hpl.
  pose proof (Nat.div_mod_eq ig 9) as Hdm. pose proof (Nat.mod_upper_bound ig 9 ltac:(lia)) as Hm9. unfold more_intg. change DIG_PER_DEC1 with 9%nat.
  set (fd := (ig mod 9)%nat) in *. destruct (Nat.eqb_spec fd 0) as [E0|E0]; cbn [negb andb].
  - exfalso. replace ig with (9 * ROUND_UP ig)%nat in Heq at 1 by lia. rewrite <- powers10_B, <- B_add in Heq.
    replace (ROUND_UP ig + G)%nat with (length l + g)%nat in Heq by (unfold g, G in *; lia). rewrite B_add in Heq. nia.
  - assert (Hv : words l = powers10 fd * B (length l - 1)).
    { replace (powers10 ig) with (powers10 fd * B (ROUND_UP ig - 1)) in Heq by (rewrite powers10_B, <- powers10_add; f_equal; lia).
      rewrite <- Z.mul_assoc, <- B_add in Heq. replace (ROUND_UP ig - 1 + G)%nat with (length l - 1 + g)%nat in Heq by (unfold g, G in *; lia).
      rewrite B_add in Heq. nia. }
    apply top_word_only in Hv; [|done|apply small_power; lia|lia]. rewrite Hv in Hp. destruct p as [|p].
    + injection Hp as <-. rewrite (proj2 (Z.leb_le _ _)) by lia. rewrite Heq. apply Z.mul_lt_mono_pos_r; [done|].
      change (S ig) with (1 + ig)%nat. rewrite powers10_add. change (powers10 1) with 10. pose proof (powers10_pos ig). lia.
    + cbn in Hp. apply lookup_replicate in Hp as [-> _]. lia.
Qed.

(** The carry out of the first word. *)
Lemma carry_out_spec to b :
  let I := IW to in let n := Z.to_nat (Z.of_nat I + f0) in let m := Z.to_nat (Z.of_nat I + Z.max f0 0) in
  0 <= Z.of_nat I + f0 -> (Z.of_nat I + f0 = 0 -> sc = 9 * f0) -> (I + F < len to)%nat -> length b = len to -> take n b = replicate n 0 ->
  B n * B (Z.to_nat (Z.of_nat G - f0)) <= powers10 (intg to) * B G ->
  exists r, round_done (Z.of_nat I + 1) f0 (Z.of_nat F) sc E_DEC_OK 0 (mk_dec (S (intg to)) (frac to) (sign to) (1 :: take m b ++ drop (S m) b)) = Some (E_DEC_OK, r) /\
    wf r /\ frac r = fr /\ sign r = sign to /\ len r = len to /\ magnitude F r = B n * B (Z.to_nat (Z.of_nat F - f0)).
Proof.
  intros I n m Hn Hn0 Hlen Lb Tb Hle. pose proof (ROUND_UP_spec (intg to)) as Hru. fold (IW to) in Hru. fold I in Hru.
  set (to2 := mk_dec _ _ _ _). pose proof (B_pos G) as HG.
  assert (Hig : intg to = (9 * I)%nat).
  { rewrite <- B_add in Hle. replace (n + Z.to_nat (Z.of_nat G - f0))%nat with (I + G)%nat in Hle by (unfold n, G; lia). rewrite B_add in Hle.
    apply Z.mul_le_mono_pos_r in Hle; [|done]. rewrite powers10_B in Hle. unfold powers10 in Hle. apply Z.pow_le_mono_r_iff in Hle; lia. }
  assert (HI2 : IW to2 = S I) by (unfold IW; cbn [intg to2]; pose proof (ROUND_UP_spec (S (intg to))); lia).
  assert (Emore : more_intg (intg to2) 1 = S (intg to)).
  { unfold more_intg, to2. cbn [intg]. change DIG_PER_DEC1 with 9%nat. replace (S (intg to) mod 9)%nat with 1%nat; [done|].
    pose proof (Nat.div_mod_eq (S (intg to)) 9). pose proof (Nat.mod_upper_bound (S (intg to)) 9). lia. }
  assert (Tn : take (Z.to_nat (Z.of_nat (S I) + f0)) (buf to2) = 1 :: replicate n 0).
  { replace (Z.to_nat (Z.of_nat (S I) + f0)) with (S n) by (unfold n; lia). unfold to2. cbn [buf take]. f_equal.
    rewrite take_app_le by (rewrite length_take, Lb; unfold m, n, len in *; lia). rewrite take_take, Nat.min_l by (unfold n, m; lia). exact Tb. }
  destruct (round_done_spec E_DEC_OK 0 to2 1) as (r & E & Hwf & Hfr & Hs & Hl & Hm); rewrite ?HI2, ?Tn, ?Emore; try done.
  - lia.
  - unfold len, to2. cbn [buf length]. rewrite length_app, length_take, length_drop, Lb. unfold m, len in *. lia.
  - lia.
  - constructor; [apply (small_power 0); lia|by apply Forall_replicate].
  - rewrite words_cons, words_zeros, length_replicate, Z.mul_1_l, Z.add_0_r, powers10_B. apply powers10_divide. unfold n. lia.
  - rewrite words_cons, words_zeros, length_replicate, Z.mul_1_l, Z.add_0_r. eapply Z.le_lt_trans; [exact Hle|]. apply Z.mul_lt_mono_pos_r; [done|].
    change (S (intg to)) with (1 + intg to)%nat. rewrite powers10_add. change (powers10 1) with 10. pose proof (powers10_pos (intg to)). lia.
  - rewrite HI2 in E, Hm. rewrite Tn in Hm. replace (Z.of_nat (S I)) with (Z.of_nat I + 1) in E by lia. exists r. split; [done|]. split; [done|]. split; [done|]. split; [done|].
    split; [rewrite Hl; unfold len, to2; cbn [buf length]; rewrite length_app, length_take, length_drop, Lb; unfold m, len in *; lia|].
    rewrite Hm, words_cons, words_zeros, length_replicate. lia.
Qed.
(** What is known of the result: [K] in the words up to that of the last digit. *)
Record round_ok (to : decimal_t) (K : Z) (r : decimal_t) : Prop := mk_round_ok {
  ro_wf : wf r;
  ro_frac : frac r = fr;
  ro_sign : sign r = sign to \/ magnitude F r = 0;
  ro_len : len r = len to;
  ro_value : magnitude F r = K * B (Z.to_nat (Z.of_nat F - f0))
}.

Lemma round_zero_spec to q :
  Z.of_nat q + 1 = Z.of_nat (IW to) + f0 -> (IW to + F < len to)%nat -> take (S q) (buf to) = replicate (S q) 0 ->
  exists b, fill_zero 0 (Z.to_nat (f0 + 1)) (buf to) = Some b /\ round_ok to 0 (mk_dec 1 fr false b).
Proof.
  intros Hq Hlen T0. unfold len in *. destruct (fill_zero_spec 0 (Z.to_nat (f0 + 1)) (buf to) ltac:(lia)) as (b & E & Lb & _ & Tk). exists b. split; [done|].
  assert (Tb : take (1 + G) b = replicate (1 + G) 0).
  { destruct (Z.lt_ge_cases f0 0) as [Hf|Hf].
    - replace (Z.to_nat (f0 + 1)) with 0%nat in E by lia. injection E as <-. replace (1 + G)%nat with (Nat.min 1 (S q)) by (unfold G; lia).
      rewrite <- take_take, T0, take_replicate. f_equal; lia.
    - rewrite Tk by (unfold G; lia). by rewrite take_0, Nat.sub_0_r. }
  pose proof round_frac as EG. destruct (digits_result 1 fr false (replicate (1 + G) 0) (mk_dec 0 0 false b)) as [Hwf Hval];
    rewrite ?EG, ?words_zeros, ?length_replicate; try done.
  - by apply Forall_replicate.
  - unfold len. cbn [buf]. rewrite Lb. unfold G. lia.
  - lia.
  - apply Z.divide_0_r.
  - pose proof (B_pos G). change (powers10 1) with 10. lia.
  - assert (Eb : overwrite (replicate (1 + G) 0) b = b) by (unfold overwrite; rewrite length_replicate, <- Tb; apply take_drop).
    cbn [buf] in Hwf, Hval. rewrite Eb in Hwf, Hval. set (r := mk_dec _ _ _ _) in *. assert (HF : FW r = G) by exact EG.
    assert (Hz : magnitude F r = 0) by (rewrite magnitude_exact by (rewrite HF; unfold G; lia); by rewrite Hval, words_zeros).
    constructor; [done|done|by right|exact Lb|by rewrite Hz].
Qed.

(** The carry ended at [p], or there was none and [p] is the last word that is
    not zero. *)
Lemma round_stop_spec to b p w :
  let n := Z.to_nat (Z.of_nat (IW to) + f0) in let K := words (take n b) in
  0 < Z.of_nat (IW to) + f0 -> (IW to + F < len to)%nat -> length b = len to -> Forall word (take n b) ->
  (p < n)%nat -> b !! p = Some w -> 0 < w -> (powers10 (Z.to_nat (9 * f0 - sc)) | K) ->
  K * B (Z.to_nat (Z.of_nat G - f0)) <= powers10 (intg to) * B G ->
  exists r, round_done (Z.of_nat (IW to)) f0 (Z.of_nat F) sc E_DEC_OK p (mk_dec (intg to) (frac to) (sign to) b) = Some (E_DEC_OK, r) /\ round_ok to K r.
Proof.
  intros n K Hn Hlen Lb Hw Hp Ep Hwp Hdiv Hle. unfold len in *.
  destruct (round_done_spec E_DEC_OK p (mk_dec (intg to) (frac to) (sign to) b) w) as (r & E & Hwf & Hfr & Hs & Hl & Hm); try done.
  - unfold len. cbn [buf]. change (IW _) with (IW to). lia.
  - cbn [buf intg]. change (IW (mk_dec _ _ _ _)) with (IW to). fold n. apply (more_intg_enough _ _ p); try done.
    + rewrite length_take. fold (IW to). unfold n. lia.
    + by rewrite lookup_take_lt.
  - exists r. split; [exact E|]. constructor; [done|done|by left| |exact Hm]. rewrite Hl. exact Lb.
Qed.

Lemma round_normalize_spec to q w :
  let K := words (take q (buf to)) * DIG_BASE + w in
  Z.of_nat q + 1 = Z.of_nat (IW to) + f0 -> (IW to + F < len to)%nat -> buf to !! q = Some w -> 0 <= w <= DIG_BASE ->
  Forall word (take q (buf to)) -> (powers10 (Z.to_nat (9 * f0 - sc)) | K) ->
  K * B (Z.to_nat (Z.of_nat G - f0)) <= powers10 (intg to) * B G ->
  exists r, round_normalize (Z.of_nat (IW to)) f0 (Z.of_nat F) sc E_DEC_OK q to = Some (E_DEC_OK, r) /\ round_ok to K r.
Proof.
  intros K Hq Hlen Ew Hw Hws Hdiv Hle. unfold round_normalize. rewrite Ew. cbn [mbind option_bind].
  assert (Hql : (q < length (buf to))%nat) by (by apply lookup_lt_Some in Ew).
  assert (En : Z.to_nat (Z.of_nat (IW to) + f0) = S q) by lia.
  destruct (Z.leb_spec DIG_BASE w) as [Hc|Hc].
  - assert (w = DIG_BASE) as -> by lia. rewrite Z.sub_diag. set (b0 := <[q := 0]> (buf to)).
    destruct (round_carry_spec q b0) as (stop & b' & -> & Lb & Db & Wb & Hs); [unfold b0; rewrite length_insert; lia|unfold b0; by rewrite take_insert_ge by lia|].
    cbn [mbind option_bind]. unfold b0 in Lb, Hs. rewrite length_insert in Lb. rewrite take_insert_ge in Hs by lia.
    assert (Eq : b' !! q = Some 0).
    { rewrite <- (Nat.add_0_r q), <- lookup_drop, Db, lookup_drop, Nat.add_0_r. apply list_lookup_insert_eq. lia. }
    assert (Ts : words (take (S q) b') = words (take q b') * DIG_BASE) by (rewrite (words_take_S b' q 0 Eq); lia).
    destruct stop as [p|].
    + destruct Hs as (Hp & V & _ & w0 & E0 & E1). rewrite <- En in Ts. assert (EK : words (take (Z.to_nat (Z.of_nat (IW to) + f0)) b') = K) by (rewrite Ts, V; unfold K; ring).
      rewrite <- EK in *. apply (round_stop_spec to b' p (w0 + 1)); try done; try lia.
      * rewrite En, (take_S_r b' q 0 Eq). apply Forall_app. split; [done|]. by apply list.Forall_singleton, word_0.
      * rewrite list_lookup_insert_ne in E0 by lia. rewrite <- (lookup_take_lt _ q) in E0 by lia. pose proof (Forall_lookup_1 _ _ _ _ Hws E0) as Hw0. destruct Hw0. lia.
    + destruct Hs as (V & T). assert (EK : K = B (S q)) by (unfold K; rewrite B_S; lia).
      rewrite (proj2 (Z.leb_gt _ _)) by lia. rewrite (proj2 (Nat.ltb_lt _ _)) by lia. rewrite EK in *. rewrite <- En in *.
      destruct (carry_out_spec to b') as (r & E & Hwf & Hfr & Hs & Hl & Hm); try done; try lia.
      * rewrite En. rewrite (take_S_r b' q 0 Eq), T. by rewrite <- Nat.add_1_r, replicate_add.
      * exists r. split; [exact E|]. constructor; [done|done|by left|done|done].
  - destruct (last_nonzero_spec (S q) (buf to) ltac:(lia)) as [[-> T0]|(p & -> & Hp & wp & Ep & Hwp)]; cbn [mbind option_bind].
    + destruct (round_zero_spec to q Hq Hlen T0) as (b & -> & Hr). cbn [mbind option_bind]. eexists. split; [done|].
      replace K with 0; [done|]. unfold K. rewrite <- (words_take_S _ _ _ Ew), T0. by rewrite words_zeros.
    + assert (EK : K = words (take (S q) (buf to))) by (unfold K; by rewrite (words_take_S _ _ _ Ew)). rewrite EK in *. rewrite <- En in *.
      assert (Hall : Forall word (take (S q) (buf to))) by (rewrite (take_S_r _ _ _ Ew); apply Forall_app; split; [done|apply list.Forall_singleton; split; lia]).
      replace to with (mk_dec (intg to) (frac to) (sign to) (buf to)) at 2 by (by destruct to).
      apply (round_stop_spec to (buf to) p wp); try done; try lia; [by rewrite En|].
      rewrite <- (lookup_take_lt _ (S q)) in Ep by lia. pose proof (Forall_lookup_1 _ _ _ _ Hall Ep) as [? _]. lia.
Qed.
(** Whether the number that ends with a word is increased. *)
Lemma round_up_word_spec mode n0 n1 b w :
  simple_mode mode -> b !! n0 = Some w ->
  round_up_word mode (round_digit_of mode false) n0 n1 b = Some (if decide (mode = HALF_UP) then 5 <=? w / DIG_MASK else false).
Proof.
  intros Hm Hb. unfold round_up_word. destruct Hm; cbn [round_digit_of].
  - change (5 =? 0) with false. change (5 =? 5) with true. rewrite Hb. cbn [mbind option_bind]. rewrite bool_decide_true, decide_True by done.
    destruct (Z.ltb_spec 5 (w / DIG_MASK)), (Z.eqb_spec (w / DIG_MASK) 5), (Z.leb_spec 5 (w / DIG_MASK)); done || lia.
  - done.
Qed.

Lemma rounded_words mode K w rest :
  word w -> Forall word rest ->
  rounded mode (K * B (S (length rest)) + words (w :: rest)) (B (S (length rest))) =
  (K + (if (if decide (mode = HALF_UP) then 5 <=? w / DIG_MASK else false) then 1 else 0)) * B (S (length rest)).
Proof.
  intros Hw Hr. pose proof (words_bound (w :: rest) ltac:(by constructor)) as Hb. cbn [length] in Hb. pose proof (words_bound rest Hr) as Hb'. rewrite words_cons in *.
  unfold rounded, half. pose proof (B_pos (length rest)) as HB. rewrite B_S in *. set (v := B (length rest)) in *. unfold word, DIG_MASK, DIG_BASE in *. f_equal.
  rewrite <- Z.add_assoc, Z.div_add_l by lia. f_equal. destruct (decide _); [|apply Z.div_small; lia].
  replace (1000000000 * v / 2) with (500000000 * v) by (rewrite <- (Z.div_mul (500000000 * v) 2) by lia; f_equal; lia).
  pose proof (Z.div_mod w 100000000 ltac:(lia)). pose proof (Z.mod_pos_bound w 100000000 ltac:(lia)).
  destruct (Z.leb_spec 5 (w / 100000000)); [symmetry; apply (Z.div_unique _ _ _ (w * v + words rest + 500000000 * v - 1000000000 * v)); [left|]; nia|apply Z.div_small; nia].
Qed.
(** The number in the buffer is less than [10^intg]. *)
Context (to : decimal_t).
Let I : nat := IW to.
Let x : Z := words (take (I + F) (buf to)).
Context (Hlen : (I + F < len to)%nat) (Hws : Forall word (take (I + F) (buf to))).
Context (Hx : x < powers10 (intg to) * B F) (Hsc : 0 <= sc + Z.of_nat (intg to)).

Lemma kept_bound mode K :
  rounded mode x (powers10 (Z.to_nat (9 * Z.of_nat F - sc))) = K * B (Z.to_nat (Z.of_nat F - f0)) ->
  K * B (Z.to_nat (Z.of_nat G - f0)) <= powers10 (intg to) * B G.
Proof.
  intros E. assert (Hle : K * B (Z.to_nat (Z.of_nat F - f0)) <= powers10 (intg to) * B F).
  { rewrite <- E. apply rounded_le; [apply powers10_pos| |done]. rewrite powers10_B, <- powers10_add. apply powers10_divide. lia. }
  assert (HG : (G <= F)%nat) by (unfold G; lia). replace (Z.to_nat (Z.of_nat F - f0)) with (Z.to_nat (Z.of_nat G - f0) + (F - G))%nat in Hle by (unfold G; lia).
  replace F with (G + (F - G))%nat in Hle at 2 by lia. rewrite !B_add, !Z.mul_assoc in Hle. apply Z.mul_le_mono_pos_r in Hle; [done|apply B_pos].
Qed.

(** A number less than the unit becomes one unit. *)
Lemma round_full_carry :
  Z.of_nat I + f0 = 0 -> sc = 9 * f0 -> 1 * B (Z.to_nat (Z.of_nat G - f0)) <= powers10 (intg to) * B G ->
  exists r, (b ← (if (0 <? len to)%nat then Some (<[0%nat := DIG_BASE]> (buf to)) else None);
      round_normalize (Z.of_nat I) f0 (Z.of_nat F) sc E_DEC_OK 0 (mk_dec (intg to) (frac to) (sign to) b)) = Some (E_DEC_OK, r) /\
    wf r /\ frac r = fr /\ (sign r = sign to \/ magnitude F r = 0) /\ len r = len to /\ magnitude F r = 1 * B (Z.to_nat (Z.of_nat F - f0)).
Proof.
  intros Hn Es Hle. pose proof Hlen as Hlen'. rewrite (proj2 (Nat.ltb_lt _ _)) by lia. cbn [mbind option_bind]. unfold round_normalize. cbn [buf].
  unfold len in Hlen'. rewrite list_lookup_insert_eq by lia. cbn [mbind option_bind]. rewrite Z.leb_refl, Z.sub_diag. cbn [round_carry mbind option_bind].
  unfold len at 1 2. cbn [buf]. rewrite length_insert, (proj2 (Z.leb_gt _ _)) by lia. rewrite (proj2 (Nat.ltb_lt _ _)) by lia.
  destruct (carry_out_spec to (<[0%nat := 0]> (<[0%nat := DIG_BASE]> (buf to)))) as (r & E & Hwf & Hfr & Hs & Hl & Hm); try done; try (fold I; lia).
  - by rewrite !length_insert.
  - fold I. by replace (Z.to_nat (Z.of_nat I + f0)) with 0%nat by lia.
  - fold I. replace (Z.to_nat (Z.of_nat I + f0)) with 0%nat by lia. exact Hle.
  - exists r. split; [exact E|]. split; [done|]. split; [done|]. split; [by left|]. split; [done|]. rewrite Hm. fold I. by replace (Z.to_nat (Z.of_nat I + f0)) with 0%nat by lia.
Qed.

Lemma round_at_word mode s :
  simple_mode mode -> sc = 9 * f0 -> f0 < Z.of_nat F -> 0 <= Z.of_nat I + f0 ->
  exists r, round_at mode (round_digit_of mode s) (Z.of_nat I) f0 (Z.of_nat F) sc E_DEC_OK to = Some (E_DEC_OK, r) /\
    wf r /\ frac r = fr /\ (sign r = sign to \/ magnitude F r = 0) /\ len r = len to /\
    magnitude F r = rounded mode x (powers10 (Z.to_nat (9 * Z.of_nat F - sc))).
Proof.
  intros Hm Es Hf Hn. unfold round_at. rewrite (proj2 (Z.ltb_ge _ 0)) by lia. replace (sc =? f0 * 9) with true by (symmetry; apply Z.eqb_eq; lia).
  set (n0 := Z.to_nat (f0 + Z.of_nat I)). assert (Hn0 : (n0 < I + F)%nat) by lia. pose proof Hlen as Hlen'. unfold len in Hlen'.
  destruct (lookup_lt_is_Some_2 (buf to) n0 ltac:(lia)) as [w Ew].
  replace (round_digit_of mode s) with (round_digit_of mode false) by (by destruct Hm).
  rewrite (round_up_word_spec mode n0 _ (buf to) w Hm Ew). cbn [mbind option_bind]. set (inc := if decide _ then _ else _ : bool).
  (* the number rounded *)
  set (rest := drop (S n0) (take (I + F) (buf to))).
  assert (Etake : take (I + F) (buf to) = take n0 (buf to) ++ w :: rest).
  { unfold rest. rewrite <- (take_drop_middle (take (I + F) (buf to)) n0 w) at 1 by (by rewrite lookup_take_lt by lia). rewrite take_take. do 2 f_equal. lia. }
  pose proof Hws as Hws'. rewrite Etake in Hws'. apply Forall_app in Hws' as [Wn Wr]. apply list.Forall_cons in Wr as [Ww Wr].
  assert (Lr : S (length rest) = Z.to_nat (Z.of_nat F - f0)) by (unfold rest; rewrite length_drop, length_take; lia).
  assert (ER : rounded mode x (powers10 (Z.to_nat (9 * Z.of_nat F - sc))) = (words (take n0 (buf to)) + (if inc then 1 else 0)) * B (Z.to_nat (Z.of_nat F - f0))).
  { replace (Z.to_nat (9 * Z.of_nat F - sc)) with (9 * S (length rest))%nat by lia. rewrite <- powers10_B, <- Lr. unfold x. rewrite Etake, words_app. cbn [length].
    apply rounded_words; done. }
  pose proof (kept_bound mode _ ER) as Hle. rewrite ER. clearbody inc. destruct n0 as [|q] eqn:En0.
  - rewrite take_0, words_nil, Z.add_0_l in *. destruct inc.
    + apply round_full_carry; try done; try lia.
    + destruct (make_zero_spec to ltac:(lia)) as (Hwf & Hl & Hs & HF & Hv). eexists. split; [done|]. split; [done|]. split; [cbn; unfold fr; lia|].
      split; [right; apply Hv|]. split; [done|]. by rewrite Hv.
  - clear w Ew Etake Ww. destruct (lookup_lt_is_Some_2 (buf to) q ltac:(lia)) as [w Ew]. rewrite Ew. cbn [mbind option_bind].
    rewrite (words_take_S _ _ _ Ew), <- Z.add_assoc in *. rewrite (take_S_r _ _ _ Ew) in Wn. apply Forall_app in Wn as [Wq Ww]. apply list.Forall_cons in Ww as [[Hw0 Hw1] _].
    set (to' := if inc then _ else to).
    assert (Eb : buf to' !! q = Some (w + (if inc then 1 else 0)) /\ take q (buf to') = take q (buf to) /\ length (buf to') = length (buf to) /\ IW to' = IW to /\
      intg to' = intg to /\ sign to' = sign to).
    { unfold to'. destruct inc; cbn [buf intg sign]; [|rewrite Z.add_0_r; done]. split; [apply list_lookup_insert_eq; lia|]. split; [apply take_insert_ge; lia|].
      by rewrite length_insert. }
    destruct Eb as (E1 & E2 & E3 & E4 & E5 & E6). clearbody to'. unfold I. rewrite <- E4.
    destruct (round_normalize_spec to' q (w + (if inc then 1 else 0))) as (r & E & [R1 R2 R3 R4 R5]); rewrite ?E2, ?E4, ?E5; try done.
    + fold I. lia.
    + unfold len. rewrite E3. exact Hlen.
    + destruct inc; lia.
    + replace (Z.to_nat (9 * f0 - sc)) with 0%nat by lia. apply Z.divide_1_l.
    + exists r. split; [by rewrite <- E4|]. split; [done|]. split; [done|]. split; [by rewrite <- E6|]. split; [rewrite R4; exact E3|]. by rewrite R5, E2.
Qed.
Lemma round_at_digit mode s :
  simple_mode mode -> sc <> 9 * f0 -> 0 < Z.of_nat I + f0 ->
  exists r, round_at mode (round_digit_of mode s) (Z.of_nat I) f0 (Z.of_nat F) sc E_DEC_OK to = Some (E_DEC_OK, r) /\
    wf r /\ frac r = fr /\ (sign r = sign to \/ magnitude F r = 0) /\ len r = len to /\
    magnitude F r = rounded mode x (powers10 (Z.to_nat (9 * Z.of_nat F - sc))).
Proof.
  intros Hm Es Hn. unfold round_at. rewrite (proj2 (Z.ltb_ge _ 0)) by lia. replace (sc =? f0 * 9) with false by (symmetry; apply Z.eqb_neq; lia).
  destruct (Z.to_nat (f0 + Z.of_nat I)) as [|q] eqn:En0; [lia|]. pose proof Hlen as Hlen'. unfold len in Hlen'.
  destruct (lookup_lt_is_Some_2 (buf to) q ltac:(lia)) as [w Ew]. rewrite Ew. cbn [mbind option_bind].
  replace (round_digit_of mode s) with (round_digit_of mode false) by (by destruct Hm).
  set (pos := Z.to_nat (f0 * 9 - sc - 1)). set (u := powers10 (S pos)). set (rest := drop (S q) (take (I + F) (buf to))).
  assert (Etake : take (I + F) (buf to) = take q (buf to) ++ w :: rest).
  { unfold rest. rewrite <- (take_drop_middle (take (I + F) (buf to)) q w) at 1 by (by rewrite lookup_take_lt by lia). rewrite take_take. do 2 f_equal. lia. }
  pose proof Hws as Hws'. rewrite Etake in Hws'. apply Forall_app in Hws' as [Wq Wr]. apply list.Forall_cons in Wr as [Ww Wr].
  rewrite round_word_spec by (done || apply Ww). fold u. set (w' := rounded mode w u).
  assert (Lr : length rest = Z.to_nat (Z.of_nat F - f0)) by (unfold rest; rewrite length_drop, length_take; lia).
  assert (Hu : 0 < u /\ Z.even u = true /\ (u | DIG_BASE)).
  { split; [apply powers10_pos|]. split; [unfold u; change (S pos) with (1 + pos)%nat; rewrite powers10_add, Z.even_mul; done|].
    change DIG_BASE with (powers10 9). apply powers10_divide. unfold pos. lia. }
  destruct Hu as (Hu & He & Hdb).
  assert (ER : rounded mode x (powers10 (Z.to_nat (9 * Z.of_nat F - sc))) = (words (take q (buf to)) * DIG_BASE + w') * B (Z.to_nat (Z.of_nat F - f0))).
  { replace (Z.to_nat (9 * Z.of_nat F - sc)) with (S pos + 9 * length rest)%nat by (unfold pos; lia). rewrite powers10_add, <- powers10_B, <- Lr. fold u.
    unfold x. rewrite Etake, words_app, words_cons. cbn [length]. rewrite B_S.
    replace (words (take q (buf to)) * (DIG_BASE * B (length rest)) + (w * B (length rest) + words rest)) with ((words (take q (buf to)) * DIG_BASE + w) * B (length rest) + words rest) by ring.
    rewrite rounded_rest by (done || by apply words_bound). f_equal. apply rounded_add; [done|]. by apply Z.divide_mul_r. }
  pose proof (kept_bound mode _ ER) as Hle. rewrite ER. set (to' := mk_dec _ _ _ _).
  assert (Hw' : 0 <= w' <= DIG_BASE) by (split; [apply rounded_nonneg; [done|apply Ww]|apply rounded_le; [done|done|apply Ww]]).
  assert (Hdiv : (u | words (take q (buf to)) * DIG_BASE + w')) by (apply Z.divide_add_r; [by apply Z.divide_mul_r|unfold w', rounded; by apply Z.divide_mul_r]).
  assert (E2 : take q (buf to') = take q (buf to)) by (unfold to'; cbn [buf]; apply take_insert_ge; lia).
  assert (E3 : length (buf to') = length (buf to)) by (unfold to'; cbn [buf]; apply length_insert).
  assert (E1 : buf to' !! q = Some w') by (apply list_lookup_insert_eq; lia).
  destruct (round_normalize_spec to' q w') as (r & E & [R1 R2 R3 R4 R5]); rewrite ?E2; try done; try (change (IW to') with I).
  + lia.
  + unfold len. rewrite E3. exact Hlen.
  + by replace (Z.to_nat (9 * f0 - sc)) with (S pos) by (unfold pos; lia).
  + exists r. split; [exact E|]. split; [done|]. split; [done|]. split; [done|]. split; [rewrite R4; exact E3|]. by rewrite R5, E2.
Qed.
End round.

(** ** The function *)

(** The number in the buffer of the result. *)
Record same_words (from to : decimal_t) : Prop := mk_same_words {
  sw_words : take (IW from + FW from) (buf to) = take (IW from + FW from) (buf from);
  sw_IW : IW to = IW from;
  sw_intg : (intg from <= intg to)%nat;
  sw_sign : sign to = sign from
}.

Lemma copied_words from to n :
  wf from -> (IW from + FW from <= n <= len from)%nat -> (n <= len to)%nat ->
  exists b, copy_words n (buf from) (buf to) = Some b /\ length b = len to /\
    same_words from (mk_dec (Nat.min (ROUND_UP (intg from)) (len to) * DIG_PER_DEC1) (frac to) (sign from) b).
Proof.
  intros H Hn Hl. unfold copy_words, len in *. rewrite (proj2 (Nat.leb_le _ _)), (proj2 (Nat.leb_le n (length (buf to)))) by lia. cbn [andb].
  assert (Lt : length (take n (buf from)) = n) by (rewrite length_take; lia).
  eexists. split; [done|]. split; [unfold overwrite; rewrite length_app, length_drop, Lt; lia|]. fold (IW from). rewrite Nat.min_l by lia.
  pose proof (ROUND_UP_spec (intg from)) as Hr. fold (IW from) in Hr. constructor; cbn [buf intg sign]; [|apply ROUND_UP_mul|change DIG_PER_DEC1 with 9%nat; lia|done].
  unfold overwrite. rewrite take_app_le by lia. rewrite take_take. f_equal. lia.
Qed.

Lemma same_words_bound from to :
  wf from -> same_words from to ->
  words (take (IW to + FW from) (buf to)) = magnitude (FW from) from /\ magnitude (FW from) from < powers10 (intg to) * B (FW from) /\
  Forall word (take (IW to + FW from) (buf to)).
Proof.
  intros H S. rewrite (sw_IW _ _ S), (sw_words _ _ S). split; [unfold magnitude; by rewrite Nat.min_id, Nat.sub_diag, B_0, Z.mul_1_r|]. split; [|apply (wf_words from H)].
  eapply Z.lt_le_trans; [by apply magnitude_lt|]. apply Z.mul_le_mono_nonneg_r; [pose proof (B_pos (FW from)); lia|]. apply powers10_le, S.
Qed.

(** A number that has not more digits than asked for. *)
Lemma round_longer from to sc b :
  wf from -> same_words from to -> 0 <= sc -> let f := Z.to_nat sc in (frac from <= f)%nat -> (IW from + ROUND_UP f <= len to)%nat -> length b = len to ->
  take (IW from + ROUND_UP f) b = take (IW from + FW from) (buf to) ++ replicate (ROUND_UP f - FW from) 0 ->
  let r := mk_dec (intg to) f (sign to) b in wf r /\ forall n, (ROUND_UP f <= n)%nat -> magnitude n r = magnitude n from.
Proof.
  intros H S Hsc f Hf Hlen Lb Tb r. destruct (same_words_bound from to H S) as (Ew & Hlt & Hws). rewrite (sw_IW _ _ S) in *.
  pose proof (ROUND_UP_le _ _ Hf) as HF. fold (FW from) in HF. unfold len in *.
  assert (Ll : length (take (IW from + ROUND_UP f) b) = (IW from + ROUND_UP f)%nat) by (rewrite length_take; lia).
  assert (Vl : words (take (IW from + ROUND_UP f) b) = magnitude (FW from) from * B (ROUND_UP f - FW from)).
  { rewrite Tb, words_app, words_zeros, length_replicate, Ew. lia. }
  assert (HIr : ROUND_UP (intg to) = IW from) by apply S.
  destruct (digits_result (intg to) f (sign to) (take (IW from + ROUND_UP f) b) (mk_dec 0 0 false b)) as [Hwf Hval]; rewrite ?HIr, ?Vl; try done.
  - rewrite Tb. apply Forall_app. split; [done|by apply Forall_replicate].
  - unfold len. cbn [buf]. lia.
  - pose proof (wf_digits from H). pose proof (sw_intg _ _ S). lia.
  - rewrite <- magnitude_exact by done. eapply Z.divide_trans; [|by apply magnitude_divide]. apply powers10_divide. lia.
  - replace (B (ROUND_UP f)) with (B (FW from) * B (ROUND_UP f - FW from)) by (rewrite <- B_add; f_equal; lia). rewrite Z.mul_assoc. apply Z.mul_lt_mono_pos_r; [apply B_pos|done].
  - assert (Eb : overwrite (take (IW from + ROUND_UP f) b) b = b) by (unfold overwrite; rewrite Ll; apply take_drop). cbn [buf] in Hwf, Hval. rewrite Eb in Hwf, Hval.
    split; [done|]. intros n Hn. assert (HFr : FW r = ROUND_UP f) by done. rewrite (magnitude_exact n r) by (rewrite HFr; lia). fold r in Hval.
    rewrite Hval, Vl, HFr, <- Z.mul_assoc, <- B_add, (magnitude_exact n from) by lia. do 2 f_equal. lia.
Qed.

(** A number below the last digit. *)
Lemma rounded_tiny mode n d sc :
  wf d -> (FW d <= n)%nat -> sc + Z.of_nat (intg d) < 0 -> rounded mode (magnitude n d) (powers10 (Z.to_nat (9 * Z.of_nat n - sc))) = 0.
Proof.
  intros H Hn Hs. pose proof (magnitude_lt n d H Hn) as Hlt. pose proof (magnitude_nonneg n d H) as H0. rewrite powers10_B, <- powers10_add in Hlt.
  set (u := powers10 _). assert (Hu : 10 * powers10 (intg d + 9 * n) <= u).
  { change 10 with (powers10 1). rewrite <- powers10_add. apply powers10_le. lia. }
  pose proof (powers10_pos (intg d + 9 * n)) as Hp. unfold rounded. rewrite Z.div_small; [done|]. unfold half. destruct (decide _); [|lia].
  assert (u / 2 <= u - powers10 (intg d + 9 * n)) by (apply Z.div_le_upper_bound; lia). assert (0 <= u / 2) by (apply Z.div_pos; lia). lia.
Qed.

(** After the words are in place. *)
Lemma round_placed from to sc f0 mode n :
  wf from -> same_words from to -> simple_mode mode -> 0 <= 9 * f0 - sc <= 8 -> (f0 = Z.of_nat (ROUND_UP (Z.to_nat sc)) \/ sc <= 0) ->
  (IW from + Nat.max (FW from) (ROUND_UP (Z.to_nat sc)) < len to)%nat -> 0 <= sc + Z.of_nat (intg from) ->
  (FW from <= n)%nat -> (ROUND_UP (Z.to_nat sc) <= n)%nat ->
  exists r, (if Z.of_nat (FW from) <? f0 then
      b ← fill_zero (Z.to_nat (Z.of_nat (IW from) + Z.of_nat (FW from))) (Z.to_nat (Z.of_nat (IW from) + f0)) (buf to);
      Some (E_DEC_OK, mk_dec (intg to) (Z.to_nat sc) (sign to) b)
    else if Z.of_nat (frac from) <=? sc then Some (E_DEC_OK, set_frac (Z.to_nat sc) to)
    else round_at mode (round_digit_of mode (sign from)) (Z.of_nat (IW from)) f0 (Z.of_nat (FW from)) sc E_DEC_OK to) = Some (E_DEC_OK, r) /\
  wf r /\ frac r = Z.to_nat sc /\ (sign r = sign from \/ magnitude n r = 0) /\
  magnitude n r = rounded mode (magnitude n from) (powers10 (Z.to_nat (9 * Z.of_nat n - sc))).
Proof.
  intros H S Hm H9 Hf0 Hlen Hsc Nf Ns. set (G := ROUND_UP (Z.to_nat sc)) in *. pose proof (ROUND_UP_spec (Z.to_nat sc)) as HG. fold G in HG.
  pose proof (ROUND_UP_spec (frac from)) as HF. fold (FW from) in HF.
  assert (Hexact : (frac from <= Z.to_nat sc)%nat -> 0 <= sc -> rounded mode (magnitude n from) (powers10 (Z.to_nat (9 * Z.of_nat n - sc))) = magnitude n from).
  { intros Hle H0. apply rounded_exact; [apply powers10_pos|]. eapply Z.divide_trans; [|by apply magnitude_divide]. apply powers10_divide. lia. }
  destruct (Z.ltb_spec (Z.of_nat (FW from)) f0) as [H1|H1]; [|destruct (Z.leb_spec (Z.of_nat (frac from)) sc) as [H2|H2]].
  - destruct (fill_zero_spec (Z.to_nat (Z.of_nat (IW from) + Z.of_nat (FW from))) (Z.to_nat (Z.of_nat (IW from) + f0)) (buf to)) as (b & -> & Lb & _ & Tk); [unfold len in *; lia|].
    cbn [mbind option_bind]. eexists. split; [done|].
    destruct (round_longer from to sc b H S) as [Hwf Hv]; try done; try lia.
    { fold G. replace (IW from + G)%nat with (Z.to_nat (Z.of_nat (IW from) + f0)) by lia. rewrite Tk by lia.
      replace (Z.to_nat (Z.of_nat (IW from) + Z.of_nat (FW from))) with (IW from + FW from)%nat by lia. do 2 f_equal. lia. }
    split; [done|]. split; [done|]. split; [left; apply S|]. rewrite Hv by done. symmetry. apply Hexact; lia.
  - eexists. split; [done|]. assert (EG : G = FW from) by lia.
    destruct (round_longer from to sc (buf to) H S) as [Hwf Hv]; try done; try lia.
    { fold G. by rewrite EG, Nat.sub_diag, app_nil_r. }
    split; [done|]. split; [done|]. split; [left; apply S|]. unfold set_frac. rewrite Hv by done. symmetry. apply Hexact; lia.
  - destruct (same_words_bound from to H S) as (Ew & Hlt & Hws). pose proof (sw_IW _ _ S) as EI. pose proof (sw_intg _ _ S) as Hig.
    pose proof (ROUND_UP_spec (intg from)) as HI. fold (IW from) in HI.
    assert (Hat : exists r, round_at mode (round_digit_of mode (sign from)) (Z.of_nat (IW to)) f0 (Z.of_nat (FW from)) sc E_DEC_OK to = Some (E_DEC_OK, r) /\
      wf r /\ frac r = Z.to_nat (Z.max sc 0) /\ (sign r = sign to \/ magnitude (FW from) r = 0) /\ len r = len to /\
      magnitude (FW from) r = rounded mode (words (take (IW to + FW from) (buf to))) (powers10 (Z.to_nat (9 * Z.of_nat (FW from) - sc)))).
    { destruct (Z.eq_dec sc (9 * f0)) as [E|E]; [apply round_at_word|apply round_at_digit]; try done; try lia. }
    destruct Hat as (r & E & Hwf & Hfr & Hs & _ & Hv). rewrite EI in E. exists r. split; [done|]. split; [done|]. split; [rewrite Hfr; lia|].
    assert (HFr : (FW r <= FW from)%nat) by (unfold FW at 1; rewrite Hfr; replace (Z.to_nat (Z.max sc 0)) with (Z.to_nat sc) by lia; fold G; lia).
    assert (Hscale : magnitude n r = magnitude (FW from) r * B (n - FW from)).
    { rewrite (magnitude_exact n r), (magnitude_exact (FW from) r) by lia. rewrite <- Z.mul_assoc, <- B_add. do 2 f_equal. lia. }
    split; [destruct Hs as [-> | Hz]; [left; apply S|right; by rewrite Hscale, Hz]|].
    rewrite Hscale, Hv, Ew, (magnitude_exact n from) by lia. symmetry.
    replace (Z.to_nat (9 * Z.of_nat n - sc)) with (Z.to_nat (9 * Z.of_nat (FW from) - sc) + 9 * (n - FW from))%nat by lia. rewrite powers10_add, <- powers10_B.
    rewrite <- (Z.add_0_r (_ * B (n - FW from))) at 1. apply rounded_rest; [apply powers10_pos| |pose proof (B_pos (n - FW from)); lia].
    replace (Z.to_nat (9 * Z.of_nat (FW from) - sc)) with (1 + (Z.to_nat (9 * Z.of_nat (FW from) - sc) - 1))%nat by lia. by rewrite powers10_add, Z.even_mul.
Qed.

(** C12: [decimal_round] gives the number with [sc] digits after the point (or zeros
    before it), next to the number for HALF_UP, halves away from zero, or
    towards zero for TRUNCATE, when there is room for one more word before the
    point. *)
Theorem decimal_round_correct from to same sc mode n :
  wf from -> simple_mode mode -> (same = true -> to = from) -> len to = len from ->
  (IW from + Nat.max (FW from) (ROUND_UP (Z.to_nat sc)) < len to)%nat -> (FW from <= n)%nat -> (ROUND_UP (Z.to_nat sc) <= n)%nat ->
  exists r, decimal_round from to same sc mode = Some (E_DEC_OK, r) /\ wf r /\ frac r = Z.to_nat sc /\
    value n r = signed (sign from) (rounded mode (magnitude n from) (powers10 (Z.to_nat (9 * Z.of_nat n - sc)))).
Proof.
  intros H Hm Hsame Hll Hlen Nf Ns. unfold decimal_round. fold (FW from) (IW from).
  set (f0 := if 0 <? sc then _ else _). pose proof (ROUND_UP_spec (Z.to_nat sc)) as HG.
  assert (Hf : (f0 = Z.of_nat (ROUND_UP (Z.to_nat sc)) \/ sc <= 0) /\ 0 <= 9 * f0 - sc <= 8 /\ f0 <= Z.of_nat (ROUND_UP (Z.to_nat sc))).
  { unfold f0. destruct (Z.ltb_spec 0 sc); [lia|]. Z.to_euclidean_division_equations; lia. }
  destruct Hf as (Hf0 & H9 & Hf1). clearbody f0. rewrite (proj2 (Z.ltb_ge (Z.of_nat (len to)) _)) by lia.
  destruct (Z.ltb_spec (sc + Z.of_nat (intg from)) 0) as [Ht|Ht].
  { destruct (make_zero_spec to ltac:(lia)) as (Hwf & _ & Hs & _ & Hv). eexists. split; [done|]. split; [done|]. split; [cbn; lia|].
    rewrite rounded_tiny by done. unfold value. rewrite Hv. by destruct (sign from), (sign _). }
  assert (Hto : exists to1, (if same then Some to else b ← copy_words (Z.to_nat (Z.of_nat (IW from) + Z.max (Z.of_nat (FW from)) f0)) (buf from) (buf to);
      Some (mk_dec (Nat.min (IW from) (len to) * DIG_PER_DEC1) (frac to) (sign from) b)) = Some to1 /\ same_words from to1 /\ len to1 = len to).
  { destruct same; [exists to; split; [done|]; rewrite Hsame by done; by repeat split|].
    destruct (copied_words from to (Z.to_nat (Z.of_nat (IW from) + Z.max (Z.of_nat (FW from)) f0)) H) as (b & -> & Lb & S); [lia|lia|]. eexists. by split. }
  destruct Hto as (to1 & -> & S & L1). cbn [mbind option_bind].
  destruct (round_placed from to1 sc f0 mode n H S Hm H9 Hf0) as (r & -> & Hwf & Hfr & Hs & Hv); try done; [by rewrite L1|].
  exists r. split; [done|]. split; [done|]. split; [done|]. rewrite value_signed. rewrite <- Hv. destruct Hs as [-> | ->]; [done|]. by destruct (sign r), (sign from).
Qed.
