(* ===== verification/DecimalStr.v ===== *)
(** * Decimals as text (decimal2string, internal_str2dec of strings/decimal.c)

    A text is the list of its characters; [decimal2string] writes into a buffer
    of which the contents before are given, a write outside of it gives [None].
    [internal_str2dec] reads the characters up to [*end] and returns those from
    the new [*end] on. *)
From Stdlib Require Import ZArith Lia List Bool.
From stdpp Require Import base tactics list option.
From S2P Require Import Prelude StrNum MyTime MyTimeStr Decimal DecimalValue DecimalAdd DecimalSub DecimalMul DecimalInt DecimalBin DecimalBinSpec DecimalBinRead DecimalRound.

Open Scope Z_scope.

(** ** decimal2string *)

(** Digits of a word after the point, from the first. *)
Fixpoint word_chars_up (i : nat) (x : Z) : list Z :=
  match i with
  | O => []
  | S i => let y := x / DIG_MASK in (chr_0 + y mod 256) :: word_chars_up i ((x - y * DIG_MASK) * 10)
  end.

Fixpoint frac_chars (src : list Z) (frac : nat) : option (list Z) :=
  if (frac =? 0)%nat then Some []
  else match src with
       | [] => None
       | x :: src =>
           rest ← frac_chars src (frac - DIG_PER_DEC1);
           Some (word_chars_up (Nat.min frac DIG_PER_DEC1) x ++ rest)
       end.

(** Digits of a word before the point, from the last. *)
Fixpoint word_chars_down (i : nat) (x : Z) : list Z :=
  match i with
  | O => []
  | S i => let y := x / 10 in (chr_0 + (x - y * 10) mod 256) :: word_chars_down i y
  end.

(** [src] are the words from the point down. *)
Fixpoint intg_chars (src : list Z) (intg : nat) : option (list Z) :=
  if (intg =? 0)%nat then Some []
  else match src with
       | [] => None
       | x :: src =>
           rest ← intg_chars src (intg - DIG_PER_DEC1);
           Some (word_chars_down (Nat.min intg DIG_PER_DEC1) x ++ rest)
       end.

(** The characters [l] stored from [pos] on. *)
Definition blit (pos : Z) (l b : list Z) : option (list Z) :=
  if (pos <? 0) || (Z.of_nat (length b) <? pos + Z.of_nat (length l)) then None
  else Some (take (Z.to_nat pos) b ++ l ++ drop (Z.to_nat pos + length l) b).

Definition b2z (b : bool) : Z := if b then 1 else 0.

(** The sizes when the text does not fit into [to_len] characters: error,
    digits before and after the point. *)
Definition cut_to_fit (intg frac len to_len : Z) : Z * Z * Z :=
  let j := len - to_len in
  let error := if negb (frac =? 0) && (j <=? frac + 1) then E_DEC_TRUNCATED else E_DEC_OVERFLOW in
  let j := if negb (frac =? 0) && (frac + 1 <=? j) then j - 1 else j in
  if frac <? j then (error, intg - (j - frac), 0) else (error, intg, frac - j).

(** What is written: [intg] and [frac] digits, [intg_len] and [frac_len] places. *)
Definition put_string (s : bool) (buf0 : list Z) (intg frac intg_len frac_len len filler : Z) (to : list Z) : option (list Z) :=
  to ← blit len [0] to;
  to ← (if s then blit 0 [chr_minus] to else Some to);
  let pos := b2z s in
  to ← (if negb (frac =? 0) then
          if frac_len - frac <? 0 then None
          else
            digits ← frac_chars (drop (Z.to_nat (round_up intg)) buf0) (Z.to_nat frac);
            blit (pos + intg_len) (chr_dot :: digits ++ replicate (Z.to_nat (frac_len - frac)) filler) to
        else Some to);
  let fill := intg_len - intg - b2z (intg =? 0) in
  if fill <? 0 then None
  else
    to ← blit pos (replicate (Z.to_nat fill) filler) to;
    let pos := pos + fill in
    if intg =? 0 then blit pos [chr_0] to
    else if intg <? 0 then Some to
    else
      digits ← intg_chars (rev (take (Z.to_nat (round_up intg)) buf0)) (Z.to_nat intg);
      blit pos (rev digits) to.

(** The error, [*to_len] and the buffer. *)
Definition decimal2string (from : decimal_t) (to : list Z) (to_len fixed_precision fixed_decimals filler : Z) :
  option (Z * Z * list Z) :=
  let fixed := negb (fixed_precision =? 0) in
  let fixed_intg := if fixed then fixed_precision - fixed_decimals else 0 in
  '(n, buf0) ← remove_leading_zeroes from;
  let frac0 := Z.of_nat (frac from) in
  let '(intg0, buf0) := if Z.of_nat n + frac0 =? 0 then (1, [0]) else (Z.of_nat n, buf0) in
  let intg_len := if fixed then fixed_intg else intg0 in
  let intg_len := if intg_len =? 0 then 1 else intg_len in
  let frac_len := if fixed then fixed_decimals else frac0 in
  let size frac_len frac := b2z (sign from) + intg_len + b2z (negb (frac =? 0)) + frac_len in
  let len := size frac_len frac0 in
  let '(error, intg, frac, frac_len, len) :=
    if fixed then
      let '(error, frac) := if fixed_decimals <? frac0 then (E_DEC_TRUNCATED, fixed_decimals) else (E_DEC_OK, frac0) in
      let '(error, intg) := if fixed_intg <? intg0 then (E_DEC_OVERFLOW, fixed_intg) else (error, intg0) in
      (error, intg, frac, frac_len, len)
    else if to_len - 1 <? len then
      let '(error, intg, frac) := cut_to_fit intg0 frac0 len (to_len - 1) in
      (error, intg, frac, frac, size frac frac)
    else (E_DEC_OK, intg0, frac0, frac_len, len) in
  to ← put_string (sign from) buf0 intg frac intg_len frac_len len filler to;
  Some (error, len, to).

(** ** internal_str2dec *)

Definition E_DEC_OOM : Z := 16.

Fixpoint skip_while (p : Z -> bool) (s : list Z) : list Z :=
  match s with c :: s' => if p c then skip_while p s' else s | [] => [] end.

(** Digits before the point: [src] are the characters from the point down. *)
Fixpoint parse_intg (n : nat) (src : list Z) (x : Z) (i : nat) (acc : list Z) : option (list Z) :=
  match n with
  | O => Some (if (i =? 0)%nat then acc else x :: acc)
  | S n =>
      match src with
      | [] => None
      | c :: src =>
          let x := x + (c - chr_0) * powers10 i in
          if (S i =? DIG_PER_DEC1)%nat then parse_intg n src 0 0 (x :: acc) else parse_intg n src x (S i) acc
      end
  end.

Fixpoint parse_frac (n : nat) (src : list Z) (x : Z) (i : nat) : option (list Z) :=
  match n with
  | O => Some (if (i =? 0)%nat then [] else [x * powers10 (DIG_PER_DEC1 - i)])
  | S n =>
      match src with
      | [] => None
      | c :: src =>
          let x := c - chr_0 + x * 10 in
          if (S i =? DIG_PER_DEC1)%nat then rest ← parse_frac n src 0 0; Some (x :: rest) else parse_frac n src x (S i)
      end
  end.

(** The digits that are used, with the words for them and the error; [inr] is
    the fatal error. *)
Definition str2dec_sizes (fixed : bool) (intg0 frac0 : nat) (to : decimal_t) : nat * nat * nat * nat * Z + Z :=
  if fixed then
    let '(error, frac1) := if (frac to <? frac0)%nat then (E_DEC_TRUNCATED, frac to) else (E_DEC_OK, frac0) in
    let '(error, intg1) := if (intg to <? intg0)%nat then (E_DEC_OVERFLOW, intg to) else (error, intg0) in
    if (len to <? ROUND_UP intg1 + ROUND_UP frac1)%nat then inr E_DEC_OOM
    else inl (intg1, frac1, ROUND_UP intg1, ROUND_UP frac1, error)
  else
    let '(intg1, frac1, error) := FIX_INTG_FRAC_ERROR (len to) (ROUND_UP intg0) (ROUND_UP frac0) in
    if error =? E_DEC_OK then inl (intg0, frac0, intg1, frac1, error)
    else inl (if error =? E_DEC_OVERFLOW then (intg1 * DIG_PER_DEC1)%nat else intg0, (frac1 * DIG_PER_DEC1)%nat,
              intg1, frac1, error).

(** The exponent after the digits: the error, the number and the rest. *)
Definition str2dec_exponent (endp : list Z) (error : Z) (to : decimal_t) : option (Z * decimal_t * list Z) :=
  match endp with
  | c :: (_ :: _) as s =>
      if (c =? chr_e) || (c =? chr_E) then
        let '(exponent, rest, str_error) := my_strtoll10 (tail endp) in
        if (length rest =? length (tail endp))%nat then Some (error, to, endp)
        else if 0 <? str_error then Some (E_DEC_BAD_NUM, decimal_make_zero to, rest)
        else if (2 ^ 30 - 1 <? exponent) || ((str_error =? 0) && (exponent <? 0)) then
          Some (E_DEC_OVERFLOW, decimal_make_zero to, rest)
        else if (exponent <? - 2 ^ 30) && negb (error =? E_DEC_OVERFLOW) then
          Some (E_DEC_TRUNCATED, decimal_make_zero to, rest)
        else if error =? E_DEC_OVERFLOW then Some (error, to, rest)
        else '(error, to) ← decimal_shift to exponent; Some (error, to, rest)
      else Some (error, to, endp)
  | _ => Some (error, to, endp)
  end.

(** The words of the digits: [intg_text] before, [frac_text] after the point. *)
Definition str2dec_words (intg_text frac_text : list Z) (sizes : nat * nat * nat * nat * Z) (s : bool) (to : decimal_t) :
  option (Z * decimal_t) :=
  let '(intg1, frac1, intg_words, frac_words, error) := sizes in
  acc ← parse_intg intg1 (rev intg_text) 0 0 [];
  b ← written intg_words acc (buf to);
  l ← parse_frac frac1 frac_text 0 0;
  if (length b <? intg_words + length l)%nat then None
  else Some (error, mk_dec intg1 frac1 s (take intg_words b ++ l ++ drop (intg_words + length l) b)).

Definition clear_zero_sign (to : decimal_t) : decimal_t :=
  if sign to && decimal_is_zero to then mk_dec (intg to) (frac to) false (buf to) else to.

(** The error, the number and the text from [*end] on. *)
Definition internal_str2dec (from : list Z) (to : decimal_t) (fixed : bool) : option (Z * decimal_t * list Z) :=
  match skip_while my_isspace from with
  | [] => Some (E_DEC_BAD_NUM, decimal_make_zero to, [])
  | c :: s =>
      let neg := c =? chr_minus in
      let s1 := if neg || (c =? chr_plus) then s else c :: s in
      let s := skip_while my_isdigit s1 in
      let intg_text := take (length s1 - length s) s1 in
      let '(frac_text, endp) :=
        match s with
        | c :: s' =>
            if c =? chr_dot then
              let endp := skip_while my_isdigit s' in (take (length s' - length endp) s', endp)
            else ([], s)
        | [] => ([], [])
        end in
      if (length frac_text + length intg_text =? 0)%nat then Some (E_DEC_BAD_NUM, decimal_make_zero to, endp)
      else
        match str2dec_sizes fixed (length intg_text) (length frac_text) to with
        | inr error => Some (error, decimal_make_zero to, endp)
        | inl sizes =>
            '(error, to) ← str2dec_words intg_text frac_text sizes neg to;
            '(error, to, rest) ← str2dec_exponent endp error to;
            Some (error, clear_zero_sign to, rest)
        end
  end.

(** ** What is printed *)

(** A digit as a character. *)
Definition text_of (ds : list Z) : list Z := map (fun d => chr_0 + d) ds.

Lemma text_of_app l1 l2 : text_of (l1 ++ l2) = text_of l1 ++ text_of l2.
Proof. apply map_app. Qed.

Lemma text_of_cons d l : text_of (d :: l) = (chr_0 + d) :: text_of l.
Proof. done. Qed.

Lemma text_of_length l : length (text_of l) = length l.
Proof. apply map_length. Qed.

Lemma radix_text_snoc ds d : radix 10 (ds ++ [d]) = radix 10 ds * 10 + d.
Proof. rewrite radix_app. cbn [length]. change (10 ^ Z.of_nat 1) with 10. unfold radix at 2. cbn. lia. Qed.

Lemma word_chars_down_spec i x :
  0 <= x -> exists ds, word_chars_down i x = rev (text_of ds) /\ length ds = i /\ digits 10 ds /\ radix 10 ds = x mod powers10 i.
Proof.
  revert x. induction i as [|i IH]; intros x Hx; cbn [word_chars_down].
  { exists []. rewrite Z.mod_1_r. repeat split; constructor. }
  destruct (IH (x / 10)) as (ds & -> & L & D & R); [apply Z.div_pos; lia|].
  exists (ds ++ [x mod 10]). rewrite text_of_app, rev_app_distr, length_app. cbn [text_of map rev app length].
  assert (E : (x - x / 10 * 10) mod 256 = x mod 10) by divlia. rewrite E. split; [done|]. split; [lia|].
  split; [apply Forall_app; split; [done|repeat constructor; divlia]|].
  rewrite radix_text_snoc, R. change (S i) with (1 + i)%nat. rewrite powers10_add. change (powers10 1) with 10.
  rewrite Z.rem_mul_r by (pose proof (powers10_pos i); lia). lia.
Qed.

Lemma word_chars_up_spec i x :
  (i <= 9)%nat -> word x ->
  exists ds, word_chars_up i x = text_of ds /\ length ds = i /\ digits 10 ds /\ radix 10 ds = x / powers10 (9 - i).
Proof.
  revert x. induction i as [|i IH]; intros x Hi Hx; cbn [word_chars_up].
  { exists []. rewrite Z.div_small by exact Hx. repeat split; constructor. }
  unfold word, DIG_BASE, DIG_MASK in *. set (y := x / 100000000).
  destruct (IH ((x - y * 100000000) * 10)) as (ds & -> & L & D & R); [lia|unfold y; divlia|].
  exists (y :: ds). assert (Hy : 0 <= y < 10) by (unfold y; divlia). rewrite Z.mod_small by lia.
  split; [done|]. cbn [length]. split; [lia|]. split; [by constructor|].
  rewrite radix_cons, R, L. replace (9 - i)%nat with (1 + (8 - i))%nat by lia. replace (9 - S i)%nat with (8 - i)%nat by lia.
  rewrite powers10_add. change (powers10 1) with 10. pose proof (powers10_pos (8 - i)) as Hp.
  rewrite (Z.mul_comm _ 10), Z.div_mul_cancel_l by lia. fold (powers10 i).
  assert (E8 : 100000000 = powers10 i * powers10 (8 - i)) by (rewrite <- powers10_add; by replace (i + (8 - i))%nat with 8%nat by lia).
  rewrite <- Z.div_add_l by lia. f_equal. rewrite <- Z.mul_assoc, <- E8. lia.
Qed.

Lemma intg_chars_spec src n :
  (ROUND_UP n <= length src)%nat -> Forall word src ->
  exists ds, intg_chars src n = Some (rev (text_of ds)) /\ length ds = n /\ digits 10 ds /\
    radix 10 ds = words (rev (take (ROUND_UP n) src)) mod powers10 n.
Proof.
  intros Hl Hw. revert n Hl. induction Hw as [|x src Hx Hw IH]; intros n Hl; cbn [intg_chars length] in *;
    (destruct (Nat.eqb_spec n 0) as [->|Hn]; [exists []; repeat split; constructor|]); rewrite (ROUND_UP_step n) in * by lia; [lia|].
  set (m := (n - DIG_PER_DEC1)%nat) in *. destruct (IH m ltac:(lia)) as (ds & -> & L & D & R). cbn [mbind option_bind take rev].
  destruct (word_chars_down_spec (Nat.min n DIG_PER_DEC1) x (proj1 Hx)) as (dx & -> & Lx & Dx & Rx).
  change DIG_PER_DEC1 with 9%nat in *. exists (ds ++ dx). rewrite text_of_app, rev_app_distr, length_app. split; [done|]. split; [lia|].
  split; [by apply Forall_app|]. rewrite radix_app, words_app, words_one, R, Rx, Lx. cbn [length]. change (B 1) with (powers10 9).
  destruct (Nat.le_gt_cases n 9) as [H9|H9].
  - replace m with 0%nat by lia. rewrite Nat.min_l by lia. change (ROUND_UP 0) with 0%nat. rewrite take_0. cbn [rev]. rewrite words_nil.
    change (powers10 0) with 1. rewrite Z.mod_1_r. done.
  - rewrite Nat.min_r by lia. rewrite (Z.mod_small x) by exact Hx. assert (E : powers10 n = powers10 9 * powers10 m) by (rewrite <- powers10_add; f_equal; lia).
    set (V := words (rev (take (ROUND_UP m) src))). rewrite E, Z.rem_mul_r by (pose proof (powers10_pos m); done || lia).
    assert (E1 : (V * powers10 9 + x) mod powers10 9 = x) by (rewrite Z.add_comm, Z.mod_add by done; by apply Z.mod_small).
    assert (E2 : (V * powers10 9 + x) / powers10 9 = V) by (rewrite Z.div_add_l, Z.div_small by done; lia).
    rewrite E1, E2. change (10 ^ Z.of_nat 9) with (powers10 9). ring.
Qed.

Lemma frac_chars_spec src n :
  (ROUND_UP n <= length src)%nat -> Forall word (take (ROUND_UP n) src) ->
  exists ds, frac_chars src n = Some (text_of ds) /\ length ds = n /\ digits 10 ds /\
    radix 10 ds = words (take (ROUND_UP n) src) / powers10 (9 * ROUND_UP n - n).
Proof.
  revert n. induction src as [|x src IH]; intros n Hl Hw; cbn [frac_chars length] in *;
    (destruct (Nat.eqb_spec n 0) as [->|Hn]; [exists []; repeat split; constructor|]); rewrite (ROUND_UP_step n) in * by lia; [lia|].
  cbn [take] in *. apply list.Forall_cons in Hw as [Hx Hw].
  set (m := (n - DIG_PER_DEC1)%nat) in *. destruct (IH m ltac:(lia) Hw) as (ds & -> & L & D & R). cbn [mbind option_bind].
  change DIG_PER_DEC1 with 9%nat in *.
  destruct (word_chars_up_spec (Nat.min n 9) x ltac:(lia) Hx) as (dx & -> & Lx & Dx & Rx).
  exists (dx ++ ds). rewrite text_of_app, length_app. split; [done|]. split; [lia|]. split; [by apply Forall_app|].
  rewrite radix_app, words_cons, R, Rx, L, length_take, (Nat.min_l (ROUND_UP m)) by lia. fold (powers10 m). pose proof (ROUND_UP_spec m) as Hr.
  destruct (Nat.le_gt_cases n 9) as [H9|H9].
  - assert (m = 0%nat) as -> by lia. change (ROUND_UP 0) with 0%nat. rewrite take_0, words_nil, B_0, Nat.min_l by lia.
    change (powers10 0) with 1. replace (9 * 1 - n)%nat with (9 - n)%nat by lia. rewrite Z.div_0_l by done. by rewrite !Z.mul_1_r, !Z.add_0_r.
  - rewrite Nat.min_r, Nat.sub_diag by lia. change (powers10 0) with 1. rewrite Z.div_1_r, powers10_B.
    replace (9 * S (ROUND_UP m) - n)%nat with (9 * ROUND_UP m - m)%nat by lia. set (e := (9 * ROUND_UP m - m)%nat).
    replace (9 * ROUND_UP m)%nat with (m + e)%nat by lia. rewrite powers10_add, Z.mul_assoc, Z.div_add_l; [done|].
    pose proof (powers10_pos e). lia.
Qed.

(** ** What is parsed *)

Lemma powers10_S i : powers10 (S i) = 10 * powers10 i.
Proof. change (S i) with (1 + i)%nat. by rewrite powers10_add. Qed.

Lemma small_word i x : (i <= 9)%nat -> 0 <= x < powers10 i -> word x.
Proof. intros Hi Hx. pose proof (powers10_le i 9 Hi). unfold word. change DIG_BASE with (powers10 9). lia. Qed.

(** [ds] are the digits from the last one on. *)
Lemma parse_intg_spec ds rest x i acc :
  digits 10 ds -> (i < 9)%nat -> 0 <= x < powers10 i ->
  exists l, parse_intg (length ds) (text_of ds ++ rest) x i acc = Some (l ++ acc) /\
    length l = ROUND_UP (i + length ds) /\ Forall word l /\ words l = x + powers10 i * radix 10 (rev ds).
Proof.
  intros Hd. revert x i acc. induction Hd as [|d ds Hd Hds IH]; intros x i acc Hi Hx; cbn [length parse_intg rev].
  - rewrite Nat.add_0_r. pose proof (ROUND_UP_spec i). destruct (Nat.eqb_spec i 0) as [->|Hi0].
    + exists []. change (powers10 0) with 1 in *. repeat split; [constructor|]. rewrite words_nil. cbn. lia.
    + exists [x]. split; [done|]. cbn [length]. split; [lia|]. split; [repeat constructor; by eapply small_word; [|exact Hx]; lia|].
      rewrite words_one. cbn. lia.
  - rewrite text_of_cons, radix_text_snoc. cbn [app]. assert (E0 : chr_0 + d - chr_0 = d) by lia. rewrite E0. pose proof (powers10_pos i) as Hp.
    assert (Hx' : 0 <= x + d * powers10 i < powers10 (S i)) by (rewrite powers10_S; nia).
    pose proof (ROUND_UP_spec (i + S (length ds))) as R1.
    destruct (Nat.eqb_spec (S i) DIG_PER_DEC1) as [E|E]; change DIG_PER_DEC1 with 9%nat in *.
    + destruct (IH 0 0%nat (x + d * powers10 i :: acc)) as (l & -> & L & W & V); [lia|by cbn|].
      exists (l ++ [x + d * powers10 i]). rewrite <- app_assoc, length_app. split; [done|]. cbn [length].
      pose proof (ROUND_UP_spec (0 + length ds)) as R2. split; [lia|].
      split; [apply Forall_app; split; [done|]; repeat constructor; by eapply small_word; [|exact Hx']; lia|].
      rewrite words_app, words_one, V. cbn [length]. change (B 1) with (powers10 9). rewrite <- E, powers10_S. change (powers10 0) with 1. ring.
    + destruct (IH (x + d * powers10 i) (S i) acc) as (l & -> & L & W & V); [lia|done|].
      exists l. split; [done|]. split; [rewrite L; f_equal; lia|]. split; [done|]. rewrite V, powers10_S. ring.
Qed.

Lemma parse_frac_spec ds rest x i :
  digits 10 ds -> (i < 9)%nat -> 0 <= x < powers10 i ->
  exists l, parse_frac (length ds) (text_of ds ++ rest) x i = Some l /\
    length l = ROUND_UP (i + length ds) /\ Forall word l /\
    words l = (x * powers10 (length ds) + radix 10 ds) * powers10 (9 * ROUND_UP (i + length ds) - (i + length ds)).
Proof.
  intros Hd. revert x i. induction Hd as [|d ds Hd Hds IH]; intros x i Hi Hx; cbn [length parse_frac].
  - rewrite Nat.add_0_r. change (powers10 0) with 1. change (radix 10 []) with 0. pose proof (ROUND_UP_spec i).
    destruct (Nat.eqb_spec i 0) as [->|Hi0].
    + exists []. change (powers10 0) with 1 in *. repeat split; [constructor|]. change (ROUND_UP 0) with 0%nat. rewrite words_nil. assert (x = 0) as -> by lia. done.
    + exists [x * powers10 (DIG_PER_DEC1 - i)]. assert (R1 : ROUND_UP i = 1%nat) by lia. rewrite R1. split; [done|]. cbn [length]. split; [lia|].
      change DIG_PER_DEC1 with 9%nat. split; [|rewrite words_one; replace (9 * 1 - i)%nat with (9 - i)%nat by lia; ring].
      repeat constructor; pose proof (powers10_pos (9 - i)); [nia|]. change DIG_BASE with (powers10 9).
      replace 9%nat with (i + (9 - i))%nat at 2 by lia. rewrite powers10_add. nia.
  - rewrite text_of_cons, radix_cons. cbn [app]. assert (E0 : chr_0 + d - chr_0 + x * 10 = x * 10 + d) by lia. rewrite E0.
    assert (Hx' : 0 <= x * 10 + d < powers10 (S i)) by (rewrite powers10_S; lia).
    change (10 ^ Z.of_nat (length ds)) with (powers10 (length ds)).
    destruct (Nat.eqb_spec (S i) DIG_PER_DEC1) as [E|E]; change DIG_PER_DEC1 with 9%nat in *.
    + destruct (IH 0 0%nat) as (l & -> & L & W & V); [lia|by cbn|]. cbn [mbind option_bind Nat.add] in *.
      exists (x * 10 + d :: l). cbn [length]. pose proof (ROUND_UP_spec (length ds)) as R2. pose proof (ROUND_UP_spec (i + S (length ds))) as R1.
      assert (Er : ROUND_UP (i + S (length ds)) = S (ROUND_UP (length ds))) by lia. rewrite Er. split; [done|]. split; [lia|].
      split; [constructor; [by eapply small_word; [|exact Hx']; lia|done]|]. rewrite words_cons, V, L, powers10_B.
      set (e := (9 * ROUND_UP (length ds) - length ds)%nat).
      replace (9 * S (ROUND_UP (length ds)) - (i + S (length ds)))%nat with e by lia.
      replace (9 * ROUND_UP (length ds))%nat with (length ds + e)%nat by lia. rewrite powers10_add, powers10_S. ring.
    + destruct (IH (x * 10 + d) (S i)) as (l & -> & L & W & V); [lia|done|].
      exists l. replace (i + S (length ds))%nat with (S i + length ds)%nat by lia. split; [done|]. split; [done|]. split; [done|].
      rewrite V, powers10_S. ring.
Qed.

(** ** The text of a number *)

(** The digits [ids] before and [fds] after the point, with the sign. *)
Definition numeral (s : bool) (ids fds : list Z) : list Z :=
  (if s then [chr_minus] else []) ++ text_of ids ++ (if (length fds =? 0)%nat then [] else chr_dot :: text_of fds).

Lemma blit_mid A M l T : length M = length l -> blit (Z.of_nat (length A)) l (A ++ M ++ T) = Some (A ++ l ++ T).
Proof.
  intros H. unfold blit. rewrite !length_app, (proj2 (Z.ltb_ge _ 0)), (proj2 (Z.ltb_ge _ _)) by lia. cbn [orb].
  rewrite Nat2Z.id, take_app_length. do 3 f_equal. rewrite app_assoc, <- H, <- length_app. apply drop_app_length.
Qed.

(** The places for a text are overwritten with it. *)
Lemma put_string_spec s buf0 n f ids fds filler to :
  (1 <= n)%nat \/ ids = [0] /\ n = 0%nat -> (1 <= n -> length ids = n)%nat -> length fds = f ->
  (f <> 0%nat -> frac_chars (drop (ROUND_UP n) buf0) f = Some (text_of fds)) ->
  (n <> 0%nat -> intg_chars (rev (take (ROUND_UP n) buf0)) n = Some (rev (text_of ids))) ->
  let t := numeral s ids fds in (S (length t) <= length to)%nat ->
  put_string s buf0 (Z.of_nat n) (Z.of_nat f) (Z.of_nat (length ids)) (Z.of_nat f) (Z.of_nat (length t)) filler to =
  Some (t ++ 0 :: drop (S (length t)) to).
Proof.
  intros Hn Hids Lf Hf Hi t Hl. unfold put_string.
  set (sg := if s then [chr_minus] else []) in *. set (ft := if (length fds =? 0)%nat then [] else chr_dot :: text_of fds) in *.
  assert (Hru : Z.to_nat (round_up (Z.of_nat n)) = ROUND_UP n).
  { unfold round_up, ROUND_UP. change DIG_PER_DEC1 with 9%nat. destruct (Nat.ltb_spec 0 n), (Z.ltb_spec 0 (Z.of_nat n)); try lia;
      rewrite Z.quot_div_nonneg by lia; rewrite <- Nat2Z.id; f_equal; rewrite Nat2Z.inj_div; f_equal; lia. }
  (* the places *)
  set (X := take (length t) to). set (T := drop (S (length t)) to).
  assert (LX : length X = length t) by (unfold X; rewrite length_take; lia).
  assert (Lt : length t = (length sg + length ids + length ft)%nat) by (unfold t, numeral; fold sg ft; rewrite !length_app, text_of_length; lia).
  assert (Eto : exists z, to = X ++ [z] ++ T).
  { destruct (lookup_lt_is_Some_2 to (length t) ltac:(lia)) as [z Hz]. exists z. unfold X, T. cbn [app]. by rewrite take_drop_middle. }
  destruct Eto as [z Eto]. clearbody X T. subst to. rewrite <- LX at 1. rewrite blit_mid by done. cbn [mbind option_bind].
  assert (EX : exists X0 X1 X2, X = X0 ++ X1 ++ X2 /\ length X0 = length sg /\ length X1 = length ids /\ length X2 = length ft).
  { exists (take (length sg) X), (take (length ids) (drop (length sg) X)), (drop (length ids) (drop (length sg) X)).
    rewrite !take_drop. rewrite !length_take, !length_drop. split; [done|]. lia. }
  destruct EX as (X0 & X1 & X2 & -> & L0 & L1 & L2).
  assert (E1 : (if s then blit 0 [chr_minus] ((X0 ++ X1 ++ X2) ++ [0] ++ T) else Some ((X0 ++ X1 ++ X2) ++ [0] ++ T)) =
    Some (sg ++ X1 ++ X2 ++ [0] ++ T)).
  { rewrite <- !app_assoc. unfold sg in *. destruct s; [|by destruct X0]. by apply (blit_mid [] X0). }
  rewrite E1. cbn [mbind option_bind]. clear E1. rewrite Hru.
  assert (Es : b2z s = Z.of_nat (length sg)) by (unfold sg; by destruct s). rewrite Es.
  assert (E2 : (if negb (Z.of_nat f =? 0) then if Z.of_nat f - Z.of_nat f <? 0 then None else
      digits ← frac_chars (drop (ROUND_UP n) buf0) (Z.to_nat (Z.of_nat f));
      blit (Z.of_nat (length sg) + Z.of_nat (length ids)) (chr_dot :: digits ++ replicate (Z.to_nat (Z.of_nat f - Z.of_nat f)) filler) (sg ++ X1 ++ X2 ++ [0] ++ T)
    else Some (sg ++ X1 ++ X2 ++ [0] ++ T)) = Some (sg ++ X1 ++ ft ++ [0] ++ T)).
  { unfold ft in *. rewrite Lf in *. destruct (Nat.eqb_spec f 0) as [->|Hf0]; [by destruct X2|].
    rewrite (proj2 (Z.eqb_neq _ _)), Z.sub_diag, Nat2Z.id, Hf by lia. cbn [negb mbind option_bind Z.ltb Z.compare Z.to_nat replicate]. rewrite app_nil_r.
    rewrite <- L1, <- Nat2Z.inj_add, <- length_app, !(app_assoc sg X1). by apply blit_mid. }
  rewrite E2. cbn [mbind option_bind]. clear E2.
  assert (Efill : Z.of_nat (length ids) - Z.of_nat n - b2z (Z.of_nat n =? 0) = 0).
  { destruct Hn as [Hn|[-> ->]]; [|done]. rewrite Hids by done. destruct (Z.eqb_spec (Z.of_nat n) 0); cbn [b2z]; lia. }
  rewrite Efill. cbn [Z.ltb Z.compare]. pose proof (blit_mid sg [] [] (X1 ++ ft ++ [0] ++ T) eq_refl) as Eb.
  rewrite !app_nil_l in Eb. change (replicate (Z.to_nat 0) filler) with (@nil Z). rewrite Eb. cbn [mbind option_bind].
  rewrite Z.add_0_r. unfold t, numeral. fold sg ft. rewrite <- !app_assoc.
  destruct Hn as [Hn|[-> ->]].
  - destruct (Z.eqb_spec (Z.of_nat n) 0); [lia|]. destruct (Z.ltb_spec (Z.of_nat n) 0); [lia|].
    rewrite Nat2Z.id, Hi by lia. cbn [mbind option_bind]. rewrite rev_involutive. apply blit_mid. by rewrite text_of_length.
  - by apply blit_mid.
Qed.

Definition decimal_string_size (dec : decimal_t) : Z :=
  (if (intg dec =? 0)%nat then 1 else Z.of_nat (intg dec)) + Z.of_nat (frac dec) + b2z (0 <? frac dec)%nat + 2.

(** The digits of a number. *)
Definition digits_of (d : decimal_t) (ids fds : list Z) : Prop :=
  digits 10 ids /\ digits 10 fds /\ (1 <= length ids <= Nat.max 1 (intg d))%nat /\ length fds = frac d /\
  radix 10 ids = magnitude 0 d /\ magnitude (FW d) d = radix 10 ids * B (FW d) + radix 10 fds * powers10 (9 * FW d - frac d).

Lemma frac_digits d :
  wf d -> exists fds, frac_chars (drop (IW d) (buf d)) (frac d) = Some (text_of fds) /\ length fds = frac d /\ digits 10 fds /\
    radix 10 fds * powers10 (9 * FW d - frac d) = words (take (FW d) (drop (IW d) (buf d))).
Proof.
  intros H. pose proof (wf_len d H) as Hlen. unfold len in Hlen.
  destruct (frac_chars_spec (drop (IW d) (buf d)) (frac d)) as (fds & Ef & Lf & Df & Rf); fold (FW d) in *.
  { rewrite length_drop. lia. }
  { pose proof (Forall_drop _ (IW d) _ (wf_words d H)) as Hw. rewrite skipn_firstn_comm in Hw. by replace (IW d + FW d - IW d)%nat with (FW d) in Hw by lia. }
  exists fds. repeat (split; [done|]).
  pose proof (magnitude_divide (FW d) d H ltac:(lia)) as Hd. rewrite magnitude_parts in Hd by done.
  apply Z.divide_add_cancel_r in Hd; [|apply Z.divide_mul_r; rewrite powers10_B; apply powers10_divide; lia].
  destruct Hd as [q Hq]. rewrite Rf, Hq, Z.div_mul; [done|]. pose proof (powers10_pos (9 * FW d - frac d)). lia.
Qed.

(** [n] digits before the point, from the [k]-th word on. *)
Lemma intg_digits d k n :
  wf d -> (k + ROUND_UP n = IW d)%nat -> magnitude 0 d = words (take (ROUND_UP n) (drop k (buf d))) -> magnitude 0 d < powers10 n ->
  exists ids, digits 10 ids /\ ((1 <= n)%nat \/ ids = [0] /\ n = 0%nat) /\ (1 <= n -> length ids = n)%nat /\ radix 10 ids = magnitude 0 d /\
    (n <> 0%nat -> intg_chars (rev (take (ROUND_UP n) (drop k (buf d)))) n = Some (rev (text_of ids))).
Proof.
  intros H Hk Mw Mn. pose proof (wf_len d H) as Hlen. unfold len in Hlen. pose proof (magnitude_nonneg 0 d H) as H0.
  destruct (Nat.eq_dec n 0%nat) as [->|Hn].
  { exists [0]. change (powers10 0) with 1 in Mn. change (radix 10 [0]) with 0. repeat split; try done || lia; [repeat constructor; lia|by right]. }
  set (T := take (ROUND_UP n) (drop k (buf d))) in *. assert (LT : length T = ROUND_UP n) by (unfold T; rewrite length_take, length_drop; lia).
  assert (WT : Forall word T).
  { pose proof (Forall_drop _ k _ (take_words (IW d) d H ltac:(lia))) as Hw. rewrite skipn_firstn_comm in Hw. by replace (IW d - k)%nat with (ROUND_UP n) in Hw by lia. }
  destruct (intg_chars_spec (rev T) n) as (ids & Ei & Li & Di & Ri); [rewrite length_rev; lia|by apply List.Forall_rev|].
  exists ids. rewrite take_ge, rev_involutive, <- Mw, Z.mod_small in Ri by (rewrite ?length_rev; lia).
  split; [done|]. split; [left; lia|]. done.
Qed.

Lemma decimal2string_spec d to to_len filler :
  wf d -> decimal_string_size d <= to_len <= Z.of_nat (length to) ->
  exists ids fds, digits_of d ids fds /\
    let t := numeral (sign d) ids fds in
    decimal2string d to to_len 0 0 filler = Some (E_DEC_OK, Z.of_nat (length t), t ++ 0 :: drop (S (length t)) to).
Proof.
  intros H Hl. pose proof (wf_len d H) as Hlen. unfold len in Hlen.
  destruct (remove_leading_zeroes_spec d H) as (k & n & Er & Hk & Hz & Mw & Mn & Ml).
  assert (Hn : (n <= intg d)%nat).
  { destruct Ml as [->|Ml]; [lia|]. apply Nat.nlt_ge. intros Hc. pose proof (powers10_le (intg d) (n - 1) ltac:(lia)).
    pose proof (wf_intg d H) as Hw. rewrite <- magnitude_0 in Hw. lia. }
  destruct (frac_digits d H) as (fds & Ef & Lf & Df & Vf). destruct (intg_digits d k n H Hk Mw Mn) as (ids & Di & Hn0 & Li & Ri & Ei).
  assert (Lids : (1 <= length ids <= Nat.max 1 (intg d))%nat) by (destruct Hn0 as [Hn0|[-> ->]]; [rewrite Li by done|cbn]; lia).
  exists ids, fds. split; [split; [done|]; split; [done|]; split; [done|]; split; [done|]; split; [done|]; rewrite Vf, Ri; by apply magnitude_parts|].
  intros t. assert (Lt : (length t = (if sign d then 1 else 0) + length ids + (if frac d =? 0 then 0 else 1) + frac d)%nat).
  { unfold t, numeral. rewrite !length_app, text_of_length, Lf. destruct (sign d), (Nat.eqb_spec (frac d) 0); cbn [length]; rewrite ?text_of_length; lia. }
  assert (Ht : Z.of_nat (length t) + 1 <= to_len).
  { unfold decimal_string_size, b2z in Hl. destruct (sign d), (Nat.eqb_spec (frac d) 0), (Nat.ltb_spec 0 (frac d)), (Nat.eqb_spec (intg d) 0); lia. }
  unfold decimal2string. rewrite Er. cbn [mbind option_bind negb Z.eqb].
  assert (El : forall m, (m = n \/ m = 1 /\ n = 0)%nat -> Z.of_nat (length ids) = if Z.of_nat m =? 0 then 1 else Z.of_nat m).
  { intros m Hm. destruct Hn0 as [Hn0|[-> ->]]; [rewrite Li by done|]; destruct (Z.eqb_spec (Z.of_nat m) 0); cbn; lia. }
  assert (Esz : b2z (sign d) + Z.of_nat (length ids) + b2z (negb (Z.of_nat (frac d) =? 0)) + Z.of_nat (frac d) = Z.of_nat (length t)).
  { destruct (sign d), (Nat.eqb_spec (frac d) 0), (Z.eqb_spec (Z.of_nat (frac d)) 0); cbn [b2z negb]; lia. }
  destruct (Z.eqb_spec (Z.of_nat n + Z.of_nat (frac d)) 0) as [E0|E0].
  - assert (n = 0%nat) as -> by lia. destruct Hn0 as [Hn0|[-> _]]; [lia|]. cbn [Z.eqb Pos.eqb].
    change (Z.of_nat (length [0])) with 1 in Esz. rewrite Esz, (proj2 (Z.ltb_ge (to_len - 1) _)) by lia.
    pose proof (put_string_spec (sign d) [0] 1 (frac d) [0] fds filler to) as P. change (Z.of_nat 1) with 1 in P.
    change (Z.of_nat (length [0])) with 1 in P. cbv zeta in P. fold t in P. rewrite P; try done; lia.
  - rewrite <- (El n) by lia. rewrite Esz. rewrite (proj2 (Z.ltb_ge (to_len - 1) _)) by lia. unfold t.
    rewrite put_string_spec; try done; [|fold t; lia]. intros _. by rewrite drop_drop, Hk.
Qed.

(** ** The number of a text *)

Lemma digit_char d : 0 <= d < 10 ->
  my_isdigit (chr_0 + d) = true /\ my_isspace (chr_0 + d) = false /\ (chr_0 + d =? chr_minus) = false /\ (chr_0 + d =? chr_plus) = false.
Proof. intros H. assert (Hd : In d [0;1;2;3;4;5;6;7;8;9]) by (cbn; lia). cbn in Hd. by repeat destruct Hd as [<-|Hd]. Qed.

(** What follows a number. *)
Definition ends (rest : list Z) : Prop :=
  match rest with [] => True | c :: _ => my_isdigit c = false /\ c <> chr_dot /\ c <> chr_e /\ c <> chr_E end.

Lemma skip_digits_text ds rest :
  digits 10 ds -> match rest with [] => True | c :: _ => my_isdigit c = false end -> skip_while my_isdigit (text_of ds ++ rest) = rest.
Proof.
  intros Hd Hr. induction Hd as [|d ds Hd Hds IH].
  - destruct rest as [|c rest]; [done|]. cbn [text_of map app skip_while]. by rewrite Hr.
  - rewrite text_of_cons. cbn [app skip_while]. destruct (digit_char d Hd) as (-> & _). exact IH.
Qed.

Lemma taken_text (t rest : list Z) : take (length (t ++ rest) - length rest) (t ++ rest) = t.
Proof. rewrite length_app, Nat.add_sub. apply take_app_length. Qed.

Lemma str2dec_words_spec ids fds s to :
  digits 10 ids -> digits 10 fds -> (1 <= length ids)%nat -> (ROUND_UP (length ids) + ROUND_UP (length fds) <= len to)%nat ->
  exists r, str2dec_words (text_of ids) (text_of fds) (length ids, length fds, ROUND_UP (length ids), ROUND_UP (length fds), E_DEC_OK) s to =
      Some (E_DEC_OK, r) /\
    wf r /\ intg r = length ids /\ frac r = length fds /\ sign r = s /\ len r = len to /\
    magnitude (FW r) r = radix 10 ids * B (FW r) + radix 10 fds * powers10 (9 * FW r - frac r).
Proof.
  intros Di Df Li Hl. unfold str2dec_words, len in *.
  destruct (parse_intg_spec (rev ids) [] 0 0 []) as (li & Ei & Lli & Wi & Vi); [by apply List.Forall_rev|lia|by cbn|].
  rewrite length_rev in *. rewrite app_nil_r in Ei. unfold text_of in Ei at 1. rewrite map_rev in Ei. fold (text_of ids) in Ei. rewrite Ei.
  rewrite app_nil_r, rev_involutive, Nat.add_0_l in *. change (powers10 0) with 1 in Vi. cbn [mbind option_bind].
  destruct (written_spec (ROUND_UP (length ids)) li (buf to)) as (b & -> & Lb & Tb); [lia|]. cbn [mbind option_bind].
  destruct (parse_frac_spec fds [] 0 0 Df) as (lf & Ef & Llf & Wf & Vf); [lia|by cbn|].
  rewrite app_nil_r in Ef. rewrite Ef, Nat.add_0_l in *. cbn [mbind option_bind].
  rewrite (proj2 (Nat.ltb_ge _ _)) by lia. rewrite Tb, Lli, Nat.sub_diag, take_0. cbn [app].
  set (T := drop _ b). eexists. split; [done|]. set (r := mk_dec _ _ _ _).
  assert (Tr : take (IW r) (buf r) = li) by (apply take_app_length'; exact (eq_sym Lli)).
  assert (Tr' : take (IW r + FW r) (buf r) = li ++ lf).
  { unfold r. cbn [buf]. rewrite app_assoc. apply take_app_length'. rewrite length_app, Lli, Llf. done. }
  assert (Vr : words (li ++ lf) = radix 10 ids * B (FW r) + radix 10 fds * powers10 (9 * FW r - frac r)).
  { rewrite words_app, Vi, Vf, Llf. unfold FW. cbn [frac r]. ring. }
  assert (Lr : length (buf r) = length (buf to)) by (unfold r, T; cbn [buf]; rewrite !length_app, length_drop; lia).
  split; [constructor|].
  - unfold len. rewrite Lr. exact Hl.
  - cbn. lia.
  - rewrite Tr'. by apply Forall_app.
  - rewrite Tr, Vi. pose proof (radix_bound 10 ids Di). unfold powers10. cbn [intg r]. lia.
  - rewrite Tr', Vr. apply Z.divide_add_r; apply Z.divide_mul_r; [rewrite powers10_B; apply powers10_divide; lia|done].
  - do 3 (split; [done|]). split; [exact Lr|]. unfold magnitude. by rewrite Nat.min_id, Tr', Nat.sub_diag, B_0, Z.mul_1_r.
Qed.

Lemma decimal_is_zero_value d : wf d -> decimal_is_zero d = (magnitude (FW d) d =? 0).
Proof.
  intros H. unfold decimal_is_zero, magnitude. rewrite Nat.min_id, Nat.sub_diag, B_0, Z.mul_1_r. apply all_zero_words, (wf_words d H).
Qed.

Lemma clear_zero_sign_spec r : wf r ->
  proper (clear_zero_sign r) /\ intg (clear_zero_sign r) = intg r /\ frac (clear_zero_sign r) = frac r /\ forall n, (FW r <= n)%nat -> value n (clear_zero_sign r) = value n r.
Proof.
  intros H. unfold clear_zero_sign. rewrite decimal_is_zero_value by done. pose proof (magnitude_nonneg (FW r) r H) as Hm.
  destruct (sign r) eqn:Hs; cbn [andb]; [destruct (Z.eqb_spec (magnitude (FW r) r) 0) as [E|E]|].
  - split; [split; [by destruct H|done]|]. repeat (split; [done|]). intros n Hn. unfold value. rewrite Hs. cbn [sign].
    rewrite (magnitude_exact n r Hn), E. by rewrite (magnitude_exact n (mk_dec _ _ _ _) Hn : _ = magnitude (FW r) r * _), E.
  - split; [split; [done|lia]|]. done.
  - split; [split; [done|congruence]|]. done.
Qed.

(** The text of digits is read to the number with these digits. *)
Lemma internal_str2dec_spec s ids fds rest to :
  digits 10 ids -> digits 10 fds -> (1 <= length ids)%nat -> (ROUND_UP (length ids) + ROUND_UP (length fds) <= len to)%nat -> ends rest ->
  exists r, internal_str2dec (numeral s ids fds ++ rest) to false = Some (E_DEC_OK, clear_zero_sign r, rest) /\
    wf r /\ intg r = length ids /\ frac r = length fds /\ sign r = s /\ 
    magnitude (FW r) r = radix 10 ids * B (FW r) + radix 10 fds * powers10 (9 * FW r - frac r).
Proof.
  intros Di Df Li Hl Hr. destruct (str2dec_words_spec ids fds s to Di Df Li Hl) as (r & Er & Hw & Hi & Hf & Hs & _ & Hm).
  exists r. split; [|done]. unfold numeral. rewrite <- !app_assoc.
  set (ft := if (length fds =? 0)%nat then [] else chr_dot :: text_of fds).
  destruct ids as [|d ids]; [cbn in Li; lia|]. destruct (digit_char d (Forall_inv Di)) as (_ & Esp & Em & Ep).
  assert (Ed : skip_while my_isdigit (text_of (d :: ids) ++ ft ++ rest) = ft ++ rest).
  { apply skip_digits_text; [done|]. unfold ft. destruct fds; [|done]. by destruct rest; [|apply Hr]. }
  assert (Efr : match ft ++ rest with
    | c :: s' => if c =? chr_dot then let endp := skip_while my_isdigit s' in (take (length s' - length endp) s', endp) else ([], ft ++ rest)
    | [] => ([], []) end = (text_of fds, rest)).
  { unfold ft. destruct fds as [|f fds]; cbn [length Nat.eqb app].
    - destruct rest as [|c rest]; [done|]. by rewrite (proj2 (Z.eqb_neq c chr_dot)) by apply Hr.
    - rewrite Z.eqb_refl. cbv zeta. rewrite skip_digits_text; [by rewrite taken_text|done|]. by destruct rest; [|apply Hr]. }
  assert (E1 : forall c t, skip_while my_isspace (c :: t) = c :: t -> (c =? chr_minus) = s ->
    (if (c =? chr_minus) || (c =? chr_plus) then t else c :: t) = text_of (d :: ids) ++ ft ++ rest ->
    internal_str2dec (c :: t) to false = Some (E_DEC_OK, clear_zero_sign r, rest)).
  { intros c t Hsk Hc Ht. unfold internal_str2dec. rewrite Hsk. cbv zeta in *. rewrite Ht, Ed, Efr, taken_text, Hc, !text_of_length.
    rewrite (proj2 (Nat.eqb_neq _ _)) by (cbn [length]; lia). unfold str2dec_sizes. rewrite FIX_enough by done. cbn [Z.eqb E_DEC_OK].
    change (E_DEC_OK =? E_DEC_OK) with true. cbv iota. rewrite Er. cbn [mbind option_bind].
    assert (Ex : str2dec_exponent rest E_DEC_OK r = Some (E_DEC_OK, r, rest)).
    { unfold str2dec_exponent. destruct rest as [|c1 [|c2 rest]]; try done. destruct Hr as (_ & _ & H1 & H2).
      by rewrite (proj2 (Z.eqb_neq c1 chr_e)), (proj2 (Z.eqb_neq c1 chr_E)) by done. }
    by rewrite Ex. }
  destruct s; cbn [app]; [by apply E1|]. rewrite text_of_cons in *. cbn [app] in *.
  apply E1; cbn [skip_while]; rewrite ?Esp, ?Em, ?Ep; done.
Qed.

(** C16: The text of a number has room in [decimal_string_size] places and is read
    back, whatever follows it that does not continue a number, to the same
    value with the same digits after the point; a negative zero loses its
    sign. *)
Theorem decimal_string_roundtrip d to to_len filler rest r0 :
  wf d -> decimal_string_size d <= to_len <= Z.of_nat (length to) -> ends rest ->
  (ROUND_UP (Nat.max 1 (intg d)) + FW d <= len r0)%nat ->
  exists t r, decimal2string d to to_len 0 0 filler = Some (E_DEC_OK, Z.of_nat (length t), t ++ 0 :: drop (S (length t)) to) /\
    internal_str2dec (t ++ rest) r0 false = Some (E_DEC_OK, r, rest) /\
    proper r /\ frac r = frac d /\ forall n, (FW d <= n)%nat -> value n r = value n d.
Proof.
  intros H Hl Hr Hr0. destruct (decimal2string_spec d to to_len filler H Hl) as (ids & fds & (Di & Df & Li & Lf & Ri & Hm) & E).
  destruct (internal_str2dec_spec (sign d) ids fds rest r0) as (r & Ei & Hw & Hi & Hf & Hs & Hmr); try done; try lia.
  { rewrite Lf. fold (FW d). pose proof (ROUND_UP_le (length ids) _ (proj2 Li)). lia. }
  rewrite Lf in Hf. assert (HF : FW r = FW d) by (unfold FW; by rewrite Hf).
  destruct (clear_zero_sign_spec r Hw) as (Hp & _ & Hcf & Hv).
  eexists _, (clear_zero_sign r). split; [exact E|]. split; [exact Ei|]. split; [done|]. split; [congruence|].
  intros n Hn. rewrite Hv by lia. rewrite (value_exact n r), (value_exact n d) by lia. unfold value. by rewrite HF, Hs, <- HF, Hmr, HF, Hf, Hm.
Qed.
