(* ===== verification/DecimalDiv.v ===== *)
(** * Division of decimals (do_div_mod of strings/decimal.c)

    [decimal_div] and [decimal_mod] divide the words of the numbers with
    Knuth's algorithm D, with a guess of each word of the quotient that is made
    from the first two words of the divisor only.  The 64-bit arithmetic of the
    guess wraps around in the model.  [tmp1] is a list, [start1] a position in
    it; reading or writing outside of it or of the result gives [None]. *)
From Stdlib Require Import ZArith Lia List Bool.
From stdpp Require Import base tactics list option.
From S2P Require Import Prelude Decimal DecimalValue DecimalAdd DecimalSub DecimalRound.

Open Scope Z_scope.

Definition E_DEC_DIV_ZERO : Z := 4.

Definition SUB2 (from1 from2 carry : Z) : Z * Z :=
  let a := from1 - from2 - carry in
  let '(a, carry) := if a <? 0 then (a + DIG_BASE, 1) else (a, 0) in
  if a <? 0 then (a + DIG_BASE, carry + 1) else (a, carry).

(** Words of leading zeroes are skipped; [i] digits in the first word. *)
Fixpoint div_skip (b : list Z) (prec i : Z) : option (Z * list Z) :=
  if 0 <? prec then
    match b with
    | [] => None
    | w :: b' => if w =? 0 then div_skip b' (prec - i) 9 else Some (prec, b)
    end
  else Some (prec, b).

Fixpoint lead_prec (i : nat) (w prec : Z) : option Z :=
  if w <? powers10 i then
    match i with S i => lead_prec i w (prec - 1) | O => None end
  else Some prec.

(** The digits of a number without leading zeroes: how many, and the words;
    [Some None]: it is zero. *)
Definition div_operand (from : decimal_t) : option (option (Z * list Z)) :=
  let prec := Z.of_nat (intg from) + Z.of_nat (ROUND_UP (frac from)) * 9 in
  '(prec, b) ← div_skip (buf from) prec (Z.rem (prec - 1) 9 + 1);
  if prec <=? 0 then Some None
  else
    w ← head b;
    prec ← lead_prec (Z.to_nat (Z.rem (prec - 1) 9)) w prec;
    Some (Some (prec, b)).

(** ** The main loop *)

(** The divisor [start2], with the factor and its normalized first word. *)
Record divisor := mk_divisor { start2 : list Z; norm_factor : Z; norm2 : Z }.

Definition make_divisor (start2 : list Z) : divisor :=
  let s0 := nth 0 start2 0 in
  let s1 := nth 1 start2 0 in
  let norm_factor := DIG_BASE / (s0 + 1) in
  let norm2 := norm_factor * s0 + (if (1 <? length start2)%nat then norm_factor * s1 / DIG_BASE else 0) in
  mk_divisor start2 norm_factor norm2.

(** The guess is too large for the first two words of the divisor. *)
Definition too_large (s0 s1 x y guess : Z) : bool :=
  s64 (s64 (s64 (x - s64 (guess * s0)) * DIG_BASE) + y) <? s64 (s1 * guess).

Definition make_guess (d : divisor) (dcarry u0 u1 : Z) : Z :=
  let s0 := nth 0 (start2 d) 0 in
  let s1 := nth 1 (start2 d) 0 in
  let x := u0 + dcarry * DIG_BASE in
  let y := u1 in
  let guess := Z.quot (s64 (s64 (norm_factor d * x) + Z.quot (s64 (norm_factor d * y)) DIG_BASE)) (norm2 d) in
  let guess := if DIG_BASE <=? guess then DIG_BASE - 1 else guess in
  if (1 <? length (start2 d))%nat then
    let guess := if too_large s0 s1 x y guess then guess - 1 else guess in
    if too_large s0 s1 x y guess then guess - 1 else guess
  else guess.

(** [guess] times the divisor is subtracted, from the last words on. *)
Fixpoint mul_sub (guess : Z) (vs us : list Z) (carry : Z) (acc : list Z) : option (Z * list Z) :=
  match vs with
  | [] => Some (carry, acc)
  | v :: vs =>
      match us with
      | [] => None
      | u :: us =>
          let x := guess * v in
          let hi := x / DIG_BASE in
          let lo := x - hi * DIG_BASE in
          let '(u, carry) := SUB2 u lo carry in
          mul_sub guess vs us (carry + hi) (u :: acc)
      end
  end.

(** The divisor is added back. *)
Fixpoint add_back (vs us : list Z) (carry : Z) (acc : list Z) : option (list Z) :=
  match vs with
  | [] => Some acc
  | v :: vs =>
      match us with
      | [] => None
      | u :: us => let '(u, carry) := ADD u v carry in add_back vs us carry (u :: acc)
      end
  end.

Definition divide_word (d : divisor) (tmp : list Z) (start1 : nat) (dcarry : Z) : option (Z * list Z) :=
  u0 ← tmp !! start1;
  if (dcarry =? 0) && (u0 <? nth 0 (start2 d) 0) then Some (0, tmp)
  else
    u1 ← tmp !! S start1;
    let guess := make_guess d dcarry u0 u1 in
    let vs := rev (start2 d) in
    let n := length (start2 d) in
    if (length tmp <? start1 + n)%nat then None
    else
      '(carry, us) ← mul_sub guess vs (rev (take n (drop start1 tmp))) 0 [];
      '(guess, us) ← (if dcarry <? carry then us ← add_back vs (rev us) 0 []; Some (guess - 1, us)
                      else Some (guess, us));
      Some (guess, take start1 tmp ++ us ++ drop (start1 + n) tmp).

(** [n] words of the quotient, with what is left. *)
Fixpoint divide_words (d : divisor) (n : nat) (tmp : list Z) (start1 : nat) (dcarry : Z) :
  option (list Z * (list Z * nat * Z)) :=
  match n with
  | O => Some ([], (tmp, start1, dcarry))
  | S n =>
      '(guess, tmp) ← divide_word d tmp start1 dcarry;
      dcarry ← tmp !! start1;
      '(qs, r) ← divide_words d n tmp (S start1) dcarry;
      Some (guess :: qs, r)
  end.

(** ** The results *)

Definition div_result (s : bool) (intg0 frac0 : nat) (dintg : Z) (d : divisor) (tmp : list Z) (start1 : nat) (dcarry : Z)
  (to : decimal_t) : option (Z * decimal_t) :=
  let '(intg0, frac0, error) := FIX_INTG_FRAC_ERROR (len to) intg0 frac0 in
  let zeros := Nat.min (Z.to_nat (- dintg)) (len to) in
  '(qs, _) ← divide_words d (intg0 + frac0 - zeros) tmp start1 dcarry;
  let l := replicate zeros 0 ++ qs in
  if (len to <? length l)%nat then None
  else Some (error, mk_dec (intg0 * DIG_PER_DEC1) (frac0 * DIG_PER_DEC1) s (overwrite l (buf to))).

(** [intg1] are the words before the point of the dividend, [intg2] the digits
    of the divisor. *)
Definition mod_result (s : bool) (to_frac intg0 : nat) (intg1 : Z) (intg2 : nat) (d : divisor) (tmp : list Z) (start1 : nat)
  (dcarry : Z) (to : decimal_t) : option (Z * decimal_t) :=
  '(_, (tmp, start1, dcarry)) ← divide_words d intg0 tmp start1 dcarry;
  '(tmp, start1) ← (if dcarry =? 0 then Some (tmp, start1)
                    else match start1 with O => None | S p => Some (<[p := dcarry]> tmp, p) end);
  let intg0 := intg1 - Z.of_nat start1 in
  let frac0 := Z.of_nat (ROUND_UP to_frac) in
  let length_ := Z.of_nat (len to) in
  if (frac0 =? 0) && (intg0 =? 0) then Some (E_DEC_OK, decimal_make_zero to)
  else if (intg0 <=? 0) && (length_ <=? - intg0) then Some (E_DEC_TRUNCATED, decimal_make_zero to)
  else if length_ <? intg0 then Some (E_DEC_OVERFLOW, mk_dec (intg to) to_frac s (buf to))
  else
    let zeros := Z.to_nat (- intg0) in
    let n := frac0 + intg0 in
    let '(to_intg, intg0, frac0) :=
      if intg0 <=? 0 then (0%nat, 1, frac0 + intg0)
      else (Nat.min (Z.to_nat intg0 * DIG_PER_DEC1) intg2, intg0, frac0) in
    let '(n, to_frac, error) :=
      if length_ <? intg0 + frac0 then (n - (frac0 + intg0 - length_), Z.to_nat ((length_ - intg0) * 9), E_DEC_TRUNCATED)
      else (n, to_frac, E_DEC_OK) in
    let n := Z.to_nat n in
    if (length tmp <? start1 + n)%nat || (len to <? zeros + n)%nat then None
    else Some (error, mk_dec to_intg to_frac s (overwrite (replicate zeros 0 ++ take n (drop start1 tmp)) (buf to))).

(** [is_mod]: the remainder is computed. *)
Definition do_div_mod (from1 from2 to : decimal_t) (is_mod : bool) (scale_incr : Z) : option (Z * decimal_t) :=
  let frac1 := Z.of_nat (ROUND_UP (frac from1)) * 9 in
  let frac2 := Z.of_nat (ROUND_UP (frac from2)) * 9 in
  o2 ← div_operand from2;
  match o2 with
  | None => Some (E_DEC_DIV_ZERO, to)
  | Some (prec2, buf2) =>
      o1 ← div_operand from1;
      match o1 with
      | None => Some (E_DEC_OK, decimal_make_zero to)
      | Some (prec1, buf1) =>
          let scale_incr := Z.max (scale_incr - (frac1 - Z.of_nat (frac from1) + frac2 - Z.of_nat (frac from2))) 0 in
          w1 ← head buf1;
          w2 ← head buf2;
          let dintg := (prec1 - frac1) - (prec2 - frac2) + (if w2 <=? w1 then 1 else 0) in
          let '(dintg, intg0) := if dintg <? 0 then (Z.quot dintg 9, 0) else (dintg, round_up dintg) in
          let i := round_up prec1 in
          let len1 := Z.max (i + round_up (2 * frac2 + scale_incr + 1) + 1) 3 in
          let n1 := Z.to_nat i in
          let n2 := Z.to_nat (round_up prec2) in
          if (length buf1 <? n1)%nat || (length buf2 <? n2)%nat then None
          else
            let tmp := take n1 buf1 ++ replicate (Z.to_nat (len1 - i)) 0 in
            let d := make_divisor (strip_zeros (take n2 buf2)) in
            let '(start1, dcarry) := if w1 <? w2 then (1%nat, w1) else (0%nat, 0) in
            if is_mod then
              mod_result (sign from1) (Nat.max (frac from1) (frac from2)) (Z.to_nat intg0) (round_up (prec1 - frac1)) (intg from2)
                d tmp start1 dcarry to
            else
              div_result (xorb (sign from1) (sign from2)) (Z.to_nat intg0) (Z.to_nat (round_up (frac1 + frac2 + scale_incr))) dintg
                d tmp start1 dcarry to
      end
  end.

Definition decimal_div (from1 from2 to : decimal_t) (scale_incr : Z) : option (Z * decimal_t) :=
  do_div_mod from1 from2 to false scale_incr.

Definition decimal_mod (from1 from2 to : decimal_t) : option (Z * decimal_t) :=
  do_div_mod from1 from2 to true 0.

(** ** The guess *)

Lemma nf_bounds b s0 : 1 <= s0 < b -> let nf := b / (s0 + 1) in 1 <= nf /\ nf * (s0 + 1) <= b < nf * (s0 + 1) + s0 + 1.
Proof.
  intros Hs nf. unfold nf. pose proof (Z.div_mod b (s0 + 1) ltac:(lia)). pose proof (Z.mod_pos_bound b (s0 + 1) ltac:(lia)).
  split; [apply Z.div_le_lower_bound; lia|]. lia.
Qed.

(** The normalized first word is at least half of the base. *)
Lemma norm_half b s0 : 1 <= s0 < b -> b - 1 <= 2 * (b / (s0 + 1) * s0).
Proof.
  intros Hs0. destruct (nf_bounds b s0 Hs0) as (Hn1 & Hn2 & Hn3). set (nf := b / (s0 + 1)) in *.
  destruct (Z.le_gt_cases b (2 * s0 + 1)) as [H|H]; [nia|].
  assert (0 <= (s0 - 1) * (b - 2 * s0 - 1)) by nia. assert (s0 * (b - s0) <= s0 * (nf * (s0 + 1))) by nia.
  assert ((b - 1) * (s0 + 1) <= 2 * (nf * s0) * (s0 + 1)) by lia. nia.
Qed.

Lemma norm_pos b s0 s1 : 1 <= s0 < b -> 0 <= s1 < b -> 1 <= b / (s0 + 1) * s0 + b / (s0 + 1) * s1 / b.
Proof.
  intros Hs0 Hs1. destruct (nf_bounds b s0 Hs0) as (Hn1 & _). set (nf := b / (s0 + 1)) in *.
  assert (0 <= nf * s1 / b) by (apply Z.div_pos; nia). nia.
Qed.

Section guess_bounds.
Context (b s0 s1 x y : Z).
Context (Hb : 2 <= b) (Hs0 : 1 <= s0 < b) (Hs1 : 0 <= s1 < b) (Hx : 0 <= x) (Hy : 0 <= y < b).

Let nf := b / (s0 + 1).
Let S := s0 * b + s1.
Let X := x * b + y.

(** The numbers whose quotient is the guess. *)
Let N := nf * x + nf * y / b.
Let D := nf * s0 + nf * s1 / b.

Lemma norm_N : N * b <= nf * X < N * b + b.
Proof. unfold N, X. pose proof (Z.div_mod (nf * y) b ltac:(lia)). pose proof (Z.mod_pos_bound (nf * y) b ltac:(lia)). lia. Qed.

Lemma norm_D : D * b <= nf * S < D * b + b.
Proof. unfold D, S. pose proof (Z.div_mod (nf * s1) b ltac:(lia)). pose proof (Z.mod_pos_bound (nf * s1) b ltac:(lia)). lia. Qed.

(** The guess is not too small, and too large by two at most. *)
Lemma guess_low : X / S <= N / D.
Proof.
  pose proof (norm_pos b s0 s1 Hs0 Hs1 : 1 <= D) as Hp. pose proof norm_N. pose proof norm_D. pose proof (proj1 (nf_bounds b s0 Hs0) : 1 <= nf) as Hn1.
  assert (HS : 0 < S) by (unfold S; nia). apply Z.div_le_lower_bound; [lia|].
  pose proof (Z.mul_div_le X S HS) as HX. assert (0 <= X / S) by (apply Z.div_pos; unfold X; nia).
  assert (D * (X / S) * b <= nf * X) by nia. nia.
Qed.

Lemma guess_high : Z.even b = true -> X / S < b -> N / D <= X / S + 2.
Proof.
  intros He Hq. pose proof (norm_pos b s0 s1 Hs0 Hs1 : 1 <= D) as Hp. pose proof norm_N as HN. pose proof norm_D as HD. pose proof (proj1 (nf_bounds b s0 Hs0) : 1 <= nf) as Hn1.
  assert (HS : 0 < S) by (unfold S; nia). set (q := X / S) in *. set (g := N / D).
  pose proof (Z.mul_div_le N D ltac:(lia)) as Hg. fold g in Hg.
  pose proof (Z.mul_succ_div_gt X S HS) as HX. fold q in HX. assert (0 <= q) by (apply Z.div_pos; unfold X; nia).
  destruct (Z.le_gt_cases g (q + 2)) as [|Hc]; [done|exfalso].
  assert (Hh : b <= 2 * D).
  { pose proof (norm_half b s0 Hs0 : b - 1 <= 2 * (nf * s0)) as Hh. assert (nf * s0 <= D) by (unfold D; assert (0 <= nf * s1 / b) by (apply Z.div_pos; nia); lia).
    apply Z.even_spec in He as [m ->]. lia. }
  assert (nf * X < nf * S * (q + 1)) by nia. assert (D * g * b < (D + 1) * b * (q + 1)) by nia. nia.
Qed.
End guess_bounds.

Lemma make_guess_one s0 dcarry u0 u1 :
  1 <= s0 < DIG_BASE -> 0 <= dcarry < s0 -> word u0 -> word u1 ->
  make_guess (make_divisor [s0]) dcarry u0 u1 = (dcarry * DIG_BASE + u0) / s0.
Proof.
  intros Hs Hc H0 H1. unfold make_guess, make_divisor. cbn [nth start2 norm_factor norm2 length Nat.ltb Nat.leb].
  unfold word, DIG_BASE in *. destruct (nf_bounds 1000000000 s0 ltac:(lia)) as (Hn1 & Hn2 & Hn3). set (nf := 1000000000 / (s0 + 1)) in *.
  set (x := u0 + dcarry * 1000000000). replace (dcarry * 1000000000 + u0) with x by lia. assert (Hx : 0 <= x < s0 * 1000000000) by lia.
  assert (Hns : nf * s0 < 1000000000) by lia. assert (Hnf : nf < 1000000000) by nia.
  assert (Hnx : 0 <= nf * x < 1000000000 * 1000000000).
  { split; [nia|]. apply Z.lt_le_trans with (nf * (s0 * 1000000000)); [apply Z.mul_lt_mono_pos_l; lia|lia]. }
  assert (Hny : 0 <= nf * u1 < 1000000000 * 1000000000).
  { split; [nia|]. apply Z.lt_le_trans with (nf * 1000000000); [apply Z.mul_lt_mono_pos_l; lia|lia]. }
  rewrite (s64_small (nf * x)), (s64_small (nf * u1)) by lia. rewrite (Z.quot_div_nonneg (nf * u1)) by lia.
  assert (Hq : 0 <= nf * u1 / 1000000000 < nf).
  { split; [apply Z.div_pos; lia|]. apply Z.div_lt_upper_bound; [done|]. rewrite Z.mul_comm. apply Z.mul_lt_mono_pos_r; lia. }
  rewrite s64_small by lia. rewrite Z.add_0_r. rewrite Z.quot_div_nonneg by nia.
  rewrite <- Z.div_div by nia. rewrite (Z.mul_comm nf x), Z.div_add_l by lia. rewrite (Z.div_small _ nf) by lia. rewrite Z.add_0_r.
  assert (x / s0 < 1000000000) by (apply Z.div_lt_upper_bound; lia). destruct (Z.leb_spec 1000000000 (x / s0)); lia.
Qed.

(** The comparison is the one of the numbers, as nothing overflows. *)
Lemma too_large_spec s0 s1 x y g :
  let S := s0 * DIG_BASE + s1 in let X := x * DIG_BASE + y in
  1 <= s0 < DIG_BASE -> word s1 -> 0 <= x <= S -> word y -> 0 <= g < DIG_BASE -> - 2 * S <= X - g * S < 2 * S ->
  too_large s0 s1 x y g = (X <? g * S).
Proof.
  intros S X Hs0 Hs1 Hx Hy Hg Hd. unfold too_large, word, S, X, DIG_BASE in *. set (b := 1000000000) in *.
  assert (H1 : 0 <= g * s0 < b * b) by (unfold b in *; nia). assert (H2 : 0 <= s1 * g < b * b) by (unfold b in *; nia).
  assert (H3 : - (b * b) <= x - g * s0 <= b * b) by (unfold b in *; nia).
  assert (H4 : - 3 * (b * b) <= (x - g * s0) * b <= 3 * (b * b)) by (unfold b in *; nia).
  unfold b in *. rewrite (s64_small (g * s0)), (s64_small (x - _)), (s64_small ((x - _) * _)), (s64_small (_ + y)), (s64_small (s1 * g)) by lia.
  apply eq_bool_prop_intro. rewrite !Is_true_true, !Z.ltb_lt. lia.
Qed.

Lemma make_guess_two s0 s1 vs dcarry u0 u1 :
  let S := s0 * DIG_BASE + s1 in let x := dcarry * DIG_BASE + u0 in
  1 <= s0 < DIG_BASE -> word s1 -> 0 <= dcarry -> x <= S -> word u0 -> word u1 ->
  make_guess (make_divisor (s0 :: s1 :: vs)) dcarry u0 u1 = Z.min ((x * DIG_BASE + u1) / S) (DIG_BASE - 1).
Proof.
  intros S x Hs Hs1 Hc Hx H0 H1. unfold make_guess, make_divisor. cbn [nth start2 norm_factor norm2 length Nat.ltb Nat.leb].
  replace (u0 + dcarry * DIG_BASE) with x by (unfold x; lia). assert (Hx0 : 0 <= x) by (unfold word, x, DIG_BASE in *; lia).
  destruct (nf_bounds DIG_BASE s0 Hs) as (Hn1 & Hn2 & Hn3).
  pose proof (guess_low DIG_BASE s0 s1 x u1 ltac:(done) Hs Hs1 Hx0 H1) as Hlow.
  pose proof (guess_high DIG_BASE s0 s1 x u1 ltac:(done) Hs Hs1 Hx0 H1 eq_refl) as Hhigh.
  pose proof (norm_pos DIG_BASE s0 s1 Hs Hs1) as HD. fold S in Hlow, Hhigh.
  set (nf := DIG_BASE / (s0 + 1)) in *. set (q := (x * DIG_BASE + u1) / S) in *. set (D := nf * s0 + nf * s1 / DIG_BASE) in *.
  set (X := x * DIG_BASE + u1) in *. assert (HS : DIG_BASE <= S) by (unfold word, S, DIG_BASE in *; lia).
  assert (HX : 0 <= X < S * DIG_BASE + S) by (unfold word, X, DIG_BASE in *; lia).
  pose proof (Z.mul_div_le X S ltac:(unfold DIG_BASE in *; lia)) as Hq1. pose proof (Z.mul_succ_div_gt X S ltac:(unfold DIG_BASE in *; lia)) as Hq2.
  fold q in Hq1, Hq2.
  (* the test is the one for the quotient *)
  assert (Ht : forall g, 0 <= g < DIG_BASE -> q <= g <= q + 2 \/ g = DIG_BASE - 1 /\ DIG_BASE <= q -> too_large s0 s1 x u1 g = (q <? g)).
  { intros g Hg Hgq. rewrite too_large_spec; try done; fold S; fold X; [|unfold DIG_BASE in *; nia].
    apply eq_bool_prop_intro. rewrite !Is_true_true, !Z.ltb_lt. unfold DIG_BASE in *; nia. }
  assert (Hnx : 0 <= nf * x < DIG_BASE * DIG_BASE).
  { split; [nia|]. apply Z.lt_le_trans with (nf * ((s0 + 1) * DIG_BASE)); [|unfold DIG_BASE in *; lia].
    apply Z.mul_lt_mono_pos_l; [lia|]. unfold word, S, DIG_BASE in *. lia. }
  assert (Hny : 0 <= nf * u1 <= DIG_BASE * DIG_BASE) by (unfold word, DIG_BASE in *; nia).
  assert (Hyq : 0 <= nf * u1 / DIG_BASE <= DIG_BASE) by (split; [apply Z.div_pos|apply Z.div_le_upper_bound]; unfold DIG_BASE in *; lia).
  rewrite (s64_small (nf * x)), (s64_small (nf * u1)) by (unfold DIG_BASE in *; lia). rewrite (Z.quot_div_nonneg (nf * u1)) by (unfold DIG_BASE in *; lia).
  rewrite s64_small by (unfold DIG_BASE in *; lia). rewrite Z.quot_div_nonneg by lia. clearbody X q D.
  set (g0 := _ / D) in *. clearbody g0. 
  assert (Hq0 : 0 <= q) by nia.
  set (g := if DIG_BASE <=? g0 then DIG_BASE - 1 else g0).
  assert (Hg : 0 <= g < DIG_BASE /\ (q <= g <= q + 2 \/ g = DIG_BASE - 1 /\ DIG_BASE <= q)).
  { unfold g. destruct (Z.leb_spec DIG_BASE g0), (Z.lt_ge_cases q DIG_BASE); unfold DIG_BASE in *; lia. }
  rewrite (Ht g) by apply Hg. destruct (Z.ltb_spec q g); rewrite Ht by lia; destruct (Z.ltb_spec q (g - 1)), (Z.ltb_spec q g); lia.
Qed.

(** ** Subtracting the multiple *)

Lemma SUB2_spec u lo carry a c :
  word u -> word lo -> 0 <= carry <= DIG_BASE -> SUB2 u lo carry = (a, c) -> word a /\ 0 <= c <= 2 /\ a - c * DIG_BASE = u - lo - carry.
Proof.
  unfold SUB2, word, DIG_BASE. intros Hu Hl Hc.
  destruct (Z.ltb_spec (u - lo - carry) 0); [destruct (Z.ltb_spec (u - lo - carry + 1000000000) 0)|destruct (Z.ltb_spec (u - lo - carry) 0)];
    intros [= <- <-]; lia.
Qed.

Lemma mul_word_split g v : 0 <= g < DIG_BASE -> word v ->
  let hi := g * v / DIG_BASE in 0 <= hi <= DIG_BASE - 2 /\ word (g * v - hi * DIG_BASE).
Proof.
  intros Hg Hv hi. unfold word, DIG_BASE in *. pose proof (Z.div_mod (g * v) 1000000000 ltac:(lia)).
  pose proof (Z.mod_pos_bound (g * v) 1000000000 ltac:(lia)). unfold hi.
  assert (0 <= g * v <= 999999999 * 999999999) by nia. split; [split; [apply Z.div_pos; lia|apply Z.lt_succ_r, Z.div_lt_upper_bound; lia]|lia].
Qed.

Lemma mul_sub_spec g vs us carry acc :
  0 <= g < DIG_BASE -> Forall word vs -> Forall word us -> length us = length vs -> 0 <= carry <= DIG_BASE ->
  exists c l, mul_sub g vs us carry acc = Some (c, l ++ acc) /\ length l = length vs /\ Forall word l /\ 0 <= c <= DIG_BASE /\
    words l - c * B (length vs) = words (rev us) - g * words (rev vs) - carry.
Proof.
  intros Hg Hv. revert us carry acc. induction Hv as [|v vs Hv Hvs IH]; intros us carry acc Hu Hl Hc.
  { destruct us; [|done]. exists carry, []. split; [done|]. split; [done|]. split; [constructor|]. split; [lia|]. cbn [rev length]. rewrite words_nil, B_0. lia. }
  destruct us as [|u us]; [done|]. apply list.Forall_cons in Hu as [Hu Hus]. cbn [length] in *. cbn [mul_sub rev].
  destruct (mul_word_split g v Hg Hv) as [Hhi Hlo]. set (hi := g * v / DIG_BASE) in *.
  destruct (SUB2 u (g * v - hi * DIG_BASE) carry) as [a c] eqn:E. apply SUB2_spec in E as (Ha & Hc' & E); try done.
  destruct (IH us (c + hi) (a :: acc)) as (c1 & l & -> & Ll & Wl & Hc1 & V); [done|lia|lia|].
  exists c1, (l ++ [a]). rewrite <- app_assoc. split; [done|]. rewrite length_app. cbn [length]. split; [lia|].
  split; [apply Forall_app; split; [done|apply list.Forall_singleton, Ha]|]. split; [done|].
  rewrite !words_app, !words_one. cbn [length]. change (B 1) with DIG_BASE. rewrite (B_S (length vs)). nia.
Qed.

Lemma add_back_spec vs us carry acc :
  Forall word vs -> Forall word us -> length us = length vs -> 0 <= carry <= 1 ->
  exists c l, add_back vs us carry acc = Some (l ++ acc) /\ length l = length vs /\ Forall word l /\ 0 <= c <= 1 /\
    words l + c * B (length vs) = words (rev us) + words (rev vs) + carry.
Proof.
  intros Hv. revert us carry acc. induction Hv as [|v vs Hv Hvs IH]; intros us carry acc Hu Hl Hc.
  { destruct us; [|done]. exists carry, []. split; [done|]. split; [done|]. split; [constructor|]. split; [lia|]. cbn [rev length]. rewrite words_nil, B_0. lia. }
  destruct us as [|u us]; [done|]. apply list.Forall_cons in Hu as [Hu Hus]. cbn [length] in *. cbn [add_back rev].
  assert (Ha : exists a c, ADD u v carry = (a, c) /\ word a /\ 0 <= c <= 1 /\ a + c * DIG_BASE = u + v + carry).
  { unfold ADD, word, DIG_BASE in *. destruct (Z.leb_spec 1000000000 (u + v + carry)); eexists _, _; (split; [done|lia]). }
  destruct Ha as (a & c & -> & Ha & Hc' & E).
  destruct (IH us c (a :: acc)) as (c1 & l & -> & Ll & Wl & Hc1 & V); [done|lia|lia|].
  exists c1, (l ++ [a]). rewrite <- app_assoc. split; [done|]. rewrite length_app. cbn [length]. split; [lia|].
  split; [apply Forall_app; split; [done|apply list.Forall_singleton, Ha]|]. split; [done|].
  rewrite !words_app, !words_one. cbn [length]. change (B 1) with DIG_BASE. rewrite (B_S (length vs)). nia.
Qed.

(** ** One word of the quotient *)

(** The words of a divisor. *)
Definition leading (vs : list Z) : Prop := Forall word vs /\ 1 <= nth 0 vs 0.

Lemma leading_pos vs : leading vs -> 0 < words vs.
Proof.
  intros [Hv H0]. destruct vs as [|s0 vs]; [cbn in H0; lia|]. apply list.Forall_cons in Hv as [_ Hv]. cbn [nth] in H0.
  rewrite words_cons. pose proof (words_bound vs Hv). pose proof (B_pos (length vs)). nia.
Qed.

(** [dcarry] and the words [win] of the dividend, the last one not yet
    considered, are less than the divisor. *)
Definition reduced (vs win : list Z) (dcarry : Z) : Prop :=
  0 <= dcarry /\ dcarry * B (length vs - 1) + words (take (length vs - 1) win) < words vs.

Lemma reduced_lt vs win dcarry :
  leading vs -> Forall word win -> length win = length vs -> reduced vs win dcarry -> dcarry * B (length vs) + words win < words vs * DIG_BASE.
Proof.
  intros [Hv H0] Hw Hl [_ Hr]. destruct vs as [|s0 vs]; [cbn in H0; lia|]. cbn [length] in *. rewrite Nat.sub_succ, Nat.sub_0_r in Hr.
  rewrite (words_split (length vs) win), Hl by lia. replace (S (length vs) - length vs)%nat with 1%nat by lia. rewrite B_S. change (B 1) with DIG_BASE.
  assert (Hd : words (drop (length vs) win) < DIG_BASE).
  { apply (Forall_drop _ (length vs)) in Hw. apply words_bound in Hw. rewrite length_drop, Hl in Hw.
    replace (S (length vs) - length vs)%nat with 1%nat in Hw by lia. apply Hw. }
  unfold DIG_BASE in *. nia.
Qed.

Lemma guess_spec vs win dcarry u1 :
  leading vs -> Forall word win -> length win = length vs -> reduced vs win dcarry -> word u1 ->
  ((2 <= length vs)%nat -> u1 = nth 1 win 0) ->
  let q := (dcarry * B (length vs) + words win) / words vs in
  let g := make_guess (make_divisor vs) dcarry (nth 0 win 0) u1 in
  0 <= q <= g /\ g <= q + 1 /\ g < DIG_BASE.
Proof.
  intros Hlead Hw Hl Hr Hu1 E1. pose proof (leading_pos vs Hlead) as HV. pose proof (reduced_lt vs win dcarry Hlead Hw Hl Hr) as HP.
  destruct Hlead as [Hv H0]. destruct Hr as [Hc Hr].
  assert (Hq0 : 0 <= (dcarry * B (length vs) + words win) / words vs) by (apply Z.div_pos; [pose proof (words_bound win Hw); pose proof (B_pos (length vs)); nia|done]).
  assert (Hqb : (dcarry * B (length vs) + words win) / words vs < DIG_BASE) by (apply Z.div_lt_upper_bound; lia).
  destruct vs as [|s0 [|s1 vs]]; [cbn in H0; lia| |]; destruct win as [|u0 win]; try done; apply list.Forall_cons in Hw as [Hu0 Hw]; cbn [nth] in *.
  - destruct win; [|done]. apply list.Forall_cons in Hv as [Hs0 _]. cbn [length Nat.sub take] in *. rewrite B_0, words_nil in Hr. rewrite !words_one in *. change (B 1) with DIG_BASE in *.
    rewrite make_guess_one by (unfold word in *; try done; lia). lia.
  - destruct win as [|w1 win]; [done|]. cbn [nth length] in *. rewrite E1 in * by lia. clear E1 u1.
    apply list.Forall_cons in Hw as [_ Hw]. apply list.Forall_cons in Hv as [Hs0 Hv]. apply list.Forall_cons in Hv as [Hs1 Hv].
    assert (Lk : length win = length vs) by lia. pose proof (words_bound vs Hv) as Hvb. rewrite !words_cons in *. cbn [length] in *.
    remember (length vs) as k eqn:Ek. clear Ek. pose proof (B_pos k) as HBk.
    pose proof (words_bound win Hw) as Hwb. rewrite Lk in *. rewrite !B_S in *.
    set (S := s0 * DIG_BASE + s1). set (x := dcarry * DIG_BASE + u0).
    assert (Hx : x <= S).
    { replace (Datatypes.S (Datatypes.S k) - 1)%nat with (Datatypes.S k) in Hr by lia. cbn [take] in Hr. rewrite words_cons, length_take in Hr.
      cbn [length] in Hr. rewrite Lk, Nat.min_l, B_S in Hr by lia.
      pose proof (words_bound (take k (w1 :: win)) ltac:(apply Forall_take; by constructor)) as Ht. unfold x, S, DIG_BASE in *. nia. }
    rewrite make_guess_two; try done; [|by unfold word in *; lia]. fold S x.
    replace (dcarry * (DIG_BASE * (DIG_BASE * B k)) + (u0 * (DIG_BASE * B k) + (w1 * B k + words win))) with ((x * DIG_BASE + w1) * B k + words win) in * by (unfold x; ring).
    replace (s0 * (DIG_BASE * B k) + (s1 * B k + words vs)) with (S * B k + words vs) in * by (unfold S; ring).
    set (X := x * DIG_BASE + w1) in *. set (V := S * B k + words vs) in *. set (P := X * B k + words win) in *. set (q := P / V) in *.
    assert (HS : DIG_BASE <= S) by (unfold word, S, DIG_BASE in *; lia).
    pose proof (Z.mul_div_le P V HV) as Hq1. pose proof (Z.mul_succ_div_gt P V HV) as Hq2. fold q in Hq1, Hq2.
    set (g := X / S). pose proof (Z.mul_div_le X S ltac:(unfold DIG_BASE in *; lia)) as Hg1. fold g in Hg1.
    assert (Hqg : q <= g) by (apply Z.div_le_lower_bound; [unfold DIG_BASE in *; lia|]; unfold P, V in *; nia).
    split; [lia|]. split; [|lia].
    assert (Hm : 0 <= Z.min g (DIG_BASE - 1) <= g) by lia. set (m := Z.min g (DIG_BASE - 1)) in *.
    assert (m * V < P + V); [|nia]. assert (m * S <= X) by nia. assert (m * words vs < DIG_BASE * B k) by nia. unfold P, V in *. nia.
Qed.

Lemma place_unique m a c r d : 0 <= a < m -> 0 <= r < m -> a - c * m = r - d * m -> c = d /\ a = r.
Proof. intros Ha Hr E. assert (c = d) as -> by nia. lia. Qed.

(** The multiple is subtracted and the divisor added back if it was one too many. *)
Lemma reduce_spec vs win dcarry g :
  leading vs -> Forall word win -> length win = length vs -> 0 <= dcarry ->
  let P := dcarry * B (length vs) + words win in let q := P / words vs in
  0 <= q <= g -> g <= q + 1 -> g < DIG_BASE ->
  exists us, ('(carry, us) ← mul_sub g (rev vs) (rev win) 0 [];
     (if dcarry <? carry then us ← add_back (rev vs) (rev us) 0 []; Some (g - 1, us) else Some (g, us))) = Some (q, us) /\
    length us = length vs /\ Forall word us /\ words us = P mod words vs.
Proof.
  intros Hlead Hw Hl Hc P q Hq Hg Hgb. pose proof (leading_pos vs Hlead) as HV. destruct Hlead as [Hv H0].
  pose proof (words_bound vs Hv) as Hvb. pose proof (Z.div_mod P (words vs) ltac:(lia)) as HP. fold q in HP. pose proof (Z.mod_pos_bound P (words vs) HV) as HR.
  set (R := P mod words vs) in *. set (n := length vs) in *. pose proof (B_pos n) as HB.
  destruct (mul_sub_spec g (rev vs) (rev win) 0 []) as (c & l & -> & Ll & Wl & _ & E); [lia|by apply List.Forall_rev|by apply List.Forall_rev|by rewrite !length_rev|done|].
  rewrite app_nil_r, !rev_involutive, !length_rev in *. fold n in Ll, E. cbn [mbind option_bind]. pose proof (words_bound l Wl) as Hlb. rewrite Ll in Hlb.
  assert (E' : words l - c * B n = R + (q - g) * words vs - dcarry * B n) by (unfold P in HP; lia).
  destruct (Z.eq_dec g q) as [->|Hgq].
  - destruct (place_unique (B n) (words l) c R dcarry) as [-> El]; [done|lia|lia|]. rewrite Z.ltb_irrefl. by exists l.
  - assert (g = q + 1) as -> by lia. destruct (place_unique (B n) (words l) c (R - words vs + B n) (dcarry + 1)) as [-> El]; [done|lia|lia|].
    rewrite (proj2 (Z.ltb_lt _ _)) by lia.
    destruct (add_back_spec (rev vs) (rev l) 0 []) as (c' & l' & -> & Ll' & Wl' & Hc' & E2); [by apply List.Forall_rev|by apply List.Forall_rev|by rewrite !length_rev|lia|].
    rewrite app_nil_r, !rev_involutive, !length_rev in *. fold n in Ll', E2. cbn [mbind option_bind]. replace (q + 1 - 1) with q by lia.
    exists l'. pose proof (words_bound l' Wl') as Hlb'. rewrite Ll' in Hlb'. split; [done|]. split; [done|]. split; [done|].
    destruct (place_unique (B n) (words l') (- c') R (- 1)) as [_ E3]; [done|lia|lia|done].
Qed.

Lemma lookup_nth (l : list Z) k : (k < length l)%nat -> l !! k = Some (nth k l 0).
Proof. intros H. destruct (lookup_lt_is_Some_2 l k H) as [x E]. by rewrite E, (nth_lookup_Some l k 0 x E). Qed.

Lemma divide_word_spec vs tmp start1 dcarry :
  leading vs -> Forall word tmp -> (start1 + Nat.max 2 (length vs) <= length tmp)%nat ->
  let win := take (length vs) (drop start1 tmp) in reduced vs win dcarry ->
  let P := dcarry * B (length vs) + words win in
  exists us, divide_word (make_divisor vs) tmp start1 dcarry = Some (P / words vs, take start1 tmp ++ us ++ drop (start1 + length vs) tmp) /\
    length us = length vs /\ Forall word us /\ words us = P mod words vs.
Proof.
  intros Hlead Ht Hlen win Hr P. pose proof Hlead as [Hv H0]. assert (Hn : (1 <= length vs)%nat) by (destruct vs; [cbn in H0; lia|cbn; lia]).
  assert (Hw : Forall word win) by (by apply Forall_take, Forall_drop).
  assert (Hl : length win = length vs) by (unfold win; rewrite length_take, length_drop; lia).
  assert (Hnth : forall k, (k < length vs)%nat -> nth k win 0 = nth (start1 + k) tmp 0).
  { intros k Hk. unfold win. by rewrite !nth_lookup, lookup_take_lt, lookup_drop. }
  unfold divide_word. rewrite (lookup_nth tmp start1) by lia. cbn [mbind option_bind start2 make_divisor].
  assert (E0 : nth start1 tmp 0 = nth 0 win 0) by (rewrite Hnth by lia; by rewrite Nat.add_0_r). rewrite E0.
  destruct ((dcarry =? 0) && (nth 0 win 0 <? nth 0 vs 0)) eqn:Es.
  - apply andb_prop in Es as [Ed Eu]. apply Z.eqb_eq in Ed. apply Z.ltb_lt in Eu. assert (HP : 0 <= P < words vs).
    { unfold P. rewrite Ed. clearbody win. destruct vs as [|s0 vs]; [done|]. destruct win as [|u0 win]; [done|]. cbn [nth] in Eu.
      pose proof (words_top _ _ Hv). pose proof (words_top _ _ Hw). pose proof (words_bound _ Hw). injection Hl as Hl'. rewrite Hl' in *.
      pose proof (B_pos (length vs)). nia. }
    exists win. rewrite Z.div_small, Z.mod_small by done. unfold P. rewrite Ed. split; [|by repeat split].
    unfold win. by rewrite <- drop_drop, take_drop, take_drop.
  - rewrite (lookup_nth tmp (S start1)) by lia. cbn [mbind option_bind]. rewrite (proj2 (Nat.ltb_ge _ _)) by lia.
    destruct (guess_spec vs win dcarry (nth (S start1) tmp 0) Hlead Hw Hl Hr) as (G1 & G2 & G3).
    { apply (list.Forall_nth word 0 tmp); [done|lia]. }
    { intros H2. rewrite Hnth by lia. f_equal. lia. }
    set (g := make_guess _ _ _ _) in *. destruct (reduce_spec vs win dcarry g Hlead Hw Hl (proj1 Hr) G1 G2 G3) as (us & E & Hus).
    exists us. split; [|done]. fold win. destruct (mul_sub _ _ _ _ _) as [[c l]|]; [|done]. cbn [mbind option_bind] in *. by rewrite E.
Qed.

(** ** The quotient and the remainder *)

(** What is left of the dividend, in units of its last word. *)
Definition left_over (tmp : list Z) (start1 : nat) (dcarry : Z) : Z := dcarry * B (length tmp - start1) + words (drop start1 tmp).

Lemma left_over_split tmp start1 dcarry n :
  (start1 + n <= length tmp)%nat ->
  left_over tmp start1 dcarry = (dcarry * B n + words (take n (drop start1 tmp))) * B (length tmp - start1 - n) + words (drop (start1 + n) tmp).
Proof.
  intros H. unfold left_over. rewrite (words_split n (drop start1 tmp)), length_drop, drop_drop by (rewrite length_drop; lia).
  replace (length tmp - start1)%nat with (n + (length tmp - start1 - n))%nat at 1 by lia. rewrite B_add. ring.
Qed.

Lemma divide_words_spec vs n tmp start1 dcarry :
  leading vs -> Forall word tmp -> word dcarry -> (n = 0 \/ start1 + n + Nat.max 2 (length vs) <= length tmp + 1)%nat ->
  (start1 + length vs <= length tmp + 1)%nat ->
  dcarry * B (length vs - 1) + words (take (length vs - 1) (drop start1 tmp)) < words vs ->
  exists qs tmp' dcarry', divide_words (make_divisor vs) n tmp start1 dcarry = Some (qs, (tmp', (start1 + n)%nat, dcarry')) /\
    length qs = n /\ Forall word qs /\ length tmp' = length tmp /\ Forall word tmp' /\ word dcarry' /\
    dcarry' * B (length vs - 1) + words (take (length vs - 1) (drop (start1 + n) tmp')) < words vs /\
    left_over tmp start1 dcarry = words qs * words vs * B (length tmp + 1 - start1 - length vs - n) + left_over tmp' (start1 + n) dcarry'.
Proof.
  intros Hlead. revert tmp start1 dcarry. induction n as [|n IH]; intros tmp start1 dcarry Ht Hd Hn Hs Hr; cbn [divide_words].
  { exists [], tmp, dcarry. rewrite Nat.add_0_r, words_nil. repeat (split; [done|]). lia. }
  destruct Hn as [|Hn]; [done|]. pose proof Hlead as [Hv H0]. assert (HL : (1 <= length vs)%nat) by (destruct vs; [cbn in H0; lia|cbn; lia]).
  set (win := take (length vs) (drop start1 tmp)).
  assert (Hred : reduced vs win dcarry).
  { split; [by apply Hd|]. unfold win. rewrite take_take. by replace ((length vs - 1) `min` length vs)%nat with (length vs - 1)%nat by lia. }
  destruct (divide_word_spec vs tmp start1 dcarry Hlead Ht ltac:(lia) Hred) as (us & -> & Lus & Wus & Vus). fold win in Vus |- *.
  set (P := dcarry * B (length vs) + words win) in *. set (rest := drop (start1 + length vs) tmp). set (tmp1 := take start1 tmp ++ us ++ rest).
  destruct us as [|u0 us]; [cbn in Lus; lia|]. cbn [length] in Lus. apply list.Forall_cons in Wus as [Wu0 Wus]. cbn [mbind option_bind].
  assert (Lt : length (take start1 tmp) = start1) by (rewrite length_take; lia).
  assert (Wr : Forall word rest) by (by apply Forall_drop).
  assert (Lr : length rest = (length tmp - start1 - length vs)%nat) by (unfold rest; rewrite length_drop; lia).
  assert (L1 : length tmp1 = length tmp) by (unfold tmp1; rewrite !length_app, Lt, Lr; cbn [length]; lia).
  assert (W1 : Forall word tmp1) by (unfold tmp1; apply Forall_app; split; [by apply Forall_take|]; apply Forall_app; split; [by constructor|done]).
  assert (D1 : drop (S start1) tmp1 = us ++ rest).
  { unfold tmp1. rewrite <- Nat.add_1_r, <- drop_drop, (drop_app_length' (take start1 tmp)) by done. done. }
  assert (E1 : tmp1 !! start1 = Some u0) by (unfold tmp1; by rewrite lookup_app_r, Lt, Nat.sub_diag by lia).
  rewrite E1. cbn [mbind option_bind]. rewrite words_cons in Vus. replace (length us) with (length vs - 1)%nat in Vus by lia.
  pose proof (leading_pos vs Hlead) as HV. pose proof (Z.mod_pos_bound P (words vs) HV) as HR.
  destruct (IH tmp1 (S start1) u0) as (qs & tmp' & d' & E & Lq & Wq & L' & W' & Wd' & Hr' & Hsum); [done|done|lia|lia| |].
  { rewrite D1, take_app_length' by lia. lia. }
  rewrite E. cbn [mbind option_bind]. rewrite L1 in *. replace (S start1 + n)%nat with (start1 + S n)%nat in * by lia.
  exists (P / words vs :: qs), tmp', d'. split; [done|]. split; [cbn; lia|]. split; [constructor; [|done]|].
  { split; [apply Z.div_pos; [|done]; unfold P; pose proof (words_bound win ltac:(by apply Forall_take, Forall_drop)); pose proof (B_pos (length vs)); destruct Hd; nia|].
    apply Z.div_lt_upper_bound; [done|]. apply reduced_lt; try done; [by apply Forall_take, Forall_drop|]. unfold win. rewrite length_take, length_drop. lia. }
  repeat (split; [done|]). rewrite (left_over_split tmp start1 dcarry (length vs)) by lia. fold win P rest.
  rewrite (left_over_split tmp1 (S start1) u0 (length vs - 1)) in Hsum by lia. rewrite <- drop_drop, D1, take_app_length', drop_app_length' in Hsum by lia.
  rewrite L1, Vus in Hsum. rewrite words_cons, Lq. set (e := (length tmp + 1 - start1 - length vs - S n)%nat).
  replace (length tmp + 1 - S start1 - length vs - n)%nat with e in Hsum by lia.
  replace (length tmp - S start1 - (length vs - 1))%nat with (n + e)%nat in Hsum by lia.
  replace (length tmp - start1 - length vs)%nat with (n + e)%nat by lia.
  rewrite (Z.div_mod P (words vs)) at 1 by lia. rewrite B_add in *. lia.
Qed.

(** The words are those of the quotient, and what is left is the remainder. *)
Lemma divide_words_correct vs n tmp start1 dcarry :
  leading vs -> Forall word tmp -> word dcarry -> (n = 0 \/ start1 + n + Nat.max 2 (length vs) <= length tmp + 1)%nat ->
  (start1 + length vs <= length tmp + 1)%nat ->
  dcarry * B (length vs - 1) + words (take (length vs - 1) (drop start1 tmp)) < words vs ->
  let T := left_over tmp start1 dcarry in let U := words vs * B (length tmp + 1 - start1 - length vs - n) in
  exists qs tmp' dcarry', divide_words (make_divisor vs) n tmp start1 dcarry = Some (qs, (tmp', (start1 + n)%nat, dcarry')) /\
    length qs = n /\ Forall word qs /\ length tmp' = length tmp /\ Forall word tmp' /\ word dcarry' /\
    words qs = T / U /\ left_over tmp' (start1 + n) dcarry' = T mod U.
Proof.
  intros Hlead Ht Hd Hn Hs Hr T U. pose proof Hlead as [_ H0]. assert (HL : (1 <= length vs)%nat) by (destruct vs; [cbn in H0; lia|cbn; lia]).
  destruct (divide_words_spec vs n tmp start1 dcarry Hlead Ht Hd Hn Hs Hr) as (qs & tmp' & d' & E & Lq & Wq & L' & W' & Wd' & Hr' & Hsum).
  exists qs, tmp', d'. repeat (split; [done|]). fold T in Hsum. rewrite <- Z.mul_assoc in Hsum. fold U in Hsum.
  assert (Hb : 0 <= left_over tmp' (start1 + n) d' < U).
  { pose proof (words_bound _ (Forall_drop _ (start1 + n) _ W')) as Hw. pose proof (B_pos (length tmp' - (start1 + n))). split; [unfold left_over; destruct Wd'; nia|].
    rewrite (left_over_split _ _ _ (length vs - 1)) by lia. unfold U. rewrite L'.
    replace (length tmp - (start1 + n) - (length vs - 1))%nat with (length tmp + 1 - start1 - length vs - n)%nat by lia. set (e := (_ - n)%nat).
    pose proof (words_bound _ (Forall_drop _ (start1 + n + (length vs - 1)) _ W')) as Hw2. rewrite length_drop, L' in Hw2.
    replace (length tmp - (start1 + n + (length vs - 1)))%nat with e in Hw2 by lia. pose proof (B_pos e). nia. }
  rewrite Hsum. split; [apply (Z.div_unique_pos _ _ _ (left_over tmp' (start1 + n) d')); [done|]; ring|].
  apply (Z.mod_unique_pos _ _ (words qs)); [done|]. ring.
Qed.
