(* ===== verification/DecimalDivSpec.v ===== *)
(** * What the division of decimals computes

    [decimal_div] gives the quotient of the values, cut off after the words
    there is room for, [decimal_mod] the remainder, with the sign of the
    dividend. *)
From Stdlib Require Import ZArith Lia List Bool.
From stdpp Require Import base tactics list option.
From S2P Require Import Prelude Decimal DecimalValue DecimalAdd DecimalSub DecimalMul DecimalRound DecimalDiv.

Open Scope Z_scope.

#[local] Opaque Nat.div Nat.modulo Z.rem Z.quot.

(** ** The operands *)

(** [i] digits in the first word, nine in each of the [k] others. *)
Lemma div_skip_spec b i k :
  1 <= i <= 9 -> (k < length b)%nat ->
  (take (S k) b = replicate (S k) 0 /\ div_skip b (i + 9 * Z.of_nat k) i = Some (0, drop (S k) b)) \/
  exists j w, (j <= k)%nat /\ take j b = replicate j 0 /\ b !! j = Some w /\ w <> 0 /\
    div_skip b (i + 9 * Z.of_nat k) i = Some ((if (j =? 0)%nat then i else 9) + 9 * Z.of_nat (k - j), drop j b).
Proof.
  revert i k. induction b as [|w b IH]; intros i k Hi Hk; [cbn in Hk; lia|]. cbn [div_skip length] in *.
  rewrite (proj2 (Z.ltb_lt _ _)) by lia. destruct (Z.eqb_spec w 0) as [->|Hw].
  - destruct k as [|k].
    { left. split; [done|]. replace (i + 9 * Z.of_nat 0 - i) with 0 by lia. by destruct b. }
    replace (i + 9 * Z.of_nat (S k) - i) with (9 + 9 * Z.of_nat k) by lia.
    destruct (IH 9 k ltac:(lia) ltac:(lia)) as [[Ht ->]|(j & w & Hj & Ht & Hw & Hw0 & ->)].
    + left. split; [|done]. cbn [take replicate]. f_equal. exact Ht.
    + right. exists (S j), w. split; [lia|]. split; [cbn [take replicate]; by rewrite Ht|]. split; [done|]. split; [done|].
      cbn [Nat.eqb drop Nat.sub]. by destruct (j =? 0)%nat.
  - right. exists 0%nat, w. rewrite Nat.sub_0_r. cbn. repeat (split; [lia || done|]). done.
Qed.

Lemma lead_prec_spec i w prec :
  1 <= w < powers10 (S i) ->
  exists t, (t <= i)%nat /\ lead_prec i w prec = Some (prec - Z.of_nat t) /\ powers10 (i - t) <= w < powers10 (S (i - t)).
Proof.
  revert prec. induction i as [|i IH]; intros prec Hw; cbn [lead_prec].
  - change (powers10 0) with 1. rewrite (proj2 (Z.ltb_ge _ _)) by lia. exists 0%nat. cbn [Z.of_nat]. rewrite Z.sub_0_r. repeat split; try lia; apply Hw.
  - destruct (Z.ltb_spec w (powers10 (S i))) as [H|H].
    + destruct (IH (prec - 1) ltac:(lia)) as (t & Ht & -> & Hb). exists (S t). split; [lia|]. split; [f_equal; lia|exact Hb].
    + exists 0%nat. rewrite Nat.sub_0_r, Z.sub_0_r. repeat split; try lia; apply Hw.
Qed.

(** The first word has as many digits as [prec] says. *)
Lemma first_word_digits d w :
  wf d -> buf d !! 0%nat = Some w ->
  exists i, (1 <= i <= 9)%nat /\ Z.of_nat (intg d) + Z.of_nat (FW d) * 9 = Z.of_nat i + 9 * Z.of_nat (IW d + FW d - 1) /\
    w < powers10 i /\ (1 <= IW d + FW d)%nat.
Proof.
  intros H Hw. pose proof (wf_digits d H) as Hd. pose proof (ROUND_UP_spec (intg d)) as Hi. pose proof (ROUND_UP_spec (frac d)) as Hf.
  fold (IW d) in Hi. fold (FW d) in Hf. assert (Hn : (1 <= IW d + FW d)%nat) by lia.
  assert (Hword : word w).
  { pose proof (wf_words d H) as Hws. apply (Forall_lookup_1 _ _ 0 w Hws). by rewrite lookup_take_lt by lia. }
  destruct (Nat.eq_dec (IW d) 0%nat) as [E|E].
  { exists 9%nat. split; [lia|]. split; [lia|]. split; [apply Hword|done]. }
  exists (intg d - 9 * (IW d - 1))%nat. split; [lia|]. split; [lia|]. split; [|done].
  pose proof (wf_intg d H) as Hv. destruct (buf d) as [|w' bf] eqn:Eb; [done|]. injection Hw as ->.
  destruct (IW d) as [|n] eqn:En; [done|]. cbn [take] in Hv. rewrite words_cons in Hv.
  replace (intg d) with (intg d - 9 * (S n - 1) + 9 * n)%nat in Hv at 1 by lia. rewrite powers10_add, <- powers10_B in Hv.
  pose proof (wf_words d H) as Hws. rewrite Eb, En in Hws. cbn [Nat.add take] in Hws. apply list.Forall_cons in Hws as [_ Hws].
  pose proof (wf_len d H) as Hlen. unfold len in Hlen. rewrite Eb, En in Hlen. cbn [length] in Hlen.
  assert (Ln : length (take n bf) = n) by (rewrite length_take; lia). rewrite Ln in Hv.
  assert (0 <= words (take n bf)).
  { apply words_bound. apply (Forall_take _ n) in Hws. rewrite take_take in Hws. by replace (n `min` (n + FW d))%nat with n in Hws by lia. }
  pose proof (B_pos n). nia.
Qed.

(** What is known of an operand: [prec] digits in the words [b], which begin
    with [w]. *)
Record operand_ok (d : decimal_t) (prec : Z) (b : list Z) (r k : nat) (w : Z) : Prop := mk_operand_ok {
  op_prec : prec = Z.of_nat r + 9 * Z.of_nat k;
  op_r : (1 <= r <= 9)%nat;
  op_w : powers10 (r - 1) <= w < powers10 r;
  op_head : head b = Some w;
  op_len : (k < length b)%nat;
  op_k : (k < IW d + FW d)%nat;
  op_words : Forall word (take (S k) b);
  op_value : words (take (S k) b) = magnitude (FW d) d
}.

Lemma div_operand_spec d :
  wf d ->
  (magnitude (FW d) d = 0 /\ div_operand d = Some None) \/
  exists prec b r k w, div_operand d = Some (Some (prec, b)) /\ operand_ok d prec b r k w.
Proof.
  intros H. pose proof (wf_len d H) as Hlen. unfold len in Hlen. pose proof (wf_digits d H) as Hdig.
  pose proof (ROUND_UP_spec (intg d)) as Hi. pose proof (ROUND_UP_spec (frac d)) as Hf. fold (IW d) in Hi. fold (FW d) in Hf.
  destruct (lookup_lt_is_Some_2 (buf d) 0 ltac:(lia)) as [w0 Hw0]. destruct (first_word_digits d w0 H Hw0) as (i & Hi9 & Hprec & Hwi & Hn1).
  unfold div_operand. fold (FW d). rewrite Hprec. set (K := (IW d + FW d - 1)%nat) in *.
  assert (Hrem : forall i k, 1 <= i <= 9 -> Z.rem (i + 9 * Z.of_nat k - 1) 9 = i - 1).
  { intros i' k' Hi'. rewrite Z.rem_mod_nonneg by lia. replace (i' + 9 * Z.of_nat k' - 1) with (i' - 1 + Z.of_nat k' * 9) by lia.
    rewrite Z.mod_add by lia. apply Z.mod_small. lia. }
  rewrite (Hrem (Z.of_nat i)), Z.sub_add by lia.
  assert (Hm : magnitude (FW d) d = words (take (S K) (buf d))).
  { unfold magnitude. rewrite Nat.min_id, Nat.sub_diag, B_0, Z.mul_1_r. by replace (S K) with (IW d + FW d)%nat by lia. }
  destruct (div_skip_spec (buf d) (Z.of_nat i) K) as [[Ht ->]|(j & w & Hj & Ht & Hw & Hw0' & ->)]; [lia|lia| |]; cbn [mbind option_bind].
  { left. split; [|done]. by rewrite Hm, Ht, words_zeros. }
  right. set (i' := if (j =? 0)%nat then i else 9%nat).
  replace (if (j =? 0)%nat then Z.of_nat i else 9) with (Z.of_nat i') by (unfold i'; by destruct (j =? 0)%nat).
  assert (Hi' : (1 <= i' <= 9)%nat) by (unfold i'; destruct (j =? 0)%nat; lia).
  assert (Hws : Forall word (take (S K) (buf d))) by (pose proof (wf_words d H) as Hws; by replace (S K) with (IW d + FW d)%nat by lia).
  assert (Hword : word w) by (apply (Forall_lookup_1 _ _ j w Hws); by rewrite lookup_take_lt by lia).
  assert (Hwi' : 1 <= w < powers10 (S (i' - 1))).
  { split; [destruct Hword; lia|]. replace (S (i' - 1)) with i' by lia. unfold i'. destruct (Nat.eqb_spec j 0) as [->|]; [congruence|apply Hword]. }
  rewrite (proj2 (Z.leb_gt _ _)) by lia. rewrite head_lookup, lookup_drop, Nat.add_0_r, Hw. cbn [mbind option_bind].
  rewrite Hrem by lia. replace (Z.to_nat (Z.of_nat i' - 1)) with (i' - 1)%nat by lia.
  destruct (lead_prec_spec (i' - 1) w (Z.of_nat i' + 9 * Z.of_nat (K - j)) Hwi') as (t & Hti & -> & Hwt). cbn [mbind option_bind].
  assert (Etd : take (S (K - j)) (drop j (buf d)) = drop j (take (S K) (buf d))).
  { rewrite skipn_firstn_comm. f_equal. lia. }
  exists (Z.of_nat i' + 9 * Z.of_nat (K - j) - Z.of_nat t), (drop j (buf d)), (i' - t)%nat, (K - j)%nat, w. split; [done|].
  split; try lia.
  - replace (i' - t - 1)%nat with (i' - 1 - t)%nat by lia. by replace (i' - t)%nat with (S (i' - 1 - t)) by lia.
  - by rewrite head_lookup, lookup_drop, Nat.add_0_r.
  - rewrite length_drop. lia.
  - rewrite Etd. by apply Forall_drop.
  - rewrite Etd, Hm. rewrite (words_split j (take (S K) (buf d))) by (rewrite length_take; lia).
    rewrite take_take, Nat.min_l, Ht, words_zeros by lia. lia.
Qed.

(** ** The words of the quotient *)

Lemma round_up_words r k : (1 <= r <= 9)%nat -> round_up (Z.of_nat r + 9 * k) = k + 1.
Proof. intros Hr. unfold round_up. destruct (Z.ltb_spec 0 (Z.of_nat r + 9 * k)); Z.to_euclidean_division_equations; lia. Qed.

(** More digits, more than as many. *)
Lemma digits_le r1 w1 r2 w2 : powers10 (r1 - 1) <= w1 -> w2 < powers10 r2 -> w1 <= w2 -> (1 <= r1)%nat -> (r1 <= r2)%nat.
Proof.
  intros H1 H2 Hle Hr. apply Nat.nlt_ge. intros Hc. pose proof (powers10_le r2 (r1 - 1) ltac:(lia)). lia.
Qed.

Lemma dintg_spec r1 k1 w1 r2 k2 w2 c :
  (1 <= r1 <= 9)%nat -> (1 <= r2 <= 9)%nat -> powers10 (r1 - 1) <= w1 < powers10 r1 -> powers10 (r2 - 1) <= w2 < powers10 r2 ->
  let inc := if w2 <=? w1 then 1 else 0 in
  let dintg := Z.of_nat r1 + 9 * k1 - (Z.of_nat r2 + 9 * k2) + inc in
  (if dintg <? 0 then (Z.quot dintg 9, 0) else (dintg, round_up dintg)) = c ->
  snd c = Z.max (k1 - k2 + inc) 0 /\ Z.max (- fst c) 0 = Z.max (- (k1 - k2 + inc)) 0.
Proof.
  intros Hr1 Hr2 Hw1 Hw2 inc dintg <-.
  assert (Hcase : (inc = 0 /\ (r1 <= r2)%nat) \/ (inc = 1 /\ (r2 <= r1)%nat)).
  { unfold inc. destruct (Z.leb_spec w2 w1); [right|left]; (split; [done|]); [eapply (digits_le r2 w2 r1 w1)|eapply (digits_le r1 w1 r2 w2)]; lia. }
  clearbody inc. unfold dintg, round_up. destruct Hcase as [[-> Hr]|[-> Hr]].
  - destruct (Z.ltb_spec (Z.of_nat r1 + 9 * k1 - (Z.of_nat r2 + 9 * k2) + 0) 0); cbn [fst snd];
      [|destruct (Z.ltb_spec 0 (Z.of_nat r1 + 9 * k1 - (Z.of_nat r2 + 9 * k2) + 0))]; Z.to_euclidean_division_equations; lia.
  - destruct (Z.ltb_spec (Z.of_nat r1 + 9 * k1 - (Z.of_nat r2 + 9 * k2) + 1) 0); cbn [fst snd];
      [|destruct (Z.ltb_spec 0 (Z.of_nat r1 + 9 * k1 - (Z.of_nat r2 + 9 * k2) + 1))]; Z.to_euclidean_division_equations; lia.
Qed.

Lemma cross_div M V a b c d : 0 < V -> (a + d = b + c)%nat -> M * B a / (V * B b) = M * B c / (V * B d).
Proof.
  intros HV E. pose proof (B_pos a). pose proof (B_pos b). pose proof (B_pos c). pose proof (B_pos d).
  rewrite <- (Z.div_mul_cancel_r (M * B a) (V * B b) (B d)), <- (Z.div_mul_cancel_r (M * B c) (V * B d) (B b)) by nia.
  rewrite <- !Z.mul_assoc, <- !B_add. by replace (c + b)%nat with (a + d)%nat by lia; replace (d + b)%nat with (b + d)%nat by lia.
Qed.

Lemma operand_cons d prec b r k w : operand_ok d prec b r k w -> 1 <= w /\ exists tl, b = w :: tl /\ (k <= length tl)%nat /\ Forall word (w :: take k tl).
Proof.
  intros O. pose proof (op_w _ _ _ _ _ _ O) as Hw. pose proof (powers10_pos (r - 1)). pose proof (op_head _ _ _ _ _ _ O) as Hh.
  pose proof (op_len _ _ _ _ _ _ O) as Hl. pose proof (op_words _ _ _ _ _ _ O) as Hws.
  destruct b as [|w' tl]; [done|]. injection Hh as ->. split; [lia|]. exists tl. cbn in Hl, Hws. split; [done|]. split; [lia|done].
Qed.

Lemma operand_bound d prec b r k w : operand_ok d prec b r k w -> w * B k <= magnitude (FW d) d < (w + 1) * B k.
Proof.
  intros O. destruct (operand_cons _ _ _ _ _ _ O) as (_ & tl & -> & Hl & Hws). rewrite <- (op_value _ _ _ _ _ _ O). cbn [take].
  pose proof (words_top _ _ Hws) as Ht. rewrite length_take, Nat.min_l in Ht by done. exact Ht.
Qed.

(** A result of whole words. *)
Lemma whole_words i f s l to :
  Forall word l -> (i + f <= length l <= len to)%nat ->
  let r := mk_dec (i * DIG_PER_DEC1) (f * DIG_PER_DEC1) s (overwrite l (buf to)) in
  IW r = i /\ FW r = f /\ len r = len to /\ magnitude f r = words (take (i + f) l) /\ ((0 < intg r + frac r)%nat -> wf r).
Proof.
  intros Hl Hn r. unfold len in *.
  assert (HI : IW r = i) by (unfold IW; cbn [intg r]; apply ROUND_UP_mul). assert (HF : FW r = f) by (unfold FW; cbn [frac r]; apply ROUND_UP_mul).
  assert (Ht : forall k, (k <= i + f)%nat -> take k (buf r) = take k l) by (intros k Hk; unfold r, overwrite; cbn [buf]; by rewrite take_app_le by lia).
  assert (Hlen : length (buf r) = length (buf to)) by (unfold r, overwrite; cbn [buf]; rewrite length_app, length_drop; lia).
  split; [done|]. split; [done|]. split; [done|]. split.
  { unfold magnitude. by rewrite HI, HF, Nat.min_id, Nat.sub_diag, B_0, Z.mul_1_r, Ht. }
  intros Hd. constructor; unfold len; rewrite ?HI, ?HF, ?Ht by lia; [lia|done|by apply Forall_take| |].
  - pose proof (words_bound _ (Forall_take _ i _ Hl)) as Hb. rewrite length_take, Nat.min_l, powers10_B in Hb by lia. cbn [intg r].
    change DIG_PER_DEC1 with 9%nat. rewrite Nat.mul_comm. lia.
  - cbn [frac r]. change DIG_PER_DEC1 with 9%nat. replace (9 * f - f * 9)%nat with 0%nat by lia. apply Z.divide_1_l.
Qed.

(** The digits of a remainder. *)
Lemma magnitude_mod_divide n f a d :
  wf a -> wf d -> (FW a <= n)%nat -> (FW d <= n)%nat -> (frac a <= f)%nat -> (frac d <= f)%nat -> 0 < magnitude n d ->
  (powers10 (9 * n - f) | magnitude n a mod magnitude n d).
Proof.
  intros Ha Hd Na Nd Fa Fd Hp. rewrite Z.mod_eq by lia. apply Z.divide_sub_r; [|apply Z.divide_mul_l];
    (eapply Z.divide_trans; [|by apply magnitude_divide]); apply powers10_divide; lia.
Qed.

Section setup.
Context (a d : decimal_t) (prec1 prec2 : Z) (buf1 buf2 : list Z) (r1 k1 r2 k2 : nat) (w1 w2 : Z).
Context (Ha : wf a) (Hd : wf d) (O1 : operand_ok a prec1 buf1 r1 k1 w1) (O2 : operand_ok d prec2 buf2 r2 k2 w2).

Let inc : Z := if w2 <=? w1 then 1 else 0.
(** The words of the quotient before the point. *)
Let Dw : Z := (Z.of_nat k1 - Z.of_nat (FW a)) - (Z.of_nat k2 - Z.of_nat (FW d)) + inc.
Let vs : list Z := strip_zeros (take (S k2) buf2).
Let start1 : nat := if w1 <? w2 then 1%nat else 0%nat.
Let dcarry : Z := if w1 <? w2 then w1 else 0.
Let M1 : Z := magnitude (FW a) a.
Let M2 : Z := magnitude (FW d) d.

Lemma divisor_spec : leading vs /\ nth 0 vs 0 = w2 /\ exists z, (length vs + z = S k2)%nat /\ M2 = words vs * B z.
Proof.
  destruct (operand_cons _ _ _ _ _ _ O2) as (Hw & tl & Eb & Hl & Hws). unfold vs, M2. rewrite <- (op_value _ _ _ _ _ _ O2).
  pose proof (op_words _ _ _ _ _ _ O2) as Hall. destruct (strip_zeros_spec (take (S k2) buf2)) as [z Hz]. set (v := strip_zeros (take (S k2) buf2)) in *. clearbody v.
  rewrite Hz in Hall |- *. apply Forall_app in Hall as [Hv _]. assert (E0 : nth 0 v 0 = w2).
  { rewrite Eb in Hz. cbn [take] in Hz. destruct v as [|v0 v]; [destruct z; [done|]; cbn in Hz; injection Hz as Hz _; lia|]. by injection Hz as ->. }
  split; [split; [done|lia]|]. split; [done|]. exists z. rewrite words_app, words_zeros, length_replicate, Z.add_0_r. split; [|done].
  apply (f_equal length) in Hz. rewrite length_app, length_replicate, length_take in Hz. pose proof (op_len _ _ _ _ _ _ O2). lia.
Qed.

(** [m] zeros are appended to the dividend. *)
Context (m : nat).
Let tmp : list Z := take (S k1) buf1 ++ replicate m 0.

Lemma dividend_spec :
  Forall word tmp /\ length tmp = (S k1 + m)%nat /\ word dcarry /\ left_over tmp start1 dcarry = M1 * B m /\
  dcarry * B (length vs - 1) + words (take (length vs - 1) (drop start1 tmp)) < words vs.
Proof.
  destruct divisor_spec as ([Hv Hv0] & Ev & z & Lz & _). destruct (operand_cons _ _ _ _ _ _ O1) as (Hw & tl & Eb & Hl & Hws).
  assert (Ht : Forall word tmp) by (apply Forall_app; split; [apply (op_words _ _ _ _ _ _ O1)|apply Forall_replicate; done]).
  assert (Lt : length tmp = (S k1 + m)%nat) by (unfold tmp; rewrite length_app, length_take, length_replicate; pose proof (op_len _ _ _ _ _ _ O1); lia).
  assert (Hval : words tmp = M1 * B m).
  { unfold tmp, M1. by rewrite words_app, words_zeros, length_replicate, (op_value _ _ _ _ _ _ O1), Z.add_0_r. }
  assert (Htmp : tmp = w1 :: take k1 tl ++ replicate m 0) by (unfold tmp; by rewrite Eb).
  assert (Hb : forall s, words (take (length vs - 1) (drop s tmp)) < B (length vs - 1)).
  { intros s. pose proof (words_bound _ (Forall_take _ (length vs - 1) _ (Forall_drop _ s _ Ht))) as [_ Hb].
    eapply Z.lt_le_trans; [exact Hb|]. apply B_le. rewrite length_take. lia. }
  assert (HV : w2 * B (length vs - 1) <= words vs).
  { rewrite <- Ev. destruct vs as [|v0 v]; [cbn in Hv0; lia|]. pose proof (words_top _ _ Hv) as Htop. cbn [nth length Nat.sub] in *. rewrite Nat.sub_0_r. lia. }
  apply list.Forall_cons in Hws as [Hw1 _]. split; [done|]. split; [done|]. specialize (Hb start1). pose proof (B_pos (length vs - 1)).
  unfold left_over, start1, dcarry in *. destruct (Z.ltb_spec w1 w2).
  - split; [done|]. split; [|nia]. rewrite <- Hval, Htmp. cbn [drop length]. rewrite words_cons. do 3 f_equal. lia.
  - split; [done|]. split; [rewrite drop_0; lia|nia].
Qed.

(** The quotient is less than [B Dw]. *)
Lemma quotient_small frac0 : Z.of_nat frac0 + Dw <= 0 -> 0 <= M1 * B (FW d + frac0) < M2 * B (FW a).
Proof.
  intros Hn. pose proof (operand_bound _ _ _ _ _ _ O1) as B1. pose proof (operand_bound _ _ _ _ _ _ O2) as B2. fold M1 in B1. fold M2 in B2.
  destruct (operand_cons _ _ _ _ _ _ O1) as (Hw1 & tl & _ & _ & Hws). apply list.Forall_cons in Hws as [[_ Hw1'] _].
  destruct (operand_cons _ _ _ _ _ _ O2) as (Hw2 & _). pose proof (B_pos k1). pose proof (B_pos k2). pose proof (B_pos (FW a)). pose proof (B_pos (FW d + frac0)). pose proof (B_pos (k2 + FW a)).
  split; [nia|]. unfold Dw, inc in Hn.
  assert (Hm : M1 * B (FW d + frac0) < w2 * (B k2 * B (FW a))); [|nia]. rewrite <- B_add.
  destruct (Z.leb_spec w2 w1) as [Hle|Hlt].
  - assert (M1 < B (S k1)) by (rewrite B_S; nia). pose proof (B_le (S k1 + (FW d + frac0)) (k2 + FW a) ltac:(lia)) as HB. rewrite (B_add (S k1)) in HB.
    apply Z.lt_le_trans with (B (S k1) * B (FW d + frac0)); [apply Z.mul_lt_mono_pos_r; lia|]. nia.
  - pose proof (B_le (k1 + (FW d + frac0)) (k2 + FW a) ltac:(lia)) as HB. rewrite (B_add k1) in HB.
    assert (M1 < w2 * B k1) by nia. apply Z.lt_le_trans with (w2 * B k1 * B (FW d + frac0)); [apply Z.mul_lt_mono_pos_r; lia|]. nia.
Qed.

Lemma quotient_words frac0 n :
  Z.of_nat n = Z.max (Z.of_nat frac0 + Dw) 0 -> (n = 0 \/ start1 + n + Nat.max 2 (S k2) <= S k1 + m + 1)%nat ->
  exists qs r, divide_words (make_divisor vs) n tmp start1 dcarry = Some (qs, r) /\ length qs = n /\ Forall word qs /\
    words qs = M1 * B (FW d + frac0) / (M2 * B (FW a)).
Proof.
  intros Hn Hroom. destruct (Nat.eq_dec n 0%nat) as [->|Hn0].
  { exists [], (tmp, start1, dcarry). rewrite Z.div_small by (apply quotient_small; lia). repeat (split; [done|]). done. }
  destruct divisor_spec as (Hlead & Ev & z & Lz & EM2). destruct dividend_spec as (Ht & Lt & Hdc & Hlo & Hred).
  destruct (divide_words_correct vs n tmp start1 dcarry Hlead Ht Hdc ltac:(lia) ltac:(lia) Hred) as (qs & tmp' & d' & E & Lq & Wq & _ & _ & _ & Vq & _).
  exists qs, (tmp', (start1 + n)%nat, d'). repeat (split; [done|]). rewrite Vq, Hlo, EM2, <- (Z.mul_assoc (words vs)), <- B_add.
  apply cross_div; [by apply leading_pos|]. rewrite Lt. unfold Dw, inc, start1 in *. destruct (Z.leb_spec w2 w1), (Z.ltb_spec w1 w2); lia.
Qed.
Lemma divide_some n :
  (n = 0 \/ start1 + n + Nat.max 2 (S k2) <= S k1 + m + 1)%nat ->
  exists qs r, divide_words (make_divisor vs) n tmp start1 dcarry = Some (qs, r) /\ length qs = n /\ Forall word qs.
Proof.
  intros Hroom. destruct (Nat.eq_dec n 0%nat) as [->|Hn0]; [by exists [], (tmp, start1, dcarry)|].
  destruct divisor_spec as (Hlead & Ev & z & Lz & EM2). destruct dividend_spec as (Ht & Lt & Hdc & Hlo & Hred).
  destruct (divide_words_spec vs n tmp start1 dcarry Hlead Ht Hdc ltac:(lia) ltac:(lia) Hred) as (qs & tmp' & d' & E & Lq & Wq & _).
  by exists qs, (tmp', (start1 + n)%nat, d').
Qed.

(** What is known of a quotient with room for [F] words after the point. *)
Record quotient_ok (s : bool) (F : nat) (to : decimal_t) (err : Z) (r : decimal_t) : Prop := mk_quotient_ok {
  quo_err : err = E_DEC_OK \/ err = E_DEC_TRUNCATED \/ err = E_DEC_OVERFLOW;
  quo_sign : sign r = s;
  quo_len : len r = len to;
  quo_wf : (0 < intg r + frac r)%nat -> wf r;
  quo_value : err <> E_DEC_OVERFLOW -> magnitude (FW r) r = M1 * B (FW d + FW r) / (M2 * B (FW a));
  quo_frac : err = E_DEC_OK -> frac r = (F * 9)%nat;
  quo_trunc : err = E_DEC_TRUNCATED -> (FW r < F)%nat /\ (IW r + FW r = len to)%nat /\ IW r = Z.to_nat (Z.max Dw 0);
  quo_over : err = E_DEC_OVERFLOW -> Z.of_nat (len to) < Dw
}.

Lemma room_for F n f :
  (F + FW d + 1 <= m + FW a)%nat -> (f <= F)%nat -> Z.of_nat n <= Z.max (Z.of_nat f + Dw) 0 ->
  (n = 0 \/ start1 + n + Nat.max 2 (S k2) <= S k1 + m + 1)%nat.
Proof.
  assert (Hst : Z.of_nat start1 + inc = 1) by (unfold start1, inc; destruct (Z.ltb_spec w1 w2), (Z.leb_spec w2 w1); lia).
  intros HF Hf Hn. unfold Dw in Hn. lia.
Qed.

(** There is room for the words before the point and [f] after it. *)
Lemma div_fits s F f err z to :
  (F + FW d + 1 <= m + FW a)%nat -> z = Nat.min (Z.to_nat (- Dw)) (len to) ->
  let i := Z.to_nat (Z.max Dw 0) in
  (f <= F)%nat -> (i + f <= len to)%nat -> err = E_DEC_OK /\ f = F \/ err = E_DEC_TRUNCATED /\ (f < F)%nat /\ (i + f = len to)%nat ->
  exists qs x, divide_words (make_divisor vs) (i + f - z) tmp start1 dcarry = Some (qs, x) /\
    (length (replicate z 0%Z ++ qs) <= len to)%nat /\
    quotient_ok s F to err (mk_dec (i * DIG_PER_DEC1) (f * DIG_PER_DEC1) s (overwrite (replicate z 0 ++ qs) (buf to))).
Proof.
  intros HF Ez i Hf Hi Herr. assert (Hn : Z.of_nat (i + f - z) = Z.max (Z.of_nat f + Dw) 0) by lia.
  destruct (quotient_words f (i + f - z) Hn) as (qs & x & -> & Lq & Wq & Vq); [by apply (room_for F _ f); lia|].
  assert (Ll : length (replicate z 0 ++ qs) = (z + (i + f - z))%nat) by (rewrite length_app, length_replicate; lia).
  exists qs, x. split; [done|]. split; [lia|].
  destruct (whole_words i f s (replicate z 0 ++ qs) to) as (EI & EF & El & Em & Ew); [apply Forall_app; split; [by apply Forall_replicate|done]|rewrite Ll; lia|].
  set (r := mk_dec _ _ _ _) in *. constructor; try done; [destruct Herr as [[-> _]|[-> _]]; tauto| | | |destruct Herr as [[-> _]|[-> _]]; done].
  - intros _. rewrite EF, Em, <- Vq. destruct (Nat.le_gt_cases z (i + f)) as [Hz|Hz].
    + rewrite take_ge by lia. rewrite words_app, words_zeros. lia.
    + assert (qs = []) as -> by (destruct qs; [done|cbn in Lq; lia]). by rewrite app_nil_r, take_replicate, words_zeros.
  - intros ->. destruct Herr as [[_ ->]|[? _]]; done.
  - intros ->. destruct Herr as [[? _]|[_ [? ?]]]; [done|]. rewrite EF, EI. by split_and!.
Qed.

Lemma div_result_spec s F dintg to :
  (F + FW d + 1 <= m + FW a)%nat -> Z.max (- dintg) 0 = Z.max (- Dw) 0 -> (0 < len to)%nat ->
  exists err r, div_result s (Z.to_nat (Z.max Dw 0)) F dintg (make_divisor vs) tmp start1 dcarry to = Some (err, r) /\
    quotient_ok s F to err r.
Proof.
  intros HF Hdin Hlen. unfold div_result. set (i := Z.to_nat (Z.max Dw 0)). replace (Z.to_nat (- dintg)) with (Z.to_nat (- Dw)) by lia.
  unfold FIX_INTG_FRAC_ERROR. destruct (Nat.ltb_spec (len to) (i + F)) as [H1|H1]; [destruct (Nat.ltb_spec (len to) i) as [H2|H2]|].
  - replace (Nat.min (Z.to_nat (- Dw)) (len to)) with 0%nat by lia. rewrite Nat.add_0_r, Nat.sub_0_r.
    destruct (divide_some (len to)) as (qs & x & -> & Lq & Wq); [apply (room_for F _ 0%nat); lia|]. cbn [mbind option_bind replicate app].
    rewrite Lq, Nat.ltb_irrefl. eexists E_DEC_OVERFLOW, _. split; [done|].
    destruct (whole_words (len to) 0 s qs to) as (_ & EF & El & Em & Ew); [done|lia|].
    constructor; try done; [tauto|]. intros _. lia.
  - destruct (div_fits s F (len to - i) E_DEC_TRUNCATED _ to HF eq_refl) as (qs & x & E & Hl & Hq); [lia|lia|right; split; [done|lia]|]. fold i in E, Hq. rewrite E. cbn [mbind option_bind].
    rewrite (proj2 (Nat.ltb_ge _ _)) by exact Hl. eexists _, _. by split.
  - destruct (div_fits s F F E_DEC_OK _ to HF eq_refl) as (qs & x & E & Hl & Hq); [lia|lia|by left|]. fold i in E, Hq. rewrite E. cbn [mbind option_bind].
    rewrite (proj2 (Nat.ltb_ge _ _)) by exact Hl. eexists _, _. by split.
Qed.
(** ** The remainder *)

Lemma remainder_words n :
  Z.of_nat n = Z.max Dw 0 -> (FW d + FW d + 1 <= m)%nat ->
  exists qs tmp' d', divide_words (make_divisor vs) n tmp start1 dcarry = Some (qs, (tmp', (start1 + n)%nat, d')) /\
    length tmp' = (S k1 + m)%nat /\ Forall word tmp' /\ word d' /\ (n = 0%nat -> d' = dcarry) /\
    left_over tmp' (start1 + n) d' = (M1 * B m) mod (M2 * B (m + FW a - FW d)).
Proof.
  intros Hn Hm. destruct divisor_spec as (Hlead & Ev & z & Lz & EM2). destruct dividend_spec as (Ht & Lt & Hdc & Hlo & Hred).
  destruct (Z.lt_ge_cases Dw 1) as [HD|HD].
  { assert (n = 0%nat) as -> by lia. exists [], tmp, dcarry. rewrite Nat.add_0_r. repeat (split; [done|]). rewrite Hlo.
    pose proof (quotient_small 0 ltac:(lia)) as Hq. rewrite Nat.add_0_r in Hq. pose proof (B_pos (m - FW d)). symmetry. apply Z.mod_small.
    replace (m + FW a - FW d)%nat with (FW a + (m - FW d))%nat by lia. replace (B m) with (B (FW d) * B (m - FW d)) by (rewrite <- B_add; f_equal; lia).
    rewrite B_add. nia. }
  pose proof (room_for (m + FW a - FW d - 1) n 0 ltac:(lia) ltac:(lia) ltac:(lia)) as Hroom.
  destruct (divide_words_correct vs n tmp start1 dcarry Hlead Ht Hdc ltac:(lia) ltac:(lia) Hred) as (qs & tmp' & d' & E & Lq & Wq & L' & W' & Wd & _ & Hr).
  exists qs, tmp', d'. split; [done|]. split; [lia|]. split; [done|]. split; [done|]. split; [lia|]. rewrite Hr, Hlo, EM2, <- Z.mul_assoc, <- B_add. do 3 f_equal.
  rewrite Lt. unfold Dw, inc, start1 in *. destruct (Z.leb_spec w2 w1), (Z.ltb_spec w1 w2); lia.
Qed.
(** Where the remainder begins. *)
Lemma restore_spec n tmp' d' :
  Z.of_nat n = Z.max Dw 0 -> length tmp' = (S k1 + m)%nat -> (n = 0%nat -> d' = dcarry) -> (start1 + n <= S k1 + m)%nat ->
  exists tmp'' p, (if d' =? 0 then Some (tmp', (start1 + n)%nat)
      else match (start1 + n)%nat with O => None | S p => Some (<[p := d']> tmp', p) end) = Some (tmp'', p) /\
    length tmp'' = (S k1 + m)%nat /\ words (drop p tmp'') = left_over tmp' (start1 + n) d' /\ (Forall word tmp' -> word d' -> Forall word tmp'') /\
    - Z.of_nat (Nat.max (FW a) (FW d)) <= Z.of_nat k1 + 1 - Z.of_nat (FW a) - Z.of_nat p <= Z.of_nat (IW d).
Proof.
  intros Hn Hl H0 Hle. pose proof (op_k _ _ _ _ _ _ O2) as Hk2. pose proof (op_k _ _ _ _ _ _ O1) as Hk1.
  assert (Hst : Z.of_nat start1 + inc = 1 /\ 0 <= inc) by (unfold start1, inc; destruct (Z.ltb_spec w1 w2), (Z.leb_spec w2 w1); lia).
  destruct (operand_cons _ _ _ _ _ _ O1) as (Hw1 & _).
  destruct (Z.eqb_spec d' 0) as [->|Hd0].
  - exists tmp', (start1 + n)%nat. split; [done|]. split; [done|]. split; [unfold left_over; lia|]. split; [done|].
    assert (Hs0 : n = 0%nat -> start1 = 0%nat) by (intros E; specialize (H0 E); unfold dcarry, start1 in *; destruct (w1 <? w2); lia).
    unfold Dw in Hn. lia.
  - assert (Hs1 : (1 <= start1 + n)%nat).
    { destruct n; [|lia]. specialize (H0 eq_refl). unfold dcarry, start1 in *. destruct (w1 <? w2); [lia|done]. }
    destruct (start1 + n)%nat as [|p] eqn:Ep; [lia|]. exists (<[p := d']> tmp'), p. split; [done|]. split; [by rewrite length_insert|].
    split; [|split; [intros; by apply Forall_insert|]].
    + unfold left_over. rewrite (drop_S (<[p := d']> tmp') d' p) by (apply list_lookup_insert_eq; lia). rewrite words_cons, drop_insert_lt by lia.
      by rewrite length_drop.
    + unfold Dw in Hn. lia.
Qed.
(** The remainder is in the words up to those of the longer fraction. *)
Lemma remainder_value tmp'' p :
  let N := Nat.max (FW a) (FW d) in let i := Z.of_nat k1 + 1 - Z.of_nat (FW a) - Z.of_nat p in
  length tmp'' = (S k1 + m)%nat -> Forall word tmp'' -> - Z.of_nat N <= i -> (FW d + FW d + 1 <= m)%nat ->
  words (drop p tmp'') = (M1 * B m) mod (M2 * B (m + FW a - FW d)) ->
  let l := take (Z.to_nat (Z.of_nat N + i)) (drop p tmp'') in
  length l = Z.to_nat (Z.of_nat N + i) /\ words l = magnitude N a mod magnitude N d /\ (p + Z.to_nat (Z.of_nat N + i) <= length tmp'')%nat.
Proof.
  intros N i Hl Hw Hi Hm Hr l. set (n' := Z.to_nat (Z.of_nat N + i)) in *. set (c := (m + FW a - N)%nat).
  assert (Hle : (p + n' + c = length tmp'')%nat) by lia. assert (Ll : length l = n') by (unfold l; rewrite length_take, length_drop; lia).
  split; [done|]. split; [|lia].
  assert (HR : words (drop p tmp'') = (magnitude N a mod magnitude N d) * B c).
  { rewrite Hr. pose proof (operand_bound _ _ _ _ _ _ O2) as B2. destruct (operand_cons _ _ _ _ _ _ O2) as (Hw2 & _).
    rewrite (magnitude_exact N a), (magnitude_exact N d) by lia. fold M1 M2. fold M2 in B2. pose proof (B_pos k2).
    rewrite <- Z.mul_mod_distr_r by (pose proof (B_pos c); pose proof (B_pos (N - FW d)); nia). rewrite <- !Z.mul_assoc, <- !B_add. do 2 f_equal; f_equal; lia. }
  rewrite (words_split n') in HR by (rewrite length_drop; lia). fold l in HR. rewrite length_drop, drop_drop in HR.
  replace (length tmp'' - p - n')%nat with c in HR by lia. pose proof (words_bound _ (Forall_drop _ (p + n') _ Hw)) as Hb. rewrite length_drop in Hb.
  replace (length tmp'' - (p + n'))%nat with c in Hb by lia.
  destruct (place_unique (B c) (words (drop (p + n') tmp'')) (- words l) 0 (- (magnitude N a mod magnitude N d))) as [E _]; [done|pose proof (B_pos c); lia|lia|lia].
Qed.

(** What is known of a remainder. *)
Record remainder_ok (to r : decimal_t) : Prop := mk_remainder_ok {
  rem_wf : wf r;
  rem_frac : (frac r <= Nat.max (frac a) (frac d))%nat;
  rem_value : let N := Nat.max (FW a) (FW d) in magnitude N r = magnitude N a mod magnitude N d;
  rem_sign : sign r = sign a \/ magnitude (FW r) r = 0
}.

Lemma remainder_result to i l :
  let N := Nat.max (FW a) (FW d) in
  Forall word l -> length l = Z.to_nat (Z.of_nat N + i) -> words l = magnitude N a mod magnitude N d ->
  - Z.of_nat N <= i <= Z.of_nat (IW d) -> Z.of_nat N <> 0 \/ i <> 0 -> (Nat.max 1 (IW d) + N <= len to)%nat ->
  remainder_ok to (mk_dec (if i <=? 0 then 0%nat else Nat.min (Z.to_nat i * DIG_PER_DEC1) (intg d)) (Nat.max (frac a) (frac d)) (sign a)
    (overwrite (replicate (Z.to_nat (- i)) 0 ++ l) (buf to))).
Proof.
  intros N Wl Ll Vl Hi H0 Hroom. assert (EN : ROUND_UP (Nat.max (frac a) (frac d)) = N) by apply ROUND_UP_max.
  assert (Hmod : 0 < magnitude N d).
  { rewrite magnitude_exact by lia. pose proof (operand_bound _ _ _ _ _ _ O2). destruct (operand_cons _ _ _ _ _ _ O2) as (Hw2 & _). pose proof (B_pos k2).
    pose proof (B_pos (N - FW d)). nia. }
  pose proof (Z.mod_pos_bound (magnitude N a) (magnitude N d) Hmod) as HR. rewrite <- Vl in HR. pose proof (magnitude_lt N d Hd ltac:(lia)) as Hlt.
  set (z := Z.to_nat (- i)). set (ii := if i <=? 0 then 0%nat else _).
  assert (El : words (replicate z 0 ++ l) = words l) by (rewrite words_app, words_zeros; lia).
  assert (Hii : ROUND_UP ii = Z.to_nat i /\ ((0 < ii)%nat \/ (i <= 0 /\ ii = 0%nat)) /\ words l < powers10 ii * B N).
  { unfold ii. pose proof (ROUND_UP_spec (intg d)) as Hr. fold (IW d) in Hr. pose proof (words_bound l Wl) as Hb. rewrite Ll in Hb.
    destruct (Z.leb_spec i 0) as [Hi0|Hi0].
    - split; [change (ROUND_UP 0) with 0%nat; lia|]. split; [by right|]. change (powers10 0) with 1.
      pose proof (B_le (Z.to_nat (Z.of_nat N + i)) N ltac:(lia)). lia.
    - change DIG_PER_DEC1 with 9%nat. pose proof (ROUND_UP_spec (Nat.min (Z.to_nat i * 9) (intg d))). split; [lia|]. split; [left; lia|].
      destruct (Nat.min_spec (Z.to_nat i * 9) (intg d)) as [[_ ->]|[_ ->]]; [|lia].
      replace (Z.to_nat (Z.of_nat N + i)) with (Z.to_nat i + N)%nat in Hb by lia. rewrite B_add, (powers10_B (Z.to_nat i)) in Hb.
      rewrite Nat.mul_comm. lia. }
  destruct Hii as (Eii & Hii & Hlt').
  destruct (digits_result ii (Nat.max (frac a) (frac d)) (sign a) (replicate z 0 ++ l) to) as [Hwf Hval]; rewrite ?EN, ?El, ?length_app, ?length_replicate; try done.
  - apply Forall_app. split; [by apply Forall_replicate|done].
  - lia.
  - lia.
  - pose proof (ROUND_UP_spec (Nat.max (frac a) (frac d))). lia.
  - rewrite Vl. apply magnitude_mod_divide; try done; lia.
  - set (r := mk_dec _ _ _ _) in *. assert (HF : FW r = N) by exact EN. constructor; [done|cbn; lia| |by left].
    cbn zeta. fold N. rewrite <- HF at 1. by rewrite Hval, El, Vl.
Qed.

Lemma mod_result_spec n to :
  Z.of_nat n = Z.max Dw 0 -> (FW d + FW d + 1 <= m)%nat -> (Nat.max 1 (IW d) + Nat.max (FW a) (FW d) <= len to)%nat ->
  exists r, mod_result (sign a) (Nat.max (frac a) (frac d)) n (Z.of_nat k1 + 1 - Z.of_nat (FW a)) (intg d)
      (make_divisor vs) tmp start1 dcarry to = Some (E_DEC_OK, r) /\ remainder_ok to r.
Proof.
  intros Hn Hm Hroom. unfold mod_result. destruct (remainder_words n Hn Hm) as (qs & tmp' & d' & -> & Ltmp & Wtmp & Wd & Hd0 & Hlo). cbn [mbind option_bind].
  destruct (restore_spec n tmp' d' Hn Ltmp Hd0) as (tmp'' & p & -> & Ltmp2 & Wr & Wtmp2 & Hi).
  { pose proof (room_for (m + FW a - FW d - 1) n 0 ltac:(lia) ltac:(lia) ltac:(lia)) as Hrm. unfold start1 in *. destruct (w1 <? w2); lia. }
  cbn [mbind option_bind]. specialize (Wtmp2 Wtmp Wd). rewrite Hlo in Wr. set (N := Nat.max (FW a) (FW d)) in *.
  assert (EN : ROUND_UP (Nat.max (frac a) (frac d)) = N) by apply ROUND_UP_max. rewrite EN.
  destruct (remainder_value tmp'' p Ltmp2 Wtmp2 ltac:(fold N; lia) Hm Wr) as (Ll & Vl & Hle). fold N in Ll, Vl, Hle.
  set (i := Z.of_nat k1 + 1 - Z.of_nat (FW a) - Z.of_nat p) in *. set (n' := Z.to_nat (Z.of_nat N + i)) in *. set (l := take n' (drop p tmp'')) in *.
  assert (Wl : Forall word l) by (by apply Forall_take, Forall_drop).
  destruct ((Z.of_nat N =? 0) && (i =? 0)) eqn:Ez.
  { apply andb_prop in Ez as [E1 E2]. apply Z.eqb_eq in E1, E2. eexists. split; [done|].
    destruct (make_zero_spec to ltac:(lia)) as (Hwf & _ & Hs & HF & Hv). constructor; [done|cbn; lia| |by right].
    cbn zeta. fold N. rewrite Hv, <- Vl. unfold l. replace n' with 0%nat by lia. by rewrite take_0, words_nil. }
  assert (Hz : Z.of_nat N <> 0 \/ i <> 0) by (apply andb_false_iff in Ez as [E|E]; apply Z.eqb_neq in E; tauto).
  rewrite (proj2 (andb_false_iff _ _)) by (right; apply Z.leb_gt; lia). rewrite (proj2 (Z.ltb_ge _ i)) by lia.
  pose proof (remainder_result to i l Wl Ll Vl Hi Hz Hroom) as Hres.
  destruct (Z.leb_spec i 0) as [Hi0|Hi0].
  - rewrite (proj2 (Z.ltb_ge _ (1 + (Z.of_nat N + i)))) by lia. fold n'. rewrite (proj2 (orb_false_iff _ _)) by (split; apply Nat.ltb_ge; lia). fold l.
    by eexists.
  - rewrite (proj2 (Z.ltb_ge _ (i + Z.of_nat N))) by lia. fold n'. rewrite (proj2 (orb_false_iff _ _)) by (split; apply Nat.ltb_ge; lia). fold l.
    by eexists.
Qed.
End setup.

(** ** Quotients and remainders of values *)

(** The words after the point that are asked for: those of both operands, and
    what the increment of the scale needs beyond their digits. *)
Definition div_words (a d : decimal_t) (si : Z) : nat :=
  Nat.max (FW a + FW d) (ROUND_UP (frac a + frac d + Z.to_nat si)).

Lemma asked_words a d si x :
  0 <= si -> x = Z.max (Z.of_nat (frac a + frac d) + si) (Z.of_nat (FW a + FW d) * 9) ->
  Z.to_nat (round_up x) = div_words a d si.
Proof.
  intros Hsi ->. unfold div_words, round_up. generalize (FW a + FW d)%nat as w. intros w.
  pose proof (ROUND_UP_spec (frac a + frac d + Z.to_nat si)) as [H1 H2].
  revert H1 H2. generalize (ROUND_UP (frac a + frac d + Z.to_nat si)) as u. intros u H1 H2.
  destruct (Z.ltb_spec 0 (Z.max (Z.of_nat (frac a + frac d) + si) (Z.of_nat w * 9))); Z.to_euclidean_division_equations; lia.
Qed.

Lemma do_div_mod_shape a d to is_mod si prec1 prec2 buf1 buf2 r1 k1 r2 k2 w1 w2 :
  div_operand a = Some (Some (prec1, buf1)) -> div_operand d = Some (Some (prec2, buf2)) ->
  operand_ok a prec1 buf1 r1 k1 w1 -> operand_ok d prec2 buf2 r2 k2 w2 ->
  let Dw := Z.of_nat k1 - Z.of_nat (FW a) - (Z.of_nat k2 - Z.of_nat (FW d)) + (if w2 <=? w1 then 1 else 0) in
  exists m F dintg n,
    (let d' := make_divisor (strip_zeros (take (S k2) buf2)) in let tmp := take (S k1) buf1 ++ replicate m 0 in
     let start1 := if w1 <? w2 then 1%nat else 0%nat in let dcarry := if w1 <? w2 then w1 else 0 in
     do_div_mod a d to is_mod si =
     if is_mod then mod_result (sign a) (Nat.max (frac a) (frac d)) n (Z.of_nat k1 + 1 - Z.of_nat (FW a)) (intg d) d' tmp start1 dcarry to
     else div_result (xorb (sign a) (sign d)) n F dintg d' tmp start1 dcarry to) /\
    n = Z.to_nat (Z.max Dw 0) /\ Z.max (- dintg) 0 = Z.max (- Dw) 0 /\
    (F + FW d + 1 <= m + FW a)%nat /\ (FW d + FW d + 1 <= m)%nat /\
    (0 <= si -> F = div_words a d si).
Proof.
  intros E1 E2 O1 O2 Dw. unfold do_div_mod. rewrite E1, E2. cbn [mbind option_bind]. fold (FW a) (FW d).
  rewrite (op_head _ _ _ _ _ _ O1), (op_head _ _ _ _ _ _ O2). cbn [mbind option_bind].
  rewrite (op_prec _ _ _ _ _ _ O1), (op_prec _ _ _ _ _ _ O2). set (si' := Z.max (si - _) 0).
  pose proof (op_r _ _ _ _ _ _ O1) as Hr1. pose proof (op_r _ _ _ _ _ _ O2) as Hr2.
  pose proof (dintg_spec r1 (Z.of_nat k1 - Z.of_nat (FW a)) w1 r2 (Z.of_nat k2 - Z.of_nat (FW d)) w2 _ Hr1 Hr2 (op_w _ _ _ _ _ _ O1) (op_w _ _ _ _ _ _ O2) eq_refl) as [Hs Hf].
  fold Dw in Hs, Hf.
  replace (Z.of_nat r1 + 9 * Z.of_nat k1 - Z.of_nat (FW a) * 9 - (Z.of_nat r2 + 9 * Z.of_nat k2 - Z.of_nat (FW d) * 9))
    with (Z.of_nat r1 + 9 * (Z.of_nat k1 - Z.of_nat (FW a)) - (Z.of_nat r2 + 9 * (Z.of_nat k2 - Z.of_nat (FW d)))) by lia.
  destruct (if _ <? 0 then _ else _) as [dintg intg0] in Hs, Hf |- *. cbn [fst snd] in Hs, Hf. subst intg0.
  replace (Z.of_nat r1 + 9 * Z.of_nat k1 - Z.of_nat (FW a) * 9) with (Z.of_nat r1 + 9 * (Z.of_nat k1 - Z.of_nat (FW a))) by lia.
  rewrite !round_up_words by done. replace (Z.to_nat (Z.of_nat k1 + 1)) with (S k1) by lia. replace (Z.to_nat (Z.of_nat k2 + 1)) with (S k2) by lia.
  pose proof (op_len _ _ _ _ _ _ O1). pose proof (op_len _ _ _ _ _ _ O2). rewrite (proj2 (orb_false_iff _ _)) by (split; apply Nat.ltb_ge; lia).
  set (len1 := Z.max (_ + 1) 3). set (F := Z.to_nat (round_up _)).
  exists (Z.to_nat (len1 - (Z.of_nat k1 + 1))), F, dintg, (Z.to_nat (Z.max Dw 0)).
  split; [destruct (w1 <? w2), is_mod; do 2 f_equal; lia|]. split; [done|]. split; [done|].
  assert (0 <= si') by lia.
  assert (HF : 0 <= si -> F = div_words a d si) by (intros Hsi; apply asked_words; unfold si'; lia).
  split_and!; [..|done]; clear HF; unfold F, len1, round_up; rewrite !(proj2 (Z.ltb_lt 0 (2 * _ + _ + 1))) by lia;
  destruct (Z.ltb_spec 0 (Z.of_nat (FW a) * 9 + Z.of_nat (FW d) * 9 + si')); Z.to_euclidean_division_equations; lia.
Qed.

Lemma quot_signed s1 s2 A C : 0 <= A -> 0 < C -> Z.quot (signed s1 A) (signed s2 C) = signed (xorb s1 s2) (A / C).
Proof. intros HA HC. destruct s1, s2; cbn [signed xorb]; rewrite ?Z.quot_opp_l, ?Z.quot_opp_r, Z.quot_div_nonneg by lia; lia. Qed.

Lemma rem_signed s1 s2 A C : 0 <= A -> 0 < C -> Z.rem (signed s1 A) (signed s2 C) = signed s1 (A mod C).
Proof. intros HA HC. destruct s1, s2; cbn [signed]; rewrite ?Z.rem_opp_l, ?Z.rem_opp_r, Z.rem_mod_nonneg by lia; lia. Qed.

(** The operands are zero or have words. *)
Lemma operand_cases n d :
  wf d -> (FW d <= n)%nat ->
  (value n d = 0 /\ magnitude (FW d) d = 0 /\ div_operand d = Some None) \/
  (value n d <> 0 /\ 0 < magnitude (FW d) d /\
   exists prec b r k w, div_operand d = Some (Some (prec, b)) /\ operand_ok d prec b r k w).
Proof.
  intros H Hn. rewrite value_exact by done. pose proof (B_pos (n - FW d)) as HB. destruct (div_operand_spec d H) as [[Hm E]|(prec & b & r & k & w & E & O)].
  - left. unfold value. rewrite Hm. by destruct (sign d).
  - right. pose proof (operand_bound _ _ _ _ _ _ O) as Hb. destruct (operand_cons _ _ _ _ _ _ O) as (Hw & _). pose proof (B_pos k).
    assert (Hp : 0 < magnitude (FW d) d) by nia. split; [unfold value; destruct (sign d); nia|]. split; [done|]. by exists prec, b, r, k, w.
Qed.

Lemma overflow_bound n a d prec1 prec2 buf1 buf2 r1 k1 r2 k2 w1 w2 l :
  operand_ok a prec1 buf1 r1 k1 w1 -> operand_ok d prec2 buf2 r2 k2 w2 -> (FW a <= n)%nat -> (FW d <= n)%nat ->
  Z.of_nat l < Z.of_nat k1 - Z.of_nat (FW a) - (Z.of_nat k2 - Z.of_nat (FW d)) + (if w2 <=? w1 then 1 else 0) ->
  B l * magnitude n d <= 2 * magnitude n a.
Proof.
  intros O1 O2 Na Nd Hl. rewrite (magnitude_exact n a), (magnitude_exact n d) by done.
  pose proof (operand_bound _ _ _ _ _ _ O1) as B1. pose proof (operand_bound _ _ _ _ _ _ O2) as B2.
  destruct (operand_cons _ _ _ _ _ _ O1) as (Hw1 & _). destruct (operand_cons _ _ _ _ _ _ O2) as (Hw2 & ? & _ & _ & Hws2). apply list.Forall_cons in Hws2 as [[_ Hw2'] _].
  pose proof (B_pos l). pose proof (B_pos (n - FW a)). pose proof (B_pos (n - FW d)). pose proof (B_pos k1). pose proof (B_pos k2).
  assert (Hlow : w1 * B (k1 + (n - FW a)) <= magnitude (FW a) a * B (n - FW a)) by (rewrite B_add; nia).
  destruct (Z.leb_spec w2 w1).
  - assert (Hup : B l * (magnitude (FW d) d * B (n - FW d)) <= 2 * w1 * B (l + (k2 + (n - FW d)))).
    { rewrite !B_add. assert (magnitude (FW d) d <= 2 * w1 * B k2) by nia. assert (0 <= B l * B (n - FW d)) by nia. nia. }
    pose proof (B_le (l + (k2 + (n - FW d))) (k1 + (n - FW a)) ltac:(lia)). nia.
  - assert (Hup : B l * (magnitude (FW d) d * B (n - FW d)) <= B (l + (S k2 + (n - FW d)))).
    { rewrite !B_add, B_S. assert (magnitude (FW d) d <= DIG_BASE * B k2) by nia. assert (0 <= B l * B (n - FW d)) by nia. nia. }
    pose proof (B_le (l + (S k2 + (n - FW d))) (k1 + (n - FW a)) ltac:(lia)). pose proof (B_pos (k1 + (n - FW a))). nia.
Qed.

Lemma abs_value n d : wf d -> Z.abs (value n d) = magnitude n d.
Proof.
  intros Hd. pose proof (magnitude_nonneg n d Hd). rewrite value_signed. unfold signed.
  destruct (sign d); rewrite ?Z.abs_opp; by apply Z.abs_eq.
Qed.

(** C8: [decimal_div], with an increment of the scale that is not negative, is the
    quotient of the values, cut off towards zero after the words of the result.  Without an error the result has the words after the
    point that are asked for (a dividend of zero gives a plain zero); it is
    truncated only when the words before the point leave room for fewer, and
    then fills the buffer, with at most one word more before the point than
    the quotient needs; it overflows only when the integer part may not fit. *)
Theorem decimal_div_correct a d to si n :
  wf a -> wf d -> 0 <= si -> (0 < len to)%nat -> (FW a <= n)%nat -> (FW d <= n)%nat ->
  (value n d = 0 -> decimal_div a d to si = Some (E_DEC_DIV_ZERO, to)) /\
  (value n d <> 0 -> exists err r, decimal_div a d to si = Some (err, r) /\
     (err = E_DEC_OK \/ err = E_DEC_TRUNCATED \/ err = E_DEC_OVERFLOW) /\ len r = len to /\ ((0 < intg r + frac r)%nat -> wf r) /\
     (err <> E_DEC_OVERFLOW -> value (FW r) r = Z.quot (value n a * B (FW r)) (value n d)) /\
     (err = E_DEC_OK -> value n a = 0 \/ frac r = (9 * div_words a d si)%nat /\ Z.of_nat (frac a) + Z.of_nat (frac d) + si <= Z.of_nat (frac r)) /\
     (err = E_DEC_TRUNCATED -> (FW r < div_words a d si)%nat /\ (IW r + FW r = len to)%nat /\
        (IW r = 0%nat \/ B (IW r - 1) * Z.abs (value n d) <= 2 * Z.abs (value n a))) /\
     (err = E_DEC_OVERFLOW -> B (len to) * Z.abs (value n d) <= 2 * Z.abs (value n a))).
Proof.
  intros Ha Hd Hsi Hlen Na Nd. unfold decimal_div.
  destruct (operand_cases n d Hd Nd) as [(Hv & _ & E2)|(Hv & Hp & prec2 & buf2 & r2 & k2 & w2 & E2 & O2)]; (split; [intros E|intros E]); try done.
  { unfold do_div_mod. by rewrite E2. }
  destruct (operand_cases n a Ha Na) as [(Hva & _ & E1)|(Hva & Hpa & prec1 & buf1 & r1 & k1 & w1 & E1 & O1)].
  { exists E_DEC_OK, (decimal_make_zero to). destruct (make_zero_spec to Hlen) as (Hwf & Hl & Hs & HF & Hm).
    split; [unfold do_div_mod; by rewrite E2; cbn [mbind option_bind]; rewrite E1|]. split; [by left|]. split; [done|]. split; [done|].
    split; [|split; [by left|done]]. intros _. unfold value at 1. rewrite Hm, Hva. by destruct (sign _). }
  destruct (do_div_mod_shape a d to false si _ _ _ _ _ _ _ _ _ _ E1 E2 O1 O2) as (m & F & dintg & k & -> & -> & Hdi & HF & _ & Hprec).
  specialize (Hprec Hsi). pose proof (ROUND_UP_spec (frac a + frac d + Z.to_nat si)) as Hru.
  destruct (div_result_spec a d _ _ _ _ _ _ _ _ _ _ O1 O2 m (xorb (sign a) (sign d)) F dintg to HF Hdi Hlen) as (err & r & -> & Q).
  exists err, r. split; [done|]. split; [apply (quo_err _ _ _ _ _ _ _ _ _ _ _ Q)|]. split; [apply (quo_len _ _ _ _ _ _ _ _ _ _ _ Q)|].
  split; [apply (quo_wf _ _ _ _ _ _ _ _ _ _ _ Q)|].
  pose proof (fun l => overflow_bound n a d _ _ _ _ _ _ _ _ _ _ l O1 O2 Na Nd) as Hb. rewrite <- !(abs_value n) in Hb by done.
  split; [|split; [|split]].
  - intros He. rewrite !value_signed, (quo_value _ _ _ _ _ _ _ _ _ _ _ Q He), (quo_sign _ _ _ _ _ _ _ _ _ _ _ Q).
    replace (signed (sign a) (magnitude n a) * B (FW r)) with (signed (sign a) (magnitude n a * B (FW r))) by (destruct (sign a); cbn [signed]; ring).
    rewrite (magnitude_exact n a), (magnitude_exact n d) by done. pose proof (B_pos (n - FW a)). pose proof (B_pos (n - FW d)). pose proof (B_pos (FW r)).
    rewrite quot_signed by nia. f_equal. rewrite <- Z.mul_assoc, <- B_add. apply cross_div; [done|lia].
  - intros He. right. rewrite (quo_frac _ _ _ _ _ _ _ _ _ _ _ Q He), Hprec. unfold div_words. lia.
  - intros He. destruct (quo_trunc _ _ _ _ _ _ _ _ _ _ _ Q He) as (H1 & H2 & H3). rewrite <- Hprec. split; [done|]. split; [done|].
    destruct (Nat.eq_dec (IW r) 0%nat) as [|Hi]; [by left|right]. apply Hb. lia.
  - intros He. exact (Hb _ (quo_over _ _ _ _ _ _ _ _ _ _ _ Q He)).
Qed.

(** C14: [decimal_mod] is the remainder of the values with the sign of the
    dividend, exact, when the result has room for the words of the divisor
    before the point and those of the longer fraction. *)
Theorem decimal_mod_correct a d to n :
  wf a -> wf d -> (Nat.max 1 (IW d) + Nat.max (FW a) (FW d) <= len to)%nat -> (FW a <= n)%nat -> (FW d <= n)%nat ->
  (value n d = 0 -> decimal_mod a d to = Some (E_DEC_DIV_ZERO, to)) /\
  (value n d <> 0 -> exists r, decimal_mod a d to = Some (E_DEC_OK, r) /\ wf r /\ (frac r <= Nat.max (frac a) (frac d))%nat /\
     value n r = Z.rem (value n a) (value n d)).
Proof.
  intros Ha Hd Hlen Na Nd. unfold decimal_mod.
  destruct (operand_cases n d Hd Nd) as [(Hv & _ & E2)|(Hv & Hp & prec2 & buf2 & r2 & k2 & w2 & E2 & O2)]; (split; [intros E|intros E]); try done.
  { unfold do_div_mod. by rewrite E2. }
  destruct (operand_cases n a Ha Na) as [(Hva & _ & E1)|(Hva & Hpa & prec1 & buf1 & r1 & k1 & w1 & E1 & O1)].
  { exists (decimal_make_zero to). destruct (make_zero_spec to ltac:(lia)) as (Hwf & Hl & Hs & HF & Hm).
    split; [unfold do_div_mod; by rewrite E2; cbn [mbind option_bind]; rewrite E1|]. split; [done|]. split; [cbn; lia|].
    unfold value at 1. rewrite Hm, Hva. by destruct (sign _). }
  destruct (do_div_mod_shape a d to true 0 _ _ _ _ _ _ _ _ _ _ E1 E2 O1 O2) as (m & F & dintg & k & -> & -> & Hdi & _ & HF & _).
  destruct (mod_result_spec a d _ _ _ _ _ _ _ _ _ _ Ha Hd O1 O2 m (Z.to_nat _) to (Z2Nat.id _ (Z.le_max_r _ 0)) HF Hlen) as (r & -> & R).
  exists r. split; [done|]. split; [apply (rem_wf _ _ _ _ R)|]. split; [apply (rem_frac _ _ _ _ R)|].
  pose proof (rem_frac _ _ _ _ R) as Hfr. pose proof (ROUND_UP_le _ _ Hfr) as HFr. rewrite ROUND_UP_max in HFr. fold (FW r) (FW a) (FW d) in HFr.
  set (N := Nat.max (FW a) (FW d)). rewrite (value_scale n N r), (value_scale n N a), (value_scale n N d) by lia.
  assert (HpN : 0 < magnitude N d) by (rewrite magnitude_exact by lia; pose proof (B_pos (N - FW d)); nia).
  rewrite Z.mul_rem_distr_r by (pose proof (B_pos (n - N)); rewrite ?value_signed; unfold signed; destruct (sign d); lia). f_equal.
  rewrite !value_signed, rem_signed by (pose proof (magnitude_nonneg N a Ha); lia). pose proof (rem_value _ _ _ _ R) as Hrv. cbn zeta in Hrv. fold N in Hrv. rewrite Hrv.
  destruct (rem_sign _ _ _ _ R) as [->|E0]; [done|]. assert (Hz : magnitude N r = 0) by (rewrite (magnitude_exact N r) by lia; by rewrite E0).
  rewrite <- Hrv, Hz. by destruct (sign r), (sign a).
Qed.
