(* ===== verification/DecimalShift.v ===== *)
(** * What shifting computes

    [decimal_shift] multiplies a number by a power of ten when the digits of the
    product have room: the digits are first moved inside the words, then the
    words, and the words between the digits and the point are cleared. *)
From Stdlib Require Import ZArith Lia List Bool.
From stdpp Require Import base tactics list option.
From S2P Require Import Prelude Decimal DecimalValue DecimalAdd DecimalSub DecimalMul DecimalRound DecimalRoundSpec DecimalDiv DecimalDivSpec.

Open Scope Z_scope.

#[local] Opaque Nat.div Nat.modulo Z.rem Z.quot.

(** ** Digits in a buffer *)

(** The words from [i] to before [j]. *)
Definition seg (b : list Z) (i j : nat) : list Z := take (j - i) (drop i b).

Lemma seg_length b i j : (j <= length b)%nat -> length (seg b i j) = (j - i)%nat.
Proof. intros H. unfold seg. rewrite length_take, length_drop. lia. Qed.

Lemma seg_split b i k j : (i <= k <= j)%nat -> (j <= length b)%nat -> seg b i j = seg b i k ++ seg b k j.
Proof.
  intros H Hl. unfold seg. replace (j - i)%nat with ((k - i) + (j - k))%nat by lia.
  rewrite <- (take_take_drop (drop i b)), drop_drop. do 3 f_equal. lia.
Qed.

(** [D] is in the places from [beg] to before [en], which are in the words [p]
    to [q]. *)
Record holds (b : list Z) (beg en p q : nat) (D : Z) : Prop := mk_holds {
  h_p : (9 * p <= beg < 9 * p + 9)%nat;
  h_q : (9 * q < en <= 9 * q + 9)%nat;
  h_lt : (beg < en)%nat;
  h_len : (q < length b)%nat;
  h_words : Forall word (seg b p (S q));
  h_val : words (seg b p (S q)) = D * powers10 (9 * S q - en);
  h_D : 0 < D < powers10 (en - beg)
}.

(** The words of a number around its digits are zero. *)
Lemma narrow b P Q beg en p q D :
  (9 * p <= beg < 9 * p + 9)%nat -> (9 * q < en <= 9 * q + 9)%nat -> (beg < en)%nat -> (P <= p)%nat -> (q <= Q)%nat -> (Q < length b)%nat ->
  Forall word (seg b P (S Q)) -> words (seg b P (S Q)) = D * powers10 (9 * S Q - en) -> 0 < D < powers10 (en - beg) ->
  holds b beg en p q D /\ seg b P p = replicate (p - P) 0 /\ seg b (S q) (S Q) = replicate (Q - q) 0.
Proof.
  intros Hp Hq Hlt HP HQ Hl Hw Hv HD. assert (Hpq : (p <= q)%nat) by lia.
  rewrite (seg_split b P p (S Q)), (seg_split b p (S q) (S Q)) in Hw, Hv by lia.
  apply Forall_app in Hw as [W1 Hw]. apply Forall_app in Hw as [W2 W3]. rewrite !words_app in Hv.
  rewrite length_app, !seg_length in Hv by lia. pose proof (words_bound _ W1) as B1. pose proof (words_bound _ W2) as B2. pose proof (words_bound _ W3) as B3.
  rewrite !seg_length in B1, B2, B3 by lia. set (A := words (seg b P p)) in *. set (M := words (seg b p (S q))) in *. set (C := words (seg b (S q) (S Q))) in *.
  replace (S Q - S q)%nat with (Q - q)%nat in * by lia. pose proof (B_pos (S q - p)). pose proof (B_pos (Q - q)) as HBQ.
  replace (9 * S Q - en)%nat with (9 * (Q - q) + (9 * S q - en))%nat in Hv by lia. rewrite powers10_add, <- powers10_B in Hv. rewrite B_add in Hv.
  set (e := powers10 (9 * S q - en)) in *. assert (Hx : D * e < B (S q - p)).
  { rewrite powers10_B. apply Z.lt_le_trans with (powers10 (en - beg) * e); [apply Z.mul_lt_mono_pos_r; [apply powers10_pos|lia]|].
    unfold e. rewrite <- powers10_add. apply powers10_le. lia. }
  assert (EC : C = 0 /\ A * B (S q - p) + M = D * e).
  { destruct (place_unique (B (Q - q)) C (- (A * B (S q - p) + M)) 0 (- (D * e))) as [E1 E2]; [done|lia|lia|]. lia. }
  destruct EC as [EC EA]. assert (EA0 : A = 0) by (destruct (Z.eq_dec A 0); [done|]; assert (1 * B (S q - p) <= A * B (S q - p)) by (apply Z.mul_le_mono_nonneg_r; lia); lia).
  assert (EM : M = D * e) by (rewrite EA0 in EA; lia).
  split; [constructor; try done; lia|]. split; apply words_inj; try done; try (by apply Forall_replicate); rewrite ?words_zeros, ?length_replicate, ?seg_length by lia; done || lia.
Qed.

(** ** The bounds of the digits *)

Lemma first_digit_spec i w start :
  1 <= w < powers10 (S i) -> exists t, (t <= i)%nat /\ first_digit i w start = Some (start + Z.of_nat t) /\ w < powers10 (S i - t).
Proof.
  revert start. induction i as [|i IH]; intros start Hw; cbn [first_digit].
  - change (powers10 0) with 1. rewrite (proj2 (Z.ltb_ge _ _)) by lia. exists 0%nat. rewrite Z.add_0_r. split; [lia|]. split; [done|]. apply Hw.
  - destruct (Z.ltb_spec w (powers10 (S i))) as [H|H].
    + destruct (IH (start + 1) ltac:(lia)) as (t & Ht & -> & Hb). exists (S t). split; [lia|]. split; [f_equal; lia|]. by replace (S (S i) - S t)%nat with (S i - t)%nat by lia.
    + exists 0%nat. rewrite Z.add_0_r, Nat.sub_0_r. split; [lia|]. split; [done|]. apply Hw.
Qed.

Lemma last_digit_spec n i w stop :
  word w -> w <> 0 -> (i + n = 10)%nat -> (1 <= i <= 9)%nat -> (powers10 (i - 1) | w) ->
  exists t, (t < n)%nat /\ last_digit n i w stop = Some (stop - Z.of_nat t) /\ (powers10 (i - 1 + t) | w).
Proof.
  intros Hw H0. revert i stop. induction n as [|n IH]; intros i stop Hn Hi Hd; [lia|]. cbn [last_digit].
  destruct (Z.eqb_spec (w mod powers10 i) 0) as [E|E].
  - apply Z.mod_divide in E; [|pose proof (powers10_pos i); lia]. destruct (Nat.eq_dec i 9%nat) as [->|Hi9].
    { exfalso. destruct E as [k E]. destruct Hw as [Hw1 Hw2]. change (powers10 9) with DIG_BASE in E. assert (k <> 0) by (intros ->; lia). unfold DIG_BASE in *. nia. }
    destruct (IH (S i) (stop - 1)) as (t & Ht & -> & Hdt); [lia|lia|by replace (S i - 1)%nat with i by lia|].
    exists (S t). split; [lia|]. split; [f_equal; lia|]. by replace (i - 1 + S t)%nat with (S i - 1 + t)%nat by lia.
  - exists 0%nat. rewrite Z.sub_0_r, Nat.add_0_r. split; [lia|]. done.
Qed.

Lemma first_nonzero_spec b :
  (first_nonzero b = None /\ b = replicate (length b) 0) \/
  exists j w, first_nonzero b = Some j /\ b !! j = Some w /\ w <> 0 /\ take j b = replicate j 0.
Proof.
  induction b as [|w b IH]; cbn [first_nonzero]; [by left|]. destruct (Z.eqb_spec w 0) as [->|Hw].
  - destruct IH as [[-> E]|(j & w & -> & Ej & Hw & T)]; [left; split; [done|]; cbn [length replicate]; by f_equal|].
    right. exists (S j), w. repeat (split; [done|]). cbn [take replicate]. by f_equal.
  - right. by exists 0%nat, w.
Qed.

(** The value of words after a prefix of zeros. *)
Lemma words_after_zeros l j w m :
  Forall word l -> take j l = replicate j 0 -> l !! j = Some w -> w < powers10 m -> (m <= 9)%nat -> words l < powers10 (9 * (length l - j) - (9 - m)).
Proof.
  intros Hl T Ej Hw Hm. pose proof (lookup_lt_Some _ _ _ Ej) as Hj. rewrite (words_split j l) by lia. rewrite T, words_zeros, Z.mul_0_l, Z.add_0_l.
  rewrite (drop_S l w j Ej), words_cons. pose proof (words_bound _ (Forall_drop _ (S j) _ Hl)) as Hb. rewrite length_drop in *.
  replace (9 * (length l - j) - (9 - m))%nat with (m + 9 * (length l - S j))%nat by lia. rewrite powers10_add, <- powers10_B. pose proof (B_pos (length l - S j)). nia.
Qed.

Lemma words_before_zeros l j w m :
  l !! j = Some w -> drop (S j) l = replicate (length l - S j) 0 -> (powers10 m | w) -> (m <= 9)%nat -> (powers10 (9 * (length l - S j) + m) | words l).
Proof.
  intros Ej T Hd Hm. pose proof (lookup_lt_Some _ _ _ Ej) as Hj. rewrite (words_split (S j) l), T, words_zeros, Z.add_0_r, (words_take_S l j w Ej) by lia.
  rewrite powers10_add, <- powers10_B, Z.mul_comm. apply Z.mul_divide_mono_r. apply Z.divide_add_r; [|done]. apply Z.divide_mul_r. change DIG_BASE with (powers10 9). by apply powers10_divide.
Qed.

Lemma last_nonzero_tail n b p :
  (n <= length b)%nat -> last_nonzero n b = Some (Some p) -> drop (S p) (take n b) = replicate (n - S p) 0.
Proof.
  induction n as [|n IH]; intros Hl; cbn [last_nonzero]; [done|]. destruct (lookup_lt_is_Some_2 b n ltac:(lia)) as [w Eb]. rewrite Eb. cbn [mbind option_bind].
  destruct (Z.eqb_spec w 0) as [->|Hw].
  - intros E. assert (Hp : (p < n)%nat).
    { destruct (last_nonzero_spec n b ltac:(lia)) as [[E' _]|(p' & E' & Hp & _)]; congruence. }
    rewrite (take_S_r b n 0 Eb), drop_app_le by (rewrite length_take; lia). rewrite IH by (done || lia).
    replace (S n - S p)%nat with (n - S p + 1)%nat by lia. by rewrite replicate_add.
  - intros [= <-]. rewrite Nat.sub_diag. apply drop_ge. rewrite length_take. lia.
Qed.

Lemma digit_count n : (0 < n)%nat -> ((n - 1) mod 9 + 1 = n - 9 * (ROUND_UP n - 1))%nat /\ (1 <= (n - 1) mod 9 + 1 <= 9)%nat.
Proof.
  intros H. pose proof (ROUND_UP_spec n). pose proof (Nat.div_mod_eq (n - 1) 9). pose proof (Nat.mod_upper_bound (n - 1) 9 ltac:(lia)). lia.
Qed.

Lemma bounds_first d jb w :
  wf d -> let x := take (IW d + FW d) (buf d) in
  x !! jb = Some w -> w <> 0 -> take jb x = replicate jb 0 ->
  exists beg, (let '(start, i) :=
      if (jb =? 0)%nat && negb (intg d =? 0)%nat then
        let i := ((intg d - 1) mod DIG_PER_DEC1 + 1)%nat in (9 - Z.of_nat i, (i - 1)%nat)
      else (Z.of_nat jb * 9, 8%nat) in first_digit i w start) = Some (Z.of_nat beg) /\
    words x < powers10 (9 * (IW d + FW d) - beg) /\ (beg < 9 * (IW d + FW d))%nat /\ (9 * IW d <= beg + intg d)%nat.
Proof.
  intros H x Ej Hw T. pose proof (wf_words d H) as Hx. fold x in Hx. pose proof (wf_len d H) as Hlen. unfold len in Hlen.
  assert (Lx : length x = (IW d + FW d)%nat) by (unfold x; rewrite length_take; lia). pose proof (lookup_lt_Some _ _ _ Ej) as Hj. rewrite Lx in Hj.
  pose proof (Forall_lookup_1 _ _ _ _ Hx Ej) as Hword. pose proof (ROUND_UP_spec (intg d)) as HI. fold (IW d) in HI. change DIG_PER_DEC1 with 9%nat.
  destruct (Nat.eqb_spec jb 0) as [->|Hj0]; [destruct (Nat.eqb_spec (intg d) 0) as [Ei|Ei]|]; cbn [negb andb].
  - destruct (first_digit_spec 8 w (Z.of_nat 0 * 9)) as (t & Ht & -> & Hb); [destruct Hword; split; [lia|done]|]. exists t. split; [f_equal; lia|].
    pose proof (words_after_zeros x 0 w (9 - t) Hx T Ej Hb ltac:(lia)) as Hv. rewrite Lx in Hv. split; [|lia].
    by replace (9 * (IW d + FW d) - t)%nat with (9 * (IW d + FW d - 0) - (9 - (9 - t)))%nat by lia.
  - destruct (digit_count (intg d) ltac:(lia)) as [Hc Hc9]. fold (IW d) in Hc. set (i := ((intg d - 1) mod 9 + 1)%nat) in *.
    unfold x in Ej. rewrite lookup_take_lt in Ej by lia. destruct (first_word_digits d w H Ej) as (i' & Hi' & Hrel & Hwi & _). assert (i' = i) as -> by lia.
    destruct (first_digit_spec (i - 1) w (9 - Z.of_nat i)) as (t & Ht & -> & Hb); [replace (S (i - 1)) with i by lia; destruct Hword; lia|].
    exists (9 - i + t)%nat. split; [f_equal; lia|]. replace (S (i - 1)) with i in Hb by lia.
    pose proof (words_after_zeros x 0 w (i - t) Hx T ltac:(unfold x; by rewrite lookup_take_lt by lia) Hb ltac:(lia)) as Hv. rewrite Lx in Hv. split; [|lia].
    by replace (9 * (IW d + FW d) - (9 - i + t))%nat with (9 * (IW d + FW d - 0) - (9 - (i - t)))%nat by lia.
  - destruct (first_digit_spec 8 w (Z.of_nat jb * 9)) as (t & Ht & -> & Hb); [destruct Hword; split; [lia|done]|]. exists (9 * jb + t)%nat. split; [f_equal; lia|].
    pose proof (words_after_zeros x jb w (9 - t) Hx T Ej Hb ltac:(lia)) as Hv. rewrite Lx in Hv. split; [|lia].
    by replace (9 * (IW d + FW d) - (9 * jb + t))%nat with (9 * (IW d + FW d - jb) - (9 - (9 - t)))%nat by lia.
Qed.

Lemma bounds_last d je w :
  wf d -> let x := take (IW d + FW d) (buf d) in
  x !! je = Some w -> w <> 0 -> drop (S je) x = replicate (IW d + FW d - S je) 0 ->
  exists en, (let '(stop, i) :=
      if (S je =? IW d + FW d)%nat && negb (frac d =? 0)%nat then
        let i := ((frac d - 1) mod DIG_PER_DEC1 + 1)%nat in (Z.of_nat je * 9 + Z.of_nat i, (10 - i)%nat)
      else (Z.of_nat (S je) * 9, 1%nat) in last_digit (10 - i) i w stop) = Some (Z.of_nat en) /\
    (powers10 (9 * (IW d + FW d) - en) | words x) /\ (0 < en <= 9 * (IW d + FW d))%nat /\ (en <= 9 * IW d + frac d)%nat.
Proof.
  intros H x Ej Hw T. pose proof (wf_words d H) as Hx. fold x in Hx. pose proof (wf_len d H) as Hlen. unfold len in Hlen.
  assert (Lx : length x = (IW d + FW d)%nat) by (unfold x; rewrite length_take; lia). pose proof (lookup_lt_Some _ _ _ Ej) as Hj. rewrite Lx in Hj.
  pose proof (Forall_lookup_1 _ _ _ _ Hx Ej) as Hword. pose proof (ROUND_UP_spec (frac d)) as HF. fold (FW d) in HF. change DIG_PER_DEC1 with 9%nat.
  rewrite <- Lx in T.
  destruct (Nat.eqb_spec (S je) (IW d + FW d)) as [El|El]; [destruct (Nat.eqb_spec (frac d) 0) as [Ef|Ef]|]; cbn [negb andb].
  - change (10 - 1)%nat with 9%nat. destruct (last_digit_spec 9 1 w (Z.of_nat (S je) * 9) Hword Hw) as (t & Ht & -> & Hd); [lia|lia|apply Z.divide_1_l|]. exists (9 * S je - t)%nat. split; [f_equal; lia|].
    pose proof (words_before_zeros x je w t Ej T Hd ltac:(lia)) as Hv. rewrite Lx in Hv. split; [|lia].
    by replace (9 * (IW d + FW d) - (9 * S je - t))%nat with (9 * (IW d + FW d - S je) + t)%nat by lia.
  - destruct (digit_count (frac d) ltac:(lia)) as [Hc Hc9]. fold (FW d) in Hc. set (i := ((frac d - 1) mod 9 + 1)%nat) in *.
    assert (Hdiv : (powers10 (9 - i) | w)).
    { pose proof (wf_frac d H) as Hfr. fold x in Hfr. replace (9 * FW d - frac d)%nat with (9 - i)%nat in Hfr by lia.
      assert (Et : take (S je) x = x) by (apply take_ge; lia). rewrite <- Et, (words_take_S x je w Ej) in Hfr.
      apply Z.divide_add_cancel_r in Hfr; [done|]. apply Z.divide_mul_r. change DIG_BASE with (powers10 9). apply powers10_divide. lia. }
    destruct (last_digit_spec (10 - (10 - i)) (10 - i) w (Z.of_nat je * 9 + Z.of_nat i) Hword Hw) as (t & Ht & -> & Hd); [lia|lia|by replace (10 - i - 1)%nat with (9 - i)%nat by lia|].
    exists (9 * je + i - t)%nat. split; [f_equal; lia|].
    pose proof (words_before_zeros x je w (10 - i - 1 + t) Ej T Hd ltac:(lia)) as Hv. rewrite Lx in Hv. split; [|lia].
    by replace (9 * (IW d + FW d) - (9 * je + i - t))%nat with (9 * (IW d + FW d - S je) + (10 - i - 1 + t))%nat by lia.
  - change (10 - 1)%nat with 9%nat. destruct (last_digit_spec 9 1 w (Z.of_nat (S je) * 9) Hword Hw) as (t & Ht & -> & Hd); [lia|lia|apply Z.divide_1_l|]. exists (9 * S je - t)%nat. split; [f_equal; lia|].
    pose proof (words_before_zeros x je w t Ej T Hd ltac:(lia)) as Hv. rewrite Lx in Hv. split; [|lia].
    by replace (9 * (IW d + FW d) - (9 * S je - t))%nat with (9 * (IW d + FW d - S je) + t)%nat by lia.
Qed.

(** The digits of a number, as the code finds them. *)
Lemma digits_bounds_spec d :
  wf d ->
  (magnitude (FW d) d = 0 /\ digits_bounds d = Some (0, 0)) \/
  exists beg en D, digits_bounds d = Some (Z.of_nat beg, Z.of_nat en) /\ (beg < en <= 9 * (IW d + FW d))%nat /\
    words (take (IW d + FW d) (buf d)) = D * powers10 (9 * (IW d + FW d) - en) /\ 0 < D < powers10 (en - beg) /\
    (9 * IW d <= beg + intg d)%nat /\ (en <= 9 * IW d + frac d)%nat.
Proof.
  intros H. pose proof (wf_len d H) as Hlen. unfold len in Hlen. unfold digits_bounds. fold (IW d) (FW d). set (x := take (IW d + FW d) (buf d)).
  assert (Lx : length x = (IW d + FW d)%nat) by (unfold x; rewrite length_take; lia).
  unfold len. rewrite (proj2 (Nat.ltb_ge _ _)) by lia.
  assert (Hm : magnitude (FW d) d = words x) by (unfold magnitude; by rewrite Nat.min_id, Nat.sub_diag, B_0, Z.mul_1_r).
  destruct (first_nonzero_spec x) as [[-> E]|(jb & w & -> & Ej & Hw & T)].
  { left. split; [|done]. rewrite Hm, E. apply words_zeros. }
  right. pose proof (lookup_lt_Some _ _ _ Ej) as Hj. rewrite Lx in Hj. destruct (bounds_first d jb w H Ej Hw T) as (beg & Ebeg & Hbeg & Hb9 & HbI).
  assert (Ebj : buf d !! jb = Some w) by (rewrite <- Ej; unfold x; by rewrite lookup_take_lt).
  destruct (last_nonzero_spec (IW d + FW d) (buf d) ltac:(lia)) as [[_ E]|(je & Elast & Hje & w' & Eje & Hw')].
  { exfalso. fold x in E. rewrite E in Ej. apply lookup_replicate in Ej as [-> _]. done. }
  pose proof (last_nonzero_tail _ _ _ Hlen Elast) as Tje. fold x in Tje.
  destruct (bounds_last d je w' H ltac:(unfold x; by rewrite lookup_take_lt) Hw' Tje) as (en & Een & Hen & He9 & HeF). fold x in Hbeg, Hen.
  destruct Hen as [D HD]. exists beg, en, D.
  assert (HD0 : 0 < D).
  { assert (0 < words x); [|pose proof (powers10_pos (9 * (IW d + FW d) - en)); nia]. pose proof (words_bound x (wf_words d H)).
    destruct (Z.eq_dec (words x) 0) as [E0|]; [exfalso|lia]. assert (Ex : x = replicate (length x) 0).
    { apply words_inj; [apply (wf_words d H)|by apply Forall_replicate|by rewrite length_replicate|by rewrite words_zeros]. }
    rewrite Ex in Ej. apply lookup_replicate in Ej as [-> _]. done. }
  assert (Hlt : (beg < en)%nat).
  { apply Nat.nle_gt. intros Hc. rewrite HD in Hbeg. pose proof (powers10_le (9 * (IW d + FW d) - beg) (9 * (IW d + FW d) - en) ltac:(lia)). pose proof (powers10_pos (9 * (IW d + FW d) - en)). nia. }
  split; [|split; [lia|]; split; [done|]; split; [split; [done|]|done]].
  - destruct ((jb =? 0)%nat && negb (intg d =? 0)%nat); cbv beta iota zeta in Ebeg |- *; rewrite Ebj; cbn [mbind option_bind]; rewrite Ebeg; cbn [mbind option_bind];
      rewrite Elast; cbn [mbind option_bind]; (destruct ((S je =? IW d + FW d)%nat && negb (frac d =? 0)%nat); cbv beta iota zeta in Een |- *;
      rewrite Eje; cbn [mbind option_bind]; rewrite Een; done).
  - rewrite HD in Hbeg. replace (9 * (IW d + FW d) - beg)%nat with (en - beg + (9 * (IW d + FW d) - en))%nat in Hbeg by lia. rewrite powers10_add in Hbeg.
    pose proof (powers10_pos (9 * (IW d + FW d) - en)). nia.
Qed.

(** ** Moving digits inside words *)

Lemma word_at_nat b k : word_at b (Z.of_nat k) = b !! k.
Proof. unfold word_at. rewrite (proj2 (Z.ltb_ge _ _)) by lia. by rewrite Nat2Z.id. Qed.

Lemma set_at_nat b k x : (k < length b)%nat -> set_at (Z.of_nat k) x b = Some (<[k := x]> b).
Proof. intros H. unfold set_at. rewrite (proj2 (orb_false_iff _ _)) by (split; [apply Z.ltb_ge|apply Z.leb_gt]; lia). by rewrite Nat2Z.id. Qed.

Lemma seg_cons b i j w : b !! i = Some w -> (i < j)%nat -> seg b i j = w :: seg b (S i) j.
Proof. intros H Hij. unfold seg. rewrite (drop_S b w i H). replace (j - i)%nat with (S (j - S i)) by lia. done. Qed.

Lemma seg_insert b i j k x : (k < i)%nat -> seg (<[k := x]> b) i j = seg b i j.
Proof. intros H. unfold seg. by rewrite drop_insert_lt. Qed.

Lemma seg_middle A L T i : length A = i -> seg (A ++ L ++ T) i (i + length L) = L.
Proof. intros <-. unfold seg. rewrite drop_app_length, Nat.add_comm, Nat.add_sub. apply take_app_length. Qed.

(** A word cut into its first [s] and its last [c] digits. *)
Lemma word_cut w s c : (s + c = 9)%nat -> word w -> 0 <= w / powers10 c < powers10 s /\ 0 <= w mod powers10 c < powers10 c /\ w = w / powers10 c * powers10 c + w mod powers10 c.
Proof.
  intros E [H1 H2]. pose proof (powers10_pos c) as Hc. change DIG_BASE with (powers10 9) in H2. rewrite <- E, powers10_add in H2.
  split; [split; [apply Z.div_pos; lia|apply Z.div_lt_upper_bound; lia]|]. split; [by apply Z.mod_pos_bound|]. pose proof (Z.div_mod w (powers10 c)). lia.
Qed.

Lemma word_join a m s c : (s + c = 9)%nat -> 0 <= a < powers10 s -> 0 <= m < powers10 c -> word (m * powers10 s + a).
Proof.
  intros E Ha Hm. unfold word. change DIG_BASE with (powers10 9). rewrite <- E, powers10_add. pose proof (powers10_pos s). nia.
Qed.

(** The first digits of words. *)
Lemma words_cut w l c : (c <= 9)%nat -> word w -> Forall word l ->
  words (w :: l) / (powers10 c * B (length l)) = w / powers10 c /\
  words (w :: l) mod (powers10 c * B (length l)) = w mod powers10 c * B (length l) + words l.
Proof.
  intros Hc Hw Hl. pose proof (words_bound l Hl) as Hb. destruct (word_cut w (9 - c) c ltac:(lia) Hw) as (Hhi & Hlo & Hsum).
  set (v := B (length l)) in *. rewrite words_cons. fold v. set (h := w / powers10 c) in *. set (lo := w mod powers10 c) in *.
  assert (E : w * v + words l = powers10 c * v * h + (lo * v + words l)) by (rewrite Hsum; ring). assert (Hr : 0 <= lo * v + words l < powers10 c * v) by nia.
  split; symmetry; [by apply (Z.div_unique_pos _ _ _ (lo * v + words l))|by apply (Z.mod_unique_pos _ _ h)].
Qed.

Lemma mini_left_loop_spec n from b s c :
  (s + c = 9)%nat -> (from + n < length b)%nat -> Forall word (seg b from (S (from + n))) ->
  exists L, mini_left_loop n (Z.of_nat from) s c b = Some (take from b ++ L ++ drop (S (from + n)) b) /\ length L = S n /\ Forall word L /\
    words L = (words (seg b from (S (from + n))) mod (powers10 c * B n)) * powers10 s.
Proof.
  intros E. revert from b. induction n as [|n IH]; intros from b Hl Hw; cbn [mini_left_loop]; rewrite word_at_nat;
    (destruct (lookup_lt_is_Some_2 b from ltac:(lia)) as [w Ew]); rewrite Ew; cbn [mbind option_bind]; rewrite (seg_cons b from _ w Ew) in Hw |- * by lia; apply list.Forall_cons in Hw as [Ww Hw];
    destruct (word_cut w s c E Ww) as (Hhi & Hlo & Hsum).
  - rewrite set_at_nat by lia. exists [w mod powers10 c * powers10 s]. rewrite Nat.add_0_r, B_0, Z.mul_1_r.
    split; [f_equal; rewrite (insert_take_drop b from _ ltac:(lia)); done|]. split; [done|].
    split; [apply list.Forall_singleton; rewrite <- (Z.add_0_r (_ * _)); apply (word_join 0 _ s c); [done|pose proof (powers10_pos s); lia|done]|].
    unfold seg. rewrite Nat.sub_diag, take_0. by rewrite !words_one.
  - replace (Z.of_nat from + 1) with (Z.of_nat (S from)) by lia. rewrite word_at_nat. destruct (lookup_lt_is_Some_2 b (S from) ltac:(lia)) as [w' Ew']. rewrite Ew'. cbn [mbind option_bind].
    rewrite set_at_nat by lia. cbn [mbind option_bind]. set (a := w mod powers10 c * powers10 s + w' / powers10 c). set (b1 := <[from := a]> b).
    replace (from + S n)%nat with (S from + n)%nat in * by lia.
    destruct (IH (S from) b1) as (L & EL & LL & WL & VL); [unfold b1; rewrite length_insert; lia|unfold b1; by rewrite seg_insert by lia|]. rewrite EL. unfold b1 in VL |- *. rewrite seg_insert in VL by lia.
    assert (Ww' : word w') by (rewrite (seg_cons b (S from) _ w' Ew') in Hw by lia; by apply list.Forall_cons in Hw as [Hw' _]).
    destruct (word_cut w' s c E Ww') as (Hhi' & Hlo' & Hsum').
    exists (a :: L). split; [f_equal; rewrite take_S_insert by lia; rewrite drop_insert_lt by lia; by rewrite <- app_assoc|]. split; [cbn; lia|].
    split; [constructor; [by apply (word_join _ _ s c)|done]|].
    set (l := seg b (S from) (S (S from + n))) in *. assert (Ll : length l = S n) by (unfold l; rewrite seg_length by lia; lia).
    rewrite words_cons, LL, VL, <- Ll, (proj2 (words_cut w l c ltac:(lia) Ww Hw)), Ll.
    assert (Er : exists l', l = w' :: l' /\ length l' = n /\ Forall word l').
    { unfold l. rewrite (seg_cons b (S from) _ w' Ew') by lia. eexists. split; [done|]. split; [rewrite seg_length; lia|].
      unfold l in Hw. rewrite (seg_cons b (S from) _ w' Ew') in Hw by lia. by apply list.Forall_cons in Hw as [_ Hw]. }
    destruct Er as (l' & El & Ll' & Wl'). destruct (words_cut w' l' c ltac:(lia) Ww' Wl') as [Ed Em]. rewrite <- El, Ll' in Ed, Em.
    pose proof (Z.div_mod (words l) (powers10 c * B n) ltac:(pose proof (powers10_pos c); pose proof (B_pos n); nia)) as Hdm. rewrite Ed in Hdm.
    rewrite Hdm at 2. unfold a. rewrite B_S. change DIG_BASE with (powers10 9). rewrite <- E, powers10_add. ring.
Qed.

(** The words of the number outside of its digits are zero. *)
Definition zero_out (b : list Z) (p q w : nat) : Prop := forall k, (k < w)%nat -> (k < p \/ q < k)%nat -> b !! k = Some 0.

Lemma round_up_first beg p : (9 * p <= beg < 9 * p + 9)%nat -> round_up (Z.of_nat beg + 1) - 1 = Z.of_nat p.
Proof. intros H. unfold round_up. rewrite (proj2 (Z.ltb_lt _ _)) by lia. Z.to_euclidean_division_equations; lia. Qed.

Lemma round_up_last en q : (9 * q < en <= 9 * q + 9)%nat -> round_up (Z.of_nat en) - 1 = Z.of_nat q.
Proof. intros H. unfold round_up. rewrite (proj2 (Z.ltb_lt _ _)) by lia. Z.to_euclidean_division_equations; lia. Qed.

Lemma rem_place beg p : (9 * p <= beg < 9 * p + 9)%nat -> Z.rem (Z.of_nat beg) 9 = Z.of_nat (beg - 9 * p).
Proof. intros H. Z.to_euclidean_division_equations; lia. Qed.

(** After a move by digits: the words from [P] to [Q] hold the digits, the
    others are as before. *)
Lemma moved b b' P Q beg' en' D p q w :
  length b' = length b -> Forall word (seg b' P (S Q)) -> (Q < length b)%nat -> (9 * P <= beg')%nat -> (beg' < en' <= 9 * S Q)%nat ->
  words (seg b' P (S Q)) = D * powers10 (9 * S Q - en') -> 0 < D < powers10 (en' - beg') ->
  (forall k, (k < P \/ Q < k)%nat -> b' !! k = b !! k) -> (P <= p)%nat -> (q <= Q)%nat -> zero_out b p q w ->
  exists p' q', holds b' beg' en' p' q' D /\ zero_out b' p' q' w.
Proof.
  intros Hl Hw HQ HP Hen Hv HD Hsame HPp HqQ Hz. 
  pose proof (Nat.div_mod_eq beg' 9). pose proof (Nat.mod_upper_bound beg' 9 ltac:(lia)). pose proof (Nat.div_mod_eq (en' - 1) 9). pose proof (Nat.mod_upper_bound (en' - 1) 9 ltac:(lia)).
  remember (beg' / 9)%nat as p' eqn:Ep'. remember ((en' - 1) / 9)%nat as q' eqn:Eq'. clear Ep' Eq'. exists p', q'.
  destruct (narrow b' P Q beg' en' p' q' D) as (Hh & Z1 & Z2); try done; try lia. split; [done|].
  intros k Hk Hout. destruct (Nat.lt_ge_cases k P) as [Hk1|Hk1]; [rewrite Hsame by lia; apply Hz; lia|].
  destruct (Nat.lt_ge_cases Q k) as [Hk2|Hk2]; [rewrite Hsame by lia; apply Hz; lia|].
  destruct Hout as [Ho|Ho].
  - assert (E : seg b' P p' !! (k - P)%nat = Some 0) by (rewrite Z1; apply lookup_replicate; split; [done|lia]).
    unfold seg in E. rewrite lookup_take_lt, lookup_drop in E by lia. by replace (P + (k - P))%nat with k in E by lia.
  - assert (E : seg b' (S q') (S Q) !! (k - S q')%nat = Some 0) by (rewrite Z2; apply lookup_replicate; split; [done|lia]).
    unfold seg in E. rewrite lookup_take_lt, lookup_drop in E by lia. by replace (S q' + (k - S q'))%nat with k in E by lia.
Qed.

Lemma lookup_outside (A L T : list Z) b i j k :
  take i b = A -> drop j b = T -> length A = i -> (i + length L = j)%nat -> (j <= length b)%nat -> (k < i \/ j <= k)%nat -> (A ++ L ++ T) !! k = b !! k.
Proof.
  intros HA HT LA LL Lb [Hk|Hk].
  - rewrite lookup_app_l by lia. rewrite <- HA. by apply lookup_take_lt.
  - rewrite lookup_app_r, lookup_app_r by lia. rewrite <- HT, lookup_drop. f_equal. lia.
Qed.

Lemma mini_left_spec b beg en p q D s w :
  holds b beg en p q D -> zero_out b p q w -> (1 <= s <= 8)%nat -> (s <= beg)%nat ->
  exists b' p' q', do_mini_left_shift s (Z.of_nat beg) (Z.of_nat en) b = Some b' /\ length b' = length b /\ holds b' (beg - s) (en - s) p' q' D /\ zero_out b' p' q' w.
Proof.
  intros [Hp Hq Hlt Hlen Hws Hv HD] Hz Hs Hsb. unfold do_mini_left_shift. rewrite (round_up_first beg p Hp), (round_up_last en q Hq), (rem_place beg p Hp).
  replace (Z.to_nat (Z.of_nat q - Z.of_nat p)) with (q - p)%nat by lia. change DIG_PER_DEC1 with 9%nat. set (c := (9 - s)%nat). set (n := (q - p)%nat).
  destruct (lookup_lt_is_Some_2 b p ltac:(lia)) as [wp Ep]. rewrite word_at_nat, Ep. cbn [mbind option_bind].
  pose proof (seg_cons b p (S q) wp Ep ltac:(lia)) as Eseg. pose proof Hws as Hws'. rewrite Eseg in Hws'. apply list.Forall_cons in Hws' as [Wp Wl].
  assert (Ll : length (seg b (S p) (S q)) = n) by (rewrite seg_length; lia).
  destruct (words_cut wp (seg b (S p) (S q)) c ltac:(lia) Wp Wl) as [Ediv Emod]. rewrite Ll, <- Eseg in Ediv, Emod. set (X := words (seg b p (S q))) in *.
  assert (Eval : X * powers10 s = D * powers10 (9 * S q - (en - s))).
  { rewrite Hv, <- Z.mul_assoc, <- powers10_add. do 2 f_equal. lia. }
  assert (HXc : X = X / (powers10 c * B n) * (powers10 c * B n) + X mod (powers10 c * B n)).
  { pose proof (Z.div_mod X (powers10 c * B n) ltac:(pose proof (powers10_pos c); pose proof (B_pos n); nia)). lia. }
  destruct (Z.ltb_spec (Z.of_nat (beg - 9 * p)) (Z.of_nat s)) as [Hc|Hc].
  - destruct p as [|p0]; [lia|]. replace (Z.of_nat (S p0) - 1) with (Z.of_nat p0) by lia. rewrite set_at_nat by lia. cbn [mbind option_bind].
    set (h := wp / powers10 c) in *. set (b1 := <[p0 := h]> b). assert (Lb1 : length b1 = length b) by apply length_insert.
    destruct (mini_left_loop_spec n (S p0) b1 s c) as (L & EL & LL & WL & VL); [lia|lia|unfold b1; rewrite seg_insert by lia; by replace (S (S p0 + n)) with (S q) by lia|].
    rewrite EL. unfold b1 in VL. rewrite seg_insert in VL by lia. replace (S (S p0 + n)) with (S q) in * by lia. fold X in VL.
    set (b' := take (S p0) b1 ++ L ++ drop (S q) b1). assert (Lb' : length b' = length b) by (unfold b'; rewrite !length_app, length_take, length_drop; lia).
    assert (Es : seg b' p0 (S q) = h :: L).
    { rewrite (seg_cons b' p0 (S q) h); [|unfold b'; rewrite lookup_app_l by (rewrite length_take; lia); rewrite lookup_take_lt by lia; apply list_lookup_insert_eq; lia|lia].
      f_equal. unfold b'. replace (S q) with (S p0 + length L)%nat at 2 by lia. apply seg_middle. rewrite length_take. lia. }
    destruct (moved b b' p0 q (beg - s) (en - s) D (S p0) q w) as (p' & q' & Hh & Hz'); try done; try lia.
    + rewrite Es. constructor; [|done]. destruct (word_cut wp s c ltac:(lia) Wp) as [Hh _]. fold h in Hh. unfold word. change DIG_BASE with (powers10 9). pose proof (powers10_le s 9 ltac:(lia)). lia.
    + rewrite Ediv in HXc. rewrite Es, words_cons, LL, VL, <- Eval, B_S. rewrite HXc at 2. change DIG_BASE with (powers10 9). replace 9%nat with (s + c)%nat by lia. rewrite powers10_add. fold h. ring.
    + by replace (en - s - (beg - s))%nat with (en - beg)%nat by lia.
    + intros k Hk. transitivity (b1 !! k); [|unfold b1; apply list_lookup_insert_ne; lia]. apply (lookup_outside _ _ _ _ (S p0) (S q)); rewrite ?length_take; done || lia.
    + by exists b', p', q'.
  - cbn [mbind option_bind]. destruct (mini_left_loop_spec n p b s c) as (L & EL & LL & WL & VL); [lia|lia|by replace (S (p + n)) with (S q) by lia|].
    rewrite EL. replace (S (p + n)) with (S q) in * by lia. fold X in VL.
    set (b' := take p b ++ L ++ drop (S q) b). assert (Lb' : length b' = length b) by (unfold b'; rewrite !length_app, length_take, length_drop; lia).
    assert (Es : seg b' p (S q) = L) by (unfold b'; replace (S q) with (p + length L)%nat at 2 by lia; apply seg_middle; rewrite length_take; lia).
    assert (HX : X mod (powers10 c * B n) = X).
    { apply Z.mod_small. pose proof (words_bound _ Hws) as Hb0. fold X in Hb0. split; [lia|]. rewrite Hv, powers10_B, <- powers10_add.
      apply Z.lt_le_trans with (powers10 (en - beg) * powers10 (9 * S q - en)); [apply Z.mul_lt_mono_pos_r; [apply powers10_pos|lia]|]. rewrite <- powers10_add. apply powers10_le. lia. }
    destruct (moved b b' p q (beg - s) (en - s) D p q w) as (p' & q' & Hh & Hz'); try done; try lia.
    + by rewrite Es.
    + by rewrite Es, VL, HX.
    + by replace (en - s - (beg - s))%nat with (en - beg)%nat by lia.
    + intros k Hk. apply (lookup_outside _ _ _ _ p (S q)); rewrite ?length_take; done || lia.
    + by exists b', p', q'.
Qed.

Lemma seg_snoc b i j w : b !! j = Some w -> (i <= j)%nat -> seg b i (S j) = seg b i j ++ [w].
Proof. intros H Hij. unfold seg. replace (S j - i)%nat with (S (j - i)) by lia. apply take_S_r. rewrite lookup_drop. by replace (i + (j - i))%nat with j by lia. Qed.

Lemma seg_insert_after b i j k x : (j <= k)%nat -> seg (<[k := x]> b) i j = seg b i j.
Proof.
  intros H. unfold seg. destruct (Nat.lt_ge_cases k i) as [Hk|Hk]; [by rewrite drop_insert_lt|].
  rewrite drop_insert_ge by lia. apply take_insert_ge. lia.
Qed.

Lemma words_snoc l w : words (l ++ [w]) = words l * DIG_BASE + w.
Proof. rewrite words_app, words_one. by replace (B (length [w])) with DIG_BASE. Qed.

(** The last digits of words. *)
Lemma words_cut_last l w s c : (s + c = 9)%nat -> 
  words (l ++ [w]) / powers10 s = words l * powers10 c + w / powers10 s /\ words (l ++ [w]) mod powers10 s = w mod powers10 s.
Proof.
  intros E. rewrite words_snoc. change DIG_BASE with (powers10 9). rewrite <- E, powers10_add. pose proof (powers10_pos s).
  replace (words l * (powers10 s * powers10 c) + w) with (w + words l * powers10 c * powers10 s) by ring. split; [rewrite Z.div_add by lia; lia|apply Z.mod_add; lia].
Qed.

Lemma mini_right_loop_spec n p b s c :
  (s + c = 9)%nat -> (p + n < length b)%nat -> Forall word (seg b p (S (p + n))) ->
  exists L, mini_right_loop n (Z.of_nat (p + n)) s c b = Some (take p b ++ L ++ drop (S (p + n)) b) /\ length L = S n /\ Forall word L /\
    words L = words (seg b p (S (p + n))) / powers10 s.
Proof.
  intros E. revert b. induction n as [|n IH]; intros b Hl Hw; cbn [mini_right_loop]; rewrite word_at_nat.
  - rewrite Nat.add_0_r in *. destruct (lookup_lt_is_Some_2 b p Hl) as [w Ew]. rewrite Ew. cbn [mbind option_bind]. rewrite set_at_nat by lia.
    rewrite (seg_snoc b p p w Ew) in Hw |- * by lia. unfold seg in *. rewrite Nat.sub_diag, take_0 in *. cbn [app] in *. rewrite list.Forall_singleton in Hw.
    exists [w / powers10 s]. split; [f_equal; by apply insert_take_drop|]. split; [done|]. rewrite !words_one. split; [|done].
    apply list.Forall_singleton. destruct (word_cut w c s ltac:(lia) Hw) as (H1 & _). unfold word. change DIG_BASE with (powers10 9). pose proof (powers10_le c 9 ltac:(lia)). lia.
  - destruct (lookup_lt_is_Some_2 b (p + S n) Hl) as [w Ew]. rewrite Ew. cbn [mbind option_bind].
    replace (Z.of_nat (p + S n) - 1) with (Z.of_nat (p + n)) by lia. rewrite word_at_nat. destruct (lookup_lt_is_Some_2 b (p + n) ltac:(lia)) as [w' Ew']. rewrite Ew'. cbn [mbind option_bind].
    rewrite set_at_nat by lia. cbn [mbind option_bind]. set (a := w / powers10 s + w' mod powers10 s * powers10 c).
    rewrite (seg_snoc b p (p + S n) w Ew) in Hw |- * by lia. apply Forall_app in Hw as [Hw Ww]. rewrite list.Forall_singleton in Ww. replace (p + S n)%nat with (S (p + n)) in * by lia.
    destruct (IH (<[S (p + n) := a]> b)) as (L & EL & LL & WL & VL); [rewrite length_insert; lia|by rewrite seg_insert_after by lia|]. rewrite EL. rewrite seg_insert_after in VL by lia.
    assert (Ww' : word w') by (rewrite (seg_snoc b p (p + n) w' Ew') in Hw by lia; apply Forall_app in Hw as [_ Hw]; by rewrite list.Forall_singleton in Hw).
    destruct (word_cut w c s ltac:(lia) Ww) as (Hhi & Hlo & _). destruct (word_cut w' c s ltac:(lia) Ww') as (Hhi' & Hlo' & _).
    exists (L ++ [a]). split.
    { f_equal. rewrite take_insert_ge by lia. f_equal. rewrite <- app_assoc. f_equal. rewrite (drop_S _ a (S (p + n))) by (apply list_lookup_insert_eq; lia). cbn [app]. f_equal. by rewrite drop_insert_lt by lia. }
    split; [rewrite length_app; cbn; lia|]. split; [apply Forall_app; split; [done|]; apply list.Forall_singleton; unfold a; rewrite Z.add_comm; by apply (word_join _ _ c s); [lia| |]|].
    rewrite words_snoc, VL, (proj1 (words_cut_last _ w s c E)). set (X := words (seg b p (S (p + n)))).
    assert (Em : X mod powers10 s = w' mod powers10 s) by (unfold X; rewrite (seg_snoc b p (p + n) w' Ew') by lia; apply (words_cut_last _ w' s c E)).
    pose proof (Z.div_mod X (powers10 s) ltac:(pose proof (powers10_pos s); lia)) as Hdm. rewrite Em in Hdm. rewrite Hdm at 2. unfold a. change DIG_BASE with (powers10 9). rewrite <- E, powers10_add. ring.
Qed.

Lemma mini_right_spec b beg en p q D s w :
  holds b beg en p q D -> zero_out b p q w -> (1 <= s <= 8)%nat -> (en + s <= 9 * length b)%nat ->
  exists b' p' q', do_mini_right_shift s (Z.of_nat beg) (Z.of_nat en) b = Some b' /\ length b' = length b /\ holds b' (beg + s) (en + s) p' q' D /\ zero_out b' p' q' w.
Proof.
  intros [Hp Hq Hlt Hlen Hws Hv HD] Hz Hs Hsb. unfold do_mini_right_shift. rewrite (round_up_first beg p Hp), (round_up_last en q Hq).
  replace (Z.of_nat en - 1) with (Z.of_nat (en - 1)) by lia. rewrite (rem_place (en - 1) q) by lia.
  replace (Z.to_nat (Z.of_nat q - Z.of_nat p)) with (q - p)%nat by lia. change DIG_PER_DEC1 with 9%nat. set (c := (9 - s)%nat). assert (E : (s + c = 9)%nat) by lia.
  destruct (lookup_lt_is_Some_2 b q Hlen) as [wq Eq]. rewrite word_at_nat, Eq. cbn [mbind option_bind].
  pose proof (seg_snoc b p q wq Eq ltac:(lia)) as Eseg. pose proof Hws as Hws'. rewrite Eseg in Hws'. apply Forall_app in Hws' as [_ Wq]. rewrite list.Forall_singleton in Wq.
  destruct (words_cut_last (seg b p q) wq s c E) as [_ Emod]. rewrite <- Eseg in Emod. set (X := words (seg b p (S q))) in *.
  pose proof (powers10_pos s) as Hps. destruct (Z.ltb_spec (9 - (Z.of_nat (en - 1 - 9 * q) + 1)) (Z.of_nat s)) as [Hc|Hc].
  - replace (Z.of_nat q + 1) with (Z.of_nat (S q)) by lia. rewrite set_at_nat by lia. cbn [mbind option_bind].
    set (h := wq mod powers10 s * powers10 c). set (b1 := <[S q := h]> b). assert (Lb1 : length b1 = length b) by apply length_insert.
    replace (Z.of_nat q) with (Z.of_nat (p + (q - p))) by lia.
    destruct (mini_right_loop_spec (q - p) p b1 s c) as (L & EL & LL & WL & VL); [lia|lia|unfold b1; rewrite seg_insert_after by lia; by replace (p + (q - p))%nat with q by lia|].
    rewrite EL. unfold b1 in VL. rewrite seg_insert_after in VL by lia. replace (p + (q - p))%nat with q in * by lia. fold X in VL.
    set (b' := take p b1 ++ L ++ drop (S q) b1). assert (Lb' : length b' = length b) by (unfold b'; rewrite !length_app, length_take, length_drop; lia).
    assert (Es : seg b' p (S (S q)) = L ++ [h]).
    { rewrite (seg_snoc b' p (S q) h); [|unfold b'; rewrite (lookup_outside _ _ _ b1 p (S q)) by (rewrite ?length_take; done || lia); apply list_lookup_insert_eq; lia|lia].
      f_equal. unfold b'. replace (S q) with (p + length L)%nat at 2 by lia. apply seg_middle. rewrite length_take. lia. }
    destruct (moved b b' p (S q) (beg + s) (en + s) D p q w) as (p' & q' & Hh & Hz'); try done; try lia.
    + rewrite Es. apply Forall_app. split; [done|]. apply list.Forall_singleton. destruct (word_cut wq c s ltac:(lia) Wq) as (_ & Hlo & _). rewrite <- (Z.add_0_r h). apply (word_join 0 _ c s); [lia|pose proof (powers10_pos c); lia|done].
    + rewrite Es, words_snoc, VL. unfold h. rewrite <- Emod. replace (9 * S (S q) - (en + s))%nat with (9 * S q - en + c)%nat by lia. rewrite powers10_add, Z.mul_assoc, <- Hv.
      pose proof (Z.div_mod X (powers10 s) ltac:(lia)) as Hdm. rewrite Hdm at 3. change DIG_BASE with (powers10 9). rewrite <- E, powers10_add. ring.
    + by replace (en + s - (beg + s))%nat with (en - beg)%nat by lia.
    + intros k Hk. transitivity (b1 !! k); [|unfold b1; apply list_lookup_insert_ne; lia]. apply (lookup_outside _ _ _ _ p (S q)); rewrite ?length_take; done || lia.
    + by exists b', p', q'.
  - cbn [mbind option_bind]. replace (Z.of_nat q) with (Z.of_nat (p + (q - p))) by lia.
    destruct (mini_right_loop_spec (q - p) p b s c) as (L & EL & LL & WL & VL); [lia|lia|by replace (p + (q - p))%nat with q by lia|].
    rewrite EL. replace (p + (q - p))%nat with q in * by lia. fold X in VL.
    set (b' := take p b ++ L ++ drop (S q) b). assert (Lb' : length b' = length b) by (unfold b'; rewrite !length_app, length_take, length_drop; lia).
    assert (Es : seg b' p (S q) = L) by (unfold b'; replace (S q) with (p + length L)%nat at 2 by lia; apply seg_middle; rewrite length_take; lia).
    destruct (moved b b' p q (beg + s) (en + s) D p q w) as (p' & q' & Hh & Hz'); try done; try lia.
    + by rewrite Es.
    + rewrite Es, VL, Hv. replace (9 * S q - en)%nat with (9 * S q - (en + s) + s)%nat by lia. rewrite powers10_add, Z.mul_assoc. apply Z.div_mul. lia.
    + by replace (en + s - (beg + s))%nat with (en - beg)%nat by lia.
    + intros k Hk. apply (lookup_outside _ _ _ _ p (S q)); rewrite ?length_take; done || lia.
    + by exists b', p', q'.
Qed.

(** ** Moving words *)

Lemma seg_ext b b' i j : (forall k, (i <= k < j)%nat -> b' !! k = b !! k) -> seg b' i j = seg b i j.
Proof.
  intros H. apply list_eq. intros k. unfold seg. destruct (Nat.lt_ge_cases k (j - i)) as [Hk|Hk].
  - rewrite !lookup_take_lt, !lookup_drop by done. apply H. lia.
  - by rewrite !lookup_take_ge.
Qed.

Lemma holds_same_words b b' beg en p q D p' q' beg' en' :
  holds b beg en p q D -> seg b' p' (S q') = seg b p (S q) -> (q' < length b')%nat -> (p' + q = p + q')%nat ->
  (beg' + 9 * p = beg + 9 * p')%nat -> (en' + 9 * p = en + 9 * p')%nat -> holds b' beg' en' p' q' D.
Proof.
  intros [Hp Hq Hlt Hlen Hws Hv HD] Es Hl E1 E2 E3. constructor; try lia.
  - by rewrite Es.
  - rewrite Es, Hv. do 2 f_equal. lia.
  - by replace (en' - beg')%nat with (en - beg)%nat by lia.
Qed.

Lemma move_left_holds b beg en p q D d :
  holds b beg en p q D -> (d <= p)%nat ->
  exists b', move_left (Z.of_nat p - Z.of_nat d) (Z.of_nat q - Z.of_nat d) (Z.of_nat d) b = Some b' /\ length b' = length b /\
    holds b' (beg - 9 * d) (en - 9 * d) (p - d) (q - d) D.
Proof.
  intros H Hd. pose proof H as [Hp Hq Hlt Hlen _ _ _]. unfold move_left.
  rewrite (proj2 (orb_false_iff _ _)) by (split; [apply Z.ltb_ge|apply Z.leb_gt]; lia).
  replace (Z.to_nat (Z.of_nat q - Z.of_nat d - (Z.of_nat p - Z.of_nat d) + 1)) with (S q - p)%nat by lia.
  replace (Z.to_nat (Z.of_nat p - Z.of_nat d + Z.of_nat d)) with p by lia. replace (Z.to_nat (Z.of_nat p - Z.of_nat d)) with (p - d)%nat by lia. rewrite Nat2Z.id.
  change (take (S q - p) (drop p b)) with (seg b p (S q)). pose proof (seg_length b p (S q) ltac:(lia)) as Ls.
  eexists. split; [done|]. assert (Lt : length (take (p - d) b) = (p - d)%nat) by (rewrite length_take; lia).
  assert (Lb : length (take (p - d) b ++ seg b p (S q) ++ replicate d 0 ++ drop (p - d + (S q - p) + d) b) = length b) by (rewrite !length_app, length_replicate, length_drop; lia).
  split; [done|]. apply (holds_same_words b _ beg en p q D); try lia; [done|].
  replace (S (q - d)) with (p - d + length (seg b p (S q)))%nat at 1 by lia. by apply seg_middle.
Qed.

Lemma move_right_holds b beg en p q D d :
  holds b beg en p q D -> (q + d < length b)%nat ->
  exists b', move_right (Z.of_nat q + Z.of_nat d) (Z.of_nat p + Z.of_nat d) (Z.of_nat d) b = Some b' /\ length b' = length b /\
    holds b' (beg + 9 * d) (en + 9 * d) (p + d) (q + d) D.
Proof.
  intros H Hd. pose proof H as [Hp Hq Hlt Hlen _ _ _]. unfold move_right.
  rewrite (proj2 (orb_false_iff _ _)) by (split; [apply Z.ltb_ge|apply Z.leb_gt]; lia).
  replace (Z.to_nat (Z.of_nat q + Z.of_nat d - (Z.of_nat p + Z.of_nat d) + 1)) with (S q - p)%nat by lia.
  replace (Z.to_nat (Z.of_nat p + Z.of_nat d - Z.of_nat d)) with p by lia. replace (Z.to_nat (Z.of_nat p + Z.of_nat d)) with (p + d)%nat by lia. rewrite Nat2Z.id.
  change (take (S q - p) (drop p b)) with (seg b p (S q)). pose proof (seg_length b p (S q) ltac:(lia)) as Ls. rewrite app_assoc.
  eexists. split; [done|]. assert (Lt : length (take p b ++ replicate d 0) = (p + d)%nat) by (rewrite length_app, length_take, length_replicate; lia).
  split; [rewrite !length_app, length_drop in *; lia|]. apply (holds_same_words b _ beg en p q D); try lia; [done| |rewrite !length_app, length_drop in *; lia].
  replace (S (q + d)) with (p + d + length (seg b p (S q)))%nat at 1 by lia. by apply seg_middle.
Qed.

Lemma fill_zero_lookup i j b :
  (j <= i \/ j <= length b)%nat ->
  exists b', fill_zero i j b = Some b' /\ length b' = length b /\ (forall k, (i <= k < j)%nat -> b' !! k = Some 0) /\ (forall k, (k < i \/ j <= k)%nat -> b' !! k = b !! k).
Proof.
  intros H. unfold fill_zero. destruct (Nat.leb_spec j i) as [Hj|Hj]; [exists b; repeat split; lia || done|].
  rewrite (proj2 (Nat.leb_le _ _)) by lia. eexists. split; [done|]. assert (Lt : length (take i b) = i) by (rewrite length_take; lia).
  split; [rewrite !length_app, length_replicate, length_drop; lia|]. split; intros k Hk.
  - rewrite lookup_app_r, lookup_app_l by (rewrite ?length_replicate; lia). apply lookup_replicate. split; [done|lia].
  - apply (lookup_outside _ _ _ b i j); rewrite ?length_replicate; done || lia.
Qed.

(** The words between the digits and the point are cleared. *)
Lemma fill_gaps_spec b beg en p q D I F :
  holds b beg en p q D -> (0 < I -> p = 0)%nat -> (q < I + F)%nat -> (0 < F -> S q = I + F)%nat -> (I + F <= length b)%nat ->
  exists b', fill_gaps (Z.of_nat beg) (Z.of_nat en) (9 * Z.of_nat I) b = Some b' /\ length b' = length b /\ holds b' beg en p q D /\ zero_out b' p q (I + F).
Proof.
  intros H HI Hq HF Hl. pose proof H as [Hp Hq' Hlt Hlen _ _ _]. unfold fill_gaps. rewrite (round_up_first beg p Hp), (round_up_last en q Hq').
  assert (Ep : (if 9 * Z.of_nat I =? 0 then 0 else round_up (9 * Z.of_nat I) - 1) = Z.of_nat (I - 1)).
  { destruct (Z.eqb_spec (9 * Z.of_nat I) 0); [lia|]. replace (9 * Z.of_nat I) with (Z.of_nat (9 * I)) by lia. rewrite (round_up_last (9 * I) (I - 1)) by lia. done. }
  rewrite Ep, (proj2 (Z.ltb_ge _ _)) by lia.
  assert (Hend : forall i j, (j <= p \/ (q < i /\ j <= I + F))%nat -> (forall k, (k < I + F)%nat -> (k < p \/ q < k)%nat -> (i <= k < j)%nat) ->
    exists b', fill_zero i j b = Some b' /\ length b' = length b /\ holds b' beg en p q D /\ zero_out b' p q (I + F)).
  { intros i j Hij Hz. destruct (fill_zero_lookup i j b) as (b' & E & Lb & Z1 & Z2); [lia|]. exists b'. split; [done|]. split; [done|].
    split; [apply (holds_same_words b b' beg en p q D); try lia; [done|]; apply seg_ext; intros k Hk; apply Z2; lia|]. intros k Hk Ho. apply Z1. by apply Hz. }
  destruct (Z.ltb_spec (Z.of_nat q) (Z.of_nat (I - 1))) as [Hc|Hc]; apply Hend; intros; lia.
Qed.

(** ** The shifted number *)

(** The number of [i] digits before and [f] digits after the point in [b] has
    the digits [D], the last of them [e] places after the point. *)
Definition placed (b : list Z) (i f : nat) (D e : Z) : Prop :=
  exists beg en p q, holds b beg en p q D /\ zero_out b p q (ROUND_UP i + ROUND_UP f) /\ (q < ROUND_UP i + ROUND_UP f <= length b)%nat /\
    Z.of_nat en = 9 * Z.of_nat (ROUND_UP i) + e /\ (9 * ROUND_UP i <= beg + i)%nat /\ (en <= 9 * ROUND_UP i + f)%nat.

Lemma holds_value b beg en p q D w :
  holds b beg en p q D -> zero_out b p q w -> (q < w <= length b)%nat -> Forall word (take w b) /\ words (take w b) = D * powers10 (9 * w - en).
Proof.
  intros [Hp Hq Hlt Hlen Hws Hv HD] Hz Hw.
  assert (Hzero : forall i j, (j <= w)%nat -> (j <= p \/ q < i)%nat -> (i <= j)%nat -> seg b i j = replicate (j - i) 0).
  { intros i j Hj Ho Hij. apply list_eq. intros k. unfold seg. destruct (Nat.lt_ge_cases k (j - i)) as [Hk|Hk].
    - rewrite lookup_take_lt, lookup_drop, lookup_replicate_2 by done. apply Hz; lia.
    - rewrite lookup_take_ge by done. symmetry. apply lookup_replicate_None. lia. }
  assert (Et : take w b = replicate p 0 ++ seg b p (S q) ++ replicate (w - S q) 0).
  { replace (take w b) with (seg b 0 w) by (unfold seg; by rewrite Nat.sub_0_r, drop_0). rewrite (seg_split b 0 p w), (seg_split b p (S q) w) by lia.
    rewrite (Hzero 0%nat p), (Hzero (S q) w) by lia. by rewrite Nat.sub_0_r. }
  rewrite Et. split; [apply Forall_app; split; [by apply Forall_replicate|apply Forall_app; split; [done|by apply Forall_replicate]]|].
  rewrite !words_app, !words_zeros, Hv, length_replicate, Z.mul_0_l, powers10_B. replace (9 * w - en)%nat with (9 * S q - en + 9 * (w - S q))%nat by lia. rewrite powers10_add. ring.
Qed.

Lemma placed_result b i f D e s :
  placed b i f D e -> let r := mk_dec i f s b in
  wf r /\ forall n, (FW r <= n)%nat -> magnitude n r = D * powers10 (Z.to_nat (9 * Z.of_nat n - e)) /\ e <= 9 * Z.of_nat n.
Proof.
  intros (beg & en & p & q & Hh & Hz & Hq & He & Hi & Hf) r. destruct (holds_value b beg en p q D _ Hh Hz Hq) as [Hw Hv]. destruct Hh as [Hp Hq' Hlt _ _ _ HD].
  set (I := ROUND_UP i) in *. set (F := ROUND_UP f) in *. set (l := take (I + F) b) in *. assert (Ll : length l = (I + F)%nat) by (unfold l; rewrite length_take; lia).
  pose proof (ROUND_UP_spec i) as RI. pose proof (ROUND_UP_spec f) as RF. fold I in RI. fold F in RF.
  destruct (digits_result i f s l (mk_dec i f s b)) as [Hwf Hm]; fold I F; try done; try (unfold len; cbn [buf]; lia); try lia.
  - rewrite Hv. apply Z.divide_mul_r, powers10_divide. lia.
  - rewrite Hv, powers10_B, <- powers10_add. apply Z.lt_le_trans with (powers10 (en - beg) * powers10 (9 * (I + F) - en)); [apply Z.mul_lt_mono_pos_r; [apply powers10_pos|lia]|].
    rewrite <- powers10_add. apply powers10_le. lia.
  - assert (Eo : overwrite l b = b) by (unfold overwrite; rewrite Ll; apply take_drop). cbn [buf] in Hwf, Hm. rewrite Eo in Hwf, Hm. fold r in Hwf, Hm. split; [done|].
    intros n Hn. change (FW r) with F in *. split; [|lia]. rewrite magnitude_exact by done. change (FW r) with F. rewrite Hm, Hv, powers10_B, <- Z.mul_assoc, <- powers10_add. do 2 f_equal. lia.
Qed.

Lemma round_up_nat n : round_up (Z.of_nat n) = Z.of_nat (ROUND_UP n).
Proof.
  pose proof (ROUND_UP_spec n). unfold round_up. destruct (Z.ltb_spec 0 (Z.of_nat n)); Z.to_euclidean_division_equations; lia.
Qed.

(** The words are moved to the point: [np] is a multiple of nine. *)
Lemma shift_words_spec err dec beg en p q D m i f :
  let np := 9 * m in
  holds (buf dec) beg en p q D -> Z.of_nat i = Z.max (np - Z.of_nat beg) 0 -> Z.of_nat f = Z.max (Z.of_nat en - np) 0 -> (ROUND_UP i + ROUND_UP f <= len dec)%nat ->
  exists b, shift_words err (Z.of_nat beg) (Z.of_nat en) np (Z.of_nat i) (Z.of_nat f) dec = Some (err, mk_dec i f (sign dec) b) /\ placed b i f D (Z.of_nat en - np) /\ length b = len dec.
Proof.
  intros np Hh Hi Hf Hl. unfold len in *. pose proof Hh as [Hp Hq Hlt Hlen _ _ _]. pose proof (ROUND_UP_spec i) as RI. pose proof (ROUND_UP_spec f) as RF. unfold shift_words.
  rewrite (round_up_first beg p Hp), (round_up_last en q Hq).
  set (mv := if (9 <=? np - Z.of_nat i) || (np - Z.of_nat i <? 0) then _ else _).
  assert (Hmv : exists b d p' q' beg' en', mv = Some (b, d) /\ length b = length (buf dec) /\ holds b beg' en' p' q' D /\
    Z.of_nat beg' = Z.of_nat beg + d * 9 /\ Z.of_nat en' = Z.of_nat en + d * 9 /\ np + d * 9 = 9 * Z.of_nat (ROUND_UP i)).
  { unfold mv. destruct (Z.leb_spec 9 (np - Z.of_nat i)) as [H9|H9]; cbn [orb].
    - rewrite (proj2 (Z.ltb_lt _ _)) by lia. assert (exists d : nat, Z.quot (np - Z.of_nat i) 9 = Z.of_nat d /\ 9 * Z.of_nat d = np - 9 * Z.of_nat (ROUND_UP i)) as (d & -> & Hd).
      { exists (Z.to_nat (Z.quot (np - Z.of_nat i) 9)). Z.to_euclidean_division_equations; lia. }
      destruct (move_left_holds (buf dec) beg en p q D d Hh ltac:(lia)) as (b & -> & Lb & Hb). cbn [mbind option_bind].
      eexists b, _, _, _, _, _. split; [done|]. split; [done|]. split; [exact Hb|]. lia.
    - destruct (Z.ltb_spec (np - Z.of_nat i) 0) as [Hn|Hn].
      + rewrite (proj2 (Z.ltb_ge _ _)) by lia. assert (exists d : nat, Z.quot (1 - (np - Z.of_nat i)) 9 = Z.of_nat d /\ 9 * Z.of_nat d = - np /\ i = 0%nat) as (d & -> & Hd & Hi0).
        { exists (Z.to_nat (Z.quot (1 - (np - Z.of_nat i)) 9)). Z.to_euclidean_division_equations; lia. }
        destruct (move_right_holds (buf dec) beg en p q D d Hh ltac:(lia)) as (b & -> & Lb & Hb). cbn [mbind option_bind].
        eexists b, _, _, _, _, _. split; [done|]. split; [done|]. split; [exact Hb|]. lia.
      + exists (buf dec), 0, p, q, beg, en. split; [done|]. split; [done|]. split; [done|]. lia. }
  destruct Hmv as (b & d & p' & q' & beg' & en' & -> & Lb & Hb & Eb & Ee & En). cbn [mbind option_bind]. rewrite <- Eb, <- Ee, En. pose proof Hb as [Hp' Hq' Hlt' _ _ _ _].
  destruct (fill_gaps_spec b beg' en' p' q' D (ROUND_UP i) (ROUND_UP f) Hb) as (b' & -> & Lb' & Hb' & Hz); [lia|lia|lia|lia|]. cbn [mbind option_bind]. rewrite !Nat2Z.id.
  exists b'. split; [done|]. split; [|congruence]. exists beg', en', p', q'. split; [done|]. split; [done|]. lia.
Qed.

(** What [shift_digits] does after it moved the digits by [mini] places. *)
Definition shift_rest (err shift mini beg en np i f : Z) (dec : decimal_t) (b : list Z) : option (Z * decimal_t) :=
  if (shift + mini =? 0) && (np + mini - i <? 9) then Some (err, mk_dec (Z.to_nat i) (Z.to_nat f) (sign dec) b)
  else shift_words err (beg + mini) (en + mini) (np + mini) i f (mk_dec (intg dec) (frac dec) (sign dec) b).

Section Shift.
Context (err shift : Z) (dec : decimal_t) (beg en p q : nat) (D : Z) (P W i f : nat).
Let np := 9 * Z.of_nat P + shift.
Let e := Z.of_nat en - np.
Hypothesis Hh : holds (buf dec) beg en p q D.
Hypothesis Hz : zero_out (buf dec) p q W.
Hypothesis HP : (P <= W)%nat.
Hypothesis He : (en <= 9 * W)%nat.
Hypothesis Hi : Z.of_nat i = Z.max (np - Z.of_nat beg) 0.
Hypothesis Hf : Z.of_nat f = Z.max e 0.
Hypothesis Hl : (ROUND_UP i + ROUND_UP f <= len dec)%nat.

Definition shifted (o : option (Z * decimal_t)) : Prop :=
    exists b, o = Some (err, mk_dec i f (sign dec) b) /\ placed b i f D e /\ length b = len dec.

Lemma shift_rest_spec b beg' en' p' q' mini k :
  length b = len dec -> holds b beg' en' p' q' D -> zero_out b p' q' W -> Z.of_nat beg' = Z.of_nat beg + mini -> Z.of_nat en' = Z.of_nat en + mini -> -8 <= mini <= 8 -> shift + mini = 9 * k ->
  shifted (shift_rest err shift mini (Z.of_nat beg) (Z.of_nat en) np (Z.of_nat i) (Z.of_nat f) dec b).
Proof.
  intros Lb Hb Hzb Eb Ee Hm Hk. pose proof (ROUND_UP_spec i) as RI. pose proof (ROUND_UP_spec f) as RF. pose proof Hb as [Hp Hq Hlt Hlen _ _ _]. pose proof (h_lt _ _ _ _ _ _ Hh).
  unfold shift_rest. destruct ((shift + mini =? 0) && (np + mini - Z.of_nat i <? 9)) eqn:Ec.
  - apply andb_true_iff in Ec as [Ek Ei]. apply Z.eqb_eq in Ek. apply Z.ltb_lt in Ei. exists b. rewrite !Nat2Z.id. split; [done|]. split; [|done].
    exists beg', en', p', q'. split; [done|]. split; [|lia]. intros j Hj Ho. apply Hzb; lia.
  - destruct (shift_words_spec err (mk_dec (intg dec) (frac dec) (sign dec) b) beg' en' p' q' D (Z.of_nat P + k) i f) as (b' & E & Hpl & Lb'); try done; try lia; [unfold len in *; cbn; lia|].
    exists b'. rewrite <- Eb, <- Ee. replace (np + mini) with (9 * (Z.of_nat P + k)) by lia. split; [exact E|]. split; [by replace e with (Z.of_nat en' - 9 * (Z.of_nat P + k)) by lia|]. by rewrite Lb'.
Qed.

Lemma shift_left_rest l k :
  1 <= l <= 8 -> l <= Z.of_nat beg -> shift - l = 9 * k ->
  shifted (b ← do_mini_left_shift (Z.to_nat l) (Z.of_nat beg) (Z.of_nat en) (buf dec); shift_rest err shift (- l) (Z.of_nat beg) (Z.of_nat en) np (Z.of_nat i) (Z.of_nat f) dec b).
Proof.
  intros Hl8 Hlb Hk. destruct (mini_left_spec (buf dec) beg en p q D (Z.to_nat l) W Hh Hz) as (b & p' & q' & -> & Lb & Hb & Hzb); [lia|lia|]. cbn [mbind option_bind].
  pose proof (h_lt _ _ _ _ _ _ Hh). apply (shift_rest_spec b (beg - Z.to_nat l)%nat (en - Z.to_nat l)%nat p' q' _ k); try done; lia.
Qed.

Lemma shift_right_rest r k :
  1 <= r <= 8 -> Z.of_nat en + r <= 9 * Z.of_nat (len dec) -> shift + r = 9 * k ->
  shifted (b ← do_mini_right_shift (Z.to_nat r) (Z.of_nat beg) (Z.of_nat en) (buf dec); shift_rest err shift r (Z.of_nat beg) (Z.of_nat en) np (Z.of_nat i) (Z.of_nat f) dec b).
Proof.
  intros Hr8 Hrb Hk. destruct (mini_right_spec (buf dec) beg en p q D (Z.to_nat r) W Hh Hz) as (b & p' & q' & -> & Lb & Hb & Hzb); [lia|unfold len in *; lia|]. cbn [mbind option_bind].
  apply (shift_rest_spec b (beg + Z.to_nat r)%nat (en + Z.to_nat r)%nat p' q' _ k); try done; lia.
Qed.

(** The digits are moved to the left when there is no room on the right, and
    the other way round: one of the two always has room. *)
Lemma shift_digits_spec : shifted (shift_digits err shift (Z.of_nat beg) (Z.of_nat en) np (Z.of_nat i) (Z.of_nat f) dec).
Proof.
  pose proof (ROUND_UP_spec i) as RI. pose proof (ROUND_UP_spec f) as RF. pose proof Hh as [Hp Hq Hlt Hlen _ _ _].
  unfold shift_digits. destruct (Z.eqb_spec (Z.rem shift 9) 0) as [E|E].
  { assert (exists k, shift = 9 * k) as [k Ek] by (exists (Z.quot shift 9); Z.to_euclidean_division_equations; lia).
    destruct (shift_words_spec err dec beg en p q D (Z.of_nat P + k) i f Hh) as (b & Eb & Hb); try lia. replace (9 * (Z.of_nat P + k)) with np in Eb, Hb by lia. by exists b. }
  destruct (Z.ltb_spec 0 shift) as [Hs|Hs].
  - assert (exists k, 1 <= Z.rem shift 9 <= 8 /\ shift - Z.rem shift 9 = 9 * k) as (k & Hl8 & Hk) by (exists (Z.quot shift 9); Z.to_euclidean_division_equations; lia).
    destruct (Z.leb_spec (Z.rem shift 9) (Z.of_nat beg)) as [Hc|Hc]; [by apply (shift_left_rest _ k)|]. apply (shift_right_rest _ (k + 1)); lia.
  - assert (exists k, 1 <= Z.rem (- shift) 9 <= 8 /\ shift + Z.rem (- shift) 9 = 9 * k) as (k & Hr8 & Hk) by (exists (Z.quot shift 9); Z.to_euclidean_division_equations; lia).
    destruct (Z.leb_spec (Z.rem (- shift) 9) (Z.of_nat (len dec) * 9 - Z.of_nat en)) as [Hc|Hc]; cbn [negb]; [apply (shift_right_rest _ k); lia|]. apply (shift_left_rest _ (k - 1)); lia.
Qed.
End Shift.

Lemma ROUND_UP_mono a b : (a <= b)%nat -> (ROUND_UP a <= ROUND_UP b)%nat.
Proof. intros H. pose proof (ROUND_UP_spec a). pose proof (ROUND_UP_spec b). lia. Qed.

(** The digits of a number that is not zero, and the zeros around them. *)
Lemma number_holds d beg en D :
  wf d -> (beg < en <= 9 * (IW d + FW d))%nat -> words (take (IW d + FW d) (buf d)) = D * powers10 (9 * (IW d + FW d) - en) -> 0 < D < powers10 (en - beg) ->
  exists p q, holds (buf d) beg en p q D /\ zero_out (buf d) p q (IW d + FW d).
Proof.
  intros H Hb Hv HD. pose proof (wf_len d H) as Hlen. unfold len in Hlen. set (w := (IW d + FW d)%nat) in *.
  assert (Es : seg (buf d) 0 (S (w - 1)) = take w (buf d)) by (unfold seg; rewrite Nat.sub_0_r, drop_0; f_equal; lia).
  apply (moved (buf d) (buf d) 0 (w - 1) beg en D 0 (w - 1) w); try done; try lia.
  - rewrite Es. apply (wf_words d H).
  - rewrite Es, Hv. do 2 f_equal. lia.
  - intros k Hk Ho. lia.
Qed.

Lemma digits_magnitude n d en D :
  (FW d <= n)%nat -> (en <= 9 * (IW d + FW d))%nat -> words (take (IW d + FW d) (buf d)) = D * powers10 (9 * (IW d + FW d) - en) ->
  magnitude n d = D * powers10 (9 * (n + IW d) - en).
Proof.
  intros Hn He Hv. rewrite magnitude_exact by done. unfold magnitude.
  rewrite Nat.min_id, Nat.sub_diag, B_0, Z.mul_1_r, Hv, powers10_B, <- Z.mul_assoc, <- powers10_add. do 2 f_equal. lia.
Qed.

(** C13: [decimal_shift] multiplies a number by a power of ten, exactly, when the
    digits before and after the point that the product can have are in the
    buffer, however the digits have to be moved for that. *)
Theorem decimal_shift_correct d shift :
  wf d -> (ROUND_UP (Z.to_nat (Z.of_nat (intg d) + shift)) + ROUND_UP (Z.to_nat (Z.of_nat (frac d) - shift)) <= len d)%nat ->
  exists r, decimal_shift d shift = Some (E_DEC_OK, r) /\ wf r /\ len r = len d /\
    forall n, (FW d <= n)%nat -> (FW r <= n)%nat -> value n r * powers10 (Z.to_nat (- shift)) = value n d * powers10 (Z.to_nat shift).
Proof.
  intros H Hroom. unfold decimal_shift. fold (IW d). destruct (Z.eqb_spec shift 0) as [->|Hs]; [by exists d|].
  destruct (digits_bounds_spec d H) as [[Hm ->]|(beg & en & D & -> & Hb & Hv & HD & Hi9 & Hf9)]; cbn [mbind option_bind].
  { pose proof (wf_len d H). pose proof (wf_digits d H). pose proof (ROUND_UP_spec (intg d)) as HI. pose proof (ROUND_UP_spec (frac d)) as HF. fold (IW d) in HI. fold (FW d) in HF.
    destruct (make_zero_spec d ltac:(lia)) as (Hwf & Hl & _ & _ & Hv). rewrite Z.eqb_refl. eexists. split; [done|]. split; [done|]. split; [done|].
    intros n Hn _. rewrite !value_signed, Hv, (magnitude_exact n d Hn), Hm. by destruct (sign d), (sign (decimal_make_zero d)). }
  rewrite (proj2 (Z.eqb_neq _ _)) by lia. set (np := Z.of_nat (IW d) * 9 + shift).
  set (i := Z.to_nat (Z.max (np - Z.of_nat beg) 0)). set (f := Z.to_nat (Z.max (Z.of_nat en - np) 0)).
  replace (Z.max (np - Z.of_nat beg) 0) with (Z.of_nat i) by lia. replace (Z.max (Z.of_nat en - np) 0) with (Z.of_nat f) by lia. rewrite !round_up_nat.
  pose proof (ROUND_UP_mono i (Z.to_nat (Z.of_nat (intg d) + shift)) ltac:(lia)). pose proof (ROUND_UP_mono f (Z.to_nat (Z.of_nat (frac d) - shift)) ltac:(lia)).
  rewrite (proj2 (Z.ltb_ge _ _)) by lia. destruct (number_holds d beg en D H Hb Hv HD) as (p & q & Hh & Hz).
  destruct (shift_digits_spec E_DEC_OK shift d beg en p q D (IW d) (IW d + FW d) i f Hh Hz) as (b & E & Hpl & Lb); try lia.
  replace (9 * Z.of_nat (IW d) + shift) with np in E, Hpl by lia. rewrite E. destruct (placed_result b i f D _ (sign d) Hpl) as [Hwf Hr].
  eexists. split; [done|]. split; [done|]. split; [done|]. intros n Hn Hn'. destruct (Hr n Hn') as [Er Hen].
  pose proof (digits_magnitude n d en D Hn ltac:(lia) Hv) as Ed.
  assert (Em : magnitude n (mk_dec i f (sign d) b) * powers10 (Z.to_nat (- shift)) = magnitude n d * powers10 (Z.to_nat shift)).
  { rewrite Er, Ed, <- !Z.mul_assoc, <- !powers10_add. do 2 f_equal. lia. }
  rewrite !value_signed. cbn [sign]. destruct (sign d); cbn [signed]; lia.
Qed.

(** A product that has more digits before the point than the buffer: the number
    is left as it is. *)
Lemma decimal_shift_overflow d shift n :
  wf d -> 0 <= shift -> (FW d <= n)%nat -> powers10 (9 * len d) * B n <= magnitude n d * powers10 (Z.to_nat shift) ->
  decimal_shift d shift = Some (E_DEC_OVERFLOW, d).
Proof.
  intros H H0 Hn Hbig. pose proof (wf_len d H). pose proof (ROUND_UP_spec (intg d)) as HI. fold (IW d) in HI. unfold decimal_shift. fold (IW d).
  destruct (Z.eqb_spec shift 0) as [->|Hs].
  { exfalso. pose proof (magnitude_lt n d H Hn). pose proof (powers10_le (intg d) (9 * len d) ltac:(lia)). pose proof (B_pos n). change (powers10 (Z.to_nat 0)) with 1 in Hbig. nia. }
  destruct (digits_bounds_spec d H) as [[Hm _]|(beg & en & D & -> & Hb & Hv & HD & _)]; cbn [mbind option_bind].
  { exfalso. rewrite (magnitude_exact n d Hn), Hm in Hbig. pose proof (powers10_pos (9 * len d)). pose proof (B_pos n). nia. }
  rewrite (proj2 (Z.eqb_neq _ _)) by lia. rewrite (digits_magnitude n d en D Hn ltac:(lia) Hv), <- Z.mul_assoc, powers10_B, <- !powers10_add in Hbig.
  assert (Hlt : powers10 (9 * len d + 9 * n) < powers10 (en - beg + (9 * (n + IW d) - en + Z.to_nat shift))).
  { eapply Z.le_lt_trans; [exact Hbig|]. rewrite (powers10_add (en - beg)). apply Z.mul_lt_mono_pos_r; [apply powers10_pos|lia]. }
  assert (Hd : (9 * len d + beg < 9 * IW d + Z.to_nat shift)%nat).
  { apply Nat.nle_gt. intros Hc. pose proof (powers10_le (en - beg + (9 * (n + IW d) - en + Z.to_nat shift)) (9 * len d + 9 * n) ltac:(lia)). lia. }
  set (i := Z.to_nat (Z.max (Z.of_nat (IW d) * 9 + shift - Z.of_nat beg) 0)). set (f := Z.to_nat (Z.max (Z.of_nat en - (Z.of_nat (IW d) * 9 + shift)) 0)).
  replace (Z.max (Z.of_nat (IW d) * 9 + shift - Z.of_nat beg) 0) with (Z.of_nat i) by lia. replace (Z.max (Z.of_nat en - (Z.of_nat (IW d) * 9 + shift)) 0) with (Z.of_nat f) by lia. rewrite !round_up_nat.
  pose proof (ROUND_UP_spec i). rewrite !(proj2 (Z.ltb_lt _ _)) by lia. done.
Qed.
