(* ===== verification/DecimalExamples.v ===== *)
(** * Decimal numbers: examples

    The theorems at concrete numbers, and what the functions do at the edges
    that the theorems leave out. *)
From Stdlib Require Import ZArith Lia List Bool.
From stdpp Require Import base tactics list option.
From S2P Require Import Prelude StrNum Decimal DecimalValue DecimalAdd DecimalSub DecimalMul DecimalInt.
From S2P Require Import DecimalBin DecimalBinSpec DecimalBinRead DecimalRound DecimalRoundSpec DecimalStr DecimalDiv DecimalDivSpec DecimalShift.

Open Scope Z_scope.

Module DecimalExamples.

(** Well-formedness by evaluation. *)
Definition check_wf (d : decimal_t) : bool :=
  (IW d + FW d <=? len d)%nat && (0 <? intg d + frac d)%nat &&
  forallb (fun w => (0 <=? w) && (w <? DIG_BASE)) (take (IW d + FW d) (buf d)) &&
  (words (take (IW d) (buf d)) <? powers10 (intg d)) &&
  (words (take (IW d + FW d) (buf d)) mod powers10 (9 * FW d - frac d) =? 0).

Lemma check_wf_ok d : check_wf d = true -> wf d.
Proof.
  unfold check_wf. rewrite !andb_true_iff, Nat.leb_le, Nat.ltb_lt, Z.ltb_lt, Z.eqb_eq, forallb_forall.
  intros ((((H1 & H2) & H3) & H4) & H5). split; try done.
  - apply list.Forall_forall. intros w Hw. apply list_elem_of_In in Hw. specialize (H3 w Hw).
    rewrite andb_true_iff, Z.leb_le, Z.ltb_lt in H3. done.
  - apply Z.mod_divide in H5; [done|]. pose proof (powers10_pos (9 * FW d - frac d)). lia.
Qed.

Definition check_proper (d : decimal_t) : bool := check_wf d && (negb (sign d) || (0 <? magnitude (FW d) d)).

Lemma check_proper_ok d : check_proper d = true -> proper d.
Proof.
  unfold check_proper. rewrite andb_true_iff, orb_true_iff, Z.ltb_lt. intros [H1 H2].
  split; [by apply check_wf_ok|]. intros Hs. rewrite Hs in H2. by destruct H2.
Qed.

(** 1234567890.1234, -99.5, and a buffer. *)
Definition n1 : decimal_t := mk_dec 10 4 false [1; 234567890; 123400000].
Definition n2 : decimal_t := mk_dec 2 1 true [99; 500000000; 0].
Definition room (n : nat) : decimal_t := mk_dec 0 0 false (replicate n 0).

Lemma n1_proper : proper n1.
Proof. by apply check_proper_ok. Qed.

Lemma n2_proper : proper n2.
Proof. by apply check_proper_ok. Qed.

Lemma decimal_add_sub_correct_witness :
  decimal_add n1 n2 (room 3) = Some (E_DEC_OK, mk_dec 18 4 false [1; 234567790; 623400000]) /\
  decimal_sub n1 n2 (room 3) = Some (E_DEC_OK, mk_dec 18 4 false [1; 234567989; 623400000]) /\
  exact Z.add n1 n2 (room 3) (decimal_add n1 n2 (room 3)).
Proof.
  split; [by vm_compute|]. split; [by vm_compute|].
  destruct (decimal_add_sub_correct n1 n2 (room 3)) as [H _]; [apply n1_proper|apply n2_proper|done|done|exact H].
Defined.

Lemma decimal_mul_correct_witness :
  exists r, decimal_mul n1 n2 (room 4) = Some (E_DEC_OK, r) /\ r = mk_dec 18 5 true [122; 839505067; 278300000; 0] /\ proper r.
Proof.
  destruct (decimal_mul_correct n1 n2 (room 4)) as (r & E & Pr & _); [apply n1_proper|apply n2_proper|vm_compute; lia|].
  exists r. split; [done|]. split; [|done]. vm_compute in E. congruence.
Defined.

Lemma decimal2longlong_correct_witness :
  decimal2longlong n2 = Some (E_DEC_TRUNCATED, -99).
Proof.
  rewrite decimal2longlong_correct by apply n2_proper. vm_compute. reflexivity.
Defined.

Lemma longlong2decimal_correct_witness :
  exists r, longlong2decimal LONGLONG_MIN (room 3) = Some (E_DEC_OK, r) /\ r = mk_dec 27 0 true [9; 223372036; 854775808] /\
    value 0 r = LONGLONG_MIN.
Proof.
  destruct (longlong2decimal_correct LONGLONG_MIN (room 3)) as (r & E & _ & _ & _ & V); [unfold is_s64, LONGLONG_MIN; lia|cbn; lia|].
  exists r. split; [done|]. split; [|done]. vm_compute in E. congruence.
Defined.

Lemma decimal2ulonglong_correct_witness :
  decimal2ulonglong n1 = Some (E_DEC_TRUNCATED, 1234567890) /\ decimal2ulonglong n2 = Some (E_DEC_OVERFLOW, 0).
Proof.
  split; [|by vm_compute]. rewrite decimal2ulonglong_correct by apply n1_proper. vm_compute. reflexivity.
Defined.

(** The example of the comment in the code. *)
Lemma decimal_bin_roundtrip_witness :
  exists l r, decimal2bin n1 14 4 = Some (E_DEC_OK, l) /\ l = [129; 13; 251; 56; 210; 4; 210] /\
    bin2decimal l (room 3) 14 4 = Some (E_DEC_OK, r) /\ wf r /\ frac r = 4%nat.
Proof.
  destruct (decimal_bin_roundtrip n1 14 4 (room 3)) as (l & r & E & _ & Er & W & _ & Fr & _).
  - split; [apply n1_proper|]. split; [cbn; lia|]. split; [lia|]. by vm_compute.
  - vm_compute. lia.
  - exists l, r. split; [done|]. split; [vm_compute in E; congruence|]. done.
Defined.


Lemma decimal_string_roundtrip_witness :
  exists t r, decimal2string n2 (replicate 10 7) 10 0 0 0 = Some (E_DEC_OK, Z.of_nat (length t), t ++ 0 :: drop (S (length t)) (replicate 10 7)) /\
    t = [45; 57; 57; 46; 53] /\ internal_str2dec (t ++ [32]) (room 2) false = Some (E_DEC_OK, r, [32]) /\ r = mk_dec 2 1 true [99; 500000000] /\ proper r.
Proof.
  destruct (decimal_string_roundtrip n2 (replicate 10 7) 10 0 [32] (room 2)) as (t & r & E & Er & P & _); [apply n2_proper|by vm_compute|by vm_compute|vm_compute; lia|].
  assert (Et : t = [45; 57; 57; 46; 53]).
  { assert (Hl : length t = 5%nat) by (vm_compute (decimal2string _ _ _ _ _ _) in E; injection E; lia).
    destruct t as [|x0 [|x1 [|x2 [|x3 [|x4 [|? ?]]]]]]; try done. vm_compute in E. congruence. }
  exists t, r. split; [done|]. split; [done|]. split; [done|]. split; [|done]. rewrite Et in Er. vm_compute in Er. congruence.
Defined.

(** The digits are moved inside the words and the words to the front. *)
Lemma decimal_shift_correct_witness :
  exists r, decimal_shift n2 (-10) = Some (E_DEC_OK, r) /\ r = mk_dec 0 11 true [9; 950000000; 0] /\ value 2 r * 10 ^ 10 = value 2 n2 * 1.
Proof.
  destruct (decimal_shift_correct n2 (-10)) as (r & E & _ & _ & V); [apply n2_proper|vm_compute; lia|].
  assert (Er : r = mk_dec 0 11 true [9; 950000000; 0]) by (vm_compute in E; congruence).
  exists r. split; [done|]. split; [done|]. apply (V 2%nat); [|rewrite Er]; vm_compute; lia.
Defined.

Lemma decimal_div_correct_witness :
  exists r, decimal_div n1 n2 (room 5) 4 = Some (E_DEC_OK, r) /\ r = mk_dec 9 18 true [12407717; 488677386; 934673366; 0; 0] /\
    value (FW r) r = Z.quot (value 1 n1 * B (FW r)) (value 1 n2).
Proof.
  destruct (decimal_div_correct n1 n2 (room 5) 4 1) as [_ H]; [apply n1_proper|apply n2_proper|lia|vm_compute; lia|by vm_compute; lia|by vm_compute; lia|].
  destruct H as (err & r & E & _ & _ & _ & V & _); [by vm_compute|].
  assert (Er : (err, r) = (E_DEC_OK, mk_dec 9 18 true [12407717; 488677386; 934673366; 0; 0])) by (vm_compute in E; vm_compute; congruence).
  injection Er as -> ->. eexists. split; [exact E|]. split; [done|]. by apply V.
Defined.

Lemma decimal_mod_correct_witness :
  exists r, decimal_mod n1 n2 (room 3) = Some (E_DEC_OK, r) /\ r = mk_dec 2 4 false [48; 623400000; 0] /\ value 1 r = Z.rem (value 1 n1) (value 1 n2).
Proof.
  destruct (decimal_mod_correct n1 n2 (room 3) 1) as [_ H]; [apply n1_proper|apply n2_proper|vm_compute; lia|by vm_compute; lia|by vm_compute; lia|].
  destruct H as (r & E & _ & _ & V); [by vm_compute|]. exists r. split; [done|]. split; [vm_compute in E; congruence|done].
Defined.

(** 99.5 is rounded to 100, with one digit more. *)
Lemma decimal_round_correct_witness :
  exists r, decimal_round n2 n2 true 0 HALF_UP = Some (E_DEC_OK, r) /\ r = mk_dec 3 0 true [100; 0; 0] /\ value 1 r = - 100 * DIG_BASE.
Proof.
  destruct (decimal_round_correct n2 n2 true 0 HALF_UP 1) as (r & E & _ & _ & V); [apply n2_proper|constructor|done|done|vm_compute; lia|vm_compute; lia|vm_compute; lia|].
  exists r. split; [done|]. split; [vm_compute in E; congruence|]. rewrite V. by vm_compute.
Defined.

(** ** Edges *)

(** The fraction is cut off without an error when there is an exponent. *)
Lemma exponent_hides_truncation :
  internal_str2dec [49; 46; 53] (room 1) false = Some (E_DEC_TRUNCATED, mk_dec 1 0 false [1], []) /\
  internal_str2dec [49; 46; 53; 101; 48] (room 1) false = Some (E_DEC_OK, mk_dec 1 0 false [1], []).
Proof. split; by vm_compute. Qed.

(** The remainder is not less than the dividend when that is the smaller one. *)
Lemma mod_of_smaller :
  decimal_mod (mk_dec 1 0 false [1]) (mk_dec 1 0 false [3]) (room 1) = Some (E_DEC_OK, mk_dec 1 0 false [1]).
Proof. by vm_compute. Qed.

(** The remainder of a negative number that is a multiple is a negative zero,
    which is less than zero. *)
Lemma mod_gives_negative_zero :
  decimal_mod (mk_dec 1 1 true [4; 0]) (mk_dec 1 1 false [2; 0]) (room 2) = Some (E_DEC_OK, mk_dec 0 1 true [0; 0]) /\
  decimal_cmp (mk_dec 0 1 true [0; 0]) (mk_dec 1 0 false [0]) = -1.
Proof. split; by vm_compute. Qed.

(** A carry out of a full buffer is stored behind its end, also when a number
    that fits is the result. *)
Lemma round_writes_behind_buffer :
  decimal_round (mk_dec 18 0 false [999999999; 999999999]) (room 2) false (-1) HALF_UP = None /\
  decimal_round (mk_dec 18 0 false [999999999; 999999999]) (room 3) false (-1) HALF_UP = Some (E_DEC_OK, mk_dec 19 0 false [1; 0; 0]).
Proof. split; by vm_compute. Qed.

(** So is the last word of a zero. *)
Lemma round_zero_behind_buffer :
  decimal_round (mk_dec 0 18 false [0; 1]) (room 2) false 17 HALF_UP = None.
Proof. by vm_compute. Qed.

(** 2.51 is rounded to 2, not to the nearest number. *)
Lemma half_even_one_digit :
  decimal_round (mk_dec 1 2 false [2; 510000000]) (room 2) false 0 HALF_EVEN = Some (E_DEC_OK, mk_dec 9 0 false [2; 0]).
Proof. by vm_compute. Qed.

(** A number with too many digits before the point is written over the end of
    the text. *)
Lemma string_behind_buffer :
  decimal2string (mk_dec 5 0 false [12345]) (replicate 4 7) 4 0 0 0 = None /\
  decimal2string (mk_dec 5 0 false [12345]) (replicate 6 7) 4 0 0 chr_0 = Some (E_DEC_OVERFLOW, 5, [48; 48; 51; 52; 53; 0]).
Proof. split; by vm_compute. Qed.

(** An integer with fixed digits after the point: their places are not written. *)
Lemma string_gap :
  decimal2string (mk_dec 1 0 false [5]) (replicate 8 7) 8 6 3 chr_0 = Some (E_DEC_OK, 6, [48; 48; 53; 7; 7; 7; 0; 7]).
Proof. by vm_compute. Qed.

(** The sum of two negative numbers that does not fit becomes the largest
    positive number. *)
Lemma negative_overflow_is_positive :
  let m := mk_dec 9 0 true [999999999] in
  decimal_add m m (room 1) = Some (E_DEC_OVERFLOW, mk_dec 9 0 false [999999999]).
Proof. by vm_compute. Qed.

(** A sum whose first word is 999999999 is refused although it fits. *)
Lemma sum_that_fits_overflows :
  decimal_add (mk_dec 9 0 false [999999998]) (mk_dec 9 0 false [1]) (room 1) =
  Some (E_DEC_OVERFLOW, mk_dec 9 0 false [999999999]) /\
  decimal_add (mk_dec 9 0 false [999999997]) (mk_dec 9 0 false [1]) (room 1) = Some (E_DEC_OK, mk_dec 9 0 false [999999998]).
Proof. by vm_compute. Qed.

(** When the fraction of a product is cut, a factor with few digits after the
    point loses digits before it: (10^64 + 1) * 1.000... is 10^64. *)
Lemma mul_drops_integer_digits :
  let a := mk_dec 65 0 false [10; 0; 0; 0; 0; 0; 0; 1] in
  let b := mk_dec 1 30 false [1; 0; 0; 0; 0] in
  exists r, decimal_mul a b (room 9) = Some (E_DEC_TRUNCATED, r) /\ value 0 a = 10 ^ 64 + 1 /\ value 0 r = 10 ^ 64.
Proof. eexists. split; [vm_compute; reflexivity|]. by vm_compute. Qed.

(** A number with more digits after the point than the format, but not more
    bytes, is stored with too many digits, and does not read back. *)
Lemma bin_with_more_digits :
  decimal2bin (mk_dec 0 2 false [120000000]) 2 1 = Some (E_DEC_OK, [128; 12]) /\
  bin2decimal [128; 12] (room 2) 2 1 = Some (E_DEC_BAD_NUM, mk_dec 1 0 false [0; 0]).
Proof. split; by vm_compute. Qed.

(** The first group is checked against one digit too many. *)
Lemma bin_first_group_check :
  bin2decimal [128 + 99] (room 1) 1 0 = Some (E_DEC_OK, mk_dec 1 0 false [99]).
Proof. by vm_compute. Qed.

(** Zeroes of different sign are not equal. *)
Lemma negative_zero_differs :
  decimal_cmp (mk_dec 1 0 true [0]) (mk_dec 1 0 false [0]) = -1 /\
  decimal2ulonglong (mk_dec 1 0 true [0]) = Some (E_DEC_OVERFLOW, 0).
Proof. by vm_compute. Qed.

(** Rounding that carries into a new first digit is not noticed by
    [decimal_shift]: ten times 0.99...9 is 0.00000001 in a buffer of nine words. *)
Lemma shift_loses_carry :
  let d := mk_dec 0 81 false (replicate 9 999999999) in
  proper d /\ value 9 d = 10 ^ 81 - 1 /\ exists r, decimal_shift d 1 = Some (E_DEC_TRUNCATED, r) /\ frac r = 72%nat /\ value 8 r = 10 ^ 64.
Proof. split; [by apply check_proper_ok|]. split; [by vm_compute|]. eexists. split; [vm_compute; reflexivity|]. by vm_compute. Qed.

End DecimalExamples.
