(* ===== verification/HashTable.v ===== *)
(** * Hash tables (mysys/hash.c, include/hash.h)

    A [HASH] keeps its records in one array.  The records whose hash value
    selects bucket [b] form a chain that starts at index [b]; a record that is
    not at the head of its chain is at any free index.  The table grows and
    shrinks by one bucket at a time (linear hashing): adding a record splits
    one bucket, removing one merges two.  The array is a list of links; an
    index into it is a [nat], and [NO_RECORD] is [None].  [dynamic_element] and
    [pop_dynamic] are list operations, and [mem] says whether [alloc_dynamic]
    finds memory.

    The class [HashKeys] stands for what a table gets from its user: how the
    key is read from a record, the hash function and the comparison of the
    collation, with the law every character set keeps: keys of one length
    that compare equal have the same hash value. *)
From Stdlib Require Import ZArith Lia List Bool.
From stdpp Require Import base tactics list gmap.
From S2P Require Import Prelude.

Open Scope Z_scope.

(** ** Data *)

Definition HASH_UNIQUE : Z := 1.
Definition LOWFIND : Z := 1.
Definition LOWUSED : Z := 2.
Definition HIGHFIND : Z := 4.
Definition HIGHUSED : Z := 8.

Record HASH_LINK (rec : Type) := mk_link { next : option nat; data : rec }.
Arguments mk_link {rec}.
Arguments next {rec}.
Arguments data {rec}.

#[export] Instance HASH_LINK_inhabited {rec} `{!Inhabited rec} : Inhabited (HASH_LINK rec) :=
  populate (mk_link None inhabitant).

(** [has_free]: a function to free records was given. *)
Record HASH (rec : Type) := mk_hash {
  key_offset : nat;
  key_length : nat;
  blength : nat;
  records : nat;
  flags : Z;
  array : list (HASH_LINK rec);
  has_free : bool
}.
Arguments mk_hash {rec}.
Arguments key_offset {rec}.
Arguments key_length {rec}.
Arguments blength {rec}.
Arguments records {rec}.
Arguments flags {rec}.
Arguments array {rec}.
Arguments has_free {rec}.

Definition set_table {rec} (h : HASH rec) (bl n : nat) (a : list (HASH_LINK rec)) : HASH rec :=
  mk_hash (key_offset h) (key_length h) bl n (flags h) a (has_free h).

(** [get_key] is the callback, if there is one, and [key_tail] the bytes that
    follow the key it gives in memory; [rec_mem] the bytes at the address of a
    record; [strnncoll] is zero for equal keys. *)
Class HashKeys (rec : Type) := {
  get_key : option (rec -> list Z);
  key_tail : rec -> list Z;
  rec_mem : rec -> list Z;
  hash_function : list Z -> Z;
  strnncoll : list Z -> list Z -> Z;
  hash_function_u32 : forall k, is_u32 (hash_function k);
  strnncoll_hash : forall k k', length k = length k' ->
    strnncoll k k' = 0 -> hash_function k = hash_function k'
}.

(** ** The binary character set (strings/ctype-bin.c, strings/strings_def.h) *)

Definition MY_HASH_ADD (nr : Z * Z) (value : Z) : Z * Z :=
  let '(A, B) := nr in
  (Z.lxor A (u64 (u64 ((Z.land A 63 + B) * value) + u64 (Z.shiftl A 8))), u64 (B + 3)).

Definition my_hash_sort_bin (key : list Z) (nr1 nr2 : Z) : Z * Z :=
  fold_left MY_HASH_ADD key (nr1, nr2).

Definition my_strnncoll_binary (s t : list Z) (t_is_prefix : bool) : Z :=
  let len := Nat.min (length s) (length t) in
  let cmp := memcmp s t len in
  if cmp =? 0 then s32 (Z.of_nat (if t_is_prefix then len else length s) - Z.of_nat (length t))
  else cmp.

(** [my_hash_sort] with [my_charset_bin]. *)
Definition my_hash_sort (key : list Z) : Z := u32 (fst (my_hash_sort_bin key 1 4)).

Section Hash.
Context {rec : Type} `{!EqDecision rec} `{!Inhabited rec} `{!HashKeys rec}.
Implicit Types (h : HASH rec) (a : list (HASH_LINK rec)) (r : rec).

(** ** Addresses *)

Definition my_hash_key h r : list Z :=
  match get_key with
  | Some f => f r
  | None => take (key_length h) (drop (key_offset h) (rec_mem r))
  end.

(** The memory at the address of the key, which does not end with the key. *)
Definition key_memory h r : list Z :=
  match get_key with
  | Some f => f r ++ key_tail r
  | None => drop (key_offset h) (rec_mem r)
  end.

Definition my_hash_mask (hashnr : Z) (buffmax maxlength : nat) : nat :=
  let low := Z.to_nat (Z.land hashnr (Z.of_nat buffmax - 1)) in
  if (low <? maxlength)%nat then low
  else Z.to_nat (Z.land hashnr (Z.shiftr (Z.of_nat buffmax) 1 - 1)).

Definition rec_hashnr h r : Z := hash_function (my_hash_key h r).

Definition my_hash_rec_mask h (pos : HASH_LINK rec) (buffmax maxlength : nat) : nat :=
  my_hash_mask (rec_hashnr h (data pos)) buffmax maxlength.

(** ** Making and clearing a table *)

Definition my_hash_init2 (key_offset key_length : nat) (has_free : bool) (flags : Z) : HASH rec :=
  mk_hash key_offset key_length 1 0 flags [] has_free.

(** The records given to [hash->free], in order, and the table. *)
Definition my_hash_free_elements h : list rec * HASH rec :=
  (if has_free h then map data (take (records h) (array h)) else [],
   set_table h (blength h) 0 (array h)).

Definition my_hash_free h : list rec * HASH rec :=
  let '(freed, h) := my_hash_free_elements h in
  (freed, mk_hash (key_offset h) (key_length h) 0 (records h) (flags h) [] false).

Definition my_hash_reset h : list rec * HASH rec :=
  let '(freed, h) := my_hash_free_elements h in
  (freed, set_table h 1 (records h) []).

Definition my_hash_inited h : bool := negb (blength h =? 0)%nat.

(** ** Searching

    A key is the memory at its address, with its length; the length 0 stands
    for the length of the record's key.  [HASH_SEARCH_STATE] is the index of
    the record found. *)

(** True: the keys differ. *)
Definition hashcmp h (pos : HASH_LINK rec) (key : list Z) (length : nat) : bool :=
  let rec_key := my_hash_key h (data pos) in
  let rec_keylength := List.length rec_key in
  (negb (length =? 0)%nat && negb (length =? rec_keylength)%nat) ||
  negb (strnncoll rec_key (take rec_keylength key) =? 0).

Fixpoint first_loop (fuel : nat) h (key : list Z) (length idx : nat) (flag : bool)
  : option (rec * nat) :=
  match fuel with
  | O => None
  | S fuel =>
      let pos := array h !!! idx in
      if negb (hashcmp h pos key length) then Some (data pos, idx)
      else if flag && negb (my_hash_rec_mask h pos (blength h) (records h) =? idx)%nat then None
      else match next pos with
           | Some idx => first_loop fuel h key length idx false
           | None => None
           end
  end.

Definition my_hash_first_from_hash_value h (hash_value : Z) (key : list Z) (length : nat)
  : option (rec * nat) :=
  if (records h =? 0)%nat then None
  else first_loop (records h) h key length (my_hash_mask hash_value (blength h) (records h)) true.

Definition my_hash_first h (key : list Z) (length : nat) : option (rec * nat) :=
  if my_hash_inited h then
    my_hash_first_from_hash_value h
      (hash_function (take (if (length =? 0)%nat then key_length h else length) key)) key length
  else None.

Definition my_hash_search h (key : list Z) (length : nat) : option rec :=
  fst <$> my_hash_first h key length.

Definition my_hash_search_using_hash_value h (hash_value : Z) (key : list Z) (length : nat)
  : option rec :=
  fst <$> my_hash_first_from_hash_value h hash_value key length.

Fixpoint next_loop (fuel : nat) h (key : list Z) (length : nat) (idx : option nat)
  : option (rec * nat) :=
  match fuel, idx with
  | S fuel, Some idx =>
      let pos := array h !!! idx in
      if negb (hashcmp h pos key length) then Some (data pos, idx)
      else next_loop fuel h key length (next pos)
  | _, _ => None
  end.

Definition my_hash_next h (key : list Z) (length : nat) (current_record : option nat)
  : option (rec * nat) :=
  match current_record with
  | Some i => next_loop (records h) h key length (next (array h !!! i))
  | None => None
  end.

Definition my_hash_element h (idx : nat) : option rec :=
  if (idx <? records h)%nat then Some (data (array h !!! idx)) else None.

(** The result and the records [action] was called with. *)
Fixpoint iterate_loop (action : rec -> bool) (l : list rec) : bool * list rec :=
  match l with
  | [] => (false, [])
  | r :: l =>
      if action r then (true, [r])
      else let '(res, seen) := iterate_loop action l in (res, r :: seen)
  end.

Definition my_hash_iterate h (action : rec -> bool) : bool * list rec :=
  iterate_loop action (map data (take (records h) (array h))).

(** ** Links *)

(** Stops in a cell whose link is [find], as the table's chains make sure. *)
Fixpoint movelink (fuel : nat) a (find : option nat) (next_link : nat) (newlink : option nat)
  : list (HASH_LINK rec) :=
  match fuel with
  | O => a
  | S fuel =>
      let old_link := a !!! next_link in
      if decide (next old_link = find) then
        <[next_link := mk_link newlink (data old_link)]> a
      else match next old_link with
           | Some i => movelink fuel a find i newlink
           | None => a
           end
  end.

Definition set_next a (i : nat) (n : option nat) : list (HASH_LINK rec) :=
  <[i := mk_link n (data (a !!! i))]> a.

(** ** Inserting

    The loop that splits a bucket: its variables, one turn, the loop, and what
    is done after it. *)

Record split_state := mk_split {
  sp_flag : Z;
  gpos : nat;
  ptr_to_rec : rec;
  gpos2 : nat;
  ptr_to_rec2 : rec;
  empty : nat;
  sp_data : list (HASH_LINK rec)
}.

Definition split_low (pos : nat) (s : split_state) : split_state :=
  let '(mk_split flag g p g2 p2 em a) := s in
  if negb (has_flag flag LOWFIND) then
    if has_flag flag HIGHFIND then
      mk_split (Z.lor LOWFIND HIGHFIND) em (data (a !!! pos)) g2 p2 pos a
    else
      mk_split (Z.lor LOWFIND LOWUSED) pos (data (a !!! pos)) g2 p2 em a
  else
    let '(flag, a) :=
      if negb (has_flag flag LOWUSED) then
        (Z.lor (Z.land flag HIGHFIND) (Z.lor LOWFIND LOWUSED), <[g := mk_link (Some pos) p]> a)
      else (flag, a) in
    mk_split flag pos (data (a !!! pos)) g2 p2 em a.

Definition split_high (pos : nat) (s : split_state) : split_state :=
  let '(mk_split flag g p g2 p2 em a) := s in
  if negb (has_flag flag HIGHFIND) then
    mk_split (Z.lor (Z.land flag LOWFIND) HIGHFIND) g p em (data (a !!! pos)) pos a
  else
    let '(flag, a) :=
      if negb (has_flag flag HIGHUSED) then
        (Z.lor (Z.land flag LOWFIND) (Z.lor HIGHFIND HIGHUSED), <[g2 := mk_link (Some pos) p2]> a)
      else (flag, a) in
    mk_split flag g p pos (data (a !!! pos)) em a.

Definition split_turn (hash_nr : Z) (halfbuff pos : nat) (s : split_state) : split_state :=
  if negb (has_flag hash_nr (Z.of_nat halfbuff)) then split_low pos s else split_high pos s.

Fixpoint split_loop (fuel : nat) h (halfbuff first_index idx : nat) (s : split_state)
  : split_state :=
  match fuel with
  | O => s
  | S fuel =>
      let hash_nr := rec_hashnr h (data (sp_data s !!! idx)) in
      if (sp_flag s =? 0) &&
         negb (my_hash_mask hash_nr (blength h) (records h) =? first_index)%nat then s
      else
        let s := split_turn hash_nr halfbuff idx s in
        match next (sp_data s !!! idx) with
        | Some idx => split_loop fuel h halfbuff first_index idx s
        | None => s
        end
  end.

Definition split_end (s : split_state) : split_state :=
  let '(mk_split flag g p g2 p2 em a) := s in
  let a := if Z.land flag (Z.lor LOWFIND LOWUSED) =? LOWFIND
           then <[g := mk_link None p]> a else a in
  let a := if Z.land flag (Z.lor HIGHFIND HIGHUSED) =? HIGHFIND
           then <[g2 := mk_link None p2]> a else a in
  mk_split flag g p g2 p2 em a.

(** [a] has the new cell; the array and the index left empty. *)
Definition split_bucket h a : list (HASH_LINK rec) * nat :=
  let halfbuff := Nat.div2 (blength h) in
  let first_index := (records h - halfbuff)%nat in
  let s := mk_split 0 0 inhabitant 0 inhabitant (records h) a in
  if (first_index =? records h)%nat then (a, records h)
  else
    let s := split_end (split_loop (records h) h halfbuff first_index first_index s) in
    (sp_data s, empty s).

(** The record goes to its bucket, with the cell [empty] free. *)
Definition place_record h a (empty : nat) r : list (HASH_LINK rec) :=
  let n := S (records h) in
  let idx := my_hash_mask (rec_hashnr h r) (blength h) n in
  if (idx =? empty)%nat then <[idx := mk_link None r]> a
  else
    let a := <[empty := a !!! idx]> a in
    let g := my_hash_rec_mask h (a !!! idx) (blength h) n in
    if (idx =? g)%nat then <[idx := mk_link (Some empty) r]> a
    else movelink n (<[idx := mk_link None r]> a) (Some idx) g (Some empty).

(** True is the error return: a duplicate or no memory. *)
Definition my_hash_insert (mem : bool) h r : bool * HASH rec :=
  let key := key_memory h r in
  let idx := length (my_hash_key h r) in
  if has_flag (flags h) HASH_UNIQUE && bool_decide (is_Some (my_hash_search h key idx))
  then (true, h)
  else if negb mem then (true, h)
  else
    let '(a, empty) := split_bucket h (array h ++ [inhabitant]) in
    let a := place_record h a empty r in
    let n := S (records h) in
    let bl := if (n =? blength h)%nat then (blength h + blength h)%nat else blength h in
    (false, set_table h bl n a).

(** ** Deleting *)

(** The search for the record: its index and the one before it in the chain. *)
Fixpoint find_record (fuel : nat) a r (pos : nat) (gpos : option nat) : option (nat * option nat) :=
  match fuel with
  | O => None
  | S fuel =>
      if decide (data (a !!! pos) = r) then Some (pos, gpos)
      else match next (a !!! pos) with
           | None => None
           | Some p => find_record fuel a r p (Some pos)
           end
  end.

(** Takes the record at [pos] out of its chain; the array and the free index. *)
Definition unlink_record a (pos : nat) (gpos : option nat) : list (HASH_LINK rec) * nat :=
  match gpos, next (a !!! pos) with
  | Some g, n => (set_next a g n, pos)
  | None, Some e => (<[pos := a !!! e]> a, e)
  | None, None => (a, pos)
  end.

(** Moves the last cell, [n], to the free one; [bl0] and [bl] are the values of
    [blength] before and after. *)
Definition move_last h a (bl0 bl n empty : nat) : list (HASH_LINK rec) :=
  let lastpos := n in
  let lastpos_hashnr := rec_hashnr h (data (a !!! lastpos)) in
  let pos := my_hash_mask lastpos_hashnr bl n in
  if (pos =? empty)%nat then <[empty := a !!! lastpos]> a
  else
    let pos_hashnr := rec_hashnr h (data (a !!! pos)) in
    let pos3 := my_hash_mask pos_hashnr bl n in
    if negb (pos =? pos3)%nat then
      let a := <[empty := a !!! pos]> a in
      let a := <[pos := a !!! lastpos]> a in
      movelink (S n) a (Some pos) pos3 (Some empty)
    else
      let pos2 := my_hash_mask lastpos_hashnr bl0 (S n) in
      let merge idx :=
        let a := <[empty := a !!! lastpos]> a in
        let a := movelink (S n) a idx empty (next (a !!! pos)) in
        set_next a pos (Some empty) in
      if (pos2 =? my_hash_mask pos_hashnr bl0 (S n))%nat then
        if negb (pos2 =? n)%nat then
          movelink (S n) (<[empty := a !!! lastpos]> a) (Some lastpos) pos (Some empty)
        else merge (Some pos)
      else merge None.

(** True: the record was not found.  The list: the records given to [free]. *)
Definition my_hash_delete h r : bool * list rec * HASH rec :=
  if (records h =? 0)%nat then (true, [], h)
  else
    match find_record (records h) (array h) r
            (my_hash_mask (rec_hashnr h r) (blength h) (records h)) None with
    | None => (true, [], h)
    | Some (pos, gpos) =>
        let n := (records h - 1)%nat in
        let bl := if (n <? Nat.div2 (blength h))%nat then Nat.div2 (blength h) else blength h in
        let '(a, empty) := unlink_record (array h) pos gpos in
        let a := if (empty =? n)%nat then a else move_last h a (blength h) bl n empty in
        (false, if has_free h then [r] else [], set_table h bl n (take n a))
    end.

(** ** Changing the key of a record *)

(** The loop over the records with the new key: another one is there. *)
Fixpoint other_found (fuel : nat) h r (key : list Z) (length : nat) (found : option (rec * nat))
  : bool :=
  match fuel, found with
  | S fuel, Some (f, i) =>
      if decide (f = r) then other_found fuel h r key length (my_hash_next h key length (Some i))
      else true
  | _, _ => false
  end.

(** Puts the link of the record, now in no chain, into its new bucket. *)
Definition relink h a (org_link : HASH_LINK rec) (idx empty new_index : nat)
  : list (HASH_LINK rec) :=
  if (new_index =? empty)%nat then
    let a := if negb (empty =? idx)%nat then <[empty := org_link]> a else a in
    set_next a empty None
  else
    let new_pos_index := my_hash_rec_mask h (a !!! new_index) (blength h) (records h) in
    if negb (new_index =? new_pos_index)%nat then
      let a := <[empty := a !!! new_index]> a in
      let a := movelink (records h) a (Some new_index) new_pos_index (Some empty) in
      <[new_index := mk_link None (data org_link)]> a
    else
      let a := <[empty := mk_link (next (a !!! new_index)) (data org_link)]> a in
      set_next a new_index (Some empty).

(** [my_hash_key] gives the new key of the record.  True: a duplicate, or the
    record was not found. *)
Definition my_hash_update h r (old_key : list Z) (old_key_length : nat) : bool * HASH rec :=
  let new_key := key_memory h r in
  let new_length := length (my_hash_key h r) in
  if has_flag (flags h) HASH_UNIQUE &&
     other_found (S (records h)) h r new_key new_length (my_hash_first h new_key new_length)
  then (true, h)
  else
    let idx := my_hash_mask
      (hash_function (take (if (old_key_length =? 0)%nat then key_length h else old_key_length)
         old_key)) (blength h) (records h) in
    let new_index := my_hash_mask (rec_hashnr h r) (blength h) (records h) in
    if (idx =? new_index)%nat then (false, h)
    else match find_record (records h) (array h) r idx None with
         | None => (true, h)
         | Some (pos, previous) =>
             let org_link := array h !!! pos in
             let '(a, empty) := unlink_record (array h) pos previous in
             (false, set_table h (blength h) (records h) (relink h a org_link pos empty new_index))
         end.

Definition my_hash_replace h (current_record : option nat) (new_row : rec) : HASH rec :=
  match current_record with
  | Some i => set_table h (blength h) (records h)
                (<[i := mk_link (next (array h !!! i)) new_row]> (array h))
  | None => h
  end.

End Hash.
