(* ===== verification/HashChains.v ===== *)
(** * Hash tables: addresses, chains, and the splitting of a bucket

    The invariant of the tables of HashTable: the cells of the array are
    divided into chains, each of which starts at the bucket its records belong
    to.  This file relates the buckets before and after the table grows or
    shrinks, shows how updates of cells act on chains, and that the loop of
    [my_hash_insert] splits a chain in two. *)
From Stdlib Require Import ZArith Lia List Bool.
From stdpp Require Import base tactics list gmap.
From S2P Require Import Prelude HashTable.

Open Scope Z_scope.

(** ** Addresses *)

(** [Nat.div2 bl <= n < bl], and [bl] is a power of two. *)
Definition size_ok (bl n : nat) : Prop :=
  exists k, bl = (2 ^ k)%nat /\ (Nat.div2 bl <= n < bl)%nat.

Definition low_bits (hv : Z) (k : nat) : nat := Z.to_nat (hv mod 2 ^ Z.of_nat k).

Lemma pow2_nat k : Z.of_nat (2 ^ k) = 2 ^ Z.of_nat k.
Proof. by rewrite Nat2Z.inj_pow. Qed.

Lemma div2_pow2 k : Nat.div2 (2 ^ S k) = (2 ^ k)%nat.
Proof. rewrite Nat.pow_succ_r', Nat.div2_double. done. Qed.

Lemma mask_eq hv k n :
  my_hash_mask hv (2 ^ S k) n =
  if (low_bits hv (S k) <? n)%nat then low_bits hv (S k) else low_bits hv k.
Proof.
  unfold my_hash_mask, low_bits. rewrite pow2_nat.
  assert (Z.shiftr (2 ^ Z.of_nat (S k)) 1 = 2 ^ Z.of_nat k) as ->.
  { rewrite Z.shiftr_div_pow2 by lia. rewrite Nat2Z.inj_succ, Z.pow_succ_r by lia.
    rewrite Z.mul_comm. apply Z.div_mul. lia. }
  assert (forall j, 0 <= j -> 2 ^ j - 1 = Z.ones j) as Ho by (intros; rewrite Z.ones_equiv; lia).
  rewrite !Ho by lia.
  rewrite !Z.land_ones by lia. done.
Qed.

Lemma low_bits_bound hv k : (low_bits hv k < 2 ^ k)%nat.
Proof.
  unfold low_bits. pose proof (Z.mod_pos_bound hv (2 ^ Z.of_nat k) ltac:(lia)). 
  rewrite <-pow2_nat in *. lia.
Qed.

Lemma low_bits_succ hv k :
  0 <= hv ->
  low_bits hv (S k) = (low_bits hv k + if has_flag hv (Z.of_nat (2 ^ k)) then 2 ^ k else 0)%nat.
Proof.
  intros Hv. unfold low_bits, has_flag. rewrite pow2_nat.
  assert (Z.land hv (2 ^ Z.of_nat k) = if Z.testbit hv (Z.of_nat k) then 2 ^ Z.of_nat k else 0) as ->.
  { apply Z.bits_inj'. intros i Hi. rewrite Z.land_spec, Z.pow2_bits_eqb by lia.
    destruct (Z.eqb_spec (Z.of_nat k) i) as [<-|Hne].
    - rewrite andb_true_r. destruct (Z.testbit hv _); [by rewrite Z.pow2_bits_true by lia|by rewrite Z.bits_0].
    - rewrite andb_false_r. destruct (Z.testbit hv _); [|by rewrite Z.bits_0].
      rewrite Z.pow2_bits_false; [done|lia]. }
  pose proof (Z.pow_pos_nonneg 2 (Z.of_nat k) ltac:(lia) ltac:(lia)) as Hp.
  pose proof (Z.mod_pos_bound hv (2 ^ Z.of_nat k) Hp) as Hb.
  rewrite Nat2Z.inj_succ, Z.pow_succ_r, (Z.mul_comm 2) by lia.
  rewrite Z.rem_mul_r by lia. 
  rewrite <-Z.testbit_spec' by lia.
  destruct (Z.testbit hv (Z.of_nat k)); cbn [Z.b2z].
  - destruct (Z.eqb_spec (2 ^ Z.of_nat k) 0); [lia|]. cbn [negb]. rewrite <-pow2_nat in *. lia.
  - cbn. lia.
Qed.

(** Growing from [n] to [n + 1] splits bucket [n - bl / 2]. *)
Lemma mask_grow hv bl n :
  0 <= hv -> size_ok bl n -> (1 <= n)%nat ->
  my_hash_mask hv bl (S n) =
  if (my_hash_mask hv bl n =? n - Nat.div2 bl)%nat && has_flag hv (Z.of_nat (Nat.div2 bl))
  then n else my_hash_mask hv bl n.
Proof.
  intros Hv (k & -> & Hn) H1. destruct k as [|k]; [cbn in Hn; lia|].
  rewrite div2_pow2 in *. rewrite !mask_eq. rewrite (low_bits_succ hv k Hv).
  pose proof (low_bits_bound hv k). rewrite Nat.pow_succ_r' in Hn.
  destruct (has_flag _ _); rewrite ?andb_true_r, ?andb_false_r; ncases; lia.
Qed.

Lemma mask_bound hv bl n : size_ok bl n -> (1 <= n)%nat -> (my_hash_mask hv bl n < n)%nat.
Proof.
  intros (k & -> & Hn) H1. destruct k as [|k]; [cbn in Hn; lia|]. rewrite div2_pow2 in Hn.
  rewrite mask_eq. pose proof (low_bits_bound hv k). destruct (Nat.ltb_spec (low_bits hv (S k)) n); lia.
Qed.

(** When the table is full, doubling [bl] leaves all addresses as they are. *)
Lemma mask_double hv k :
  0 <= hv -> my_hash_mask hv (2 ^ S (S k)) (2 ^ S k) = my_hash_mask hv (2 ^ S k) (2 ^ S k).
Proof.
  intros Hv. rewrite !mask_eq. pose proof (low_bits_bound hv (S k)) as Hb.
  rewrite (low_bits_succ hv (S k) Hv). destruct (has_flag _ _); ncases; lia.
Qed.

Definition next_size (bl n : nat) : nat := if (S n =? bl)%nat then (bl + bl)%nat else bl.
Definition prev_size (bl n : nat) : nat := if (n <? Nat.div2 bl)%nat then Nat.div2 bl else bl.

Lemma size_ok_grow bl n : size_ok bl n -> size_ok (next_size bl n) (S n).
Proof.
  intros (k & -> & Hn). unfold next_size. destruct (Nat.eqb_spec (S n) (2 ^ k)) as [E|E].
  - replace (2 ^ k + 2 ^ k)%nat with (2 ^ S k)%nat by (cbn [Nat.pow]; lia).
    exists (S k). rewrite div2_pow2. cbn [Nat.pow] in *. lia.
  - exists k. lia.
Qed.

Lemma size_ok_shrink bl n : size_ok bl (S n) -> size_ok (prev_size bl n) n.
Proof.
  intros (k & -> & Hn). unfold prev_size. destruct (Nat.ltb_spec n (Nat.div2 (2 ^ k))) as [E|E].
  - destruct k as [|k]; [cbn in E; lia|]. rewrite div2_pow2 in *. exists k. split; [done|].
    destruct k as [|k]; [cbn in *; lia|]. rewrite div2_pow2. cbn [Nat.pow] in *. lia.
  - exists k. lia.
Qed.

Lemma mask_next hv bl n :
  0 <= hv -> size_ok bl n -> (1 <= n)%nat ->
  my_hash_mask hv (next_size bl n) (S n) = my_hash_mask hv bl (S n).
Proof.
  intros Hv (k & -> & Hn) H1. unfold next_size. destruct (Nat.eqb_spec (S n) (2 ^ k)) as [E|E]; [|done].
  destruct k as [|k]; [cbn in Hn; lia|]. rewrite E.
  replace (2 ^ S k + 2 ^ S k)%nat with (2 ^ S (S k))%nat by (cbn [Nat.pow]; lia). by apply mask_double.
Qed.

(** Shrinking merges bucket [n] into [n - bl / 2]. *)
Lemma mask_shrink hv bl n :
  0 <= hv -> size_ok bl (S n) -> (1 <= n)%nat ->
  my_hash_mask hv (prev_size bl n) n =
  if (my_hash_mask hv bl (S n) =? n)%nat then (n - Nat.div2 (prev_size bl n))%nat
  else my_hash_mask hv bl (S n).
Proof.
  intros Hv Hs H1. pose proof (size_ok_shrink _ _ Hs) as Hs'.
  assert (my_hash_mask hv bl (S n) = my_hash_mask hv (prev_size bl n) (S n)) as ->.
  { unfold prev_size. destruct Hs as (k & -> & Hn).
    destruct (Nat.ltb_spec n (Nat.div2 (2 ^ k))) as [E|E]; [|done].
    destruct k as [|[|k]]; [cbn in *; lia..|]. rewrite div2_pow2 in *.
    assert (S n = 2 ^ S k)%nat as -> by lia. by apply mask_double. }
  rewrite (mask_grow hv _ n) by done. pose proof (mask_bound hv _ n Hs' H1).
  destruct (_ && _) eqn:E.
  - apply andb_true_iff in E as [E%Nat.eqb_eq _]. by rewrite Nat.eqb_refl.
  - destruct (Nat.eqb_spec (my_hash_mask hv (prev_size bl n) n) n); lia.
Qed.

Lemma mask_bound_succ hv bl n : 0 <= hv -> size_ok bl n -> (my_hash_mask hv bl (S n) < S n)%nat.
Proof.
  intros Hv Hs. destruct n as [|n].
  - destruct Hs as (k & -> & Hn). destruct k as [|k].
    + unfold my_hash_mask. change (Z.of_nat (2 ^ 0) - 1) with 0. cbv zeta.
      rewrite Z.land_0_r. change (Z.to_nat 0 <? 1)%nat with true. cbv iota. change (Z.to_nat 0) with 0%nat. lia.
    + rewrite div2_pow2 in Hn. pose proof (Nat.pow_nonzero 2 k). lia.
  - pose proof (mask_bound hv bl (S n) Hs ltac:(lia)). rewrite (mask_grow hv bl (S n)) by (done || lia).
    destruct (_ && _); [apply Nat.lt_succ_diag_r|by apply Nat.lt_lt_succ_r].
Qed.

(** ** Chains *)

Section Chains.
Context {rec : Type} `{!EqDecision rec} `{!Inhabited rec} `{!HashKeys rec}.
Implicit Types (h : HASH rec) (a : list (HASH_LINK rec)) (r : rec) (l c G L H post : list (nat * rec))
  (B : list (list (nat * rec))) (home : rec -> nat) (s : split_state (rec := rec)).

(** The first index of a list of cells, or [e]. *)
Definition first_idx l (e : option nat) : option nat :=
  match l with [] => e | (i, _) :: _ => Some i end.

(** The cells of [l] hold its records and are linked in its order, the last to [e]. *)
Fixpoint linked a l (e : option nat) : Prop :=
  match l with
  | [] => True
  | (i, r) :: l => a !! i = Some (mk_link (first_idx l e) r) /\ linked a l e
  end.

(** A chain of the table: it starts at the bucket all its records belong to. *)
Definition bucket home a c : Prop :=
  c <> [] /\ linked a c None /\ Forall (fun p => first_idx c None = Some (home p.2)) c.

(** The cells with indices [I] are divided into the chains [B]. *)
Record chains home a (I : list nat) B : Prop := {
  ch_bucket : Forall (bucket home a) B;
  ch_idx : (concat B).*1 ≡ₚ I;
}.

Lemma first_idx_app l1 l2 e : first_idx (l1 ++ l2) e = first_idx l1 (first_idx l2 e).
Proof. by destruct l1 as [|[i r] l1]. Qed.

Lemma linked_app a l1 l2 e :
  linked a (l1 ++ l2) e <-> linked a l1 (first_idx l2 e) /\ linked a l2 e.
Proof.
  induction l1 as [|[i r] l1 IH]; cbn; [tauto|]. rewrite IH, first_idx_app. tauto.
Qed.

Lemma linked_frame a a' l e :
  (forall i, i ∈ l.*1 -> a' !! i = a !! i) -> linked a l e -> linked a' l e.
Proof.
  induction l as [|[i r] l IH]; intros Hf; cbn; [done|]. intros [H1 H2]. split.
  - rewrite Hf; [done|]. cbn. apply elem_of_cons. by left.
  - apply IH; [|done]. intros j Hj. apply Hf. cbn. apply elem_of_cons. by right.
Qed.

Lemma linked_insert a i x l e : i ∉ l.*1 -> linked a l e -> linked (<[i := x]> a) l e.
Proof.
  intros Hi. apply linked_frame. intros j Hj. apply list_lookup_insert_ne. by intros ->.
Qed.

Lemma linked_elem a l e i r : linked a l e -> (i, r) ∈ l -> exists n, a !! i = Some (mk_link n r).
Proof.
  induction l as [|[j s] l IH]; cbn; [by intros _ ?%elem_of_nil|].
  intros [H1 H2] [[= -> ->]|Hin]%elem_of_cons; [eauto|by apply IH].
Qed.

Lemma linked_range a l e i : linked a l e -> i ∈ l.*1 -> (i < length a)%nat.
Proof.
  intros Hl ([j r] & -> & Hin)%list_elem_of_fmap. destruct (linked_elem _ _ _ _ _ Hl Hin) as [n Hn].
  by apply lookup_lt_Some in Hn.
Qed.

(** ** [movelink] *)

Lemma movelink_frame fuel : forall a find (s : nat) new l,
  linked a l find -> first_idx l None = Some s -> (forall i, i ∈ l.*1 -> find <> Some i) ->
  NoDup (l.*1) -> (length l <= fuel)%nat ->
  linked (movelink fuel a find s new) l new /\
  length (movelink fuel a find s new) = length a /\
  forall i, i ∉ l.*1 -> movelink fuel a find s new !! i = a !! i.
Proof.
  induction fuel as [|fuel IH]; intros a find s new l Hl Hs Hfind Hnd Hf.
  { destruct l as [|]; [done|cbn in Hf; lia]. }
  destruct l as [|[i r] l]; [done|]. cbn in Hs. injection Hs as ->.
  cbn in Hl, Hnd, Hf. destruct Hl as [Hi Hl]. apply NoDup_cons in Hnd as [Hni Hnd].
  cbn [movelink]. rewrite (list_lookup_total_correct _ _ _ Hi). cbn [next data].
  destruct l as [|[j q] l].
  - cbn [first_idx] in *. rewrite decide_True by done. split_and!.
    + cbn. split; [|done]. apply list_lookup_insert_eq. by apply lookup_lt_Some in Hi.
    + apply length_insert.
    + intros k Hk. apply list_lookup_insert_ne. intros ->. apply Hk. cbn. apply elem_of_cons. by left.
  - cbn [first_idx]. rewrite decide_False.
    2:{ intros E. apply (Hfind j); [|done]. cbn. apply elem_of_cons. right. apply elem_of_cons. by left. }
    destruct (IH a find j new ((j, q) :: l)) as (H1 & H2 & H3); [done|done| |done|cbn in *; lia|].
    { intros k Hk. apply Hfind. cbn. apply elem_of_cons. by right. }
    split_and!; [|done|].
    + cbn. split; [|done]. rewrite H3; [done|]. done.
    + intros k Hk. apply H3. intros Hk'. apply Hk. cbn. apply elem_of_cons. by right.
Qed.

(** ** The chains of a table *)

Lemma bucket_intro home a b r t :
  linked a ((b, r) :: t) None -> home r = b -> (forall p, p ∈ t -> home p.2 = b) ->
  bucket home a ((b, r) :: t).
Proof.
  intros Hl Hr Ht. split; [done|]. split; [done|]. constructor; [by cbn; f_equal|].
  apply Forall_forall. intros p Hp. cbn. f_equal. symmetry. by apply Ht.
Qed.

Lemma bucket_inv home a c :
  bucket home a c ->
  exists b r t, c = (b, r) :: t /\ linked a ((b, r) :: t) None /\ home r = b /\
    (forall p, p ∈ t -> home p.2 = b).
Proof.
  intros (Hne & Hl & Hh). destruct c as [|[b r] t]; [done|]. exists b, r, t.
  apply Forall_cons in Hh as [H1 H2]. cbn in H1. split_and!; [done|done|congruence|].
  intros p Hp. rewrite Forall_forall in H2. specialize (H2 p Hp). cbn in H2. congruence.
Qed.

Lemma bucket_frame home home' a a' c :
  bucket home a c -> (forall i, i ∈ c.*1 -> a' !! i = a !! i) ->
  (forall i r, (i, r) ∈ c -> home' r = home r) -> bucket home' a' c.
Proof.
  intros (E & Hl & Hh) Hf Hhome. split; [done|]. split; [by eapply linked_frame|].
  rewrite Forall_forall in Hh |- *. intros [i r] Hin. rewrite (Hh _ Hin). cbn.
  by rewrite (Hhome i r).
Qed.

Lemma concat_perm B B' : B ≡ₚ B' -> concat B ≡ₚ concat B'.
Proof.
  induction 1 as [|c B B' _ IH|c d B|B1 B2 B3 _ IH1 _ IH2]; cbn; [done|by rewrite IH| |by rewrite IH1].
  rewrite !app_assoc. f_equiv. apply Permutation_app_comm.
Qed.

Lemma chains_perm home a I I' B B' :
  chains home a I B -> B ≡ₚ B' -> I ≡ₚ I' -> chains home a I' B'.
Proof.
  intros [H1 H2] HB HI. split; [by rewrite <-HB|]. by rewrite <-(concat_perm _ _ HB), H2, HI.
Qed.

#[export] Instance chains_proper home a : Proper ((≡ₚ) ==> (≡ₚ) ==> iff) (chains home a).
Proof.
  intros I I' HI B B' HB. split; intros Hc; by eapply chains_perm.
Qed.

(** The chain a cell is in, and what is left of the table. *)
Lemma chains_pick home a I B i :
  chains home a I B -> i ∈ I ->
  exists c r B', B ≡ₚ c :: B' /\ chains home a I (c :: B') /\ bucket home a c /\ (i, r) ∈ c /\
    (exists n, a !! i = Some (mk_link n r)).
Proof.
  intros Hc Hi. rewrite <-(ch_idx _ _ _ _ Hc) in Hi. apply list_elem_of_fmap in Hi as ([j r] & -> & Hin).
  apply list_elem_of_In, in_concat in Hin as (c & HcB & Hin). apply list_elem_of_In in HcB, Hin.
  apply elem_of_Permutation in HcB as [B' HB]. pose proof (chains_perm _ _ _ _ _ _ Hc HB (Permutation_refl I)) as Hc'.
  pose proof (ch_bucket _ _ _ _ Hc') as Hb. apply Forall_cons in Hb as [Hb _].
  exists c, r, B'. split_and!; try done. destruct Hb as (_ & Hl & _). by eapply linked_elem.
Qed.

(** Replacing some chains: the others do not touch the changed cells and
    keep their buckets. *)
Lemma chains_replace home home' a a' I I' cs cs' B :
  chains home a I (cs ++ B) -> NoDup I -> Forall (bucket home' a') cs' ->
  (forall i, i ∉ (concat cs).*1 -> i ∈ I -> a' !! i = a !! i) ->
  (forall i r, (i, r) ∈ concat B -> home' r = home r) ->
  (forall J, (concat cs).*1 ++ J ≡ₚ I -> (concat cs').*1 ++ J ≡ₚ I') ->
  chains home' a' I' (cs' ++ B).
Proof.
  intros [Hb Hi] Hnd Hcs Hf Hh HI. apply Forall_app in Hb as [_ Hb].
  assert (Hi' := Hi). rewrite concat_app, fmap_app in Hi'. split.
  - apply Forall_app. split; [done|]. rewrite Forall_forall in Hb |- *. intros c Hc.
    eapply bucket_frame; [by apply Hb| |].
    + intros i Hin. assert (i ∈ (concat B).*1) as HiB.
      { apply list_elem_of_fmap in Hin as (p & -> & Hp). apply list_elem_of_fmap. exists p. split; [done|].
        apply list_elem_of_In, in_concat. exists c. by rewrite <-!list_elem_of_In. }
      apply Hf.
      * intros Hin'. rewrite <-Hi' in Hnd. apply list.NoDup_app in Hnd as (_ & Hd & _). by apply (Hd i).
      * rewrite <-Hi', elem_of_app. by right.
    + intros i r Hin. apply (Hh i). apply list_elem_of_In, in_concat. exists c. by rewrite <-!list_elem_of_In.
  - rewrite concat_app, fmap_app. by apply HI.
Qed.

(** ** Splitting a bucket

    Of the records of the bucket met so far, those that stay and those that
    move are in the cells [L] and [H].  The last cell of either is still to be
    written, unless it is [used]: then it is the last cell met, as it was. *)

Definition group a G (g : nat) (p : rec) (used : bool) (nxt : option nat) : Prop :=
  exists G0, G = G0 ++ [(g, p)] /\ linked a G0 (Some g) /\
    (used = true -> a !! g = Some (mk_link nxt p)).

Definition state_of {A X : Type} (xs : list A) (x y : X) : X := match xs with [] => x | _ => y end.

Record split_inv (bit : rec -> bool) (fi n : nat) (a0 : list (HASH_LINK rec)) (I0 : list nat)
    (R0 : list rec) s L H post (lu hu : bool) : Prop := {
  si_flag : sp_flag s = state_of L 0 LOWFIND + (if lu then LOWUSED else 0) +
                        state_of H 0 HIGHFIND + (if hu then HIGHUSED else 0);
  si_used : lu && hu = false;
  si_low : state_of L (lu = false) (group (sp_data s) L (gpos s) (ptr_to_rec s) lu (first_idx post None));
  si_high : state_of H (hu = false)
              (group (sp_data s) H (gpos2 s) (ptr_to_rec2 s) hu (first_idx post None));
  si_post : linked (sp_data s) post None;
  si_lhead : L <> [] -> first_idx L None = Some fi;
  si_hhead : H <> [] -> first_idx H None = Some n;
  si_empty : empty s = state_of H n (state_of L fi (empty s));
  si_start : L = [] -> H = [] -> first_idx post (Some fi) = Some fi;
  si_idx : empty s :: (L ++ H ++ post).*1 ≡ₚ I0;
  si_recs : (L ++ H ++ post).*2 ≡ₚ R0;
  si_bits : Forall (fun p => bit p.2 = false) L /\ Forall (fun p => bit p.2 = true) H;
  si_frame : length (sp_data s) = length a0 /\ forall i, i ∉ I0 -> sp_data s !! i = a0 !! i
}.

Lemma group_used a G g p pos : group a G g p true (Some pos) -> linked a G (Some pos).
Proof.
  intros (G0 & -> & Hl & Hu). apply linked_app. cbn. split; [done|]. split; [by apply Hu|done].
Qed.

Lemma group_write a G g p u nxt e :
  group a G g p u nxt -> NoDup (G.*1) -> (g < length a)%nat ->
  linked (<[g := mk_link e p]> a) G e.
Proof.
  intros (G0 & -> & Hl & _) Hnd Hg. rewrite fmap_app in Hnd. apply list.NoDup_app in Hnd as (_ & Hd & _).
  apply linked_app. split.
  - apply linked_insert; [|done]. intros Hin. apply (Hd g Hin). cbn. apply elem_of_cons. by left.
  - cbn. split; [|done]. by apply list_lookup_insert_eq.
Qed.

Lemma group_frame a G g p u nxt i x :
  group a G g p u nxt -> i ∉ G.*1 -> group (<[i := x]> a) G g p false nxt.
Proof.
  intros (G0 & -> & Hl & Hu) Hi. exists G0. split; [done|]. split; [|done].
  apply linked_insert; [|done]. intros Hin. apply Hi. rewrite fmap_app, elem_of_app. by left.
Qed.

Lemma group_weaken a G g p u nxt nxt' : group a G g p u nxt -> group a G g p false nxt'.
Proof. intros (G0 & -> & Hl & _). by exists G0. Qed.

Lemma group_snoc a G pos r nxt :
  linked a G (Some pos) -> a !! pos = Some (mk_link nxt r) ->
  group a (G ++ [(pos, r)]) pos r true nxt.
Proof. intros Hl Hp. by exists G. Qed.

Lemma group_elem a G g p u nxt : group a G g p u nxt -> g ∈ G.*1.
Proof.
  intros (G0 & -> & _). rewrite fmap_app, elem_of_app. right. cbn. apply elem_of_cons. by left.
Qed.

(** What a turn leaves behind: a cell not yet written at [e] for the record. *)
Lemma group_new a e r nxt : group a [(e, r)] e r false nxt.
Proof. by exists []. Qed.

Lemma group_agree a a' G g p u nxt :
  group a G g p u nxt -> (forall i, i ∈ G.*1 -> a' !! i = a !! i) -> group a' G g p u nxt.
Proof.
  intros (G0 & -> & Hl & Hu) Hf. rewrite fmap_app in Hf. exists G0. split_and!; [done| |].
  - eapply linked_frame; [|exact Hl]. intros i Hi. apply Hf. rewrite elem_of_app. by left.
  - intros E. rewrite Hf; [by apply Hu|]. rewrite elem_of_app. right. cbn. apply elem_of_cons. by left.
Qed.

(** The last cell is written. *)
Lemma group_close a a' G g p u :
  state_of G (u = false) (group a G g p u None) -> NoDup (G.*1) ->
  (forall i, i ∈ G.*1 -> (i < length a)%nat) ->
  a' = (if state_of G false (negb u) then <[g := mk_link None p]> a else a) ->
  linked a' G None /\ length a' = length a /\ forall i, i ∉ G.*1 -> a' !! i = a !! i.
Proof.
  intros HG Hnd Hr ->. destruct G as [|x G]; cbn [state_of] in *; [done|].
  pose proof (group_elem _ _ _ _ _ _ HG) as Hg. destruct u; cbn [negb].
  - split_and!; [|done..]. destruct HG as (G0 & -> & HG & Hg'). apply linked_app. cbn. split; [done|].
    split; [by apply Hg'|done].
  - split_and!; [|by rewrite length_insert|].
    + eapply group_write; [exact HG|done|]. by apply Hr.
    + intros i Hni. apply list_lookup_insert_ne. by intros ->.
Qed.

Section Turn.
Context (bit : rec -> bool) (fi n : nat) (a0 : list (HASH_LINK rec)) (I0 : list nat) (R0 : list rec).
Context (Hnd : NoDup I0) (Hrange : forall i, i ∈ I0 -> (i < length a0)%nat).
Notation inv := (split_inv bit fi n a0 I0 R0).

Ltac perm_solve :=
  match goal with Hi : _ ≡ₚ ?X |- _ ≡ₚ ?X =>
    rewrite <-Hi; repeat (rewrite ?fmap_app, ?fmap_cons; cbn [app fmap list_fmap fst snd]);
    solve_Permutation end.

Lemma split_disjoint s L H post lu hu i :
  inv s L H post lu hu -> i ∈ L.*1 -> i ∉ H.*1 /\ i ∉ post.*1 /\ NoDup (L.*1).
Proof.
  intros Hinv Hin. pose proof (si_idx _ _ _ _ _ _ _ _ _ _ _ _ Hinv) as Hi. rewrite <-Hi in Hnd.
  apply NoDup_cons in Hnd as [_ Hn]. rewrite !fmap_app in Hn.
  apply list.NoDup_app in Hn as (H1 & H2 & _). specialize (H2 i Hin). rewrite elem_of_app in H2. tauto.
Qed.

Lemma split_disjoint_high s L H post lu hu i :
  inv s L H post lu hu -> i ∈ H.*1 -> i ∉ L.*1 /\ i ∉ post.*1 /\ NoDup (H.*1).
Proof.
  intros Hinv Hin. pose proof (si_idx _ _ _ _ _ _ _ _ _ _ _ _ Hinv) as Hi. rewrite <-Hi in Hnd.
  apply NoDup_cons in Hnd as [_ Hn]. rewrite !fmap_app in Hn.
  apply list.NoDup_app in Hn as (_ & H1 & Hn). apply list.NoDup_app in Hn as (H2 & H3 & _).
  split_and!; [|by apply H3|done]. intros HL. apply (H1 i HL). rewrite elem_of_app. by left.
Qed.

Lemma split_in_range s L H post lu hu i :
  inv s L H post lu hu -> i ∈ L.*1 ++ H.*1 ++ post.*1 -> (i < length (sp_data s))%nat.
Proof.
  intros Hinv Hin. destruct (si_frame _ _ _ _ _ _ _ _ _ _ _ _ Hinv) as [-> _]. apply Hrange.
  rewrite <-(si_idx _ _ _ _ _ _ _ _ _ _ _ _ Hinv), !fmap_app. apply elem_of_cons. by right.
Qed.

Lemma flag_bits {A : Type} (L H : list A) (lu hu : bool) flag :
  flag = state_of L 0 LOWFIND + (if lu then LOWUSED else 0) +
         state_of H 0 HIGHFIND + (if hu then HIGHUSED else 0) ->
  has_flag flag LOWFIND = state_of L false true /\ has_flag flag LOWUSED = lu /\
  has_flag flag HIGHFIND = state_of H false true /\ has_flag flag HIGHUSED = hu /\
  Z.land flag LOWFIND = state_of L 0 LOWFIND /\ Z.land flag HIGHFIND = state_of H 0 HIGHFIND.
Proof. intros ->. by destruct L, H, lu, hu. Qed.

(** What a turn of the loop does: a record joins one of the two groups. *)
Ltac open_split Hinv :=
  destruct Hinv as [Hf Hu Hl Hh [Hpos Hpost] Hlh Hhh He Hst Hi HR [Hb1 Hb2] [Hlen Hfr]];
  match goal with s : split_state |- _ => destruct s as [flag g p g2 p2 em a] end;
  cbn [sp_flag gpos ptr_to_rec gpos2 ptr_to_rec2 empty sp_data] in *;
  destruct (flag_bits _ _ _ _ _ Hf) as (F1 & F2 & F3 & F4 & F5 & F6);
  assert (Hdat := list_lookup_total_correct _ _ _ Hpos).

Ltac split_fields :=
  split; cbn [sp_flag gpos ptr_to_rec gpos2 ptr_to_rec2 empty sp_data state_of]; try done; try perm_solve.

Lemma split_low_first s H pos r post lu hu :
  inv s [] H ((pos, r) :: post) lu hu -> bit r = false ->
  exists L' lu', inv (split_low pos s) L' H post lu' false /\
    sp_data (split_low pos s) !! pos = Some (mk_link (first_idx post None) r).
Proof.
  intros Hinv Hbit. open_split Hinv. unfold split_low. rewrite F1, F3, Hdat. cbn [data state_of negb] in *.
  destruct H as [|y H]; cbn [state_of] in *.
  - subst em lu hu. pose proof (Hst eq_refl eq_refl) as [= ->]. exists [(fi, r)], true. split; [|done].
    split_fields; [by apply (group_snoc a [])|split; [by repeat constructor|done]].
  - exists [(em, r)], false. split; [|done].
    split_fields; [apply group_new|by eapply group_weaken|intros _; by rewrite He|].
    split; [by repeat constructor|done].
Qed.

(** The last cell of a group, and the group with the record added. *)
Lemma group_bits (b : bool) G pos r :
  Forall (fun p => bit p.2 = b) G -> bit r = b -> Forall (fun p => bit p.2 = b) (G ++ [(pos, r)]).
Proof. intros HG Hr. apply Forall_app. split; [done|]. by repeat constructor. Qed.

Lemma group_in s L H pos r post lu hu i :
  inv s L H ((pos, r) :: post) lu hu -> i ∈ L.*1 ++ H.*1 ->
  (i < length (sp_data s))%nat /\ i ∈ I0 /\ i <> pos /\ i ∉ post.*1.
Proof.
  intros Hinv Hin. split; [eapply split_in_range; [done|]; rewrite app_assoc, elem_of_app; by left|].
  pose proof (si_idx _ _ _ _ _ _ _ _ _ _ _ _ Hinv) as Hi. rewrite !fmap_app, app_assoc in Hi. split.
  - rewrite <-Hi, elem_of_cons, elem_of_app. tauto.
  - rewrite <-Hi in Hnd. apply NoDup_cons in Hnd as [_ Hn]. apply list.NoDup_app in Hn as (_ & Hd & _).
    specialize (Hd i Hin). cbn in Hd. by rewrite not_elem_of_cons in Hd.
Qed.

Lemma split_low_more s x L H pos r post lu hu :
  inv s (x :: L) H ((pos, r) :: post) lu hu -> bit r = false ->
  exists L' lu', inv (split_low pos s) L' H post lu' false /\
    sp_data (split_low pos s) !! pos = Some (mk_link (first_idx post None) r).
Proof.
  intros Hinv Hbit. exists ((x :: L) ++ [(pos, r)]), true.
  pose proof (split_disjoint _ _ _ _ _ _ (gpos s) Hinv) as Hdis.
  pose proof (group_in _ _ _ _ _ _ _ _ (gpos s) Hinv) as Hgin. open_split Hinv.
  cbn [state_of] in *. pose proof (group_elem _ _ _ _ _ _ Hl) as Hg.
  destruct (Hdis Hg) as (HgH & _ & HgL). destruct (Hgin ltac:(rewrite elem_of_app; by left)) as (Hga & HgI & Hgp & Hgpost).
  pose proof (group_bits false _ pos r Hb1 Hbit) as Hbits. unfold split_low. rewrite F1, F2, F6. cbn [negb].
  destruct lu; cbn [negb].
  - destruct hu; [done|]. rewrite Hdat. cbn [data]. split; [|done]. split_fields.
    + apply group_snoc; [|done]. by eapply group_used.
    + destruct H; [done|]. by eapply group_weaken.
    + intros _. rewrite first_idx_app, <-Hlh by done. by destruct x.
  - rewrite list_lookup_total_insert_ne, Hdat by done. cbn [data].
    assert (Hpos' : <[g:=mk_link (Some pos) p]> a !! pos = Some (mk_link (first_idx post None) r))
      by (by rewrite list_lookup_insert_ne).
    split; [|done]. split_fields.
    + destruct H; done.
    + apply group_snoc; [|done]. by eapply group_write.
    + destruct H; [done|]. eapply group_weaken, group_frame; [exact Hh|done].
    + by apply linked_insert.
    + intros _. rewrite first_idx_app, <-Hlh by done. by destruct x.
    + rewrite length_insert. split; [done|]. intros i Hii. rewrite list_lookup_insert_ne; [by apply Hfr|].
      by intros ->.
Qed.

Lemma split_high_first s L pos r post lu hu :
  inv s L [] ((pos, r) :: post) lu hu -> bit r = true ->
  exists H' hu', inv (split_high pos s) L H' post false hu' /\
    sp_data (split_high pos s) !! pos = Some (mk_link (first_idx post None) r).
Proof.
  intros Hinv Hbit. open_split Hinv. unfold split_high. rewrite F3, F5, Hdat. cbn [data state_of negb] in *.
  exists [(em, r)], false. split; [|done]. split_fields.
  - by destruct L.
  - destruct L; [done|]. by eapply group_weaken.
  - apply group_new.
  - intros _. by rewrite He.
  - destruct L; [|done]. pose proof (Hst eq_refl eq_refl) as E. by injection E as ->.
  - split; [done|]. by repeat constructor.
Qed.

Lemma split_high_more s L y H pos r post lu hu :
  inv s L (y :: H) ((pos, r) :: post) lu hu -> bit r = true ->
  exists H' hu', inv (split_high pos s) L H' post false hu' /\
    sp_data (split_high pos s) !! pos = Some (mk_link (first_idx post None) r).
Proof.
  intros Hinv Hbit. exists ((y :: H) ++ [(pos, r)]), true.
  pose proof (split_disjoint_high _ _ _ _ _ _ (gpos2 s) Hinv) as Hdis.
  pose proof (group_in _ _ _ _ _ _ _ _ (gpos2 s) Hinv) as Hgin. open_split Hinv.
  cbn [state_of] in *. pose proof (group_elem _ _ _ _ _ _ Hh) as Hg.
  destruct (Hdis Hg) as (HgL & _ & HgH). destruct (Hgin ltac:(rewrite elem_of_app; by right)) as (Hga & HgI & Hgp & Hgpost).
  pose proof (group_bits true _ pos r Hb2 Hbit) as Hbits. unfold split_high. rewrite F3, F4, F5. cbn [negb].
  destruct hu; cbn [negb].
  - destruct lu; [done|]. rewrite Hdat. cbn [data]. split; [|done]. split_fields.
    + destruct L; [done|]. by eapply group_weaken.
    + apply group_snoc; [|done]. by eapply group_used.
    + intros _. rewrite first_idx_app, <-Hhh by done. by destruct y.
  - rewrite list_lookup_total_insert_ne, Hdat by done. cbn [data].
    assert (Hpos' : <[g2:=mk_link (Some pos) p2]> a !! pos = Some (mk_link (first_idx post None) r))
      by (by rewrite list_lookup_insert_ne).
    split; [|done]. split_fields.
    + destruct L; done.
    + destruct L; [done|]. eapply group_weaken, group_frame; [exact Hl|done].
    + apply group_snoc; [|done]. by eapply group_write.
    + by apply linked_insert.
    + intros _. rewrite first_idx_app, <-Hhh by done. by destruct y.
    + rewrite length_insert. split; [done|]. intros i Hii. rewrite list_lookup_insert_ne; [by apply Hfr|].
      by intros ->.
Qed.

Lemma split_end_inv s L H lu hu :
  inv s L H [] lu hu ->
  linked (sp_data (split_end s)) L None /\ linked (sp_data (split_end s)) H None /\
  empty (split_end s) = empty s /\ length (sp_data (split_end s)) = length a0 /\
  forall i, i ∉ I0 -> sp_data (split_end s) !! i = a0 !! i.
Proof.
  intros Hinv. pose proof (fun i => split_in_range _ _ _ _ _ _ i Hinv) as Hrg.
  destruct Hinv as [Hf Hu Hl Hh _ _ _ _ _ Hi _ _ [Hlen Hfr]].
  destruct s as [flag g p g2 p2 em a]; cbn [sp_flag gpos ptr_to_rec gpos2 ptr_to_rec2 empty sp_data] in *.
  unfold split_end. cbn [empty sp_data].
  assert ((Z.land flag (Z.lor LOWFIND LOWUSED) =? LOWFIND) = state_of L false (negb lu)) as ->
    by (rewrite Hf; destruct L, H, lu, hu; try done).
  assert ((Z.land flag (Z.lor HIGHFIND HIGHUSED) =? HIGHFIND) = state_of H false (negb hu)) as ->
    by (rewrite Hf; destruct L, H, lu, hu; try done).
  assert (Hd : NoDup (L.*1) /\ NoDup (H.*1) /\ forall i, i ∈ L.*1 -> i ∉ H.*1).
  { rewrite <-Hi, app_nil_r, fmap_app in Hnd. apply NoDup_cons in Hnd as [_ Hn].
    apply list.NoDup_app in Hn as (? & ? & ?). done. }
  destruct Hd as (D1 & D2 & D3). set (a1 := if state_of L false (negb lu) then _ else _).
  destruct (group_close a a1 L g p lu) as (A1 & A2 & A3); [done|done| |done|].
  { intros i HiL. apply Hrg. rewrite elem_of_app. by left. }
  destruct (group_close a1 (if state_of H false (negb hu) then <[g2:=mk_link None p2]> a1 else a1) H g2 p2 hu)
    as (B1 & B2 & B3); [|done| |done|].
  { destruct H; cbn [state_of] in *; [done|]. eapply group_agree; [exact Hh|]. intros i HiH. apply A3.
    intros HiL. by apply (D3 i). }
  { intros i HiH. rewrite A2. apply Hrg. rewrite !elem_of_app. tauto. }
  assert (HinI : forall i, i ∉ I0 -> i ∉ L.*1 /\ i ∉ H.*1).
  { intros i Hii. rewrite <-Hi, app_nil_r, fmap_app in Hii. apply not_elem_of_cons in Hii as [_ Hii].
    by apply not_elem_of_app in Hii. }
  split_and!; [|done|done|by rewrite B2, A2|].
  - eapply linked_frame; [|exact A1]. intros i HiL. apply B3. by apply D3.
  - intros i Hii. destruct (HinI i Hii) as [? ?]. rewrite B3, A3 by done. by apply Hfr.
Qed.

End Turn.

Section Loop.
Context (h : HASH rec) (halfbuff fi : nat) (a0 : list (HASH_LINK rec)) (I0 : list nat) (R0 : list rec).
Context (Hnd : NoDup I0) (Hrange : forall i, i ∈ I0 -> (i < length a0)%nat).
Notation bit := (fun r => has_flag (rec_hashnr h r) (Z.of_nat halfbuff)).
Notation inv := (split_inv bit fi (records h) a0 I0 R0).

Lemma split_loop_inv fuel : forall s L H idx r post lu hu,
  inv s L H ((idx, r) :: post) lu hu -> (length post < fuel)%nat ->
  (forall p, p ∈ (idx, r) :: post -> my_hash_mask (rec_hashnr h p.2) (blength h) (records h) = fi) ->
  exists L' H' lu' hu', inv (split_loop fuel h halfbuff fi idx s) L' H' [] lu' hu'.
Proof.
  induction fuel as [|fuel IH]; intros s L H idx r post lu hu Hinv Hf Hhome; [lia|].
  cbn [split_loop]. pose proof (si_post _ _ _ _ _ _ _ _ _ _ _ _ Hinv) as [Hpos _].
  rewrite (list_lookup_total_correct _ _ _ Hpos). cbn [data].
  assert (Hm := Hhome (idx, r)). cbn [snd] in Hm. rewrite Hm by (apply elem_of_cons; by left).
  rewrite Nat.eqb_refl, andb_false_r.
  assert (exists L' H' lu' hu', inv (split_turn (rec_hashnr h r) halfbuff idx s) L' H' post lu' hu' /\
    sp_data (split_turn (rec_hashnr h r) halfbuff idx s) !! idx = Some (mk_link (first_idx post None) r))
    as (L' & H' & lu' & hu' & Hinv' & Hpos').
  { unfold split_turn. destruct (has_flag (rec_hashnr h r) (Z.of_nat halfbuff)) eqn:Eb; cbn [negb].
    - assert (exists H' hu', inv (split_high idx s) L H' post false hu' /\
        sp_data (split_high idx s) !! idx = Some (mk_link (first_idx post None) r)) as (H' & hu' & ? & ?); [|eauto 10].
      destruct H; [by eapply split_high_first|by eapply split_high_more].
    - assert (exists L' lu', inv (split_low idx s) L' H post lu' false /\
        sp_data (split_low idx s) !! idx = Some (mk_link (first_idx post None) r)) as (L' & lu' & ? & ?); [|eauto 10].
      destruct L; [by eapply split_low_first|by eapply split_low_more]. }
  rewrite (list_lookup_total_correct _ _ _ Hpos'). cbn [next].
  destruct post as [|[j q] post]; cbn [first_idx]; [eauto|].
  eapply IH; [exact Hinv'|cbn in Hf; lia|]. intros p Hp. apply Hhome. apply elem_of_cons. by right.
Qed.

End Loop.

End Chains.
