(* ===== verification/HashOps.v ===== *)
(** * Hash tables: the operations

    What the operations of HashTable do to a well-formed table ([wf_hash]):
    its records, as a multiset, change as they should, and the table stays
    well formed.  For tables with unique keys under the binary character set
    the operations are those of a finite map. *)
From Stdlib Require Import ZArith Lia List Bool.
From stdpp Require Import base tactics list gmap.
From S2P Require Import Prelude HashTable HashChains.

Open Scope Z_scope.

Section Ops.
Context {rec : Type} `{!EqDecision rec} `{!Inhabited rec} `{!HashKeys rec}.
Implicit Types (h : HASH rec) (a : list (HASH_LINK rec)) (r : rec)
  (l c d t L H post : list (nat * rec)) (B : list (list (nat * rec))) (home : rec -> nat).

(** ** Tables *)

(** The bucket of a record. *)
Definition home_of h (bl n : nat) r : nat := my_hash_mask (rec_hashnr h r) bl n.

(** A table, with its chains. *)
Record table h B : Prop := {
  tb_size : size_ok (blength h) (records h);
  tb_len : length (array h) = records h;
  tb_chains : chains (home_of h (blength h) (records h)) (array h) (seq 0 (records h)) B
}.

Lemma rec_hashnr_pos h r : 0 <= rec_hashnr h r.
Proof. apply hash_function_u32. Qed.

Lemma elem_of_concat B (p : nat * rec) : p ∈ concat B <-> exists c, c ∈ B /\ p ∈ c.
Proof.
  rewrite list_elem_of_In, in_concat. split; intros (c & ? & ?); exists c; by rewrite ?list_elem_of_In in *.
Qed.

Lemma chains_member home a I B i r :
  chains home a I B -> (i, r) ∈ concat B -> i ∈ I /\ exists n, a !! i = Some (mk_link n r).
Proof.
  intros Hc Hin. split.
  - rewrite <-(ch_idx _ _ _ _ Hc). apply list_elem_of_fmap. by exists (i, r).
  - apply elem_of_concat in Hin as (c & HcB & Hin). pose proof (ch_bucket _ _ _ _ Hc) as Hb.
    rewrite Forall_forall in Hb. destruct (Hb c HcB) as (_ & Hl & _). by eapply linked_elem.
Qed.

(** The first cell of a chain is at the bucket of its records. *)
Lemma chain_head home a I B i r :
  chains home a I B -> (i, r) ∈ concat B ->
  exists r0, (home r, r0) ∈ concat B /\ home r0 = home r.
Proof.
  intros Hc Hin. apply elem_of_concat in Hin as (c & HcB & Hin).
  pose proof (ch_bucket _ _ _ _ Hc) as Hb. rewrite Forall_forall in Hb.
  destruct (bucket_inv _ _ _ (Hb c HcB)) as (b & r0 & t & -> & Hl & Hr0 & Ht).
  assert (home r = b) as ->.
  { apply elem_of_cons in Hin as [[= -> ->]|Hin]; [done|]. by apply (Ht (i, r)). }
  exists r0. split; [|done]. apply elem_of_concat. eexists. split; [exact HcB|]. apply elem_of_cons. by left.
Qed.

(** A record's bucket is not at a cell that is free or holds another bucket's record. *)
Lemma not_home home a I B b :
  chains home a I B -> (forall r n, b ∈ I -> a !! b = Some (mk_link n r) -> home r <> b) ->
  forall i r, (i, r) ∈ concat B -> home r <> b.
Proof.
  intros Hc Hb i r Hin E. destruct (chain_head _ _ _ _ _ _ Hc Hin) as (r0 & Hin0 & E0).
  destruct (chains_member _ _ _ _ _ _ Hc Hin0) as (HI & n & Hn). rewrite E in *. by eapply Hb.
Qed.

Lemma chains_snoc home a x I B :
  chains home a I B -> (forall i, i ∈ I -> (i < length a)%nat) -> chains home (a ++ [x]) I B.
Proof.
  intros Hc HI. split; [|apply Hc]. pose proof (ch_bucket _ _ _ _ Hc) as Hb. rewrite Forall_forall in Hb |- *.
  intros c HcB. eapply bucket_frame; [by apply Hb| |done]. intros i Hi. apply lookup_app_l. apply HI.
  rewrite <-(ch_idx _ _ _ _ Hc). apply list_elem_of_fmap in Hi as (p & -> & Hp). apply list_elem_of_fmap.
  exists p. split; [done|]. apply elem_of_concat. eauto.
Qed.

Lemma chains_home home home' a I B :
  chains home a I B -> (forall i r, (i, r) ∈ concat B -> home' r = home r) -> chains home' a I B.
Proof.
  intros Hc Hh. split; [|apply Hc]. pose proof (ch_bucket _ _ _ _ Hc) as Hb. rewrite Forall_forall in Hb |- *.
  intros c HcB. eapply bucket_frame; [by apply Hb|done|]. intros i r Hin. apply (Hh i). apply elem_of_concat. eauto.
Qed.

Lemma seq_snoc n : seq 0 (S n) ≡ₚ n :: seq 0 n.
Proof. rewrite seq_S. cbn. by rewrite Permutation_app_comm. Qed.

Lemma table_range h B i : table h B -> i ∈ seq 0 (records h) -> (i < length (array h))%nat.
Proof. intros Ht. rewrite (tb_len _ _ Ht), elem_of_seq. lia. Qed.

(** Both halves of a bucket that is split. *)
Definition halves L H : list (list (nat * rec)) := state_of L [] [L] ++ state_of H [] [H].

Lemma concat_halves L H : concat (halves L H) = L ++ H.
Proof. unfold halves. destruct L, H; cbn; by rewrite ?app_nil_r. Qed.

(** The cells without the one left empty. *)
Definition splits h (a : list (HASH_LINK rec)) (e : nat) B : Prop :=
  exists B' I, length a = S (records h) /\ e :: I ≡ₚ seq 0 (S (records h)) /\
    chains (home_of h (blength h) (S (records h))) a I B' /\ (concat B').*2 ≡ₚ (concat B).*2.

Lemma split_none h B :
  table h B ->
  (forall i r, (i, r) ∈ concat B ->
     home_of h (blength h) (S (records h)) r = home_of h (blength h) (records h) r) ->
  splits h (array h ++ [inhabitant]) (records h) B.
Proof.
  intros Ht Hh. exists B, (seq 0 (records h)). split_and!; [|by rewrite seq_snoc| |done].
  - rewrite length_app, (tb_len _ _ Ht). cbn. lia.
  - eapply chains_home; [|exact Hh]. apply chains_snoc; [apply Ht|]. by intros i; apply (table_range _ B).
Qed.

Lemma half_bucket home a L b :
  linked a L None -> (L <> [] -> first_idx L None = Some b) ->
  (forall p, p ∈ L -> home p.2 = b) -> Forall (bucket home a) (state_of L [] [L]).
Proof.
  intros Hl Hb Hh. destruct L as [|[i q] L]; cbn; [done|]. constructor; [|done].
  pose proof (Hb ltac:(done)) as [= ->]. apply bucket_intro; [done| |].
  - apply (Hh (b, q)). apply elem_of_cons. by left.
  - intros p Hp. apply Hh. apply elem_of_cons. by right.
Qed.

Lemma other_home home a I b r t B i q :
  chains home a I (((b, r) :: t) :: B) -> NoDup I -> (i, q) ∈ concat B -> home q <> b.
Proof.
  intros Hc Hnd Hin E. destruct Hc as [Hb Hi]. apply Forall_cons in Hb as [_ Hb].
  cbn [concat] in Hi. rewrite fmap_app in Hi. rewrite <-Hi in Hnd.
  apply list.NoDup_app in Hnd as (_ & Hd & _). apply (Hd b); [cbn; apply elem_of_cons; by left|].
  destruct (chain_head home a ((concat B).*1) B i q) as (r0 & Hr0 & _); [by split|done|].
  rewrite E in Hr0. apply list_elem_of_fmap. by exists (b, r0).
Qed.

Section Grow.
Context (h : HASH rec) (Hsz : size_ok (blength h) (records h)) (Hn : (1 <= records h)%nat).
Notation fi := (records h - Nat.div2 (blength h))%nat.
Notation home := (home_of h (blength h) (records h)).
Notation home' := (home_of h (blength h) (S (records h))).
Notation bit := (fun r => has_flag (rec_hashnr h r) (Z.of_nat (Nat.div2 (blength h)))).

Lemma home_grow r : home' r = if (home r =? fi)%nat && bit r then records h else home r.
Proof. unfold home_of. apply mask_grow; [apply rec_hashnr_pos|done..]. Qed.

Lemma split_start B t r :
  table h (((fi, r) :: t) :: B) -> home r = fi ->
  let c := (fi, r) :: t in let a0 := array h ++ [inhabitant] in
  NoDup (records h :: c.*1) /\ (forall i, i ∈ records h :: c.*1 -> (i < length a0)%nat) /\
  (length t < records h)%nat /\ (forall p, p ∈ c -> home p.2 = fi) /\
  split_inv bit fi (records h) a0 (records h :: c.*1) (c.*2)
    (mk_split 0 0 inhabitant 0 inhabitant (records h) a0) [] [] c false false.
Proof.
  intros Ht Hr c a0. pose proof (tb_chains _ _ Ht) as Hc. pose proof (ch_bucket _ _ _ _ Hc) as Hb.
  apply Forall_cons in Hb as [Hb _]. destruct (bucket_inv _ _ _ Hb) as (b & r' & t' & [= <- <- <-] & Hl & _ & Hm).
  pose proof (ch_idx _ _ _ _ Hc) as Hi. cbn [concat] in Hi. rewrite fmap_app in Hi.
  assert (Hrg : forall i, i ∈ c.*1 -> (i < records h)%nat).
  { intros i Hin. assert (i ∈ seq 0 (records h)) as Hs by (rewrite <-Hi, elem_of_app; by left).
    rewrite elem_of_seq in Hs. lia. }
  assert (Hla : length a0 = S (records h)) by (unfold a0; rewrite length_app, (tb_len _ _ Ht); cbn; lia).
  split_and!.
  - constructor; [intros Hx%Hrg; lia|]. pose proof (NoDup_seq 0 (records h)) as Hnd. rewrite <-Hi in Hnd.
    by apply list.NoDup_app in Hnd as (? & _).
  - intros i [->|Hx%Hrg]%elem_of_cons; lia.
  - apply Permutation_length in Hi. rewrite length_app, length_fmap, length_seq in Hi. cbn in Hi. lia.
  - intros p [->|Hp]%elem_of_cons; [done|by apply Hm].
  - assert (linked a0 c None) as Hlc.
    { eapply linked_frame; [|exact Hl]. intros i Hin. apply lookup_app_l.
      rewrite (tb_len _ _ Ht). by apply Hrg. }
    by split; cbn.
Qed.

Lemma split_chain B r t :
  table h (((fi, r) :: t) :: B) -> home r = fi ->
  let s := split_end (split_loop (records h) h (Nat.div2 (blength h)) fi fi
             (mk_split 0 0 inhabitant 0 inhabitant (records h) (array h ++ [inhabitant]))) in
  splits h (sp_data s) (empty s) (((fi, r) :: t) :: B).
Proof.
  intros Ht Hr. destruct (split_start B t r Ht Hr) as (HndI & HrI & Hlen & Hm & Hinv). cbn zeta in *.
  destruct (split_loop_inv h _ _ _ _ _ HndI HrI _ _ _ _ _ _ _ _ _ Hinv Hlen Hm) as (L & H & lu & hu & Hinv').
  destruct (split_end_inv _ _ _ _ _ _ HndI HrI _ _ _ _ _ Hinv') as (E1 & E2 & E3 & E4 & E5).
  destruct Hinv' as [_ _ _ _ _ HLh HHh _ _ HI HR [Hb1 Hb2] _]. rewrite app_nil_r in HI, HR.
  set (s1 := split_loop _ _ _ _ _ _) in *. set (c := (fi, r) :: t) in *.
  pose proof (tb_chains _ _ Ht) as Hc. pose proof (ch_idx _ _ _ _ Hc) as Hi. cbn [concat] in Hi. rewrite fmap_app in Hi.
  assert (Hh : forall p, p ∈ L ++ H -> home p.2 = fi).
  { intros p Hin. assert (p.2 ∈ (L ++ H).*2) as Hq by (apply list_elem_of_fmap; by exists p).
    rewrite HR in Hq. apply list_elem_of_fmap in Hq as (p' & -> & Hp). by apply Hm. }
  rewrite Forall_forall in Hb1, Hb2.
  exists (halves L H ++ B), ((L ++ H).*1 ++ (concat B).*1). split_and!.
  - rewrite E4, length_app, (tb_len _ _ Ht). cbn. lia.
  - rewrite E3, seq_snoc, <-Hi. rewrite app_comm_cons, HI. done.
  - eapply (chains_replace _ _ (array h) _ _ _ [c] (halves L H) B); [exact Hc|apply NoDup_seq| | | |].
    + apply Forall_app. split; (eapply half_bucket; [done|done|]); intros p Hp; rewrite home_grow, Hh, Nat.eqb_refl
        by (rewrite elem_of_app; tauto).
      * by rewrite (Hb1 p Hp).
      * by rewrite (Hb2 p Hp).
    + intros i Hni Hin. cbn [concat] in Hni. rewrite app_nil_r in Hni. rewrite E5.
      * apply lookup_app_l. by apply (table_range _ _ _ Ht).
      * apply not_elem_of_cons. rewrite elem_of_seq in Hin. split; [lia|done].
    + intros i q Hin. rewrite home_grow. pose proof (other_home _ _ _ _ _ _ _ _ _ Hc (NoDup_seq _ _) Hin) as Hne.
      apply Nat.eqb_neq in Hne. by rewrite Hne.
    + intros J HJ. rewrite concat_halves. f_equiv.
      apply (Permutation_app_inv_l (c.*1)). rewrite Hi, <-HJ. cbn [concat]. by rewrite app_nil_r.
  - rewrite concat_app, concat_halves. cbn [concat]. by rewrite !fmap_app, <-HR, fmap_app.
Qed.
End Grow.

Lemma split_bucket_spec h B :
  table h B -> let '(a, e) := split_bucket h (array h ++ [inhabitant]) in splits h a e B.
Proof.
  intros Ht. pose proof (tb_chains _ _ Ht) as Hc. pose proof (tb_size _ _ Ht) as Hsz. unfold split_bucket.
  destruct (Nat.eqb_spec (records h - Nat.div2 (blength h)) (records h)) as [E|E].
  { apply split_none; [done|]. intros i r Hin. destruct (chains_member _ _ _ _ _ _ Hc Hin) as [Hi _].
    rewrite elem_of_seq in Hi. destruct Hsz as (k & Ek & Hk). rewrite Ek in *.
    destruct k as [|k]; [cbn in *; lia|]. rewrite div2_pow2 in *. pose proof (Nat.pow_nonzero 2 k). lia. }
  assert (Hfi : (records h - Nat.div2 (blength h) < records h)%nat)
    by (revert E; generalize (Nat.div2 (blength h)); lia).
  assert (Hn : (1 <= records h)%nat) by lia.
  destruct (chains_pick _ _ _ _ (records h - Nat.div2 (blength h)) Hc) as (c & r & B' & HB & Hc' & Hb & Hin & nx & Hcell).
  { rewrite elem_of_seq. lia. }
  destruct (decide (home_of h (blength h) (records h) r = records h - Nat.div2 (blength h))%nat) as [Hr|Hr].
  - destruct (bucket_inv _ _ _ Hb) as (b & r0 & t & -> & Hl & Hr0 & Hm).
    assert (b = records h - Nat.div2 (blength h))%nat as ->.
    { apply elem_of_cons in Hin as [[= <- _]|Hin]; [done|]. rewrite <-Hr. symmetry. by apply (Hm _ Hin). }
    assert (Ht' : table h ((((records h - Nat.div2 (blength h))%nat, r0) :: t) :: B')) by (by destruct Ht; split).
    destruct (split_chain h Hsz Hn B' r0 t Ht' Hr0) as (B2 & I & ? & ? & ? & HR). exists B2, I.
    split_and!; [done..|]. by rewrite HR, (concat_perm _ _ HB).
  - assert (Hbreak : forall n s, sp_flag s = 0 -> sp_data s = array h ++ [inhabitant] ->
      split_loop (S n) h (Nat.div2 (blength h)) (records h - Nat.div2 (blength h)) (records h - Nat.div2 (blength h)) s = s).
    { intros n s Hf Hs. cbn [split_loop]. rewrite Hf, Hs, lookup_total_app_l by (rewrite (tb_len _ _ Ht); lia).
      rewrite (list_lookup_total_correct _ _ _ Hcell). cbn [data]. apply Nat.eqb_neq in Hr. unfold home_of in Hr.
      by rewrite Hr. }
    destruct (records h) as [|n] eqn:En; [by destruct (Nat.nle_succ_0 _ Hn)|]. rewrite Hbreak by done. cbn [split_end sp_data empty].
    cbn. rewrite <-En. apply split_none; [done|]. intros i q Hq.
    rewrite (home_grow h) by (try done; by rewrite En). destruct (Nat.eqb_spec (home_of h (blength h) (records h) q) (records h - Nat.div2 (blength h))) as [E'|E']; [|done].
    rewrite En in E'. exfalso. refine (not_home _ _ _ _ _ Hc _ _ _ Hq E'). intros r' n' _ Hr'. congruence.
Qed.

(** ** Inserting *)

(** A cell of a chain is its first one, or comes after others. *)
Lemma bucket_cell home a d i r :
  bucket home a d -> NoDup (d.*1) -> (i, r) ∈ d ->
  (home r = i /\ exists t, d = (i, r) :: t) \/
  (home r <> i /\ exists d1 t, d = d1 ++ (i, r) :: t /\ first_idx d1 None = Some (home r)).
Proof.
  intros Hb Hnd Hin. destruct (bucket_inv _ _ _ Hb) as (b & r0 & t & -> & Hl & Hr0 & Hm).
  apply elem_of_cons in Hin as [[= -> ->]|Hin]; [left; eauto|]. right.
  rewrite (Hm _ Hin : home r = b). split.
  - intros ->. cbn in Hnd. apply NoDup_cons in Hnd as [Hn _]. apply Hn. apply list_elem_of_fmap. by exists (i, r).
  - apply list_elem_of_split in Hin as (t1 & t2 & ->). by exists ((b, r0) :: t1), t2.
Qed.

(** The cell [i] in the middle of a chain is copied to [e] and the cell before
    it relinked. *)
Lemma displace home a a' d1 i r t e g fuel :
  bucket home a (d1 ++ (i, r) :: t) -> NoDup ((d1 ++ (i, r) :: t).*1) -> first_idx d1 None = Some g ->
  e ∉ d1.*1 -> (forall j, j ∈ d1.*1 ++ t.*1 -> a' !! j = a !! j) -> a' !! e = a !! i ->
  (length d1 <= fuel)%nat ->
  let a2 := movelink fuel a' (Some i) g (Some e) in
  bucket home a2 (d1 ++ (e, r) :: t) /\ length a2 = length a' /\ forall j, j ∉ d1.*1 -> a2 !! j = a' !! j.
Proof.
  intros Hb Hnd Hg He Hf Hei Hfuel. cbn zeta. pose proof Hb as (_ & Hl & Hh).
  apply linked_app in Hl as [Hl1 Hl2]. cbn in Hl1, Hl2. destruct Hl2 as [Hi Hl2].
  rewrite fmap_app in Hnd. apply list.NoDup_app in Hnd as (Hn1 & Hd & Hn2). cbn in Hd, Hn2.
  apply NoDup_cons in Hn2 as [Hit Hnt].
  destruct (movelink_frame fuel a' (Some i) g (Some e) d1) as (M1 & M2 & M3); [|done| |done|done|].
  { eapply linked_frame; [|exact Hl1]. intros j Hj. apply Hf. rewrite elem_of_app. by left. }
  { intros j Hj [= ->]. apply (Hd j Hj). apply elem_of_cons. by left. }
  split_and!; [|done|done]. split; [by destruct d1|]. split.
  - apply linked_app. split; [done|]. cbn. split; [by rewrite M3, Hei by done|].
    eapply linked_frame; [|exact Hl2]. intros j Hj. rewrite M3.
    + apply Hf. rewrite elem_of_app. by right.
    + intros Hj'. apply (Hd j Hj'). apply elem_of_cons. by right.
  - assert (first_idx (d1 ++ (e, r) :: t) None = first_idx (d1 ++ (i, r) :: t) None) as ->
      by (rewrite !first_idx_app; by destruct d1 as [|[]]).
    apply Forall_app in Hh as [H1 H2]. apply Forall_cons in H2 as [H2 H3]. apply Forall_app. by split; [|constructor].
Qed.

(** A chain alone in the table after a change of other cells. *)
Lemma bucket_one home a i r : a !! i = Some (mk_link None r) -> home r = i -> bucket home a [(i, r)].
Proof. intros Ha Hr. apply bucket_intro; [by cbn|done|]. by intros p ?%elem_of_nil. Qed.

(** The second cell of a chain is new. *)
Lemma bucket_second home a i r e q t :
  a !! i = Some (mk_link (Some e) r) -> a !! e = Some (mk_link (first_idx t None) q) ->
  linked a t None -> home r = i -> home q = i -> (forall p, p ∈ t -> home p.2 = i) ->
  bucket home a ((i, r) :: (e, q) :: t).
Proof.
  intros Hi He Ht Hr Hq Hm. apply bucket_intro; [by cbn|done|]. by intros p [->|Hp]%elem_of_cons; [|apply Hm].
Qed.

Lemma chains_nodup home a I c B : chains home a I (c :: B) -> NoDup I -> NoDup (c.*1) /\ forall i, i ∈ c.*1 -> i ∈ I.
Proof.
  intros Hc Hnd. pose proof (ch_idx _ _ _ _ Hc) as Hi. cbn [concat] in Hi. rewrite fmap_app in Hi.
  rewrite <-Hi in Hnd. apply list.NoDup_app in Hnd as (? & _ & _). split; [done|].
  intros i Hin. rewrite <-Hi, elem_of_app. by left.
Qed.

(** Replacing one chain by [cs]. *)
Lemma chains_replace_one home a a' I e c cs B :
  chains home a I (c :: B) -> NoDup (e :: I) -> Forall (bucket home a') cs ->
  (forall i, i ∉ c.*1 -> i ∈ I -> a' !! i = a !! i) ->
  (concat cs).*1 ≡ₚ e :: c.*1 -> chains home a' (e :: I) (cs ++ B).
Proof.
  intros Hc Hnd Hcs Hf Hi. apply NoDup_cons in Hnd as [_ Hnd].
  eapply (chains_replace home home a a' I (e :: I) [c] cs B); [done..| |done|].
  - cbn [concat]. by rewrite app_nil_r.
  - intros J HJ. cbn [concat] in HJ. rewrite app_nil_r in HJ. by rewrite Hi, <-HJ.
Qed.

Lemma chains_length home a I c B : chains home a I (c :: B) -> (length c <= length I)%nat.
Proof.
  intros [_ H]. cbn [concat] in H. rewrite fmap_app in H. apply Permutation_length in H.
  rewrite length_app, length_fmap in H. lia.
Qed.

(** Changing cells that are not in the table. *)
Lemma chains_agree home a a' I B :
  chains home a I B -> (forall i, i ∈ I -> a' !! i = a !! i) -> chains home a' I B.
Proof.
  intros Hc Hf. split; [|apply Hc]. pose proof (ch_bucket _ _ _ _ Hc) as Hb. rewrite Forall_forall in Hb |- *.
  intros c HcB. eapply bucket_frame; [by apply Hb| |done]. intros i Hi. apply Hf.
  rewrite <-(ch_idx _ _ _ _ Hc). apply list_elem_of_fmap in Hi as (p & -> & Hp). apply list_elem_of_fmap.
  exists p. split; [done|]. apply elem_of_concat. eauto.
Qed.

Lemma chains_insert home a i x I B : chains home a I B -> i ∉ I -> chains home (<[i := x]> a) I B.
Proof. intros Hc Hi. eapply chains_agree; [done|]. intros j Hj. apply list_lookup_insert_ne. by intros ->. Qed.

Lemma chains_add home a I c B :
  chains home a I B -> bucket home a c -> chains home a (c.*1 ++ I) (c :: B).
Proof.
  intros [H1 H2] Hb. split; [by constructor|]. cbn [concat]. by rewrite fmap_app, H2.
Qed.

Lemma chains_remove home a I c B :
  chains home a I (c :: B) -> bucket home a c /\ exists I', I ≡ₚ c.*1 ++ I' /\ chains home a I' B.
Proof.
  intros [H1 H2]. apply Forall_cons in H1 as [Hb H1]. split; [done|]. exists ((concat B).*1).
  cbn [concat] in H2. rewrite fmap_app in H2. split; [done|]. by split.
Qed.

(** The record at [i], not first in its chain, goes to the free cell [e]. *)
Lemma displaced_chains home a a' I d1 i r0 t B e g fuel :
  chains home a I ((d1 ++ (i, r0) :: t) :: B) -> NoDup (e :: I) -> first_idx d1 None = Some g ->
  (forall j, j ∈ I -> j <> i -> a' !! j = a !! j) -> a' !! e = a !! i -> (length d1 <= fuel)%nat ->
  let a2 := movelink fuel a' (Some i) g (Some e) in
  exists I', i :: I' ≡ₚ e :: I /\ chains home a2 I' ((d1 ++ (e, r0) :: t) :: B) /\
    length a2 = length a' /\ (forall j, j ∉ I \/ j = i -> a2 !! j = a' !! j).
Proof.
  intros Hc Hnd Hg Hf He Hfuel a2. destruct (chains_remove _ _ _ _ _ Hc) as (Hb & I' & HI & Hc').
  rewrite HI in Hnd. pose proof (proj2 (proj1 (NoDup_cons _ _) Hnd)) as Hndc.
  apply list.NoDup_app in Hndc as (Hndc & _ & _). rewrite fmap_app, fmap_cons in Hnd. cbn [fst] in Hnd.
  assert (Hnd' : NoDup (d1.*1 ++ e :: i :: t.*1 ++ I')).
  { eapply NoDup_Permutation_proper; [|exact Hnd]. solve_Permutation. }
  apply list.NoDup_app in Hnd' as (Hn1 & Hd & Hn2). apply NoDup_cons in Hn2 as [He2 Hn2].
  apply NoDup_cons in Hn2 as [Hi2 Hn2]. rewrite elem_of_app in Hi2.
  assert (HinI : forall j, j ∈ d1.*1 ++ t.*1 ++ I' -> j ∈ I).
  { intros j. rewrite HI, fmap_app, fmap_cons, !elem_of_app, elem_of_cons. tauto. }
  assert (Hi1 : i ∉ d1.*1). { intros Hx. apply (Hd i Hx). apply elem_of_cons. right. apply elem_of_cons. by left. }
  destruct (displace home a a' d1 i r0 t e g fuel) as (M1 & M2 & M3); [done|done|done| | |done|done|].
  - intros Hx. apply (Hd e Hx). apply elem_of_cons. by left.
  - intros j Hj. apply Hf; [|intros ->; rewrite elem_of_app in Hj; tauto]. apply HinI.
    rewrite elem_of_app in Hj |- *. rewrite elem_of_app. tauto.
  - exists (e :: d1.*1 ++ t.*1 ++ I'). split_and!; [rewrite HI, fmap_app, fmap_cons; cbn [fst]; solve_Permutation| |done|].
    2:{ intros j [Hj| ->]; apply M3; [|done]. intros Hx. apply Hj, HinI. rewrite elem_of_app. by left. }
    assert (e :: d1.*1 ++ t.*1 ++ I' ≡ₚ (d1 ++ (e, r0) :: t).*1 ++ I') as ->
      by (rewrite fmap_app, fmap_cons; cbn [fst]; solve_Permutation).
    apply chains_add; [|done]. eapply chains_agree; [exact Hc'|]. intros j Hj.
    unfold a2. rewrite M3.
    + apply Hf; [|intros ->; tauto]. apply HinI. rewrite !elem_of_app. tauto.
    + intros Hx. apply (Hd j Hx). rewrite !elem_of_cons, elem_of_app. tauto.
Qed.

(** A record joins the chain at its bucket, second: the first moves to [e]. *)
Lemma place_head home a I i r0 t B e r :
  chains home a I (((i, r0) :: t) :: B) -> NoDup (e :: I) -> (e < length a)%nat -> home r = i ->
  chains home (<[i := mk_link (Some e) r]> (<[e := a !!! i]> a)) (e :: I) (((i, r) :: (e, r0) :: t) :: B).
Proof.
  intros Hc Hnd He Hr. destruct (chains_remove _ _ _ _ _ Hc) as (Hb & I' & HI & Hc').
  destruct (bucket_inv _ _ _ Hb) as (b & q & u & [= <- <- <-] & [Hi Hl] & Hr0 & Hm).
  rewrite (list_lookup_total_correct _ _ _ Hi). rewrite HI in Hnd |- *. cbn [fmap list_fmap fst app] in Hnd |- *.
  assert (e :: i :: t.*1 ++ I' ≡ₚ ((i, r) :: (e, r0) :: t).*1 ++ I') as -> by (cbn; solve_Permutation).
  apply NoDup_cons in Hnd as [He1 Hnd]. apply NoDup_cons in Hnd as [Hi1 Hnd].
  apply not_elem_of_cons in He1 as [Hne He1]. rewrite not_elem_of_app in He1, Hi1.
  apply lookup_lt_Some in Hi as Hil. apply chains_add.
  - apply chains_insert; [apply chains_insert; [done|tauto]|tauto].
  - apply bucket_second; try done.
    + apply list_lookup_insert_eq. by rewrite length_insert.
    + rewrite list_lookup_insert_ne by done. by apply list_lookup_insert_eq.
    + apply linked_insert; [tauto|]. apply linked_insert; [tauto|done].
Qed.

Lemma place_record_spec h a e B r :
  size_ok (blength h) (records h) -> splits h a e B ->
  let a' := place_record h a e r in
  length a' = S (records h) /\ exists B',
    chains (home_of h (blength h) (S (records h))) a' (seq 0 (S (records h))) B' /\
    (concat B').*2 ≡ₚ r :: (concat B).*2.
Proof.
  intros Hsz (B0 & I & Hlen & HI & Hc & HR). cbn zeta. unfold place_record.
  set (home := home_of h (blength h) (S (records h))) in *.
  change (my_hash_mask (rec_hashnr h r) (blength h) (S (records h))) with (home r).
  set (idx := home r). assert (HndI : NoDup (e :: I)) by (rewrite HI; apply NoDup_seq).
  assert (He : (e < length a)%nat).
  { assert (e ∈ e :: I) as Hx by (apply elem_of_cons; by left). rewrite HI, elem_of_seq in Hx. lia. }
  pose proof HndI as [HeI HnI]%NoDup_cons.
  destruct (Nat.eqb_spec idx e) as [E|E].
  { split; [by rewrite length_insert|]. exists ([(idx, r)] :: B0). rewrite <-HI, <-E in *. split; [|cbn; by rewrite HR].
    apply (chains_add home _ I [(idx, r)]); [by apply chains_insert|].
    apply bucket_one; [by apply list_lookup_insert_eq|done]. }
  assert (Hidx : idx ∈ I).
  { assert (idx ∈ e :: I) as [->|?]%elem_of_cons; [|done..]. rewrite HI, elem_of_seq.
    pose proof (mask_bound_succ (rec_hashnr h r) _ _ (rec_hashnr_pos h r) Hsz). unfold idx, home, home_of. lia. }
  destruct (chains_pick _ _ _ _ _ Hc Hidx) as (c & r0 & B' & HB & Hc' & Hb & Hin & nx & Hcell).
  rewrite list_lookup_total_insert_ne by done. rewrite (list_lookup_total_correct _ _ _ Hcell).
  change (my_hash_rec_mask h (mk_link nx r0) (blength h) (S (records h))) with (home r0).
  rewrite <-(list_lookup_total_correct _ _ _ Hcell). rewrite (concat_perm _ _ HB) in HR.
  destruct (chains_nodup _ _ _ _ _ Hc' HnI) as [Hnc HcI].
  destruct (bucket_cell _ _ _ _ _ Hb Hnc Hin) as [(Hr0 & t & ->)|(Hr0 & d1 & t & -> & Hd1)].
  - rewrite Hr0, Nat.eqb_refl. split; [by rewrite !length_insert|]. eexists.
    split; [rewrite <-HI; by apply place_head|]. rewrite <-HR. cbn. solve_Permutation.
  - destruct (Nat.eqb_spec idx (home r0)) as [?|_]; [congruence|].
    destruct (displaced_chains home a (<[idx := mk_link None r]> (<[e := a !!! idx]> a)) I d1 idx r0 t B' e (home r0)
      (S (records h))) as (I' & HI' & Hc2 & Hlen2 & Hi2); [done..| | | |].
    + intros j Hj Hne. rewrite !list_lookup_insert_ne; [done| |done]. by intros ->.
    + rewrite list_lookup_insert_ne by done. rewrite list_lookup_insert_eq by done.
      by rewrite Hcell, (list_lookup_total_correct _ _ _ Hcell).
    + pose proof (chains_length _ _ _ _ _ Hc') as Hx. apply Permutation_length in HI.
      rewrite length_app in Hx. rewrite length_seq in HI. cbn in HI. lia.
    + split; [by rewrite Hlen2, !length_insert|]. exists ([(idx, r)] :: (d1 ++ (e, r0) :: t) :: B'). split.
      * rewrite <-HI, <-HI'. apply (chains_add home _ I' [(idx, r)]); [done|]. apply bucket_one; [|done]. rewrite Hi2 by (by right).
        apply list_lookup_insert_eq. rewrite length_insert. by apply lookup_lt_Some in Hcell.
      * rewrite <-HR. cbn [concat]. repeat (rewrite ?fmap_app, ?fmap_cons; cbn). solve_Permutation.
Qed.

Definition contents h : list rec := map data (array h).

(** The records of the chains are those of the array. *)
Lemma chains_contents home a B :
  chains home a (seq 0 (length a)) B -> (concat B).*2 ≡ₚ map data a.
Proof.
  intros Hc. assert (Hd : (concat B).*2 = (fun i => data (a !!! i)) <$> (concat B).*1).
  { rewrite <-list_fmap_compose. apply list_fmap_ext. intros j [i r] Hj. cbn.
    assert ((i, r) ∈ concat B) as Hin by (by eapply list_elem_of_lookup_2).
    destruct (chains_member _ _ _ _ _ _ Hc Hin) as (_ & n & Hn). by rewrite (list_lookup_total_correct _ _ _ Hn). }
  rewrite Hd, (ch_idx _ _ _ _ Hc). clear Hd Hc. match goal with |- ?x ≡ₚ ?y => assert (x = y) as ->; [|done] end.
  apply list_eq. intros i. change (map data a) with (data <$> a). rewrite !list_lookup_fmap.
  destruct (a !! i) as [x|] eqn:E.
  - pose proof (lookup_lt_Some _ _ _ E) as Hi. rewrite lookup_seq_lt by done. cbn.
    by rewrite (list_lookup_total_correct _ _ _ E).
  - apply lookup_ge_None in E. by rewrite lookup_seq_ge by done.
Qed.

Lemma table_contents h B : table h B -> (concat B).*2 ≡ₚ contents h.
Proof. intros Ht. apply (chains_contents (home_of h (blength h) (records h))). rewrite (tb_len _ _ Ht). apply Ht. Qed.

Lemma mask_next_any hv bl n :
  0 <= hv -> size_ok bl n -> my_hash_mask hv (next_size bl n) (S n) = my_hash_mask hv bl (S n).
Proof.
  intros Hv Hs. destruct n as [|n]; [|apply mask_next; [done..|lia]].
  pose proof (mask_bound_succ hv bl 0 Hv Hs).
  pose proof (mask_bound hv (next_size bl 0) 1 (size_ok_grow _ _ Hs) ltac:(lia)). lia.
Qed.

(** A well-formed table. *)
Definition wf_hash h : Prop := exists B, table h B.

Lemma insert_wf h r :
  wf_hash h ->
  let '(a, empty) := split_bucket h (array h ++ [inhabitant]) in
  let h' := set_table h (next_size (blength h) (records h)) (S (records h)) (place_record h a empty r) in
  wf_hash h' /\ contents h' ≡ₚ r :: contents h.
Proof.
  intros [B Ht]. pose proof (split_bucket_spec h B Ht) as Hs.
  destruct (split_bucket _ _) as [a e]. destruct (place_record_spec h a e B r (tb_size _ _ Ht) Hs) as (Hl & B' & Hc & HR).
  assert (Ht' : table (set_table h (next_size (blength h) (records h)) (S (records h)) (place_record h a e r)) B').
  { split; cbn; [apply size_ok_grow, Ht|done|]. eapply chains_home; [exact Hc|]. intros i q _.
    unfold home_of. apply mask_next_any; [apply rec_hashnr_pos|apply Ht]. }
  split; [by exists B'|]. rewrite <-(table_contents _ _ Ht'), <-(table_contents _ _ Ht). done.
Qed.

(** ** Taking a record out *)

Lemma find_record_spec fuel : forall a r l p0 pos gp,
  linked a l None -> first_idx l None = Some pos -> (length l <= fuel)%nat ->
  gp = fst <$> last p0 ->
  match find_record fuel a r pos gp with
  | Some (p, g) => exists l1 t, l = l1 ++ (p, r) :: t /\ g = fst <$> last (p0 ++ l1)
  | None => forall i, (i, r) ∉ l
  end.
Proof.
  induction fuel as [|fuel IH]; intros a r l p0 pos gp Hl Hp Hf Hg; [destruct l; cbn in *; [done|lia]|].
  destruct l as [|[i q] l]; [done|]. cbn in Hp. injection Hp as ->. destruct Hl as [Hi Hl]. cbn [find_record].
  rewrite (list_lookup_total_correct _ _ _ Hi). cbn [data next]. case_decide as E.
  { subst q. exists [], l. split; [done|]. by rewrite app_nil_r. }
  destruct l as [|[j q'] l].
  { cbn. intros i [[= <- <-]|Hx%elem_of_nil]%elem_of_cons; done. }
  cbn [first_idx]. specialize (IH a r ((j, q') :: l) (p0 ++ [(pos, q)]) j (Some pos) Hl eq_refl).
  destruct (find_record fuel a r j (Some pos)) as [[p g]|].
  - destruct IH as (l1 & t & -> & ->); [cbn in *; lia|by rewrite last_snoc|].
    exists ((pos, q) :: l1), t. split; [done|]. by rewrite <-app_assoc.
  - intros i [[= -> ->]|Hx]%elem_of_cons; [done|]. eapply IH; [cbn in *; lia|by rewrite last_snoc|exact Hx].
Qed.

(** A chain without one of its records, and the cell that gets free. *)
Definition unlinked home a c1 (p : nat) r t (res : list (HASH_LINK rec) * nat) : Prop :=
  exists cs : list (list (nat * rec)), Forall (bucket home res.1) cs /\
    res.2 :: (concat cs).*1 ≡ₚ (c1 ++ (p, r) :: t).*1 /\ (concat cs).*2 ≡ₚ (c1 ++ t).*2 /\
    length res.1 = length a /\ (forall i, i ∉ (c1 ++ (p, r) :: t).*1 -> res.1 !! i = a !! i) /\
    (res.2 = p -> exists n, res.1 !! res.2 = Some (mk_link n r)).

(** The first record: the second takes its cell. *)
Lemma unlink_first home a p r t :
  linked a ((p, r) :: t) None -> NoDup (((p, r) :: t).*1) -> (forall q, q ∈ t -> home q.2 = p) ->
  unlinked home a [] p r t (unlink_record a p None).
Proof.
  intros [Hp Hl] Hnd Hh. unfold unlink_record. rewrite (list_lookup_total_correct _ _ _ Hp). cbn [next].
  destruct t as [|[e q] t]; cbn [first_idx] in *.
  { exists []. cbn. split_and!; try done. eauto. }
  destruct Hl as [He Hl]. rewrite (list_lookup_total_correct _ _ _ He).
  cbn in Hnd. apply NoDup_cons in Hnd as [Hn1 Hnd]. apply not_elem_of_cons in Hn1 as [Hpe Hn1].
  exists [(p, q) :: t]. cbn [fst snd]. split_and!.
  - constructor; [|done]. apply bucket_intro.
    + cbn. split; [apply list_lookup_insert_eq; by apply lookup_lt_Some in Hp|by apply linked_insert].
    + apply (Hh (e, q)). apply elem_of_cons. by left.
    + intros x Hx. apply Hh. apply elem_of_cons. by right.
  - cbn. rewrite app_nil_r. solve_Permutation.
  - cbn. by rewrite app_nil_r.
  - by rewrite length_insert.
  - intros i Hi. cbn in Hi. apply list_lookup_insert_ne. intros ->. apply Hi, elem_of_cons. by left.
  - done.
Qed.

(** Another one: the cell before it is linked to the one after it. *)
Lemma unlink_after home a c1 g q p r t :
  linked a (c1 ++ (g, q) :: (p, r) :: t) None -> NoDup ((c1 ++ (g, q) :: (p, r) :: t).*1) ->
  (forall x, x ∈ c1 ++ (g, q) :: t -> first_idx (c1 ++ (g, q) :: t) None = Some (home x.2)) ->
  unlinked home a (c1 ++ [(g, q)]) p r t (unlink_record a p (Some g)).
Proof.
  intros Hl Hnd Hh. apply linked_app in Hl as [Hl1 (Hg & Hp & Ht)]. unfold unlink_record, set_next, unlinked.
  rewrite (list_lookup_total_correct _ _ _ Hp), (list_lookup_total_correct _ _ _ Hg). cbn [next data fst snd].
  rewrite <-!app_assoc. cbn [app]. pose proof Hnd as Hnd'.
  rewrite fmap_app in Hnd'. cbn in Hnd'. apply list.NoDup_app in Hnd' as (_ & Hd & Hn2).
  apply NoDup_cons in Hn2 as [Hg2 _]. apply not_elem_of_cons in Hg2 as [Hgp Hg2].
  exists [c1 ++ (g, q) :: t]. split_and!.
  - constructor; [|done]. split; [by destruct c1|]. split; [|by apply Forall_forall].
    apply linked_app. split.
    + apply linked_insert; [|done]. intros Hx. apply (Hd g Hx). apply elem_of_cons. by left.
    + cbn. split; [apply list_lookup_insert_eq; by apply lookup_lt_Some in Hg|by apply linked_insert].
  - cbn. rewrite app_nil_r. repeat (rewrite ?fmap_app, ?fmap_cons; cbn). solve_Permutation.
  - cbn. by rewrite app_nil_r.
  - by rewrite length_insert.
  - intros i Hi. apply list_lookup_insert_ne. intros ->. apply Hi. rewrite fmap_app, elem_of_app. right. cbn.
    apply elem_of_cons. by left.
  - intros _. eexists. rewrite list_lookup_insert_ne by done. exact Hp.
Qed.

Lemma unlink_record_spec home a c1 p r t :
  linked a (c1 ++ (p, r) :: t) None -> NoDup ((c1 ++ (p, r) :: t).*1) ->
  (forall q, q ∈ c1 ++ t -> first_idx (c1 ++ (p, r) :: t) None = Some (home q.2)) ->
  unlinked home a c1 p r t (unlink_record a p (fst <$> last c1)).
Proof.
  intros Hl Hnd Hh. destruct c1 as [|[g q] c1 _] using rev_ind.
  - apply unlink_first; [done..|]. intros q Hq. specialize (Hh q Hq). cbn in Hh. congruence.
  - rewrite last_snoc. rewrite <-app_assoc in *. cbn [app] in *. apply unlink_after; [done..|].
    intros x Hx. rewrite <-(Hh x) by done. by rewrite !first_idx_app.
Qed.

(** ** Moving the last record *)

(** The first record of the merged chain stays at [p]; the cells [(e, q) :: t]
    are put after it, [e] being a copy of [n]. *)
Lemma merge_links fuel a n q t find p r t2 e :
  linked a ((n, q) :: t) find -> a !! p = Some (mk_link (first_idx t2 None) r) -> linked a t2 None ->
  NoDup (e :: n :: p :: t.*1 ++ t2.*1) -> (forall i, i ∈ e :: t.*1 -> find <> Some i) ->
  (e < length a)%nat -> (S (length t) <= fuel)%nat ->
  let a1 := <[e := a !!! n]> a in
  let a2 := set_next (movelink fuel a1 find e (next (a1 !!! p))) p (Some e) in
  linked a2 ((p, r) :: (e, q) :: t ++ t2) None /\ length a2 = length a /\
  forall j, j ∉ e :: p :: t.*1 -> a2 !! j = a !! j.
Proof.
  intros [Hn Ht] Hp Ht2 Hnd Hfind He Hfuel a1 a2. unfold a2. clear a2.
  apply NoDup_cons in Hnd as [He' Hnd]. apply NoDup_cons in Hnd as [Hn' Hnd]. apply NoDup_cons in Hnd as [Hp' Hnd].
  apply not_elem_of_cons in He' as [Hen He']. apply not_elem_of_cons in He' as [Hep He'].
  apply not_elem_of_app in He' as [Het Het2]. apply not_elem_of_app in Hp' as [Hpt Hpt2].
  apply list.NoDup_app in Hnd as (Hnt & Hd & _).
  unfold a1. rewrite (list_lookup_total_correct _ _ _ Hn). set (a1' := <[e := _]> a).
  assert (Hp1 : a1' !! p = Some (mk_link (first_idx t2 None) r)) by (unfold a1'; by rewrite list_lookup_insert_ne).
  rewrite (list_lookup_total_correct _ _ _ Hp1). cbn [next].
  destruct (movelink_frame fuel a1' find e (first_idx t2 None) ((e, q) :: t)) as (M1 & M2 & M3).
  { cbn. split; [by apply list_lookup_insert_eq|]. by apply linked_insert. }
  { done. }
  { done. }
  { cbn. by constructor. }
  { done. }
  set (a2 := movelink _ _ _ _ _) in *.
  assert (Hp2 : a2 !! p = Some (mk_link (first_idx t2 None) r)).
  { rewrite M3; [done|]. cbn. rewrite not_elem_of_cons. split; [congruence|done]. }
  unfold set_next. rewrite (list_lookup_total_correct _ _ _ Hp2). cbn [data]. split_and!.
  - cbn. split; [apply list_lookup_insert_eq; by apply lookup_lt_Some in Hp2|].
    apply (linked_insert _ _ _ ((e, q) :: t ++ t2)).
    { cbn. rewrite fmap_app, not_elem_of_cons, not_elem_of_app. split; [congruence|done]. }
    apply (linked_app _ ((e, q) :: t)). split; [done|]. eapply linked_frame; [|exact Ht2].
    intros j Hj. rewrite M3; [|cbn; rewrite not_elem_of_cons; split; [by intros ->|intros Hx; by apply (Hd j)]].
    apply list_lookup_insert_ne. by intros ->.
  - by rewrite length_insert, M2; unfold a1'; rewrite length_insert.
  - intros j. rewrite !not_elem_of_cons. intros (? & ? & ?). rewrite list_lookup_insert_ne by done.
    rewrite M3; [unfold a1'; by rewrite list_lookup_insert_ne|]. cbn. by rewrite not_elem_of_cons.
Qed.

Section Last.
Context (h : HASH rec) (a : list (HASH_LINK rec)) (bl0 N e : nat) (I : list nat).
Context (Hsz : size_ok bl0 (S N)) (HI : e :: I ≡ₚ seq 0 (S N)) (HeN : e <> N) (Hlen : length a = S N).
Notation bl := (prev_size bl0 N).
Notation home := (home_of h bl0 (S N)).
Notation home' := (home_of h bl N).
Notation tgt := (N - Nat.div2 bl)%nat.

(** The table of the cells up to [N], with the same records. *)
Definition moved (a' : list (HASH_LINK rec)) B : Prop :=
  length a' = S N /\ exists B', chains home' a' (seq 0 N) B' /\ (concat B').*2 ≡ₚ (concat B).*2.

Lemma last_pos : (1 <= N)%nat.
Proof.
  assert (e ∈ e :: I) as He by (apply elem_of_cons; by left). rewrite HI, elem_of_seq in He. lia.
Qed.

Lemma tgt_lt : (tgt < N)%nat.
Proof.
  pose proof last_pos. destruct (size_ok_shrink _ _ Hsz) as (k & Ek & Hk). rewrite Ek in *.
  destruct k as [|k]; [cbn in *; lia|]. rewrite div2_pow2 in *. pose proof (Nat.pow_nonzero 2 k). lia.
Qed.

Lemma home_shrink r : home' r = if (home r =? N)%nat then tgt else home r.
Proof. unfold home_of. apply mask_shrink; [apply rec_hashnr_pos|done|apply last_pos]. Qed.

Lemma home_same r : home r <> N -> home' r = home r.
Proof. intros Hne. rewrite home_shrink. apply Nat.eqb_neq in Hne. by rewrite Hne. Qed.

Lemma home_merge r : home r = N -> home' r = tgt.
Proof. intros E%Nat.eqb_eq. rewrite home_shrink. by rewrite E. Qed.

Lemma nodup_eI : NoDup (e :: I).
Proof. rewrite HI. apply NoDup_seq. Qed.

Lemma in_range i : i ∈ e :: I -> (i < length a)%nat.
Proof. rewrite HI, elem_of_seq. lia. Qed.

Lemma indices_left I' : N :: I' ≡ₚ e :: I -> I' ≡ₚ seq 0 N.
Proof. rewrite HI, seq_snoc. apply Permutation_cons_inv. Qed.

Lemma length_I : length I = N.
Proof. pose proof (Permutation_length HI) as Hl. rewrite length_seq in Hl. cbn in Hl. lia. Qed.

(** The last cell is not first in its chain. *)
Lemma move_inner c1 lr t B :
  chains home a I ((c1 ++ (N, lr) :: t) :: B) -> first_idx c1 None = Some (home lr) ->
  moved (movelink (S N) (<[e := a !!! N]> a) (Some N) (home lr) (Some e)) ((c1 ++ (N, lr) :: t) :: B).
Proof.
  intros Hc Hc1. assert (HnI := nodup_eI). pose proof HnI as [HeI _]%NoDup_cons.
  assert (Hin : (N, lr) ∈ concat ((c1 ++ (N, lr) :: t) :: B)).
  { cbn [concat]. rewrite !elem_of_app, elem_of_cons. tauto. }
  destruct (chains_member _ _ _ _ _ _ Hc Hin) as (HNI & n & Hn).
  destruct (displaced_chains home a (<[e := a !!! N]> a) I c1 N lr t B e (home lr) (S N))
    as (I' & HI' & Hc2 & Hl2 & _); [done..| | | |].
  - intros j Hj _. apply list_lookup_insert_ne. by intros ->.
  - rewrite list_lookup_insert_eq by (apply in_range, elem_of_cons; by left).
    by rewrite Hn, (list_lookup_total_correct _ _ _ Hn).
  - pose proof (chains_length _ _ _ _ _ Hc) as Hx. rewrite length_app, length_I in Hx. lia.
  - split; [by rewrite Hl2, length_insert|]. eexists. split.
    + rewrite <-(indices_left _ HI'). eapply chains_home; [exact Hc2|]. intros i q Hq. apply home_same.
      eapply (not_home _ _ _ _ _ Hc2); [|exact Hq]. intros r' n' HN. exfalso.
      assert (NoDup (N :: I')) as [? _]%NoDup_cons by (by rewrite HI'). done.
    + cbn [concat]. repeat (rewrite ?fmap_app, ?fmap_cons; cbn). done.
Qed.

(** From here the last cell is first in its chain, and moves to [tgt]. *)
Section First.
Context (lr : rec) (t : list (nat * rec)) (B : list (list (nat * rec))).
Context (Hc : chains home a I (((N, lr) :: t) :: B)).

Lemma first_facts :
  linked a ((N, lr) :: t) None /\ (forall p, p ∈ (N, lr) :: t -> home' p.2 = tgt) /\
  exists I1, I ≡ₚ N :: t.*1 ++ I1 /\ chains home a I1 B /\ chains home' a I1 B /\
    (forall i r, (i, r) ∈ concat B -> home r <> N) /\ NoDup (e :: N :: t.*1 ++ I1).
Proof.
  destruct (chains_remove _ _ _ _ _ Hc) as (Hb & I1 & HI1 & Hc1).
  destruct (bucket_inv _ _ _ Hb) as (b & q & u & [= <- <- <-] & Hl & Hr & Hm). split_and!; [done| |].
  - intros p [->|Hp]%elem_of_cons; apply home_merge; [done|by apply Hm].
  - assert (HnI := nodup_eI). pose proof HnI as [_ Hn]%NoDup_cons.
    assert (Hoth : forall i r, (i, r) ∈ concat B -> home r <> N) by (intros i r; by eapply other_home).
    exists I1. split_and!; [done|done| |done|].
    + eapply chains_home; [exact Hc1|]. intros i r Hin. apply home_same. by eapply Hoth.
    + by rewrite HI1 in HnI.
Qed.

(** The new indices. *)
Lemma indices_first I1 J : I ≡ₚ N :: t.*1 ++ I1 -> J ≡ₚ e :: t.*1 ++ I1 -> J ≡ₚ seq 0 N.
Proof. intros H1 H2. apply indices_left. rewrite H1, H2. solve_Permutation. Qed.

Lemma move_empty : tgt = e -> moved (<[e := a !!! N]> a) (((N, lr) :: t) :: B).
Proof.
  intros Ht. destruct first_facts as (Hl & Hh & I1 & HI1 & _ & Hc1 & _ & Hnd).
  destruct Hl as [HN Hl]. rewrite (list_lookup_total_correct _ _ _ HN).
  apply NoDup_cons in Hnd as [He Hnd]. apply not_elem_of_cons in He as [_ He]. apply not_elem_of_app in He as [Het HeI].
  split; [by rewrite length_insert|]. exists (((e, lr) :: t) :: B). split; [|done].
  rewrite <-(indices_first I1 (e :: t.*1 ++ I1)) by done.
  apply (chains_add home' _ I1 ((e, lr) :: t)); [by apply chains_insert|].
  rewrite <-Ht. apply bucket_intro; rewrite Ht.
  - cbn. split; [|by apply linked_insert]. apply list_lookup_insert_eq. apply in_range, elem_of_cons. by left.
  - rewrite <-Ht. apply (Hh (N, lr)). apply elem_of_cons. by left.
  - intros p Hp. rewrite <-Ht. apply Hh. apply elem_of_cons. by right.
Qed.

(** The cell [tgt] holds a record of another chain. *)
Lemma move_displace d1 rp t2 B2 :
  B = (d1 ++ (tgt, rp) :: t2) :: B2 -> first_idx d1 None = Some (home rp) -> tgt <> e ->
  let a1 := <[e := a !!! tgt]> a in
  moved (movelink (S N) (<[tgt := a1 !!! N]> a1) (Some tgt) (home' rp) (Some e)) (((N, lr) :: t) :: B).
Proof.
  intros EB Hd1 Hte a1. destruct first_facts as ([HN Hl] & Hh & I1 & HI1 & Hc1 & _ & Hoth & Hnd). rewrite EB in *.
  assert (Hin : (tgt, rp) ∈ concat ((d1 ++ (tgt, rp) :: t2) :: B2)).
  { cbn [concat]. rewrite !elem_of_app, elem_of_cons. tauto. }
  destruct (chains_member _ _ _ _ _ _ Hc1 Hin) as (HtI & n & Hn).
  rewrite (home_same rp) by (by eapply Hoth). pose proof tgt_lt as Htl.
  apply NoDup_cons in Hnd as [He Hnd]. apply NoDup_cons in Hnd as [HNt Hnd].
  apply not_elem_of_cons in He as [_ He]. apply not_elem_of_app in He as [Het HeI], HNt as [HNt HNI].
  apply list.NoDup_app in Hnd as (Hnt & Hdt & HnI1).
  assert (Hae : a1 !!! N = mk_link (first_idx t None) lr).
  { unfold a1. rewrite list_lookup_total_insert_ne by done. by apply list_lookup_total_correct. }
  rewrite Hae. set (a2 := <[tgt := _]> a1).
  assert (Hfar : forall j, j <> e -> j <> tgt -> a2 !! j = a !! j).
  { intros j ? ?. unfold a2, a1. by rewrite !list_lookup_insert_ne. }
  destruct (displaced_chains home a a2 I1 d1 tgt rp t2 B2 e (home rp) (S N)) as (I2 & HI2 & Hc2 & Hl2 & Hf2).
  { done. } { by constructor. } { done. }
  { intros j Hj Hjt. apply Hfar; [by intros ->|done]. }
  { unfold a2, a1. rewrite list_lookup_insert_ne by done. rewrite list_lookup_insert_eq.
    - by rewrite Hn, (list_lookup_total_correct _ _ _ Hn).
    - apply in_range, elem_of_cons. by left. }
  { pose proof (chains_length _ _ _ _ _ Hc1) as Hx. rewrite length_app in Hx. apply Permutation_length in HI1.
    rewrite length_I in HI1. cbn in HI1. rewrite length_app in HI1. lia. }
  set (a3 := movelink _ _ _ _ _) in *.
  split; [rewrite Hl2; unfold a2, a1; by rewrite !length_insert|].
  exists (((tgt, lr) :: t) :: (d1 ++ (e, rp) :: t2) :: B2). split.
  - rewrite <-(indices_first I1 (((tgt, lr) :: t).*1 ++ I2)); [|done|cbn; rewrite Permutation_middle, HI2; solve_Permutation].
    apply chains_add.
    + eapply chains_home; [exact Hc2|]. intros i q Hq. apply home_same.
      eapply (not_home _ _ _ _ _ Hc2); [|exact Hq]. intros r' n' HNI2. exfalso.
      assert (N ∈ tgt :: I2) as Hx by (apply elem_of_cons; by right).
      rewrite HI2 in Hx. by apply elem_of_cons in Hx as [?|?].
    + apply bucket_intro.
      * cbn. split.
        { rewrite Hf2 by (by right). apply list_lookup_insert_eq. unfold a1. rewrite length_insert. lia. }
        { eapply linked_frame; [|exact Hl]. intros j Hj. rewrite Hf2 by (left; by apply Hdt).
          apply Hfar; [by intros ->|]. intros ->. by apply (Hdt tgt). }
      * apply (Hh (N, lr)). apply elem_of_cons. by left.
      * intros p Hp. apply Hh. apply elem_of_cons. by right.
  - cbn [concat]. repeat (rewrite ?fmap_app, ?fmap_cons; cbn). solve_Permutation.
Qed.

Definition merged (idx : option nat) : list (HASH_LINK rec) :=
  let a1 := <[e := a !!! N]> a in
  set_next (movelink (S N) a1 idx e (next (a1 !!! tgt))) tgt (Some e).

(** The cell [tgt] holds a record of the same chain. *)
Lemma move_within t1 rp t2 :
  t = t1 ++ (tgt, rp) :: t2 -> moved (merged (Some tgt)) (((N, lr) :: t) :: B).
Proof.
  intros Et. destruct first_facts as (Hl & Hh & I1 & HI1 & _ & Hc1 & _ & Hnd).
  pose proof (fun J => indices_first I1 J HI1) as Hind. rewrite Et in *. change ((N, lr) :: t1 ++ (tgt, rp) :: t2) with (((N, lr) :: t1) ++ (tgt, rp) :: t2) in *.
  apply linked_app in Hl as [Hl1 [Hp Hl2]]. rewrite fmap_app, fmap_cons in Hnd. cbn [fst] in Hnd.
  assert (Hnd' : NoDup ((e :: N :: tgt :: t1.*1 ++ t2.*1) ++ I1)).
  { eapply NoDup_Permutation_proper; [|exact Hnd]. solve_Permutation. }
  apply list.NoDup_app in Hnd' as (Hn1 & Hd & _).
  destruct (merge_links (S N) a N lr t1 (Some tgt) tgt rp t2 e) as (M1 & M2 & M3); [done..| | | |].
  - intros i Hi [= <-]. apply NoDup_cons in Hn1 as [X1 Hn1]. apply NoDup_cons in Hn1 as [_ Hn1].
    apply NoDup_cons in Hn1 as [X2 _]. apply elem_of_cons in Hi as [Hi|Hi].
    + apply X1. rewrite Hi. apply elem_of_cons. right. apply elem_of_cons. by left.
    + apply X2. rewrite elem_of_app. by left.
  - apply in_range, elem_of_cons. by left.
  - pose proof (chains_length _ _ _ _ _ Hc) as Hx. rewrite length_I in Hx. cbn in Hx.
    rewrite length_app in Hx. lia.
  - split; [exact (eq_trans M2 Hlen)|]. exists (((tgt, rp) :: (e, lr) :: t1 ++ t2) :: B). split.
    + rewrite <-(Hind (((tgt, rp) :: (e, lr) :: t1 ++ t2).*1 ++ I1)).
      2:{ repeat (rewrite ?fmap_app, ?fmap_cons; cbn). solve_Permutation. }
      apply chains_add.
      * eapply chains_agree; [exact Hc1|]. intros j Hj. apply M3. intros Hx. apply (Hd j); [|done].
        rewrite !elem_of_cons in Hx. rewrite !elem_of_cons, elem_of_app. tauto.
      * apply bucket_intro; [done| |].
        { apply (Hh (tgt, rp)). rewrite elem_of_app, !elem_of_cons. tauto. }
        { intros p Hp'. rewrite elem_of_cons, elem_of_app in Hp'. destruct Hp' as [-> | Hp'].
          - apply (Hh (N, lr)). rewrite elem_of_app, !elem_of_cons. tauto.
          - apply Hh. rewrite elem_of_app, !elem_of_cons. tauto. }
    + cbn [concat]. repeat (rewrite ?fmap_app, ?fmap_cons; cbn). solve_Permutation.
Qed.

(** The cell [tgt] starts another chain. *)
Lemma move_merge rp t2 B2 :
  B = ((tgt, rp) :: t2) :: B2 -> tgt <> e -> moved (merged None) (((N, lr) :: t) :: B).
Proof.
  intros EB Hte. destruct first_facts as (Hl & Hh & I1 & HI1 & _ & Hc1 & _ & Hnd). rewrite EB in *.
  destruct (chains_remove _ _ _ _ _ Hc1) as (Hb2 & I2 & HI2 & Hc2).
  destruct (bucket_inv _ _ _ Hb2) as (b & q & u & [= <- <- <-] & [Hp Hl2] & Hr2 & Hm2).
  rewrite HI2 in Hnd. cbn [fmap list_fmap fst] in Hnd.
  assert (Hnd' : NoDup ((e :: N :: tgt :: t.*1 ++ t2.*1) ++ I2)).
  { eapply NoDup_Permutation_proper; [|exact Hnd]. cbn. solve_Permutation. }
  apply list.NoDup_app in Hnd' as (Hn1 & Hd & _).
  destruct (merge_links (S N) a N lr t None tgt rp t2 e) as (M1 & M2 & M3); [done..| | |].
  - apply in_range, elem_of_cons. by left.
  - pose proof (chains_length _ _ _ _ _ Hc) as Hx. rewrite length_I in Hx. cbn in Hx. lia.
  - split; [exact (eq_trans M2 Hlen)|]. exists (((tgt, rp) :: (e, lr) :: t ++ t2) :: B2). split.
    + rewrite <-(indices_first I1 (((tgt, rp) :: (e, lr) :: t ++ t2).*1 ++ I2)); [|done|].
      2:{ rewrite HI2. repeat (rewrite ?fmap_app, ?fmap_cons; cbn). solve_Permutation. }
      apply chains_add.
      * eapply chains_agree; [exact Hc2|]. intros j Hj. apply M3. intros Hx. apply (Hd j); [|done].
        rewrite !elem_of_cons in Hx. rewrite !elem_of_cons, elem_of_app. tauto.
      * apply bucket_intro; [done|done|]. intros p Hp'. rewrite elem_of_cons, elem_of_app in Hp'.
        destruct Hp' as [-> | [Hp'|Hp']].
        { apply (Hh (N, lr)). apply elem_of_cons. by left. }
        { apply Hh. apply elem_of_cons. by right. }
        { by apply Hm2. }
    + cbn [concat]. repeat (rewrite ?fmap_app, ?fmap_cons; cbn). solve_Permutation.
Qed.

End First.
Lemma moved_perm a' B B' : moved a' B -> B ≡ₚ B' -> moved a' B'.
Proof. intros (Hl & B1 & H1 & H2) HB. split; [done|]. exists B1. by rewrite <-(concat_perm _ _ HB). Qed.

Lemma move_last_inner c1 lr t B :
  chains home a I ((c1 ++ (N, lr) :: t) :: B) -> first_idx c1 None = Some (home lr) -> home lr <> N ->
  moved (move_last h a bl0 bl N e) ((c1 ++ (N, lr) :: t) :: B).
Proof.
  intros Hc Hc1 Hne. assert (HnI := nodup_eI). pose proof HnI as [HeI _]%NoDup_cons.
  assert (Hcell : forall i r, (i, r) ∈ c1 ++ (N, lr) :: t -> i ∈ I /\ data (a !!! i) = r).
  { intros i r Hin. destruct (chains_member home a I ((c1 ++ (N, lr) :: t) :: B) i r) as (Hi & n & Hn); [done| |].
    - cbn [concat]. rewrite elem_of_app. by left.
    - by rewrite (list_lookup_total_correct _ _ _ Hn). }
  destruct (Hcell N lr) as [_ HN]; [rewrite elem_of_app, elem_of_cons; tauto|].
  pose proof (move_inner _ _ _ _ Hc Hc1) as Hm. destruct c1 as [|[g rp] c1]; [done|]. cbn in Hc1. injection Hc1 as ->.
  destruct (Hcell (home lr) rp) as [Hp Hpr]; [cbn; apply elem_of_cons; by left|].
  pose proof (ch_bucket _ _ _ _ Hc) as Hb. apply Forall_cons in Hb as [Hb _].
  destruct (bucket_inv _ _ _ Hb) as (b & q & u & [= <- <- <-] & _ & Hrp & _).
  unfold move_last. rewrite HN.
  change (my_hash_mask (rec_hashnr h lr) bl N) with (home' lr). rewrite (home_same lr) by done.
  rewrite Hpr. change (my_hash_mask (rec_hashnr h rp) bl N) with (home' rp). rewrite (home_same rp) by congruence.
  change (my_hash_mask (rec_hashnr h rp) bl0 (S N)) with (home rp).
  change (my_hash_mask (rec_hashnr h lr) bl0 (S N)) with (home lr).
  rewrite Hrp, Nat.eqb_refl. cbn [negb]. apply Nat.eqb_neq in Hne as ->. cbn [negb].
  destruct (Nat.eqb_spec (home lr) e) as [E|E]; [by rewrite E in Hp|done].
Qed.

Lemma move_last_eq lr rp :
  data (a !!! N) = lr -> home lr = N -> data (a !!! tgt) = rp -> tgt <> e ->
  move_last h a bl0 bl N e =
  if negb (tgt =? home' rp)%nat then
    let a1 := <[e := a !!! tgt]> a in
    movelink (S N) (<[tgt := a1 !!! N]> a1) (Some tgt) (home' rp) (Some e)
  else if (N =? home rp)%nat then merged (Some tgt) else merged None.
Proof.
  intros HN Hlr Hp Hne. unfold move_last, merged. rewrite HN.
  change (my_hash_mask (rec_hashnr h lr) bl N) with (home' lr). rewrite (home_merge lr) by done.
  change (my_hash_mask (rec_hashnr h lr) bl0 (S N)) with (home lr). rewrite Hlr, Hp.
  apply Nat.eqb_neq in Hne as ->. by rewrite Nat.eqb_refl.
Qed.

Lemma move_last_first lr t B :
  chains home a I (((N, lr) :: t) :: B) -> moved (move_last h a bl0 bl N e) (((N, lr) :: t) :: B).
Proof.
  intros Hc. pose proof tgt_lt as Htl. pose proof nodup_eI as [HeI HnI]%NoDup_cons.
  destruct (first_facts lr t B Hc) as (Hl & Hh & I1 & HI1 & Hc1 & _ & Hoth & Hnd).
  pose proof (ch_bucket _ _ _ _ Hc) as Hb. apply Forall_cons in Hb as [Hb _].
  destruct (bucket_inv _ _ _ Hb) as (b & q & u & [= <- <- <-] & _ & Hlr & Hm).
  assert (HN : data (a !!! N) = lr) by (by rewrite (list_lookup_total_correct _ _ _ (proj1 Hl))).
  destruct (decide (tgt = e)) as [Ete|Ete].
  { unfold move_last. rewrite HN. change (my_hash_mask (rec_hashnr h lr) bl N) with (home' lr).
    rewrite (home_merge lr), Ete, Nat.eqb_refl by done. by apply move_empty. }
  assert (Htin : tgt ∈ t.*1 ++ I1).
  { assert (tgt ∈ e :: I) as Hx by (rewrite HI, elem_of_seq; lia). rewrite HI1 in Hx.
    apply elem_of_cons in Hx as [?|Hx]; [done|]. apply elem_of_cons in Hx as [?|Hx]; [lia|done]. }
  apply elem_of_app in Htin as [Ht|Ht].
  - apply list_elem_of_fmap in Ht as ([i rp] & Ei & Ht). cbn in Ei. subst i.
    destruct (linked_elem _ _ _ _ _ (proj2 Hl) Ht) as [nx Hcell].
    rewrite (move_last_eq lr rp) by (done || by rewrite (list_lookup_total_correct _ _ _ Hcell)).
    rewrite (home_merge rp), (Hm _ Ht : home rp = N), !Nat.eqb_refl by (by apply (Hm _ Ht)).
    apply list_elem_of_split in Ht as (t1 & t2 & Et). by eapply move_within.
  - destruct (chains_pick _ _ _ _ _ Hc1 Ht) as (d & rp & B2 & HB & Hc2 & Hbd & Hind & nx & Hcell).
    assert (Hrp : home rp <> N).
    { apply (Hoth tgt). rewrite (concat_perm _ _ HB). cbn [concat]. rewrite elem_of_app. by left. }
    rewrite (move_last_eq lr rp) by (done || by rewrite (list_lookup_total_correct _ _ _ Hcell)).
    rewrite (home_same rp) by done. rewrite HB in Hc. apply (moved_perm _ (((N, lr) :: t) :: d :: B2)); [|by rewrite HB].
    assert (NoDup I1) as HnI1 by (do 2 apply NoDup_cons in Hnd as [_ Hnd]; by apply list.NoDup_app in Hnd as (_ & _ & ?)).
    destruct (chains_nodup _ _ _ _ _ Hc2 HnI1) as [Hnd2 _].
    destruct (bucket_cell _ _ _ _ _ Hbd Hnd2 Hind) as [(E & t2 & ->)|(E & d1 & t2 & -> & Hd1)].
    + rewrite E, Nat.eqb_refl. cbn [negb]. destruct (Nat.eqb_spec N tgt) as [?|_]; [lia|]. by eapply move_merge.
    + destruct (Nat.eqb_spec tgt (home rp)) as [?|_]; [congruence|]. cbn [negb].
      rewrite <-(home_same rp) by done. by eapply move_displace.
Qed.

Lemma move_last_spec B : chains home a I B -> moved (move_last h a bl0 bl N e) B.
Proof.
  intros Hc. pose proof nodup_eI as [HeI HnI]%NoDup_cons.
  assert (HN : N ∈ I).
  { assert (N ∈ e :: I) as [?|?]%elem_of_cons; [rewrite HI, elem_of_seq; lia|done..]. }
  destruct (chains_pick _ _ _ _ _ Hc HN) as (c & lr & B' & HB & Hc' & Hb & Hin & _).
  apply (moved_perm _ (c :: B')); [|by symmetry]. destruct (chains_nodup _ _ _ _ _ Hc' HnI) as [Hnc _].
  destruct (bucket_cell _ _ _ _ _ Hb Hnc Hin) as [(E & t & ->)|(E & c1 & t & -> & Hc1)].
  - by apply move_last_first.
  - by apply move_last_inner.
Qed.

End Last.

(** The search for a record from its bucket. *)
Lemma find_record_chains home a I B r fuel :
  chains home a I B -> NoDup I -> home r ∈ I -> (length I <= fuel)%nat ->
  match find_record fuel a r (home r) None with
  | Some (p, g) => exists c1 t B', B ≡ₚ (c1 ++ (p, r) :: t) :: B' /\ g = fst <$> last c1
  | None => forall i, (i, r) ∉ concat B
  end.
Proof.
  intros Hc Hnd Hr Hf. destruct (chains_pick _ _ _ _ _ Hc Hr) as (c & q & B' & HB & Hc' & Hb & Hin & nx & Hcell).
  destruct (chains_nodup _ _ _ _ _ Hc' Hnd) as [Hnc HcI]. pose proof (chains_length _ _ _ _ _ Hc') as Hlen.
  destruct (bucket_cell _ _ _ _ _ Hb Hnc Hin) as [(E & t & Et)|(E & c1 & t & -> & Hc1)].
  - pose proof (find_record_spec fuel a r c [] (home r) None (proj1 (proj2 Hb)) ltac:(by rewrite Et)
      ltac:(lia) eq_refl) as Hfind.
    destruct (find_record _ _ _ _ _) as [[p g]|].
    + destruct Hfind as (l1 & t1 & Hl & Hg). exists l1, t1, B'. by rewrite <-Hl.
    + intros i Hi. rewrite (concat_perm _ _ HB) in Hi. cbn [concat] in Hi. apply elem_of_app in Hi as [Hi|Hi]; [by apply (Hfind i)|].
      rewrite Et in Hc'. by apply (other_home _ _ _ _ _ _ _ _ _ Hc' Hnd Hi).
  - pose proof (proj1 (proj2 Hb)) as Hl. apply linked_app in Hl as [_ Hl].
    pose proof (find_record_spec fuel a r ((home r, q) :: t) [] (home r) None Hl eq_refl) as Hfind.
    rewrite length_app in Hlen.
    assert (Hno : forall i, (i, r) ∉ concat B).
    { intros i Hi. eapply (not_home _ _ _ _ _ Hc); [|exact Hi|done]. intros r' n' _ Hr'. congruence. }
    destruct (find_record _ _ _ _ _) as [[p g]|]; [|done].
    destruct Hfind as (l1 & t1 & Hl1 & _); [cbn in *; lia|done|]. exfalso. apply (Hno p).
    rewrite (concat_perm _ _ HB). cbn [concat]. rewrite Hl1, !elem_of_app, elem_of_cons. tauto.
Qed.

Lemma unlink_chains home a I c1 p r t B :
  chains home a I ((c1 ++ (p, r) :: t) :: B) -> NoDup I ->
  let '(a', e) := unlink_record a p (fst <$> last c1) in
  exists I' B', e :: I' ≡ₚ I /\ chains home a' I' B' /\
    r :: (concat B').*2 ≡ₚ (concat ((c1 ++ (p, r) :: t) :: B)).*2 /\ length a' = length a /\
    (e = p -> exists n, a' !! e = Some (mk_link n r)).
Proof.
  intros Hc Hnd. destruct (chains_remove _ _ _ _ _ Hc) as ((_ & Hl & Hh) & I1 & HI & Hc1).
  destruct (chains_nodup _ _ _ _ _ Hc Hnd) as [Hnc _].
  pose proof (unlink_record_spec home a c1 p r t Hl Hnc) as Hu.
  destruct (unlink_record _ _ _) as [a' e].
  destruct Hu as (cs & Hcs & Hi & HR & Hlen & Hf & He).
  { intros q Hq. rewrite Forall_forall in Hh. apply Hh. rewrite elem_of_app in *. rewrite elem_of_cons. tauto. }
  cbn [fst snd] in *.
  exists ((concat cs).*1 ++ I1), (cs ++ B). split_and!; [|split| | |].
  - rewrite HI, <-Hi. done.
  - apply Forall_app. split; [done|].
    refine (ch_bucket home a' I1 B _). eapply chains_agree; [exact Hc1|]. intros j Hj. apply Hf. intros Hx.
    rewrite HI in Hnd. apply list.NoDup_app in Hnd as (_ & Hd & _). by apply (Hd j).
  - rewrite concat_app, fmap_app. by rewrite (ch_idx _ _ _ _ Hc1).
  - rewrite concat_app. cbn [concat]. rewrite !fmap_app, HR. repeat (rewrite ?fmap_app, ?fmap_cons; cbn). solve_Permutation.
  - done.
  - done.
Qed.

Lemma chains_take home a I B n :
  chains home a I B -> (forall i, i ∈ I -> (i < n)%nat) -> chains home (take n a) I B.
Proof. intros Hc HI. eapply chains_agree; [exact Hc|]. intros i Hi. apply lookup_take_lt. by apply HI. Qed.

(** Nothing is left to move when the last cell is the free one. *)
Lemma last_free h a bl0 N I B :
  size_ok bl0 (S N) -> N :: I ≡ₚ seq 0 (S N) -> chains (home_of h bl0 (S N)) a I B ->
  chains (home_of h (prev_size bl0 N) N) a (seq 0 N) B.
Proof.
  intros Hsz HI Hc. assert (HI' : I ≡ₚ seq 0 N) by (rewrite seq_snoc in HI; by apply Permutation_cons_inv in HI).
  rewrite <-HI'. eapply chains_home; [exact Hc|]. intros i r Hin.
  destruct (chains_member _ _ _ _ _ _ Hc Hin) as (Hi & _). rewrite HI', elem_of_seq in Hi.
  unfold home_of. rewrite mask_shrink; [|apply rec_hashnr_pos|done|lia].
  assert (Hne : home_of h bl0 (S N) r <> N).
  { eapply (not_home _ _ _ _ _ Hc); [|exact Hin]. intros ? ? HN. rewrite HI', elem_of_seq in HN. lia. }
  apply Nat.eqb_neq in Hne. unfold home_of in Hne. by rewrite Hne.
Qed.

Lemma delete_spec h r :
  wf_hash h ->
  match my_hash_delete h r with
  | (true, freed, h') => h' = h /\ freed = [] /\ r ∉ contents h
  | (false, freed, h') =>
      wf_hash h' /\ r :: contents h' ≡ₚ contents h /\ freed = if has_free h then [r] else []
  end.
Proof.
  intros [B Ht]. pose proof (tb_chains _ _ Ht) as Hc. pose proof (tb_size _ _ Ht) as Hsz.
  unfold my_hash_delete. destruct (Nat.eqb_spec (records h) 0) as [E0|E0].
  { split_and!; [done..|]. unfold contents. pose proof (tb_len _ _ Ht) as Hl. rewrite E0 in Hl.
    apply nil_length_inv in Hl as ->. apply not_elem_of_nil. }
  change (my_hash_mask (rec_hashnr h r) (blength h) (records h)) with (home_of h (blength h) (records h) r).
  assert (Hr : home_of h (blength h) (records h) r ∈ seq 0 (records h)).
  { rewrite elem_of_seq. pose proof (mask_bound (rec_hashnr h r) _ _ Hsz ltac:(lia)). unfold home_of. lia. }
  pose proof (find_record_chains _ _ _ _ r (records h) Hc (NoDup_seq _ _) Hr ltac:(by rewrite length_seq)) as Hfind.
  destruct (find_record _ _ _ _ _) as [[p g]|].
  2:{ split_and!; [done..|]. rewrite <-(table_contents _ _ Ht). intros ([i q] & -> & Hq)%list_elem_of_fmap. by apply (Hfind i). }
  destruct Hfind as (c1 & t & B' & HB & ->). rewrite HB in Hc.
  pose proof (unlink_chains _ _ _ _ _ _ _ _ Hc (NoDup_seq _ _)) as Hu.
  destruct (unlink_record _ _ _) as [a e]. destruct Hu as (I & B2 & HI & Hc2 & HR & Hlen & _).
  destruct (records h) as [|N] eqn:En; [done|]. replace (S N - 1)%nat with N by lia.
  change (if (N <? Nat.div2 (blength h))%nat then Nat.div2 (blength h) else blength h) with (prev_size (blength h) N).
  rewrite (tb_len _ _ Ht), En in Hlen. set (a2 := if (e =? N)%nat then _ else _).
  assert (Hm : moved h (blength h) N a2 B2).
  { unfold a2. destruct (Nat.eqb_spec e N) as [->|Hne]; [|by eapply move_last_spec]. split; [done|].
    exists B2. split; [|done]. by eapply last_free. }
  destruct Hm as (Hl2 & B3 & Hc3 & HR3).
  assert (Ht' : table (set_table h (prev_size (blength h) N) N (take N a2)) B3).
  { split; cbn; [by apply size_ok_shrink|rewrite length_take; lia|].
    apply chains_take; [exact Hc3|]. intros i. rewrite elem_of_seq. lia. }
  split_and!; [by exists B3| |done].
  rewrite <-(table_contents _ _ Ht'), <-(table_contents _ _ Ht), (concat_perm _ _ HB), HR3. done.
Qed.

(** ** Searching *)

(** The record has the key. *)
Definition matches h (key : list Z) (len : nat) r : bool := negb (hashcmp h (mk_link None r) key len).

(** The length 0 is used with keys of constant length. *)
Definition key_ok h (key : list Z) (len : nat) : Prop :=
  (len <> 0 /\ len <= length key)%nat \/
  (len = 0 /\ key_length h <= length key)%nat /\ forall r, length (my_hash_key h r) = key_length h.

Definition key_hash h (key : list Z) (len : nat) : Z :=
  hash_function (take (if (len =? 0)%nat then key_length h else len) key).

Lemma matches_hash h key len r :
  key_ok h key len -> matches h key len r = true -> rec_hashnr h r = key_hash h key len.
Proof.
  unfold matches, hashcmp. cbn [data]. intros Hk Hm. rewrite negb_orb, negb_andb, !negb_involutive in Hm.
  apply andb_true_iff in Hm as [Hl Hs]. apply Z.eqb_eq in Hs. unfold rec_hashnr, key_hash.
  destruct Hk as [[E Hk]|[[E Hk] Hr]].
  - destruct (Nat.eqb_spec len 0) as [?|_]; [done|]. apply Nat.eqb_eq in Hl. rewrite Hl in *.
    apply strnncoll_hash; [|done]. rewrite length_take. lia.
  - rewrite E. cbn. rewrite <-(Hr r). rewrite <-(Hr r) in Hk. apply strnncoll_hash; [|done]. rewrite length_take. lia.
Qed.

Section Key.
Context (h : HASH rec) (key : list Z) (len : nat).
Notation M := (fun p : nat * rec => matches h key len p.2 = true).

Definition found l : option (rec * nat) := (fun p => (p.2, p.1)) <$> head (filter M l).

Lemma found_cons i r l :
  found ((i, r) :: l) = if matches h key len r then Some (r, i) else found l.
Proof.
  unfold found. rewrite filter_cons. cbn [snd]. by destruct (matches h key len r).
Qed.

Lemma found_split l r i :
  found l = Some (r, i) ->
  exists l1 l2, l = l1 ++ (i, r) :: l2 /\ filter M l = (i, r) :: filter M l2.
Proof.
  induction l as [|[j q] l IH]; [done|]. rewrite found_cons, filter_cons. cbn [snd].
  destruct (matches h key len q) eqn:E.
  - intros [= -> ->]. exists [], l. done.
  - intros Hf. destruct (IH Hf) as (l1 & l2 & -> & Hl). exists ((j, q) :: l1), l2. done.
Qed.

Lemma next_loop_chain fuel : forall l,
  linked (array h) l None -> (length l <= fuel)%nat -> next_loop fuel h key len (first_idx l None) = found l.
Proof.
  induction fuel as [|fuel IH]; intros [|[i r] l] Hl Hf; cbn in Hf; [done|lia|done|]. destruct Hl as [Hi Hl].
  cbn [next_loop first_idx]. rewrite (list_lookup_total_correct _ _ _ Hi), found_cons. cbn [data next].
  rewrite IH by (done || lia). done.
Qed.

Lemma first_loop_next fuel idx : first_loop fuel h key len idx false = next_loop fuel h key len (Some idx).
Proof.
  revert idx. induction fuel as [|fuel IH]; intros idx; cbn; [done|].
  destruct (negb _); [done|]. destruct (next _); [apply IH|]. by destruct fuel.
Qed.

(** The records that [my_hash_first] and [my_hash_next] go through, from the
    cells that start at the bucket of the key. *)
Definition visited (b : nat) l : list (nat * rec) :=
  match l with
  | [] => []
  | (_, r) :: _ =>
      if matches h key len r || (home_of h (blength h) (records h) r =? b)%nat then filter M l else []
  end.

Lemma first_loop_chain fuel b l :
  linked (array h) l None -> first_idx l None = Some b -> (length l <= fuel)%nat ->
  first_loop fuel h key len b true = (fun p => (p.2, p.1)) <$> head (visited b l).
Proof.
  intros Hl Hb Hf. destruct l as [|[i r] l]; [done|]. injection Hb as ->. destruct Hl as [Hi Hl].
  destruct fuel as [|fuel]; [cbn in Hf; lia|]. cbn [first_loop visited].
  rewrite (list_lookup_total_correct _ _ _ Hi). cbn [data next].
  change (hashcmp h (mk_link (first_idx l None) r) key len) with (hashcmp h (mk_link None r) key len).
  change (negb (hashcmp h (mk_link None r) key len)) with (matches h key len r).
  change (my_hash_rec_mask h (mk_link (first_idx l None) r) (blength h) (records h)) with (home_of h (blength h) (records h) r).
  rewrite filter_cons. cbn [snd].
  destruct (matches h key len r); cbn [orb andb]; [done|].
  destruct (home_of h (blength h) (records h) r =? b)%nat; cbn [negb]; [|done].
  rewrite decide_False by done.
  destruct l as [|[j q] l]; cbn [first_idx]; [done|].
  rewrite first_loop_next. change (Some j) with (first_idx ((j, q) :: l) None).
  rewrite next_loop_chain; [done|done|cbn in *; lia].
Qed.

Lemma next_chain l1 i r l2 :
  linked (array h) (l1 ++ (i, r) :: l2) None -> (length l2 <= records h)%nat ->
  my_hash_next h key len (Some i) = found l2.
Proof.
  intros Hl Hf. apply linked_app in Hl as [_ [Hi Hl]]. unfold my_hash_next.
  rewrite (list_lookup_total_correct _ _ _ Hi). cbn [next]. by apply next_loop_chain.
Qed.

(** The loop [for (r= my_hash_first(); r; r= my_hash_next())]. *)
Fixpoint all_matches (fuel : nat) (cur : option (rec * nat)) : list rec :=
  match fuel, cur with
  | S fuel, Some (r, i) => r :: all_matches fuel (my_hash_next h key len (Some i))
  | _, _ => []
  end.

Lemma all_matches_chain fuel : forall l0 l,
  linked (array h) (l0 ++ l) None -> (length l <= records h)%nat -> (length l <= fuel)%nat ->
  all_matches fuel (found l) = (filter M l).*2.
Proof.
  induction fuel as [|fuel IH]; intros l0 l Hl Hr Hf; [destruct l; [done|cbn in Hf; lia]|].
  cbn [all_matches]. destruct (found l) as [[r i]|] eqn:E.
  - destruct (found_split _ _ _ E) as (l1 & l2 & -> & ->). rewrite app_assoc in Hl. rewrite length_app in *. cbn in Hr, Hf.
    rewrite (next_chain _ _ _ _ Hl) by lia. rewrite fmap_cons. cbn [snd]. f_equal.
    apply (IH ((l0 ++ l1) ++ [(i, r)])); [by rewrite <-app_assoc|lia..].
  - unfold found in E. by destruct (filter M l).
Qed.

Lemma other_found_chain fuel r : forall l0 l,
  linked (array h) (l0 ++ l) None -> (length l <= records h)%nat -> (length l < fuel)%nat ->
  other_found fuel h r key len (found l) = existsb (fun q => negb (bool_decide (q = r))) (filter M l).*2.
Proof.
  induction fuel as [|fuel IH]; intros l0 l Hl Hr Hf; [lia|].
  cbn [other_found]. destruct (found l) as [[q i]|] eqn:E.
  - destruct (found_split _ _ _ E) as (l1 & l2 & -> & ->). rewrite app_assoc in Hl. rewrite length_app in *. cbn in Hr, Hf.
    rewrite (next_chain _ _ _ _ Hl) by lia. case_decide as Eq.
    + rewrite fmap_cons. cbn [existsb snd]. rewrite bool_decide_eq_true_2 by done. apply (IH ((l0 ++ l1) ++ [(i, q)])); [by rewrite <-app_assoc|lia..].
    + rewrite fmap_cons. cbn [existsb snd]. by rewrite bool_decide_eq_false_2.
  - unfold found in E. by destruct (filter M l).
Qed.

End Key.

Lemma wf_inited h : wf_hash h -> my_hash_inited h = true.
Proof.
  intros [B Ht]. destruct (tb_size _ _ Ht) as (k & Ek & _). unfold my_hash_inited. rewrite Ek.
  destruct (Nat.eqb_spec (2 ^ k) 0) as [E|E]; [|done]. by apply Nat.pow_nonzero in E.
Qed.

(** The chain cells from the bucket of a key on; [home] may differ from the
    buckets of the keys for a record whose key has changed. *)
Lemma first_visits home h B key len :
  size_ok (blength h) (records h) -> chains home (array h) (seq 0 (records h)) B -> records h <> 0%nat ->
  let b := my_hash_mask (key_hash h key len) (blength h) (records h) in
  exists l0 l, (l0 ++ l) ∈ B /\ linked (array h) (l0 ++ l) None /\ first_idx l None = Some b /\
    (length l <= records h)%nat /\
    my_hash_first h key len = (fun p => (p.2, p.1)) <$> head (visited h key len b l).
Proof.
  intros Hsz Hc Hn b. assert (Hb : b ∈ seq 0 (records h)).
  { rewrite elem_of_seq. pose proof (mask_bound (key_hash h key len) _ _ Hsz ltac:(lia)). unfold b. lia. }
  destruct (chains_pick _ _ _ _ _ Hc Hb) as (c & r & B' & HB & Hc' & Hbk & Hin & _).
  apply list_elem_of_split in Hin as (l0 & t & ->). exists l0, ((b, r) :: t).
  pose proof (proj1 (proj2 Hbk)) as Hl. pose proof (chains_length _ _ _ _ _ Hc') as Hlen.
  rewrite length_app, length_seq in Hlen. split_and!; [rewrite HB; apply elem_of_cons; by left|done|done|lia|].
  unfold my_hash_first, my_hash_inited, my_hash_first_from_hash_value. fold (key_hash h key len).
  destruct Hsz as (k & Ek & Hk). destruct (Nat.eqb_spec (blength h) 0) as [E|E]; [lia|]. cbn [negb].
  apply Nat.eqb_neq in Hn as ->. apply first_loop_chain; [by apply linked_app in Hl as [_ ?]|done|lia].
Qed.

Lemma filter_snd h key len l :
  (filter (fun p : nat * rec => matches h key len p.2 = true) l).*2 =
  filter (fun r => matches h key len r = true) (l.*2).
Proof.
  induction l as [|[i r] l IH]; [done|]. rewrite fmap_cons, !filter_cons. cbn [snd].
  repeat case_decide; try done. rewrite fmap_cons. cbn [snd]. by f_equal.
Qed.

(** What is visited are all records with the key. *)
Lemma visited_all h B key len l0 l :
  table h B -> key_ok h key len -> (l0 ++ l) ∈ B -> 
  first_idx l None = Some (my_hash_mask (key_hash h key len) (blength h) (records h)) ->
  visited h key len (my_hash_mask (key_hash h key len) (blength h) (records h)) l ≡ₚ
  filter (fun p => matches h key len p.2 = true) (concat B).
Proof.
  intros Ht Hk HB Hb. set (b := my_hash_mask _ _ _) in *. pose proof (tb_chains _ _ Ht) as Hc.
  assert (Hm : forall r, matches h key len r = true -> home_of h (blength h) (records h) r = b).
  { intros r Hr. unfold home_of. by rewrite (matches_hash _ _ _ _ Hk Hr). }
  apply elem_of_Permutation in HB as [B' HB]. rewrite HB in Hc. pose proof (ch_bucket _ _ _ _ Hc) as Hbk.
  apply Forall_cons in Hbk as [Hbk _]. destruct l as [|[i r] l]; [done|]. injection Hb as ->. cbn [visited].
  destruct (chains_nodup _ _ _ _ _ Hc (NoDup_seq _ _)) as [Hnd _].
  assert (Hin : (b, r) ∈ l0 ++ (b, r) :: l) by (rewrite elem_of_app, elem_of_cons; tauto).
  rewrite (concat_perm _ _ HB). cbn [concat]. rewrite filter_app.
  destruct (bucket_cell _ _ _ _ _ Hbk Hnd Hin) as [(E & t & Et)|(E & d1 & t & Et & Hd1)].
  - assert (l0 = []) as ->.
    { destruct l0 as [|[j q] l0]; [done|]. cbn in Et. injection Et as -> _ _. cbn in Hnd. apply NoDup_cons in Hnd as [Hx _].
      destruct Hx. rewrite fmap_app, elem_of_app. right. cbn. apply elem_of_cons. by left. }
    rewrite E, Nat.eqb_refl, orb_true_r. cbn [app].
    rewrite (filter_none _ (concat B')); [by rewrite app_nil_r|]. intros [j q] Hq Hx%Hm.
    by apply (other_home _ _ _ _ _ _ _ _ _ Hc (NoDup_seq _ _) Hq).
  - destruct (matches h key len r) eqn:Er; [by destruct E; apply Hm|]. apply Nat.eqb_neq in E as E'. rewrite E'.
    cbn [orb]. rewrite <-filter_app, filter_none; [done|]. intros [j q] Hq Hx%Hm. cbn in Hx.
    destruct (chains_member _ _ _ _ b r Hc) as (_ & nx & Hcell); [cbn [concat]; rewrite elem_of_app; by left|].
    eapply (not_home _ _ _ _ b Hc); [|exact Hq|done]. intros r' n' _ Hr'. congruence.
Qed.

Lemma search_all h key len :
  wf_hash h -> key_ok h key len ->
  all_matches h key len (records h) (my_hash_first h key len) ≡ₚ
  filter (fun r => matches h key len r = true) (contents h).
Proof.
  intros [B Ht] Hk. pose proof (tb_chains _ _ Ht) as Hc. rewrite <-(table_contents _ _ Ht).
  destruct (decide (records h = 0%nat)) as [E|E].
  { rewrite E in Hc |- *. cbn. destruct (concat B) as [|[i r] l] eqn:EB; [done|].
    pose proof (ch_idx _ _ _ _ Hc) as Hi. rewrite EB in Hi. by apply Permutation_nil_r in Hi. }
  destruct (first_visits _ h B key len (tb_size _ _ Ht) Hc E) as (l0 & l & HB & Hl & Hb & Hlen & ->).
  pose proof (visited_all _ _ _ _ _ _ Ht Hk HB Hb) as Hv. rewrite <-filter_snd, <-Hv.
  set (b := my_hash_mask _ _ _) in *. destruct l as [|[i r] l]; [done|]. cbn [visited].
  destruct (_ || _); [|by destruct (records h)].
  change ((fun p => (p.2, p.1)) <$> head (filter (fun p => matches h key len p.2 = true) ((i, r) :: l))) with (found h key len ((i, r) :: l)).
  by rewrite (all_matches_chain h key len _ l0).
Qed.

Lemma search_first h key len :
  wf_hash h -> key_ok h key len ->
  match my_hash_search h key len with
  | Some r => r ∈ contents h /\ matches h key len r = true
  | None => forall r, r ∈ contents h -> matches h key len r = false
  end.
Proof.
  intros Hwf Hk. pose proof (search_all h key len Hwf Hk) as Hs. unfold my_hash_search.
  destruct (my_hash_first h key len) as [[r i]|] eqn:E; cbn [fmap option_fmap option_map fst].
  - assert (r ∈ filter (fun r => matches h key len r = true) (contents h)) as Hr.
    { rewrite <-Hs. destruct (records h) as [|n] eqn:En; [|cbn [all_matches]; apply elem_of_cons; by left].
      unfold my_hash_first, my_hash_first_from_hash_value in E. rewrite En in E. by destruct (my_hash_inited h). }
    apply list_elem_of_filter in Hr as [? ?]. done.
  - intros r Hr. destruct (matches h key len r) eqn:Em; [|done].
    assert (r ∈ filter (fun r => matches h key len r = true) (contents h)) as Hx by (by apply list_elem_of_filter).
    rewrite <-Hs in Hx. destruct (records h); by apply elem_of_nil in Hx.
Qed.

(** The memory after the key of a record does not matter when the key is not
    empty, or when all keys are. *)
Lemma key_memory_prefix h r : take (length (my_hash_key h r)) (key_memory h r) = my_hash_key h r.
Proof.
  unfold my_hash_key, key_memory. destruct get_key as [f|]; [by rewrite take_app_length|].
  set (m := drop _ _). rewrite length_take. destruct (Nat.le_ge_cases (key_length h) (length m)) as [H|H].
  - by rewrite Nat.min_l.
  - rewrite Nat.min_r by done. by rewrite !take_ge.
Qed.

Lemma key_memory_ok h r :
  let key := my_hash_key h r in
  key_ok h key (length key) ->
  key_ok h (key_memory h r) (length key) /\
  forall q, matches h (key_memory h r) (length key) q = matches h key (length key) q.
Proof.
  intros key Hk. pose proof (key_memory_prefix h r) as Hp. fold key in Hp.
  assert (Hl : (length key <= length (key_memory h r))%nat).
  { rewrite <- Hp, length_take. lia. }
  destruct Hk as [[H0 _]|[[H0 Hk] Hq]].
  - split; [left; lia|]. intros q. unfold matches, hashcmp. cbn [data].
    destruct (Nat.eqb_spec (length key) 0) as [?|_]; [done|].
    destruct (Nat.eqb_spec (length key) (length (my_hash_key h q))) as [E|_]; [|done].
    by rewrite <- E, Hp, (take_ge key).
  - split; [right; split; [lia|done]|]. intros q. unfold matches, hashcmp. cbn [data].
    assert (E : length (my_hash_key h q) = 0%nat) by (specialize (Hq q); lia). by rewrite E.
Qed.

Lemma insert_spec mem h r :
  wf_hash h -> key_ok h (my_hash_key h r) (length (my_hash_key h r)) ->
  let unique := has_flag (flags h) HASH_UNIQUE in
  let same q := matches h (my_hash_key h r) (length (my_hash_key h r)) q = true in
  match my_hash_insert mem h r with
  | (true, h') => h' = h /\ (mem = false \/ unique = true /\ exists q, q ∈ contents h /\ same q)
  | (false, h') =>
      mem = true /\ (unique = true -> forall q, q ∈ contents h -> ~ same q) /\
      wf_hash h' /\ contents h' ≡ₚ r :: contents h
  end.
Proof.
  intros Hwf Hk unique same. pose proof (insert_wf h r Hwf) as Hi. unfold my_hash_insert. cbv zeta. fold unique.
  destruct (key_memory_ok h r Hk) as [Hk' Hm].
  pose proof (search_first h (key_memory h r) (length (my_hash_key h r)) Hwf Hk') as Hs.
  destruct (unique && _) eqn:Eu.
  { apply andb_true_iff in Eu as [Hu Ef]. apply bool_decide_eq_true in Ef as [q Hq]. rewrite Hq, Hm in Hs.
    split; [done|]. right. split; [done|]. by exists q. }
  destruct mem; cbn [negb]; [|by split; [|left]].
  destruct (split_bucket _ _) as [a e]. destruct Hi as [Hi1 Hi2]. split_and!; [done| |done|done].
  intros Hu q Hq Hx. rewrite Hu in Eu. cbn [andb] in Eu. apply bool_decide_eq_false in Eu.
  destruct (my_hash_search h _ _) as [q'|]; [by destruct Eu|]. unfold same in Hx. by rewrite <- Hm, (Hs q Hq) in Hx.
Qed.

(** ** Changing a key *)

(** The buckets before the key of [r] changed; [oh] is the old hash value. *)
Definition old_home h r (oh : Z) (q : rec) : nat :=
  if decide (q = r) then my_hash_mask oh (blength h) (records h) else home_of h (blength h) (records h) q.

Section Relink.
Context (h : HASH rec) (a : list (HASH_LINK rec)) (e : nat) (I : list nat) (r : rec) (n0 : option nat) (p : nat).
Context (HI : e :: I ≡ₚ seq 0 (records h)) (Hlen : length a = records h).
Notation home := (home_of h (blength h) (records h)).

Definition relinked B (a' : list (HASH_LINK rec)) : Prop :=
  length a' = records h /\
  exists B', chains home a' (seq 0 (records h)) B' /\ (concat B').*2 ≡ₚ r :: (concat B).*2.

Lemma relink_nodup : NoDup (e :: I).
Proof. rewrite HI. apply NoDup_seq. Qed.

Lemma relink_range : (e < length a)%nat.
Proof. assert (e ∈ e :: I) as Hx by (apply elem_of_cons; by left). rewrite HI, elem_of_seq in Hx. lia. Qed.

(** The free cell is the record's bucket. *)
Lemma relink_free B :
  chains home a I B -> home r = e -> (e = p -> exists n, a !! e = Some (mk_link n r)) ->
  relinked B (relink h a (mk_link n0 r) p e (home r)).
Proof.
  intros Hc E Hp. pose proof relink_nodup as [HeI _]%NoDup_cons. pose proof relink_range as He.
  unfold relink. rewrite E, Nat.eqb_refl. set (a1 := if negb (e =? p)%nat then _ else _).
  assert (Ha1 : length a1 = length a /\ (forall j, j <> e -> a1 !! j = a !! j) /\ exists n, a1 !! e = Some (mk_link n r)).
  { unfold a1. destruct (Nat.eqb_spec e p) as [Ep|Ep]; cbn [negb]; [by split_and!; [..|apply Hp]|].
    split_and!; [apply length_insert|intros j Hj; by apply list_lookup_insert_ne|].
    exists n0. by apply list_lookup_insert_eq. }
  destruct Ha1 as (L1 & F1 & n & C1). unfold set_next. rewrite (list_lookup_total_correct _ _ _ C1). cbn [data].
  split; [by rewrite length_insert, L1|]. exists ([(e, r)] :: B). split; [|done].
  rewrite <-HI. apply (chains_add home _ I [(e, r)]).
  - apply chains_insert; [|done]. eapply chains_agree; [exact Hc|]. intros i Hi. apply F1. by intros ->.
  - apply bucket_one; [|done]. apply list_lookup_insert_eq. by rewrite L1.
Qed.

(** The bucket has a chain: the record is put second. *)
Lemma relink_second q t B :
  chains home a I (((home r, q) :: t) :: B) -> home r <> e ->
  relinked (((home r, q) :: t) :: B) (relink h a (mk_link n0 r) p e (home r)).
Proof.
  intros Hc E. pose proof relink_nodup as HndI. pose proof relink_range as He.
  destruct (chains_remove _ _ _ _ _ Hc) as (Hb & I' & HI' & Hc2).
  destruct (bucket_inv _ _ _ Hb) as (b & q' & u & [= <- <- <-] & [Hi Hl] & Eq & Hm).
  rewrite HI' in HndI. cbn in HndI. apply NoDup_cons in HndI as [He1 HndI]. apply NoDup_cons in HndI as [Hi1 _].
  apply not_elem_of_cons in He1 as [_ He1]. apply not_elem_of_app in He1 as [He1 He2], Hi1 as [Hi1 Hi2].
  unfold relink. pose proof E as ->%Nat.eqb_neq. rewrite (list_lookup_total_correct _ _ _ Hi).
  unfold my_hash_rec_mask. cbn [data next]. fold (home_of h (blength h) (records h) q). rewrite Eq, Nat.eqb_refl. cbn [negb].
  unfold set_next. rewrite list_lookup_total_insert_ne, (list_lookup_total_correct _ _ _ Hi) by congruence. cbn [data].
  split; [by rewrite !length_insert|]. exists (((home r, q) :: (e, r) :: t) :: B). split; [|cbn; solve_Permutation].
  rewrite <-HI, HI'. assert (e :: ((home r, q) :: t).*1 ++ I' ≡ₚ ((home r, q) :: (e, r) :: t).*1 ++ I') as ->
    by (cbn; solve_Permutation).
  apply chains_add; [by apply chains_insert; [apply chains_insert|]|].
  apply bucket_second; try done.
  - apply list_lookup_insert_eq. rewrite length_insert. by apply lookup_lt_Some in Hi.
  - rewrite list_lookup_insert_ne by congruence. by apply list_lookup_insert_eq.
  - apply linked_insert; [done|]. by apply linked_insert.
Qed.

(** The cell of the bucket holds another bucket's record, which makes way. *)
Lemma relink_displaced d1 q t B :
  chains home a I ((d1 ++ (home r, q) :: t) :: B) -> first_idx d1 None = Some (home q) ->
  home q <> home r -> home r <> e ->
  relinked ((d1 ++ (home r, q) :: t) :: B) (relink h a (mk_link n0 r) p e (home r)).
Proof.
  intros Hc Hd1 Eq E. pose proof relink_nodup as HndI. pose proof relink_range as He.
  pose proof HndI as [HeI _]%NoDup_cons. pose proof (chains_length _ _ _ _ _ Hc) as Hlc. rewrite length_app in Hlc.
  apply Permutation_length in HI as HIl. rewrite length_seq in HIl. cbn in HIl.
  destruct (chains_member _ _ _ _ (home r) q Hc) as (_ & nx & Hcell);
    [cbn [concat]; rewrite !elem_of_app, elem_of_cons; tauto|].
  unfold relink. apply Nat.eqb_neq in E as ->. rewrite (list_lookup_total_correct _ _ _ Hcell).
  unfold my_hash_rec_mask. cbn [data next]. fold (home_of h (blength h) (records h) q).
  destruct (Nat.eqb_spec (home r) (home q)) as [?|_]; [congruence|]. cbn [negb].
  destruct (displaced_chains home a (<[e := mk_link nx q]> a) I d1 (home r) q t B e (home q) (records h))
    as (I' & HI' & Hc2 & Hl2 & _); [done..| | |lia|].
  - intros j Hj _. apply list_lookup_insert_ne. by intros ->.
  - by rewrite list_lookup_insert_eq.
  - assert (HnI' : NoDup (home r :: I')) by (by rewrite HI'). apply NoDup_cons in HnI' as [Hri _].
    split; [by rewrite length_insert, Hl2, length_insert|].
    exists ([(home r, r)] :: (d1 ++ (e, q) :: t) :: B). split.
    + rewrite <-HI, <-HI'. apply (chains_add home _ I' [(home r, r)]); [by apply chains_insert|].
      apply bucket_one; [|done]. apply list_lookup_insert_eq. rewrite Hl2, length_insert. by apply lookup_lt_Some in Hcell.
    + cbn [concat]. repeat (rewrite ?fmap_app, ?fmap_cons; cbn). solve_Permutation.
Qed.

Lemma relink_spec B :
  chains home a I B -> size_ok (blength h) (records h) ->
  (e = p -> exists n, a !! e = Some (mk_link n r)) ->
  relinked B (relink h a (mk_link n0 r) p e (home r)).
Proof.
  intros Hc Hsz Hp. destruct (decide (home r = e)) as [E|E]; [by apply relink_free|].
  pose proof relink_nodup as [_ HnI]%NoDup_cons. pose proof relink_range as He.
  assert (Hni : home r ∈ I).
  { assert (home r ∈ e :: I) as [?|?]%elem_of_cons; [|done..]. rewrite HI, elem_of_seq.
    pose proof (mask_bound (rec_hashnr h r) _ _ Hsz ltac:(lia)). unfold home_of. lia. }
  destruct (chains_pick _ _ _ _ _ Hc Hni) as (c & q & B' & HB & Hc' & Hb & Hin & _).
  destruct (chains_nodup _ _ _ _ _ Hc' HnI) as [Hnc _].
  assert (Hr : relinked (c :: B') (relink h a (mk_link n0 r) p e (home r))).
  { destruct (bucket_cell _ _ _ _ _ Hb Hnc Hin) as [(Eq & t & ->)|(Eq & d1 & t & -> & Hd1)].
    - by apply relink_second.
    - by apply relink_displaced. }
  destruct Hr as (H1 & B2 & H2 & H3). split; [done|]. exists B2. by rewrite H3, (concat_perm _ _ HB).
Qed.

End Relink.

Section Changed.
Context (h : HASH rec) (r : rec) (oh : Z) (B : list (list (nat * rec))).
Context (Hsz : size_ok (blength h) (records h)) (Hlen : length (array h) = records h).
Context (Hc : chains (old_home h r oh) (array h) (seq 0 (records h)) B).
Notation home := (home_of h (blength h) (records h)).

Lemma changed_contents : (concat B).*2 ≡ₚ contents h.
Proof. apply (chains_contents (old_home h r oh)). by rewrite Hlen. Qed.

Lemma old_home_other q : q <> r -> old_home h r oh q = home q.
Proof. intros Hq. unfold old_home. by rewrite decide_False. Qed.

(** The test for another record with the new key. *)
Lemma other_found_spec key len :
  key_ok h key len -> home r = my_hash_mask (key_hash h key len) (blength h) (records h) -> records h <> 0%nat ->
  other_found (S (records h)) h r key len (my_hash_first h key len) = true <->
  exists q, q ∈ contents h /\ q <> r /\ matches h key len q = true.
Proof.
  intros Hk Hr Hn. destruct (first_visits _ h B key len Hsz Hc Hn) as (l0 & l & HB & Hl & Hb & Hll & ->).
  set (b := my_hash_mask _ _ _) in *.
  assert (Hm : forall q, matches h key len q = true -> home q = b).
  { intros q Hq. unfold home_of. by rewrite (matches_hash _ _ _ _ Hk Hq). }
  destruct l as [|[i x] l]; [done|]. injection Hb as ->.
  assert (Hcell : (b, x) ∈ concat B). { apply elem_of_concat. eexists. split; [exact HB|]. rewrite elem_of_app, elem_of_cons. tauto. }
  destruct (chains_member _ _ _ _ _ _ Hc Hcell) as (_ & nx & Hx).
  assert (Hin : forall q, q ∈ contents h -> q <> r -> matches h key len q = true ->
    home x = b /\ q ∈ (filter (fun p => matches h key len p.2 = true) ((b, x) :: l)).*2).
  { intros q Hq Hqr Hmq. rewrite <-changed_contents in Hq. apply list_elem_of_fmap in Hq as ([j q'] & E & Hq). cbn in E. subst q'.
    assert (Hqb : old_home h r oh q = b) by (rewrite old_home_other by done; by apply Hm).
    apply elem_of_Permutation in HB as [B' HB]. rewrite HB in Hc. rewrite (concat_perm _ _ HB) in Hq.
    destruct (chains_nodup _ _ _ _ _ Hc (NoDup_seq _ _)) as [Hnd _].
    pose proof (ch_bucket _ _ _ _ Hc) as Hbk. apply Forall_cons in Hbk as [Hbk _].
    assert (Hbx : (b, x) ∈ l0 ++ (b, x) :: l) by (rewrite elem_of_app, elem_of_cons; tauto).
    destruct (bucket_cell _ _ _ _ _ Hbk Hnd Hbx) as [(E & t & Et)|(E & _)].
    - rewrite Et in Hc, Hq. cbn [concat] in Hq. apply elem_of_app in Hq as [Hq|Hq].
      2:{ by destruct (other_home _ _ _ _ _ _ _ _ _ Hc (NoDup_seq _ _) Hq). }
      split; [destruct (decide (x = r)) as [->|Hxr]; [done|by rewrite <-old_home_other]|].
      apply list_elem_of_fmap. exists (j, q). split; [done|]. apply list_elem_of_filter. split; [done|].
      destruct l0 as [|[k y] l0]; [cbn in Et; by rewrite Et|]. cbn in Et. injection Et as -> _ _.
      cbn in Hnd. apply NoDup_cons in Hnd as [Hx' _]. destruct Hx'. rewrite fmap_app, elem_of_app. right. cbn. apply elem_of_cons. by left.
    - exfalso. refine (not_home _ _ _ _ b Hc _ j q _ Hqb); [|done]. intros r' n' _ Hr'. congruence. }
  cbn [visited]. destruct (matches h key len x || (home x =? b)%nat) eqn:Eg.
  - change ((fun p => (p.2, p.1)) <$> head (filter (fun p => matches h key len p.2 = true) ((b, x) :: l)))
      with (found h key len ((b, x) :: l)).
    rewrite (other_found_chain h key len _ r l0) by (done || lia). rewrite existsb_exists. split.
    + intros (q & Hq%list_elem_of_In & Hqr). exists q. apply list_elem_of_fmap in Hq as ([j q'] & E & Hq). cbn in E. subst q'.
      apply list_elem_of_filter in Hq as [Hmq Hq]. split_and!; [|by apply negb_true_iff, bool_decide_eq_false in Hqr|done].
      rewrite <-changed_contents. apply list_elem_of_fmap. exists (j, q). split; [done|]. apply elem_of_concat.
      eexists. split; [exact HB|]. rewrite elem_of_app. by right.
    + intros (q & Hq & Hqr & Hmq). exists q. split; [by apply list_elem_of_In, Hin|]. by rewrite bool_decide_eq_false_2.
  - split; [done|]. intros (q & Hq & Hqr & Hmq). destruct (Hin q Hq Hqr Hmq) as [E%Nat.eqb_eq _].
    rewrite E, orb_true_r in Eg. done.
Qed.

Lemma update_spec old_key old_len :
  let new_key := my_hash_key h r in
  let other := exists q, q ∈ contents h /\ q <> r /\ matches h new_key (length new_key) q = true in
  oh = key_hash h old_key old_len -> new_key <> [] -> r ∈ contents h -> NoDup (contents h) ->
  match my_hash_update h r old_key old_len with
  | (true, h') => h' = h /\ has_flag (flags h) HASH_UNIQUE = true /\ other
  | (false, h') =>
      wf_hash h' /\ contents h' ≡ₚ contents h /\ (has_flag (flags h) HASH_UNIQUE = true -> ~ other)
  end.
Proof.
  intros new_key other Hoh Hk Hr Hnd.
  assert (Hn : records h <> 0%nat).
  { intros E. rewrite E in Hlen. apply nil_length_inv in Hlen. unfold contents in Hr. rewrite Hlen in Hr.
    by apply elem_of_nil in Hr. }
  assert (Hko : key_ok h new_key (length new_key)) by (left; by destruct new_key).
  destruct (key_memory_ok h r Hko) as [Hko' Hm]. fold new_key in Hko', Hm.
  assert (Hkh : key_hash h (key_memory h r) (length new_key) = rec_hashnr h r).
  { unfold key_hash. destruct (Nat.eqb_spec (length new_key) 0) as [E|E]; [by destruct new_key|].
    unfold new_key. by rewrite key_memory_prefix. }
  pose proof (other_found_spec (key_memory h r) (length new_key) Hko') as Hof.
  rewrite Hkh in Hof. specialize (Hof eq_refl Hn). setoid_rewrite Hm in Hof. fold other in Hof.
  unfold my_hash_update. fold new_key. destruct (has_flag (flags h) HASH_UNIQUE && _) eqn:Eu.
  { apply andb_true_iff in Eu as [Hu Ho]. split_and!; [done..|]. by apply Hof. }
  assert (Hno : has_flag (flags h) HASH_UNIQUE = true -> ~ other).
  { intros Hu Ho%Hof. rewrite Hu, Ho in Eu. done. }
  fold (key_hash h old_key old_len). rewrite <-Hoh.
  assert (Hor : old_home h r oh r = my_hash_mask oh (blength h) (records h)) by (unfold old_home; by rewrite decide_True).
  change (my_hash_mask (rec_hashnr h r) (blength h) (records h)) with (home r). rewrite <-Hor.
  destruct (Nat.eqb_spec (old_home h r oh r) (home r)) as [E|E].
  { split_and!; [|done..]. exists B. split; [done..|]. eapply chains_home; [exact Hc|]. intros i q _.
    destruct (decide (q = r)) as [->|Hq]; [done|by rewrite old_home_other]. }
  assert (Hrin : old_home h r oh r ∈ seq 0 (records h)).
  { rewrite elem_of_seq, Hor. pose proof (mask_bound oh _ _ Hsz ltac:(lia)). lia. }
  pose proof (find_record_chains _ _ _ _ r (records h) Hc (NoDup_seq _ _) Hrin ltac:(by rewrite length_seq)) as Hfind.
  rewrite <-changed_contents in Hr. apply list_elem_of_fmap in Hr as ([i q] & Eq & Hiq). cbn in Eq. subst q.
  destruct (find_record _ _ _ _ _) as [[p g]|]; [|by destruct (Hfind i)].
  destruct Hfind as (c1 & t & B' & HB & ->). pose proof changed_contents as HR0. rewrite HB in Hc. rewrite (concat_perm _ _ HB) in HR0.
  pose proof (unlink_chains _ _ _ _ _ _ _ _ Hc (NoDup_seq _ _)) as Hu.
  assert (Hp : data (array h !!! p) = r).
  { destruct (chains_member _ _ _ _ p r Hc) as (_ & n & Hpn); [cbn [concat]; rewrite !elem_of_app, elem_of_cons; tauto|].
    by rewrite (list_lookup_total_correct _ _ _ Hpn). }
  destruct (unlink_record _ _ _) as [a e]. destruct Hu as (I & B2 & HI & Hc2 & HR & Hla & He).
  assert (Hnr : forall j q, (j, q) ∈ concat B2 -> q <> r).
  { intros j q Hq ->. rewrite <-HR0, <-HR in Hnd. apply NoDup_cons in Hnd as [Hx _]. apply Hx. apply list_elem_of_fmap. by exists (j, r). }
  assert (Hc3 : chains home a I B2).
  { eapply chains_home; [exact Hc2|]. intros j q Hq. symmetry. apply old_home_other. by apply (Hnr j). }
  destruct (array h !!! p) as [n0 r0]. cbn in Hp. subst r0.
  destruct (relink_spec h a e I r n0 p HI ltac:(by rewrite Hla) B2 Hc3 Hsz He) as (Hl4 & B4 & Hc4 & HR4).
  assert (Ht' : table (set_table h (blength h) (records h) (relink h a (mk_link n0 r) p e (home r))) B4) by (by split).
  split_and!; [by exists B4| |done]. rewrite <-(table_contents _ _ Ht'), HR4, HR, HR0. done.
Qed.
End Changed.

End Ops.
