(* ===== verification/HashMap.v ===== *)
(** * Hash tables as multisets and as finite maps

    The properties of the tables of HashTable, proved with the lemmas of
    HashOps: searching, inserting, deleting and changing a key, and the
    refinement of a finite map by a table with unique keys. *)
From Stdlib Require Import ZArith Lia List Bool.
From stdpp Require Import base tactics list gmap.
From S2P Require Import Prelude HashTable HashChains HashOps.

Open Scope Z_scope.

(** ** Keys under the binary character set *)

Lemma my_strnncoll_binary_eq k k' :
  length k = length k' -> my_strnncoll_binary k k' false = 0 <-> k = k'.
Proof.
  intros Hl. unfold my_strnncoll_binary. rewrite <-Hl, Nat.min_id. split.
  - destruct (Z.eqb_spec (memcmp k k' (length k)) 0) as [E|E]; [|done]. intros _.
    apply memcmp_zero in E as [E|E]; [|lia]. by rewrite firstn_all, Hl, firstn_all in E.
  - intros ->. rewrite memcmp_refl, Z.eqb_refl, Z.sub_diag. done.
Qed.

(** Tables whose keys are read by a callback and compared as bytes. *)
Definition bin_keys {rec} (key : rec -> list Z) : HashKeys rec.
Proof.
  refine {| get_key := Some key; key_tail := fun _ => []; rec_mem := fun _ => []; hash_function := my_hash_sort;
            strnncoll := fun k k' => my_strnncoll_binary k k' false |}.
  - intros k. unfold my_hash_sort, is_u32, u32. apply Z.mod_pos_bound. lia.
  - intros k k' Hl E. by apply my_strnncoll_binary_eq in E as ->.
Defined.

(** The elements by index are the contents. *)
Lemma hash_elements_contents {rec} `{!EqDecision rec} `{!Inhabited rec} `{!HashKeys rec} (h : HASH rec) :
  wf_hash h -> omap (my_hash_element h) (seq 0 (records h)) = contents h.
Proof.
  intros [B Ht]. pose proof (tb_len _ _ Ht) as Hl. unfold contents.
  assert (Hx : forall n, (n <= records h)%nat ->
    omap (my_hash_element h) (seq 0 n) = map data (take n (array h))).
  { induction n as [|n IH]; intros Hn; [done|]. rewrite seq_S, omap_app, IH by lia.
    destruct (lookup_lt_is_Some_2 (array h) n) as [x Hx]; [lia|].
    rewrite (take_S_r _ _ _ Hx). change (map data) with (fmap (M := list) (@data rec)). rewrite fmap_app.
    f_equal. cbn. unfold my_hash_element. destruct (Nat.ltb_spec n (records h)); [|lia].
    by rewrite (list_lookup_total_correct _ _ _ Hx). }
  rewrite Hx by done. by rewrite take_ge by lia.
Qed.

Section Multiset.
Context {rec : Type} `{!EqDecision rec} `{!Inhabited rec} `{!HashKeys rec}.
Implicit Types (h : HASH rec) (r q : rec).

(** Searching is complete: the loop over [my_hash_first] and [my_hash_next]
    comes to an end and gives every record with the key once, and no other;
    [my_hash_search] finds one when there is one. *)
Theorem hash_search_complete h key len :
  wf_hash h -> key_ok h key len ->
  all_matches h key len (records h) (my_hash_first h key len) ≡ₚ
    filter (fun r => matches h key len r = true) (contents h) /\
  match my_hash_search h key len with
  | Some r => r ∈ contents h /\ matches h key len r = true
  | None => forall r, r ∈ contents h -> matches h key len r = false
  end.
Proof. intros Hwf Hk. split; [by apply search_all|by apply search_first]. Qed.

(** Inserting adds exactly the new record and keeps the table well formed,
    whichever way the bucket splits; it fails, and changes nothing, when memory
    is short or the table has unique keys and the key is there. *)
Theorem hash_insert_correct mem h r :
  wf_hash h -> key_ok h (my_hash_key h r) (length (my_hash_key h r)) ->
  let unique := has_flag (flags h) HASH_UNIQUE in
  let same q := matches h (my_hash_key h r) (length (my_hash_key h r)) q = true in
  match my_hash_insert mem h r with
  | (true, h') => h' = h /\ (mem = false \/ unique = true /\ exists q, q ∈ contents h /\ same q)
  | (false, h') =>
      mem = true /\ (unique = true -> forall q, q ∈ contents h -> ~ same q) /\
      wf_hash h' /\ contents h' ≡ₚ r :: contents h
  end.
Proof. apply insert_spec. Qed.

(** Deleting takes exactly one occurrence of the record out, gives it to the
    [free] function, and keeps the table well formed, whichever way the buckets
    merge; it fails, and changes nothing, exactly when the record is not there. *)
Theorem hash_delete_correct h r :
  wf_hash h ->
  match my_hash_delete h r with
  | (true, freed, h') => h' = h /\ freed = [] /\ r ∉ contents h
  | (false, freed, h') =>
      wf_hash h' /\ r :: contents h' ≡ₚ contents h /\ freed = if has_free h then [r] else []
  end.
Proof. apply delete_spec. Qed.

(** C25: After the key of a record was changed in place, [my_hash_update] with the
    old key makes the table well formed again with the same records; it fails,
    and changes nothing, exactly when the table has unique keys and another
    record has the new key. *)
Theorem hash_update_correct h r old_key old_len B :
  let new_key := my_hash_key h r in
  let other := exists q, q ∈ contents h /\ q <> r /\ matches h new_key (length new_key) q = true in
  size_ok (blength h) (records h) -> length (array h) = records h ->
  chains (old_home h r (key_hash h old_key old_len)) (array h) (seq 0 (records h)) B ->
  new_key <> [] -> r ∈ contents h -> NoDup (contents h) ->
  match my_hash_update h r old_key old_len with
  | (true, h') => h' = h /\ has_flag (flags h) HASH_UNIQUE = true /\ other
  | (false, h') =>
      wf_hash h' /\ contents h' ≡ₚ contents h /\ (has_flag (flags h) HASH_UNIQUE = true -> ~ other)
  end.
Proof. intros new_key other Hs Hl Hc Hk Hr Hn. by eapply update_spec. Qed.

End Multiset.

(** ** A table with unique keys is a map

    The keys are read by the callback or at [key_offset] ([ko], [kl]: offset and
    length), and compared by any collation; [class] gives the same value for two
    keys exactly when they have the same length and the collation takes them as
    equal. *)

Section Map.
Context {rec : Type} `{!EqDecision rec} `{!Inhabited rec} `{HK : !HashKeys rec} {K : Type} `{!EqDecision K} `{!Countable K}.
Context (ko kl : nat) (class : list Z -> K).
Context (class_eq : forall k k', k <> [] -> k' <> [] ->
  class k = class k' <-> length k = length k' /\ strnncoll k k' = 0).
Implicit Types (m : gmap K rec) (r : rec).

Definition key_bytes r : list Z := my_hash_key (my_hash_init2 ko kl false 0) r.
Definition key_of r : K := class (key_bytes r).

(** The table [h] holds the records of the map [m]. *)
Definition represents (h : HASH rec) m : Prop :=
  wf_hash h /\ (has_flag (flags h) HASH_UNIQUE = true /\ key_offset h = ko /\ key_length h = kl) /\
  contents h ≡ₚ (map_to_list m).*2 /\ map_Forall (fun k r => key_bytes r <> [] /\ key_of r = k) m.

Inductive hash_op := Insert (mem : bool) (r : rec) | Delete (r : rec) | Search (key : list Z).
Inductive hash_result := Status (err : bool) | Found (r : option rec).

Definition op_ok (op : hash_op) : Prop :=
  match op with Insert _ r => key_bytes r <> [] | Delete r => True | Search key => key <> [] end.

Definition run_hash (h : HASH rec) (op : hash_op) : hash_result * HASH rec :=
  match op with
  | Insert mem r => let '(err, h) := my_hash_insert mem h r in (Status err, h)
  | Delete r => let '(err, _, h) := my_hash_delete h r in (Status err, h)
  | Search key => (Found (my_hash_search h key (length key)), h)
  end.

(** The same operations on a map. *)
Definition run_map m (op : hash_op) : hash_result * gmap K rec :=
  match op with
  | Insert mem r =>
      if bool_decide (is_Some (m !! key_of r)) || negb mem then (Status true, m)
      else (Status false, <[key_of r := r]> m)
  | Delete r =>
      if bool_decide (m !! key_of r = Some r) then (Status false, delete (key_of r) m)
      else (Status true, m)
  | Search key => (Found (m !! class key), m)
  end.

Fixpoint run_all {S} (step : S -> hash_op -> hash_result * S) (s : S) (ops : list hash_op)
  : list hash_result * S :=
  match ops with
  | [] => ([], s)
  | op :: ops =>
      let '(res, s) := step s op in
      let '(out, s) := run_all step s ops in (res :: out, s)
  end.

Lemma represents_key h m r : represents h m -> my_hash_key h r = key_bytes r.
Proof. intros (_ & (_ & Ho & Hl) & _). unfold key_bytes, my_hash_key. cbn. by rewrite Ho, Hl. Qed.

Lemma matches_class h m key r :
  represents h m -> key <> [] -> key_bytes r <> [] ->
  matches h key (length key) r = true <-> key_of r = class key.
Proof.
  intros Hrep Hk Hr. unfold matches, hashcmp, key_of. cbn [data]. rewrite (represents_key _ _ _ Hrep), class_eq by done.
  rewrite negb_orb, negb_andb, !negb_involutive, andb_true_iff, orb_true_iff, Z.eqb_eq, !Nat.eqb_eq.
  split.
  - intros [[E|Hl] Hs]; [by apply nil_length_inv in E|]. split; [done|]. by rewrite <- Hl, take_ge in Hs.
  - intros [Hl Hs]. split; [by right|]. by rewrite take_ge by lia.
Qed.

Lemma nonempty_key_ok h key : key <> [] -> key_ok h key (length key).
Proof. left. by destruct key. Qed.

Lemma represents_elem h m r : represents h m -> r ∈ contents h <-> m !! key_of r = Some r.
Proof.
  intros (_ & _ & Hp & Hk). rewrite Hp, list_elem_of_fmap. split.
  - intros ([k q] & -> & Hin%elem_of_map_to_list). cbn. by destruct (Hk k q Hin) as [_ ->].
  - intros Hr. exists (key_of r, r). by rewrite elem_of_map_to_list.
Qed.

Lemma represents_bytes h m r : represents h m -> r ∈ contents h -> key_bytes r <> [].
Proof. intros Hrep Hr. apply (represents_elem _ _ _ Hrep) in Hr. by apply Hrep in Hr as [? _]. Qed.

Lemma represents_search h m key :
  represents h m -> key <> [] -> my_hash_search h key (length key) = m !! class key.
Proof.
  intros Hrep Hok. pose proof Hrep as (Hwf & _ & _ & Hk).
  pose proof (search_first h _ _ Hwf (nonempty_key_ok h key Hok)) as Hs.
  destruct (my_hash_search h key (length key)) as [r|].
  - destruct Hs as [Hr Hm]. apply (matches_class h m) in Hm as <-; [|done|done|by eapply represents_bytes].
    symmetry. by apply (represents_elem h m r Hrep).
  - destruct (m !! class key) as [q|] eqn:E; [|done]. destruct (Hk _ _ E) as [Hq Eq].
    rewrite <- Eq in E. apply (represents_elem h m q Hrep) in E. specialize (Hs q E).
    apply (matches_class h m key q Hrep Hok Hq) in Eq. congruence.
Qed.

Lemma represents_insert mem h m r :
  represents h m -> key_bytes r <> [] ->
  match my_hash_insert mem h r with
  | (true, h') => h' = h /\ (mem = false \/ is_Some (m !! key_of r))
  | (false, h') => mem = true /\ m !! key_of r = None /\ represents h' (<[key_of r := r]> m)
  end.
Proof.
  intros Hrep Hok. pose proof Hrep as (Hwf & (Hu & Ho & Hl) & Hp & Hk).
  pose proof (insert_spec mem h r Hwf) as Hi. rewrite !(represents_key _ _ _ Hrep) in Hi.
  specialize (Hi (nonempty_key_ok h _ Hok)). cbn zeta in Hi.
  assert (Hfl : flags (snd (my_hash_insert mem h r)) = flags h /\
    key_offset (snd (my_hash_insert mem h r)) = ko /\ key_length (snd (my_hash_insert mem h r)) = kl).
  { unfold my_hash_insert. destruct (_ && _); [done|]. destruct (negb mem); [done|]. by destruct (split_bucket h _). }
  destruct (my_hash_insert mem h r) as [[] h']; cbn [snd] in Hfl.
  - destruct Hi as [-> [?|(_ & q & Hq & Hm)]]; (split; [done|]); [by left|]. right.
    apply (matches_class h m) in Hm; [|done|done|by eapply represents_bytes].
    apply (represents_elem h m q Hrep) in Hq. unfold key_of at 1. rewrite <-Hm. eauto.
  - destruct Hi as (-> & Hno & Hwf' & Hc'). split; [done|].
    assert (Hnone : m !! key_of r = None).
    { destruct (m !! key_of r) as [q|] eqn:E; [|done]. destruct (Hk _ _ E) as [Hq Eq]. exfalso.
      apply (Hno Hu q); [apply (represents_elem h m q Hrep); by rewrite Eq|]. by apply (matches_class h m). }
    destruct Hfl as (Hfl & Hfo & Hfk). split; [done|]. split_and!; [done|by rewrite Hfl|done|done| |].
    + rewrite Hc', map_to_list_insert by done. cbn. by rewrite Hp.
    + by apply map_Forall_insert_2.
Qed.

Lemma represents_delete h m r :
  represents h m ->
  match my_hash_delete h r with
  | (true, _, h') => h' = h /\ m !! key_of r <> Some r
  | (false, _, h') => m !! key_of r = Some r /\ represents h' (delete (key_of r) m)
  end.
Proof.
  intros Hrep. pose proof Hrep as (Hwf & (Hu & Ho & Hl) & Hp & Hk). pose proof (delete_spec h r Hwf) as Hd.
  assert (Hfl : flags (snd (my_hash_delete h r)) = flags h /\
    key_offset (snd (my_hash_delete h r)) = ko /\ key_length (snd (my_hash_delete h r)) = kl).
  { unfold my_hash_delete. destruct (_ =? 0)%nat; [done|]. destruct (find_record _ _ _ _ _) as [[]|]; [|done].
    by destruct (unlink_record _ _ _). }
  destruct (my_hash_delete h r) as [[[] fr] h']; cbn [snd] in Hfl.
  - destruct Hd as (-> & _ & Hn). split; [done|]. by rewrite <-(represents_elem h m r Hrep).
  - destruct Hd as (Hwf' & Hc & _). destruct Hfl as (Hfl & Hfo & Hfk).
    assert (Hin : m !! key_of r = Some r).
    { apply (represents_elem h m r Hrep). rewrite <-Hc. apply elem_of_cons. by left. }
    split; [done|]. split_and!; [done|by rewrite Hfl|done|done| |].
    + apply (Permutation_cons_inv (a := r)). rewrite Hc, Hp.
      rewrite <-(insert_delete_id m (key_of r) r) at 1 by done.
      rewrite map_to_list_insert by apply lookup_delete_eq. done.
    + by apply map_Forall_delete.
Qed.

Lemma run_step h m op :
  represents h m -> op_ok op ->
  fst (run_hash h op) = fst (run_map m op) /\ represents (snd (run_hash h op)) (snd (run_map m op)).
Proof.
  intros Hrep Hok. destruct op as [mem r|r|k]; cbn [run_hash run_map op_ok] in *.
  - pose proof (represents_insert mem h m r Hrep Hok) as Hi. destruct (my_hash_insert mem h r) as [[] h'].
    + destruct Hi as [-> [-> |Hs]]; [rewrite orb_true_r|rewrite bool_decide_eq_true_2 by done]; done.
    + destruct Hi as (-> & Hn & Hrep'). rewrite Hn, bool_decide_eq_false_2 by (by intros [??]). done.
  - pose proof (represents_delete h m r Hrep) as Hd. destruct (my_hash_delete h r) as [[[] fr] h'].
    + destruct Hd as [-> Hn]. by rewrite bool_decide_eq_false_2.
    + destruct Hd as [Hin Hrep']. by rewrite bool_decide_eq_true_2.
  - cbn. by rewrite (represents_search h m k).
Qed.

Lemma my_hash_init_represents fr fl :
  has_flag fl HASH_UNIQUE = true -> represents (my_hash_init2 ko kl fr fl) ∅.
Proof.
  intros Hf. split_and!; [|done|done|done|done|apply map_Forall_empty].
  exists []. split; cbn; [exists 0%nat; cbn; lia|done|]. by split.
Qed.

Lemma run_all_represents ops : forall h m,
  represents h m -> Forall op_ok ops ->
  fst (run_all run_hash h ops) = fst (run_all run_map m ops) /\
  represents (snd (run_all run_hash h ops)) (snd (run_all run_map m ops)).
Proof.
  induction ops as [|op ops IH]; intros h m Hrep Hok; [done|]. apply Forall_cons in Hok as [H1 H2].
  destruct (run_step h m op Hrep H1) as [Ho Hr]. cbn [run_all].
  destruct (run_hash h op) as [o1 h1], (run_map m op) as [o2 m2]. cbn [fst snd] in Ho, Hr. subst o2.
  destruct (IH _ _ Hr H2) as [Ho2 Hr2]. destruct (run_all run_hash h1 ops), (run_all run_map m2 ops).
  cbn in *. by rewrite Ho2.
Qed.

(** C4: Refinement: whatever the sequence of insertions, deletions and searches
    with keys that are not empty, a new table with unique keys, of any
    collation that is an equivalence on the keys of one length and gives equal
    keys equal hash values, gives the answers of a finite map whose keys are the keys up to
    the collation, including the failures for duplicate and missing records and
    for lack of memory; and going through the elements at the end gives the
    values of that map, each once.  (An empty key is left out: the length 0
    stands for the length of the key of each record, see
    [empty_key_reads_on].) *)
Theorem hash_refines_map fr fl ops :
  has_flag fl HASH_UNIQUE = true -> Forall op_ok ops ->
  let '(out, h) := run_all run_hash (my_hash_init2 ko kl fr fl) ops in
  let '(out', m) := run_all run_map ∅ ops in
  out = out' /\ omap (my_hash_element h) (seq 0 (records h)) ≡ₚ (map_to_list m).*2.
Proof.
  intros Hf Hok. destruct (run_all_represents ops _ _ (my_hash_init_represents fr fl Hf) Hok) as [Ho Hr].
  destruct (run_all run_hash _ ops) as [out h], (run_all run_map _ ops) as [out' m]. cbn in Ho, Hr. split; [done|].
  destruct Hr as (Hwf & _ & Hp & _). by rewrite (hash_elements_contents h Hwf).
Qed.

End Map.

(** Records with a 32-bit key stored in memory, as the tables of GTID domains
    have them. *)
Module Examples.

#[export] Instance pair_keys : HashKeys (Z * Z) := bin_keys (fun r => le_bytes 4 r.1).

Lemma binary_class_eq (k k' : list Z) :
  k <> [] -> k' <> [] -> k = k' <-> length k = length k' /\ my_strnncoll_binary k k' false = 0.
Proof.
  intros _ _. split; [|by intros [Hl E%my_strnncoll_binary_eq]]. intros ->. split; [done|].
  by apply my_strnncoll_binary_eq.
Qed.

Definition ops : list (hash_op (rec := Z * Z)) :=
  [Insert true (1, 10); Insert true (5, 50); Insert true (9, 90); Insert true (5, 51); Insert false (7, 70);
   Search (le_bytes 4 5); Delete (1, 10); Delete (1, 11); Insert true (13, 30); Search (le_bytes 4 1);
   Search (le_bytes 4 13)].

(** A collation that takes a letter and its upper case as equal. *)
Definition upper (c : Z) : Z := if (97 <=? c) && (c <=? 122) then c - 32 else c.

Definition folded_keys {rec} (key tail : rec -> list Z) : HashKeys rec.
Proof.
  refine {| get_key := Some key; key_tail := tail; rec_mem := fun _ => [];
            hash_function := fun k => my_hash_sort (map upper k);
            strnncoll := fun k k' => my_strnncoll_binary (map upper k) (map upper k') false |}.
  - intros k. unfold my_hash_sort, is_u32, u32. apply Z.mod_pos_bound. lia.
  - intros k k' Hl E. apply my_strnncoll_binary_eq in E; [by rewrite E|by rewrite !length_map].
Defined.

Definition name_keys : HashKeys (list Z) := folded_keys (fun r => take 2 r) (fun r => drop 2 r).

Lemma folded_class_eq (k k' : list Z) :
  k <> [] -> k' <> [] ->
  map upper k = map upper k' <->
  length k = length k' /\ my_strnncoll_binary (map upper k) (map upper k') false = 0.
Proof.
  intros _ _. split.
  - intros E. assert (Hl : length k = length k') by (apply (f_equal length) in E; by rewrite !length_map in E).
    split; [done|]. rewrite E. by apply my_strnncoll_binary_eq.
  - intros [Hl E]. apply my_strnncoll_binary_eq in E; [done|by rewrite !length_map].
Qed.

(** Names of two letters, followed by a number. *)
Definition name_ops : list (hash_op (rec := list Z)) :=
  [Insert true [65; 98; 1]; Insert true [97; 66; 2]; Insert true [99; 99; 3]; Search [97; 98]; Delete [65; 98; 1];
   Insert true [97; 66; 2]; Search [65; 66]; Search [67]].

Lemma hash_refines_map_witness :
  fst (run_all (run_hash (HK := name_keys)) (my_hash_init2 0 0 false HASH_UNIQUE) name_ops) =
    [Status false; Status true; Status false; Found (Some [65; 98; 1]); Status false; Status false;
     Found (Some [97; 66; 2]); Found None] /\
  let '(out, h) := run_all (run_hash (HK := name_keys)) (my_hash_init2 0 0 false HASH_UNIQUE) name_ops in
  let '(out', m) := run_all (run_map (HK := name_keys) 0 0 (map upper)) ∅ name_ops in
  out = out' /\ omap (my_hash_element h) (seq 0 (records h)) ≡ₚ (map_to_list m).*2.
Proof.
  split; [vm_compute; reflexivity|].
  apply (hash_refines_map (HK := name_keys) 0 0 (map upper) folded_class_eq); [reflexivity|].
  repeat constructor; discriminate.
Defined.

(** With an empty key [my_hash_insert] compares the bytes that follow it: a
    record with an empty key is refused as a duplicate of another key. *)
Definition short_keys : HashKeys (list Z) :=
  folded_keys (fun r => take 1 (drop 1 (take (Z.to_nat (hd 0 r) + 1) r))) (fun r => drop (Z.to_nat (hd 0 r) + 1) r).

Lemma empty_key_reads_on :
  run_all (run_hash (HK := short_keys)) (my_hash_init2 0 1 false HASH_UNIQUE)
    [Insert true [1; 65]; Insert true [0; 65]] =
  ([Status false; Status true], mk_hash 0 1 2 1 HASH_UNIQUE [mk_link None [1; 65]] false).
Proof. vm_compute. reflexivity. Qed.

(** The table after these operations. *)
Definition sample : HASH (Z * Z) := snd (run_all run_hash (my_hash_init2 0 4 false HASH_UNIQUE) ops).

Lemma sample_table_wf : wf_hash sample.
Proof.
  destruct (run_all_represents (HK := pair_keys) 0 4 id binary_class_eq ops
    (my_hash_init2 0 4 false HASH_UNIQUE) ∅) as [_ [Hwf _]]; [by apply my_hash_init_represents| |exact Hwf].
  repeat constructor; done.
Qed.

Lemma sample_key_ok k : key_ok sample (le_bytes 4 k) 4.
Proof. left. by rewrite le_bytes_length. Qed.

Lemma hash_search_complete_witness :
  contents sample = [(13, 30); (5, 50); (9, 90)] /\
  all_matches sample (le_bytes 4 5) 4 (records sample) (my_hash_first sample (le_bytes 4 5) 4) ≡ₚ
    filter (fun r => matches sample (le_bytes 4 5) 4 r = true) (contents sample).
Proof.
  split; [vm_compute; reflexivity|].
  destruct (hash_search_complete sample (le_bytes 4 5) 4 sample_table_wf (sample_key_ok 5)) as [H _]. exact H.
Defined.

Lemma hash_insert_correct_witness :
  contents (snd (my_hash_insert true sample (17, 40))) ≡ₚ (17, 40) :: contents sample.
Proof.
  pose proof (hash_insert_correct true sample (17, 40) sample_table_wf (sample_key_ok 17)) as H.
  destruct (my_hash_insert true sample (17, 40)) as [[] h'] eqn:E; [vm_compute in E; discriminate E|].
  destruct H as (_ & _ & _ & H). exact H.
Defined.

Lemma hash_delete_correct_witness :
  (5, 50) :: contents (snd (my_hash_delete sample (5, 50))) ≡ₚ contents sample.
Proof.
  pose proof (hash_delete_correct sample (5, 50) sample_table_wf) as H.
  destruct (my_hash_delete sample (5, 50)) as [[[] fr] h'] eqn:E; [vm_compute in E; discriminate E|].
  destruct H as (_ & H & _). exact H.
Defined.

(** Records are addresses here; the record 2 had the key 5 and now has the key 3. *)
Definition new_key (r : nat) : list Z :=
  match r with 1%nat => [1] | 2%nat => [3] | 3%nat => [2] | _ => [9] end.
#[export] Instance address_keys : HashKeys nat := bin_keys new_key.

Definition changed : HASH nat :=
  mk_hash 0 0 4 3 HASH_UNIQUE [mk_link (Some 2%nat) 1%nat; mk_link None 3%nat; mk_link None 2%nat] false.

Lemma changed_chains :
  chains (old_home changed 2%nat (key_hash changed [5] 1)) (array changed) (seq 0 3)
    [[(0, 1); (2, 2)]; [(1, 3)]]%nat.
Proof.
  split.
  - constructor; [|constructor; [|constructor]]; (split; [done|split; [by cbn|]]);
      repeat constructor; vm_compute; reflexivity.
  - cbn. solve_Permutation.
Qed.

Lemma hash_update_correct_witness :
  array (snd (my_hash_update changed 2%nat [5] 1)) =
    [mk_link None 1%nat; mk_link None 3%nat; mk_link None 2%nat] /\
  wf_hash (snd (my_hash_update changed 2%nat [5] 1)).
Proof.
  split; [vm_compute; reflexivity|].
  pose proof (hash_update_correct changed 2%nat [5] 1 _ ltac:(by exists 2%nat; cbn; lia) eq_refl changed_chains
    ltac:(done) ltac:(cbn; apply list_elem_of_In; cbn; tauto)
    ltac:(by apply (bool_decide_unpack _); vm_compute)) as H.
  destruct (my_hash_update changed 2%nat [5] 1) as [[] h'] eqn:E; [vm_compute in E; discriminate E|].
  destruct H as [H _]. exact H.
Defined.

(** On an empty table the index that [my_hash_update] looks at first is the hash
    value itself, outside the array. *)
Lemma update_empty_table k : my_hash_mask (hash_function k) 1 0 = Z.to_nat (hash_function k).
Proof. unfold my_hash_mask. cbn -[hash_function]. by rewrite Z.land_m1_r. Qed.

End Examples.
