(* ===== verification/ThrLock.v ===== *)
(** * Table locks (mysys/thr_lock.c, include/thr_lock.h)

    A [THR_LOCK] has four lists of lock instances ([THR_LOCK_DATA]): the locks
    held for reading and for writing, and the requests waiting for either.
    The instances are records in these lists; [data_id] is the address of one,
    [owner] that of its owner.  An instance whose request was aborted or whose
    lock was released has the type TL_UNLOCK in the code; here it is in no list.
    [cond] is set while somebody may wait for the instance.

    [wait_for_lock] gives the mutex up: it is the two operations [start_wait]
    and [end_wait].  [check_status] of the storage engine is the argument [cs]
    of the operations that call it; the other callbacks of the engine have no
    part in locking and are listed, where the code calls them for several
    locks in a row, by [start_trans_calls] and [fix_status_calls]. *)
From Stdlib Require Import ZArith Lia List Bool.
From stdpp Require Import base tactics list relations sorting.
From S2P Require Import Prelude.

Open Scope Z_scope.

(** ** Data *)

Inductive thr_lock_type :=
  | TL_IGNORE | TL_UNLOCK | TL_READ_DEFAULT | TL_READ | TL_READ_WITH_SHARED_LOCKS
  | TL_READ_HIGH_PRIORITY | TL_READ_NO_INSERT | TL_WRITE_ALLOW_WRITE
  | TL_WRITE_CONCURRENT_INSERT | TL_WRITE_DELAYED | TL_WRITE_DEFAULT
  | TL_WRITE_LOW_PRIORITY | TL_WRITE | TL_WRITE_ONLY.

#[export] Instance thr_lock_type_eq_dec : EqDecision thr_lock_type.
Proof. solve_decision. Defined.

(** The values of the enum. *)
Definition type_val (t : thr_lock_type) : Z :=
  match t with
  | TL_IGNORE => -1 | TL_UNLOCK => 0 | TL_READ_DEFAULT => 1 | TL_READ => 2
  | TL_READ_WITH_SHARED_LOCKS => 3 | TL_READ_HIGH_PRIORITY => 4 | TL_READ_NO_INSERT => 5
  | TL_WRITE_ALLOW_WRITE => 6 | TL_WRITE_CONCURRENT_INSERT => 7 | TL_WRITE_DELAYED => 8
  | TL_WRITE_DEFAULT => 9 | TL_WRITE_LOW_PRIORITY => 10 | TL_WRITE => 11 | TL_WRITE_ONLY => 12
  end.

Inductive enum_thr_lock_result :=
  | THR_LOCK_SUCCESS | THR_LOCK_ABORTED | THR_LOCK_WAIT_TIMEOUT | THR_LOCK_DEADLOCK.

#[export] Instance thr_lock_result_eq_dec : EqDecision enum_thr_lock_result.
Proof. solve_decision. Defined.

Definition THR_LOCK_LATE_PRIV : Z := 1.

Record THR_LOCK_DATA := mk_data {
  data_id : nat;
  owner : nat;
  lock_of : Z;
  cond : bool;
  status_param : nat;
  type : thr_lock_type;
  priority : Z
}.

#[export] Instance thr_lock_data_eq_dec : EqDecision THR_LOCK_DATA.
Proof. solve_decision. Defined.

Definition set_type (d : THR_LOCK_DATA) (t : thr_lock_type) : THR_LOCK_DATA :=
  mk_data (data_id d) (owner d) (lock_of d) (cond d) (status_param d) t (priority d).
Definition set_cond (d : THR_LOCK_DATA) (c : bool) : THR_LOCK_DATA :=
  mk_data (data_id d) (owner d) (lock_of d) c (status_param d) (type d) (priority d).
Definition set_owner (d : THR_LOCK_DATA) (o : nat) : THR_LOCK_DATA :=
  mk_data (data_id d) o (lock_of d) (cond d) (status_param d) (type d) (priority d).
Definition set_priority (d : THR_LOCK_DATA) (p : Z) : THR_LOCK_DATA :=
  mk_data (data_id d) (owner d) (lock_of d) (cond d) (status_param d) (type d) p.

(** [has_check_status]: the engine has a [check_status] function. *)
Record THR_LOCK := mk_lock {
  read_wait : list THR_LOCK_DATA;
  read : list THR_LOCK_DATA;
  write_wait : list THR_LOCK_DATA;
  write : list THR_LOCK_DATA;
  write_lock_count : Z;
  read_no_write_count : Z;
  has_check_status : bool;
  allow_multiple_concurrent_insert : bool
}.

Definition set_lists (l : THR_LOCK) (rw r ww w : list THR_LOCK_DATA) : THR_LOCK :=
  mk_lock rw r ww w (write_lock_count l) (read_no_write_count l) (has_check_status l)
    (allow_multiple_concurrent_insert l).
Definition set_counts (l : THR_LOCK) (wc rc : Z) : THR_LOCK :=
  mk_lock (read_wait l) (read l) (write_wait l) (write l) wc rc (has_check_status l)
    (allow_multiple_concurrent_insert l).

Definition thr_lock_init (has_check allow_multiple : bool) : THR_LOCK :=
  mk_lock [] [] [] [] 0 0 has_check allow_multiple.

Definition thr_lock_data_init (id : nat) (lock : Z) (param : nat) : THR_LOCK_DATA :=
  mk_data id 0 lock false param TL_UNLOCK 0.

Definition thr_lock_owner_equal (rhs lhs : nat) : bool := (rhs =? lhs)%nat.

Definition has_old_lock (l : list THR_LOCK_DATA) (o : nat) : bool :=
  existsb (fun d => thr_lock_owner_equal (owner d) o) l.

Definition have_specific_lock (l : list THR_LOCK_DATA) (t : thr_lock_type) : bool :=
  existsb (fun d => bool_decide (type d = t)) l.

(** Unlinking an instance from its list. *)
Definition unlink (l : list THR_LOCK_DATA) (id : nat) : list THR_LOCK_DATA :=
  filter (fun d => data_id d <> id) l.

Notation "t1 '<=t' t2" := (type_val t1 <=? type_val t2) (at level 70).

Section Lock.
(** [max_write_lock_count] and [thr_upgraded_concurrent_insert_lock] are global
    variables; [cs] is [check_status] by the status parameter. *)
Context (max_write_lock_count : Z) (thr_upgraded_concurrent_insert_lock : thr_lock_type).
Implicit Types (l : THR_LOCK) (d : THR_LOCK_DATA).

(** ** Granting *)

(** The readers that stay in the wait list. *)
Definition keeps_waiting (using_concurrent_insert : bool) d : bool :=
  bool_decide (type d = TL_READ_NO_INSERT) && using_concurrent_insert.

Definition free_all_read_locks l (using_concurrent_insert : bool) : THR_LOCK :=
  let kept := filter (fun d => keeps_waiting using_concurrent_insert d = true) (read_wait l) in
  let freed := filter (fun d => keeps_waiting using_concurrent_insert d = false) (read_wait l) in
  let n := Z.of_nat (length (filter (fun d => type d = TL_READ_NO_INSERT) freed)) in
  let l' := set_lists l kept (read l ++ map (fun d => set_cond d false) freed) (write_wait l) (write l) in
  set_counts l' (if bool_decide (kept = []) then 0 else write_lock_count l)
    (u32 (read_no_write_count l + n)).

(** The first loop of [wake_up_waiters]: the writers given the lock, the last
    one of which is [data] after it, and those left. *)
Fixpoint grant_writes (cs : nat -> bool) (ww : list THR_LOCK_DATA)
  : list THR_LOCK_DATA * list THR_LOCK_DATA :=
  match ww with
  | [] => ([], [])
  | d :: ww =>
      let d := if bool_decide (type d = TL_WRITE_CONCURRENT_INSERT) && cs (status_param d)
               then set_type d TL_WRITE else d in
      let d := set_cond d false in
      match ww with
      | d' :: _ =>
          if bool_decide (type d = TL_WRITE_ALLOW_WRITE) && bool_decide (type d' = TL_WRITE_ALLOW_WRITE)
          then let '(granted, others) := grant_writes cs ww in (d :: granted, others)
          else ([d], ww)
      | [] => ([d], [])
      end
  end.

(** The second loop; [lock_type] is the type of the first waiting writer. *)
Fixpoint grant_more (lock_type : thr_lock_type) (ww : list THR_LOCK_DATA)
  : list THR_LOCK_DATA * list THR_LOCK_DATA :=
  match ww with
  | [] => ([], [])
  | d :: ww =>
      match ww with
      | d' :: _ =>
          if bool_decide (lock_type = TL_WRITE_ALLOW_WRITE) && bool_decide (type d' = TL_WRITE_ALLOW_WRITE)
          then let '(granted, others) := grant_more lock_type ww in (set_cond d false :: granted, others)
          else ([set_cond d false], ww)
      | [] => ([set_cond d false], [])
      end
  end.

Definition last_type (granted : list THR_LOCK_DATA) : thr_lock_type :=
  match last granted with Some d => type d | None => TL_UNLOCK end.

Definition is_concurrent (t : thr_lock_type) : bool :=
  bool_decide (t = TL_WRITE_CONCURRENT_INSERT) || bool_decide (t = TL_WRITE_ALLOW_WRITE).

(** The waiting readers get the lock too, if there are any. *)
Definition free_waiting_readers l (using_concurrent_insert : bool) : THR_LOCK :=
  match read_wait l with [] => l | _ => free_all_read_locks l using_concurrent_insert end.

(** Nobody holds the lock and the writer [d] is first. *)
Definition wake_writer (cs : nat -> bool) l : THR_LOCK :=
  let too_many := write_lock_count l >? max_write_lock_count in
  let l := set_counts l (if too_many then 0 else u64 (write_lock_count l + 1)) (read_no_write_count l) in
  if too_many && negb (bool_decide (read_wait l = [])) then free_all_read_locks l false
  else
    let '(granted, others) := grant_writes cs (write_wait l) in
    let l := set_lists l (read_wait l) (read l) others (write l ++ granted) in
    if TL_WRITE_LOW_PRIORITY <=t last_type granted then l
    else free_waiting_readers l (is_concurrent (last_type granted)).

(** Readers hold the lock and the writer [d] can join them. *)
Definition wake_with_readers (cs : nat -> bool) l d : THR_LOCK :=
  if bool_decide (type d = TL_WRITE_CONCURRENT_INSERT) && cs (status_param d) then
    free_waiting_readers
      (set_lists l (read_wait l) (read l)
         (match write_wait l with [] => [] | d :: ww => set_type d TL_WRITE :: ww end) (write l)) false
  else
    let '(granted, others) := grant_more (type d) (write_wait l) in
    free_waiting_readers (set_lists l (read_wait l) (read l) others (write l ++ granted))
      (is_concurrent (type d)).

Definition wake_up_waiters (cs : nat -> bool) l : THR_LOCK :=
  match write l with
  | _ :: _ => l
  | [] =>
      match read l, write_wait l with
      | [], d :: _ =>
          if negb (bool_decide (type d = TL_WRITE_LOW_PRIORITY)) ||
             match read_wait l with
             | [] => true
             | r :: _ => type_val (type r) <? type_val TL_READ_HIGH_PRIORITY
             end
          then wake_writer cs l
          else free_waiting_readers l (is_concurrent (type d))
      | [], [] => free_waiting_readers l false
      | _ :: _, d :: _ =>
          if (type d <=t TL_WRITE_DELAYED) &&
             (negb (is_concurrent (type d)) || (read_no_write_count l =? 0))
          then wake_with_readers cs l d
          else l
      | _ :: _, [] => free_waiting_readers l false
      end
  end.

(** ** Requesting a lock

    [TAKEN]: the lock is held, or (for TL_WRITE_DELAYED) the request is in the
    wait list and the call returns at once; [FAILED]: aborted; [MUST_WAIT]: the
    call goes on with [wait_for_lock], for a reader or a writer. *)
Inductive lock_outcome := TAKEN | FAILED | MUST_WAIT.

#[export] Instance lock_outcome_eq_dec : EqDecision lock_outcome.
Proof. solve_decision. Defined.

Definition add_read l d : THR_LOCK :=
  set_counts (set_lists l (read_wait l) (read l ++ [d]) (write_wait l) (write l)) (write_lock_count l)
    (if bool_decide (type d = TL_READ_NO_INSERT) then u32 (read_no_write_count l + 1)
     else read_no_write_count l).

Definition add_write l d : THR_LOCK :=
  set_lists l (read_wait l) (read l) (write_wait l) (write l ++ [d]).

Definition thr_lock_read l d : lock_outcome * THR_LOCK :=
  match write l with
  | w :: _ =>
      if thr_lock_owner_equal (owner d) (owner w) ||
         ((type w <=t TL_WRITE_DELAYED) &&
          ((type d <=t TL_READ_HIGH_PRIORITY) ||
           negb (bool_decide (type w = TL_WRITE_CONCURRENT_INSERT))))
      then (TAKEN, add_read l d)
      else if bool_decide (type w = TL_WRITE_ONLY) then (FAILED, l)
      else (MUST_WAIT, l)
  | [] =>
      if match write_wait l with [] => true | w :: _ => type w <=t TL_WRITE_LOW_PRIORITY end ||
         bool_decide (type d = TL_READ_HIGH_PRIORITY) || has_old_lock (read l) (owner d)
      then (TAKEN, add_read l d)
      else (MUST_WAIT, l)
  end.

(** The write request when there is a write lock. *)
Definition write_again l d w : bool :=
  ((bool_decide (type d = TL_WRITE_ALLOW_WRITE) ||
    (bool_decide (type d = TL_WRITE_CONCURRENT_INSERT) && allow_multiple_concurrent_insert l &&
     (read_no_write_count l =? 0))) &&
   bool_decide (write_wait l = []) && bool_decide (type w = type d) && (read_no_write_count l =? 0)) ||
  has_old_lock (write l) (owner d).

(** A concurrent insert that the engine refuses becomes a plain write. *)
Definition check_insert (cs : nat -> bool) d : THR_LOCK_DATA :=
  if bool_decide (type d = TL_WRITE_CONCURRENT_INSERT) && cs (status_param d)
  then set_type d thr_upgraded_concurrent_insert_lock else d.

(** The same when there is none; the instance may get another type. *)
Definition write_first (cs : nat -> bool) l d : option THR_LOCK_DATA :=
  if negb (bool_decide (write_wait l = [])) then None
  else
    let d := check_insert cs d in
    if bool_decide (read l = []) ||
       ((type d <=t TL_WRITE_DELAYED) &&
        (negb (is_concurrent (type d)) || (read_no_write_count l =? 0)))
    then Some d else None.

(** What the instance waits as: [write_first] has changed its type even when
    it does not get the lock. *)
Definition waiting_type (cs : nat -> bool) l d : THR_LOCK_DATA :=
  if bool_decide (write l = []) && bool_decide (write_wait l = []) then check_insert cs d else d.

Definition thr_lock_write (cs : nat -> bool) l d : lock_outcome * THR_LOCK_DATA * THR_LOCK :=
  let only := match write l with w :: _ => bool_decide (type w = TL_WRITE_ONLY) | [] => false end in
  let delayed := bool_decide (type d = TL_WRITE_DELAYED) in
  if delayed && only then (FAILED, d, l)
  else if delayed && negb (bool_decide (write l = []) && bool_decide (read l = [])) then
    (TAKEN, d, set_lists l (read_wait l) (read l) (write_wait l ++ [set_cond d true]) (write l))
  else
    let d := if negb delayed && bool_decide (type d = TL_WRITE_CONCURRENT_INSERT) &&
                negb (has_check_status l)
             then set_type d thr_upgraded_concurrent_insert_lock else d in
    match write l with
    | w :: _ =>
        if only && negb (thr_lock_owner_equal (owner d) (owner w)) then (FAILED, d, l)
        else if write_again l d w then (TAKEN, d, add_write l d)
        else (MUST_WAIT, d, l)
    | [] =>
        match write_first cs l d with
        | Some d => (TAKEN, d, add_write l d)
        | None => (MUST_WAIT, waiting_type cs l d, l)
        end
    end.

(** [data] with its new owner, and the lock. *)
Definition thr_lock (cs : nat -> bool) l d (o : nat) : lock_outcome * THR_LOCK_DATA * THR_LOCK :=
  let d := set_priority (set_owner (set_cond d false) o) (Z.land (priority d) (Z.lnot THR_LOCK_LATE_PRIV)) in
  if type d <=t TL_READ_NO_INSERT then
    let '(res, l) := thr_lock_read l d in (res, d, l)
  else thr_lock_write cs l d.

(** ** Waiting *)

(** Entering the wait list. *)
Definition start_wait l d : THR_LOCK :=
  let d := set_cond d true in
  if type d <=t TL_READ_NO_INSERT
  then set_lists l (read_wait l ++ [d]) (read l) (write_wait l) (write l)
  else set_lists l (read_wait l) (read l) (write_wait l ++ [d]) (write l).

Definition in_list (id : nat) (l : list THR_LOCK_DATA) : bool := existsb (fun d => (data_id d =? id)%nat) l.

(** After the wait: it was granted or aborted, or it timed out or the thread
    was killed ([result]) and the instance leaves the wait list. *)
Definition end_wait (cs : nat -> bool) l (id : nat) (result : enum_thr_lock_result)
  : enum_thr_lock_result * THR_LOCK :=
  if in_list id (read_wait l) || in_list id (write_wait l) then
    (result, wake_up_waiters cs
       (set_lists l (unlink (read_wait l) id) (read l) (unlink (write_wait l) id) (write l)))
  else if in_list id (read l) || in_list id (write l) then (THR_LOCK_SUCCESS, l)
  else (THR_LOCK_ABORTED, l).

(** ** Releasing and aborting *)

Definition thr_unlock (cs : nat -> bool) l d : THR_LOCK :=
  let id := data_id d in
  let l1 :=
    if type d <=t TL_READ_NO_INSERT then
      set_lists l (read_wait l) (unlink (read l) id) (write_wait l) (write l)
    else if bool_decide (type d = TL_WRITE_DELAYED) && cond d then
      set_lists l (read_wait l) (read l) (unlink (write_wait l) id) (write l)
    else set_lists l (read_wait l) (read l) (write_wait l) (unlink (write l) id) in
  let l2 :=
    if bool_decide (type d = TL_READ_NO_INSERT)
    then set_counts l1 (write_lock_count l1) (u32 (read_no_write_count l1 - 1)) else l1 in
  wake_up_waiters cs l2.

Definition thr_abort_locks l (upgrade_lock : bool) : THR_LOCK :=
  set_lists l [] (read l) []
    (match write l with
     | w :: ws => if upgrade_lock then set_type w TL_WRITE_ONLY :: ws else write l
     | [] => []
     end).

Definition thr_abort_locks_for_thread (cs : nat -> bool) (thread_id : nat -> nat) l (id : nat)
  : bool * THR_LOCK :=
  let mine d := (thread_id (owner d) =? id)%nat in
  let keep := filter (fun d => mine d = false) in
  (existsb mine (read_wait l) || existsb mine (write_wait l),
   wake_up_waiters cs (set_lists l (keep (read_wait l)) (read l) (keep (write_wait l)) (write l))).

(** ** Changing the type of a lock *)

Definition retype (l : list THR_LOCK_DATA) (id : nat) (t : thr_lock_type) : list THR_LOCK_DATA :=
  map (fun d => if (data_id d =? id)%nat then set_type d t else d) l.

Definition thr_downgrade_write_lock l d (new_lock_type : thr_lock_type) : THR_LOCK :=
  set_lists l (read_wait l) (read l) (write_wait l) (retype (write l) (data_id d) new_lock_type).

(** True: the thread goes on with [wait_for_lock] for an instance that is
    already in the wait list; the first component is the return value otherwise. *)
Definition thr_upgrade_write_delay_lock l d (new_lock_type : thr_lock_type)
  : bool * bool * THR_LOCK :=
  if bool_decide (type d = TL_UNLOCK) || (TL_WRITE_LOW_PRIORITY <=t type d) then
    (bool_decide (type d = TL_UNLOCK), false, l)
  else if negb (cond d) then
    let l' := set_lists l (read_wait l) (read l) (write_wait l) (retype (write l) (data_id d) new_lock_type) in
    match read l with
    | [] => (false, false, l')
    | _ =>
        (false, true,
         set_lists l (read_wait l) (read l) (set_cond (set_type d new_lock_type) true :: write_wait l)
           (unlink (write l) (data_id d)))
    end
  else (false, true, set_lists l (read_wait l) (read l) (retype (write_wait l) (data_id d) new_lock_type) (write l)).

(** [None]: nobody waits for a read lock.  Otherwise the instance is first in
    the wait list as TL_WRITE_DELAYED, and [thr_upgrade_write_delay_lock] is
    called with the type it had. *)
Definition thr_reschedule_write_lock l d : option (thr_lock_type * THR_LOCK) :=
  match read_wait l with
  | [] => None
  | _ =>
      Some (type d,
        free_all_read_locks
          (set_lists l (read_wait l) (read l)
             (set_cond (set_type d TL_WRITE_DELAYED) true :: write_wait l)
             (unlink (write l) (data_id d))) false)
  end.

End Lock.

(** What [thr_upgrade_write_delay_lock] returns when its wait ended with [res];
    [start_trans] is the engine's function for the instance, if it has one. *)
Definition upgrade_result (start_trans : option bool) (res : enum_thr_lock_result) : bool :=
  match res, start_trans with
  | THR_LOCK_SUCCESS, Some failed => failed
  | _, _ => false
  end.

(** ** Several locks *)

Definition LOCK_CMP (a b : THR_LOCK_DATA) : bool :=
  if negb (lock_of a =? lock_of b) then lock_of a <? lock_of b
  else if negb (bool_decide (type a = type b)) then type_val (type b) <? type_val (type a)
  else priority a <? priority b.

(** The insertion sort: [done] is what is sorted, its last element first. *)
Fixpoint sort_insert (tmp : THR_LOCK_DATA) (done : list THR_LOCK_DATA) : list THR_LOCK_DATA :=
  match done with
  | [] => [tmp]
  | prev :: rest => if LOCK_CMP tmp prev then prev :: sort_insert tmp rest else tmp :: done
  end.

Definition sort_locks (data : list THR_LOCK_DATA) : list THR_LOCK_DATA :=
  rev (fold_left (fun done tmp => sort_insert tmp done) data []).

(** The calls of the engine's functions when several locks were taken or
    merged; the tables may have them or not. *)
Inductive status_call :=
  | call_start_trans (param : nat)
  | call_copy_status (to from : nat)
  | call_fix_status (org : nat) (param : option nat).

Section Status.
Context (start_trans copy_status fix_status : Z -> bool).

Definition start_trans_call (d : THR_LOCK_DATA) : list status_call :=
  if start_trans (lock_of d) then [call_start_trans (status_param d)] else [].

(** [prev] is [pos[-1]], [first_lock] the first instance of its table. *)
Fixpoint start_trans_loop (prev first_lock : THR_LOCK_DATA) (data : list THR_LOCK_DATA)
  : list status_call :=
  match data with
  | [] => []
  | d :: data =>
      start_trans_call d ++
      (if (lock_of d =? lock_of prev) && copy_status (lock_of d)
       then call_copy_status (status_param d) (status_param first_lock) ::
              start_trans_loop d first_lock data
       else start_trans_loop d d data)
  end.

Definition start_trans_calls (data : list THR_LOCK_DATA) : list status_call :=
  match data with
  | [] => []
  | d :: data => start_trans_call d ++ start_trans_loop d d data
  end.

Fixpoint fix_status_calls (first_lock : option THR_LOCK_DATA) (data : list THR_LOCK_DATA)
  : list status_call :=
  match data with
  | [] => []
  | d :: data =>
      if bool_decide (type d = TL_UNLOCK) || negb (fix_status (lock_of d))
      then fix_status_calls first_lock data
      else
        match first_lock with
        | Some f =>
            if lock_of d =? lock_of f
            then call_fix_status (status_param f) (Some (status_param d)) ::
                   fix_status_calls first_lock data
            else call_fix_status (status_param d) None :: fix_status_calls (Some d) data
        | None => call_fix_status (status_param d) None :: fix_status_calls (Some d) data
        end
  end.

Definition late_priv (on : bool) (d : THR_LOCK_DATA) : THR_LOCK_DATA :=
  set_priority d (if on then Z.lor (priority d) THR_LOCK_LATE_PRIV
                  else Z.land (priority d) (Z.lnot THR_LOCK_LATE_PRIV)).

Definition thr_merge_locks (old new : list THR_LOCK_DATA) : list THR_LOCK_DATA * list status_call :=
  let data := sort_locks (map (late_priv false) old ++ map (late_priv true) new) in
  (data, fix_status_calls None data).

End Status.

(** ** All the locks of a statement

    [locks] are the table locks by address.  What other threads do before the
    [k]-th request and while it waits is [others] and [meanwhile]; [timeout k]
    is the result of that wait if it was neither granted nor aborted. *)

Definition find_data (l : THR_LOCK) (id : nat) : option THR_LOCK_DATA :=
  List.find (fun d => (data_id d =? id)%nat) (read_wait l ++ read l ++ write_wait l ++ write l).

Definition set_lock (locks : Z -> THR_LOCK) (a : Z) (l : THR_LOCK) : Z -> THR_LOCK :=
  fun b => if b =? a then l else locks b.

(** The order in which [thr_multi_lock] locks. *)
Definition lock_order (data : list THR_LOCK_DATA) : list THR_LOCK_DATA :=
  if (1 <? length data)%nat then sort_locks data else data.

Section Multi.
Context (max_write_lock_count : Z) (thr_upgraded_concurrent_insert_lock : thr_lock_type).
Context (cs : nat -> bool).

(** The type TL_UNLOCK of an instance is that it is in no list. *)
Definition multi_unlock_one (locks : Z -> THR_LOCK) (d : THR_LOCK_DATA) : Z -> THR_LOCK :=
  match find_data (locks (lock_of d)) (data_id d) with
  | Some d' => set_lock locks (lock_of d) (thr_unlock max_write_lock_count cs (locks (lock_of d)) d')
  | None => locks
  end.

Definition thr_multi_unlock (locks : Z -> THR_LOCK) (data : list THR_LOCK_DATA) : Z -> THR_LOCK :=
  fold_left multi_unlock_one data locks.

Context (others meanwhile : nat -> (Z -> THR_LOCK) -> (Z -> THR_LOCK)).
Context (timeout : nat -> enum_thr_lock_result) (o : nat).

Definition lock_and_wait (k : nat) (locks : Z -> THR_LOCK) (d : THR_LOCK_DATA)
  : enum_thr_lock_result * (Z -> THR_LOCK) :=
  let locks := others k locks in
  let a := lock_of d in
  let '(res, d, l) := thr_lock thr_upgraded_concurrent_insert_lock cs (locks a) d o in
  match res with
  | TAKEN => (THR_LOCK_SUCCESS, set_lock locks a l)
  | FAILED => (THR_LOCK_ABORTED, set_lock locks a l)
  | MUST_WAIT =>
      let locks := meanwhile k (set_lock locks a (start_wait l d)) in
      let '(res, l) := end_wait max_write_lock_count cs (locks a) (data_id d) (timeout k) in
      (res, set_lock locks a l)
  end.

(** [taken]: the instances that are locked, the last one first. *)
Fixpoint multi_lock_loop (k : nat) (locks : Z -> THR_LOCK) (taken data : list THR_LOCK_DATA)
  : enum_thr_lock_result * (Z -> THR_LOCK) :=
  match data with
  | [] => (THR_LOCK_SUCCESS, locks)
  | d :: data =>
      let '(res, locks) := lock_and_wait k locks d in
      match res with
      | THR_LOCK_SUCCESS => multi_lock_loop (S k) locks (d :: taken) data
      | _ => (res, thr_multi_unlock locks (rev taken))
      end
  end.

Definition thr_multi_lock (locks : Z -> THR_LOCK) (data : list THR_LOCK_DATA)
  : enum_thr_lock_result * (Z -> THR_LOCK) :=
  multi_lock_loop 0 locks [] (lock_order data).

End Multi.
