(* ===== verification/ThrLockSafe.v ===== *)
(** * Table locks: the invariant of a lock

    The operations of [ThrLock] as the steps of one table lock, in any order
    and from any threads, each with what its callers keep to ([op_ok]); what
    holds of the lock in every state they reach: locks of different owners
    that are held together may be, the counter of the TL_READ_NO_INSERT locks
    is right, and a request waits only while somebody holds the lock. *)
From Stdlib Require Import ZArith Lia List Bool.
From stdpp Require Import base tactics list relations sorting.
From S2P Require Import Prelude ThrLock.

Open Scope Z_scope.

(** ** What may be held together *)

(** The types that are requested of a table; the others are for the parser. *)
Definition reader (t : thr_lock_type) : bool :=
  match t with
  | TL_READ | TL_READ_WITH_SHARED_LOCKS | TL_READ_HIGH_PRIORITY | TL_READ_NO_INSERT => true
  | _ => false
  end.
Definition writer (t : thr_lock_type) : bool :=
  match t with
  | TL_WRITE_ALLOW_WRITE | TL_WRITE_CONCURRENT_INSERT | TL_WRITE_DELAYED | TL_WRITE_LOW_PRIORITY
  | TL_WRITE | TL_WRITE_ONLY => true
  | _ => false
  end.

(** The matrix in the comment of [thr_lock]. *)
Definition shares (r w : thr_lock_type) : bool :=
  match w with
  | TL_WRITE_ALLOW_WRITE | TL_WRITE_DELAYED => true
  | TL_WRITE_CONCURRENT_INSERT => negb (bool_decide (r = TL_READ_NO_INSERT))
  | _ => false
  end.

(** Later write locks of an owner are not stronger than earlier ones, and none
    is TL_WRITE_DELAYED. *)
Definition stronger (x y : thr_lock_type) : Prop :=
  x <> TL_WRITE_DELAYED /\ y <> TL_WRITE_DELAYED /\
  (type_val y <= type_val x \/ (y = TL_WRITE /\ x = TL_WRITE_LOW_PRIORITY)).

Definition owner_order (x y : THR_LOCK_DATA) : Prop := owner x = owner y -> stronger (type x) (type y).

Fixpoint ordered (W : list THR_LOCK_DATA) : Prop :=
  match W with
  | [] => True
  | x :: W => (forall y, y ∈ W -> owner_order x y) /\ ordered W
  end.

Record compat (R W : list THR_LOCK_DATA) : Prop := {
  compat_order : ordered W;
  compat_ww : forall x y, x ∈ W -> y ∈ W -> owner x <> owner y -> is_concurrent (type x) = true;
  compat_rw : forall r w, r ∈ R -> w ∈ W -> owner r <> owner w -> shares (type r) (type w) = true
}.

Definition no_inserts (R : list THR_LOCK_DATA) : nat :=
  length (filter (fun d => type d = TL_READ_NO_INSERT) R).

Definition instances (l : THR_LOCK) : list THR_LOCK_DATA :=
  read_wait l ++ read l ++ write_wait l ++ write l.
Definition ids (l : THR_LOCK) : list nat := map data_id (instances l).

(** The engine of a table uses one of TL_WRITE_ALLOW_WRITE and
    TL_WRITE_CONCURRENT_INSERT, [et]. *)
Definition reading (c : bool) (d : THR_LOCK_DATA) : Prop := reader (type d) = true /\ cond d = c.
Definition writing (et : thr_lock_type) (c : bool) (d : THR_LOCK_DATA) : Prop :=
  writer (type d) = true /\ cond d = c /\ (is_concurrent (type d) = true -> type d = et).

Record core (et : thr_lock_type) (l : THR_LOCK) : Prop := {
  core_ids : NoDup (ids l);
  core_small : Z.of_nat (length (ids l)) < 2 ^ 32;
  core_rw : Forall (reading true) (read_wait l);
  core_r : Forall (reading false) (read l);
  core_ww : Forall (writing et true) (write_wait l);
  core_w : Forall (writing et false) (write l);
  core_count : read_no_write_count l = Z.of_nat (no_inserts (read l));
  core_compat : compat (read l) (write l)
}.

(** Somebody holds the lock while a request waits; a reader waits only for a
    writer. *)
Definition busy (l : THR_LOCK) : Prop :=
  write l = [] ->
  (write_wait l = [] -> read_wait l = []) /\ (write_wait l <> [] -> read l <> []).

Definition lock_wf (et : thr_lock_type) (l : THR_LOCK) : Prop := core et l /\ busy l.

(** ** Lists of instances *)

Ltac bools :=
  repeat match goal with
  | H : (_ && _) = true |- _ => apply andb_prop in H as [? ?]
  | H : bool_decide _ = true |- _ => apply bool_decide_eq_true_1 in H
  | H : bool_decide _ = false |- _ => apply bool_decide_eq_false_1 in H
  | H : negb _ = true |- _ => apply negb_true_iff in H
  end.

Lemma is_concurrent_cases t :
  is_concurrent t = true <-> t = TL_WRITE_CONCURRENT_INSERT \/ t = TL_WRITE_ALLOW_WRITE.
Proof. unfold is_concurrent. rewrite orb_true_iff, !bool_decide_eq_true. tauto. Qed.

Lemma ordered_app W W' :
  ordered (W ++ W') <->
  ordered W /\ ordered W' /\ forall x y, x ∈ W -> y ∈ W' -> owner_order x y.
Proof.
  induction W as [|x W IH]; cbn.
  - split; [intros H; split_and!; [done|done|]; intros ? ? []%elem_of_nil|tauto].
  - rewrite IH. split.
    + intros [H1 (H2 & H3 & H4)]. split_and!; [set_solver|done|done|].
      intros y z [->|Hy]%elem_of_cons Hz; [apply H1; set_solver|auto].
    + intros ([H1 H2] & H3 & H4). split_and!; [|done|done|set_solver].
      intros y [Hy|Hy]%elem_of_app; [auto|apply H4; [set_solver|done]].
Qed.

Lemma ordered_sublist W W' : W' `sublist_of` W -> ordered W -> ordered W'.
Proof.
  induction 1 as [|x W' W H IH|x W' W H IH]; cbn; [done| |tauto].
  intros [H1 H2]. split; [|auto]. intros y Hy. apply H1. by eapply elem_of_sublist.
Qed.

(** Removing held locks keeps the rest compatible. *)
Lemma compat_sublist R R' W W' :
  (forall r, r ∈ R' -> r ∈ R) -> W' `sublist_of` W -> compat R W -> compat R' W'.
Proof.
  intros HR HW [H1 H2 H3].
  assert (HW' : forall x, x ∈ W' -> x ∈ W) by (intros; by eapply elem_of_sublist).
  split; [by eapply ordered_sublist|eauto..].
Qed.

(** More readers, each compatible with the writers. *)
Lemma compat_readers R R' W :
  compat R W ->
  (forall r w, r ∈ R' -> w ∈ W -> owner r <> owner w -> shares (type r) (type w) = true) ->
  compat (R ++ R') W.
Proof.
  intros [H1 H2 H3] H. split; [done..|].
  intros r w [Hr|Hr]%elem_of_app; eauto.
Qed.

(** One more writer. *)
Lemma compat_writer R W d :
  compat R W ->
  (forall x, x ∈ W -> owner_order x d) ->
  (forall x, x ∈ W -> owner x <> owner d ->
     is_concurrent (type x) = true /\ is_concurrent (type d) = true) ->
  (forall r, r ∈ R -> owner r <> owner d -> shares (type r) (type d) = true) ->
  compat R (W ++ [d]).
Proof.
  intros [H1 H2 H3] Ho Hw Hr. split.
  - apply ordered_app. split_and!; [done|cbn; set_solver|]. intros x y Hx ->%list_elem_of_singleton. auto.
  - intros x y [Hx| ->%list_elem_of_singleton]%elem_of_app [Hy| ->%list_elem_of_singleton]%elem_of_app Hn; eauto.
    + by apply Hw.
    + by apply (Hw y).
  - intros r w Hr' [Hw'| ->%list_elem_of_singleton]%elem_of_app; eauto.
Qed.

(** Writers given the lock together. *)
Lemma compat_granted R W :
  (length W <= 1)%nat \/ Forall (fun d => type d = TL_WRITE_ALLOW_WRITE) W ->
  (forall r w, r ∈ R -> w ∈ W -> owner r <> owner w -> shares (type r) (type w) = true) ->
  compat R W.
Proof.
  intros HW HR. split; [| |done].
  - destruct HW as [HW|HW]; [destruct W as [|x [|]]; cbn in *; [done|split; [set_solver|done]|lia]|].
    induction HW as [|x W Hx HW IH]; cbn; [done|]. split; [|apply IH; set_solver].
    intros y Hy _. rewrite Forall_forall in HW. rewrite Hx, (HW y Hy). by split_and!; [..|left].
  - intros x y Hx Hy Hn. destruct HW as [HW|HW].
    + destruct W as [|z [|]]; cbn in *; [set_solver| |lia].
      apply list_elem_of_singleton in Hx, Hy. congruence.
    + rewrite Forall_forall in HW. by rewrite (HW x Hx).
Qed.

Lemma no_inserts_app R R' : no_inserts (R ++ R') = (no_inserts R + no_inserts R')%nat.
Proof. unfold no_inserts. by rewrite filter_app, length_app. Qed.

Lemma no_inserts_one d : no_inserts [d] = if bool_decide (type d = TL_READ_NO_INSERT) then 1%nat else 0%nat.
Proof.
  unfold no_inserts. rewrite filter_cons, filter_nil. rewrite bool_decide_decide. by destruct (decide _).
Qed.

Lemma no_inserts_cons d R : no_inserts (d :: R) = (no_inserts [d] + no_inserts R)%nat.
Proof. apply (no_inserts_app [d] R). Qed.

#[export] Instance no_inserts_proper : Proper ((≡ₚ) ==> eq) no_inserts.
Proof. intros R R' H. unfold no_inserts. by rewrite H. Qed.

Lemma no_inserts_length R : (no_inserts R <= length R)%nat.
Proof. apply length_filter. Qed.

Lemma no_inserts_cond R c : no_inserts (map (fun d => set_cond d c) R) = no_inserts R.
Proof.
  unfold no_inserts. induction R as [|d R IH]; [done|]. cbn [map].
  rewrite !filter_cons. cbn [set_cond type]. destruct (decide _); cbn [length]; auto.
Qed.

Lemma no_inserts_zero R : no_inserts R = 0%nat -> forall r, r ∈ R -> type r <> TL_READ_NO_INSERT.
Proof.
  unfold no_inserts. intros H%nil_length_inv r Hr Ht.
  assert (Hin : r ∈ filter (fun d => type d = TL_READ_NO_INSERT) R) by (by apply list_elem_of_filter).
  rewrite H in Hin. by apply elem_of_nil in Hin.
Qed.

Lemma filter_split {A} (f : A -> bool) (l : list A) :
  filter (fun d => f d = true) l ++ filter (fun d => f d = false) l ≡ₚ l.
Proof.
  induction l as [|x l IH]; [done|]. rewrite !filter_cons.
  destruct (f x) eqn:E; [rewrite decide_True, decide_False by congruence|
    rewrite decide_False, decide_True by congruence]; rewrite <- IH at 3; solve_Permutation.
Qed.

Lemma Forall_filter_keep {A} (P Q : A -> Prop) `{forall x, Decision (Q x)} (l : list A) :
  Forall P l -> Forall P (filter Q l).
Proof. rewrite !Forall_forall. intros H' x [_ Hx]%list_elem_of_filter. auto. Qed.

Lemma Forall_sublist {A} (P : A -> Prop) (l l' : list A) : l' `sublist_of` l -> Forall P l -> Forall P l'.
Proof. rewrite !Forall_forall. intros Hs H x Hx. by eapply H, elem_of_sublist. Qed.

Lemma map_id_cond c l : map data_id (map (fun d => set_cond d c) l) = map data_id l.
Proof. by rewrite map_map. Qed.

(** A lock with the instances of another. *)
Lemma core_ids_perm et l l' : ids l' ≡ₚ ids l -> core et l -> NoDup (ids l') /\ Z.of_nat (length (ids l')) < 2 ^ 32.
Proof. intros HP Hc. rewrite HP. split; apply Hc. Qed.

Lemma core_no_inserts et l : core et l -> Z.of_nat (no_inserts (read_wait l ++ read l)) < 2 ^ 32.
Proof.
  intros Hc. pose proof (core_small _ _ Hc) as H. unfold ids, instances in H.
  rewrite length_map, app_assoc, length_app in H.
  pose proof (no_inserts_length (read_wait l ++ read l)). lia.
Qed.

(** Unlinking takes exactly the instance out of its list. *)
Lemma unlink_split L d :
  NoDup (map data_id L) -> d ∈ L ->
  exists L1 L2, L = L1 ++ d :: L2 /\ unlink L (data_id d) = L1 ++ L2.
Proof.
  intros Hn (L1 & L2 & ->)%list_elem_of_split. exists L1, L2. split; [done|].
  rewrite map_app, map_cons in Hn. apply NoDup_app in Hn as (_ & Hd & Hn). inversion_clear Hn as [|? ? Hd2 _].
  unfold unlink. rewrite filter_app, filter_cons_False by (intros E; done).
  f_equal; apply list_filter_keep; intros x Hx E.
  - apply (Hd (data_id x)); [apply list_elem_of_fmap; eauto|]. rewrite E. set_solver.
  - apply Hd2. rewrite <- E. apply list_elem_of_fmap; eauto.
Qed.

(** ** Waking up *)

Section Wake.
Context (et : thr_lock_type) (max_write_lock_count : Z).
Implicit Types (l : THR_LOCK) (d : THR_LOCK_DATA).

(** What waking up never does: take a lock away or lose a request. *)
Record woken l l' : Prop := {
  woken_ids : ids l' ≡ₚ ids l;
  woken_read : exists R, read l' = read l ++ R;
  woken_write : exists W, write l' = write l ++ W
}.

Lemma woken_refl l l' : ids l' = ids l -> read l' = read l -> write l' = write l -> woken l l'.
Proof. intros E1 E2 E3. split; [by rewrite E1|exists []; by rewrite app_nil_r..]. Qed.

Lemma woken_trans l1 l2 l3 : woken l1 l2 -> woken l2 l3 -> woken l1 l3.
Proof.
  intros [H1 [R1 E1] [W1 F1]] [H2 [R2 E2] [W2 F2]]. split.
  - by rewrite H2.
  - exists (R1 ++ R2). by rewrite E2, E1, app_assoc.
  - exists (W1 ++ W2). by rewrite F2, F1, app_assoc.
Qed.

(** Readers that are freed may read beside the writers. *)
Lemma free_core l u :
  core et l ->
  (forall w r, w ∈ write l -> reader r = true -> (r = TL_READ_NO_INSERT -> u = false) ->
     shares r (type w) = true) ->
  core et (free_all_read_locks l u) /\ woken l (free_all_read_locks l u).
Proof.
  intros Hc Hs. set (kw := keeps_waiting u).
  assert (HP : ids (free_all_read_locks l u) ≡ₚ ids l).
  { unfold ids, instances, free_all_read_locks. cbn -[filter].
    rewrite <- (filter_split kw (read_wait l)) at 3.
    rewrite !map_app, map_id_cond. fold kw. solve_Permutation. }
  destruct (core_ids_perm _ _ _ HP Hc) as [H1 H2].
  assert (Hf : Forall (reading false) (map (fun d => set_cond d false)
    (filter (fun d => kw d = false) (read_wait l)))).
  { apply Forall_map, Forall_filter_keep. eapply Forall_impl; [apply Hc|]. intros d [Hd _]. by split. }
  split; [|split; [done|eexists; reflexivity|exists []; by rewrite app_nil_r]].
  split; try done.
  - apply Forall_filter_keep, Hc.
  - apply Forall_app. split; [apply Hc|done].
  - apply Hc.
  - apply Hc.
  - unfold free_all_read_locks. cbn -[filter u32]. rewrite no_inserts_app, no_inserts_cond, (core_count _ _ Hc).
    fold kw. fold (no_inserts (filter (fun d => kw d = false) (read_wait l))).
    pose proof (core_no_inserts _ _ Hc) as Hn. rewrite no_inserts_app in Hn.
    assert (Hle : (no_inserts (filter (fun d => kw d = false) (read_wait l)) <= no_inserts (read_wait l))%nat).
    { rewrite <- (filter_split kw (read_wait l)) at 2. rewrite no_inserts_app. lia. }
    unfold u32. rewrite Z.mod_small; lia.
  - apply compat_readers; [apply Hc|].
    intros r w (r' & -> & Hr)%list_elem_of_fmap Hw _. cbn.
    apply list_elem_of_filter in Hr as [Hk Hr].
    pose proof (core_rw _ _ Hc) as HF. rewrite Forall_forall in HF. apply Hs; [done|by apply HF|].
    intros Ht. unfold kw, keeps_waiting in Hk. rewrite bool_decide_eq_true_2 in Hk by done. done.
Qed.

Lemma free_waiting_core l u :
  core et l ->
  (forall w r, w ∈ write l -> reader r = true -> (r = TL_READ_NO_INSERT -> u = false) ->
     shares r (type w) = true) ->
  core et (free_waiting_readers l u) /\ woken l (free_waiting_readers l u).
Proof.
  intros Hc Hs. unfold free_waiting_readers.
  destruct (read_wait l); [split; [done|by apply woken_refl]|by apply free_core].
Qed.

(** [g] are the writers of [ww] that get the lock together, all of type [t]. *)
Record granted (t : thr_lock_type) (ww g others : list THR_LOCK_DATA) : Prop := {
  granted_ids : map data_id ww = map data_id g ++ map data_id others;
  granted_some : g <> [];
  granted_left : Forall (writing et true) others;
  granted_writing : Forall (writing et false) g;
  granted_type : Forall (fun d => type d = t) g;
  granted_one : (length g <= 1)%nat \/ t = TL_WRITE_ALLOW_WRITE
}.

Lemma granted_last t ww g others : granted t ww g others -> last_type g = t.
Proof.
  intros Hg. pose proof (granted_type _ _ _ _ Hg) as Ht. unfold last_type.
  destruct (last g) as [d|] eqn:E; [|apply last_None in E; by destruct (granted_some _ _ _ _ Hg)].
  apply last_Some in E as [g' ->]. apply Forall_app in Ht as [_ Ht]. by inversion Ht.
Qed.

Lemma granted_cons d t ww g others :
  writing et true d -> type d = TL_WRITE_ALLOW_WRITE ->
  granted t ww g others -> t = TL_WRITE_ALLOW_WRITE ->
  granted t (d :: ww) (set_cond d false :: g) others.
Proof.
  intros (H1 & H2 & H3) Ht [G1 G2 G3 G4 G5 G6] ->. split; [cbn; by rewrite G1|done|done| | |by right].
  - by constructor.
  - by constructor.
Qed.

Lemma granted_one_writer d ww :
  writing et false (set_cond d false) -> Forall (writing et true) ww ->
  granted (type d) (d :: ww) [set_cond d false] ww.
Proof. intros H1 H2. split; [done..|by constructor|by constructor|by left]. Qed.

Lemma grant_more_spec t ww :
  ww <> [] -> Forall (writing et true) ww -> (forall d, head ww = Some d -> type d = t) ->
  exists g others, grant_more t ww = (g, others) /\ granted t ww g others.
Proof.
  induction ww as [|d ww IH]; [done|]. intros _ HF Ht. inversion HF as [|? ? Hd HF']; subst.
  specialize (Ht d eq_refl). cbn [grant_more].
  assert (Hone : granted t (d :: ww) [set_cond d false] ww).
  { rewrite <- Ht. apply granted_one_writer; [|done]. by destruct Hd as (? & _ & ?). }
  destruct ww as [|d' ww]; [eauto|].
  case_match eqn:E; [|eauto]. bools.
  destruct IH as (g & others & -> & Hg); [done|done|intros ? [= <-]; congruence|].
  eexists _, _. split; [done|]. apply granted_cons; [done|congruence|done..].
Qed.

Lemma grant_writes_spec cs ww :
  ww <> [] -> Forall (writing et true) ww ->
  exists t g others, grant_writes cs ww = (g, others) /\ granted t ww g others /\
    (match ww with d :: _ => type d = TL_WRITE_ALLOW_WRITE -> t = TL_WRITE_ALLOW_WRITE | [] => True end).
Proof.
  induction ww as [|d ww IH]; [done|]. intros _ HF. inversion HF as [|? ? Hd HF']; subst.
  cbn [grant_writes].
  set (d1 := if bool_decide (type d = TL_WRITE_CONCURRENT_INSERT) && cs (status_param d)
             then set_type d TL_WRITE else d).
  assert (Hd1 : writing et true d1 /\ data_id d1 = data_id d /\
    (type d = TL_WRITE_ALLOW_WRITE -> type d1 = TL_WRITE_ALLOW_WRITE)).
  { unfold d1. destruct (_ && _) eqn:E; [bools|auto]. destruct Hd as (? & ? & ?). split; [split; [done|split; [done|intros Hx; vm_compute in Hx; done]]|split; [done|congruence]]. }
  destruct Hd1 as (Hd1 & Hid & Ha). clearbody d1.
  assert (Hone : granted (type d1) (d :: ww) [set_cond d1 false] ww).
  { destruct (granted_one_writer d1 ww) as [G1 G2 G3 G4 G5 G6]; [by destruct Hd1 as (? & _ & ?)|done|].
    split; try done. cbn. by rewrite Hid. }
  destruct ww as [|d' ww]; [eauto 6|]. cbn [set_cond type].
  destruct (_ && _) eqn:E; [|eauto 6]. bools.
  destruct IH as (t & g & others & -> & Hg & Ht); [done|done|].
  eexists t, _, _. split; [done|]. split; [|auto].
  destruct (granted_cons d1 t (d' :: ww) g others Hd1) as [G1 G2 G3 G4 G5 G6]; auto.
  split; try done. cbn in G1 |- *. by rewrite <- Hid.
Qed.

(** The writers get the lock. *)
Lemma grant_core l t g others :
  core et l -> write l = [] -> granted t (write_wait l) g others ->
  (forall r, r ∈ read l -> shares (type r) t = true) ->
  let l' := set_lists l (read_wait l) (read l) others (write l ++ g) in
  core et l' /\ woken l l'.
Proof.
  intros Hc Hw Hg Hr. cbn zeta. rewrite Hw. cbn [app].
  assert (HP : ids (set_lists l (read_wait l) (read l) others g) ≡ₚ ids l).
  { unfold ids, instances. cbn. rewrite Hw, !map_app, (granted_ids _ _ _ _ Hg). cbn. solve_Permutation. }
  destruct (core_ids_perm _ _ _ HP Hc) as [H1 H2]. destruct Hg as [G1 G2 G3 G4 G5 G6].
  split; [split; try done; try apply Hc|split; [done|exists []; by rewrite app_nil_r|exists g; cbn; by rewrite Hw]].
  rewrite Forall_forall in G5. apply compat_granted.
  - destruct G6 as [G6|G6]; [by left|right]. apply Forall_forall. intros d Hd. by rewrite (G5 d Hd).
  - intros r w Hr' Hw' _. cbn. rewrite (G5 w Hw'). auto.
Qed.

Lemma shares_free t r :
  writer t = true -> type_val t < type_val TL_WRITE_LOW_PRIORITY -> reader r = true ->
  (r = TL_READ_NO_INSERT -> is_concurrent t = false) -> shares r t = true.
Proof. destruct t; cbn; try done; try lia; intros _ _; destruct r; try done; intros _ H; specialize (H eq_refl); done. Qed.

(** Readers are freed together with the writers [g]. *)
Lemma grant_free_core l t g others :
  core et l -> write l = [] -> granted t (write_wait l) g others ->
  (forall r, r ∈ read l -> shares (type r) t = true) -> type_val t < type_val TL_WRITE_LOW_PRIORITY ->
  let l' := free_waiting_readers (set_lists l (read_wait l) (read l) others (write l ++ g)) (is_concurrent t) in
  core et l' /\ woken l l' /\ busy l'.
Proof.
  intros Hc Hw Hg Hr Hlt. destruct (grant_core l t g others) as [Hc1 Hg1]; auto.
  assert (Hgt : forall w, w ∈ write l ++ g -> writer (type w) = true /\ type w = t).
  { intros w. rewrite Hw. intros Hin. destruct Hg as [_ _ _ G4 G5 _]. rewrite Forall_forall in G4, G5.
    split; [by apply G4|by apply G5]. }
  destruct (free_waiting_core _ (is_concurrent t) Hc1) as [Hc2 Hg2].
  { intros w r Hin Hrd Hu. destruct (Hgt w Hin) as [Hw1 Hw2]. rewrite Hw2 in *. by apply shares_free. }
  cbn zeta. split; [done|]. split; [by eapply woken_trans|].
  intros E. destruct (woken_write _ _ Hg2) as [W HW]. rewrite E in HW. cbn in HW. rewrite Hw in HW.
  symmetry in HW. apply app_nil in HW as [HW _]. by destruct (granted_some _ _ _ _ Hg).
Qed.

Lemma count_zero l : core et l -> read_no_write_count l = 0 ->
  forall r, r ∈ read l -> type r <> TL_READ_NO_INSERT.
Proof. intros Hc H0. apply no_inserts_zero. rewrite (core_count _ _ Hc) in H0. lia. Qed.

(** No writer holds the lock: the readers get it. *)
Lemma free_no_writer l :
  core et l -> write l = [] -> (read_wait l = [] -> write_wait l = []) ->
  core et (free_waiting_readers l false) /\ woken l (free_waiting_readers l false) /\
  busy (free_waiting_readers l false).
Proof.
  intros Hc Hw Hrw. destruct (free_waiting_core l false Hc) as [H1 H2].
  { intros w r. rewrite Hw. by intros ?%elem_of_nil. }
  split; [done|]. split; [done|]. intros _. unfold free_waiting_readers.
  destruct (read_wait l) as [|d rw] eqn:E; [by rewrite E, Hrw|].
  unfold free_all_read_locks. rewrite E. cbn -[filter].
  rewrite (filter_none _ (d :: rw)) by (intros x _; unfold keeps_waiting; rewrite andb_false_r; done).
  split; [done|]. intros _ Hnil. apply app_nil in Hnil as [_ Hnil]. revert Hnil.
  rewrite filter_cons, decide_True; [done|]. unfold keeps_waiting. by rewrite andb_false_r.
Qed.

Lemma core_counts l c : core et l -> core et (set_counts l c (read_no_write_count l)).
Proof. intros [H1 H2 H3 H4 H5 H6 H7 H8]. by split. Qed.

Definition wakes l l' : Prop := core et l' /\ woken l l' /\ busy l'.

Lemma wake_writer_ok cs l :
  core et l -> write l = [] -> read l = [] -> write_wait l <> [] ->
  wakes l (wake_writer max_write_lock_count cs l).
Proof.
  intros Hc Hw Hr Hww. unfold wake_writer. cbn zeta.
  set (l1 := set_counts l _ _).
  assert (Hc1 : core et l1) by (by apply core_counts).
  assert (Hl1 : woken l l1) by (by apply woken_refl).
  change (wakes l (if (write_lock_count l >? max_write_lock_count) && negb (bool_decide (read_wait l1 = []))
    then free_all_read_locks l1 false else
    let '(g, others) := grant_writes cs (write_wait l1) in
    let l2 := set_lists l1 (read_wait l1) (read l1) others (write l1 ++ g) in
    if TL_WRITE_LOW_PRIORITY <=t last_type g then l2
    else free_waiting_readers l2 (is_concurrent (last_type g)))).
  destruct (_ && _) eqn:E.
  - bools. assert (Hrw : read_wait l1 <> []) by done.
    destruct (free_no_writer l1 Hc1 Hw) as (H1 & H2 & H3); [done|].
    unfold free_waiting_readers in *. destruct (read_wait l1); [done|].
    split_and!; [done|by eapply woken_trans|done].
  - destruct (grant_writes_spec cs (write_wait l1)) as (t & g & others & -> & Hg & _); [done|apply Hc1|].
    rewrite (granted_last _ _ _ _ Hg). cbn zeta.
    assert (Hsh : forall r, r ∈ read l1 -> shares (type r) t = true).
    { intros r. change (read l1) with (read l). rewrite Hr. by intros ?%elem_of_nil. }
    destruct (_ <=t t) eqn:Et.
    + destruct (grant_core l1 t g others) as [H1 H2]; [done..|]. split_and!; [done|by eapply woken_trans|].
      intros Hnil. cbn in Hnil. rewrite Hw in Hnil. by destruct (granted_some _ _ _ _ Hg).
    + destruct (grant_free_core l1 t g others) as (H1 & H2 & H3); [done..|lia|].
      split_and!; [done|by eapply woken_trans|done].
Qed.

Lemma wake_with_readers_ok cs l d ww :
  core et l -> write l = [] -> read l <> [] -> write_wait l = d :: ww ->
  type_val (type d) <= type_val TL_WRITE_DELAYED ->
  (is_concurrent (type d) = true -> read_no_write_count l = 0) ->
  wakes l (wake_with_readers cs l d).
Proof.
  intros Hc Hw Hr Hww Hd Hcount. unfold wake_with_readers.
  pose proof (core_ww _ _ Hc) as Hf. rewrite Hww in Hf. inversion Hf as [|? ? (Hd1 & Hd2 & Hd3) Hf']; subst.
  destruct (_ && _) eqn:E.
  - bools. rewrite Hww. set (l1 := set_lists _ _ _ _ _).
    assert (Hids : ids l1 = ids l) by (unfold l1, ids, instances; cbn -[map]; rewrite Hww, !map_app; cbn; by rewrite map_app).
    assert (Hc1 : core et l1).
    { destruct Hc as [C1 C2 C3 C4 C5 C6 C7 C8]. split; try done; [by rewrite Hids..|].
      constructor; [|done]. split_and!; [done..|]. intros Hx. vm_compute in Hx. done. }
    destruct (free_waiting_core l1 false Hc1) as [H1 H2].
    { intros w r. cbn. rewrite Hw. by intros ?%elem_of_nil. }
    split_and!; [done|eapply woken_trans; [|done]; by apply woken_refl|].
    intros Hnil. destruct (woken_read _ _ H2) as [R ->]. cbn.
    split; [|intros _ [Hn _]%app_nil; done].
    unfold free_waiting_readers. destruct (read_wait l1) eqn:Erw; [done|].
    unfold free_all_read_locks. done.
  - destruct (grant_more_spec (type d) (write_wait l)) as (g & others & -> & Hg);
      [by rewrite Hww|apply Hc|rewrite Hww; by intros ? [= <-]|].
    apply grant_free_core; try done; [|cbn in Hd |- *; lia].
    intros r Hr'. pose proof (core_r _ _ Hc) as Hrs. rewrite Forall_forall in Hrs.
    apply shares_free; [done|cbn in Hd |- *; lia|by apply Hrs|].
    intros Ht. destruct (is_concurrent (type d)) eqn:Ec; [|done].
    exfalso. by apply (count_zero l Hc (Hcount eq_refl) r Hr').
Qed.

(** Waking up keeps the lock in order and leaves nobody waiting for nothing. *)
Lemma wake_up_ok cs l : core et l -> wakes l (wake_up_waiters max_write_lock_count cs l).
Proof.
  intros Hc. unfold wake_up_waiters.
  destruct (write l) as [|w W] eqn:Hw; [|split_and!; [done|by apply woken_refl|unfold busy; by rewrite Hw]].
  destruct (read l) as [|r R] eqn:Hr, (write_wait l) as [|d ww] eqn:Hww.
  - by apply free_no_writer.
  - destruct (_ || _) eqn:E; [by apply wake_writer_ok; rewrite ?Hww|].
    apply orb_false_iff in E as [Ed Erw]. apply negb_false_iff in Ed. bools. rewrite Ed.
    apply free_no_writer; [done..|]. by intros Hrw; rewrite Hrw in Erw.
  - by apply free_no_writer.
  - destruct (_ && _) eqn:E.
    + bools. apply (wake_with_readers_ok cs l d ww); rewrite ?Hr; try done; [cbn in *; lia|].
      intros Hx. match goal with H : _ || _ = true |- _ => rewrite Hx in H; cbn in H; lia end.
    + split_and!; [done|by apply woken_refl|]. intros _. by rewrite Hr, Hww.
Qed.

End Wake.

(** ** The operations as steps *)

(** [Lock]: [thr_lock] until it returns or waits; [End_wait]: the rest of a
    wait. *)
Inductive lock_op :=
  | Lock (cs : nat -> bool) (d : THR_LOCK_DATA) (o : nat)
  | End_wait (cs : nat -> bool) (id : nat) (result : enum_thr_lock_result)
  | Unlock (cs : nat -> bool) (d : THR_LOCK_DATA)
  | Abort (upgrade_lock : bool)
  | Abort_thread (cs : nat -> bool) (thread_id : nat -> nat) (id : nat)
  | Downgrade (d : THR_LOCK_DATA) (t : thr_lock_type)
  | Upgrade (d : THR_LOCK_DATA) (t : thr_lock_type)
  | Reschedule (d : THR_LOCK_DATA).

Definition request_type (up : thr_lock_type) (l : THR_LOCK) (d : THR_LOCK_DATA) : thr_lock_type :=
  if bool_decide (type d = TL_WRITE_CONCURRENT_INSERT) && negb (has_check_status l) then up else type d.

(** What the callers keep to.  A request is for a new instance; an owner asks
    for write locks on a table it has write locks on only of types not
    stronger than these, which is what [sort_locks] is for; it does not ask
    for TL_READ_NO_INSERT with write locks of its own while others insert.
    Only the owner of the whole lock upgrades it to TL_WRITE_ONLY, and
    downgrades or reschedules it; only TL_WRITE_DELAYED locks are upgraded. *)
Definition op_ok (et up : thr_lock_type) (op : lock_op) (l : THR_LOCK) : Prop :=
  match op with
  | Lock _ d o =>
      data_id d ∉ ids l /\ Z.of_nat (length (ids l)) + 1 < 2 ^ 32 /\
      ((reader (type d) = true /\
        (type d = TL_READ_NO_INSERT -> has_old_lock (write l) o = true ->
         forall w, w ∈ write l -> owner w <> o -> type w <> TL_WRITE_CONCURRENT_INSERT)) \/
       (writer (type d) = true /\
        (is_concurrent (request_type up l d) = true -> request_type up l d = et) /\
        (type d <> TL_WRITE_DELAYED ->
         forall x, x ∈ write l -> owner x = o -> stronger (type x) (request_type up l d))))
  | End_wait _ _ _ | Abort_thread _ _ _ => True
  | Unlock _ d => d ∈ read l \/ d ∈ write l \/ (d ∈ write_wait l /\ type d = TL_WRITE_DELAYED)
  | Abort upgrade_lock =>
      upgrade_lock = true -> forall w x, head (write l) = Some w -> x ∈ read l ++ write l -> owner x = owner w
  | Downgrade d t =>
      write l = [d] /\ type d = TL_WRITE_ONLY /\ writer t = true /\ (is_concurrent t = true -> t = et)
  | Upgrade d t =>
      (t = TL_WRITE \/ t = TL_WRITE_LOW_PRIORITY) /\
      (type d = TL_UNLOCK \/ type_val TL_WRITE_LOW_PRIORITY <= type_val (type d) \/
       (type d = TL_WRITE_DELAYED /\ (d ∈ write l \/ d ∈ write_wait l)))
  | Reschedule d => write l = [d]
  end.

Definition exec_lock (maxw : Z) (up : thr_lock_type) (op : lock_op) (l : THR_LOCK) : THR_LOCK :=
  match op with
  | Lock cs d o =>
      let '(res, d, l) := thr_lock up cs l d o in
      match res with MUST_WAIT => start_wait l d | _ => l end
  | End_wait cs id result => snd (end_wait maxw cs l id result)
  | Unlock cs d => thr_unlock maxw cs l d
  | Abort upgrade_lock => thr_abort_locks l upgrade_lock
  | Abort_thread cs thread_id id => snd (thr_abort_locks_for_thread maxw cs thread_id l id)
  | Downgrade d t => thr_downgrade_write_lock l d t
  | Upgrade d t => snd (thr_upgrade_write_delay_lock l d t)
  | Reschedule d => match thr_reschedule_write_lock l d with Some (_, l) => l | None => l end
  end.

(** ** Requests *)

Section Steps.
Context (et up : thr_lock_type) (maxw : Z).
Hypothesis up_type : up = TL_WRITE \/ up = TL_WRITE_LOW_PRIORITY.
Implicit Types (l : THR_LOCK) (d : THR_LOCK_DATA).

(** A lock with one more instance. *)
Lemma ids_add l l' d :
  core et l -> data_id d ∉ ids l -> Z.of_nat (length (ids l)) + 1 < 2 ^ 32 ->
  ids l' ≡ₚ data_id d :: ids l -> NoDup (ids l') /\ Z.of_nat (length (ids l')) < 2 ^ 32.
Proof.
  intros Hc Hd Hs HP. rewrite HP. split; [constructor; [done|apply Hc]|cbn [length]; lia].
Qed.

Lemma add_read_core l d :
  core et l -> data_id d ∉ ids l -> Z.of_nat (length (ids l)) + 1 < 2 ^ 32 -> reading false d ->
  (forall w, w ∈ write l -> owner d <> owner w -> shares (type d) (type w) = true) ->
  core et (add_read l d).
Proof.
  intros Hc Hd Hs Hr Hw. destruct (ids_add l (add_read l d) d) as [H1 H2]; try done.
  { unfold ids, instances. cbn. rewrite !map_app. cbn. solve_Permutation. }
  pose proof (core_no_inserts _ _ Hc) as Hn. rewrite no_inserts_app in Hn.
  pose proof (no_inserts_length (read l)) as Hl.
  assert (Hlen : (length (read l) <= length (ids l))%nat).
  { unfold ids, instances. rewrite length_map, !length_app. lia. }
  split; try done; try apply Hc.
  - apply Forall_app. split; [apply Hc|by constructor].
  - unfold add_read. cbn [set_counts set_lists read_no_write_count read].
    rewrite no_inserts_app, no_inserts_one, (core_count _ _ Hc).
    case_bool_decide; [|lia]. unfold u32. rewrite Z.mod_small; lia.
  - apply compat_readers; [apply Hc|]. intros r w ->%list_elem_of_singleton. auto.
Qed.

Lemma add_write_core l d :
  core et l -> data_id d ∉ ids l -> Z.of_nat (length (ids l)) + 1 < 2 ^ 32 -> writing et false d ->
  compat (read l) (write l ++ [d]) -> core et (add_write l d).
Proof.
  intros Hc Hd Hs Hr Hw. destruct (ids_add l (add_write l d) d) as [H1 H2]; try done.
  { unfold ids, instances. cbn. rewrite !map_app. cbn. solve_Permutation. }
  split; try done; try apply Hc. apply Forall_app. split; [apply Hc|by constructor].
Qed.

(** Entering a wait list. *)
Lemma start_wait_core l d :
  core et l -> data_id d ∉ ids l -> Z.of_nat (length (ids l)) + 1 < 2 ^ 32 ->
  reading true (set_cond d true) \/ writing et true (set_cond d true) ->
  core et (start_wait l d).
Proof.
  intros Hc Hd Hs Hr. destruct (ids_add l (start_wait l d) d) as [H1 H2]; try done.
  { unfold ids, instances, start_wait. case_match; cbn; rewrite !map_app; cbn; solve_Permutation. }
  assert (Ht : match reader (type d) with true => type d <=t TL_READ_NO_INSERT = true
    | false => writer (type d) = true -> type d <=t TL_READ_NO_INSERT = false end)
    by (by destruct (type d)).
  unfold start_wait in *. cbn [set_cond type] in *.
  destruct Hr as [Hr|Hr]; pose proof Hr as [Hr1 _]; cbn in Hr1.
  - rewrite Hr1 in Ht. rewrite Ht in *. split; try done; try apply Hc.
    apply Forall_app. split; [apply Hc|by constructor].
  - destruct (reader (type d)) eqn:E; [by destruct (type d)|]. rewrite Ht in * by done.
    split; try done; try apply Hc. apply Forall_app. split; [apply Hc|by constructor].
Qed.

(** Behind a writer that lets readers in there are only such writers. *)
Lemma head_type l w W :
  core et l -> write l = w :: W -> type_val (type w) <= type_val TL_WRITE_DELAYED ->
  forall y, y ∈ write l -> type y = type w.
Proof.
  intros Hc Hw Hle y Hy. pose proof (core_w _ _ Hc) as HF. rewrite Forall_forall in HF.
  destruct (core_compat _ _ Hc) as [Ho Hww _].
  assert (Hwin : w ∈ write l) by (rewrite Hw; set_solver).
  destruct (HF w Hwin) as (Hw1 & _ & Hw3), (HF y Hy) as (Hy1 & _ & Hy3).
  destruct (decide (owner y = owner w)) as [Eo|Eo].
  - rewrite Hw in Ho, Hy. apply elem_of_cons in Hy as [->|Hy]; [done|].
    destruct Ho as [Ho _]. destruct (Ho y Hy (eq_sym Eo)) as (N1 & N2 & [Hv|[_ Hv]]); [|by rewrite Hv in Hle].
    assert (is_concurrent (type w) = true /\ is_concurrent (type y) = true) as [C1 C2]; [|by rewrite Hw3, Hy3].
    destruct (type w); cbn in Hle; try done; destruct (type y); cbn in Hv; try done; lia.
  - rewrite Hy3, Hw3; [done|by eapply (Hww w y)|by eapply (Hww y w)].
Qed.

Lemma busy_write l : write l <> [] -> busy l.
Proof. intros H E. done. Qed.

Lemma lock_read_ok l d :
  lock_wf et l -> data_id d ∉ ids l -> Z.of_nat (length (ids l)) + 1 < 2 ^ 32 -> reading false d ->
  (type d = TL_READ_NO_INSERT -> has_old_lock (write l) (owner d) = true ->
   forall w, w ∈ write l -> owner w <> owner d -> type w <> TL_WRITE_CONCURRENT_INSERT) ->
  lock_wf et (let '(res, l) := thr_lock_read l d in
              match res with MUST_WAIT => start_wait l d | _ => l end).
Proof.
  intros [Hc Hb] Hd Hs Hr Hn. unfold thr_lock_read.
  assert (Hcw : core et (start_wait l d)).
  { apply start_wait_core; [done..|]. left. by destruct Hr. }
  assert (Hrd : type d <=t TL_READ_NO_INSERT = true) by (destruct Hr as [Hr _]; by destruct (type d)).
  destruct (write l) as [|w W] eqn:Hw.
  - specialize (Hb Hw) as [Hb1 Hb2]. destruct (_ || _) eqn:E.
    + split; [apply add_read_core; try done; rewrite Hw; by intros ? ?%elem_of_nil|].
      intros _. cbn. split; [done|]. intros _ [_ ?]%app_nil. done.
    + split; [done|]. unfold start_wait. cbn [set_cond type]. rewrite Hrd. intros _. cbn.
      destruct (write_wait l); [done|]. split; [done|auto].
  - destruct (_ || _) eqn:E.
    + split; [|apply busy_write; cbn; by rewrite Hw]. apply add_read_core; try done.
      intros y Hy Hne. apply orb_true_iff in E as [E|E].
      * apply Nat.eqb_eq in E. assert (Hwo : owner w <> owner y) by congruence.
        destruct (core_compat _ _ Hc) as [_ Hww _].
        pose proof (Hww y w Hy ltac:(rewrite Hw; set_solver) (not_eq_sym Hwo)) as [Ey|Ey]%is_concurrent_cases; rewrite Ey; [|done].
        cbn. apply negb_true_iff, bool_decide_eq_false_2. intros Et.
        refine (Hn Et _ y _ (not_eq_sym Hne) Ey); [|by rewrite <- Hw].
        cbn. unfold thr_lock_owner_equal. by rewrite E, Nat.eqb_refl.
      * apply andb_prop in E as [E1 E2]. rewrite (head_type l w W Hc Hw ltac:(cbn in *; lia) y Hy).
        pose proof (core_w _ _ Hc) as HF. rewrite Hw in HF. inversion HF as [|? ? (Hw1 & _) _]; subst.
        destruct (type w); cbn in E1; try done. cbn. apply orb_true_iff in E2 as [E2|E2]; [|done].
        destruct (type d); done.
    + destruct (bool_decide (type w = TL_WRITE_ONLY)); [by split|]. split; [done|]. apply busy_write.
      unfold start_wait. case_match; cbn; by rewrite Hw.
Qed.

(** A writer that joins writers of its own type, or its own. *)
Lemma write_again_compat l d w W :
  core et l -> write l = w :: W -> writing et false d ->
  (forall x, x ∈ write l -> owner x = owner d -> stronger (type x) (type d)) ->
  write_again l d w = true -> compat (read l) (write l ++ [d]).
Proof.
  intros Hc Hw (Hd1 & _ & Hd3) Hst E. pose proof (core_compat _ _ Hc) as Hco.
  assert (Hty : forall x, x ∈ write l -> writing et false x) by (by apply Forall_forall, Hc).
  unfold write_again in E. apply orb_true_iff in E as [E|E].
  - bools. match goal with H : (read_no_write_count l =? 0) = true |- _ => apply Z.eqb_eq in H end.
    assert (Hdc : is_concurrent (type d) = true).
    { apply is_concurrent_cases.
      match goal with H : _ || _ = true |- _ => apply orb_true_iff in H as [H|H] end; bools; auto. }
    assert (Hwd : type_val (type w) <= type_val TL_WRITE_DELAYED).
    { match goal with H : type w = type d |- _ => rewrite H end.
      apply is_concurrent_cases in Hdc as [->| ->]; cbn; lia. }
    apply compat_writer; [done| | |].
    + intros x Hx Ho. by apply Hst.
    + intros x Hx _. rewrite (head_type l w W Hc Hw Hwd x Hx).
      match goal with H : type w = type d |- _ => by rewrite H end.
    + intros r Hr _. pose proof (count_zero _ l Hc ltac:(eassumption) r Hr) as Hnr.
      apply is_concurrent_cases in Hdc as [->| ->]; [|done]. cbn. by rewrite bool_decide_eq_false_2.
  - apply existsb_exists in E as (x & Hx%list_elem_of_In & Eo%Nat.eqb_eq).
    destruct (Hst x Hx Eo) as (N1 & N2 & Hv). destruct (Hty x Hx) as (Hx1 & _ & Hx3).
    assert (Hcc : is_concurrent (type x) = true -> type d = type x).
    { intros C. assert (Cd : is_concurrent (type d) = true); [|by rewrite Hx3, Hd3].
      apply is_concurrent_cases in C as [C|C]; rewrite C in Hv;
        (destruct Hv as [Hv|[_ Hv]]; [|done]); destruct (type d); cbn in *; try done; lia. }
    apply compat_writer; [done| | |].
    + intros y Hy Ho. by apply Hst.
    + intros y Hy Ho. assert (Cx : is_concurrent (type x) = true)
        by (apply (compat_ww _ _ Hco x y Hx Hy); congruence).
      rewrite (Hcc Cx). split; [apply (compat_ww _ _ Hco y x Hy Hx); congruence|done].
    + intros r Hr Ho. pose proof (compat_rw _ _ Hco r x Hr Hx ltac:(congruence)) as Hsh.
      destruct (is_concurrent (type x)) eqn:C; [by rewrite (Hcc eq_refl)|].
      destruct (type x); cbn in Hx1, Hsh; done.
Qed.

Lemma writing_up c d : cond d = c -> writing et c (set_type d up).
Proof. intros <-. destruct up_type as [-> | ->]; split_and!; try done; intros Hx; vm_compute in Hx; done. Qed.

Lemma check_insert_ok cs d c :
  writing et c d -> writing et c (check_insert up cs d) /\ data_id (check_insert up cs d) = data_id d.
Proof.
  intros Hd. unfold check_insert. destruct (_ && _); [|done]. split; [|done]. apply writing_up, Hd.
Qed.

(** The first writer. *)
Lemma write_first_compat cs l d d' :
  core et l -> write l = [] -> writing et false d -> write_first up cs l d = Some d' ->
  writing et false d' /\ data_id d' = data_id d /\ compat (read l) [d'].
Proof.
  intros Hc Hw Hd. unfold write_first. destruct (negb _); [done|].
  cbn zeta. intros E.
  pose proof (check_insert_ok cs d false Hd) as Hd1. set (d1 := check_insert up cs d) in *.
  clearbody d1. destruct (_ || _) eqn:Ec; [|done]. injection E as <-.
  destruct Hd1 as [Hw1 Hid]. split; [done|]. split; [done|].
  apply compat_granted; [left; cbn; lia|].
  intros r w Hr ->%list_elem_of_singleton _. apply orb_true_iff in Ec as [Ec|Ec]; bools.
  - rewrite Ec in Hr. by apply elem_of_nil in Hr.
  - pose proof (core_r _ _ Hc) as HF. rewrite Forall_forall in HF.
    apply shares_free; [apply Hw1|cbn in *; lia|by apply HF|]. intros Ht.
    match goal with H : _ || _ = true |- _ => apply orb_true_iff in H as [H|H] end; [by apply negb_true_iff|].
    exfalso. eapply (count_zero et l Hc); [|done..]. lia.
Qed.

Lemma write_waits l d :
  lock_wf et l -> data_id d ∉ ids l -> Z.of_nat (length (ids l)) + 1 < 2 ^ 32 ->
  writing et false d -> (write l = [] -> write_wait l = [] -> read l <> []) ->
  lock_wf et (start_wait l d) /\
  start_wait l d = set_lists l (read_wait l) (read l) (write_wait l ++ [set_cond d true]) (write l).
Proof.
  intros [Hc Hb] Hd Hs (Hw1 & Hw2 & Hw3) Hr.
  assert (E : start_wait l d = set_lists l (read_wait l) (read l) (write_wait l ++ [set_cond d true]) (write l)).
  { unfold start_wait. cbn [set_cond type]. by destruct (type d). }
  split; [|done]. split; [apply start_wait_core; [done..|]; right; by split_and!|].
  rewrite E. intros Hw. cbn in *. specialize (Hb Hw) as [_ Hb2]. split; [by intros [_ ?]%app_nil|].
  intros _. destruct (write_wait l); auto.
Qed.

Lemma lock_first_ok cs l d :
  lock_wf et l -> data_id d ∉ ids l -> Z.of_nat (length (ids l)) + 1 < 2 ^ 32 ->
  writing et false d -> write l = [] ->
  lock_wf et (match write_first up cs l d with
              | Some d' => add_write l d'
              | None => start_wait l (waiting_type up cs l d)
              end).
Proof.
  intros [Hc Hb] Hd Hs Hwd Hw. destruct (write_first up cs l d) as [d'|] eqn:Ef.
  - destruct (write_first_compat cs l d d') as (H1 & H2 & H3); [done..|].
    split; [|apply busy_write; cbn; by rewrite Hw]. apply add_write_core; rewrite ?Hw, ?H2; done.
  - assert (Hwt : writing et false (waiting_type up cs l d) /\ data_id (waiting_type up cs l d) = data_id d).
    { unfold waiting_type. destruct (_ && _); [by apply check_insert_ok|done]. }
    destruct Hwt as [Hwt1 Hwt2]. apply write_waits; [done|by rewrite Hwt2|done..|].
    intros _ Hww Hr. unfold write_first in Ef. rewrite Hww, Hr in Ef. by rewrite !bool_decide_eq_true_2 in Ef.
Qed.

Lemma lock_write_ok cs l d :
  lock_wf et l -> data_id d ∉ ids l -> Z.of_nat (length (ids l)) + 1 < 2 ^ 32 ->
  writer (type d) = true -> cond d = false ->
  (is_concurrent (request_type up l d) = true -> request_type up l d = et) ->
  (type d <> TL_WRITE_DELAYED ->
   forall x, x ∈ write l -> owner x = owner d -> stronger (type x) (request_type up l d)) ->
  lock_wf et (let '(res, d, l) := thr_lock_write up cs l d in
              match res with MUST_WAIT => start_wait l d | _ => l end).
Proof.
  intros [Hc Hb] Hd Hs Hw Hcd Het Hst. unfold thr_lock_write. cbn zeta.
  set (only := match write l with w :: _ => _ | [] => false end).
  destruct (bool_decide (type d = TL_WRITE_DELAYED)) eqn:Edel; cbn [andb negb].
  - apply bool_decide_eq_true_1 in Edel. destruct only; [done|].
    assert (Hwd : writing et false d) by (split_and!; [done..|]; by rewrite Edel).
    destruct (bool_decide (write l = []) && bool_decide (read l = [])) eqn:E; cbn [negb].
    + bools. rewrite H. pose proof (lock_first_ok cs l d) as Hf.
      destruct (write_first up cs l d); by apply Hf.
    + destruct (write_waits l d) as [H1 <-]; try done. intros H1 _ H2.
      by rewrite H1, H2, !bool_decide_eq_true_2 in E.
  - apply bool_decide_eq_false_1 in Edel. specialize (Hst Edel).
    set (d1 := if _ && _ then _ else d).
    assert (Hd1 : writing et false d1 /\ data_id d1 = data_id d /\ owner d1 = owner d /\ type d1 = request_type up l d).
    { unfold d1, request_type in *. destruct (_ && _); [split; [by apply writing_up|done]|]. by split_and!. }
    clearbody d1. destruct Hd1 as (Hd1 & Hid & Ho & Ht). rewrite <- Hid in Hd. rewrite <- Ho in Hst. rewrite <- Ht in Hst.
    destruct (write l) as [|w W] eqn:Hwl.
    + pose proof (lock_first_ok cs l d1) as Hf. destruct (write_first up cs l d1); by apply Hf.
    + destruct (only && _); [done|]. destruct (write_again l d1 w) eqn:Ea.
      * split; [|apply busy_write; cbn; by rewrite Hwl].
        apply add_write_core; try done. apply (write_again_compat l d1 w W); rewrite ?Hwl; done.
      * apply write_waits; [done..|]. by rewrite Hwl.
Qed.

(** ** Releases and aborts *)

(** Fewer instances. *)
Lemma core_sublists l rw r ww w c rc :
  core et l -> rw `sublist_of` read_wait l -> r `sublist_of` read l ->
  ww `sublist_of` write_wait l -> w `sublist_of` write l -> rc = Z.of_nat (no_inserts r) ->
  core et (set_counts (set_lists l rw r ww w) c rc).
Proof.
  intros Hc H1 H2 H3 H4 Hrc.
  assert (Hs : ids (set_counts (set_lists l rw r ww w) c rc) `sublist_of` ids l).
  { unfold ids, instances. cbn. rewrite !map_app. repeat apply sublist_app; by apply fmap_sublist. }
  split; try done.
  - eapply sublist_NoDup; [apply Hc|done].
  - pose proof (sublist_length _ _ Hs). pose proof (core_small _ _ Hc). lia.
  - cbn. eapply Forall_sublist; [done|apply Hc].
  - cbn. eapply Forall_sublist; [done|apply Hc].
  - cbn. eapply Forall_sublist; [done|apply Hc].
  - cbn. eapply Forall_sublist; [done|apply Hc].
  - eapply compat_sublist; [|done|apply Hc]. intros x Hx. by eapply elem_of_sublist.
Qed.

Lemma core_sublists' l rw ww w :
  core et l -> rw `sublist_of` read_wait l -> ww `sublist_of` write_wait l -> w `sublist_of` write l ->
  core et (set_lists l rw (read l) ww w).
Proof.
  intros Hc H1 H2 H3.
  apply (core_sublists l rw (read l) ww w (write_lock_count l) (read_no_write_count l)); try done. apply Hc.
Qed.

Lemma unlink_sublist L id : unlink L id `sublist_of` L.
Proof. apply sublist_filter. Qed.

Lemma read_ids_nodup l : core et l -> NoDup (map data_id (read l)).
Proof.
  intros Hc. pose proof (core_ids _ _ Hc) as H. unfold ids, instances in H. rewrite !map_app in H.
  apply NoDup_app in H as (_ & _ & H). by apply NoDup_app in H as (H & _ & _).
Qed.

Lemma wakes_wf l l' : wakes et l l' -> lock_wf et l'.
Proof. intros (H1 & _ & H2). by split. Qed.

(** The lock without the instance, before anybody is woken. *)
Definition unlocked l d : THR_LOCK :=
  let l1 :=
    if type d <=t TL_READ_NO_INSERT then
      set_lists l (read_wait l) (unlink (read l) (data_id d)) (write_wait l) (write l)
    else if bool_decide (type d = TL_WRITE_DELAYED) && cond d then
      set_lists l (read_wait l) (read l) (unlink (write_wait l) (data_id d)) (write l)
    else set_lists l (read_wait l) (read l) (write_wait l) (unlink (write l) (data_id d)) in
  if bool_decide (type d = TL_READ_NO_INSERT)
  then set_counts l1 (write_lock_count l1) (u32 (read_no_write_count l1 - 1)) else l1.

Lemma unlocked_core l d :
  core et l -> d ∈ read l \/ d ∈ write l \/ (d ∈ write_wait l /\ type d = TL_WRITE_DELAYED) ->
  core et (unlocked l d).
Proof.
  intros Hc Hd. unfold unlocked. destruct Hd as [Hd|Hd].
  - pose proof (core_r _ _ Hc) as HF. rewrite Forall_forall in HF. destruct (HF d Hd) as [Hr _].
    assert (Hle : type d <=t TL_READ_NO_INSERT = true) by (by destruct (type d)). rewrite Hle. cbn zeta.
    destruct (unlink_split (read l) d (read_ids_nodup l Hc) Hd) as (L1 & L2 & EL & Eu).
    pose proof (core_count _ _ Hc) as Hn. pose proof (core_no_inserts _ _ Hc) as Hb.
    rewrite no_inserts_app in Hb. rewrite EL, no_inserts_app, no_inserts_cons, no_inserts_one in Hn, Hb.
    assert (Hrc : forall rc, rc = Z.of_nat (no_inserts L1 + no_inserts L2) ->
      core et (set_counts (set_lists l (read_wait l) (unlink (read l) (data_id d)) (write_wait l) (write l))
        (write_lock_count l) rc)).
    { intros rc ->. apply core_sublists; try done; [apply unlink_sublist|]. by rewrite Eu, no_inserts_app. }
    case_bool_decide; [apply Hrc|apply (Hrc (read_no_write_count l)); lia].
    cbn. unfold u32. rewrite Z.mod_small; lia.
  - assert (Hw : writer (type d) = true).
    { destruct Hd as [Hd|[_ ->]]; [|done]. pose proof (core_w _ _ Hc) as HF. rewrite Forall_forall in HF. by apply HF. }
    assert (Hle : type d <=t TL_READ_NO_INSERT = false) by (by destruct (type d)). rewrite Hle. cbn zeta.
    rewrite (bool_decide_eq_false_2 (type d = TL_READ_NO_INSERT)) by (by destruct (type d)).
    destruct (_ && _); apply core_sublists'; try done; apply unlink_sublist.
Qed.

Lemma unlock_ok cs l d :
  core et l -> d ∈ read l \/ d ∈ write l \/ (d ∈ write_wait l /\ type d = TL_WRITE_DELAYED) ->
  wakes et (unlocked l d) (thr_unlock maxw cs l d).
Proof. intros Hc Hd. by apply wake_up_ok, unlocked_core. Qed.

Lemma end_wait_ok cs l id res : lock_wf et l -> lock_wf et (snd (end_wait maxw cs l id res)).
Proof.
  intros [Hc Hb]. unfold end_wait. destruct (_ || _); [|by destruct (_ || _)].
  eapply wakes_wf, wake_up_ok, core_sublists'; try done; apply unlink_sublist.
Qed.

Lemma abort_thread_ok cs thread_id l id :
  core et l -> lock_wf et (snd (thr_abort_locks_for_thread maxw cs thread_id l id)).
Proof.
  intros Hc. eapply wakes_wf, wake_up_ok, core_sublists'; try done; apply sublist_filter.
Qed.

Lemma abort_ok u l : lock_wf et l -> op_ok et up (Abort u) l -> lock_wf et (thr_abort_locks l u).
Proof.
  intros [Hc Hb] Hok. split; [|by intros _]. unfold thr_abort_locks.
  destruct (write l) as [|w W] eqn:Hw; [apply core_sublists'; rewrite ?Hw; done || apply sublist_nil_l|].
  assert (Hc0 : core et (set_lists l [] (read l) [] (write l)))
    by (apply core_sublists'; done || apply sublist_nil_l).
  destruct u; [|by rewrite Hw in Hc0]. rewrite Hw in Hc0.
  cbn [op_ok] in Hok. rewrite Hw in Hok. specialize (Hok eq_refl w).
  assert (Hids : ids (set_lists l [] (read l) [] (set_type w TL_WRITE_ONLY :: W)) =
    ids (set_lists l [] (read l) [] (w :: W))) by (unfold ids, instances; cbn; by rewrite !map_app).
  destruct Hc0 as [H1 H2 H3 H4 H5 H6 H7 H8]. split; rewrite ?Hids; try done.
  - cbn in *. inversion_clear H6 as [|? ? (_ & Hcd & _) HW]. constructor; [|done].
    split_and!; [done..|]. intros Hx. vm_compute in Hx. done.
  - cbn in *. destruct H8 as [[Ho1 Ho2] _ _]. split; [split; [|done]| |].
    + intros y Hy E. destruct (Ho1 y Hy E) as (_ & Hn & _). split_and!; [done|done|].
      left. cbn. destruct (type y); cbn; lia.
    + assert (Hall : forall x, x ∈ set_type w TL_WRITE_ONLY :: W -> owner x = owner w).
      { intros x [->|Hx]%elem_of_cons; [done|]. apply Hok; [done|set_solver]. }
      intros x y Hx%Hall Hy%Hall. congruence.
    + intros r y Hr Hy Hne. exfalso. apply Hne. rewrite (Hok r eq_refl) by set_solver.
      apply elem_of_cons in Hy as [->|Hy]; [done|]. symmetry. apply Hok; [done|set_solver].
Qed.

(** ** Changes of type *)

Lemma retype_ids L id t : map data_id (retype L id t) = map data_id L.
Proof. unfold retype. rewrite map_map. apply map_ext. intros d. by destruct (_ =? _)%nat. Qed.

Lemma downgrade_ok l d t :
  lock_wf et l -> op_ok et up (Downgrade d t) l -> lock_wf et (thr_downgrade_write_lock l d t).
Proof.
  intros [Hc Hb] (Hw & Hd & Ht & Het). unfold thr_downgrade_write_lock.
  split; [|apply busy_write; cbn; by rewrite Hw].
  assert (E : retype (write l) (data_id d) t = [set_type d t]).
  { rewrite Hw. cbn. by rewrite Nat.eqb_refl. }
  destruct (core_ids_perm et l (set_lists l (read_wait l) (read l) (write_wait l)
    (retype (write l) (data_id d) t))) as [H1 H2]; [|done|].
  { unfold ids, instances. cbn. by rewrite !map_app, retype_ids. }
  rewrite E in *. destruct Hc as [_ _ H3 H4 H5 H6 H7 H8]. split; try done.
  - constructor; [|done]. rewrite Hw in H6. inversion_clear H6 as [|? ? (_ & Hcd & _) _]. by split_and!.
  - apply compat_granted; [left; cbn; lia|]. cbn. intros r w Hr ->%list_elem_of_singleton Hne.
    pose proof (compat_rw _ _ H8 r d Hr ltac:(rewrite Hw; set_solver) Hne) as Hsh. by rewrite Hd in Hsh.
Qed.

Lemma delayed_alone l d : core et l -> d ∈ write l -> type d = TL_WRITE_DELAYED -> write l = [d].
Proof.
  intros Hc Hd Ht. destruct (core_compat _ _ Hc) as [Ho Hww _].
  assert (Hone : forall y, y ∈ write l -> owner d = owner y).
  { intros y Hy. destruct (decide (owner d = owner y)) as [|Hn]; [done|].
    pose proof (Hww d y Hd Hy Hn) as Hx. rewrite Ht in Hx. vm_compute in Hx. done. }
  apply list_elem_of_split in Hd as (L1 & L2 & E). rewrite E in *.
  apply ordered_app in Ho as (_ & [Ho2 _] & Ho1).
  destruct L1 as [|y L1].
  - destruct L2 as [|y L2]; [done|]. destruct (Ho2 y) as [Hx _]; [set_solver|apply Hone; set_solver|done].
  - destruct (Ho1 y d) as (_ & Hx & _); [set_solver..| |done]. symmetry. apply Hone. set_solver.
Qed.

Lemma unlink_one d : unlink [d] (data_id d) = [].
Proof. apply filter_none. intros x ->%list_elem_of_singleton Hx. done. Qed.

Lemma writing_plain t c d :
  t = TL_WRITE \/ t = TL_WRITE_LOW_PRIORITY -> cond d = c -> writing et c (set_type d t).
Proof. intros [-> | ->] <-; split_and!; try done; intros Hx; vm_compute in Hx; done. Qed.

(** The only write lock, with no readers, gets a type. *)
Lemma retype_held_core l d t :
  core et l -> write l = [d] -> read l = [] -> writing et false (set_type d t) ->
  core et (set_lists l (read_wait l) (read l) (write_wait l) (retype (write l) (data_id d) t)).
Proof.
  intros Hc Hw Hr Ht.
  destruct (core_ids_perm et l (set_lists l (read_wait l) (read l) (write_wait l)
    (retype (write l) (data_id d) t))) as [H1 H2]; [|done|].
  { unfold ids, instances. cbn. by rewrite !map_app, retype_ids. }
  assert (E : retype (write l) (data_id d) t = [set_type d t]).
  { rewrite Hw. cbn. by rewrite Nat.eqb_refl. }
  rewrite E in *. destruct Hc as [_ _ H3 H4 H5 H6 H7 H8]. split; try done; [by constructor|].
  apply compat_granted; [left; cbn; lia|]. cbn. rewrite Hr. by intros r w ?%elem_of_nil.
Qed.

(** The only write lock goes to the front of the wait list. *)
Lemma requeue_core l d d' :
  core et l -> write l = [d] -> data_id d' = data_id d -> writing et true d' ->
  core et (set_lists l (read_wait l) (read l) (d' :: write_wait l) (unlink (write l) (data_id d))).
Proof.
  intros Hc Hw Hid Hd'. rewrite Hw, unlink_one.
  destruct (core_ids_perm et l (set_lists l (read_wait l) (read l) (d' :: write_wait l) [])) as [H1 H2]; [|done|].
  { unfold ids, instances. cbn. rewrite Hw, app_nil_r, !map_app. cbn. rewrite Hid. solve_Permutation. }
  destruct Hc as [_ _ H3 H4 H5 H6 H7 H8]. split; try done; [by constructor|].
  eapply compat_sublist; [|apply sublist_nil_l|exact H8]. done.
Qed.

Lemma retype_waiting_core l id t :
  core et l -> t = TL_WRITE \/ t = TL_WRITE_LOW_PRIORITY ->
  core et (set_lists l (read_wait l) (read l) (retype (write_wait l) id t) (write l)).
Proof.
  intros Hc Ht. destruct (core_ids_perm et l (set_lists l (read_wait l) (read l)
    (retype (write_wait l) id t) (write l))) as [H1 H2]; [|done|].
  { unfold ids, instances. cbn. by rewrite !map_app, retype_ids. }
  destruct Hc as [_ _ H3 H4 H5 H6 H7 H8]. split; try done. apply Forall_map.
  eapply Forall_impl; [done|]. intros x (? & ? & ?).
  destruct (_ =? _)%nat; [by apply writing_plain|by split_and!].
Qed.

Lemma upgrade_ok l d t :
  lock_wf et l -> op_ok et up (Upgrade d t) l -> lock_wf et (snd (thr_upgrade_write_delay_lock l d t)).
Proof.
  intros [Hc Hb] [Ht Hd]. unfold thr_upgrade_write_delay_lock.
  destruct (_ || _) eqn:E0; [done|]. apply orb_false_iff in E0 as [E1 E2]. bools.
  destruct Hd as [Hd|[Hd|[Hd Hin]]]; [done|cbn in *; lia|].
  pose proof (core_ww _ _ Hc) as Fww. pose proof (core_w _ _ Hc) as Fw. rewrite Forall_forall in Fww, Fw.
  destruct Hin as [Hin|Hin].
  - destruct (Fw d Hin) as (_ & Hcd & _). rewrite Hcd. cbn [negb].
    pose proof (delayed_alone l d Hc Hin Hd) as Hw.
    pose proof (retype_held_core l d t Hc Hw) as Hheld.
    destruct (writing_plain t false d Ht Hcd) as (Hp1 & Hp2 & Hp3).
    pose proof (requeue_core l d (set_cond (set_type d t) true) Hc Hw eq_refl) as Hq.
    destruct (read l) as [|r R] eqn:Hr; cbn [snd]; try rewrite Hr in Hheld; try rewrite Hr in Hq.
    + split; [apply Hheld; [done|by split_and!]|]. apply busy_write. cbn. by rewrite Hw.
    + split; [apply Hq; by split_and!|]. by intros _.
  - destruct (Fww d Hin) as (_ & Hcd & _). rewrite Hcd. cbn [negb snd].
    split; [by apply retype_waiting_core|]. intros Hw. destruct (Hb Hw) as [Hb1 Hb2].
    cbn. unfold retype. destruct (write_wait l); split; auto; done.
Qed.

Lemma reschedule_ok l d :
  lock_wf et l -> write l = [d] ->
  lock_wf et (match thr_reschedule_write_lock l d with Some (_, l') => l' | None => l end).
Proof.
  intros [Hc Hb] Hw. unfold thr_reschedule_write_lock.
  destruct (read_wait l) as [|r0 R0] eqn:Hrw; [done|].
  rewrite <- Hrw. set (l1 := set_lists _ _ _ _ _).
  assert (Hc1 : core et l1).
  { apply requeue_core; [done..|]. split_and!; [done..|]. intros Hx. vm_compute in Hx. done. }
  assert (Hw1 : write l1 = []) by (unfold l1; cbn; rewrite Hw; apply unlink_one).
  assert (Hfree : free_all_read_locks l1 false = free_waiting_readers l1 false)
    by (unfold free_waiting_readers; change (read_wait l1) with (read_wait l); by rewrite Hrw).
  rewrite Hfree. destruct (free_no_writer et l1 Hc1 Hw1) as (H1 & _ & H2); [|by split].
  change (read_wait l1) with (read_wait l). by rewrite Hrw.
Qed.

(** ** Every step *)

Lemma exec_lock_ok op l : lock_wf et l -> op_ok et up op l -> lock_wf et (exec_lock maxw up op l).
Proof.
  intros Hwf Hok. destruct op as [cs d o|cs id res|cs d|u|cs tid id|d t|d t|d]; cbn [exec_lock].
  - destruct Hok as (Hid & Hs & Hok). unfold thr_lock.
    set (d1 := set_priority _ _). change (type (set_owner _ _)) with (type d) in *.
    assert (Ht : type d1 = type d) by done. rewrite Ht.
    destruct Hok as [[Hr Hn]|(Hw & Het & Hst)].
    + assert (Hle : type d <=t TL_READ_NO_INSERT = true) by (by destruct (type d)). rewrite Hle.
      pose proof (lock_read_ok l d1 Hwf Hid Hs) as H.
      destruct (thr_lock_read l d1) as [res l']. apply H; [by split|done].
    + assert (Hle : type d <=t TL_READ_NO_INSERT = false) by (by destruct (type d)). rewrite Hle.
      pose proof (lock_write_ok cs l d1 Hwf Hid Hs) as H.
      destruct (thr_lock_write up cs l d1) as [[res d'] l']. by apply H.
  - by apply end_wait_ok.
  - eapply wakes_wf, unlock_ok; [apply Hwf|done].
  - by apply abort_ok.
  - apply abort_thread_ok, Hwf.
  - by apply downgrade_ok.
  - by apply upgrade_ok.
  - by apply reschedule_ok.
Qed.

Lemma init_wf has_check multiple : lock_wf et (thr_lock_init has_check multiple).
Proof.
  split; [|done]. split; try done; try constructor; try done.
  - intros x y ?%elem_of_nil. done.
  - intros r w ?%elem_of_nil. done.
Qed.

(** The states of a table lock. *)
Inductive lock_reachable : THR_LOCK -> Prop :=
  | lock_start has_check multiple : lock_reachable (thr_lock_init has_check multiple)
  | lock_step op l : lock_reachable l -> op_ok et up op l -> lock_reachable (exec_lock maxw up op l).

Lemma lock_reachable_wf l : lock_reachable l -> lock_wf et l.
Proof. induction 1; [apply init_wf|by apply exec_lock_ok]. Qed.

End Steps.

(** ** The properties of a table lock *)

(** Which locks two owners may hold together. *)
Definition may_hold (x y : thr_lock_type) : bool :=
  match reader x, reader y with
  | true, true => true
  | true, false => shares x y
  | false, true => shares y x
  | false, false => bool_decide (x = y) && is_concurrent x
  end.

(** C5: The locks that different owners hold on one table at a time are allowed
    together by the compatibility matrix, in every state that a sequence of
    requests, waits, releases, aborts and changes of type reaches whose callers
    keep to [op_ok]. *)
Theorem table_locks_compatible et up maxw l x y :
  up = TL_WRITE \/ up = TL_WRITE_LOW_PRIORITY -> lock_reachable et up maxw l ->
  x ∈ read l ++ write l -> y ∈ read l ++ write l -> owner x <> owner y ->
  may_hold (type x) (type y) = true.
Proof.
  intros Hup [Hc _]%lock_reachable_wf Hx Hy Ho; [|done].
  destruct (core_compat _ _ Hc) as [_ Hww Hrw].
  pose proof (core_r _ _ Hc) as Fr. pose proof (core_w _ _ Hc) as Fw. rewrite Forall_forall in Fr, Fw.
  assert (Hnr : forall z, z ∈ write l -> reader (type z) = false).
  { intros z Hz. destruct (Fw z Hz) as [Hz' _]. by destruct (type z). }
  unfold may_hold. apply elem_of_app in Hx as [Hx|Hx], Hy as [Hy|Hy].
  - by rewrite (proj1 (Fr x Hx)), (proj1 (Fr y Hy)).
  - rewrite (proj1 (Fr x Hx)), (Hnr y Hy). by apply Hrw.
  - rewrite (Hnr x Hx), (proj1 (Fr y Hy)). apply Hrw; [done..|congruence].
  - rewrite (Hnr x Hx), (Hnr y Hy).
    pose proof (Hww x y Hx Hy Ho) as Cx. pose proof (Hww y x Hy Hx (not_eq_sym Ho)) as Cy.
    destruct (Fw x Hx) as (_ & _ & Ex), (Fw y Hy) as (_ & _ & Ey).
    rewrite Cx, bool_decide_eq_true_2; [done|]. by rewrite Ex, Ey.
Qed.

(** ** Progress *)

Lemma ids_in l id :
  id ∈ ids l <-> id ∈ map data_id (read_wait l ++ write_wait l) \/ id ∈ map data_id (read l ++ write l).
Proof. unfold ids, instances. rewrite !map_app, !elem_of_app. tauto. Qed.

Section Progress.
Context (et up : thr_lock_type) (maxw : Z) (cs : nat -> bool).
(** Which holder releases its lock next. *)
Context (choose : THR_LOCK -> option THR_LOCK_DATA).
Hypothesis choose_held : forall l, read l ++ write l <> [] ->
  exists d, choose l = Some d /\ d ∈ read l ++ write l.
Implicit Types (l : THR_LOCK).

Definition release l : THR_LOCK :=
  match choose l with Some d => thr_unlock maxw cs l d | None => l end.

Lemma unlocked_ids l d :
  core et l -> d ∈ read l ++ write l -> data_id d :: ids (unlocked l d) ≡ₚ ids l.
Proof.
  intros Hc Hd. pose proof (core_ids _ _ Hc) as Hn. unfold ids, instances in Hn. rewrite !map_app in Hn.
  assert (Hcnt : forall (b : bool) l1 c r, ids (if b then set_counts l1 c r else l1) = ids l1) by (by intros []).
  unfold unlocked. rewrite Hcnt. apply elem_of_app in Hd as [Hd|Hd].
  - pose proof (core_r _ _ Hc) as HF. rewrite Forall_forall in HF. destruct (HF d Hd) as [Hr _].
    assert (Hle : type d <=t TL_READ_NO_INSERT = true) by (by destruct (type d)). rewrite Hle.
    destruct (unlink_split (read l) d) as (L1 & L2 & EL & Eu); [by eapply read_ids_nodup|done|].
    unfold ids, instances. cbn. rewrite Eu, EL, !map_app. cbn. solve_Permutation.
  - pose proof (core_w _ _ Hc) as HF. rewrite Forall_forall in HF. destruct (HF d Hd) as (Hw & Hcd & _).
    assert (Hle : type d <=t TL_READ_NO_INSERT = false) by (by destruct (type d)). rewrite Hle, Hcd, andb_false_r.
    destruct (unlink_split (write l) d) as (L1 & L2 & EL & Eu); [|done|].
    { apply NoDup_app in Hn as (_ & _ & Hn). apply NoDup_app in Hn as (_ & _ & Hn).
      by apply NoDup_app in Hn as (_ & _ & Hn). }
    unfold ids, instances. cbn. rewrite Eu, EL, !map_app. cbn. solve_Permutation.
Qed.

(** One release: one instance less, and the others still there. *)
Lemma release_step l :
  lock_wf et l -> read l ++ write l <> [] ->
  exists d, d ∈ read l ++ write l /\ lock_wf et (release l) /\ data_id d :: ids (release l) ≡ₚ ids l.
Proof.
  intros [Hc Hb] Hh. destruct (choose_held l Hh) as (d & E & Hd). exists d. split; [done|].
  unfold release. rewrite E.
  destruct (unlock_ok et maxw cs l d) as (H1 & H2 & H3); [done|apply elem_of_app in Hd; tauto|].
  split; [by split|]. rewrite (woken_ids _ _ H2). by apply unlocked_ids.
Qed.

Lemma waiting_holder l id :
  lock_wf et l -> id ∈ map data_id (read_wait l ++ write_wait l) -> read l ++ write l <> [].
Proof.
  intros [Hc Hb] Hid [Hr Hw]%app_nil. destruct (Hb Hw) as [Hb1 Hb2].
  destruct (write_wait l) as [|d ww]; [|by apply Hb2]. rewrite Hb1 in Hid by done. by apply elem_of_nil in Hid.
Qed.

Lemma waiting_not_held l id :
  core et l -> id ∈ map data_id (read_wait l ++ write_wait l) -> id ∉ map data_id (read l ++ write l).
Proof.
  intros Hc H1 H2. pose proof (core_ids _ _ Hc) as Hn.
  assert (HP : ids l ≡ₚ map data_id (read_wait l ++ write_wait l) ++ map data_id (read l ++ write l)).
  { unfold ids, instances. rewrite !map_app. solve_Permutation. }
  rewrite HP in Hn. apply NoDup_app in Hn as (_ & Hn & _). by apply (Hn id).
Qed.

Lemma released_until l id n :
  lock_wf et l -> (length (ids l) <= n)%nat -> id ∈ map data_id (read_wait l ++ write_wait l) ->
  exists k, (k <= n)%nat /\ id ∈ map data_id (read (Nat.iter k release l) ++ write (Nat.iter k release l)).
Proof.
  revert l. induction n as [|n IH]; intros l Hwf Hn Hid.
  - assert (Hin : id ∈ ids l) by (apply ids_in; by left).
    destruct (ids l); [by apply elem_of_nil in Hin|cbn in Hn; lia].
  - destruct (release_step l) as (d & Hd & Hwf' & HP); [done|by eapply waiting_holder|].
    assert (Hne : id <> data_id d).
    { intros ->. eapply waiting_not_held; [apply Hwf|done|]. apply list_elem_of_fmap; eauto. }
    assert (Hin : id ∈ data_id d :: ids (release l)) by (rewrite HP; apply ids_in; by left).
    apply elem_of_cons in Hin as [|Hin]; [done|]. apply ids_in in Hin as [Hin|Hin]; [|exists 1%nat; split; [lia|done]].
    destruct (IH (release l) Hwf') as (k & Hk & Hheld); [|done|].
    { apply Permutation_length in HP. cbn in HP. lia. }
    exists (S k). split; [lia|]. by rewrite Nat.iter_succ_r.
Qed.

(** C23: A waiting request gets the lock when the holders release theirs, whatever
    the order they do it in, after at most as many releases as there are
    requests and locks. *)
Theorem table_lock_waiter_granted l id :
  up = TL_WRITE \/ up = TL_WRITE_LOW_PRIORITY -> lock_reachable et up maxw l ->
  id ∈ map data_id (read_wait l ++ write_wait l) ->
  exists k, (k <= length (ids l))%nat /\
    id ∈ map data_id (read (Nat.iter k release l) ++ write (Nat.iter k release l)).
Proof. intros Hup Hl%lock_reachable_wf Hid; [|done]. by apply released_until. Qed.

End Progress.

(** ** Examples *)

Fixpoint ops_ok (et up : thr_lock_type) (maxw : Z) (ops : list lock_op) (l : THR_LOCK) : Prop :=
  match ops with
  | [] => True
  | op :: ops => op_ok et up op l /\ ops_ok et up maxw ops (exec_lock maxw up op l)
  end.

Lemma run_reachable et up maxw ops l :
  lock_reachable et up maxw l -> ops_ok et up maxw ops l ->
  lock_reachable et up maxw (fold_left (fun l op => exec_lock maxw up op l) ops l).
Proof.
  revert l. induction ops as [|op ops IH]; intros l Hl Hok; cbn; [done|].
  destruct Hok as [H1 H2]. apply IH; [by apply lock_step|done].
Qed.

(** Requests on concrete locks keep to the rules. *)
Ltac lock_op_ok :=
  split_and!;
    [apply (bool_decide_unpack _); vm_compute; exact I
    |vm_compute; reflexivity
    |first
      [left; split; [reflexivity|]; first [discriminate|intros _ H; vm_compute in H; discriminate]
      |right; split_and!; [reflexivity|intros H; vm_compute in H |- *; congruence|];
       let x := fresh in let Hx := fresh in
       intros _ x Hx; apply list_elem_of_In in Hx; vm_compute in Hx;
       repeat (destruct Hx as [<-|Hx]; [intros H; vm_compute in H; discriminate|]); destruct Hx]].

Ltac lock_ops_ok := repeat (cbn [ops_ok]; split; [lock_op_ok|]); exact I.

Module LockExamples.

Definition no_check (_ : nat) : bool := false.
Definition inst (id : nat) (lock : Z) (t : thr_lock_type) : THR_LOCK_DATA := mk_data id 0 lock false 0 t 0.
Definition ask (id : nat) (lock : Z) (t : thr_lock_type) (o : nat) : lock_op := Lock no_check (inst id lock t) o.
Definition run (multiple : bool) (ops : list lock_op) : THR_LOCK :=
  fold_left (fun l op => exec_lock 100 TL_WRITE op l) ops (thr_lock_init true multiple).

Definition ops1 : list lock_op :=
  [ask 1 4 TL_READ 10; ask 2 4 TL_WRITE_ALLOW_WRITE 11; ask 3 4 TL_WRITE 12].

Lemma run_ops1 : lock_reachable TL_WRITE_ALLOW_WRITE TL_WRITE 100 (run false ops1).
Proof. apply run_reachable; [constructor|]. unfold ops1, ask. lock_ops_ok. Defined.

Definition held1 (id o : nat) (t : thr_lock_type) : THR_LOCK_DATA := mk_data id o 4 false 0 t 0.

Lemma table_locks_compatible_witness :
  let x := held1 1 10 TL_READ in let y := held1 2 11 TL_WRITE_ALLOW_WRITE in
  read (run false ops1) = [x] /\ write (run false ops1) = [y] /\ may_hold (type x) (type y) = true.
Proof.
  cbn zeta. split; [by vm_compute|]. split; [by vm_compute|].
  refine (table_locks_compatible TL_WRITE_ALLOW_WRITE TL_WRITE 100 (run false ops1) _ _ (or_introl eq_refl)
    run_ops1 _ _ _); [apply (bool_decide_unpack _); vm_compute; exact I..|discriminate].
Defined.

Definition first_held (l : THR_LOCK) : option THR_LOCK_DATA := head (read l ++ write l).

Lemma table_lock_waiter_granted_witness :
  map data_id (write_wait (run false ops1)) = [3%nat] /\
  exists k, (k <= 3)%nat /\
    3%nat ∈ map data_id (let l := Nat.iter k (release 100 no_check first_held) (run false ops1) in read l ++ write l).
Proof.
  split; [by vm_compute|].
  refine (table_lock_waiter_granted TL_WRITE_ALLOW_WRITE TL_WRITE 100 no_check first_held _
    (run false ops1) 3 (or_introl eq_refl) run_ops1 _).
  - intros l Hl. unfold first_held. destruct (read l ++ write l) as [|d L]; [done|]. exists d. split; [done|set_solver].
  - apply (bool_decide_unpack _). vm_compute. exact I.
Defined.

(** With [allow_multiple_concurrent_insert] a thread whose concurrent insert is
    first in the list gets TL_READ_NO_INSERT while another inserts. *)
Lemma no_insert_beside_insert :
  let l := run true [ask 1 4 TL_WRITE_CONCURRENT_INSERT 10; ask 2 4 TL_WRITE_CONCURRENT_INSERT 11;
                     ask 3 4 TL_READ_NO_INSERT 10] in
  read l = [held1 3 10 TL_READ_NO_INSERT] /\
  write l = [held1 1 10 TL_WRITE_CONCURRENT_INSERT; held1 2 11 TL_WRITE_CONCURRENT_INSERT] /\
  may_hold TL_READ_NO_INSERT TL_WRITE_CONCURRENT_INSERT = false.
Proof. by vm_compute. Qed.

(** A delayed insert whose upgrade timed out is told that it has the lock: the
    request is gone and the call returns 0. *)
Lemma upgrade_timeout_unseen :
  let delayed := mk_data 2 11 4 true 0 TL_WRITE_DELAYED 0 in
  let l := run false [ask 1 4 TL_READ 10; ask 2 4 TL_WRITE_DELAYED 11; Upgrade delayed TL_WRITE] in
  map data_id (write_wait l) = [2%nat] /\
  (let '(res, l') := end_wait 100 no_check l 2 THR_LOCK_WAIT_TIMEOUT in
   res = THR_LOCK_WAIT_TIMEOUT /\ upgrade_result (Some false) res = false /\
   write l' = [] /\ write_wait l' = []).
Proof. by vm_compute. Qed.

(** TL_READ_NO_INSERT is given beside TL_WRITE_ALLOW_WRITE, and a second
    TL_WRITE_ALLOW_WRITE then waits for the first. *)
Lemma no_insert_beside_allow_write :
  let l := run false [ask 1 4 TL_WRITE_ALLOW_WRITE 10; ask 2 4 TL_READ_NO_INSERT 11;
                      ask 3 4 TL_WRITE_ALLOW_WRITE 12] in
  map data_id (read l) = [2%nat] /\ map data_id (write l) = [1%nat] /\ map data_id (write_wait l) = [3%nat].
Proof. by vm_compute. Qed.

End LockExamples.
