(* ===== verification/ThrLockOrder.v ===== *)
(** * Table locks: taking several

    [sort_locks] puts the requests of a statement in one order for all
    threads, the order of [LOCK_CMP]; a thread that has a lock on a table does
    not wait for a weaker one on the same table; [thr_multi_lock] takes all the
    locks or none. *)
From Stdlib Require Import ZArith Lia List Bool.
From stdpp Require Import base tactics list relations sorting.
From S2P Require Import Prelude ThrLock ThrLockSafe.

Open Scope Z_scope.

(** ** The order *)

Lemma lock_type_val_inj s t : type_val s = type_val t -> s = t.
Proof. by destruct s, t. Qed.

Lemma LOCK_CMP_spec a b :
  LOCK_CMP a b = true <->
  lock_of a < lock_of b \/
  (lock_of a = lock_of b /\
   (type_val (type b) < type_val (type a) \/
    (type_val (type a) = type_val (type b) /\ priority a < priority b))).
Proof.
  unfold LOCK_CMP. destruct (Z.eqb_spec (lock_of a) (lock_of b)) as [E|E]; cbn [negb].
  - case_bool_decide as Et; cbn [negb]; [rewrite Et; lia|].
    assert (type_val (type a) <> type_val (type b)) by (intros ?%lock_type_val_inj; done). lia.
  - lia.
Qed.

(** [a] may be locked before [b]. *)
Definition lock_le (a b : THR_LOCK_DATA) : Prop := LOCK_CMP b a = false.

#[export] Instance lock_le_trans : Transitive lock_le.
Proof. intros a b c. unfold lock_le. rewrite <- !not_true_iff_false, !LOCK_CMP_spec. lia. Qed.

Lemma lock_le_total a b : LOCK_CMP a b = true -> lock_le a b.
Proof. unfold lock_le. rewrite <- not_true_iff_false, !LOCK_CMP_spec. lia. Qed.

Lemma lock_le_address a b : lock_le a b -> lock_of a <= lock_of b.
Proof. unfold lock_le. rewrite <- not_true_iff_false, LOCK_CMP_spec. lia. Qed.

Lemma lock_le_type a b : lock_le a b -> lock_of a = lock_of b -> type_val (type b) <= type_val (type a).
Proof. unfold lock_le. rewrite <- not_true_iff_false, LOCK_CMP_spec. lia. Qed.

(** ** [sort_locks] *)

Lemma sort_insert_perm tmp acc : sort_insert tmp acc ≡ₚ tmp :: acc.
Proof.
  induction acc as [|prev rest IH]; cbn; [done|]. destruct (LOCK_CMP tmp prev); [|done].
  rewrite IH. apply Permutation_swap.
Qed.

Lemma sort_insert_sorted tmp acc :
  StronglySorted (flip lock_le) acc -> StronglySorted (flip lock_le) (sort_insert tmp acc).
Proof.
  induction 1 as [|prev rest Hs IH Hp]; cbn; [by repeat constructor|].
  destruct (LOCK_CMP tmp prev) eqn:E.
  - constructor; [done|]. apply Forall_forall. intros x. rewrite sort_insert_perm.
    intros [->|Hx]%elem_of_cons; [by apply lock_le_total|]. rewrite Forall_forall in Hp. by apply Hp.
  - constructor; [by constructor|]. constructor; [done|].
    eapply Forall_impl; [done|]. intros x Hx. cbn in *. by trans prev.
Qed.

Lemma sort_fold data acc :
  StronglySorted (flip lock_le) acc ->
  StronglySorted (flip lock_le) (fold_left (fun acc tmp => sort_insert tmp acc) data acc) /\
  fold_left (fun acc tmp => sort_insert tmp acc) data acc ≡ₚ data ++ acc.
Proof.
  revert acc. induction data as [|d data IH]; intros acc Hs; cbn; [done|].
  destruct (IH (sort_insert d acc)) as [H1 H2]; [by apply sort_insert_sorted|].
  split; [done|]. rewrite H2, sort_insert_perm. solve_Permutation.
Qed.

Lemma sorted_snoc {A} (R : A -> A -> Prop) l x :
  StronglySorted R l -> Forall (fun y => R y x) l -> StronglySorted R (l ++ [x]).
Proof.
  induction 1 as [|y l Hs IH Hy]; intros HF; cbn; [by repeat constructor|].
  inversion_clear HF. constructor; [auto|]. apply Forall_app. by repeat constructor.
Qed.

Lemma sorted_rev {A} (R : A -> A -> Prop) l : StronglySorted (flip R) l -> StronglySorted R (rev l).
Proof.
  induction 1 as [|x l Hs IH Hx]; cbn; [constructor|]. apply sorted_snoc; [done|]. by apply Forall_rev.
Qed.

Lemma sort_locks_perm data : sort_locks data ≡ₚ data.
Proof.
  destruct (sort_fold data []) as [_ H]; [constructor|]. rewrite app_nil_r in H.
  unfold sort_locks. by rewrite <- Permutation_rev.
Qed.

Lemma sort_locks_sorted data : StronglySorted lock_le (sort_locks data).
Proof. destruct (sort_fold data []) as [Hs _]; [constructor|]. by apply sorted_rev in Hs. Qed.

Lemma lock_order_sort data : lock_order data = sort_locks data.
Proof. by destruct data as [|d [|d' data]]. Qed.

Lemma sort_locks_le data i j a b :
  (i < j)%nat -> sort_locks data !! i = Some a -> sort_locks data !! j = Some b -> lock_le a b.
Proof.
  pose proof (sort_locks_sorted data) as Hs. revert i j.
  induction Hs as [|x l Hs IH Hx]; intros i j Hij Ha Hb; [done|].
  destruct j as [|j]; [lia|]. destruct i as [|i]; cbn in *; [|eapply IH; [|done..]; lia].
  injection Ha as ->. rewrite Forall_forall in Hx. apply Hx. by eapply list_elem_of_lookup_2.
Qed.

(** [sort_locks] puts the requests in the order of [LOCK_CMP] and loses none:
    by table, and on one table the stronger types first. *)
Theorem sort_locks_correct data :
  sort_locks data ≡ₚ data /\
  forall i j a b, (i < j)%nat -> sort_locks data !! i = Some a -> sort_locks data !! j = Some b ->
    LOCK_CMP b a = false /\ lock_of a <= lock_of b /\
    (lock_of a = lock_of b -> type_val (type b) <= type_val (type a)).
Proof.
  split.
  - apply sort_locks_perm.
  - intros i j a b Hij Ha Hb. pose proof (sort_locks_le _ _ _ _ _ Hij Ha Hb) as Hle.
    split; [done|]. eauto using lock_le_address, lock_le_type.
Qed.

(** ** Locks on a table the thread has locks on *)

Definition held (l : THR_LOCK) : list THR_LOCK_DATA := read l ++ write l.
Definition waiting (l : THR_LOCK) : list THR_LOCK_DATA := read_wait l ++ write_wait l.

Lemma has_old_lock_in L o x : x ∈ L -> owner x = o -> has_old_lock L o = true.
Proof.
  intros Hx Ho. apply existsb_exists. exists x. split; [by apply list_elem_of_In|]. by apply Nat.eqb_eq.
Qed.

Lemma relock_read et l d o x :
  core et l -> owner d = o -> reader (type d) = true ->
  (type d = TL_READ_NO_INSERT -> has_old_lock (write l) o = true ->
   forall w, w ∈ write l -> owner w <> o -> type w <> TL_WRITE_CONCURRENT_INSERT) ->
  x ∈ held l -> owner x = o -> type_val (type d) <= type_val (type x) ->
  fst (thr_lock_read l d) <> MUST_WAIT.
Proof.
  intros Hc <- Hr Hn Hx Ho Hle. unfold thr_lock_read, thr_lock_owner_equal.
  pose proof (core_w _ _ Hc) as Fw. rewrite Forall_forall in Fw. destruct (core_compat _ _ Hc) as [_ Hww Hrw].
  destruct (write l) as [|w W] eqn:Hw.
  - apply elem_of_app in Hx as [Hx|Hx]; [|by rewrite Hw in Hx; apply elem_of_nil in Hx].
    rewrite (has_old_lock_in _ _ _ Hx Ho), orb_true_r. done.
  - destruct (Nat.eqb_spec (owner d) (owner w)) as [|Hne]; [done|]. cbn [orb].
    assert (Hwin : w ∈ w :: W) by set_solver.
    assert (Hsh : shares (type d) (type w) = true); [|by destruct (type w), (type d)].
    apply elem_of_app in Hx as [Hx|Hx]; rewrite ?Hw in *.
    + pose proof (Hrw x w Hx Hwin ltac:(congruence)) as Hs. pose proof (core_r _ _ Hc) as Fr.
      rewrite Forall_forall in Fr. destruct (Fr x Hx) as [Hxr _].
      destruct (type w); try done. by destruct (type x), (type d).
    + pose proof (Hww w x Hwin Hx ltac:(congruence)) as [Ew|Ew]%is_concurrent_cases; rewrite Ew; [|done].
      cbn. apply negb_true_iff, bool_decide_eq_false_2. intros Et.
      apply (Hn Et (has_old_lock_in _ _ _ Hx Ho) w Hwin); [congruence|done].
Qed.

Lemma relock_write up cs l d x :
  writer (type d) = true -> x ∈ write l -> owner x = owner d ->
  fst (fst (thr_lock_write up cs l d)) <> MUST_WAIT.
Proof.
  intros Hw Hx Ho. unfold thr_lock_write. cbn zeta. destruct (write l) as [|w W] eqn:El; [set_solver|].
  destruct (_ && _); [done|]. destruct (_ && _); [done|].
  set (d1 := if _ && _ then _ else d). assert (Hd1 : owner d1 = owner d) by (unfold d1; by destruct (_ && _)).
  clearbody d1. destruct (_ && _); [done|].
  unfold write_again. rewrite El, (has_old_lock_in (w :: W) (owner d1) x), orb_true_r by congruence || done. done.
Qed.

Lemma relock_no_wait et up cs l d o x :
  core et l -> op_ok et up (Lock cs d o) l -> x ∈ held l -> owner x = o -> type_val (type d) <= type_val (type x) ->
  fst (fst (thr_lock up cs l d o)) <> MUST_WAIT.
Proof.
  intros Hc (_ & _ & Hok) Hx Ho Hle. unfold thr_lock. cbn zeta. set (d1 := set_priority _ _).
  destruct Hok as [[Hr Hn]|[Hw _]].
  - assert (Ht : type d1 <=t TL_READ_NO_INSERT = true) by (change (type d1) with (type d); by destruct (type d)).
    rewrite Ht. pose proof (relock_read et l d1 o x) as H. destruct (thr_lock_read l d1). by apply H.
  - assert (Ht : type d1 <=t TL_READ_NO_INSERT = false) by (change (type d1) with (type d); by destruct (type d)).
    rewrite Ht. apply (relock_write up cs l d1 x); [done| |done].
    apply elem_of_app in Hx as [Hx|Hx]; [|done]. pose proof (core_r _ _ Hc) as Fr.
    rewrite Forall_forall in Fr. destruct (Fr x Hx) as [Hxr _].
    destruct (type d); try done; destruct (type x); cbn in *; done || lia.
Qed.

(** A thread that has a lock on a table does not wait for one that is not
    stronger. *)
Theorem relock_never_waits et up maxw cs l d o x :
  up = TL_WRITE \/ up = TL_WRITE_LOW_PRIORITY -> lock_reachable et up maxw l ->
  op_ok et up (Lock cs d o) l -> x ∈ held l -> owner x = o -> type_val (type d) <= type_val (type x) ->
  fst (fst (thr_lock up cs l d o)) <> MUST_WAIT.
Proof. intros Hup [Hc _]%lock_reachable_wf; [|done]. by apply relock_no_wait. Qed.

(** ** All or nothing *)

Definition held_in (l : THR_LOCK) (id : nat) : Prop := id ∈ map data_id (held l).

(** The instance [e] in the lists for the request [d] of [o]. *)
Definition for_request (o : nat) (d e : THR_LOCK_DATA) : Prop :=
  data_id e = data_id d /\ owner e = o /\ type_val (type d) <= type_val (type e).

Lemma for_request_up o d e up :
  up = TL_WRITE \/ up = TL_WRITE_LOW_PRIORITY -> for_request o d e -> type e = TL_WRITE_CONCURRENT_INSERT ->
  for_request o d (set_type e up).
Proof. intros Hup (H1 & H2 & H3) Ht. rewrite Ht in H3. destruct Hup as [-> | ->]; (split_and!; [done|done|cbn in *; lia]). Qed.

Lemma check_insert_for o d e up cs :
  up = TL_WRITE \/ up = TL_WRITE_LOW_PRIORITY -> for_request o d e -> for_request o d (check_insert up cs e).
Proof. intros Hup He. unfold check_insert. destruct (_ && _) eqn:E; [|done]. bools. by apply for_request_up. Qed.

Lemma thr_lock_cases up cs l d o res d' l' :
  up = TL_WRITE \/ up = TL_WRITE_LOW_PRIORITY ->
  type d <> TL_WRITE_DELAYED -> thr_lock up cs l d o = (res, d', l') ->
  for_request o d d' /\
  match res with
  | TAKEN => l' = add_read l d' \/ l' = add_write l d'
  | _ => l' = l
  end.
Proof.
  intros Hup Hnd. unfold thr_lock. cbn zeta. set (d1 := set_priority _ _).
  assert (H1 : for_request o d d1 /\ type d1 = type d) by done. clearbody d1. destruct H1 as [Hd1 Ht].
  destruct (_ <=t _).
  - unfold thr_lock_read. intros E.
    destruct (write l); repeat (destruct (_ || _) || destruct (bool_decide _));
      injection E as <- <- <-; eauto.
  - unfold thr_lock_write. cbn zeta. rewrite Ht, (bool_decide_eq_false_2 (type d = TL_WRITE_DELAYED)) by done.
    cbn [andb negb]. set (d2 := if _ && _ then _ else d1).
    assert (Hd2 : for_request o d d2).
    { unfold d2. destruct (_ && _) eqn:E; [|done]. bools. apply for_request_up; [done|done|congruence]. }
    clearbody d2. destruct (write l) as [|w W].
    + destruct (write_first up cs l d2) as [d3|] eqn:E; intros [= <- <- <-].
      * revert E. unfold write_first. cbn zeta. destruct (negb _); [done|].
        destruct (_ || _); [|done]. intros [= <-]. split; [by apply check_insert_for|by right].
      * split; [|done]. unfold waiting_type. destruct (_ && _); [by apply check_insert_for|done].
    + destruct (_ && _); [by intros [= <- <- <-]|].
      destruct (write_again l d2 w); intros [= <- <- <-]; eauto.
Qed.

Section OneLock.
Context (maxw : Z) (cs : nat -> bool).
Implicit Types (l : THR_LOCK).

Lemma find_data_held l id : held_in l id -> exists d, find_data l id = Some d /\ data_id d = id.
Proof.
  intros (d & -> & Hd)%list_elem_of_fmap. unfold find_data. set (L := _ ++ _).
  destruct (List.find _ L) as [e|] eqn:E.
  - exists e. split; [done|]. apply List.find_some in E as [_ E]. by apply Nat.eqb_eq.
  - pose proof (List.find_none _ _ E d) as Hn. cbn in Hn. rewrite Nat.eqb_refl in Hn.
    discriminate Hn. apply list_elem_of_In. unfold L, held in *. rewrite !elem_of_app in *. tauto.
Qed.

(** Releasing an instance that is held: it is in no list afterwards, the
    others are held as before. *)
Lemma unlock_held t l d :
  lock_wf t l -> held_in l (data_id d) -> find_data l (data_id d) = Some d ->
  lock_wf t (thr_unlock maxw cs l d) /\ data_id d ∉ ids (thr_unlock maxw cs l d) /\
  (forall id, id ∉ ids l -> id ∉ ids (thr_unlock maxw cs l d)) /\
  (forall id, id <> data_id d -> held_in l id -> held_in (thr_unlock maxw cs l d) id).
Proof.
  intros [Hc Hb] Hh Hf. apply List.find_some in Hf as [Hf _]. apply list_elem_of_In in Hf.
  assert (Hd : d ∈ held l).
  { destruct (decide (d ∈ held l)) as [|Hn]; [done|]. exfalso.
    apply (waiting_not_held t l (data_id d) Hc); [|done]. apply list_elem_of_fmap. exists d.
    split; [done|]. unfold held in Hn. rewrite !elem_of_app in *. tauto. }
  destruct (unlock_ok t maxw cs l d Hc) as (H1 & H2 & H3); [apply elem_of_app in Hd; tauto|].
  pose proof (unlocked_ids t l d Hc Hd) as HP. pose proof (core_ids _ _ Hc) as Hn. rewrite <- HP in Hn.
  inversion_clear Hn as [|? ? Hnd _].
  split; [by split|]. split; [by rewrite (woken_ids _ _ H2)|]. split.
  - intros id Hid. rewrite (woken_ids _ _ H2). intros Hin. apply Hid. rewrite <- HP. set_solver.
  - intros id Hne (x & -> & Hx)%list_elem_of_fmap. apply list_elem_of_fmap. exists x. split; [done|].
    destruct (woken_read _ _ H2) as [R ER], (woken_write _ _ H2) as [W EW]. unfold held. rewrite ER, EW.
    assert (Hk : forall L, x ∈ L -> x ∈ unlink L (data_id d)) by (intros L HL; by apply list_elem_of_filter).
    assert (Hun : x ∈ read (unlocked l d) ++ write (unlocked l d)).
    { unfold unlocked. cbn zeta. unfold held in Hx. apply elem_of_app in Hx.
      destruct (_ <=t _), (bool_decide (type d = TL_WRITE_DELAYED) && cond d), (bool_decide (type d = TL_READ_NO_INSERT));
        cbn; rewrite elem_of_app; destruct Hx; auto. }
    rewrite !elem_of_app in *. tauto.
Qed.

Lemma in_list_ids id L : in_list id L = true <-> id ∈ map data_id L.
Proof.
  unfold in_list. rewrite existsb_exists. split.
  - intros (d & Hd & E%Nat.eqb_eq). apply list_elem_of_fmap. exists d. split; [done|]. by apply list_elem_of_In.
  - intros (d & -> & Hd)%list_elem_of_fmap. exists d. split; [by apply list_elem_of_In|apply Nat.eqb_refl].
Qed.

Lemma unlink_ids L id i : i ∈ map data_id (unlink L id) <-> i <> id /\ i ∈ map data_id L.
Proof.
  unfold unlink. split.
  - intros (d & -> & [Hn Hd]%list_elem_of_filter)%list_elem_of_fmap. split; [done|]. apply list_elem_of_fmap; eauto.
  - intros [Hn (d & -> & Hd)%list_elem_of_fmap]. apply list_elem_of_fmap. exists d. split; [done|]. by apply list_elem_of_filter.
Qed.

Lemma woken_held l l' id : woken l l' -> held_in l id -> held_in l' id.
Proof.
  intros [_ [R ER] [W EW]] (d & -> & Hd)%list_elem_of_fmap. apply list_elem_of_fmap. exists d.
  split; [done|]. unfold held in *. rewrite ER, EW. rewrite !elem_of_app in *. tauto.
Qed.

(** After a wait the instance is held, or it is in no list. *)
Lemma end_wait_spec tt l id t :
  lock_wf tt l -> t <> THR_LOCK_SUCCESS ->
  let '(res, l') := end_wait maxw cs l id t in
  lock_wf tt l' /\ (res = THR_LOCK_SUCCESS -> held_in l' id) /\ (res <> THR_LOCK_SUCCESS -> id ∉ ids l') /\
  forall i, (held_in l i -> held_in l' i) /\ (i ∉ ids l -> i ∉ ids l').
Proof.
  intros Hwf Ht. pose proof (end_wait_ok tt maxw cs l id t Hwf) as Hwf'. unfold end_wait in *.
  destruct (in_list id (read_wait l) || in_list id (write_wait l)) eqn:Ew.
  - rewrite orb_true_iff, !in_list_ids, <- elem_of_app, <- map_app in Ew. destruct Hwf as [Hc _].
    set (l1 := set_lists _ _ _ _ _) in *.
    assert (Hc1 : core tt l1) by (unfold l1; apply core_sublists'; [done|apply unlink_sublist..|done]).
    destruct (wake_up_ok tt maxw cs l1 Hc1) as (_ & Hg & _).
    assert (Hids : forall i, i ∈ ids l1 -> i <> id /\ i ∈ ids l).
    { intros i. rewrite !ids_in. unfold l1. cbn. rewrite !map_app, !elem_of_app, !unlink_ids.
      pose proof (waiting_not_held tt l id Hc Ew) as Hn. rewrite map_app, elem_of_app in Hn.
      intros [[H|H]|H]; [tauto..|]. split; [|tauto]. intros ->. tauto. }
    split_and!; [done|done| |].
    + intros _. rewrite (woken_ids _ _ Hg). intros [? _]%Hids. done.
    + intros i. split; [intros Hi; by apply (woken_held l1)|].
      intros Hi. rewrite (woken_ids _ _ Hg). intros [_ ?]%Hids. done.
  - rewrite orb_false_iff in Ew. destruct (in_list id (read l) || in_list id (write l)) eqn:Eh.
    + split_and!; [done| |done|done]. intros _. unfold held_in, held.
      rewrite map_app, elem_of_app, <- !in_list_ids. by apply orb_true_iff.
    + split_and!; [done|done| |done]. intros _ Hin. rewrite orb_false_iff in Eh.
      rewrite ids_in, !map_app, !elem_of_app, <- !in_list_ids in Hin. destruct Ew, Eh. intuition congruence.
Qed.

End OneLock.

Lemma add_ids (l l' : THR_LOCK) e :
  l' = add_read l e \/ l' = add_write l e \/ l' = start_wait l e ->
  ids l' ≡ₚ data_id e :: ids l.
Proof.
  unfold ids, instances, start_wait. intros [->|[->| ->]]; [| |destruct (_ <=t _)];
    cbn; rewrite !map_app; cbn; solve_Permutation.
Qed.

Lemma add_held (l l' : THR_LOCK) e i :
  l' = add_read l e \/ l' = add_write l e -> i = data_id e \/ held_in l i -> held_in l' i.
Proof.
  unfold held_in, held. intros [->| ->] H; cbn; rewrite !map_app, !elem_of_app in *; cbn; set_solver.
Qed.

Section AllOrNothing.
Context (et : Z -> thr_lock_type) (up : thr_lock_type) (maxw : Z) (cs : nat -> bool).
Hypothesis up_type : up = TL_WRITE \/ up = TL_WRITE_LOW_PRIORITY.
Implicit Types (l : THR_LOCK) (locks : Z -> THR_LOCK).

Definition all_wf locks : Prop := forall a, lock_wf (et a) (locks a).
Definition taken locks (d : THR_LOCK_DATA) : Prop := held_in (locks (lock_of d)) (data_id d).
Definition absent locks (d : THR_LOCK_DATA) : Prop := data_id d ∉ ids (locks (lock_of d)).

Lemma set_lock_wf locks a l : all_wf locks -> lock_wf (et a) l -> all_wf (set_lock locks a l).
Proof. intros H1 H2 b. unfold set_lock. by destruct (Z.eqb_spec b a) as [->|]. Qed.

(** Changing one lock, for the instances it keeps. *)
Lemma set_lock_other locks a l e :
  (lock_of e = a -> held_in (locks a) (data_id e) -> held_in l (data_id e)) ->
  (lock_of e = a -> data_id e ∉ ids (locks a) -> data_id e ∉ ids l) ->
  (taken locks e -> taken (set_lock locks a l) e) /\ (absent locks e -> absent (set_lock locks a l) e).
Proof.
  intros H1 H2. unfold taken, absent, set_lock. destruct (Z.eqb_spec (lock_of e) a) as [<-|]; auto.
Qed.

Lemma set_lock_same locks d l : set_lock locks (lock_of d) l (lock_of d) = l.
Proof. unfold set_lock. by rewrite Z.eqb_refl. Qed.

Lemma multi_unlock_spec data locks :
  all_wf locks -> NoDup (map data_id data) -> (forall d, d ∈ data -> taken locks d) ->
  let locks' := thr_multi_unlock maxw cs locks data in
  all_wf locks' /\ (forall d, d ∈ data -> absent locks' d) /\ (forall e, absent locks e -> absent locks' e).
Proof.
  cbn zeta. revert locks. induction data as [|d data IH]; intros locks Hwf Hn Ht; cbn.
  { split_and!; [done| |done]. by intros d ?%elem_of_nil. }
  inversion_clear Hn as [|? ? Hd Hn'].
  destruct (find_data_held (locks (lock_of d)) (data_id d)) as (d' & Hf & Hid); [apply Ht; set_solver|].
  pose proof Hf as Hf'. rewrite <- Hid in Hf'.
  destruct (unlock_held maxw cs (et (lock_of d)) (locks (lock_of d)) d') as (H1 & H2 & H3 & H4); [done|rewrite Hid; apply Ht; set_solver|done|].
  set (locks1 := multi_unlock_one maxw cs locks d).
  assert (E : locks1 = set_lock locks (lock_of d) (thr_unlock maxw cs (locks (lock_of d)) d')).
  { unfold locks1, multi_unlock_one. by rewrite Hf. }
  assert (Hoth : forall e, (data_id e <> data_id d -> taken locks e -> taken locks1 e) /\ (absent locks e -> absent locks1 e)).
  { intros e. rewrite E. split; [intros Hne; apply set_lock_other; auto; intros _; apply H4; congruence|].
    unfold absent, set_lock. destruct (Z.eqb_spec (lock_of e) (lock_of d)) as [El|]; [|done]. rewrite El. auto. }
  destruct (IH locks1) as (I1 & I2 & I3).
  - rewrite E. by apply set_lock_wf.
  - done.
  - intros e He. apply Hoth; [|apply Ht; set_solver]. intros Ee. apply Hd. rewrite <- Ee. apply list_elem_of_fmap; eauto.
  - split_and!; [done| |intros e He; by apply I3, Hoth].
    intros e [->|He]%elem_of_cons; [|auto]. apply I3. unfold absent. rewrite E, set_lock_same, <- Hid. done.
Qed.

(** What the thread relies on: other threads keep the locks in order, do not
    release its locks and do not lock its instances. *)
Context (others meanwhile : nat -> (Z -> THR_LOCK) -> (Z -> THR_LOCK)).
Context (timeout : nat -> enum_thr_lock_result) (o : nat) (ours : list THR_LOCK_DATA).
Definition fair (f : (Z -> THR_LOCK) -> (Z -> THR_LOCK)) : Prop :=
  forall locks, all_wf locks -> all_wf (f locks) /\
    forall d, d ∈ ours -> (taken locks d -> taken (f locks) d) /\ (absent locks d -> absent (f locks) d).
Hypothesis others_fair : forall k, fair (others k).
Hypothesis meanwhile_fair : forall k, fair (meanwhile k).
Hypothesis timeout_fails : forall k, timeout k <> THR_LOCK_SUCCESS.

Notation call := (lock_and_wait maxw up cs others meanwhile timeout o).

Definition keeps (d : THR_LOCK_DATA) locks locks' : Prop :=
  forall e, e ∈ ours -> data_id e <> data_id d ->
    (taken locks e -> taken locks' e) /\ (absent locks e -> absent locks' e).

Lemma keeps_then d s1 s2 s3 : keeps d s1 s2 -> keeps d s2 s3 -> keeps d s1 s3.
Proof. intros H1 H2 e He Hne. destruct (H1 e He Hne), (H2 e He Hne). auto. Qed.

Lemma fair_keeps f d locks : fair f -> all_wf locks -> keeps d locks (f locks).
Proof. intros Hf Hwf e He _. by apply (Hf locks Hwf). Qed.

Lemma keeps_set d locks l :
  (forall i, i <> data_id d -> held_in (locks (lock_of d)) i -> held_in l i) ->
  (forall i, i <> data_id d -> i ∉ ids (locks (lock_of d)) -> i ∉ ids l) ->
  keeps d locks (set_lock locks (lock_of d) l).
Proof. intros H1 H2 e _ Hne. apply set_lock_other; auto. Qed.

Lemma keeps_add d locks l e :
  data_id e = data_id d ->
  l = add_read (locks (lock_of d)) e \/ l = add_write (locks (lock_of d)) e \/ l = start_wait (locks (lock_of d)) e ->
  keeps d locks (set_lock locks (lock_of d) l).
Proof.
  intros Hid Hl. apply keeps_set; intros i Hne Hi.
  - destruct Hl as [Hl|[Hl|Hl]]; [eapply add_held; eauto..|]. rewrite Hl. unfold start_wait.
    by destruct (_ <=t _).
  - rewrite (add_ids _ _ _ Hl). set_solver.
Qed.

(** One call of [thr_lock] with its wait. *)
Lemma call_spec k locks d :
  all_wf locks -> d ∈ ours -> absent locks d -> type d <> TL_WRITE_DELAYED ->
  op_ok (et (lock_of d)) up (Lock cs d o) (others k locks (lock_of d)) ->
  let '(res, locks') := call k locks d in
  all_wf locks' /\ (res = THR_LOCK_SUCCESS -> taken locks' d) /\
  (res <> THR_LOCK_SUCCESS -> absent locks' d) /\ keeps d locks locks'.
Proof.
  intros Hwf Hd Ha Hnd Hok. unfold lock_and_wait. cbn zeta.
  destruct (others_fair k locks Hwf) as [Hwf1 Hf1]. pose proof (fair_keeps _ d _ (others_fair k) Hwf) as Hk1.
  destruct (Hf1 d Hd) as [_ Ha1]. specialize (Ha1 Ha). set (locks1 := others k locks) in *. clearbody locks1.
  pose proof (exec_lock_ok (et (lock_of d)) up maxw up_type _ _ (Hwf1 (lock_of d)) Hok) as Hex. cbn [exec_lock] in Hex.
  destruct (thr_lock up cs (locks1 (lock_of d)) d o) as [[res d'] l'] eqn:E.
  destruct (thr_lock_cases _ _ _ _ _ _ _ _ up_type Hnd E) as [(Hid & _) Hres]. destruct res.
  - split_and!; [by apply set_lock_wf| |done|].
    + intros _. unfold taken. rewrite set_lock_same. eapply add_held; eauto.
    + eapply keeps_then; [done|]. eapply (keeps_add d locks1); [done|tauto].
  - subst l'. split_and!; [by apply set_lock_wf|done| |].
    + intros _. unfold absent. by rewrite set_lock_same.
    + eapply keeps_then; [done|]. apply keeps_set; auto.
  - subst l'. set (locks2 := set_lock locks1 _ _) in *.
    assert (Hwf2 : all_wf locks2) by (by apply set_lock_wf).
    destruct (meanwhile_fair k locks2 Hwf2) as [Hwf3 _].
    pose proof (fair_keeps _ d _ (meanwhile_fair k) Hwf2) as Hk3.
    pose proof (end_wait_spec maxw cs (et (lock_of d)) (meanwhile k locks2 (lock_of d)) (data_id d') (timeout k) (Hwf3 _) (timeout_fails k)) as Hend.
    destruct (end_wait _ _ _ _ _) as [res l']. destruct Hend as (E1 & E2 & E3 & E4). rewrite Hid in *.
    split_and!; [by apply set_lock_wf|unfold taken; by rewrite set_lock_same|unfold absent; by rewrite set_lock_same|].
    eapply keeps_then; [exact Hk1|]. eapply keeps_then; [by eapply (keeps_add d locks1); [exact Hid|right; right]|].
    eapply keeps_then; [exact Hk3|]. apply keeps_set; intros i _; apply E4.
Qed.

(** The requests of the run keep to the rules of the lock. *)
Fixpoint calls_ok (k : nat) locks (data : list THR_LOCK_DATA) : Prop :=
  match data with
  | [] => True
  | d :: data =>
      type d <> TL_WRITE_DELAYED /\ op_ok (et (lock_of d)) up (Lock cs d o) (others k locks (lock_of d)) /\
      (let '(res, locks') := call k locks d in res = THR_LOCK_SUCCESS -> calls_ok (S k) locks' data)
  end.

Lemma multi_lock_loop_spec data k locks acc :
  all_wf locks -> (forall d, d ∈ acc ++ data -> d ∈ ours) -> NoDup (map data_id (acc ++ data)) ->
  (forall d, d ∈ acc -> taken locks d) -> (forall d, d ∈ data -> absent locks d) -> calls_ok k locks data ->
  let '(res, locks') := multi_lock_loop maxw up cs others meanwhile timeout o k locks acc data in
  all_wf locks' /\
  (res = THR_LOCK_SUCCESS -> forall d, d ∈ acc ++ data -> taken locks' d) /\
  (res <> THR_LOCK_SUCCESS -> forall d, d ∈ acc ++ data -> absent locks' d).
Proof.
  revert k locks acc. induction data as [|d data IH]; intros k locks acc Hwf Hours Hn Ht Ha Hok; cbn [multi_lock_loop].
  { split_and!; [done| |done]. intros _ e. rewrite app_nil_r. auto. }
  destruct Hok as (Hnd & Hop & Hok).
  pose proof (call_spec k locks d Hwf (Hours d ltac:(set_solver)) (Ha d ltac:(set_solver)) Hnd Hop) as Hc.
  destruct (call k locks d) as [res locks1] eqn:Ec. destruct Hc as (Hwf1 & Hs & Hf & Hk).
  assert (HP : acc ++ d :: data ≡ₚ (d :: acc) ++ data) by solve_Permutation.
  assert (Hne : forall e, e ∈ acc ++ data -> data_id e <> data_id d).
  { rewrite HP in Hn. inversion_clear Hn as [|? ? Hd _]. intros e He E. apply Hd. rewrite <- E.
    apply list_elem_of_fmap. eauto. }
  assert (Hacc : forall e, e ∈ acc -> taken locks1 e)
    by (intros e He; apply Hk; [apply Hours; set_solver|apply Hne; set_solver|auto]).
  assert (Hdata : forall e, e ∈ data -> absent locks1 e)
    by (intros e He; apply Hk; [apply Hours; set_solver|apply Hne; set_solver|apply Ha; set_solver]).
  assert (Hcases : res = THR_LOCK_SUCCESS \/ res <> THR_LOCK_SUCCESS) by (destruct res; auto).
  destruct Hcases as [-> | Hres].
  - pose proof (IH (S k) locks1 (d :: acc) Hwf1) as H.
    destruct (multi_lock_loop _ _ _ _ _ _ _ _ _ _ _) as [res locks2].
    destruct H as (H1 & H2 & H3); [intros e; rewrite <- HP; auto|by rewrite <- HP| |done|auto|].
    { intros e [->|He]%elem_of_cons; auto. }
    split_and!; [done|intros Hr e; rewrite HP; auto..].
  - destruct (multi_unlock_spec (rev acc) locks1) as (H1 & H2 & H3); [done| |intros e; rewrite <- Permutation_rev; auto|].
    { rewrite <- Permutation_rev. rewrite map_app in Hn. by apply NoDup_app in Hn as (Hn & _). }
    destruct res; try done; (split_and!; [done|done|]); intros _ e [He|[->|He]%elem_of_cons]%elem_of_app; auto;
      apply H2; by rewrite <- Permutation_rev.
Qed.

End AllOrNothing.

(** C24: For requests that keep to the rules of the locks ([op_ok] when each is
    made, see ThrLockSafe) and are not TL_WRITE_DELAYED, [thr_multi_lock] takes
    every lock it is asked for or, when one request is aborted or times out,
    leaves none of them: none is held and none waits, whatever other threads do
    to the locks in the meantime, if they keep the locks in order and leave the
    instances of this thread alone.  (A TL_WRITE_DELAYED request may be left in
    the queue by a call that succeeds, see [delayed_request_queued].) *)
Theorem multi_lock_all_or_nothing et up maxw cs others meanwhile timeout o locks data :
  up = TL_WRITE \/ up = TL_WRITE_LOW_PRIORITY ->
  (forall k, fair et data (others k)) -> (forall k, fair et data (meanwhile k)) ->
  (forall k, timeout k <> THR_LOCK_SUCCESS) ->
  all_wf et locks -> NoDup (map data_id data) -> (forall d, d ∈ data -> absent locks d) ->
  calls_ok et up maxw cs others meanwhile timeout o 0 locks (sort_locks data) ->
  let '(res, locks') := thr_multi_lock maxw up cs others meanwhile timeout o locks data in
  all_wf et locks' /\
  (res = THR_LOCK_SUCCESS -> forall d, d ∈ data -> taken locks' d) /\
  (res <> THR_LOCK_SUCCESS -> forall d, d ∈ data -> absent locks' d).
Proof.
  intros Hup Ho Hm Ht Hwf Hn Ha Hok.
  assert (E : thr_multi_lock maxw up cs others meanwhile timeout o locks data =
    multi_lock_loop maxw up cs others meanwhile timeout o 0 locks [] (sort_locks data))
    by (by destruct data as [|d [|d' data]]).
  assert (HP : sort_locks data ≡ₚ data) by (destruct (sort_fold data []) as [_ H]; [constructor|];
    rewrite app_nil_r in H; unfold sort_locks; by rewrite <- Permutation_rev).
  pose proof (multi_lock_loop_spec et up maxw cs Hup others meanwhile timeout o data Ho Hm Ht
    (sort_locks data) 0 locks []) as H.
  rewrite E. destruct (multi_lock_loop _ _ _ _ _ _ _ _ _ _ _) as [res locks']. cbn [app] in H.
  destruct H as (H1 & H2 & H3); [done|intros d; by rewrite HP|by rewrite HP|by intros d ?%elem_of_nil|
    intros d; rewrite HP; auto|done|].
  split_and!; [done|intros Hr d Hd; apply H2; [done|by rewrite HP]|intros Hr d Hd; apply H3; [done|by rewrite HP]].
Qed.

Module Examples.

Import LockExamples.

Lemma sort_locks_correct_witness :
  let data := [inst 1 8 TL_READ; inst 2 4 TL_READ; inst 3 8 TL_WRITE] in
  map data_id (sort_locks data) = [2; 3; 1]%nat /\ LOCK_CMP (inst 1 8 TL_READ) (inst 3 8 TL_WRITE) = false.
Proof.
  cbn zeta. split; [by vm_compute|].
  destruct (sort_locks_correct [inst 1 8 TL_READ; inst 2 4 TL_READ; inst 3 8 TL_WRITE]) as [_ H].
  exact (proj1 (H 1%nat 2%nat _ _ ltac:(lia) eq_refl eq_refl)).
Defined.

Lemma relock_never_waits_witness :
  fst (fst (thr_lock TL_WRITE no_check (run false [ask 1 4 TL_WRITE 10]) (inst 2 4 TL_READ) 10)) = TAKEN /\
  fst (fst (thr_lock TL_WRITE no_check (run false [ask 1 4 TL_WRITE 10]) (inst 2 4 TL_READ) 10)) <> MUST_WAIT.
Proof.
  split; [by vm_compute|].
  refine (relock_never_waits TL_WRITE_ALLOW_WRITE TL_WRITE 100 no_check (run false [ask 1 4 TL_WRITE 10])
    (inst 2 4 TL_READ) 10 (held1 1 10 TL_WRITE) (or_introl eq_refl) _ _ _ eq_refl _).
  - apply run_reachable; [constructor|]. unfold ask. lock_ops_ok.
  - lock_op_ok.
  - apply (bool_decide_unpack _). vm_compute. exact I.
  - cbn. lia.
Defined.

(** The second table is locked by another thread, and the wait times out. *)
Definition busy_locks (a : Z) : THR_LOCK :=
  if a =? 8 then run false [ask 3 8 TL_WRITE 2] else run false [].
Definition alone (_ : nat) (ls : Z -> THR_LOCK) : Z -> THR_LOCK := ls.
Definition two_reads : list THR_LOCK_DATA := [inst 2 8 TL_READ; inst 1 4 TL_READ].
Definition times_out (_ : nat) : enum_thr_lock_result := THR_LOCK_WAIT_TIMEOUT.

Lemma multi_lock_all_or_nothing_witness :
  let '(res, locks') := thr_multi_lock 100 TL_WRITE no_check alone alone times_out 1 busy_locks two_reads in
  res = THR_LOCK_WAIT_TIMEOUT /\ forall d, d ∈ two_reads -> absent locks' d.
Proof.
  pose proof (multi_lock_all_or_nothing (fun _ => TL_WRITE_ALLOW_WRITE) TL_WRITE 100 no_check alone alone times_out 1
    busy_locks two_reads) as H.
  assert (E : fst (thr_multi_lock 100 TL_WRITE no_check alone alone times_out 1 busy_locks two_reads) =
    THR_LOCK_WAIT_TIMEOUT) by (vm_compute; reflexivity).
  destruct (thr_multi_lock _ _ _ _ _ _ _ _ _) as [res locks']. cbn in E. subst res. split; [reflexivity|].
  destruct H as (_ & _ & H); [by left|done|done|done| | | | |by apply H].
  - intros a. eapply (lock_reachable_wf _ TL_WRITE 100); [by left|]. unfold busy_locks.
    destruct (a =? 8); apply run_reachable; [apply lock_start|unfold ask; lock_ops_ok|apply lock_start|exact I].
  - apply (bool_decide_unpack _). vm_compute. exact I.
  - intros d Hd. apply list_elem_of_In in Hd. destruct Hd as [<-|[<-|[]]];
      unfold absent; apply (bool_decide_unpack _); vm_compute; exact I.
  - change (sort_locks two_reads) with [inst 1 4 TL_READ; inst 2 8 TL_READ].
    cbn [calls_ok]. split; [discriminate|]. split; [lock_op_ok|].
    destruct (lock_and_wait _ _ _ _ _ _ _ 0 _ _) as [res ls] eqn:E. intros _. injection E as _ <-.
    split; [discriminate|]. split; [lock_op_ok|].
    destruct (lock_and_wait _ _ _ _ _ _ _ 1 _ _) as [res2 ls2]. done.
Defined.

(** A TL_WRITE_DELAYED request for a table that is read succeeds at once, and
    is in the queue of the writers. *)
Lemma delayed_request_queued :
  let '(res, locks') := thr_multi_lock 100 TL_WRITE no_check alone alone times_out 1
    (fun _ => run false [ask 3 8 TL_READ 2]) [inst 2 8 TL_WRITE_DELAYED] in
  res = THR_LOCK_SUCCESS /\ map data_id (write_wait (locks' 8)) = [2]%nat /\ write (locks' 8) = [].
Proof. by vm_compute. Qed.

End Examples.
