(* ===== verification/ThrLockThreads.v ===== *)
(** * Table locks: threads that lock several tables

    Any number of threads, each of which locks the tables of a statement with
    [thr_multi_lock] and unlocks them with [thr_multi_unlock], as a step
    relation: between the calls of [thr_lock], while a thread waits and between
    the calls of [thr_unlock] the other threads take their steps.  The threads
    never wait for each other in a circle, because of the order in which
    [thr_multi_lock] makes its requests. *)
From Stdlib Require Import ZArith Lia List Bool.
From stdpp Require Import base tactics list relations sorting.
From S2P Require Import Prelude ThrLock ThrLockSafe ThrLockOrder.

Open Scope Z_scope.

(** ** Waking up keeps the instances *)

(** The instance [x] later on: another type at most, which is not weaker. *)
Definition later (x x' : THR_LOCK_DATA) : Prop :=
  data_id x' = data_id x /\ owner x' = owner x /\ type_val (type x) <= type_val (type x').

Lemma later_refl x : later x x.
Proof. done. Qed.

Lemma later_trans x y z : later x y -> later y z -> later x z.
Proof. intros (? & ? & ?) (? & ? & ?). split_and!; [congruence..|lia]. Qed.

(** Every instance of [L'] was in [L]. *)
Definition from (L L' : list THR_LOCK_DATA) : Prop := forall x', x' ∈ L' -> exists x, x ∈ L /\ later x x'.

Lemma from_incl L L' : (forall x, x ∈ L' -> x ∈ L) -> from L L'.
Proof. intros H x Hx. exists x. auto using later_refl. Qed.

Lemma from_trans L1 L2 L3 : from L1 L2 -> from L2 L3 -> from L1 L3.
Proof.
  intros H1 H2 x Hx. destruct (H2 x Hx) as (y & Hy & Hxy). destruct (H1 y Hy) as (z & Hz & Hyz).
  exists z. eauto using later_trans.
Qed.

Lemma from_app L L1 L2 : from L L1 -> from L L2 -> from L (L1 ++ L2).
Proof. intros H1 H2 x [Hx|Hx]%elem_of_app; auto. Qed.

Lemma from_sub L0 L L' : from L0 L' -> (forall x, x ∈ L0 -> x ∈ L) -> from L L'.
Proof. intros H1 H2 x Hx. destruct (H1 x Hx) as (y & Hy & ?). eauto. Qed.

Lemma from_cond L c : from L (map (fun d => set_cond d c) L).
Proof. intros x (y & -> & Hy)%list_elem_of_fmap. by exists y. Qed.

Lemma free_all_from l u : from (instances l) (instances (free_all_read_locks l u)).
Proof.
  unfold free_all_read_locks, instances. cbn -[filter]. repeat apply from_app.
  - apply from_incl. intros x [_ Hx]%list_elem_of_filter. rewrite !elem_of_app. tauto.
  - apply from_incl. intros x Hx. rewrite !elem_of_app. tauto.
  - eapply from_sub; [apply from_cond|]. intros x [_ Hx]%list_elem_of_filter. rewrite !elem_of_app. tauto.
  - apply from_incl. intros x Hx. rewrite !elem_of_app. tauto.
  - apply from_incl. intros x Hx. rewrite !elem_of_app. tauto.
Qed.

Lemma free_waiting_from l u : from (instances l) (instances (free_waiting_readers l u)).
Proof. unfold free_waiting_readers. destruct (read_wait l); [by apply from_incl|apply free_all_from]. Qed.

Lemma grant_more_from t ww : let '(g, others) := grant_more t ww in from ww (g ++ others).
Proof.
  induction ww as [|d ww IH]; cbn; [by apply from_incl|].
  assert (Hone : from (d :: ww) ([set_cond d false] ++ ww)).
  { intros x [->|Hx]%elem_of_cons; [exists d; split; [set_solver|done]|exists x; split; [set_solver|done]]. }
  destruct ww as [|d' ww]; [exact Hone|]. destruct (_ && _); [|exact Hone].
  destruct (grant_more t (d' :: ww)) as [g others]. intros x [->|Hx]%elem_of_cons.
  - exists d. split; [set_solver|done].
  - destruct (IH x Hx) as (y & Hy & ?). exists y. split; [set_solver|done].
Qed.

Lemma grant_writes_from cs ww : let '(g, others) := grant_writes cs ww in from ww (g ++ others).
Proof.
  induction ww as [|d ww IH]; cbn [grant_writes]; [by apply from_incl|].
  set (d1 := if bool_decide (type d = TL_WRITE_CONCURRENT_INSERT) && cs (status_param d)
             then set_type d TL_WRITE else d).
  assert (Hd1 : later d (set_cond d1 false)).
  { unfold d1. destruct (_ && _) eqn:E; [bools|done]. split_and!; [done|done|]. cbn. destruct (type d); done || lia. }
  clearbody d1.
  assert (Hone : from (d :: ww) ([set_cond d1 false] ++ ww)).
  { intros x [->|Hx]%elem_of_cons; [exists d; split; [set_solver|done]|exists x; split; [set_solver|done]]. }
  destruct ww as [|d' ww]; [exact Hone|]. destruct (_ && _); [|exact Hone].
  destruct (grant_writes cs (d' :: ww)) as [g others]. intros x [->|Hx]%elem_of_cons.
  - exists d. split; [set_solver|done].
  - destruct (IH x Hx) as (y & Hy & ?). exists y. split; [set_solver|done].
Qed.

(** The writers [g] of the queue get the lock. *)
Lemma granted_from l g others :
  from (write_wait l) (g ++ others) ->
  from (instances l) (instances (set_lists l (read_wait l) (read l) others (write l ++ g))).
Proof.
  intros H x Hx. unfold instances in Hx. cbn in Hx. rewrite !elem_of_app in Hx.
  destruct (decide (x ∈ g ++ others)) as [Hg|Hg].
  - destruct (H x Hg) as (y & Hy & ?). exists y. split; [|done]. unfold instances. rewrite !elem_of_app. tauto.
  - exists x. split; [|done]. unfold instances. rewrite !elem_of_app in *. tauto.
Qed.

Lemma wake_writer_from maxw cs l : from (instances l) (instances (wake_writer maxw cs l)).
Proof.
  unfold wake_writer. cbn zeta. set (l1 := set_counts l _ _).
  change (from (instances l1) (instances (if (write_lock_count l >? maxw) && negb (bool_decide (read_wait l1 = []))
    then free_all_read_locks l1 false else
    let '(g, others) := grant_writes cs (write_wait l1) in
    let l2 := set_lists l1 (read_wait l1) (read l1) others (write l1 ++ g) in
    if TL_WRITE_LOW_PRIORITY <=t last_type g then l2
    else free_waiting_readers l2 (is_concurrent (last_type g))))). clearbody l1.
  destruct (_ && _); [apply free_all_from|]. pose proof (grant_writes_from cs (write_wait l1)) as Hg.
  destruct (grant_writes cs (write_wait l1)) as [g others]. apply granted_from in Hg. cbn zeta.
  destruct (_ <=t _); [done|]. eapply from_trans; [done|apply free_waiting_from].
Qed.

Lemma wake_with_readers_from cs l d ww :
  write_wait l = d :: ww -> from (instances l) (instances (wake_with_readers cs l d)).
Proof.
  intros Hww. unfold wake_with_readers. destruct (_ && _) eqn:E.
  - bools. eapply from_trans; [|apply free_waiting_from]. unfold instances. cbn. rewrite Hww. intros y Hy.
    destruct (decide (y = set_type d TL_WRITE)) as [->|Hne]; [|exists y; split; [set_solver|done]].
    exists d. split; [set_solver|]. split_and!; [done|done|]. cbn. destruct (type d); done || lia.
  - pose proof (grant_more_from (type d) (write_wait l)) as Hg.
    destruct (grant_more (type d) (write_wait l)) as [g others]. apply granted_from in Hg.
    eapply from_trans; [done|apply free_waiting_from].
Qed.

Lemma wake_up_from maxw cs l : from (instances l) (instances (wake_up_waiters maxw cs l)).
Proof.
  unfold wake_up_waiters. destruct (write l) as [|w W]; [|by apply from_incl].
  destruct (read l), (write_wait l) as [|d ww] eqn:Hww; auto using free_waiting_from.
  - destruct (_ || _); auto using free_waiting_from, wake_writer_from.
  - destruct (_ && _); [by eapply wake_with_readers_from|by apply from_incl].
Qed.

Lemma unlock_from maxw cs l d : from (instances l) (instances (thr_unlock maxw cs l d)).
Proof.
  eapply from_trans; [|apply wake_up_from]. apply from_incl. unfold instances. intros x.
  destruct (_ <=t _), (bool_decide (type d = TL_WRITE_DELAYED) && cond d), (bool_decide (type d = TL_READ_NO_INSERT));
    cbn; unfold unlink; rewrite !elem_of_app, ?list_elem_of_filter; tauto.
Qed.

Lemma end_wait_from maxw cs l id res : from (instances l) (instances (snd (end_wait maxw cs l id res))).
Proof.
  unfold end_wait. destruct (_ || _); [|destruct (_ || _); by apply from_incl]. cbn [snd].
  eapply from_trans; [|apply wake_up_from]. apply from_incl. unfold instances, unlink. cbn. intros x.
  rewrite !elem_of_app, !list_elem_of_filter. tauto.
Qed.

Lemma abort_from l u : from (instances l) (instances (thr_abort_locks l u)).
Proof.
  unfold thr_abort_locks, instances. cbn. intros x Hx. destruct (write l) as [|w W]; [exists x; split; [set_solver|done]|].
  destruct u; [|exists x; split; [set_solver|done]].
  destruct (decide (x = set_type w TL_WRITE_ONLY)) as [->|]; [|exists x; split; [set_solver|done]].
  exists w. split; [set_solver|]. split_and!; [done|done|]. cbn. destruct (type w); cbn; lia.
Qed.

Lemma abort_thread_from maxw cs ti l id : from (instances l) (instances (snd (thr_abort_locks_for_thread maxw cs ti l id))).
Proof.
  unfold thr_abort_locks_for_thread. cbn [snd]. eapply from_trans; [|apply wake_up_from].
  apply from_incl. unfold instances. cbn. intros x. rewrite !elem_of_app, !list_elem_of_filter. tauto.
Qed.

(** Locks are kept when others are aborted. *)
Lemma abort_held l u id : held_in l id -> held_in (thr_abort_locks l u) id.
Proof. unfold held_in, held, thr_abort_locks. cbn. rewrite !map_app. by destruct (write l), u. Qed.

Lemma abort_thread_held et maxw cs ti l i id :
  core et l -> held_in l id -> held_in (snd (thr_abort_locks_for_thread maxw cs ti l i)) id.
Proof.
  intros Hc Hid. unfold thr_abort_locks_for_thread. cbn [snd]. set (l1 := set_lists _ _ _ _ _).
  assert (Hc1 : core et l1) by (unfold l1; apply core_sublists'; [done|apply sublist_filter..|done]).
  destruct (wake_up_ok et maxw cs l1 Hc1) as (_ & Hg & _). by apply (woken_held l1).
Qed.

(** ** The threads *)

Section Threads.
Context (et : Z -> thr_lock_type) (up : thr_lock_type) (maxw : Z).
Hypothesis up_type : up = TL_WRITE \/ up = TL_WRITE_LOW_PRIORITY.

(** Where a thread is: outside; in [multi_lock_loop], with the locks it has
    taken, the last one first, and the requests to come; in [wait_for_lock] for
    [d]; in [thr_multi_unlock]. *)
Inductive phase :=
| Idle
| Locking (taken todo : list THR_LOCK_DATA)
| Waiting (taken : list THR_LOCK_DATA) (d : THR_LOCK_DATA) (todo : list THR_LOCK_DATA)
| Unlocking (todo : list THR_LOCK_DATA).

Record world := mk_world { locks : Z -> THR_LOCK; phase_of : nat -> phase }.

Definition set_phase (ph : nat -> phase) (o : nat) (p : phase) : nat -> phase :=
  fun u => if (u =? o)%nat then p else ph u.

(** The instances a thread uses. *)
Definition uses (p : phase) : list THR_LOCK_DATA :=
  match p with
  | Idle => []
  | Locking t todo => t ++ todo
  | Waiting t d todo => d :: t ++ todo
  | Unlocking t => t
  end.

(** The steps of the threads.  A thread calls [thr_multi_lock] with instances
    that no other thread uses, and each request keeps to the rules of the lock
    ([op_ok]) and is not TL_WRITE_DELAYED.  A wait ends when the lock was
    granted, when it was aborted, by a timeout or a kill; after a failure the
    thread unlocks what it has.  A lock may be aborted at any time. *)
Inductive world_step (w : world) : world -> Prop :=
| step_call o data :
    phase_of w o = Idle -> NoDup (map data_id data) ->
    (forall u y z, u <> o -> y ∈ data -> z ∈ uses (phase_of w u) -> data_id y <> data_id z) ->
    world_step w (mk_world (locks w) (set_phase (phase_of w) o (Locking [] (lock_order data))))
| step_lock o t d todo cs res d' l' :
    phase_of w o = Locking t (d :: todo) -> type d <> TL_WRITE_DELAYED ->
    op_ok (et (lock_of d)) up (Lock cs d o) (locks w (lock_of d)) ->
    thr_lock up cs (locks w (lock_of d)) d o = (res, d', l') ->
    world_step w
      (mk_world
         (set_lock (locks w) (lock_of d) (match res with MUST_WAIT => start_wait l' d' | _ => l' end))
         (set_phase (phase_of w) o
            (match res with
             | TAKEN => Locking (d :: t) todo
             | FAILED => Unlocking (rev t)
             | MUST_WAIT => Waiting t d todo
             end)))
| step_wait_end o t d todo cs timeout res l' :
    phase_of w o = Waiting t d todo -> timeout <> THR_LOCK_SUCCESS ->
    end_wait maxw cs (locks w (lock_of d)) (data_id d) timeout = (res, l') ->
    world_step w
      (mk_world (set_lock (locks w) (lock_of d) l')
         (set_phase (phase_of w) o
            (match res with THR_LOCK_SUCCESS => Locking (d :: t) todo | _ => Unlocking (rev t) end)))
| step_done o t :
    phase_of w o = Locking t [] ->
    world_step w (mk_world (locks w) (set_phase (phase_of w) o (Unlocking (rev t))))
| step_unlock o d todo cs :
    phase_of w o = Unlocking (d :: todo) ->
    world_step w (mk_world (multi_unlock_one maxw cs (locks w) d) (set_phase (phase_of w) o (Unlocking todo)))
| step_out o :
    phase_of w o = Unlocking [] -> world_step w (mk_world (locks w) (set_phase (phase_of w) o Idle))
| step_abort a upgrade_lock :
    op_ok (et a) up (Abort upgrade_lock) (locks w a) ->
    world_step w (mk_world (set_lock (locks w) a (thr_abort_locks (locks w a) upgrade_lock)) (phase_of w))
| step_abort_thread a cs thread_id id :
    world_step w
      (mk_world (set_lock (locks w) a (snd (thr_abort_locks_for_thread maxw cs thread_id (locks w a) id)))
         (phase_of w)).

(** New locks, and no thread in a call. *)
Definition world_init (w : world) : Prop :=
  (forall a, exists has_check multiple, locks w a = thr_lock_init has_check multiple) /\
  forall o, phase_of w o = Idle.

(** ** The invariant *)

(** The instances that may be in a list of a lock, and those that hold it. *)
Definition own (p : phase) : list THR_LOCK_DATA :=
  match p with Idle => [] | Locking t _ => t | Waiting t d _ => d :: t | Unlocking t => t end.
Definition firm (p : phase) : list THR_LOCK_DATA :=
  match p with Idle => [] | Locking t _ | Waiting t _ _ | Unlocking t => t end.

(** The requests of a thread are in order; it has no lock on the table that it
    waits for. *)
Definition phase_ok (p : phase) : Prop :=
  NoDup (map data_id (uses p)) /\
  match p with
  | Idle | Unlocking _ => True
  | Locking t todo => StronglySorted lock_le (rev t ++ todo)
  | Waiting t d todo => StronglySorted lock_le (rev t ++ d :: todo) /\ forall y, y ∈ t -> lock_of y <> lock_of d
  end.

Definition recorded (p : phase) (a : Z) (x : THR_LOCK_DATA) : Prop :=
  exists y, y ∈ own p /\ data_id y = data_id x /\ lock_of y = a /\ type_val (type y) <= type_val (type x).

Record world_ok (w : world) : Prop := {
  wo_wf : all_wf et (locks w);
  wo_own : forall a x, x ∈ instances (locks w a) -> recorded (phase_of w (owner x)) a x;
  wo_firm : forall o y, y ∈ firm (phase_of w o) -> taken (locks w) y;
  wo_phase : forall o, phase_ok (phase_of w o);
  wo_apart : forall o u y z, o <> u -> y ∈ uses (phase_of w o) -> z ∈ uses (phase_of w u) -> data_id y <> data_id z;
  wo_finite : exists n, forall o, (n <= o)%nat -> phase_of w o = Idle
}.

Lemma firm_own p y : y ∈ firm p -> y ∈ own p.
Proof. destruct p; cbn; set_solver. Qed.

Lemma own_uses p y : y ∈ own p -> y ∈ uses p.
Proof. destruct p; cbn; set_solver. Qed.

Lemma init_ok w : world_init w -> world_ok w.
Proof.
  intros [Hl Hp]. split.
  - intros a. destruct (Hl a) as (hc & m & ->). apply init_wf.
  - intros a x. destruct (Hl a) as (hc & m & ->). by intros ?%elem_of_nil.
  - intros o y. rewrite Hp. by intros ?%elem_of_nil.
  - intros o. rewrite Hp. split; [constructor|done].
  - intros o u y z _. rewrite Hp. by intros ?%elem_of_nil.
  - exists 0%nat. auto.
Qed.

(** The thread [o] goes to [p'] and changes the lock [a] only. *)
Lemma change_ok w o a locks' p' :
  world_ok w -> (forall b, b <> a -> locks' b = locks w b) -> lock_wf (et a) (locks' a) ->
  (forall x', x' ∈ instances (locks' a) ->
     (exists x, x ∈ instances (locks w a) /\ later x x') \/ (owner x' = o /\ recorded p' a x')) ->
  (forall y, y ∈ own (phase_of w o) -> y ∈ own p' \/ (lock_of y = a /\ data_id y ∉ ids (locks' a))) ->
  (forall y, y ∈ firm p' -> taken locks' y) ->
  (forall u y, u <> o -> y ∈ firm (phase_of w u) -> lock_of y = a -> held_in (locks' a) (data_id y)) ->
  phase_ok p' ->
  (forall u y z, u <> o -> y ∈ uses p' -> z ∈ uses (phase_of w u) -> data_id y <> data_id z) ->
  world_ok (mk_world locks' (set_phase (phase_of w) o p')).
Proof.
  intros [Hwf Hown Hfirm Hph Hap [n Hn]] Hb Hwf' Hfrom Hkeep Hf Hothers Hp Hapart. unfold set_phase.
  split; cbn [locks phase_of].
  - intros b. destruct (Z.eq_dec b a) as [->|Hne]; [done|]. by rewrite Hb.
  - intros b x' Hx'.
    assert (Hold : (exists x, x ∈ instances (locks w b) /\ later x x') \/ (b = a /\ owner x' = o /\ recorded p' a x')).
    { destruct (Z.eq_dec b a) as [->|Hne]; [destruct (Hfrom x' Hx') as [?|[? ?]]; eauto|].
      rewrite Hb in Hx' by done. eauto using later_refl. }
    destruct Hold as [(x & Hx & Hid & Ho & Ht)|(-> & -> & Hr)]; [|by rewrite Nat.eqb_refl].
    destruct (Hown b x Hx) as (y & Hy & Hyi & Hyl & Hyt). rewrite <- Ho in Hy.
    destruct (Nat.eqb_spec (owner x') o) as [E|E]; [|exists y; split_and!; [done|congruence|done|lia]].
    rewrite E in Hy. destruct (Hkeep y Hy) as [Hy'|[Hla Hno]]; [exists y; split_and!; [done|congruence|done|lia]|].
    exfalso. apply Hno. apply list_elem_of_fmap. exists x'. split; [congruence|]. by rewrite <- Hla, Hyl.
  - intros u y. destruct (Nat.eqb_spec u o) as [->|E]; [apply Hf|]. intros Hy. unfold taken.
    destruct (Z.eq_dec (lock_of y) a) as [Ea|Ea]; [rewrite Ea; eauto|]. rewrite Hb by done. by eapply Hfirm.
  - intros u. by destruct (u =? o)%nat.
  - intros u v y z Huv. destruct (Nat.eqb_spec u o) as [->|E1], (Nat.eqb_spec v o) as [->|E2]; try done.
    + intros Hy Hz. by eapply Hapart.
    + intros Hy Hz Heq. by eapply (Hapart u z y).
    + by apply Hap.
  - exists (Nat.max n (S o)). intros u Hu. destruct (Nat.eqb_spec u o); [lia|]. apply Hn. lia.
Qed.

(** Only the phase changes. *)
Lemma phase_change_ok w o p' :
  world_ok w -> (forall y, y ∈ own (phase_of w o) -> y ∈ own p') ->
  (forall y, y ∈ firm p' -> y ∈ firm (phase_of w o)) -> phase_ok p' ->
  (forall u y z, u <> o -> y ∈ uses p' -> z ∈ uses (phase_of w u) -> data_id y <> data_id z) ->
  world_ok (mk_world (locks w) (set_phase (phase_of w) o p')).
Proof.
  intros Hok H1 H2 Hp Hap. apply (change_ok w o 0); try done.
  - apply Hok.
  - intros x Hx. left. exists x. auto using later_refl.
  - auto.
  - intros y Hy. eapply (wo_firm w Hok). eauto.
  - intros u y _ Hy <-. by apply (wo_firm w Hok u).
Qed.

(** What an abort does to a lock concerns no phase. *)
Lemma lock_change_ok w a l' :
  world_ok w -> lock_wf (et a) l' -> from (instances (locks w a)) (instances l') ->
  (forall id, held_in (locks w a) id -> held_in l' id) ->
  world_ok (mk_world (set_lock (locks w) a l') (phase_of w)).
Proof.
  intros [Hwf Hown Hfirm Hph Hap Hn] Hwf' Hfrom Hheld. split; cbn [locks phase_of]; try done.
  - by apply set_lock_wf.
  - intros b x' Hx'. unfold set_lock in Hx'. destruct (Z.eqb_spec b a) as [->|]; [|auto].
    destruct (Hfrom x' Hx') as (x & Hx & Hid & Ho & Ht). rewrite Ho.
    destruct (Hown a x Hx) as (y & ? & ? & ? & ?). exists y. split_and!; [done|congruence|done|lia].
  - intros o y Hy. specialize (Hfirm o y Hy). unfold taken, set_lock in *.
    destruct (Z.eqb_spec (lock_of y) a) as [Ea|]; [rewrite <- Ea in *; auto|done].
Qed.

Lemma sorted_before (R : THR_LOCK_DATA -> THR_LOCK_DATA -> Prop) L d L' y :
  StronglySorted R (L ++ d :: L') -> y ∈ L -> R y d.
Proof.
  induction L as [|x L IH]; cbn; [by intros _ ?%elem_of_nil|]. intros Hs. inversion_clear Hs as [|? ? Hs' Hx].
  intros [->|Hy]%elem_of_cons; [|auto]. rewrite Forall_forall in Hx. apply Hx. set_solver.
Qed.

(** The instance with the number of [y] is that of [y]'s thread. *)
Lemma mine w o y a x :
  world_ok w -> y ∈ uses (phase_of w o) -> x ∈ instances (locks w a) -> data_id x = data_id y ->
  owner x = o /\ lock_of y = a /\ type_val (type y) <= type_val (type x).
Proof.
  intros Hok Hy Hx E. destruct (wo_own w Hok a x Hx) as (z & Hz & Hzi & Hzl & Hzt). apply own_uses in Hz.
  assert (Ho : owner x = o).
  { destruct (Nat.eq_dec (owner x) o) as [|Hne]; [done|]. exfalso. eapply (wo_apart w Hok _ _ z y Hne); eauto; congruence. }
  rewrite Ho in Hz. destruct (wo_phase w Hok o) as [Hn _].
  assert (z = y) as -> by (eapply nodup_map_inj; eauto; congruence). auto.
Qed.

Lemma held_instance l x : x ∈ held l -> x ∈ instances l.
Proof. unfold held, instances. rewrite !elem_of_app. tauto. Qed.

(** A thread that must wait has no lock on the table. *)
Lemma must_wait_other w o t d todo cs d' l' :
  world_ok w -> phase_of w o = Locking t (d :: todo) ->
  op_ok (et (lock_of d)) up (Lock cs d o) (locks w (lock_of d)) ->
  thr_lock up cs (locks w (lock_of d)) d o = (MUST_WAIT, d', l') ->
  forall y, y ∈ t -> lock_of y <> lock_of d.
Proof.
  intros Hok Hp Hop E y Hy El.
  assert (Hu : y ∈ uses (phase_of w o)) by (rewrite Hp; cbn; set_solver).
  assert (Ht : taken (locks w) y) by (apply (wo_firm w Hok o); by rewrite Hp).
  unfold taken in Ht. rewrite El in Ht. apply list_elem_of_fmap in Ht as (x & Hid & Hx).
  destruct (mine w o y _ x Hok Hu (held_instance _ _ Hx) ltac:(done)) as (Ho & _ & Hty).
  destruct (wo_wf w Hok (lock_of d)) as [Hc _].
  apply (relock_no_wait _ up cs _ d o x Hc Hop Hx Ho); [|by rewrite E].
  destruct (wo_phase w Hok o) as [_ Hs]. rewrite Hp in Hs. cbn in Hs.
  pose proof (lock_le_type y d) as Hle. trans (type_val (type y)); [|done]. apply Hle; [|done].
  eapply sorted_before; [exact Hs|]. by rewrite <- Permutation_rev.
Qed.

Lemma taken_set ls a l y :
  taken ls y -> (lock_of y = a -> held_in (ls a) (data_id y) -> held_in l (data_id y)) -> taken (set_lock ls a l) y.
Proof. intros Ht H. unfold taken, set_lock in *. destruct (Z.eqb_spec (lock_of y) a) as [<-|]; auto. Qed.

Lemma added_instances l l' d :
  l' = add_read l d \/ l' = add_write l d \/ l' = start_wait l d ->
  forall x, x ∈ instances l' -> x ∈ instances l \/ x = d \/ x = set_cond d true.
Proof.
  unfold instances, start_wait. intros [->|[->| ->]] x; [| |destruct (_ <=t _)]; cbn;
    rewrite !elem_of_app, list_elem_of_singleton; tauto.
Qed.

(** The locks of a thread and the one it goes for are different instances. *)
Lemma phase_move p t d todo :
  phase_ok p -> p = Locking t (d :: todo) \/ p = Waiting t d todo ->
  phase_ok (Locking (d :: t) todo) /\ phase_ok (Unlocking (rev t)) /\
  ((forall y, y ∈ t -> lock_of y <> lock_of d) -> phase_ok (Waiting t d todo)).
Proof.
  intros [Hn Hs] Hp.
  assert (HP : NoDup (map data_id (d :: t ++ todo)) /\ StronglySorted lock_le (rev t ++ d :: todo)).
  { destruct Hp as [-> | ->]; cbn [uses] in *; [|by destruct Hs]. split; [|done]. by rewrite Permutation_middle. }
  clear Hn Hs Hp. destruct HP as [Hn Hs]. split; [|split].
  - split; [done|]. cbn [rev]. by rewrite <- app_assoc.
  - split; [|done]. cbn [uses]. rewrite <- Permutation_rev. cbn [map] in Hn. inversion_clear Hn as [|? ? _ Hn'].
    rewrite map_app in Hn'. by apply NoDup_app in Hn' as (? & _).
  - by split.
Qed.

(** The phases after the request use no other instances. *)
Lemma apart_sub w o p' :
  world_ok w -> (forall y, y ∈ uses p' -> y ∈ uses (phase_of w o)) ->
  forall u y z, u <> o -> y ∈ uses p' -> z ∈ uses (phase_of w u) -> data_id y <> data_id z.
Proof. intros Hok Hsub u y z Hu Hy Hz. eapply (wo_apart w Hok o u); eauto. Qed.

Lemma lock_step_ok w o t d todo cs res d' l' :
  world_ok w -> phase_of w o = Locking t (d :: todo) -> type d <> TL_WRITE_DELAYED ->
  op_ok (et (lock_of d)) up (Lock cs d o) (locks w (lock_of d)) ->
  thr_lock up cs (locks w (lock_of d)) d o = (res, d', l') ->
  world_ok (mk_world
    (set_lock (locks w) (lock_of d) (match res with MUST_WAIT => start_wait l' d' | _ => l' end))
    (set_phase (phase_of w) o
       (match res with TAKEN => Locking (d :: t) todo | FAILED => Unlocking (rev t) | MUST_WAIT => Waiting t d todo end))).
Proof.
  intros Hok Hp Hnd Hop E. pose proof (must_wait_other w o t d todo cs d' l' Hok Hp Hop) as Hmw.
  pose proof (wo_phase w Hok o) as Hpo. destruct (phase_move _ _ _ _ Hpo (or_introl Hp)) as (P1 & P2 & P3).
  set (p' := match res with TAKEN => Locking (d :: t) todo | FAILED => Unlocking (rev t) | MUST_WAIT => Waiting t d todo end).
  pose proof (exec_lock_ok (et (lock_of d)) up maxw up_type _ _ (wo_wf w Hok (lock_of d)) Hop) as Hwf. cbn [exec_lock] in Hwf.
  rewrite E in Hwf. destruct (thr_lock_cases _ _ _ _ _ _ _ _ up_type Hnd E) as [(Hid & Ho & Hty) Hres].
  set (l2 := match res with MUST_WAIT => start_wait l' d' | _ => l' end) in *.
  assert (Hl2 : l2 = locks w (lock_of d) /\ res = FAILED \/
    (l2 = add_read (locks w (lock_of d)) d' \/ l2 = add_write (locks w (lock_of d)) d') /\ res = TAKEN \/
    l2 = start_wait (locks w (lock_of d)) d' /\ res = MUST_WAIT) by (unfold l2; destruct res; subst; tauto).
  assert (Hheld : forall i, held_in (locks w (lock_of d)) i -> held_in l2 i).
  { intros i Hi. destruct Hl2 as [[-> _]|[[H _]|[-> _]]]; [done|eapply add_held; eauto|].
    unfold start_wait. by destruct (_ <=t _). }
  assert (Hfirm : forall y, y ∈ t -> taken (set_lock (locks w) (lock_of d) l2) y).
  { intros y Hy. apply taken_set; [apply (wo_firm w Hok o); by rewrite Hp|auto]. }
  apply (change_ok w o (lock_of d)); rewrite ?set_lock_same; try done.
  - intros b Hb. unfold set_lock. by destruct (Z.eqb_spec b (lock_of d)).
  - intros x Hx. assert (Hx' : x ∈ instances (locks w (lock_of d)) \/ res <> FAILED /\ (x = d' \/ x = set_cond d' true)).
    { destruct Hl2 as [[E2 _]|[[E2 ->]|[E2 ->]]]; [left; by rewrite <- E2|..];
        (destruct (added_instances (locks w (lock_of d)) l2 d' ltac:(tauto) x Hx) as [?|?]; [by left|by right]). }
    destruct Hx' as [Hx'|[Hr Hx']]; [left; exists x; auto using later_refl|right].
    assert (Hrec : recorded p' (lock_of d) d') by (exists d; split_and!; [unfold p'; destruct res; set_solver|done..]).
    destruct Hx' as [-> | ->]; done.
  - intros y. rewrite Hp. cbn [own]. intros Hy. left. unfold p'. destruct res; cbn [own]; [set_solver| |set_solver].
    by rewrite <- Permutation_rev.
  - intros y. unfold p'. destruct res; cbn [firm]; [|rewrite <- Permutation_rev; auto|auto].
    intros [->|Hy]%elem_of_cons; [|auto]. unfold taken. rewrite set_lock_same.
    destruct Hl2 as [[_ ?]|[[E2 _]|[_ ?]]]; [done| |done]. eapply add_held; eauto.
  - intros u y _ Hy El. apply Hheld. rewrite <- El. by apply (wo_firm w Hok u).
  - unfold p'. destruct res; [done|done|]. apply P3. by apply Hmw.
  - apply apart_sub; [done|]. intros y. rewrite Hp. unfold p'. destruct res; cbn [uses]; rewrite ?elem_of_app, ?elem_of_cons; [set_solver| |set_solver].
    rewrite <- Permutation_rev. tauto.
Qed.

Lemma wait_end_ok w o t d todo cs timeout res l' :
  world_ok w -> phase_of w o = Waiting t d todo -> timeout <> THR_LOCK_SUCCESS ->
  end_wait maxw cs (locks w (lock_of d)) (data_id d) timeout = (res, l') ->
  world_ok (mk_world (set_lock (locks w) (lock_of d) l')
    (set_phase (phase_of w) o
       (match res with THR_LOCK_SUCCESS => Locking (d :: t) todo | _ => Unlocking (rev t) end))).
Proof.
  intros Hok Hp Ht E. destruct (phase_move _ _ _ _ (wo_phase w Hok o) (or_intror Hp)) as (P1 & P2 & _).
  pose proof (end_wait_spec maxw cs (et (lock_of d)) _ (data_id d) timeout (wo_wf w Hok _) Ht) as Hs.
  pose proof (end_wait_from maxw cs (locks w (lock_of d)) (data_id d) timeout) as Hf. rewrite E in Hs, Hf. cbn [snd] in Hf.
  destruct Hs as (Hwf & Hyes & Hno & Hkeep).
  assert (Hfirm : forall y, y ∈ t -> taken (set_lock (locks w) (lock_of d) l') y).
  { intros y Hy. apply taken_set; [apply (wo_firm w Hok o); by rewrite Hp|]. intros _. apply Hkeep. }
  apply (change_ok w o (lock_of d)); rewrite ?set_lock_same; try done.
  - intros b Hb. unfold set_lock. by destruct (Z.eqb_spec b (lock_of d)).
  - intros x Hx. left. auto.
  - intros y. rewrite Hp. cbn [own]. intros [->|Hy]%elem_of_cons.
    + destruct res; cbn [own]; [left; set_solver|right; split; [done|by apply Hno]..].
    + left. destruct res; cbn [own]; rewrite <- ?Permutation_rev; set_solver.
  - intros y. destruct res; cbn [firm]; rewrite <- ?Permutation_rev; auto.
    intros [->|Hy]%elem_of_cons; [|auto]. unfold taken. rewrite set_lock_same. auto.
  - intros u y _ Hy El. apply Hkeep. rewrite <- El. by apply (wo_firm w Hok u).
  - by destruct res.
  - apply apart_sub; [done|]. intros y. rewrite Hp. destruct res; cbn [uses]; rewrite <- ?Permutation_rev; set_solver.
Qed.

Lemma unlock_step_ok w o d todo cs :
  world_ok w -> phase_of w o = Unlocking (d :: todo) ->
  world_ok (mk_world (multi_unlock_one maxw cs (locks w) d) (set_phase (phase_of w) o (Unlocking todo))).
Proof.
  intros Hok Hp. destruct (wo_phase w Hok o) as [Hn _]. rewrite Hp in Hn. cbn in Hn. inversion_clear Hn as [|? ? Hd Hn'].
  assert (Ht : forall y, y ∈ d :: todo -> taken (locks w) y) by (intros y Hy; apply (wo_firm w Hok o); by rewrite Hp).
  destruct (find_data_held (locks w (lock_of d)) (data_id d)) as (d' & Hf & Hid); [apply Ht; set_solver|].
  unfold multi_unlock_one. rewrite Hf. rewrite <- Hid in Hf.
  destruct (unlock_held maxw cs (et (lock_of d)) _ d' (wo_wf w Hok _)) as (Hwf & Hgone & _ & Hkeep);
    [rewrite Hid; apply Ht; set_solver|done|]. rewrite Hid in *.
  apply (change_ok w o (lock_of d)); rewrite ?set_lock_same; try done.
  - intros b Hb. unfold set_lock. by destruct (Z.eqb_spec b (lock_of d)).
  - intros x Hx. left. by apply (unlock_from maxw cs _ d').
  - intros y. rewrite Hp. cbn [own]. intros [->|Hy]%elem_of_cons; [by right|by left].
  - intros y Hy. cbn [firm] in Hy. apply taken_set; [apply Ht; set_solver|]. intros _. apply Hkeep. intros E.
    apply Hd. rewrite <- E. apply list_elem_of_fmap. eauto.
  - intros u y Hu Hy El. apply Hkeep; [|rewrite <- El; by apply (wo_firm w Hok u)].
    eapply (wo_apart w Hok u o); [done|by apply own_uses, firm_own|]. rewrite Hp. cbn. set_solver.
  - apply apart_sub; [done|]. intros y. rewrite Hp. cbn. set_solver.
Qed.

Lemma step_ok w w' : world_ok w -> world_step w w' -> world_ok w'.
Proof.
  intros Hok. destruct 1 as [o data Hp Hn Hap|o t d todo cs res d' l' Hp Hnd Hop E|o t d todo cs timeout res l' Hp Ht E|
    o t Hp|o d todo cs Hp|o Hp|a u Hop|a cs ti id].
  - apply phase_change_ok; [done|by rewrite Hp|by intros ? ?%elem_of_nil| |].
    + rewrite lock_order_sort. split; cbn [uses app]; [by rewrite sort_locks_perm|]. apply sort_locks_sorted.
    + intros u y z Hu Hy Hz. apply (Hap u); [done| |done]. cbn in Hy. by rewrite lock_order_sort, sort_locks_perm in Hy.
  - by eapply lock_step_ok.
  - by eapply wait_end_ok.
  - apply phase_change_ok; [done|rewrite Hp; intros y; cbn; by rewrite <- Permutation_rev..| |].
    + destruct (wo_phase w Hok o) as [Hn _]. rewrite Hp in Hn. split; [|done]. cbn in *. rewrite app_nil_r in Hn.
      by rewrite <- Permutation_rev.
    + apply apart_sub; [done|]. intros y. rewrite Hp. cbn. rewrite app_nil_r. by rewrite <- Permutation_rev.
  - by apply unlock_step_ok.
  - apply phase_change_ok; [done|by rewrite Hp|by intros ? ?%elem_of_nil|split; [constructor|done]|by intros ? ? ? _ ?%elem_of_nil].
  - apply lock_change_ok; [done|exact (exec_lock_ok (et a) up maxw up_type (Abort u) _ (wo_wf w Hok a) Hop)|apply abort_from|apply abort_held].
  - destruct (wo_wf w Hok a) as [Hc Hb].
    apply lock_change_ok; [done|by apply abort_thread_ok|apply abort_thread_from|intros id'; by apply (abort_thread_held (et a))].
Qed.

Lemma reachable_ok w0 w : world_init w0 -> rtc world_step w0 w -> world_ok w.
Proof. intros H0%init_ok. induction 1; eauto using step_ok. Qed.

(** ** No circle of waits *)

(** The thread [u] waits for the lock of [d]. *)
Definition waits (w : world) (u : nat) (d : THR_LOCK_DATA) : Prop :=
  (exists t todo, phase_of w u = Waiting t d todo) /\
  data_id d ∈ map data_id (waiting (locks w (lock_of d))).

Lemma waits_dec w u : (exists d, waits w u d) \/ forall d, ~ waits w u d.
Proof.
  unfold waits. destruct (phase_of w u) as [|t todo|t d todo|t];
    try (right; by intros d [(? & ? & ?) _]).
  destruct (decide (data_id d ∈ map data_id (waiting (locks w (lock_of d))))) as [H|H]; [left; eauto|].
  right. intros d' [(? & ? & [= <- <- <-]) ?]. done.
Qed.

(** What a waiting thread holds comes before the table that it waits for. *)
Lemma holder_before w u d a x :
  world_ok w -> waits w u d -> x ∈ held (locks w a) -> owner x = u -> a < lock_of d.
Proof.
  intros Hok [(t & todo & Hp) Hw] Hx Ho.
  destruct (wo_own w Hok a x (held_instance _ _ Hx)) as (y & Hy & Hid & Hl & _). rewrite Ho, Hp in Hy.
  destruct (wo_phase w Hok u) as [_ Hs]. rewrite Hp in Hs. destruct Hs as [Hs Hne].
  apply elem_of_cons in Hy as [->|Hy].
  - exfalso. destruct (wo_wf w Hok a) as [Hc _]. rewrite Hl in Hw.
    apply (waiting_not_held _ _ _ Hc Hw). rewrite Hid. apply list_elem_of_fmap. eauto.
  - pose proof (lock_le_address y d) as Hle. specialize (Hne y Hy). rewrite <- Hl.
    assert (lock_of y <= lock_of d); [|lia]. apply Hle. eapply sorted_before; [exact Hs|]. by rewrite <- Permutation_rev.
Qed.

Lemma last_table w u0 d0 :
  world_ok w -> waits w u0 d0 ->
  exists u d, waits w u d /\ forall v d', waits w v d' -> lock_of d' <= lock_of d.
Proof.
  intros Hok H0. destruct (wo_finite w Hok) as [n Hn].
  assert (Hmax : exists u d, waits w u d /\ forall v d', (v < n)%nat -> waits w v d' -> lock_of d' <= lock_of d).
  { clear Hn. induction n as [|n (u & d & Hu & Hmax)]; [exists u0, d0; split; [done|lia]|].
    destruct (waits_dec w n) as [[e He]|He].
    - assert (Hsame : forall d', waits w n d' -> d' = e).
      { intros d' [(? & ? & E) _]. destruct He as [(? & ? & E') _]. congruence. }
      destruct (Z.le_gt_cases (lock_of e) (lock_of d)).
      + exists u, d. split; [done|]. intros v d' Hv Hw. destruct (Nat.eq_dec v n) as [->|]; [by rewrite (Hsame _ Hw)|].
        eapply Hmax; [|done]. lia.
      + exists n, e. split; [done|]. intros v d' Hv Hw. destruct (Nat.eq_dec v n) as [->|]; [by rewrite (Hsame _ Hw)|].
        specialize (Hmax v d' ltac:(lia) Hw). lia.
    - exists u, d. split; [done|]. intros v d' Hv Hw. destruct (Nat.eq_dec v n) as [->|]; [by destruct (He d')|].
      eapply Hmax; [|done]. lia. }
  destruct Hmax as (u & d & Hu & Hmax). exists u, d. split; [done|]. intros v d' Hv. apply (Hmax v); [|done].
  destruct (Nat.lt_ge_cases v n) as [|Hge]; [done|]. destruct Hv as [(? & ? & E) _]. by rewrite Hn in E.
Qed.

(** ** The steps are those of [thr_multi_lock] *)

(** The other threads, between the steps of the thread [o]. *)
Definition moves (o : nat) (f : (Z -> THR_LOCK) -> (Z -> THR_LOCK)) : Prop :=
  forall w, exists ph, ph o = phase_of w o /\ rtc world_step w (mk_world (f (locks w)) ph).

Lemma set_phase_same ph o p : set_phase ph o p o = p.
Proof. unfold set_phase. by rewrite Nat.eqb_refl. Qed.

Lemma multi_unlock_run w o cs t :
  phase_of w o = Unlocking t ->
  exists ph, ph o = Unlocking [] /\ rtc world_step w (mk_world (thr_multi_unlock maxw cs (locks w) t) ph).
Proof.
  revert w. induction t as [|d t IH]; intros w Hp.
  - destruct w as [ls ph]. exists ph. split; [done|apply rtc_refl].
  - destruct (IH (mk_world (multi_unlock_one maxw cs (locks w) d) (set_phase (phase_of w) o (Unlocking t)))) as (ph & E & R);
      [apply set_phase_same|]. exists ph. split; [done|]. eapply rtc_l; [by apply (step_unlock w o d t cs)|exact R].
Qed.

Section Run.
Context (cs : nat -> bool) (others meanwhile : nat -> (Z -> THR_LOCK) -> (Z -> THR_LOCK)).
Context (timeout : nat -> enum_thr_lock_result) (o : nat).
Hypothesis others_move : forall k, moves o (others k).
Hypothesis meanwhile_move : forall k, moves o (meanwhile k).
Hypothesis timeout_fails : forall k, timeout k <> THR_LOCK_SUCCESS.

Lemma lock_and_wait_run k w t d todo :
  phase_of w o = Locking t (d :: todo) -> type d <> TL_WRITE_DELAYED ->
  op_ok (et (lock_of d)) up (Lock cs d o) (others k (locks w) (lock_of d)) ->
  let '(res, locks') := lock_and_wait maxw up cs others meanwhile timeout o k (locks w) d in
  exists ph, ph o = (match res with THR_LOCK_SUCCESS => Locking (d :: t) todo | _ => Unlocking (rev t) end) /\
    rtc world_step w (mk_world locks' ph).
Proof.
  intros Hp Hnd Hop. unfold lock_and_wait. cbn zeta. destruct (others_move k w) as (ph1 & E1 & R1).
  rewrite Hp in E1. set (w1 := mk_world (others k (locks w)) ph1) in *.
  destruct (thr_lock up cs (others k (locks w) (lock_of d)) d o) as [[res d'] l'] eqn:E.
  pose proof (step_lock w1 o t d todo cs res d' l' E1 Hnd Hop E) as S1.
  destruct (thr_lock_cases _ _ _ _ _ _ _ _ up_type Hnd E) as [(Hid & _) _]. destruct res.
  - eexists. split; [apply set_phase_same|]. eapply rtc_r; [exact R1|exact S1].
  - eexists. split; [apply set_phase_same|]. eapply rtc_r; [exact R1|exact S1].
  - match type of S1 with world_step _ ?x => set (w2 := x) in * end.
    destruct (meanwhile_move k w2) as (ph3 & E3 & R3). change (locks w2) with (set_lock (others k (locks w)) (lock_of d) (start_wait l' d')) in R3.
    assert (E3' : ph3 o = Waiting t d todo) by (rewrite E3; apply set_phase_same).
    set (w3 := mk_world (meanwhile k _) ph3) in R3. rewrite Hid.
    destruct (end_wait maxw cs _ (data_id d) (timeout k)) as [res l3] eqn:Ee.
    pose proof (step_wait_end w3 o t d todo cs (timeout k) res l3 E3' (timeout_fails k) Ee) as S3.
    eexists. split; [|eapply rtc_r; [|exact S3]; etrans; [|exact R3]; by eapply rtc_r].
    apply set_phase_same.
Qed.

Lemma multi_lock_loop_run todo : forall k w t,
  phase_of w o = Locking t todo -> calls_ok et up maxw cs others meanwhile timeout o k (locks w) todo ->
  let '(res, locks') := multi_lock_loop maxw up cs others meanwhile timeout o k (locks w) t todo in
  exists ph, ph o = (match res with THR_LOCK_SUCCESS => Locking (rev todo ++ t) [] | _ => Unlocking [] end) /\
    rtc world_step w (mk_world locks' ph).
Proof.
  induction todo as [|d todo IH]; intros k w t Hp Hok; cbn [multi_lock_loop].
  { destruct w as [ls ph]. exists ph. split; [done|apply rtc_refl]. }
  destruct Hok as (Hnd & Hop & Hok). pose proof (lock_and_wait_run k w t d todo Hp Hnd Hop) as H.
  destruct (lock_and_wait _ _ _ _ _ _ _ k (locks w) d) as [res locks1]. destruct H as (ph1 & E1 & R1).
  destruct res.
  - specialize (IH (S k) (mk_world locks1 ph1) (d :: t) E1 (Hok eq_refl)). cbn [locks] in IH.
    destruct (multi_lock_loop _ _ _ _ _ _ _ _ _ _ _) as [res locks2]. destruct IH as (ph2 & E2 & R2).
    exists ph2. split; [|by etrans]. rewrite E2. cbn [rev]. by rewrite <- app_assoc.
  - destruct (multi_unlock_run (mk_world locks1 ph1) o cs (rev t) E1) as (ph2 & E2 & R2). exists ph2. split; [done|by etrans].
  - destruct (multi_unlock_run (mk_world locks1 ph1) o cs (rev t) E1) as (ph2 & E2 & R2). exists ph2. split; [done|by etrans].
  - destruct (multi_unlock_run (mk_world locks1 ph1) o cs (rev t) E1) as (ph2 & E2 & R2). exists ph2. split; [done|by etrans].
Qed.

(** A call of [thr_multi_lock], with whatever the other threads do in between,
    is a run of these steps. *)
Lemma multi_lock_run w data :
  phase_of w o = Idle -> NoDup (map data_id data) ->
  (forall u y z, u <> o -> y ∈ data -> z ∈ uses (phase_of w u) -> data_id y <> data_id z) ->
  calls_ok et up maxw cs others meanwhile timeout o 0 (locks w) (lock_order data) ->
  let '(res, locks') := thr_multi_lock maxw up cs others meanwhile timeout o (locks w) data in
  exists ph, ph o = (match res with THR_LOCK_SUCCESS => Locking (rev (lock_order data)) [] | _ => Unlocking [] end) /\
    rtc world_step w (mk_world locks' ph).
Proof.
  intros Hp Hn Hap Hok. unfold thr_multi_lock.
  pose proof (step_call w o data Hp Hn Hap) as S0.
  pose proof (multi_lock_loop_run (lock_order data) 0 (mk_world (locks w) (set_phase (phase_of w) o (Locking [] (lock_order data)))) []
    (set_phase_same _ _ _) Hok) as H. cbn [locks] in H.
  destruct (multi_lock_loop _ _ _ _ _ _ _ _ _ _ _) as [res locks']. destruct H as (ph & E & R). exists ph.
  split; [by rewrite app_nil_r in E|]. by eapply rtc_l.
Qed.
End Run.

End Threads.

(** C17: Threads that lock their tables with [thr_multi_lock] do not wait for each
    other in a circle: in every state that any number of threads reaches, when
    some of them wait, one waits for a table all of whose holders, of which
    there is at least one, do not wait.  (Each thread locks its tables with one call,
    with requests that keep to the rules of the locks, [op_ok], and are not
    TL_WRITE_DELAYED, and has an instance for itself while it uses it.) *)
Theorem multi_lock_no_deadlock et up maxw w0 w :
  up = TL_WRITE \/ up = TL_WRITE_LOW_PRIORITY ->
  world_init w0 -> rtc (world_step et up maxw) w0 w -> (exists u d, waits w u d) ->
  exists u d, waits w u d /\ held (locks w (lock_of d)) <> [] /\
    forall x d', x ∈ held (locks w (lock_of d)) -> ~ waits w (owner x) d'.
Proof.
  intros Hup H0 Hr (u0 & d0 & Hw0). pose proof (reachable_ok et up maxw Hup w0 w H0 Hr) as Hok.
  destruct (last_table et w u0 d0 Hok Hw0) as (u & d & Hw & Hmax). exists u, d. split; [done|]. split.
  - destruct Hw as [_ Hw]. by eapply waiting_holder; [apply Hok|].
  - intros x d' Hx Hd. pose proof (holder_before et up maxw Hup w _ d' _ x Hok Hd Hx eq_refl) as Hlt. specialize (Hmax _ _ Hd). lia.
Qed.

Module Examples.

Import LockExamples.

Definition engine (_ : Z) : thr_lock_type := TL_WRITE_ALLOW_WRITE.
Notation step := (world_step engine TL_WRITE 100).

Definition call (w : world) (o : nat) (data : list THR_LOCK_DATA) : world :=
  mk_world (locks w) (set_phase (phase_of w) o (Locking [] (lock_order data))).

(** The thread [o] makes its next request. *)
Definition request (w : world) (o : nat) : world :=
  match phase_of w o with
  | Locking t (d :: todo) =>
      let '(res, d', l') := thr_lock TL_WRITE no_check (locks w (lock_of d)) d o in
      mk_world
        (set_lock (locks w) (lock_of d) (match res with MUST_WAIT => start_wait l' d' | _ => l' end))
        (set_phase (phase_of w) o
           (match res with
            | TAKEN => Locking (d :: t) todo | FAILED => Unlocking (rev t) | MUST_WAIT => Waiting t d todo
            end))
  | _ => w
  end.

Lemma request_step w o t d todo :
  phase_of w o = Locking t (d :: todo) -> type d <> TL_WRITE_DELAYED ->
  op_ok TL_WRITE_ALLOW_WRITE TL_WRITE (Lock no_check d o) (locks w (lock_of d)) -> step w (request w o).
Proof.
  intros Hp Hd Hop. unfold request. rewrite Hp.
  destruct (thr_lock TL_WRITE no_check (locks w (lock_of d)) d o) as [[res d'] l'] eqn:E.
  by apply (step_lock engine TL_WRITE 100 w o t d todo no_check).
Qed.

(** Thread 1 has table 4 and waits for table 8, which thread 2 has; thread 3
    waits for table 4. *)
Definition w0 : world := mk_world (fun _ => thr_lock_init false false) (fun _ => Idle).
Definition w1 : world := call w0 1 [inst 2 8 TL_READ; inst 1 4 TL_WRITE].
Definition w2 : world := request w1 1.
Definition w3 : world := call w2 2 [inst 3 8 TL_WRITE].
Definition w4 : world := request w3 2.
Definition w5 : world := request w4 1.
Definition w6 : world := call w5 3 [inst 5 4 TL_READ].
Definition w7 : world := request w6 3.

Lemma w7_reachable : rtc step w0 w7.
Proof.
  apply rtc_l with w1; [apply step_call; [done|apply (bool_decide_unpack _); vm_compute; exact I|]|].
  { intros u y z _ _ ?%elem_of_nil. done. }
  apply rtc_l with w2; [eapply request_step; [reflexivity|done|lock_op_ok]|].
  apply rtc_l with w3; [apply step_call; [done|apply (bool_decide_unpack _); vm_compute; exact I|]|].
  { intros [|[|u]] y z Hu Hy Hz; [by apply elem_of_nil in Hz| |by apply elem_of_nil in Hz].
    apply list_elem_of_In in Hy, Hz. vm_compute in Hy, Hz. intuition (subst; done). }
  apply rtc_l with w4; [eapply request_step; [reflexivity|done|lock_op_ok]|].
  apply rtc_l with w5; [eapply request_step; [reflexivity|done|lock_op_ok]|].
  apply rtc_l with w6; [apply step_call; [done|apply (bool_decide_unpack _); vm_compute; exact I|]|].
  { intros [|[|[|u]]] y z Hu Hy Hz; try (by apply elem_of_nil in Hz);
      apply list_elem_of_In in Hy, Hz; vm_compute in Hy, Hz; intuition (subst; done). }
  apply rtc_once. eapply request_step; [reflexivity|done|lock_op_ok].
Defined.

Lemma w7_waits : waits w7 3 (inst 5 4 TL_READ) /\ waits w7 1 (inst 2 8 TL_READ).
Proof.
  split; (split; [eexists _, _; vm_compute; reflexivity|apply (bool_decide_unpack _); vm_compute; exact I]).
Defined.

Lemma multi_lock_no_deadlock_witness :
  rtc step w0 w7 /\ waits w7 3 (inst 5 4 TL_READ) /\ waits w7 1 (inst 2 8 TL_READ) /\
  exists u d, waits w7 u d /\ held (locks w7 (lock_of d)) <> [] /\
    forall x d', x ∈ held (locks w7 (lock_of d)) -> ~ waits w7 (owner x) d'.
Proof.
  split; [exact w7_reachable|]. split; [exact (proj1 w7_waits)|]. split; [exact (proj2 w7_waits)|].
  refine (multi_lock_no_deadlock engine TL_WRITE 100 w0 w7 (or_introl eq_refl) _ w7_reachable _).
  - split; [by exists false, false|done].
  - exists 3%nat, (inst 5 4 TL_READ). exact (proj1 w7_waits).
Defined.

End Examples.
