(* ===== verification/MdlLock.v ===== *)
(** * Metadata locks: one lock object ([MDL_lock] of [sql/mdl.cc])

    A ticket stands in the granted or in the waiting list of its lock and is
    identified by [t_id] (its address); its members live in that list entry.
    A context is identified by a number, and its wait slot ([MDL_wait]) is
    looked up in a map of slots.  Each function is one critical section under
    [MDL_lock::m_rwlock].  The configuration is the one without WSREP. *)
From S2P Require Import Prelude.
From Stdlib Require Import ZArith Lia List Bool.
From stdpp Require Import base tactics list functions.
Open Scope Z_scope.

(** ** Types of locks *)

Inductive enum_mdl_type :=
| MDL_INTENTION_EXCLUSIVE
| MDL_SHARED
| MDL_SHARED_HIGH_PRIO
| MDL_SHARED_READ
| MDL_SHARED_WRITE
| MDL_SHARED_UPGRADABLE
| MDL_SHARED_NO_WRITE
| MDL_SHARED_NO_READ_WRITE
| MDL_EXCLUSIVE.

#[export] Instance enum_mdl_type_eqdec : EqDecision enum_mdl_type.
Proof. solve_decision. Defined.

Definition all_types : list enum_mdl_type :=
  [MDL_INTENTION_EXCLUSIVE; MDL_SHARED; MDL_SHARED_HIGH_PRIO; MDL_SHARED_READ; MDL_SHARED_WRITE;
   MDL_SHARED_UPGRADABLE; MDL_SHARED_NO_WRITE; MDL_SHARED_NO_READ_WRITE; MDL_EXCLUSIVE].

Definition type_val (t : enum_mdl_type) : Z :=
  match t with
  | MDL_INTENTION_EXCLUSIVE => 0 | MDL_SHARED => 1 | MDL_SHARED_HIGH_PRIO => 2
  | MDL_SHARED_READ => 3 | MDL_SHARED_WRITE => 4 | MDL_SHARED_UPGRADABLE => 5
  | MDL_SHARED_NO_WRITE => 6 | MDL_SHARED_NO_READ_WRITE => 7 | MDL_EXCLUSIVE => 8
  end.

Definition MDL_BIT (t : enum_mdl_type) : Z := Z.shiftl 1 (type_val t).

(** A set of types as the code writes it. *)
Definition bits (l : list enum_mdl_type) : Z := fold_right (fun t b => Z.lor (MDL_BIT t) b) 0 l.

(** ** Strategies *)

Inductive strategy := scoped_lock | object_lock.

Definition m_granted_incompatible (s : strategy) (t : enum_mdl_type) : Z :=
  match s, t with
  | scoped_lock, MDL_INTENTION_EXCLUSIVE => bits [MDL_EXCLUSIVE; MDL_SHARED]
  | scoped_lock, MDL_SHARED => bits [MDL_EXCLUSIVE; MDL_INTENTION_EXCLUSIVE]
  | scoped_lock, MDL_EXCLUSIVE => bits [MDL_EXCLUSIVE; MDL_SHARED; MDL_INTENTION_EXCLUSIVE]
  | scoped_lock, _ => 0
  | object_lock, MDL_INTENTION_EXCLUSIVE => 0
  | object_lock, MDL_SHARED => bits [MDL_EXCLUSIVE]
  | object_lock, MDL_SHARED_HIGH_PRIO => bits [MDL_EXCLUSIVE]
  | object_lock, MDL_SHARED_READ => bits [MDL_EXCLUSIVE; MDL_SHARED_NO_READ_WRITE]
  | object_lock, MDL_SHARED_WRITE =>
    bits [MDL_EXCLUSIVE; MDL_SHARED_NO_READ_WRITE; MDL_SHARED_NO_WRITE]
  | object_lock, MDL_SHARED_UPGRADABLE =>
    bits [MDL_EXCLUSIVE; MDL_SHARED_NO_READ_WRITE; MDL_SHARED_NO_WRITE; MDL_SHARED_UPGRADABLE]
  | object_lock, MDL_SHARED_NO_WRITE =>
    bits [MDL_EXCLUSIVE; MDL_SHARED_NO_READ_WRITE; MDL_SHARED_NO_WRITE; MDL_SHARED_UPGRADABLE;
          MDL_SHARED_WRITE]
  | object_lock, MDL_SHARED_NO_READ_WRITE =>
    bits [MDL_EXCLUSIVE; MDL_SHARED_NO_READ_WRITE; MDL_SHARED_NO_WRITE; MDL_SHARED_UPGRADABLE;
          MDL_SHARED_WRITE; MDL_SHARED_READ]
  | object_lock, MDL_EXCLUSIVE =>
    bits [MDL_EXCLUSIVE; MDL_SHARED_NO_READ_WRITE; MDL_SHARED_NO_WRITE; MDL_SHARED_UPGRADABLE;
          MDL_SHARED_WRITE; MDL_SHARED_READ; MDL_SHARED_HIGH_PRIO; MDL_SHARED]
  end.

Definition m_waiting_incompatible (s : strategy) (t : enum_mdl_type) : Z :=
  match s, t with
  | scoped_lock, MDL_INTENTION_EXCLUSIVE => bits [MDL_EXCLUSIVE; MDL_SHARED]
  | scoped_lock, MDL_SHARED => bits [MDL_EXCLUSIVE]
  | scoped_lock, _ => 0
  | object_lock, MDL_INTENTION_EXCLUSIVE => 0
  | object_lock, MDL_SHARED => bits [MDL_EXCLUSIVE]
  | object_lock, MDL_SHARED_HIGH_PRIO => 0
  | object_lock, MDL_SHARED_READ => bits [MDL_EXCLUSIVE; MDL_SHARED_NO_READ_WRITE]
  | object_lock, MDL_SHARED_WRITE =>
    bits [MDL_EXCLUSIVE; MDL_SHARED_NO_READ_WRITE; MDL_SHARED_NO_WRITE]
  | object_lock, MDL_SHARED_UPGRADABLE => bits [MDL_EXCLUSIVE]
  | object_lock, MDL_SHARED_NO_WRITE => bits [MDL_EXCLUSIVE]
  | object_lock, MDL_SHARED_NO_READ_WRITE => bits [MDL_EXCLUSIVE]
  | object_lock, MDL_EXCLUSIVE => 0
  end.

Definition hog_lock_types_bitmap (s : strategy) : Z :=
  match s with
  | scoped_lock => 0
  | object_lock => bits [MDL_SHARED_NO_WRITE; MDL_SHARED_NO_READ_WRITE; MDL_EXCLUSIVE]
  end.

(** The virtual [needs_notification] and [conflicting_locks]. *)
Definition needs_notification (s : strategy) (t : enum_mdl_type) : bool :=
  match s with
  | scoped_lock => type_val t =? type_val MDL_SHARED
  | object_lock => type_val t >=? type_val MDL_SHARED_NO_WRITE
  end.
Definition conflicting_locks (s : strategy) (t : enum_mdl_type) : bool :=
  match s with
  | scoped_lock => type_val t =? type_val MDL_INTENTION_EXCLUSIVE
  | object_lock => type_val t <? type_val MDL_SHARED_UPGRADABLE
  end.

(** [bitmap & map] as a truth value. *)
Definition meets (bitmap map : Z) : bool := negb (Z.land bitmap map =? 0).

Definition is_incompatible_when_granted (s : strategy) (held req : enum_mdl_type) : bool :=
  meets (MDL_BIT held) (m_granted_incompatible s req).
Definition is_incompatible_when_waiting (s : strategy) (pending req : enum_mdl_type) : bool :=
  meets (MDL_BIT pending) (m_waiting_incompatible s req).

(** A lock of type [held] forbids at least what [t] forbids. *)
Definition has_stronger_or_equal_type (s : strategy) (held t : enum_mdl_type) : bool :=
  negb (meets (m_granted_incompatible s t) (Z.lnot (m_granted_incompatible s held))).

(** ** Tickets and lists *)

Record MDL_ticket := mk_ticket { t_id : nat; t_ctx : nat; t_type : enum_mdl_type }.

#[export] Instance MDL_ticket_eqdec : EqDecision MDL_ticket.
Proof. solve_decision. Defined.

Record Ticket_list := mk_tlist { m_list : list MDL_ticket; m_bitmap : Z }.

Definition empty_tlist : Ticket_list := mk_tlist [] 0.
Definition tlist_is_empty (l : Ticket_list) : bool :=
  match m_list l with [] => true | _ => false end.

(** [m_list.remove(ticket)]: the entry with that address. *)
Definition list_remove_id (id : nat) (l : list MDL_ticket) : list MDL_ticket :=
  filter (fun t => t_id t <> id) l.

Definition clear_bit_if_not_in_list (l : Ticket_list) (ty : enum_mdl_type) : Ticket_list :=
  if existsb (fun t => type_val (t_type t) =? type_val ty) (m_list l) then l
  else mk_tlist (m_list l) (Z.land (m_bitmap l) (Z.lnot (MDL_BIT ty))).

Definition add_ticket (l : Ticket_list) (t : MDL_ticket) : Ticket_list :=
  mk_tlist (m_list l ++ [t]) (Z.lor (m_bitmap l) (MDL_BIT (t_type t))).

Definition remove_ticket (l : Ticket_list) (t : MDL_ticket) : Ticket_list :=
  clear_bit_if_not_in_list (mk_tlist (list_remove_id (t_id t) (m_list l)) (m_bitmap l)) (t_type t).

(** ** Wait slots *)

Inductive enum_wait_status := EMPTY | GRANTED | VICTIM | TIMEOUT | KILLED.

#[export] Instance enum_wait_status_eqdec : EqDecision enum_wait_status.
Proof. solve_decision. Defined.

Definition slots : Type := nat -> enum_wait_status.

(** Returns ([was_occupied], slots). *)
Definition set_status (w : slots) (ctx : nat) (st : enum_wait_status) : bool * slots :=
  if decide (w ctx = EMPTY) then (false, <[ctx := st]> w) else (true, w).
Definition reset_status (w : slots) (ctx : nat) : slots := <[ctx := EMPTY]> w.

(** [timed_wait] at its end, when no status has been posted: the wait ended
    because the owner was killed or by the timeout. *)
Definition timed_wait_end (w : slots) (ctx : nat) (killed set_status_on_timeout : bool)
  : enum_wait_status * slots :=
  let w :=
    if decide (w ctx = EMPTY) then
      if killed then <[ctx := KILLED]> w
      else if set_status_on_timeout then <[ctx := TIMEOUT]> w else w
    else w in
  (w ctx, w).

(** ** The lock *)

Record MDL_lock := mk_lock {
  m_granted : Ticket_list;
  m_waiting : Ticket_list;
  m_hog_lock_count : Z;
  m_strategy : strategy
}.

Definition new_lock (s : strategy) : MDL_lock := mk_lock empty_tlist empty_tlist 0 s.
Definition is_empty (lk : MDL_lock) : bool :=
  tlist_is_empty (m_granted lk) && tlist_is_empty (m_waiting lk).

Definition set_granted (lk : MDL_lock) (l : Ticket_list) : MDL_lock :=
  mk_lock l (m_waiting lk) (m_hog_lock_count lk) (m_strategy lk).
Definition set_waiting (lk : MDL_lock) (l : Ticket_list) : MDL_lock :=
  mk_lock (m_granted lk) l (m_hog_lock_count lk) (m_strategy lk).
Definition set_hog (lk : MDL_lock) (n : Z) : MDL_lock :=
  mk_lock (m_granted lk) (m_waiting lk) n (m_strategy lk).

Definition can_grant_lock (lk : MDL_lock) (type_arg : enum_mdl_type) (requestor_ctx : nat)
  (ignore_lock_priority : bool) : bool :=
  let s := m_strategy lk in
  if ignore_lock_priority || negb (meets (m_bitmap (m_waiting lk)) (m_waiting_incompatible s type_arg))
  then
    if negb (meets (m_bitmap (m_granted lk)) (m_granted_incompatible s type_arg)) then true
    else
      negb (existsb (fun t => negb (t_ctx t =? requestor_ctx)%nat &&
                              is_incompatible_when_granted s (t_type t) type_arg)
                    (m_list (m_granted lk)))
  else false.

(** The loop of [reschedule_waiters] over the tickets that were waiting. *)
Fixpoint reschedule_loop (skip_high_priority : bool) (todo : list MDL_ticket)
  (lk : MDL_lock) (w : slots) : MDL_lock * slots :=
  match todo with
  | [] => (lk, w)
  | ticket :: todo =>
    let hog := hog_lock_types_bitmap (m_strategy lk) in
    if skip_high_priority && meets (MDL_BIT (t_type ticket)) hog
    then reschedule_loop skip_high_priority todo lk w
    else if can_grant_lock lk (t_type ticket) (t_ctx ticket) skip_high_priority then
      let '(was_occupied, w) := set_status w (t_ctx ticket) GRANTED in
      if negb was_occupied then
        let lk := set_waiting lk (remove_ticket (m_waiting lk) ticket) in
        let lk := set_granted lk (add_ticket (m_granted lk) ticket) in
        let lk := if meets (MDL_BIT (t_type ticket)) hog
                  then set_hog lk (u64 (m_hog_lock_count lk + 1)) else lk in
        reschedule_loop skip_high_priority todo lk w
      else reschedule_loop skip_high_priority todo lk w
    else reschedule_loop skip_high_priority todo lk w
  end.

(** [m_waiting.bitmap() & ~hog_lock_types]: some low-priority request waits. *)
Definition weak_waiting (lk : MDL_lock) : bool :=
  meets (m_bitmap (m_waiting lk)) (Z.lnot (hog_lock_types_bitmap (m_strategy lk))).

Definition skip_high_priority (max_write_lock_count : Z) (lk : MDL_lock) : bool :=
  (m_hog_lock_count lk >=? max_write_lock_count) && weak_waiting lk.

Definition reschedule_waiters (max_write_lock_count : Z) (lk : MDL_lock) (w : slots)
  : MDL_lock * slots :=
  let '(lk, w) := reschedule_loop (skip_high_priority max_write_lock_count lk)
                    (m_list (m_waiting lk)) lk w in
  (if negb (weak_waiting lk) then set_hog lk 0 else lk, w).

Definition has_pending_conflicting_lock (lk : MDL_lock) (ty : enum_mdl_type) : bool :=
  meets (m_bitmap (m_waiting lk)) (m_granted_incompatible (m_strategy lk) ty).

(** [MDL_lock::remove_ticket]: [None] when the lock became empty and is
    removed from the map. *)
Definition lock_remove_granted (mx : Z) (lk : MDL_lock) (w : slots) (t : MDL_ticket)
  : option MDL_lock * slots :=
  let lk := set_granted lk (remove_ticket (m_granted lk) t) in
  if is_empty lk then (None, w)
  else let '(lk, w) := reschedule_waiters mx lk w in (Some lk, w).

Definition lock_remove_waiting (mx : Z) (lk : MDL_lock) (w : slots) (t : MDL_ticket)
  : option MDL_lock * slots :=
  let lk := set_waiting lk (remove_ticket (m_waiting lk) t) in
  if is_empty lk then (None, w)
  else let '(lk, w) := reschedule_waiters mx lk w in (Some lk, w).

(** The contexts whose owners are told that [ctx] waits for them. *)
Definition notify_conflicting_locks (lk : MDL_lock) (ctx : nat) : list nat :=
  map t_ctx (filter (fun t => t_ctx t <> ctx /\ conflicting_locks (m_strategy lk) (t_type t) = true)
               (m_list (m_granted lk))).

Definition get_lock_owner (lk : MDL_lock) : option nat :=
  match m_list (m_granted lk) with t :: _ => Some (t_ctx t) | [] => None end.

(** Merging and retyping a granted ticket: it is taken out of the list, given
    its new type and put back. *)
Definition retype_granted (lk : MDL_lock) (t : MDL_ticket) (ty : enum_mdl_type) : MDL_lock :=
  set_granted lk (add_ticket (remove_ticket (m_granted lk) t) (mk_ticket (t_id t) (t_ctx t) ty)).

(** The part of [MDL_ticket::downgrade_lock] inside the critical section. *)
Definition lock_downgrade (mx : Z) (lk : MDL_lock) (w : slots) (t : MDL_ticket) (ty : enum_mdl_type)
  : MDL_lock * slots :=
  if decide (t_type t = ty) then (lk, w)
  else if negb (has_stronger_or_equal_type (m_strategy lk) (t_type t) ty) then (lk, w)
  else reschedule_waiters mx (retype_granted lk t ty) w.

(** ** Bitmaps are exact *)

Definition bitmap_of (l : list MDL_ticket) : Z := bits (map t_type l).

Definition wf_tlist (l : Ticket_list) : Prop :=
  m_bitmap l = bitmap_of (m_list l) /\ NoDup (map t_id (m_list l)).

Lemma type_val_inj a b : type_val a = type_val b -> a = b.
Proof. destruct a, b; simpl; congruence. Qed.

Lemma bit_land a b : Z.land (MDL_BIT a) (MDL_BIT b) = if decide (a = b) then MDL_BIT a else 0.
Proof. destruct a, b; reflexivity. Qed.

Lemma bits_cons t l : bits (t :: l) = Z.lor (MDL_BIT t) (bits l).
Proof. done. Qed.

Lemma bits_app a b : bits (a ++ b) = Z.lor (bits a) (bits b).
Proof. induction a as [|t a IH]; [done|]. simpl. rewrite IH. apply Z.lor_assoc. Qed.

Lemma bits_perm a b : a ≡ₚ b -> bits a = bits b.
Proof.
  intros H. induction H; simpl; [done|congruence| |congruence].
  rewrite !Z.lor_assoc. f_equal. apply Z.lor_comm.
Qed.

(** A bitmap meets a map when one of its types is in the map. *)
Lemma meets_bits l m : meets (bits l) m = existsb (fun t => meets (MDL_BIT t) m) l.
Proof.
  induction l as [|t l IH]; [done|]. simpl. rewrite <- IH. unfold meets.
  rewrite Z.land_lor_distr_l.
  destruct (Z.eqb_spec (Z.lor (Z.land (MDL_BIT t) m) (Z.land (bits l) m)) 0) as [E|E];
    destruct (Z.eqb_spec (Z.land (MDL_BIT t) m) 0) as [E1|E1];
    destruct (Z.eqb_spec (Z.land (bits l) m) 0) as [E2|E2]; try done;
    exfalso; rewrite Z.lor_eq_0_iff in *; tauto.
Qed.

Lemma meets_iff l m : meets (bits l) m = true <-> exists t, t ∈ l /\ meets (MDL_BIT t) m = true.
Proof.
  rewrite meets_bits, existsb_exists. split; intros (t & H & K); exists t; split; auto;
    by apply list_elem_of_In.
Qed.

Lemma bits_absorb t l : t ∈ l -> Z.lor (MDL_BIT t) (bits l) = bits l.
Proof.
  induction l as [|t' l IH]; intros H; [by apply not_elem_of_nil in H|].
  apply elem_of_cons in H as [->|H]; simpl.
  - by rewrite Z.lor_assoc, Z.lor_diag.
  - rewrite Z.lor_assoc, (Z.lor_comm (MDL_BIT t)), <- Z.lor_assoc. by rewrite IH by done.
Qed.

Lemma bits_disjoint t l : t ∉ l -> Z.land (bits l) (MDL_BIT t) = 0.
Proof.
  induction l as [|t' l IH]; intros H; [done|]. apply not_elem_of_cons in H as [H1 H2]. simpl.
  rewrite Z.land_lor_distr_l, IH, bit_land by done. rewrite decide_False by congruence. done.
Qed.

(** The entry of a list with a given address. *)
Lemma list_remove_id_fresh id l : id ∉ map t_id l -> list_remove_id id l = l.
Proof.
  induction l as [|x l IH]; intros H; [done|]. simpl in H. apply not_elem_of_cons in H as [H1 H2].
  unfold list_remove_id in *. rewrite filter_cons_True by congruence. by rewrite IH.
Qed.

Lemma list_remove_id_perm t l : NoDup (map t_id l) -> t ∈ l -> l ≡ₚ t :: list_remove_id (t_id t) l.
Proof.
  induction l as [|x l IH]; intros Hn Ht; [by apply not_elem_of_nil in Ht|].
  simpl in Hn. apply list.NoDup_cons in Hn as [Hx Hn]. unfold list_remove_id.
  apply elem_of_cons in Ht as [->|Ht].
  - rewrite filter_cons_False by auto. fold (list_remove_id (t_id x) l).
    by rewrite list_remove_id_fresh.
  - rewrite filter_cons_True.
    + fold (list_remove_id (t_id t) l). rewrite (IH Hn Ht) at 1. apply perm_swap.
    + intros E. apply Hx. rewrite E. by apply list_elem_of_fmap_2.
Qed.

Lemma elem_of_remove_id t id l : t ∈ list_remove_id id l <-> t_id t <> id /\ t ∈ l.
Proof. unfold list_remove_id. by rewrite list_elem_of_filter. Qed.

Lemma list_remove_id_nodup id l : NoDup (map t_id l) -> NoDup (map t_id (list_remove_id id l)).
Proof. apply nodup_map_filter. Qed.

Lemma add_ticket_wf l t : wf_tlist l -> t_id t ∉ map t_id (m_list l) -> wf_tlist (add_ticket l t).
Proof.
  intros [Hb Hn] Hf. split; simpl.
  - unfold bitmap_of in *. rewrite map_app, bits_app, Hb. simpl. by rewrite Z.lor_0_r.
  - rewrite map_app. simpl. by rewrite <- Permutation_cons_append, list.NoDup_cons.
Qed.

Lemma existsb_type ty l :
  existsb (fun t => type_val (t_type t) =? type_val ty) l = true <-> ty ∈ map t_type l.
Proof.
  rewrite existsb_exists, list_elem_of_In, in_map_iff. split; intros (t & H1 & H2); exists t.
  - split; [|done]. apply type_val_inj. lia.
  - split; [done|]. rewrite H1. lia.
Qed.

Lemma remove_ticket_wf l t : wf_tlist l -> t ∈ m_list l -> wf_tlist (remove_ticket l t).
Proof.
  intros [Hb Hn] Ht. pose proof (list_remove_id_perm t _ Hn Ht) as P.
  set (rest := list_remove_id (t_id t) (m_list l)) in *.
  assert (m_bitmap l = Z.lor (MDL_BIT (t_type t)) (bitmap_of rest)) as E.
  { rewrite Hb. unfold bitmap_of. rewrite (bits_perm _ _ (Permutation_map t_type P)). done. }
  unfold remove_ticket, clear_bit_if_not_in_list. simpl. fold rest.
  destruct (existsb _ rest) eqn:X; (split; [|by apply list_remove_id_nodup]); simpl; rewrite E.
  - apply existsb_type in X. by apply bits_absorb.
  - assert (t_type t ∉ map t_type rest) as Hni by (rewrite <- existsb_type; congruence).
    rewrite Z.land_lor_distr_l, Z.land_lnot_diag, Z.lor_0_l, Z.land_comm.
    rewrite Z.land_comm. rewrite <- Z.ldiff_land.
    apply Z.bits_inj'. intros n Hn'. rewrite Z.ldiff_spec.
    destruct (Z.testbit (MDL_BIT (t_type t)) n) eqn:B; simpl; [|by rewrite andb_true_r].
    rewrite andb_false_r. symmetry. apply not_true_is_false. intros B'.
    pose proof (bits_disjoint _ _ Hni) as D. fold (bitmap_of rest) in D.
    assert (Z.testbit (Z.land (bitmap_of rest) (MDL_BIT (t_type t))) n = true) as K
      by (by rewrite Z.land_spec, B, B').
    rewrite D in K. by rewrite Z.bits_0 in K.
Qed.

Lemma m_list_remove_ticket l t : m_list (remove_ticket l t) = list_remove_id (t_id t) (m_list l).
Proof. unfold remove_ticket, clear_bit_if_not_in_list. by case_match. Qed.

Lemma wf_tlist_meets l m : wf_tlist l ->
  meets (m_bitmap l) m = true <-> exists t, t ∈ m_list l /\ meets (MDL_BIT (t_type t)) m = true.
Proof.
  intros [-> _]. unfold bitmap_of. rewrite meets_iff. split.
  - intros (ty & Hty & K). apply list_elem_of_In, in_map_iff in Hty as (t & <- & Ht).
    exists t. split; [by apply list_elem_of_In|done].
  - intros (t & Ht & K). exists (t_type t). split; [|done]. by apply (list_elem_of_fmap_2 t_type).
Qed.

(** ** The lock's invariant *)

Record wf_lock (lk : MDL_lock) : Prop := {
  wl_granted : wf_tlist (m_granted lk);
  wl_waiting : wf_tlist (m_waiting lk);
  (* a ticket is in one list only *)
  wl_disjoint : forall a b, a ∈ m_list (m_granted lk) -> b ∈ m_list (m_waiting lk) -> t_id a <> t_id b;
  (* a context waits for one ticket at a time *)
  wl_one_wait : NoDup (map t_ctx (m_list (m_waiting lk)));
  (* locks held by different contexts are compatible *)
  wl_compat : forall a b, a ∈ m_list (m_granted lk) -> b ∈ m_list (m_granted lk) ->
    t_ctx a <> t_ctx b -> is_incompatible_when_granted (m_strategy lk) (t_type a) (t_type b) = false
}.

Lemma incompatible_sym s a b :
  is_incompatible_when_granted s a b = is_incompatible_when_granted s b a.
Proof. destruct s, a, b; reflexivity. Qed.

(** What a pending request holds up, it would hold up if granted. *)
Lemma waiting_incompatible_granted s a b :
  is_incompatible_when_waiting s a b = true -> is_incompatible_when_granted s a b = true.
Proof. destruct s, a, b; (discriminate || reflexivity). Qed.

Lemma stronger_incompatible s held t other :
  has_stronger_or_equal_type s held t = true ->
  is_incompatible_when_granted s other t = true -> is_incompatible_when_granted s other held = true.
Proof. destruct s, held, t, other; (discriminate || reflexivity). Qed.

Lemma stronger_refl s t : has_stronger_or_equal_type s t t = true.
Proof. destruct s, t; reflexivity. Qed.

(** A request is granted iff no request of higher priority waits (unless
    priorities are ignored) and no other context holds an incompatible lock. *)
Lemma can_grant_spec lk ty ctx ign : wf_lock lk ->
  can_grant_lock lk ty ctx ign = true <->
  (ign = true \/ forall t, t ∈ m_list (m_waiting lk) ->
     is_incompatible_when_waiting (m_strategy lk) (t_type t) ty = false) /\
  (forall t, t ∈ m_list (m_granted lk) -> t_ctx t <> ctx ->
     is_incompatible_when_granted (m_strategy lk) (t_type t) ty = false).
Proof.
  intros [Hg Hw _ _ _]. unfold can_grant_lock. set (s := m_strategy lk).
  pose proof (wf_tlist_meets _ (m_waiting_incompatible s ty) Hw) as Mw.
  pose proof (wf_tlist_meets _ (m_granted_incompatible s ty) Hg) as Mg.
  assert (ign || negb (meets (m_bitmap (m_waiting lk)) (m_waiting_incompatible s ty)) = true <->
    (ign = true \/ forall t, t ∈ m_list (m_waiting lk) ->
     is_incompatible_when_waiting s (t_type t) ty = false)) as W.
  { rewrite orb_true_iff, negb_true_iff. split; (intros [->|H]; [by left|right]).
    - intros t Ht. apply not_true_is_false. intros K. rewrite <- not_true_iff_false, Mw in H. eauto.
    - apply not_true_is_false. rewrite Mw. intros (t & Ht & K).
      specialize (H t Ht). unfold is_incompatible_when_waiting in H. congruence. }
  destruct (ign || _) eqn:E1.
  2:{ split; [done|]. intros [H _]. apply W in H. done. }
  assert (ign = true \/ _) as W' by (by apply W). clear W.
  assert (forall b, (negb (existsb (fun t => negb (t_ctx t =? ctx)%nat &&
    is_incompatible_when_granted s (t_type t) ty) (m_list (m_granted lk))) = b) -> b = true <->
    (forall t, t ∈ m_list (m_granted lk) -> t_ctx t <> ctx ->
     is_incompatible_when_granted s (t_type t) ty = false)) as G.
  { intros b <-. rewrite negb_true_iff, <- not_true_iff_false, existsb_exists. split.
    - intros H t Ht Hne. apply not_true_is_false. intros K. apply H. exists t.
      split; [by apply list_elem_of_In|]. rewrite K, andb_true_r. apply negb_true_iff.
      by apply Nat.eqb_neq.
    - intros H (t & Ht & K). apply andb_true_iff in K as [K1 K2].
      apply negb_true_iff, Nat.eqb_neq in K1. rewrite H in K2; [done|by apply list_elem_of_In|done]. }
  destruct (meets (m_bitmap (m_granted lk)) _) eqn:E2; cbn [negb].
  - rewrite (G _ eq_refl). tauto.
  - split; [|done]. intros _. split; [done|]. intros t Ht _. apply not_true_is_false. intros K.
    assert (false = true); [|done]. apply Mg. eauto.
Qed.

(** Moving a ticket from the waiting to the granted list. *)
Definition grant (lk : MDL_lock) (t : MDL_ticket) : MDL_lock :=
  set_granted (set_waiting lk (remove_ticket (m_waiting lk) t)) (add_ticket (m_granted lk) t).

Lemma grant_waiting lk t x : x ∈ m_list (m_waiting (grant lk t)) <->
  t_id x <> t_id t /\ x ∈ m_list (m_waiting lk).
Proof. simpl. rewrite m_list_remove_ticket. apply elem_of_remove_id. Qed.

Lemma grant_granted lk t x : x ∈ m_list (m_granted (grant lk t)) <->
  x ∈ m_list (m_granted lk) \/ x = t.
Proof. simpl. rewrite elem_of_app, list_elem_of_singleton. done. Qed.

Lemma grant_wf lk t ign : wf_lock lk -> t ∈ m_list (m_waiting lk) ->
  can_grant_lock lk (t_type t) (t_ctx t) ign = true -> wf_lock (grant lk t).
Proof.
  intros Hwf Ht Hc. apply can_grant_spec in Hc as [_ Hc]; [|done].
  destruct Hwf as [Hg Hw Hd H1 Hk]. split.
  - apply add_ticket_wf; [done|]. intros K. apply list_elem_of_In, in_map_iff in K as (x & E & Hx).
    apply list_elem_of_In in Hx. by apply (Hd x t).
  - by apply remove_ticket_wf.
  - intros a b Ha Hb. apply grant_granted in Ha as [Ha| ->]; apply grant_waiting in Hb as [Hne Hb].
    + by apply Hd.
    + congruence.
  - simpl. rewrite m_list_remove_ticket. by apply nodup_map_filter.
  - intros a b Ha Hb Hne. change (m_strategy (grant lk t)) with (m_strategy lk).
    apply grant_granted in Ha as [Ha| ->]; apply grant_granted in Hb as [Hb| ->].
    + by apply Hk.
    + by apply Hc.
    + rewrite incompatible_sym. apply Hc; congruence.
    + done.
Qed.

(** A request that could not be granted cannot be after another one was: the
    code need not start over. *)
Lemma grant_blocked lk t x ign : wf_lock lk -> t ∈ m_list (m_waiting lk) -> x ∈ m_list (m_waiting lk) ->
  t_ctx x <> t_ctx t -> can_grant_lock lk (t_type t) (t_ctx t) ign = true ->
  can_grant_lock lk (t_type x) (t_ctx x) ign = false ->
  can_grant_lock (grant lk t) (t_type x) (t_ctx x) ign = false.
Proof.
  intros Hwf Ht Hx Hne Hc Hb. apply not_true_is_false. intros K.
  apply can_grant_spec in K as [Kw Kg]; [|by eapply grant_wf].
  change (m_strategy (grant lk t)) with (m_strategy lk) in *.
  rewrite <- not_true_iff_false, can_grant_spec in Hb by done. apply Hb. split.
  - destruct Kw as [Kw|Kw]; [by left|right]. intros y Hy.
    destruct (decide (t_id y = t_id t)) as [E|E]; [|by apply Kw, grant_waiting].
    assert (y = t) as -> by (apply (nodup_map_inj t_id (m_list (m_waiting lk))); auto; apply Hwf).
    apply not_true_is_false. intros I. apply waiting_incompatible_granted in I.
    rewrite Kg in I; [done|by apply grant_granted; right|congruence].
  - intros y Hy. apply Kg, grant_granted. by left.
Qed.

(** ** Rescheduling *)

(** [can_grant_lock] does not look at the counter. *)
Lemma can_grant_set_hog lk n ty ctx ign : can_grant_lock (set_hog lk n) ty ctx ign = can_grant_lock lk ty ctx ign.
Proof. done. Qed.

Lemma wf_set_hog lk n : wf_lock lk -> wf_lock (set_hog lk n).
Proof. intros [? ? ? ? ?]. by split. Qed.

Definition is_hog (lk : MDL_lock) (t : MDL_ticket) : bool :=
  meets (MDL_BIT (t_type t)) (hog_lock_types_bitmap (m_strategy lk)).

(** A waiter the pass may wake and could satisfy. *)
Definition overlooked (skip : bool) (lk : MDL_lock) (w : slots) (t : MDL_ticket) : Prop :=
  w (t_ctx t) = EMPTY /\ skip && is_hog lk t = false /\
  can_grant_lock lk (t_type t) (t_ctx t) skip = true.

#[export] Instance overlooked_dec skip lk w t : Decision (overlooked skip lk w t).
Proof. unfold overlooked. apply _. Defined.

(** One turn of the loop. *)
Lemma reschedule_loop_step skip t todo lk w :
  reschedule_loop skip (t :: todo) lk w =
  if decide (overlooked skip lk w t)
  then reschedule_loop skip todo
         (if is_hog lk t then set_hog (grant lk t) (u64 (m_hog_lock_count lk + 1)) else grant lk t)
         (<[t_ctx t := GRANTED]> w)
  else reschedule_loop skip todo lk w.
Proof.
  cbn [reschedule_loop]. fold (is_hog lk t). unfold set_status.
  destruct (decide (overlooked skip lk w t)) as [D|D]; unfold overlooked in D.
  - destruct D as (D1 & D2 & D3). rewrite D2, D3. rewrite decide_True by done. done.
  - destruct (skip && is_hog lk t) eqn:E1; [done|].
    destruct (can_grant_lock lk (t_type t) (t_ctx t) skip) eqn:E2; [|done].
    rewrite decide_False by (intros E; apply D; done). done.
Qed.


(** What a pass of the loop keeps and achieves. *)
Record pass (skip : bool) (todo : list MDL_ticket) (lk : MDL_lock) (w : slots)
  (lk' : MDL_lock) (w' : slots) : Prop := {
  pa_wf : wf_lock lk';
  pa_strategy : m_strategy lk' = m_strategy lk;
  (* tickets only move from waiting to granted, and a move is told to the waiter *)
  pa_waiting : forall t, t ∈ m_list (m_waiting lk') -> t ∈ m_list (m_waiting lk);
  pa_granted : forall t, t ∈ m_list (m_granted lk') <->
    t ∈ m_list (m_granted lk) \/ (t ∈ m_list (m_waiting lk) /\ t ∉ m_list (m_waiting lk'));
  pa_woken : forall t, t ∈ m_list (m_waiting lk) -> t ∉ m_list (m_waiting lk') ->
    w (t_ctx t) = EMPTY /\ w' (t_ctx t) = GRANTED;
  pa_others : forall c, (forall t, t ∈ m_list (m_waiting lk) -> t ∉ m_list (m_waiting lk') -> t_ctx t <> c) ->
    w' c = w c;
  (* nobody is overlooked *)
  pa_complete : forall t, t ∈ m_list (m_waiting lk') -> t ∈ todo -> ~ overlooked skip lk' w' t;
  pa_blocked : forall t, t ∈ m_list (m_waiting lk') -> can_grant_lock lk (t_type t) (t_ctx t) skip = false ->
    can_grant_lock lk' (t_type t) (t_ctx t) skip = false
}.

Lemma grant_step_wf skip lk w t n : wf_lock lk -> t ∈ m_list (m_waiting lk) -> overlooked skip lk w t ->
  wf_lock (if is_hog lk t then set_hog (grant lk t) n else grant lk t).
Proof.
  intros Hwf Ht (_ & _ & Hc). pose proof (grant_wf lk t skip Hwf Ht Hc).
  destruct (is_hog lk t); [by apply wf_set_hog|done].
Qed.

(** Two waiting tickets are of two contexts. *)
Lemma waiting_ctx_ne lk a b : wf_lock lk -> a ∈ m_list (m_waiting lk) -> b ∈ m_list (m_waiting lk) ->
  a <> b -> t_ctx a <> t_ctx b.
Proof.
  intros Hwf Ha Hb Hne E. apply Hne.
  by apply (nodup_map_inj t_ctx (m_list (m_waiting lk))); [apply Hwf| | |].
Qed.

Lemma waiting_id_ne lk a b : wf_lock lk -> a ∈ m_list (m_waiting lk) -> b ∈ m_list (m_waiting lk) ->
  a <> b -> t_id a <> t_id b.
Proof.
  intros Hwf Ha Hb Hne E. apply Hne.
  by apply (nodup_map_inj t_id (m_list (m_waiting lk))); [apply Hwf| | |].
Qed.

Lemma pass_refl skip lk w : wf_lock lk -> pass skip [] lk w lk w.
Proof.
  intros Hwf. split; auto.
  - intros t. split; [by left|]. intros [H|[H K]]; done.
  - intros t H K. done.
  - intros t _ K. by apply not_elem_of_nil in K.
Qed.

(** Granting one overlooked waiter. *)
Lemma pass_grant skip lk w t n : wf_lock lk -> t ∈ m_list (m_waiting lk) -> overlooked skip lk w t ->
  pass skip [t] lk w (if is_hog lk t then set_hog (grant lk t) n else grant lk t)
    (<[t_ctx t := GRANTED]> w).
Proof.
  intros Hwf Ht D. pose proof (grant_step_wf skip lk w t n Hwf Ht D) as Hwf1.
  destruct D as (Dw & Dh & Dc). set (lk1 := if is_hog lk t then _ else _) in *.
  assert (m_waiting lk1 = m_waiting (grant lk t) /\ m_granted lk1 = m_granted (grant lk t) /\
    m_strategy lk1 = m_strategy lk /\
    forall ty c, can_grant_lock lk1 ty c skip = can_grant_lock (grant lk t) ty c skip)
    as (E1 & E2 & E3 & E4) by (unfold lk1; destruct (is_hog lk t); done).
  clearbody lk1.
  assert (forall x, x ∈ m_list (m_waiting lk1) <-> x ∈ m_list (m_waiting lk) /\ x <> t) as W1.
  { intros x. rewrite E1, grant_waiting. split; intros [H1 H2]; split; auto; [congruence|].
    by apply (waiting_id_ne lk). }
  assert (forall x, x ∈ m_list (m_waiting lk) -> x ∉ m_list (m_waiting lk1) -> x = t) as W2.
  { intros x Hx Hn. destruct (decide (x = t)); [done|]. exfalso. apply Hn, W1. done. }
  split; auto.
  - intros x Hx. by apply W1 in Hx as [? _].
  - intros x. rewrite E2, grant_granted. split; (intros [H|H]; [by left|right]).
    + subst x. split; [done|]. rewrite W1. tauto.
    + destruct H. by apply W2.
  - intros x Hx Hn. rewrite (W2 x Hx Hn). split; [done|]. apply fn_lookup_insert.
  - intros c Hc. apply fn_lookup_insert_ne. apply (Hc t Ht). rewrite W1. tauto.
  - intros x Hx Hx'. apply list_elem_of_singleton in Hx'. apply W1 in Hx as [_ ?]. done.
  - intros x Hx Hb. apply W1 in Hx as [Hx Hne]. rewrite E4. apply grant_blocked; auto.
    by apply (waiting_ctx_ne lk).
Qed.

(** A waiter the code passes over. *)
Lemma pass_skip skip lk w t : wf_lock lk -> ~ overlooked skip lk w t -> pass skip [t] lk w lk w.
Proof.
  intros Hwf D. destruct (pass_refl skip lk w Hwf). split; auto.
  intros x _ Hx. apply list_elem_of_singleton in Hx. by subst x.
Qed.

Lemma pass_trans skip l1 l2 lk w lk1 w1 lk2 w2 : wf_lock lk ->
  pass skip l1 lk w lk1 w1 -> pass skip l2 lk1 w1 lk2 w2 -> pass skip (l1 ++ l2) lk w lk2 w2.
Proof.
  intros Hwf [A1 A2 A3 A4 A5 A6 A7 A8] [B1 B2 B3 B4 B5 B6 B7 B8]. split; auto; [congruence| | | |].
  - intros t. rewrite B4, A4.
    destruct (decide (t ∈ m_list (m_waiting lk1))), (decide (t ∈ m_list (m_waiting lk2))); naive_solver.
  - intros t Ht Hn. destruct (decide (t ∈ m_list (m_waiting lk1))) as [K|K].
    + destruct (B5 t K Hn) as [C1 C2]. split; [|done]. rewrite <- C1. symmetry. apply A6.
      intros x Hx Hx' E. assert (x = t) as ->; [|done].
      destruct (decide (x = t)); [done|]. by apply (waiting_ctx_ne lk x t) in E; auto.
    + destruct (A5 t Ht K) as [C1 C2]. split; [done|]. rewrite <- C2. apply B6.
      intros x Hx Hx' E. assert (x = t) as ->; [|done].
      destruct (decide (x = t)); [done|]. by apply (waiting_ctx_ne lk x t) in E; auto.
  - intros c Hc. rewrite B6, A6; auto.
  - intros t Ht Hl. apply elem_of_app in Hl as [Hl|Hl]; [|by apply B7].
    pose proof (B3 t Ht) as Ht1. intros (D1 & D2 & D3). apply (A7 t Ht1 Hl).
    split; [|split].
    + rewrite <- D1. symmetry. apply B6. intros x Hx Hn E. assert (x = t) as ->; [|done].
      destruct (decide (x = t)); [done|]. by apply (waiting_ctx_ne lk1 x t) in E; auto.
    + unfold is_hog in *. by rewrite <- B2.
    + apply not_false_is_true. intros K. apply (B8 t Ht) in K. congruence.
Qed.

Lemma reschedule_loop_pass skip todo lk w lk' w' : wf_lock lk ->
  (forall t, t ∈ todo -> t ∈ m_list (m_waiting lk)) -> NoDup (map t_id todo) ->
  reschedule_loop skip todo lk w = (lk', w') -> pass skip todo lk w lk' w'.
Proof.
  revert lk w. induction todo as [|t todo IH]; intros lk w Hwf Hin Hnd Hl.
  { injection Hl as <- <-. by apply pass_refl. }
  simpl in Hnd. apply list.NoDup_cons in Hnd as [Hfr Hnd]. rewrite reschedule_loop_step in Hl.
  assert (t ∈ m_list (m_waiting lk)) as Ht by (apply Hin, elem_of_cons; by left).
  destruct (decide (overlooked skip lk w t)) as [D|D].
  - pose proof (pass_grant skip lk w t (u64 (m_hog_lock_count lk + 1)) Hwf Ht D) as P.
    apply (pass_trans skip [t] todo lk w _ _ _ _ Hwf P). apply IH; auto; [apply P|].
    intros x Hx. assert (x ∈ m_list (m_waiting lk)) as Hx' by (apply Hin, elem_of_cons; by right).
    assert (x <> t) as Hne by (intros ->; apply Hfr; by apply (list_elem_of_fmap_2 t_id)).
    assert (x ∈ m_list (m_waiting (grant lk t))) as K
      by (apply grant_waiting; split; [by apply (waiting_id_ne lk)|done]).
    by destruct (is_hog lk t).
  - apply (pass_trans skip [t] todo lk w lk w _ _ Hwf); [by apply pass_skip|].
    apply IH; auto. intros x Hx. apply Hin, elem_of_cons. by right.
Qed.

Lemma pass_set_hog skip todo lk w lk' w' n : pass skip todo lk w lk' w' ->
  pass skip todo lk w (set_hog lk' n) w'.
Proof. intros [? ? ? ? ? ? ? ?]. split; auto. by apply wf_set_hog. Qed.

Lemma reschedule_pass mx lk w lk' w' : wf_lock lk -> reschedule_waiters mx lk w = (lk', w') ->
  pass (skip_high_priority mx lk) (m_list (m_waiting lk)) lk w lk' w'.
Proof.
  intros Hwf. unfold reschedule_waiters.
  destruct (reschedule_loop _ _ _ _) as [lk1 w1] eqn:L. intros [= <- <-].
  assert (pass (skip_high_priority mx lk) (m_list (m_waiting lk)) lk w lk1 w1) as P
    by (apply reschedule_loop_pass; auto; apply Hwf).
  destruct (weak_waiting lk1); simpl; [done|by apply pass_set_hog].
Qed.

(** [reschedule_waiters] is safe: the lock stays well formed, so the locks
    granted to different contexts stay compatible; tickets only move from the
    waiting to the granted list, and exactly the contexts of the moved ones
    find GRANTED in wait slots that were empty. *)
Theorem reschedule_waiters_safe mx lk w lk' w' : wf_lock lk ->
  reschedule_waiters mx lk w = (lk', w') ->
  wf_lock lk' /\
  (forall t, t ∈ m_list (m_waiting lk') -> t ∈ m_list (m_waiting lk)) /\
  (forall t, t ∈ m_list (m_granted lk') <-> t ∈ m_list (m_granted lk) \/
     (t ∈ m_list (m_waiting lk) /\ t ∉ m_list (m_waiting lk'))) /\
  (forall t, t ∈ m_list (m_waiting lk) -> t ∉ m_list (m_waiting lk') ->
     w (t_ctx t) = EMPTY /\ w' (t_ctx t) = GRANTED).
Proof. intros Hwf H. by destruct (reschedule_pass mx lk w lk' w' Hwf H). Qed.

(** C32: [reschedule_waiters] is complete: when it is done, no waiter whose
    slot is empty (and whose type was not held back) could be granted its
    lock, although the list of waiters was walked only once. *)
Theorem reschedule_waiters_complete mx lk w lk' w' t : wf_lock lk ->
  reschedule_waiters mx lk w = (lk', w') ->
  t ∈ m_list (m_waiting lk') -> w' (t_ctx t) = EMPTY ->
  skip_high_priority mx lk && is_hog lk t = false ->
  can_grant_lock lk' (t_type t) (t_ctx t) (skip_high_priority mx lk) = false.
Proof.
  intros Hwf H Ht Hs Hh. destruct (reschedule_pass mx lk w lk' w' Hwf H) as [_ P2 P3 _ _ _ P7 _].
  apply not_true_is_false. intros K. apply (P7 t Ht (P3 t Ht)). split; [done|]. split; [|done].
  unfold is_hog in *. by rewrite P2.
Qed.

(** ** Starvation *)

(** Two strong locks exclude each other. *)
Lemma hog_incompatible s a b :
  meets (MDL_BIT a) (hog_lock_types_bitmap s) = true ->
  meets (MDL_BIT b) (hog_lock_types_bitmap s) = true -> is_incompatible_when_granted s a b = true.
Proof. destruct s, a, b; (discriminate || reflexivity). Qed.

Lemma hog_excludes lk g t ign : wf_lock lk -> g ∈ m_list (m_granted lk) -> is_hog lk g = true ->
  is_hog lk t = true -> t_ctx t <> t_ctx g -> can_grant_lock lk (t_type t) (t_ctx t) ign = false.
Proof.
  intros Hwf Hg H1 H2 Hne. apply not_true_is_false. intros K. apply can_grant_spec in K as [_ K]; [|done].
  specialize (K g Hg (not_eq_sym Hne)). rewrite hog_incompatible in K; done.
Qed.

(** Once a strong lock was granted, the rest of the pass grants no other. *)
Lemma hog_count_same skip g todo lk w lk' w' : wf_lock lk ->
  (forall t, t ∈ todo -> t ∈ m_list (m_waiting lk)) -> NoDup (map t_id todo) ->
  g ∈ m_list (m_granted lk) -> is_hog lk g = true ->
  (forall t, t ∈ todo -> t_ctx t <> t_ctx g) ->
  reschedule_loop skip todo lk w = (lk', w') -> m_hog_lock_count lk' = m_hog_lock_count lk.
Proof.
  revert lk w. induction todo as [|t todo IH]; intros lk w Hwf Hin Hnd Hg Hh Hne Hl.
  { by injection Hl as <- <-. }
  simpl in Hnd. apply list.NoDup_cons in Hnd as [Hfr Hnd]. rewrite reschedule_loop_step in Hl.
  assert (t ∈ m_list (m_waiting lk)) as Ht by (apply Hin, elem_of_cons; by left).
  destruct (decide (overlooked skip lk w t)) as [D|D].
  - pose proof D as (_ & _ & Dc).
    destruct (is_hog lk t) eqn:Hht.
    { rewrite (hog_excludes lk g) in Dc; auto; [done|]. apply Hne, elem_of_cons. by left. }
    apply IH in Hl as ->; auto.
    + by eapply grant_wf.
    + intros x Hx. apply grant_waiting. split; [|apply Hin, elem_of_cons; by right].
      intros E. apply Hfr. rewrite <- E. by apply (list_elem_of_fmap_2 t_id).
    + apply grant_granted. by left.
    + intros x Hx. apply Hne, elem_of_cons. by right.
  - apply (IH lk w); auto; intros x Hx; [apply Hin|apply Hne]; apply elem_of_cons; by right.
Qed.

Lemma hog_count_once skip todo lk w lk' w' : wf_lock lk ->
  (forall t, t ∈ todo -> t ∈ m_list (m_waiting lk)) -> NoDup (map t_id todo) ->
  0 <= m_hog_lock_count lk < 2 ^ 64 - 1 ->
  reschedule_loop skip todo lk w = (lk', w') ->
  m_hog_lock_count lk <= m_hog_lock_count lk' <= m_hog_lock_count lk + (if skip then 0 else 1).
Proof.
  revert lk w. induction todo as [|t todo IH]; intros lk w Hwf Hin Hnd Hc Hl.
  { injection Hl as <- <-. destruct skip; lia. }
  simpl in Hnd. apply list.NoDup_cons in Hnd as [Hfr Hnd]. rewrite reschedule_loop_step in Hl.
  assert (t ∈ m_list (m_waiting lk)) as Ht by (apply Hin, elem_of_cons; by left).
  assert (forall x, x ∈ todo -> x ∈ m_list (m_waiting lk)) as Hin'
    by (intros x Hx; apply Hin, elem_of_cons; by right).
  assert (forall x, x ∈ todo -> x <> t) as Hxt
    by (intros x Hx ->; apply Hfr; by apply (list_elem_of_fmap_2 t_id)).
  assert (forall x, x ∈ todo -> x ∈ m_list (m_waiting (grant lk t))) as Hin1
    by (intros x Hx; apply grant_waiting; split; [apply (waiting_id_ne lk)|]; auto).
  destruct (decide (overlooked skip lk w t)) as [D|D]; [|by apply (IH lk w)].
  pose proof (grant_step_wf skip lk w t (u64 (m_hog_lock_count lk + 1)) Hwf Ht D) as Hwf1.
  destruct D as (_ & Dh & Dc). destruct (is_hog lk t) eqn:Hht.
  - destruct skip; [done|]. apply (hog_count_same false t) in Hl; auto.
    + rewrite Hl. simpl. rewrite u64_small; lia.
    + apply grant_granted. by right.
    + intros x Hx. apply (waiting_ctx_ne lk); auto.
  - apply IH in Hl; auto.
Qed.

Lemma weak_waiting_mono lk lk' : wf_lock lk -> wf_lock lk' -> m_strategy lk' = m_strategy lk ->
  (forall t, t ∈ m_list (m_waiting lk') -> t ∈ m_list (m_waiting lk)) ->
  weak_waiting lk' = true -> weak_waiting lk = true.
Proof.
  intros H H' Hs Hsub. unfold weak_waiting. rewrite Hs, !wf_tlist_meets by (apply H || apply H').
  intros (t & Ht & K). eauto.
Qed.

(** Strong locks cannot starve weak ones: the number of strong locks
    granted in a row while weak requests wait never passes
    [max_write_lock_count]. *)
Theorem reschedule_waiters_bounds_hog mx lk w lk' w' : wf_lock lk -> 1 <= mx < 2 ^ 64 - 1 ->
  0 <= m_hog_lock_count lk <= mx -> reschedule_waiters mx lk w = (lk', w') ->
  0 <= m_hog_lock_count lk' <= mx.
Proof.
  intros Hwf Hmx Hc H. unfold reschedule_waiters in H.
  destruct (reschedule_loop _ _ _ _) as [lk1 w1] eqn:L. injection H as <- <-.
  pose proof (hog_count_once _ _ _ _ _ _ Hwf (fun t Ht => Ht) (proj2 (wl_waiting lk Hwf)) ltac:(lia) L) as B.
  assert (pass (skip_high_priority mx lk) (m_list (m_waiting lk)) lk w lk1 w1) as [P1 P2 P3 _ _ _ _ _]
    by (apply reschedule_loop_pass; auto; apply Hwf).
  destruct (weak_waiting lk1) eqn:W; simpl; [|lia].
  apply (weak_waiting_mono lk lk1) in W; auto.
  unfold skip_high_priority in B. rewrite W, andb_true_r, Z.geb_leb in B.
  destruct (Z.leb_spec mx (m_hog_lock_count lk)); lia.
Qed.

(** ** The other changes of a lock keep it well formed *)

(** No other context holds what excludes [ty]. *)
Definition admits (lk : MDL_lock) (ctx : nat) (ty : enum_mdl_type) : Prop :=
  forall t, t ∈ m_list (m_granted lk) -> t_ctx t <> ctx ->
    is_incompatible_when_granted (m_strategy lk) (t_type t) ty = false.

Definition fresh_id (lk : MDL_lock) (id : nat) : Prop :=
  id ∉ map t_id (m_list (m_granted lk)) /\ id ∉ map t_id (m_list (m_waiting lk)).

Lemma wf_add_granted lk t : wf_lock lk -> fresh_id lk (t_id t) -> admits lk (t_ctx t) (t_type t) ->
  wf_lock (set_granted lk (add_ticket (m_granted lk) t)).
Proof.
  intros [Hg Hw Hd H1 Hk] [F1 F2] Ha. split; simpl; auto.
  - by apply add_ticket_wf.
  - intros a b Hin Hb. apply elem_of_app in Hin as [Hin|Hin]; [by apply Hd|].
    apply list_elem_of_singleton in Hin as ->. intros E. apply F2. rewrite E.
    by apply (list_elem_of_fmap_2 t_id).
  - intros a b Hin Hb Hne. rewrite elem_of_app, list_elem_of_singleton in Hin, Hb.
    destruct Hin as [Hin| ->], Hb as [Hb| ->]; auto; [|done].
    rewrite incompatible_sym. auto.
Qed.

Lemma can_grant_admits lk ty ctx ign : wf_lock lk -> can_grant_lock lk ty ctx ign = true -> admits lk ctx ty.
Proof. intros Hwf H. by apply can_grant_spec in H as [_ H]. Qed.

(** A context may hold whatever is not stronger than what it holds. *)
Lemma stronger_admits lk t ty : wf_lock lk -> t ∈ m_list (m_granted lk) ->
  has_stronger_or_equal_type (m_strategy lk) (t_type t) ty = true -> admits lk (t_ctx t) ty.
Proof.
  intros Hwf Ht Hs x Hx Hne. apply not_true_is_false. intros K.
  apply (stronger_incompatible _ _ _ _ Hs) in K. by rewrite (wl_compat lk Hwf x t) in K by done.
Qed.

Lemma wf_remove_granted lk t : wf_lock lk -> t ∈ m_list (m_granted lk) ->
  wf_lock (set_granted lk (remove_ticket (m_granted lk) t)).
Proof.
  intros [Hg Hw Hd H1 Hk] Ht. split; simpl; auto.
  - by apply remove_ticket_wf.
  - intros a b Ha. rewrite m_list_remove_ticket in Ha. apply elem_of_remove_id in Ha as [_ Ha]. auto.
  - intros a b Ha Hb. rewrite m_list_remove_ticket in Ha, Hb.
    apply elem_of_remove_id in Ha as [_ Ha]. apply elem_of_remove_id in Hb as [_ Hb]. auto.
Qed.

Lemma wf_remove_waiting lk t : wf_lock lk -> t ∈ m_list (m_waiting lk) ->
  wf_lock (set_waiting lk (remove_ticket (m_waiting lk) t)).
Proof.
  intros [Hg Hw Hd H1 Hk] Ht. split; simpl; auto.
  - by apply remove_ticket_wf.
  - intros a b Ha Hb. rewrite m_list_remove_ticket in Hb. apply elem_of_remove_id in Hb as [_ Hb]. auto.
  - rewrite m_list_remove_ticket. by apply nodup_map_filter.
Qed.

Lemma wf_add_waiting lk t : wf_lock lk -> fresh_id lk (t_id t) ->
  t_ctx t ∉ map t_ctx (m_list (m_waiting lk)) ->
  wf_lock (set_waiting lk (add_ticket (m_waiting lk) t)).
Proof.
  intros [Hg Hw Hd H1 Hk] [F1 F2] Hc. split; simpl; auto.
  - by apply add_ticket_wf.
  - intros a b Ha Hb. apply elem_of_app in Hb as [Hb|Hb]; [by apply Hd|].
    apply list_elem_of_singleton in Hb as ->. intros E. apply F1. rewrite <- E.
    by apply (list_elem_of_fmap_2 t_id).
  - rewrite map_app. simpl. by rewrite <- Permutation_cons_append, list.NoDup_cons.
Qed.

Lemma wf_retype lk t ty : wf_lock lk -> t ∈ m_list (m_granted lk) -> admits lk (t_ctx t) ty ->
  wf_lock (retype_granted lk t ty).
Proof.
  intros Hwf Ht Ha. pose proof (wf_remove_granted lk t Hwf Ht) as Hwf1.
  set (lk1 := set_granted lk (remove_ticket (m_granted lk) t)) in *.
  change (retype_granted lk t ty) with
    (set_granted lk1 (add_ticket (m_granted lk1) (mk_ticket (t_id t) (t_ctx t) ty))).
  apply wf_add_granted; [done| |]; simpl.
  - split; simpl.
    + rewrite m_list_remove_ticket, elem_of_list_map. intros (x & E & Hx).
      apply elem_of_remove_id in Hx as [Hx _]. congruence.
    + rewrite elem_of_list_map. intros (x & E & Hx). by apply (wl_disjoint lk Hwf t x).
  - intros x Hx Hne. simpl in Hx. rewrite m_list_remove_ticket in Hx.
    apply elem_of_remove_id in Hx as [_ Hx]. by apply Ha.
Qed.

(** Downgrading a granted ticket keeps the lock well formed and wakes the
    waiters that the weaker lock lets in. *)
Theorem lock_downgrade_safe mx lk w t ty lk' w' : wf_lock lk -> t ∈ m_list (m_granted lk) ->
  lock_downgrade mx lk w t ty = (lk', w') ->
  wf_lock lk' /\ (forall x, x ∈ m_list (m_granted lk) -> x = t \/ x ∈ m_list (m_granted lk')).
Proof.
  intros Hwf Ht. unfold lock_downgrade. destruct (decide (t_type t = ty)) as [E|E].
  { intros [= <- <-]. auto. }
  destruct (has_stronger_or_equal_type _ _ _) eqn:S; cbn [negb]; [|intros [= <- <-]; auto].
  intros H. pose proof (wf_retype lk t ty Hwf Ht (stronger_admits lk t ty Hwf Ht S)) as Hwf1.
  destruct (reschedule_pass _ _ _ _ _ Hwf1 H) as [P1 _ _ P4 _ _ _ _]. split; [done|].
  intros x Hx. destruct (decide (x = t)); [by left|right]. apply P4. left. simpl.
  rewrite m_list_remove_ticket, elem_of_app. left. apply elem_of_remove_id. split; [|done].
  intros Eid. apply n. by apply (nodup_map_inj t_id (m_list (m_granted lk))); [apply Hwf| | |].
Qed.

(** ** An example *)

(** [wf_lock] as a test. *)
Definition wf_lock_check (lk : MDL_lock) : bool :=
  bool_decide (m_bitmap (m_granted lk) = bitmap_of (m_list (m_granted lk))) &&
  bool_decide (NoDup (map t_id (m_list (m_granted lk) ++ m_list (m_waiting lk)))) &&
  bool_decide (m_bitmap (m_waiting lk) = bitmap_of (m_list (m_waiting lk))) &&
  bool_decide (NoDup (map t_ctx (m_list (m_waiting lk)))) &&
  bool_decide (Forall (fun a => Forall (fun b => t_ctx a = t_ctx b \/
    is_incompatible_when_granted (m_strategy lk) (t_type a) (t_type b) = false)
    (m_list (m_granted lk))) (m_list (m_granted lk))).

Lemma wf_lock_check_sound lk : wf_lock_check lk = true -> wf_lock lk.
Proof.
  unfold wf_lock_check. rewrite !andb_true_iff, !bool_decide_eq_true. intros [[[[H1 H2] H3] H4] H5].
  rewrite map_app in H2. apply list.NoDup_app in H2 as (Hg & Hd & Hw). split.
  - done.
  - done.
  - intros a b Ha Hb E. apply (Hd (t_id a)); [by apply (list_elem_of_fmap_2 t_id)|].
    rewrite E. by apply (list_elem_of_fmap_2 t_id).
  - done.
  - intros a b Ha Hb Hne. rewrite Forall_forall in H5.
    specialize (H5 a (proj1 (list_elem_of_In _ _) Ha)). rewrite Forall_forall in H5.
    by destruct (H5 b (proj1 (list_elem_of_In _ _) Hb)).
Qed.

(** SW, SNW and SR wait; nothing is granted. *)
Definition sample_lock : MDL_lock :=
  let ts := [mk_ticket 2 2 MDL_SHARED_WRITE; mk_ticket 3 3 MDL_SHARED_NO_WRITE;
             mk_ticket 4 4 MDL_SHARED_READ] in
  mk_lock empty_tlist (mk_tlist ts (bitmap_of ts)) 0 object_lock.
Definition no_status : slots := fun _ => EMPTY.
Definition sample_after : MDL_lock * slots := reschedule_waiters 10 sample_lock no_status.

Lemma sample_lock_wf : wf_lock sample_lock.
Proof. apply wf_lock_check_sound. vm_compute. reflexivity. Qed.

Lemma reschedule_waiters_safe_witness :
  wf_lock (fst sample_after) /\
  (forall t, t ∈ m_list (m_waiting (fst sample_after)) -> t ∈ m_list (m_waiting sample_lock)) /\
  (forall t, t ∈ m_list (m_granted (fst sample_after)) <-> t ∈ m_list (m_granted sample_lock) \/
     (t ∈ m_list (m_waiting sample_lock) /\ t ∉ m_list (m_waiting (fst sample_after)))) /\
  (forall t, t ∈ m_list (m_waiting sample_lock) -> t ∉ m_list (m_waiting (fst sample_after)) ->
     no_status (t_ctx t) = EMPTY /\ snd sample_after (t_ctx t) = GRANTED).
Proof.
  apply (reschedule_waiters_safe 10 sample_lock no_status); [apply sample_lock_wf|].
  apply surjective_pairing.
Defined.

(** The SW request is left waiting: the SNW lock granted in the same pass
    excludes it. *)
Lemma reschedule_waiters_complete_witness :
  can_grant_lock (fst sample_after) MDL_SHARED_WRITE 2 false = false.
Proof.
  apply (reschedule_waiters_complete 10 sample_lock no_status (fst sample_after) (snd sample_after)
    (mk_ticket 2 2 MDL_SHARED_WRITE)).
  - apply sample_lock_wf.
  - apply surjective_pairing.
  - refine (bool_decide_unpack _ _). vm_compute. exact I.
  - vm_compute. reflexivity.
  - reflexivity.
Defined.

Lemma reschedule_waiters_bounds_hog_witness : 0 <= m_hog_lock_count (fst sample_after) <= 10.
Proof.
  apply (reschedule_waiters_bounds_hog 10 sample_lock no_status (fst sample_after) (snd sample_after)).
  - apply sample_lock_wf.
  - lia.
  - simpl. lia.
  - apply surjective_pairing.
Defined.

Lemma lock_downgrade_safe_witness :
  let t := mk_ticket 1 1 MDL_EXCLUSIVE in
  let lk := mk_lock (mk_tlist [t] (MDL_BIT MDL_EXCLUSIVE)) (m_waiting sample_lock) 0 object_lock in
  let r := lock_downgrade 10 lk no_status t MDL_SHARED_NO_WRITE in
  wf_lock (fst r) /\ (forall x, x ∈ m_list (m_granted lk) -> x = t \/ x ∈ m_list (m_granted (fst r))).
Proof.
  intros t lk r. apply (lock_downgrade_safe 10 lk no_status t MDL_SHARED_NO_WRITE (fst r) (snd r)).
  - apply wf_lock_check_sound. vm_compute. reflexivity.
  - by apply list_elem_of_singleton.
  - apply surjective_pairing.
Defined.
