(* ===== verification/MdlContext.v ===== *)
(** * Metadata locks: contexts and the whole system ([MDL_map],
    [MDL_context], [MDL_request], [MDL_key] of [sql/mdl.cc] and [sql/mdl.h])

    The state holds the map of locks, the contexts and their wait slots.
    Each operation is one atomic step; [acquire_lock] is split where the
    thread sleeps: [acquire_lock_begin] up to the wait, the events that fill
    the wait slot, and [acquire_lock_finish].  Memory allocation may fail:
    [alloc_ok] says whether it does not. *)
From S2P Require Import Prelude MdlLock.
From Stdlib Require Import ZArith Lia List Bool.
From stdpp Require Import base tactics list functions gmap option.
Open Scope Z_scope.

(** ** Keys *)

Inductive enum_mdl_namespace :=
| NS_GLOBAL | NS_SCHEMA | NS_TABLE | NS_FUNCTION | NS_PROCEDURE | NS_TRIGGER | NS_EVENT
| NS_COMMIT | NS_USER_LOCK.

Definition namespace_val (n : enum_mdl_namespace) : Z :=
  match n with
  | NS_GLOBAL => 0 | NS_SCHEMA => 1 | NS_TABLE => 2 | NS_FUNCTION => 3 | NS_PROCEDURE => 4
  | NS_TRIGGER => 5 | NS_EVENT => 6 | NS_COMMIT => 7 | NS_USER_LOCK => 8
  end.

Definition NAME_LEN : nat := 192.

(** The bytes [m_ptr[0 .. m_length - 1]]. *)
Definition MDL_key : Type := list Z.

(** Names are C strings, as the list of their bytes before the zero;
    [strmake] copies at most NAME_LEN of them. *)
Definition mdl_key_init (ns : enum_mdl_namespace) (db name : list Z) : MDL_key :=
  namespace_val ns :: take NAME_LEN db ++ [0] ++ take NAME_LEN name ++ [0].

Definition key_is_equal (a b : MDL_key) : bool := bool_decide (a = b).

Definition key_cmp (a b : MDL_key) : Z := memcmp a b (Nat.min (length a) (length b)).

Definition mdl_namespace (k : MDL_key) : Z := nth 0 k 0.
Definition is_global_or_commit (k : MDL_key) : bool :=
  (mdl_namespace k =? namespace_val NS_GLOBAL) || (mdl_namespace k =? namespace_val NS_COMMIT).

(** The strategy a new lock gets. *)
Definition strategy_of (k : MDL_key) : strategy :=
  if is_global_or_commit k || (mdl_namespace k =? namespace_val NS_SCHEMA)
  then scoped_lock else object_lock.

(** ** State *)

Inductive enum_mdl_duration := MDL_STATEMENT | MDL_TRANSACTION | MDL_EXPLICIT.

#[export] Instance enum_mdl_duration_eqdec : EqDecision enum_mdl_duration.
Proof. solve_decision. Defined.

(** A pointer to a ticket, with its [m_lock]. *)
Definition ticket_ref : Type := nat * MDL_key.

Record MDL_context := mk_ctx {
  m_tickets : enum_mdl_duration -> list ticket_ref;
  m_waiting_for : option ticket_ref
}.

Definition new_ctx : MDL_context := mk_ctx (fun _ => []) None.

Record mdl_state := mk_mdl {
  locks : gmap MDL_key MDL_lock;
  ctxs : nat -> MDL_context;
  wslots : slots;
  next_id : nat
}.

(** [mdl_init] creates the two locks that are never removed. *)
Definition mdl_init : mdl_state :=
  mk_mdl (<[mdl_key_init NS_GLOBAL [] [] := new_lock scoped_lock]>
         (<[mdl_key_init NS_COMMIT [] [] := new_lock scoped_lock]> ∅))
    (fun _ => new_ctx) (fun _ => EMPTY) 0.

Record MDL_request := mk_request {
  r_key : MDL_key; r_type : enum_mdl_type; r_duration : enum_mdl_duration
}.

Section Operations.
(** The system variable [max_write_lock_count]. *)
Variable mx : Z.
(** [m_hog_lock_count] of a lock object just taken from the allocator:
    [lf_hash_initializer] does not set it, so a recycled object keeps what its
    last user left. *)
Variable recycled_hog : MDL_key -> Z.

(** Parts of the state. *)
Definition set_ctx (st : mdl_state) (c : nat) (x : MDL_context) : mdl_state :=
  mk_mdl (locks st) (<[c := x]> (ctxs st)) (wslots st) (next_id st).
Definition set_lock (st : mdl_state) (k : MDL_key) (lk : MDL_lock) : mdl_state :=
  mk_mdl (<[k := lk]> (locks st)) (ctxs st) (wslots st) (next_id st).
Definition set_wslots (st : mdl_state) (w : slots) : mdl_state :=
  mk_mdl (locks st) (ctxs st) w (next_id st).
Definition bump (st : mdl_state) : mdl_state :=
  mk_mdl (locks st) (ctxs st) (wslots st) (S (next_id st)).

Definition tickets_of (st : mdl_state) (c : nat) (d : enum_mdl_duration) : list ticket_ref :=
  m_tickets (ctxs st c) d.
Definition set_tickets (st : mdl_state) (c : nat) (d : enum_mdl_duration) (l : list ticket_ref)
  : mdl_state :=
  set_ctx st c (mk_ctx (<[d := l]> (m_tickets (ctxs st c))) (m_waiting_for (ctxs st c))).
Definition push_front (st : mdl_state) (c : nat) (d : enum_mdl_duration) (r : ticket_ref) : mdl_state :=
  set_tickets st c d (r :: tickets_of st c d).
Definition remove_ref (st : mdl_state) (c : nat) (d : enum_mdl_duration) (r : ticket_ref) : mdl_state :=
  set_tickets st c d (filter (fun x => x <> r) (tickets_of st c d)).
Definition will_wait_for (st : mdl_state) (c : nat) (r : option ticket_ref) : mdl_state :=
  set_ctx st c (mk_ctx (m_tickets (ctxs st c)) r).

(** [MDL_map::find_or_insert] and [MDL_map::remove]. *)
Definition lf_hash_initializer (k : MDL_key) : MDL_lock :=
  if is_global_or_commit k then new_lock (strategy_of k)
  else set_hog (new_lock (strategy_of k)) (recycled_hog k).
Definition find_or_insert (st : mdl_state) (k : MDL_key) : MDL_lock :=
  default (lf_hash_initializer k) (locks st !! k).
Definition put_lock (st : mdl_state) (k : MDL_key) (emptied : MDL_lock) (lk : option MDL_lock)
  : mdl_state :=
  match lk with
  | Some lk => set_lock st k lk
  | None =>
    if is_global_or_commit k then set_lock st k emptied
    else mk_mdl (delete k (locks st)) (ctxs st) (wslots st) (next_id st)
  end.

(** The ticket a pointer leads to, when it is granted. *)
Definition granted_ticket (st : mdl_state) (r : ticket_ref) : option MDL_ticket :=
  lk ← locks st !! snd r;
  List.find (fun t => (t_id t =? fst r)%nat) (m_list (m_granted lk)).

Definition ticket_type (st : mdl_state) (r : ticket_ref) : option enum_mdl_type :=
  t_type <$> granted_ticket st r.

(** ** Finding a ticket *)

(** The lists searched: the one of the requested duration first. *)
Definition durations_from (d : enum_mdl_duration) : list enum_mdl_duration :=
  match d with
  | MDL_STATEMENT => [MDL_STATEMENT; MDL_TRANSACTION; MDL_EXPLICIT]
  | MDL_TRANSACTION => [MDL_TRANSACTION; MDL_EXPLICIT; MDL_STATEMENT]
  | MDL_EXPLICIT => [MDL_EXPLICIT; MDL_STATEMENT; MDL_TRANSACTION]
  end.

Definition satisfies (st : mdl_state) (key : MDL_key) (ty : enum_mdl_type) (r : ticket_ref) : bool :=
  key_is_equal key (snd r) &&
  match ticket_type st r with
  | Some held => has_stronger_or_equal_type (strategy_of (snd r)) held ty
  | None => false
  end.

Fixpoint find_in_durations (st : mdl_state) (c : nat) (key : MDL_key) (ty : enum_mdl_type)
  (ds : list enum_mdl_duration) : option (ticket_ref * enum_mdl_duration) :=
  match ds with
  | [] => None
  | d :: ds =>
    match List.find (satisfies st key ty) (tickets_of st c d) with
    | Some r => Some (r, d)
    | None => find_in_durations st c key ty ds
    end
  end.

Definition find_ticket (st : mdl_state) (c : nat) (req : MDL_request)
  : option (ticket_ref * enum_mdl_duration) :=
  find_in_durations st c (r_key req) (r_type req) (durations_from (r_duration req)).

(** ** Acquiring *)

(** What an attempt gives: an error (out of resources), the ticket, or a
    conflict. *)
Inductive attempt := ATT_error | ATT_ticket (r : ticket_ref) | ATT_conflict.

(** The new ticket is granted and belongs to [c]. *)
Definition add_granted (st : mdl_state) (c : nat) (key : MDL_key) (ty : enum_mdl_type)
  (d : enum_mdl_duration) : mdl_state * ticket_ref :=
  let r := (next_id st, key) in
  let lk := find_or_insert st key in
  let lk := set_granted lk (add_ticket (m_granted lk) (mk_ticket (next_id st) c ty)) in
  (push_front (bump (set_lock st key lk)) c d r, r).

Definition clone_ticket (alloc_ok : bool) (st : mdl_state) (c : nat) (req : MDL_request)
  (r : ticket_ref) : option (mdl_state * ticket_ref) :=
  if negb alloc_ok then None
  else Some (add_granted st c (snd r) (r_type req) (r_duration req)).

Definition try_acquire_lock_impl (alloc_ok : bool) (st : mdl_state) (c : nat) (req : MDL_request)
  : mdl_state * attempt :=
  match find_ticket st c req with
  | Some (r, found_duration) =>
    if negb (bool_decide (found_duration = r_duration req)) ||
       bool_decide (r_duration req = MDL_EXPLICIT)
    then match clone_ticket alloc_ok st c req r with
         | Some (st, r) => (st, ATT_ticket r)
         | None => (st, ATT_error)
         end
    else (st, ATT_ticket r)
  | None =>
    if negb alloc_ok then (st, ATT_error)
    else if can_grant_lock (find_or_insert st (r_key req)) (r_type req) c false
    then let '(st, r) := add_granted st c (r_key req) (r_type req) (r_duration req) in
         (st, ATT_ticket r)
    else (st, ATT_conflict)
  end.

Definition try_acquire_lock (alloc_ok : bool) (st : mdl_state) (c : nat) (req : MDL_request)
  : mdl_state * attempt := try_acquire_lock_impl alloc_ok st c req.

(** [acquire_lock] up to the wait; on a conflict the pending ticket is
    returned with the contexts whose owners are notified. *)
Inductive begun := BEG_error | BEG_ticket (r : ticket_ref) | BEG_wait (r : ticket_ref) (notified : list nat).

Definition acquire_lock_begin (alloc_ok has_timeout : bool) (st : mdl_state) (c : nat) (req : MDL_request)
  : mdl_state * begun :=
  match try_acquire_lock_impl alloc_ok st c req with
  | (st, ATT_error) => (st, BEG_error)
  | (st, ATT_ticket r) => (st, BEG_ticket r)
  | (st, ATT_conflict) =>
    let key := r_key req in
    let r := (next_id st, key) in
    let lk := find_or_insert st key in
    let lk' := set_waiting lk (add_ticket (m_waiting lk) (mk_ticket (next_id st) c (r_type req))) in
    let notified :=
      if needs_notification (m_strategy lk) (r_type req) && has_timeout
      then notify_conflicting_locks lk' c else [] in
    let st := bump (set_lock st key lk') in
    let st := set_wslots st (reset_status (wslots st) c) in
    (will_wait_for st c (Some r), BEG_wait r notified)
  end.

(** The waiting ticket a pointer leads to. *)
Definition waiting_ticket (st : mdl_state) (r : ticket_ref) : option MDL_ticket :=
  lk ← locks st !! snd r;
  List.find (fun t => (t_id t =? fst r)%nat) (m_list (m_waiting lk)).

(** [acquire_lock] after the wait: [true] is the error return.  When the ticket
    is not in the waiting list any more, [m_waiting.remove_ticket] takes it out of
    the links of another list, whose end and bitmap it does not correct: from
    then on the lists are corrupt, and the result is [None]. *)
Definition acquire_lock_finish (st : mdl_state) (c : nat) (r : ticket_ref) (d : enum_mdl_duration)
  (wait_status : enum_wait_status) : option (mdl_state * bool) :=
  let st := will_wait_for st c None in
  if decide (wait_status = GRANTED) then Some (push_front st c d r, false)
  else
    match locks st !! snd r, waiting_ticket st r with
    | Some lk, Some t =>
      let '(lk', w) := lock_remove_waiting mx lk (wslots st) t in
      Some (put_lock (set_wslots st w) (snd r)
              (set_waiting lk (remove_ticket (m_waiting lk) t)) lk', true)
    | _, _ => None
    end.

(** ** Releasing *)

Definition release_lock (st : mdl_state) (c : nat) (d : enum_mdl_duration) (r : ticket_ref) : mdl_state :=
  match locks st !! snd r, granted_ticket st r with
  | Some lk, Some t =>
    let '(lk', w) := lock_remove_granted mx lk (wslots st) t in
    remove_ref (put_lock (set_wslots st w) (snd r)
      (set_granted lk (remove_ticket (m_granted lk) t)) lk') c d r
  | _, _ => st
  end.

(** The tickets in front of the sentinel. *)
Fixpoint stored_before (sentinel : option ticket_ref) (l : list ticket_ref) : list ticket_ref :=
  match l with
  | [] => []
  | r :: l => if decide (Some r = sentinel) then [] else r :: stored_before sentinel l
  end.

Definition release_locks_stored_before (st : mdl_state) (c : nat) (d : enum_mdl_duration)
  (sentinel : option ticket_ref) : mdl_state :=
  fold_left (fun st r => release_lock st c d r) (stored_before sentinel (tickets_of st c d)) st.

Definition release_statement_locks (st : mdl_state) (c : nat) : mdl_state :=
  release_locks_stored_before st c MDL_STATEMENT None.
Definition release_transactional_locks (st : mdl_state) (c : nat) : mdl_state :=
  release_locks_stored_before (release_locks_stored_before st c MDL_STATEMENT None)
    c MDL_TRANSACTION None.
Definition release_explicit_locks (st : mdl_state) (c : nat) : mdl_state :=
  release_locks_stored_before st c MDL_EXPLICIT None.

Definition release_all_locks_for_name (st : mdl_state) (c : nat) (name : ticket_ref) : mdl_state :=
  fold_left (fun st r => release_lock st c MDL_EXPLICIT r)
    (filter (fun r => snd r = snd name) (tickets_of st c MDL_EXPLICIT)) st.

(** ** Savepoints *)

Definition MDL_savepoint : Type := option ticket_ref * option ticket_ref.

Definition mdl_savepoint (st : mdl_state) (c : nat) : MDL_savepoint :=
  (head (tickets_of st c MDL_STATEMENT), head (tickets_of st c MDL_TRANSACTION)).

Definition rollback_to_savepoint (st : mdl_state) (c : nat) (sp : MDL_savepoint) : mdl_state :=
  release_locks_stored_before (release_locks_stored_before st c MDL_STATEMENT (fst sp))
    c MDL_TRANSACTION (snd sp).

Definition has_lock (st : mdl_state) (c : nat) (sp : MDL_savepoint) (r : ticket_ref) : bool :=
  negb (bool_decide (r ∈ stored_before (fst sp) (tickets_of st c MDL_STATEMENT))) &&
  negb (bool_decide (r ∈ stored_before (snd sp) (tickets_of st c MDL_TRANSACTION))).

(** ** Changing a granted ticket *)

Definition downgrade_lock (st : mdl_state) (r : ticket_ref) (ty : enum_mdl_type) : mdl_state :=
  match locks st !! snd r, granted_ticket st r with
  | Some lk, Some t =>
    let '(lk, w) := lock_downgrade mx lk (wslots st) t ty in
    set_lock (set_wslots st w) (snd r) lk
  | _, _ => st
  end.

(** [upgrade_shared_lock]: the request it makes, unless the ticket is already
    strong enough, and the merge once [x] was acquired ([sp] is the savepoint
    taken before). *)
Definition upgrade_request (st : mdl_state) (r : ticket_ref) (new_type : enum_mdl_type)
  : option MDL_request :=
  match ticket_type st r with
  | Some held =>
    if has_stronger_or_equal_type (strategy_of (snd r)) held new_type then None
    else Some (mk_request (snd r) new_type MDL_TRANSACTION)
  | None => None
  end.

Definition upgrade_merge (st : mdl_state) (c : nat) (r x : ticket_ref) (sp : MDL_savepoint)
  (new_type : enum_mdl_type) : mdl_state :=
  let is_new_ticket := negb (has_lock st c sp x) in
  match locks st !! snd r, granted_ticket st r, granted_ticket st x with
  | Some lk, Some t, Some xt =>
    let lk := if is_new_ticket then set_granted lk (remove_ticket (m_granted lk) xt) else lk in
    let st := set_lock st (snd r) (retype_granted lk t new_type) in
    if is_new_ticket then remove_ref st c MDL_TRANSACTION x else st
  | _, _, _ => st
  end.

(** ** Durations *)

Definition set_lock_duration (st : mdl_state) (c : nat) (r : ticket_ref) (d : enum_mdl_duration)
  : mdl_state := push_front (remove_ref st c MDL_TRANSACTION r) c d r.

(** The loop that moves a list to the front of another, one by one. *)
Definition move_all (from to : list ticket_ref) : list ticket_ref := rev from ++ to.

Definition set_explicit_duration_for_all_locks (st : mdl_state) (c : nat) : mdl_state :=
  let explicit := tickets_of st c MDL_TRANSACTION in
  let transaction := tickets_of st c MDL_EXPLICIT in
  let statement := tickets_of st c MDL_STATEMENT in
  set_tickets (set_tickets (set_tickets st c MDL_STATEMENT []) c MDL_TRANSACTION [])
    c MDL_EXPLICIT (move_all transaction (move_all statement explicit)).

Definition set_transaction_duration_for_all_locks (st : mdl_state) (c : nat) : mdl_state :=
  let transaction := tickets_of st c MDL_EXPLICIT in
  let explicit := tickets_of st c MDL_TRANSACTION in
  set_tickets (set_tickets st c MDL_EXPLICIT []) c MDL_TRANSACTION (move_all explicit transaction).

(** ** Queries *)

Definition is_lock_owner (st : mdl_state) (c : nat) (ns : enum_mdl_namespace) (db name : list Z)
  (ty : enum_mdl_type) : bool :=
  match find_ticket st c (mk_request (mdl_key_init ns db name) ty MDL_TRANSACTION) with
  | Some _ => true
  | None => false
  end.
Definition map_get_lock_owner (st : mdl_state) (k : MDL_key) : option nat :=
  lk ← locks st !! k; get_lock_owner lk.
Definition has_locks (st : mdl_state) (c : nat) : bool :=
  negb (bool_decide (tickets_of st c MDL_STATEMENT = []) &&
        bool_decide (tickets_of st c MDL_TRANSACTION = []) &&
        bool_decide (tickets_of st c MDL_EXPLICIT = [])).
Definition has_explicit_locks (st : mdl_state) (c : nat) : bool :=
  match tickets_of st c MDL_EXPLICIT with [] => false | _ :: _ => true end.
Definition has_transactional_locks (st : mdl_state) (c : nat) : bool :=
  match tickets_of st c MDL_TRANSACTION with [] => false | _ :: _ => true end.

(** ** The invariant of the system *)

(** Locks up to their priority counter, which no guarantee depends on. *)
Definition lock_eq (a b : MDL_lock) : Prop :=
  m_granted a = m_granted b /\ m_waiting a = m_waiting b /\ m_strategy a = m_strategy b.

#[local] Instance lock_eq_equiv : Equivalence lock_eq.
Proof.
  unfold lock_eq. split; [intros ?; done|intros ? ? (-> & -> & ->); done|].
  intros ? ? ? (-> & -> & ->) (-> & -> & ->). done.
Qed.

#[local] Instance wf_lock_proper : Proper (lock_eq ==> iff) wf_lock.
Proof.
  intros a b (E1 & E2 & E3).
  split; intros [H1 H2 H3 H4 H5]; split; rewrite ?E1, ?E2, ?E3 in *; auto;
    rewrite <- ?E1, <- ?E2, <- ?E3 in *; auto.
Qed.

Definition granted_at (L : MDL_key -> MDL_lock) (k : MDL_key) : list MDL_ticket := m_list (m_granted (L k)).
Definition waiting_at (L : MDL_key -> MDL_lock) (k : MDL_key) : list MDL_ticket := m_list (m_waiting (L k)).
Definition ref_of (t : MDL_ticket) (k : MDL_key) : ticket_ref := (t_id t, k).

(** The locks [L], the tickets [T] each context has, the ticket [W] it waits
    for, its slot [w] and the addresses in use agree. *)
Record sys_inv (L : MDL_key -> MDL_lock) (T : nat -> list ticket_ref) (W : nat -> option ticket_ref)
  (w : slots) (n : nat) : Prop := {
  si_wf : forall k, wf_lock (L k);
  si_strategy : forall k, m_strategy (L k) = strategy_of k;
  si_ids : forall k t, t ∈ granted_at L k \/ t ∈ waiting_at L k -> (t_id t < n)%nat;
  (* what a context has is granted to it *)
  si_tickets : forall c r, r ∈ T c -> exists t, t ∈ granted_at L (snd r) /\ t_id t = fst r /\ t_ctx t = c;
  (* what is granted belongs to its context, or its context is about to learn of it *)
  si_granted : forall k t, t ∈ granted_at L k ->
    ref_of t k ∈ T (t_ctx t) \/ (W (t_ctx t) = Some (ref_of t k) /\ w (t_ctx t) = GRANTED);
  (* who waits knows what for, and was not told otherwise *)
  si_waiting : forall k t, t ∈ waiting_at L k -> W (t_ctx t) = Some (ref_of t k) /\ w (t_ctx t) <> GRANTED;
  si_wait : forall c r, W c = Some r -> exists t, ref_of t (snd r) = r /\ t_ctx t = c /\
    (t ∈ waiting_at L (snd r) \/ (t ∈ granted_at L (snd r) /\ w c = GRANTED));
  si_nodup : forall c, NoDup (T c);
  si_new : forall c r, W c = Some r -> r ∉ T c
}.

Lemma sys_inv_ext L T W w n L' T' W' w' n' : sys_inv L T W w n ->
  (forall k, lock_eq (L' k) (L k)) -> (forall c, T' c ≡ₚ T c) -> (forall c, W' c = W c) ->
  (forall c, w' c = w c) -> (n <= n')%nat -> sys_inv L' T' W' w' n'.
Proof.
  intros [I1 I2 I3 I4 I5 I6 I7 I8 I9] HL HT HW Hw Hn.
  assert (forall k, granted_at L' k = granted_at L k) as Eg
    by (intros k; unfold granted_at; by destruct (HL k) as (-> & _)).
  assert (forall k, waiting_at L' k = waiting_at L k) as Ew
    by (intros k; unfold waiting_at; by destruct (HL k) as (_ & -> & _)).
  split.
  - intros k. by rewrite HL.
  - intros k. destruct (HL k) as (_ & _ & ->). done.
  - intros k t. rewrite Eg, Ew. intros H. apply I3 in H. lia.
  - intros c r. rewrite HT, Eg. apply I4.
  - intros k t. rewrite Eg, HT, HW, Hw. apply I5.
  - intros k t. rewrite Ew, HW, Hw. apply I6.
  - intros c r. rewrite HW, Ew, Eg, Hw. apply I7.
  - intros c. rewrite HT. apply I8.
  - intros c r. rewrite HW, HT. apply I9.
Qed.

Lemma granted_at_insert L k lk k' :
  granted_at (<[k := lk]> L) k' = if decide (k = k') then m_list (m_granted lk) else granted_at L k'.
Proof. unfold granted_at. destruct (decide (k = k')) as [->|]; by rewrite ?fn_lookup_insert, ?fn_lookup_insert_ne. Qed.

Lemma waiting_at_insert L k lk k' :
  waiting_at (<[k := lk]> L) k' = if decide (k = k') then m_list (m_waiting lk) else waiting_at L k'.
Proof. unfold waiting_at. destruct (decide (k = k')) as [->|]; by rewrite ?fn_lookup_insert, ?fn_lookup_insert_ne. Qed.

Lemma wf_insert (L : MDL_key -> MDL_lock) k lk : (forall k, wf_lock (L k)) -> wf_lock lk -> forall k', wf_lock (<[k := lk]> L k').
Proof. intros H H1 k'. destruct (decide (k = k')) as [->|]; by rewrite ?fn_lookup_insert, ?fn_lookup_insert_ne. Qed.

Lemma strategy_insert (L : MDL_key -> MDL_lock) k lk : (forall k, m_strategy (L k) = strategy_of k) ->
  m_strategy lk = strategy_of k -> forall k', m_strategy (<[k := lk]> L k') = strategy_of k'.
Proof. intros H H1 k'. destruct (decide (k = k')) as [->|]; by rewrite ?fn_lookup_insert, ?fn_lookup_insert_ne. Qed.

(** Rescheduling the waiters of one lock. *)
Lemma inv_pass L T W w n k lk' w' skip todo : sys_inv L T W w n ->
  pass skip todo (L k) w lk' w' -> sys_inv (<[k := lk']> L) T W w' n.
Proof.
  intros [I1 I2 I3 I4 I5 I6 I7 I8 I9] [P1 P2 P3 P4 P5 P6 _ _].
  fold (waiting_at L k) (granted_at L k) in *.
  assert (forall k' t, k' <> k -> t ∈ waiting_at L k' -> w' (t_ctx t) = w (t_ctx t)) as Hother.
  { intros k' t Hk Ht. apply P6. intros x Hx _ E. apply I6 in Ht as [Ht _]. apply I6 in Hx as [Hx _].
    rewrite E in Hx. rewrite Ht in Hx. unfold ref_of in Hx. congruence. }
  assert (forall c, w c = GRANTED -> w' c = GRANTED) as Hkeep.
  { intros c Hc. rewrite P6; [done|]. intros t Ht Hn <-. destruct (P5 t Ht Hn). congruence. }
  split; [by apply wf_insert|apply strategy_insert; auto; by rewrite P2| | | | | |done|done].
  - intros k' t. rewrite granted_at_insert, waiting_at_insert. case_decide as D; [subst k'|apply I3].
    rewrite P4. intros [[H|[H _]]|H]; eauto.
  - intros c r Hr. rewrite granted_at_insert. destruct (I4 c r Hr) as (t & Ht & E). exists t.
    split; [|done]. case_decide as D; [|done]. subst k. apply P4. by left.
  - intros k' t. rewrite granted_at_insert. case_decide as D; [subst k'|].
    + rewrite P4. intros [H|[H Hn]].
      * destruct (I5 k t H) as [K|[K1 K2]]; auto.
      * right. split; [by apply I6|by apply P5].
    + intros H. destruct (I5 k' t H) as [K|[K1 K2]]; auto.
  - intros k' t. rewrite waiting_at_insert. case_decide as D; [subst k'|].
    + intros H. pose proof (P3 t H) as H'. destruct (I6 k t H') as [K1 K2]. split; [done|].
      rewrite P6; [done|]. intros x Hx Hn E.
      destruct (decide (x = t)) as [->|Hne]; [done|]. by apply (waiting_ctx_ne (L k) x t) in E.
    + intros H. destruct (I6 k' t H) as [K1 K2]. split; [done|].
      rewrite (Hother k'); [done|congruence|done].
  - intros c r Hr. destruct (I7 c r Hr) as (t & E1 & E2 & H). exists t. split; [done|]. split; [done|].
    rewrite granted_at_insert, waiting_at_insert. case_decide as D.
    + subst k. destruct H as [H|[H1 H2]].
      * destruct (decide (t ∈ m_list (m_waiting lk'))) as [Hin|Hout]; [by left|right].
        split; [apply P4; by right|]. rewrite <- E2. by apply P5.
      * right. split; [apply P4; by left|by apply Hkeep].
    + destruct H as [H|[H1 H2]]; [by left|right]. split; [done|by apply Hkeep].
Qed.

Lemma slot_set (w : slots) c x : (<[c := x]> w : slots) c = x.
Proof. apply fn_lookup_insert. Qed.
Lemma slot_set_ne (w : slots) c c' x : c <> c' -> (<[c := x]> w : slots) c' = w c'.
Proof. intros H. by apply fn_lookup_insert_ne. Qed.

(** Addresses identify tickets. *)
Lemma granted_unique lk a b : wf_lock lk -> a ∈ m_list (m_granted lk) -> b ∈ m_list (m_granted lk) ->
  t_id a = t_id b -> a = b.
Proof. intros Hwf Ha Hb. by apply (nodup_map_inj t_id (m_list (m_granted lk))); [apply Hwf| |]. Qed.

Lemma fresh_at L T W w n k : sys_inv L T W w n -> fresh_id (L k) n.
Proof.
  intros I. split; rewrite elem_of_list_map; intros (t & E & Ht);
    assert (t_id t < n)%nat by (apply (si_ids _ _ _ _ _ I k); auto); lia.
Qed.

Lemma tickets_old L T W w n c k : sys_inv L T W w n -> (n, k) ∉ T c.
Proof.
  intros I Hr. destruct (si_tickets _ _ _ _ _ I _ _ Hr) as (t & Ht & E & _). simpl in *.
  assert (t_id t < n)%nat by (apply (si_ids _ _ _ _ _ I k); auto). lia.
Qed.

Lemma waited_old L T W w n c r : sys_inv L T W w n -> W c = Some r -> (fst r < n)%nat.
Proof.
  intros I Hr. destruct (si_wait _ _ _ _ _ I _ _ Hr) as (t & E & _ & H). rewrite <- E. simpl.
  apply (si_ids _ _ _ _ _ I (snd r)). tauto.
Qed.

(** A new ticket is granted. *)
Lemma inv_add_granted L T W w n k t : sys_inv L T W w n -> t_id t = n ->
  admits (L k) (t_ctx t) (t_type t) ->
  sys_inv (<[k := set_granted (L k) (add_ticket (m_granted (L k)) t)]> L)
    (<[t_ctx t := ref_of t k :: T (t_ctx t)]> T) W w (S n).
Proof.
  intros I Hid Ha. pose proof (fresh_at _ _ _ _ _ k I) as Hf.
  pose proof (fun c k => tickets_old _ _ _ _ _ c k I) as Hold.
  pose proof (fun c r => waited_old _ _ _ _ _ c r I) as Hwold.
  destruct I as [I1 I2 I3 I4 I5 I6 I7 I8 I9].
  assert (forall c r, r ∈ <[t_ctx t := ref_of t k :: T (t_ctx t)]> T c <->
    r ∈ T c \/ (c = t_ctx t /\ r = ref_of t k)) as HT.
  { intros c r. destruct (decide (t_ctx t = c)) as [<-|Hne];
      rewrite ?fn_lookup_insert, ?fn_lookup_insert_ne, ?elem_of_cons by done; intuition congruence. }
  assert (forall k' x, x ∈ granted_at (<[k := set_granted (L k) (add_ticket (m_granted (L k)) t)]> L) k' <->
    x ∈ granted_at L k' \/ (k' = k /\ x = t)) as HG.
  { intros k' x. rewrite granted_at_insert. unfold granted_at.
    case_decide as D; [subst k'; simpl; rewrite elem_of_app, list_elem_of_singleton|];
    naive_solver. }
  assert (forall k', waiting_at (<[k := set_granted (L k) (add_ticket (m_granted (L k)) t)]> L) k' =
    waiting_at L k') as HWt by (intros k'; rewrite waiting_at_insert; case_decide; [by subst k'|done]).
  split.
  - apply wf_insert; [done|]. apply wf_add_granted; auto. by rewrite Hid.
  - apply strategy_insert; [done|apply I2].
  - intros k' x. rewrite HG, HWt. intros [[H|[_ ->]]|H]; [|lia|];
      (assert (t_id x < n)%nat by (apply (I3 k'); auto); lia).
  - intros c r. rewrite HT. intros [H|[-> ->]].
    + destruct (I4 c r H) as (x & Hx & E). exists x. rewrite HG. auto.
    + exists t. rewrite HG. simpl. auto.
  - intros k' x. rewrite HG, HT. intros [H|[-> ->]]; [|auto]. destruct (I5 k' x H); auto.
  - intros k' x. rewrite HWt. apply I6.
  - intros c r Hr. destruct (I7 c r Hr) as (x & E1 & E2 & H). exists x.
    split; [done|]. split; [done|]. rewrite HG, HWt. tauto.
  - intros c. destruct (decide (t_ctx t = c)) as [<-|Hne];
      rewrite ?fn_lookup_insert, ?fn_lookup_insert_ne by done; [|done].
    apply NoDup_cons_2; [|done]. unfold ref_of. rewrite Hid. apply Hold.
  - intros c r Hr. rewrite HT. intros [H|[_ ->]]; [by apply (I9 c r)|].
    apply Hwold in Hr. simpl in Hr. lia.
Qed.

(** A new ticket waits. *)
Lemma inv_begin_wait L T W w n k t : sys_inv L T W w n -> t_id t = n -> W (t_ctx t) = None ->
  sys_inv (<[k := set_waiting (L k) (add_ticket (m_waiting (L k)) t)]> L) T
    (<[t_ctx t := Some (ref_of t k)]> W) (<[t_ctx t := EMPTY]> w) (S n).
Proof.
  intros I Hid Hnone. pose proof (fresh_at _ _ _ _ _ k I) as Hf.
  pose proof (fun c k => tickets_old _ _ _ _ _ c k I) as Hold.
  destruct I as [I1 I2 I3 I4 I5 I6 I7 I8 I9].
  assert (forall k' x, x ∈ waiting_at L k' -> t_ctx x <> t_ctx t) as Hne
    by (intros k' x Hx E; apply I6 in Hx as [Hx _]; congruence).
  assert (forall k' x, x ∈ waiting_at (<[k := set_waiting (L k) (add_ticket (m_waiting (L k)) t)]> L) k' <->
    x ∈ waiting_at L k' \/ (k' = k /\ x = t)) as HWt.
  { intros k' x. rewrite waiting_at_insert. unfold waiting_at.
    case_decide as D; [subst k'; simpl; rewrite elem_of_app, list_elem_of_singleton|];
    naive_solver. }
  assert (forall k', granted_at (<[k := set_waiting (L k) (add_ticket (m_waiting (L k)) t)]> L) k' =
    granted_at L k') as HG by (intros k'; rewrite granted_at_insert; case_decide; [by subst k'|done]).
  split; [| | | | | | |done|].
  - apply wf_insert; [done|]. apply wf_add_waiting; [done|by rewrite Hid|].
    rewrite elem_of_list_map. intros (x & E & Hx). by apply (Hne k x).
  - apply strategy_insert; [done|apply I2].
  - intros k' x. rewrite HG, HWt. intros [H|[H|[_ ->]]]; [| |lia];
      (assert (t_id x < n)%nat by (apply (I3 k'); auto); lia).
  - intros c r Hr. setoid_rewrite HG. by apply I4.
  - intros k' x. rewrite HG. intros H. destruct (I5 k' x H) as [K|[K1 K2]]; [by left|right].
    split; [rewrite fn_lookup_insert_ne|rewrite slot_set_ne]; congruence.
  - intros k' x. rewrite HWt. intros [H|[-> ->]]; [|by rewrite fn_lookup_insert, slot_set].
    pose proof (Hne k' x H). rewrite fn_lookup_insert_ne, slot_set_ne by done. by apply I6.
  - intros c r. destruct (decide (t_ctx t = c)) as [<-|Hc].
    + rewrite fn_lookup_insert. intros [= <-]. exists t. rewrite HWt. simpl. tauto.
    + rewrite fn_lookup_insert_ne by done. intros Hr. destruct (I7 c r Hr) as (x & E1 & E2 & H).
      exists x. split; [done|]. split; [done|]. rewrite HG, HWt, slot_set_ne by done. tauto.
  - intros c r. destruct (decide (t_ctx t = c)) as [<-|Hc].
    + rewrite fn_lookup_insert. intros [= <-]. unfold ref_of. rewrite Hid. apply Hold.
    + rewrite fn_lookup_insert_ne by done. apply I9.
Qed.

(** The wait of [c] is over and was in vain. *)
Lemma inv_cancel_wait L T W w n t k : sys_inv L T W w n -> t ∈ waiting_at L k ->
  sys_inv (<[k := set_waiting (L k) (remove_ticket (m_waiting (L k)) t)]> L) T
    (<[t_ctx t := None]> W) w n.
Proof.
  intros I Ht. destruct I as [I1 I2 I3 I4 I5 I6 I7 I8 I9].
  assert (forall k' x, x ∈ waiting_at (<[k := set_waiting (L k) (remove_ticket (m_waiting (L k)) t)]> L) k' <->
    x ∈ waiting_at L k' /\ ~ (k' = k /\ x = t)) as HWt.
  { intros k' x. rewrite waiting_at_insert. case_decide as D; [subst k'; simpl|intuition congruence].
    rewrite m_list_remove_ticket, elem_of_remove_id. fold (waiting_at L k). split.
    - intros [H1 H2]. split; [done|]. intros [_ ->]. done.
    - intros [H1 H2]. split; [|done]. apply (waiting_id_ne (L k)); auto. }
  assert (forall k', granted_at (<[k := set_waiting (L k) (remove_ticket (m_waiting (L k)) t)]> L) k' =
    granted_at L k') as HG by (intros k'; rewrite granted_at_insert; case_decide; [by subst k'|done]).
  assert (forall k' x, x ∈ waiting_at L k' -> ~ (k' = k /\ x = t) -> t_ctx x <> t_ctx t) as Hne.
  { intros k' x Hx Hd E. pose proof (I6 k' x Hx) as [K1 _]. pose proof (I6 k t Ht) as [K2 _].
    rewrite E, K2 in K1. injection K1 as E1 E2. subst k'. apply Hd. split; [done|].
    apply (nodup_map_inj t_id (waiting_at L k)); auto. apply (I1 k). }
  split; [| | | | | | |done|].
  - apply wf_insert; [done|]. by apply wf_remove_waiting.
  - apply strategy_insert; [done|apply I2].
  - intros k' x. rewrite HG, HWt. intros [H|[H _]]; apply (I3 k'); auto.
  - intros c r Hr. setoid_rewrite HG. by apply I4.
  - intros k' x. rewrite HG. intros H. destruct (I5 k' x H) as [K|[K1 K2]]; [by left|right].
    rewrite fn_lookup_insert_ne; [done|]. intros E. apply I6 in Ht as [_ Ht]. congruence.
  - intros k' x. rewrite HWt. intros [H Hd]. rewrite fn_lookup_insert_ne; [by apply I6|].
    apply not_eq_sym. by apply (Hne k').
  - intros c r. destruct (decide (t_ctx t = c)) as [<-|Hc]; [by rewrite fn_lookup_insert|].
    rewrite fn_lookup_insert_ne by done. intros Hr. destruct (I7 c r Hr) as (x & E1 & E2 & H).
    exists x. split; [done|]. split; [done|]. rewrite HG, HWt. destruct H as [H|H]; [left|by right].
    split; [done|]. intros [_ ->]. done.
  - intros c r. destruct (decide (t_ctx t = c)) as [<-|Hc]; [by rewrite fn_lookup_insert|].
    rewrite fn_lookup_insert_ne by done. apply I9.
Qed.

(** The ticket [c] waits for. *)
Lemma waited_ticket L T W w n c r : sys_inv L T W w n -> W c = Some r -> w c <> GRANTED ->
  exists t, t ∈ waiting_at L (snd r) /\ ref_of t (snd r) = r /\ t_ctx t = c.
Proof. intros I Hr Hw. destruct (si_wait _ _ _ _ _ I c r Hr) as (t & E1 & E2 & [H|[_ H]]); [eauto|done]. Qed.

(** [c] learns that it was granted its lock. *)
Lemma inv_finish_granted L T W w n c r : sys_inv L T W w n -> W c = Some r -> w c = GRANTED ->
  sys_inv L (<[c := r :: T c]> T) (<[c := None]> W) w n.
Proof.
  intros I Hr Hg. destruct I as [I1 I2 I3 I4 I5 I6 I7 I8 I9].
  assert (forall c' r', r' ∈ <[c := r :: T c]> T c' <-> r' ∈ T c' \/ (c' = c /\ r' = r)) as HT.
  { intros c' r'. destruct (decide (c = c')) as [<-|Hne];
      rewrite ?fn_lookup_insert, ?fn_lookup_insert_ne, ?elem_of_cons by done; intuition congruence. }
  split; auto.
  - intros c' r'. rewrite HT. intros [H|[-> ->]]; [by apply I4|].
    destruct (I7 c r Hr) as (t & E1 & E2 & [H|[H _]]); [by apply I6 in H as [_ H]; rewrite E2 in H|].
    exists t. rewrite <- E1. done.
  - intros k t Ht. rewrite HT. destruct (I5 k t Ht) as [K|[K1 K2]]; [by left; left|].
    destruct (decide (c = t_ctx t)) as [E|Hne].
    + left. right. split; [done|]. rewrite <- E in K1. congruence.
    + right. by rewrite fn_lookup_insert_ne.
  - intros k t Ht. destruct (I6 k t Ht) as [K1 K2]. split; [|done].
    rewrite fn_lookup_insert_ne; [done|]. intros E. rewrite <- E in K2. done.
  - intros c' r'. destruct (decide (c = c')) as [<-|Hne]; [by rewrite fn_lookup_insert|].
    rewrite fn_lookup_insert_ne by done. apply I7.
  - intros c'. destruct (decide (c = c')) as [<-|Hne];
      rewrite ?fn_lookup_insert, ?fn_lookup_insert_ne by done; [|done]. apply NoDup_cons_2; auto.
  - intros c' r'. destruct (decide (c = c')) as [<-|Hne]; [by rewrite fn_lookup_insert|].
    rewrite fn_lookup_insert_ne, HT by done. intros H [K|[K _]]; [by apply (I9 c' r')|done].
Qed.

(** The granted ticket a pointer leads to. *)
Lemma granted_of_ref L T W w n c r t : sys_inv L T W w n -> r ∈ T c -> t ∈ granted_at L (snd r) ->
  t_id t = fst r -> t_ctx t = c.
Proof.
  intros I Hr Ht E. destruct (si_tickets _ _ _ _ _ I c r Hr) as (t' & Ht' & E1 & E2).
  assert (t = t') as ->; [|done].
  apply (granted_unique (L (snd r))); auto; [apply I|congruence].
Qed.

(** [c] gives up a ticket. *)
Lemma inv_remove_granted L T W w n c r t : sys_inv L T W w n -> r ∈ T c ->
  t ∈ granted_at L (snd r) -> t_id t = fst r ->
  sys_inv (<[snd r := set_granted (L (snd r)) (remove_ticket (m_granted (L (snd r))) t)]> L)
    (<[c := filter (fun x => x <> r) (T c)]> T) W w n.
Proof.
  intros I Hr Ht Eid. pose proof (granted_of_ref _ _ _ _ _ _ _ _ I Hr Ht Eid) as Ec.
  destruct I as [I1 I2 I3 I4 I5 I6 I7 I8 I9]. destruct r as [id k]. simpl in *. subst id.
  assert (forall k' x, x ∈ granted_at (<[k := set_granted (L k) (remove_ticket (m_granted (L k)) t)]> L) k' <->
    x ∈ granted_at L k' /\ ~ (k' = k /\ t_id x = t_id t)) as HG.
  { intros k' x. rewrite granted_at_insert. case_decide as D; [subst k'; simpl|intuition congruence].
    rewrite m_list_remove_ticket, elem_of_remove_id. fold (granted_at L k). tauto. }
  assert (forall k', waiting_at (<[k := set_granted (L k) (remove_ticket (m_granted (L k)) t)]> L) k' =
    waiting_at L k') as HWt by (intros k'; rewrite waiting_at_insert; case_decide; [by subst k'|done]).
  assert (forall c' r', r' ∈ <[c := filter (fun x => x <> (t_id t, k)) (T c)]> T c' <->
    r' ∈ T c' /\ (c' = c -> r' <> (t_id t, k))) as HT.
  { intros c' r'. destruct (decide (c = c')) as [<-|Hne];
      rewrite ?fn_lookup_insert, ?fn_lookup_insert_ne, ?list_elem_of_filter by done; intuition congruence. }
  assert (forall c', (t_id t, k) ∈ T c' -> c' = c) as Huniq.
  { intros c' H. destruct (I4 c' _ H) as (x & Hx & E1 & E2). simpl in *.
    rewrite (granted_unique (L k) x t) in E2; auto. congruence. }
  split; auto.
  - apply wf_insert; [done|]. by apply wf_remove_granted.
  - apply strategy_insert; [done|apply I2].
  - intros k' x. rewrite HG, HWt. intros [[H _]|H]; apply (I3 k'); auto.
  - intros c' r'. rewrite HT. intros [H Hne]. destruct (I4 c' r' H) as (x & Hx & E1 & E2).
    exists x. split; [|done]. rewrite HG. split; [done|]. destruct r' as [id' k']; simpl in *.
    intros [-> E]. subst id'. rewrite E in H, Hne. by apply Hne; [apply Huniq|].
  - intros k' x. rewrite HG, HT. intros [H Hne]. destruct (I5 k' x H) as [K|K]; [left|by right].
    split; [done|]. intros _ [= E1 E2]. by apply Hne.
  - intros k' x. rewrite HWt. apply I6.
  - intros c' r' H. destruct (I7 c' r' H) as (x & E1 & E2 & K). exists x. split; [done|]. split; [done|].
    rewrite HG, HWt. destruct K as [K|[K1 K2]]; [by left|right]. split; [|done]. split; [done|].
    intros [E3 E4]. apply (I9 c' r' H). destruct r' as [id' k']; simpl in *. subst k'.
    assert (x = t) as -> by (by apply (granted_unique (L k))).
    rewrite <- E1, <- E2, Ec. exact Hr.
  - intros c'. destruct (decide (c = c')) as [<-|Hne];
      rewrite ?fn_lookup_insert, ?fn_lookup_insert_ne by done; [|done]. by apply list.NoDup_filter.
  - intros c' r' H. rewrite HT. intros [K _]. by apply (I9 c' r').
Qed.

(** A granted ticket changes its type. *)
Lemma inv_retype L T W w n k t ty : sys_inv L T W w n -> t ∈ granted_at L k ->
  admits (L k) (t_ctx t) ty -> sys_inv (<[k := retype_granted (L k) t ty]> L) T W w n.
Proof.
  intros [I1 I2 I3 I4 I5 I6 I7 I8 I9] Ht Ha.
  set (t' := mk_ticket (t_id t) (t_ctx t) ty).
  assert (forall k' x, x ∈ granted_at (<[k := retype_granted (L k) t ty]> L) k' ->
    exists y, y ∈ granted_at L k' /\ t_id y = t_id x /\ t_ctx y = t_ctx x) as HG.
  { intros k' x. rewrite granted_at_insert. case_decide as D; [subst k'; simpl|eauto].
    rewrite elem_of_app, m_list_remove_ticket, elem_of_remove_id, list_elem_of_singleton.
    intros [[_ H]| ->]; [eauto|]. exists t. done. }
  assert (forall k' y, y ∈ granted_at L k' -> exists x,
    x ∈ granted_at (<[k := retype_granted (L k) t ty]> L) k' /\ t_id x = t_id y /\ t_ctx x = t_ctx y) as HG'.
  { intros k' y Hy. rewrite granted_at_insert. case_decide as D; [subst k'; simpl|eauto].
    setoid_rewrite elem_of_app. setoid_rewrite list_elem_of_singleton. rewrite m_list_remove_ticket.
    setoid_rewrite elem_of_remove_id.
    destruct (decide (t_id y = t_id t)) as [E|E]; [|exists y; split; [by left|done]].
    rewrite (granted_unique (L k) y t) by auto. exists t'. split; [by right|done]. }
  assert (forall k', waiting_at (<[k := retype_granted (L k) t ty]> L) k' =
    waiting_at L k') as HWt by (intros k'; rewrite waiting_at_insert; case_decide; [by subst k'|done]).
  split; auto.
  - apply wf_insert; [done|]. by apply wf_retype.
  - apply strategy_insert; [done|apply I2].
  - intros k' x. rewrite HWt. intros [H|H]; [|apply (I3 k'); auto].
    apply HG in H as (y & Hy & <- & _). apply (I3 k'); auto.
  - intros c r Hr. destruct (I4 c r Hr) as (y & Hy & E1 & E2).
    destruct (HG' _ y Hy) as (x & Hx & E3 & E4). exists x. split; [done|]. split; congruence.
  - intros k' x H. apply HG in H as (y & Hy & E1 & E2). unfold ref_of. rewrite <- E1, <- E2. by apply I5.
  - intros k' x. rewrite HWt. apply I6.
  - intros c r Hr. destruct (I7 c r Hr) as (y & E1 & E2 & [K|[K1 K2]]).
    + exists y. rewrite HWt. auto.
    + destruct (HG' _ y K1) as (x & Hx & E3 & E4). exists x. rewrite <- E1 at 2. unfold ref_of.
      rewrite E3. split; [done|]. split; [congruence|]. right. done.
Qed.

(** A status is posted to an empty slot, but not by granting. *)
Lemma inv_slot L T W w n c x : sys_inv L T W w n -> w c = EMPTY -> x <> GRANTED ->
  sys_inv L T W (<[c := x]> w) n.
Proof.
  intros [I1 I2 I3 I4 I5 I6 I7 I8 I9] Hc Hx.
  assert (forall c', (<[c := x]> w : slots) c' = GRANTED <-> w c' = GRANTED) as Hw.
  { intros c'. destruct (decide (c = c')) as [<-|Hne].
    - rewrite slot_set. split; congruence.
    - by rewrite slot_set_ne. }
  split; auto.
  - intros k t Ht. rewrite Hw. by apply I5.
  - intros k t Ht. rewrite Hw. by apply I6.
  - intros c' r Hr. setoid_rewrite Hw. by apply I7.
Qed.

(** ** The invariant of a state *)

Definition all_tickets (st : mdl_state) (c : nat) : list ticket_ref :=
  tickets_of st c MDL_STATEMENT ++ tickets_of st c MDL_TRANSACTION ++ tickets_of st c MDL_EXPLICIT.
Definition waits_for (st : mdl_state) (c : nat) : option ticket_ref := m_waiting_for (ctxs st c).

Definition inv (st : mdl_state) : Prop :=
  sys_inv (find_or_insert st) (all_tickets st) (waits_for st) (wslots st) (next_id st).

Lemma elem_of_all st c r : r ∈ all_tickets st c <-> exists d, r ∈ tickets_of st c d.
Proof.
  unfold all_tickets. rewrite !elem_of_app. split; [intros [H|[H|H]]; eauto|].
  intros [[] H]; auto.
Qed.

Lemma initial_lock_empty k : m_list (m_granted (lf_hash_initializer k)) = [] /\
  m_list (m_waiting (lf_hash_initializer k)) = [].
Proof. unfold lf_hash_initializer. by destruct (is_global_or_commit k). Qed.

Lemma lock_present st k t :
  t ∈ granted_at (find_or_insert st) k \/ t ∈ waiting_at (find_or_insert st) k ->
  locks st !! k = Some (find_or_insert st k).
Proof.
  unfold granted_at, waiting_at, find_or_insert. destruct (locks st !! k) as [lk|]; simpl; [done|].
  destruct (initial_lock_empty k) as [-> ->]. intros [H|H]; by apply not_elem_of_nil in H.
Qed.

Lemma find_id_spec l id t : NoDup (map t_id l) ->
  List.find (fun t => (t_id t =? id)%nat) l = Some t <-> t ∈ l /\ t_id t = id.
Proof.
  intros Hn. split.
  - intros H. apply List.find_some in H as [H1 H2]. split; [by apply list_elem_of_In|].
    by apply Nat.eqb_eq.
  - intros [H <-]. destruct (List.find _ l) as [x|] eqn:E.
    + apply List.find_some in E as [E1 E2]. f_equal. apply Nat.eqb_eq in E2.
      apply (nodup_map_inj t_id l); auto. by apply list_elem_of_In.
    + apply list_elem_of_In in H. apply (List.find_none _ _ E) in H. by rewrite Nat.eqb_refl in H.
Qed.

Lemma granted_ticket_spec st r t : inv st ->
  granted_ticket st r = Some t <-> t ∈ granted_at (find_or_insert st) (snd r) /\ t_id t = fst r.
Proof.
  intros I. pose proof (proj2 (wl_granted _ (si_wf _ _ _ _ _ I (snd r)))) as Hn.
  rewrite <- find_id_spec by done. unfold granted_ticket, granted_at, find_or_insert.
  destruct (locks st !! snd r) as [lk|]; simpl; [done|].
  destruct (initial_lock_empty (snd r)) as [-> _]. done.
Qed.

Lemma waiting_ticket_spec st r t : inv st ->
  waiting_ticket st r = Some t <-> t ∈ waiting_at (find_or_insert st) (snd r) /\ t_id t = fst r.
Proof.
  intros I. pose proof (proj2 (wl_waiting _ (si_wf _ _ _ _ _ I (snd r)))) as Hn.
  rewrite <- find_id_spec by done. unfold waiting_ticket, waiting_at, find_or_insert.
  destruct (locks st !! snd r) as [lk|]; simpl; [done|].
  destruct (initial_lock_empty (snd r)) as [_ ->]. done.
Qed.

(** How the parts of the state change. *)
Lemma find_or_insert_set st k lk k' :
  find_or_insert (set_lock st k lk) k' = <[k := lk]> (find_or_insert st) k'.
Proof.
  unfold find_or_insert, set_lock. simpl. destruct (decide (k = k')) as [->|Hne].
  - by rewrite lookup_insert_eq, fn_lookup_insert.
  - by rewrite lookup_insert_ne, fn_lookup_insert_ne.
Qed.

Lemma wf_empty lk : wf_lock lk -> is_empty lk = true -> m_granted lk = empty_tlist /\ m_waiting lk = empty_tlist.
Proof.
  intros [[Hg _] [Hw _] _ _ _] He. unfold is_empty, tlist_is_empty in He.
  destruct (m_granted lk) as [[|? ?] bg], (m_waiting lk) as [[|? ?] bw]; simpl in *; try done.
  by subst bg bw.
Qed.

Lemma put_lock_eq st k emptied lk k' :
  (lk = None -> wf_lock emptied /\ is_empty emptied = true /\ m_strategy emptied = strategy_of k) ->
  lock_eq (find_or_insert (put_lock st k emptied lk) k')
    (<[k := default emptied lk]> (find_or_insert st) k').
Proof.
  intros He. destruct lk as [lk|]; simpl; [by rewrite find_or_insert_set|].
  destruct (He eq_refl) as (H1 & H2 & H3). destruct (wf_empty _ H1 H2) as [E1 E2].
  destruct (is_global_or_commit k) eqn:G; [by rewrite find_or_insert_set|].
  unfold find_or_insert at 1. simpl. destruct (decide (k = k')) as [<-|Hne].
  - rewrite lookup_delete_eq, fn_lookup_insert. simpl. unfold lf_hash_initializer. rewrite G.
    unfold lock_eq. by rewrite E1, E2, H3.
  - by rewrite lookup_delete_ne, fn_lookup_insert_ne.
Qed.

Lemma put_lock_rest st k emptied lk : ctxs (put_lock st k emptied lk) = ctxs st /\
  wslots (put_lock st k emptied lk) = wslots st /\ next_id (put_lock st k emptied lk) = next_id st.
Proof. destruct lk; simpl; [done|]. by destruct (is_global_or_commit k). Qed.

Lemma tickets_set st c d l c' d' : tickets_of (set_tickets st c d l) c' d' =
  if decide (c = c' /\ d = d') then l else tickets_of st c' d'.
Proof.
  unfold tickets_of, set_tickets, set_ctx. simpl. destruct (decide (c = c')) as [<-|Hc].
  - rewrite fn_lookup_insert. simpl. destruct (decide (d = d')) as [<-|Hd].
    + rewrite fn_lookup_insert. by rewrite decide_True.
    + rewrite fn_lookup_insert_ne by done. by rewrite decide_False by tauto.
  - rewrite fn_lookup_insert_ne by done. by rewrite decide_False by tauto.
Qed.

Lemma waits_set_tickets st c d l c' : waits_for (set_tickets st c d l) c' = waits_for st c'.
Proof.
  unfold waits_for, set_tickets, set_ctx. simpl.
  destruct (decide (c = c')) as [<-|Hc]; by rewrite ?fn_lookup_insert, ?fn_lookup_insert_ne.
Qed.

(** Decides the tests of a goal that are settled. *)
Ltac decide_cases :=
  repeat match goal with
  | |- context [decide ?P] => (rewrite (decide_True (P := P)) by tauto) || (rewrite (decide_False (P := P)) by naive_solver)
  end.

Lemma all_push st c d r c' :
  all_tickets (push_front st c d r) c' ≡ₚ <[c := r :: all_tickets st c]> (all_tickets st) c'.
Proof.
  unfold all_tickets at 1, push_front. rewrite !tickets_set.
  destruct (decide (c = c')) as [<-|Hc].
  - rewrite fn_lookup_insert. unfold all_tickets. destruct d; decide_cases; simpl; try done;
      by rewrite <- ?app_assoc, <- ?Permutation_middle.
  - rewrite fn_lookup_insert_ne, !decide_False by tauto. done.
Qed.

Lemma filter_absent (r : ticket_ref) (l : list ticket_ref) : r ∉ l -> filter (fun x => x <> r) l = l.
Proof.
  induction l as [|x l IH]; intros H; [done|]. apply not_elem_of_cons in H as [H1 H2].
  rewrite filter_cons_True by congruence. by rewrite IH.
Qed.

Lemma all_remove st c d r c' : NoDup (all_tickets st c) -> r ∈ tickets_of st c d ->
  all_tickets (remove_ref st c d r) c' =
  <[c := filter (fun x => x <> r) (all_tickets st c)]> (all_tickets st) c'.
Proof.
  intros Hn Hr. unfold all_tickets at 1, remove_ref. rewrite !tickets_set.
  destruct (decide (c = c')) as [<-|Hc].
  - rewrite fn_lookup_insert. unfold all_tickets in *. rewrite !list.filter_app.
    apply list.NoDup_app in Hn as (_ & N1 & N2). apply list.NoDup_app in N2 as (_ & N2 & _).
    setoid_rewrite not_elem_of_app in N1.
    destruct d; decide_cases; simpl; repeat f_equal; symmetry; apply filter_absent; naive_solver.
  - rewrite fn_lookup_insert_ne, !decide_False by tauto. done.
Qed.

Lemma inv_init : inv mdl_init.
Proof.
  assert (forall k, find_or_insert mdl_init k = lf_hash_initializer k \/
    find_or_insert mdl_init k = new_lock scoped_lock /\ strategy_of k = scoped_lock) as E.
  { intros k. unfold find_or_insert, mdl_init. simpl.
    destruct (decide (mdl_key_init NS_GLOBAL [] [] = k)) as [<-|H1]; [right; by rewrite lookup_insert_eq|].
    rewrite lookup_insert_ne by done.
    destruct (decide (mdl_key_init NS_COMMIT [] [] = k)) as [<-|H2]; [right; by rewrite lookup_insert_eq|].
    left. by rewrite lookup_insert_ne. }
  assert (forall k, granted_at (find_or_insert mdl_init) k = [] /\ waiting_at (find_or_insert mdl_init) k = []) as E0.
  { intros k. unfold granted_at, waiting_at.
    destruct (E k) as [->|[-> _]]; [apply initial_lock_empty|done]. }
  split.
  - intros k. assert (forall s, wf_lock (new_lock s)) as Hnew.
    { intros s. apply wf_lock_check_sound. reflexivity. }
    destruct (E k) as [->|[-> _]]; [|done]. unfold lf_hash_initializer.
    destruct (is_global_or_commit k); [done|by apply wf_set_hog].
  - intros k. destruct (E k) as [->|[-> ->]]; [|done]. unfold lf_hash_initializer.
    by destruct (is_global_or_commit k).
  - intros k t. destruct (E0 k) as [-> ->]. intros [H|H]; by apply not_elem_of_nil in H.
  - intros c r H. by apply not_elem_of_nil in H.
  - intros k t. destruct (E0 k) as [-> _]. intros H; by apply not_elem_of_nil in H.
  - intros k t. destruct (E0 k) as [_ ->]. intros H; by apply not_elem_of_nil in H.
  - done.
  - intros c. apply NoDup_nil_2.
  - done.
Qed.

(** ** Every operation keeps the invariant *)

Lemma add_granted_inv st c k ty d : inv st -> admits (find_or_insert st k) c ty ->
  inv (fst (add_granted st c k ty d)).
Proof.
  intros I Ha. pose proof (inv_add_granted _ _ _ _ _ k (mk_ticket (next_id st) c ty) I eq_refl Ha) as J.
  eapply sys_inv_ext; [exact J| | | |done|done].
  - intros k'. unfold add_granted. simpl. change (lock_eq (find_or_insert
      (set_lock st k (set_granted (find_or_insert st k) (add_ticket (m_granted (find_or_insert st k))
      (mk_ticket (next_id st) c ty)))) k') (<[k := set_granted (find_or_insert st k)
      (add_ticket (m_granted (find_or_insert st k)) (mk_ticket (next_id st) c ty))]> (find_or_insert st) k')).
    by rewrite find_or_insert_set.
  - intros c'. unfold add_granted. simpl. by rewrite all_push.
  - intros c'. unfold add_granted. simpl. unfold push_front. rewrite waits_set_tickets. done.
Qed.

Lemma find_in_durations_spec st c key ty ds r d : find_in_durations st c key ty ds = Some (r, d) ->
  r ∈ tickets_of st c d /\ satisfies st key ty r = true.
Proof.
  induction ds as [|d' ds IH]; simpl; [done|]. destruct (List.find _ _) as [x|] eqn:E; [|done].
  intros [= <- <-]. apply List.find_some in E as [E1 E2]. split; [by apply list_elem_of_In|done].
Qed.

(** The ticket that is found is held by [c] and strong enough. *)
Lemma find_ticket_spec st c req r d : inv st -> find_ticket st c req = Some (r, d) ->
  r ∈ tickets_of st c d /\ snd r = r_key req /\
  exists t, t ∈ granted_at (find_or_insert st) (r_key req) /\ t_id t = fst r /\ t_ctx t = c /\
    has_stronger_or_equal_type (strategy_of (r_key req)) (t_type t) (r_type req) = true.
Proof.
  intros I H. apply find_in_durations_spec in H as [Hr Hs]. unfold satisfies in Hs.
  apply andb_true_iff in Hs as [Hk Hs]. apply bool_decide_eq_true in Hk.
  unfold ticket_type in Hs. destruct (granted_ticket st r) as [t|] eqn:G; [|done]. simpl in Hs.
  apply granted_ticket_spec in G as [G1 G2]; [|done].
  split; [done|]. split; [done|]. exists t. rewrite Hk. split; [done|]. split; [done|]. split; [|done].
  apply (granted_of_ref _ _ _ _ _ c r t I); auto. apply elem_of_all. eauto.
Qed.

Lemma try_acquire_inv ok st c req : inv st -> inv (fst (try_acquire_lock_impl ok st c req)).
Proof.
  intros I. unfold try_acquire_lock_impl. destruct (find_ticket st c req) as [[r d]|] eqn:F.
  - destruct (negb _ || _); [|done]. unfold clone_ticket. destruct ok; cbn [negb]; [|done].
    apply find_ticket_spec in F as (Hr & Hk & t & Ht & Eid & Ec & Hs); [|done].
    destruct (add_granted _ _ _ _ _) as [st' r'] eqn:A.
    change st' with (fst (st', r')). rewrite <- A, Hk. apply add_granted_inv; [done|]. rewrite <- Ec.
    apply stronger_admits; [apply I|done|]. by rewrite (si_strategy _ _ _ _ _ I).
  - destruct ok; cbn [negb]; [|done]. destruct (can_grant_lock _ _ _ _) eqn:G; [|done].
    destruct (add_granted _ _ _ _ _) as [st' r'] eqn:A.
    change st' with (fst (st', r')). rewrite <- A. apply add_granted_inv; [done|].
    by eapply can_grant_admits; [apply I|].
Qed.

Lemma waits_set st c x c' : waits_for (will_wait_for st c x) c' = <[c := x]> (waits_for st) c'.
Proof.
  unfold waits_for, will_wait_for, set_ctx. simpl.
  destruct (decide (c = c')) as [<-|Hc]; by rewrite ?fn_lookup_insert, ?fn_lookup_insert_ne.
Qed.

Lemma all_wait st c x c' : all_tickets (will_wait_for st c x) c' = all_tickets st c'.
Proof.
  unfold all_tickets, tickets_of, will_wait_for, set_ctx. simpl.
  destruct (decide (c = c')) as [<-|Hc]; by rewrite ?fn_lookup_insert, ?fn_lookup_insert_ne.
Qed.

Lemma acquire_begin_inv ok tm st c req : inv st -> waits_for st c = None ->
  inv (fst (acquire_lock_begin ok tm st c req)).
Proof.
  intros I Hw. unfold acquire_lock_begin. pose proof (try_acquire_inv ok st c req I) as I1.
  destruct (try_acquire_lock_impl ok st c req) as [st1 [|r|]] eqn:E; simpl in *; try done.
  assert (st1 = st) as ->.
  { unfold try_acquire_lock_impl in E. destruct (find_ticket st c req) as [[r d]|].
    - destruct (negb _ || _); [|done]. by destruct (clone_ticket ok st c req r) as [[? ?]|].
    - destruct ok; simpl in E; [|done]. destruct (can_grant_lock _ _ _ _); [done|]. congruence. }
  set (t := mk_ticket (next_id st) c (r_type req)).
  pose proof (inv_begin_wait _ _ _ _ _ (r_key req) t I eq_refl Hw) as J.
  eapply sys_inv_ext; [exact J| | | |done|done].
  - intros k. rewrite <- find_or_insert_set. done.
  - intros c'. rewrite all_wait. done.
  - intros c'. rewrite waits_set. done.
Qed.

(** Updating one lock with its waiters rescheduled. *)
Lemma put_rescheduled_inv st k lk lk' w' T W : 
  sys_inv (<[k := lk]> (find_or_insert st)) T W (wslots st) (next_id st) ->
  (if is_empty lk then (None, wslots st)
   else let '(lk, w) := reschedule_waiters mx lk (wslots st) in (Some lk, w)) = (lk', w') ->
  sys_inv (find_or_insert (put_lock (set_wslots st w') k lk lk')) T W w' (next_id st).
Proof.
  intros J H. assert (wf_lock lk /\ m_strategy lk = strategy_of k) as [Hwf Hs].
  { pose proof (si_wf _ _ _ _ _ J k) as J1. pose proof (si_strategy _ _ _ _ _ J k) as J2.
    rewrite fn_lookup_insert in J1, J2. done. }
  assert (lk' = None -> is_empty lk = true) as Hnone.
  { intros ->. destruct (is_empty lk); [done|]. by destruct (reschedule_waiters _ _ _). }
  assert (sys_inv (<[k := default lk lk']> (find_or_insert st)) T W w' (next_id st)) as J'.
  { destruct (is_empty lk); [by injection H as <- <-|].
    destruct (reschedule_waiters mx lk (wslots st)) as [lk1 w1] eqn:R. injection H as <- <-.
    apply reschedule_pass in R; [|done]. simpl.
    pose proof (inv_pass _ _ _ _ _ k lk1 w1 (skip_high_priority mx lk) (m_list (m_waiting lk)) J) as P.
    rewrite fn_lookup_insert in P. specialize (P R). eapply sys_inv_ext; [exact P| | | | |]; try done.
    intros k'. destruct (decide (k = k')) as [<-|]; by rewrite ?fn_lookup_insert, ?fn_lookup_insert_ne. }
  eapply sys_inv_ext; [exact J'| | | | |]; try done.
  intros k'. rewrite put_lock_eq; [|intros E; auto]. done.
Qed.

(** The wait ended as its slot says, or the client was found to be gone, which
    the code takes as a timeout whatever the slot holds when the ticket is
    removed. *)
Definition wait_over (st : mdl_state) (c : nat) (ws : enum_wait_status) : Prop :=
  (wslots st c = ws /\ ws <> EMPTY) \/ ws = TIMEOUT.

Lemma wait_over_granted st c : wait_over st c GRANTED -> wslots st c = GRANTED.
Proof. by intros [[H _]|H]. Qed.

(** A wait in vain, with the waiting ticket that is removed. *)
Lemma finish_waiting st c r d ws t : inv st -> waits_for st c = Some r -> ws <> GRANTED ->
  t ∈ waiting_at (find_or_insert st) (snd r) -> ref_of t (snd r) = r ->
  acquire_lock_finish st c r d ws =
    let lk := find_or_insert st (snd r) in
    let st := will_wait_for st c None in
    let '(lk', w) := lock_remove_waiting mx lk (wslots st) t in
    Some (put_lock (set_wslots st w) (snd r) (set_waiting lk (remove_ticket (m_waiting lk) t)) lk', true).
Proof.
  intros I Hw Hne Ht Er. unfold acquire_lock_finish. rewrite decide_False by done.
  assert (waiting_ticket (will_wait_for st c None) r = Some t) as ->.
  { apply (waiting_ticket_spec st); [done|]. split; [done|]. by rewrite <- Er. }
  change (locks (will_wait_for st c None)) with (locks st). by rewrite (lock_present st (snd r) t) by auto.
Qed.

(** The ticket was granted although the wait ended otherwise. *)
Lemma finish_corrupts st c r d ws : inv st -> waits_for st c = Some r -> ws <> GRANTED ->
  acquire_lock_finish st c r d ws = None <-> wslots st c = GRANTED.
Proof.
  intros I Hw Hne. split.
  - intros E. destruct (decide (wslots st c = GRANTED)) as [|Hng]; [done|].
    destruct (waited_ticket _ _ _ _ _ c r I Hw Hng) as (t & Ht & Er & _).
    rewrite (finish_waiting st c r d ws t) in E by done. cbn zeta in E. by destruct (lock_remove_waiting _ _ _ _).
  - intros Hs. unfold acquire_lock_finish. rewrite decide_False by done.
    destruct (waiting_ticket (will_wait_for st c None) r) as [t|] eqn:Et; [|by destruct (locks _ !! _)].
    exfalso. apply (waiting_ticket_spec st) in Et as [Ht Ei]; [|done].
    destruct (si_waiting _ _ _ _ _ I (snd r) t Ht) as [Hwt Hst].
    assert (ref_of t (snd r) = r) as Er by (unfold ref_of; rewrite Ei; by destruct r).
    destruct (si_wait _ _ _ _ _ I c r Hw) as (t' & Er' & Ec & [K|[K _]]).
    + destruct (si_waiting _ _ _ _ _ I (snd r) t' K) as [_ K']. by rewrite Ec in K'.
    + apply (wl_disjoint _ (si_wf _ _ _ _ _ I (snd r)) t' t K Ht). unfold ref_of in Er, Er'. congruence.
Qed.

Lemma finish_inv st c r d ws st' b : inv st -> waits_for st c = Some r -> wait_over st c ws ->
  acquire_lock_finish st c r d ws = Some (st', b) -> inv st'.
Proof.
  intros I Hw Ho. destruct (decide (ws = GRANTED)) as [->|Hne].
  - apply wait_over_granted in Ho. unfold acquire_lock_finish. rewrite decide_True by done. intros [= <- _].
    pose proof (inv_finish_granted _ _ _ _ _ c r I Hw Ho) as J.
    eapply sys_inv_ext; [exact J| | | |done|done].
    + done.
    + intros c'. rewrite all_push. unfold insert, fn_insert. case_decide; [|by rewrite all_wait].
      by rewrite all_wait.
    + intros c'. unfold push_front. rewrite waits_set_tickets, waits_set. done.
  - intros E. assert (wslots st c <> GRANTED) as Hng by (intros K; apply (finish_corrupts st c r d ws) in K; congruence).
    destruct (waited_ticket _ _ _ _ _ c r I Hw Hng) as (t & Ht & Er & Ec).
    rewrite (finish_waiting st c r d ws t) in E by done. cbn zeta in E.
    unfold lock_remove_waiting in E. destruct (if is_empty _ then _ else _) as [lk' w'] eqn:El. injection E as <- _.
    pose proof (inv_cancel_wait _ _ _ _ _ t (snd r) I Ht) as J. rewrite Ec in J.
    pose proof (put_rescheduled_inv (will_wait_for st c None) (snd r) _ _ _ _ _ J El) as K.
    pose proof (put_lock_rest (set_wslots (will_wait_for st c None) w') (snd r)
      (set_waiting (find_or_insert st (snd r)) (remove_ticket (m_waiting (find_or_insert st (snd r))) t)) lk')
      as (R1 & R2 & R3).
    unfold inv, all_tickets, tickets_of, waits_for. rewrite R1, R2, R3.
    eapply sys_inv_ext; [exact K| | | | |]; try done.
    + intros c'. pose proof (all_wait st c None c') as A. unfold all_tickets, tickets_of in A. simpl in *.
      by rewrite A.
    + intros c'. apply (waits_set st c None c').
Qed.

Lemma inv_nodup st c : inv st -> NoDup (all_tickets st c).
Proof. intros I. apply I. Qed.

(** The granted ticket and the lock behind a pointer of [c]. *)
Lemma held_ticket st c d r : inv st -> r ∈ tickets_of st c d ->
  exists t, t ∈ granted_at (find_or_insert st) (snd r) /\ t_id t = fst r /\ t_ctx t = c /\
    granted_ticket st r = Some t /\ locks st !! snd r = Some (find_or_insert st (snd r)).
Proof.
  intros I Hr. destruct (si_tickets _ _ _ _ _ I c r) as (t & Ht & E1 & E2);
    [apply elem_of_all; eauto|].
  exists t. split; [done|]. split; [done|]. split; [done|].
  split; [by apply granted_ticket_spec|]. apply (lock_present st (snd r) t). auto.
Qed.

Lemma tickets_put st w k e lk c d :
  tickets_of (put_lock (set_wslots st w) k e lk) c d = tickets_of st c d.
Proof. unfold tickets_of. destruct (put_lock_rest (set_wslots st w) k e lk) as (-> & _). done. Qed.

Lemma release_inv st c d r : inv st -> r ∈ tickets_of st c d -> inv (release_lock st c d r).
Proof.
  intros I Hr. destruct (held_ticket st c d r I Hr) as (t & Ht & E1 & E2 & G & Lk).
  unfold release_lock. rewrite Lk, G. unfold lock_remove_granted.
  destruct (if is_empty _ then _ else _) as [lk' w'] eqn:E.
  pose proof (inv_remove_granted _ _ _ _ _ c r t I (proj2 (elem_of_all st c r) (ex_intro _ d Hr)) Ht E1) as J.
  pose proof (put_rescheduled_inv st (snd r) _ _ _ _ _ J E) as K.
  set (lk1 := set_granted _ _) in *. set (st1 := put_lock (set_wslots st w') (snd r) lk1 lk') in *.
  destruct (put_lock_rest (set_wslots st w') (snd r) lk1 lk') as (R1 & R2 & R3).
  fold st1 in R1, R2, R3.
  assert (forall c', all_tickets st1 c' = all_tickets st c') as EA
    by (intros c'; unfold all_tickets, st1; by rewrite !tickets_put).
  eapply sys_inv_ext; [exact K| | | | |].
  - done.
  - intros c'. rewrite all_remove; [|rewrite EA; by apply inv_nodup|unfold st1; by rewrite tickets_put].
    unfold insert, fn_insert. case_decide; by rewrite EA.
  - intros c'. unfold remove_ref. rewrite waits_set_tickets. unfold waits_for. by rewrite R1.
  - intros c'. unfold remove_ref. simpl. by rewrite R2.
  - unfold remove_ref. simpl. rewrite R3. done.
Qed.

Lemma release_tickets st c d r d' : inv st -> r ∈ tickets_of st c d ->
  tickets_of (release_lock st c d r) c d' =
  if decide (d = d') then filter (fun x => x <> r) (tickets_of st c d) else tickets_of st c d'.
Proof.
  intros I Hr. destruct (held_ticket st c d r I Hr) as (t & Ht & E1 & E2 & G & Lk).
  unfold release_lock. rewrite Lk, G. destruct (lock_remove_granted _ _ _ _) as [lk' w'].
  unfold remove_ref. rewrite tickets_set, !tickets_put.
  destruct (decide (d = d')); [by rewrite decide_True|by rewrite decide_False by tauto].
Qed.

(** Releasing a list of tickets. *)
Lemma release_all_inv st c d l : inv st -> NoDup l -> (forall r, r ∈ l -> r ∈ tickets_of st c d) ->
  let st' := fold_left (fun st r => release_lock st c d r) l st in
  inv st' /\ tickets_of st' c d = filter (fun x => x ∉ l) (tickets_of st c d) /\
  (forall d', d' <> d -> tickets_of st' c d' = tickets_of st c d').
Proof.
  revert st. induction l as [|r l IH]; intros st I Hn Hin; simpl.
  - split; [done|]. split; [|done]. symmetry. apply list_filter_keep.
    intros. apply not_elem_of_nil.
  - apply list.NoDup_cons in Hn as [Hr Hn].
    assert (r ∈ tickets_of st c d) as Hrd by (apply Hin, elem_of_cons; by left).
    destruct (IH (release_lock st c d r)) as (A & B & C); [by apply release_inv|done| |].
    + intros x Hx. rewrite release_tickets, decide_True by done. apply list_elem_of_filter.
      split; [by intros ->|]. apply Hin, elem_of_cons. by right.
    + split; [done|]. split.
      * rewrite B, release_tickets, decide_True by done. rewrite list_filter_filter.
        apply list_filter_iff. intros x. rewrite not_elem_of_cons. tauto.
      * intros d' Hd. rewrite C by done. rewrite release_tickets by done. by rewrite decide_False.
Qed.

Lemma release_rest st c d r c' : inv st -> r ∈ tickets_of st c d ->
  waits_for (release_lock st c d r) c' = waits_for st c' /\
  (c' <> c -> forall d', tickets_of (release_lock st c d r) c' d' = tickets_of st c' d').
Proof.
  intros I Hr. destruct (held_ticket st c d r I Hr) as (t & Ht & E1 & E2 & G & Lk).
  unfold release_lock. rewrite Lk, G. destruct (lock_remove_granted _ _ _ _) as [lk' w'].
  unfold remove_ref. rewrite waits_set_tickets. split.
  - unfold waits_for. destruct (put_lock_rest (set_wslots st w') (snd r)
      (set_granted (find_or_insert st (snd r)) (remove_ticket (m_granted (find_or_insert st (snd r))) t)) lk')
      as (-> & _). done.
  - intros Hc d'. rewrite tickets_set, !tickets_put. by rewrite decide_False by naive_solver.
Qed.

Lemma release_all_rest st c d l c' : inv st -> NoDup l -> (forall r, r ∈ l -> r ∈ tickets_of st c d) ->
  let st' := fold_left (fun st r => release_lock st c d r) l st in
  waits_for st' c' = waits_for st c' /\ (c' <> c -> forall d', tickets_of st' c' d' = tickets_of st c' d').
Proof.
  revert st. induction l as [|r l IH]; intros st I Hn Hin; simpl; [done|].
  apply list.NoDup_cons in Hn as [Hr Hn].
  assert (r ∈ tickets_of st c d) as Hrd by (apply Hin, elem_of_cons; by left).
  destruct (release_rest st c d r c' I Hrd) as [A B].
  destruct (IH (release_lock st c d r)) as [C D]; [by apply release_inv|done| |].
  - intros x Hx. rewrite release_tickets, decide_True by done. apply list_elem_of_filter.
    split; [by intros ->|]. apply Hin, elem_of_cons. by right.
  - rewrite C, A. split; [done|]. intros Hc d'. rewrite D, B by done. done.
Qed.

Lemma stored_before_prefix s l : exists l2, l = stored_before s l ++ l2.
Proof.
  induction l as [|x l [l2 IH]]; simpl; [by exists []|]. case_decide; [by exists (x :: l)|].
  exists l2. simpl. by rewrite <- IH.
Qed.

(** The locks in front of a sentinel, in a list without repetitions. *)
Lemma stored_before_app l1 l2 : NoDup (l1 ++ l2) -> stored_before (head l2) (l1 ++ l2) = l1.
Proof.
  induction l1 as [|x l1 IH]; simpl; intros Hn.
  - destruct l2 as [|y l2]; simpl; [done|]. by rewrite decide_True.
  - apply list.NoDup_cons in Hn as [Hx Hn]. rewrite IH by done. rewrite decide_False; [done|].
    intros E. apply Hx. apply elem_of_app. right. destruct l2; simpl in E; [done|].
    injection E as ->. apply elem_of_cons. by left.
Qed.

Lemma nodup_duration st c d : inv st -> NoDup (tickets_of st c d).
Proof.
  intros I. pose proof (inv_nodup st c I) as H. unfold all_tickets in H.
  apply list.NoDup_app in H as (H1 & _ & H). apply list.NoDup_app in H as (H2 & _ & H3).
  by destruct d.
Qed.

Lemma filter_prefix (l1 l2 : list ticket_ref) : NoDup (l1 ++ l2) -> filter (fun x => x ∉ l1) (l1 ++ l2) = l2.
Proof.
  intros Hn. apply list.NoDup_app in Hn as (_ & Hd & _). rewrite list.filter_app.
  rewrite (list_filter_keep _ l2) by (intros x Hx K; by apply (Hd x)).
  assert (forall l, (forall x, x ∈ l -> x ∈ l1) -> filter (fun x => x ∉ l1) l = []) as ->; [|done|by auto].
  induction l as [|x l IH]; intros H; [done|]. rewrite filter_cons_False.
  - apply IH. intros y Hy. apply H, elem_of_cons. by right.
  - intros K. apply K, H, elem_of_cons. by left.
Qed.

(** What [release_locks_stored_before] does. *)
Lemma release_before_spec st c d s l2 : inv st ->
  tickets_of st c d = stored_before s (tickets_of st c d) ++ l2 ->
  let st' := release_locks_stored_before st c d s in
  inv st' /\ tickets_of st' c d = l2 /\
  (forall d', d' <> d -> tickets_of st' c d' = tickets_of st c d') /\
  (forall c', waits_for st' c' = waits_for st c') /\
  (forall c' d', c' <> c -> tickets_of st' c' d' = tickets_of st c' d').
Proof.
  intros I E. pose proof (nodup_duration st c d I) as Hn. simpl. unfold release_locks_stored_before.
  set (l1 := stored_before s (tickets_of st c d)) in *.
  assert (NoDup l1) as Hn1 by (rewrite E in Hn; by apply list.NoDup_app in Hn as [Hn _]).
  assert (forall r, r ∈ l1 -> r ∈ tickets_of st c d) as Hin
    by (intros r Hr; rewrite E; apply elem_of_app; by left).
  destruct (release_all_inv st c d l1 I Hn1 Hin) as (A & B & C).
  split; [done|]. split.
  - rewrite B. rewrite E in Hn |- *. by apply filter_prefix.
  - split; [done|]. split.
    + intros c'. by destruct (release_all_rest st c d l1 c' I Hn1 Hin) as [H _].
    + intros c' d' Hc. destruct (release_all_rest st c d l1 c' I Hn1 Hin) as [_ H]. by apply H.
Qed.

Lemma release_before_inv st c d s : inv st -> inv (release_locks_stored_before st c d s).
Proof.
  intros I. destruct (stored_before_prefix s (tickets_of st c d)) as [l2 E].
  by apply (release_before_spec st c d s l2).
Qed.

(** A pointer of [c] is nobody else's. *)
Lemma ref_owner st c c' r : inv st -> r ∈ all_tickets st c ->
  r ∈ all_tickets st c' \/ waits_for st c' = Some r -> c' = c /\ waits_for st c <> Some r.
Proof.
  intros I Hr H. assert (waits_for st c <> Some r) as Hw
    by (intros K; by apply (si_new _ _ _ _ _ I c r)).
  split; [|done]. destruct (si_tickets _ _ _ _ _ I c r Hr) as (t & Ht & E1 & E2).
  destruct H as [H|H].
  - rewrite <- E2. symmetry. by apply (granted_of_ref _ _ _ _ _ c' r t I).
  - destruct (si_wait _ _ _ _ _ I c' r H) as (t' & E3 & E4 & [K|[K _]]).
    + exfalso. apply (wl_disjoint _ (si_wf _ _ _ _ _ I (snd r)) t t' Ht K). rewrite <- E3 in E1. done.
    + rewrite <- E4, <- E2. f_equal. apply (granted_unique (find_or_insert st (snd r))); auto; [apply I|].
      rewrite E1, <- E3. done.
Qed.

Lemma not_granted st r : inv st ->
  (forall c, r ∉ all_tickets st c /\ waits_for st c <> Some r) -> granted_ticket st r = None.
Proof.
  intros I H. destruct (granted_ticket st r) as [t|] eqn:G; [|done].
  apply granted_ticket_spec in G as [G1 G2]; [|done].
  assert (ref_of t (snd r) = r) as E by (unfold ref_of; rewrite G2; by destruct r).
  destruct (si_granted _ _ _ _ _ I _ _ G1) as [K|[K _]]; rewrite E in K;
    destruct (H (t_ctx t)) as [H1 H2]; done.
Qed.

(** Rolling back to a savepoint releases exactly the statement and
    transactional locks taken since: the lists are again what they were, no
    ticket taken since is granted any more, explicit locks and the other
    contexts keep theirs. *)
Theorem rollback_to_savepoint_correct st0 st c n1 n2 : inv st ->
  tickets_of st c MDL_STATEMENT = n1 ++ tickets_of st0 c MDL_STATEMENT ->
  tickets_of st c MDL_TRANSACTION = n2 ++ tickets_of st0 c MDL_TRANSACTION ->
  let st' := rollback_to_savepoint st c (mdl_savepoint st0 c) in
  inv st' /\
  tickets_of st' c MDL_STATEMENT = tickets_of st0 c MDL_STATEMENT /\
  tickets_of st' c MDL_TRANSACTION = tickets_of st0 c MDL_TRANSACTION /\
  tickets_of st' c MDL_EXPLICIT = tickets_of st c MDL_EXPLICIT /\
  (forall r, r ∈ n1 ++ n2 -> granted_ticket st' r = None) /\
  (forall c' d, c' <> c -> tickets_of st' c' d = tickets_of st c' d).
Proof.
  intros I E1 E2. pose proof (nodup_duration st c MDL_STATEMENT I) as N1.
  pose proof (nodup_duration st c MDL_TRANSACTION I) as N2.
  rewrite E1 in N1. rewrite E2 in N2. cbv zeta. unfold rollback_to_savepoint, mdl_savepoint. cbn [fst snd].
  destruct (release_before_spec st c MDL_STATEMENT (head (tickets_of st0 c MDL_STATEMENT))
    (tickets_of st0 c MDL_STATEMENT)) as (A1 & A2 & A3 & A4 & A5); [done|by rewrite E1, stored_before_app|].
  set (st1 := release_locks_stored_before st c MDL_STATEMENT _) in *.
  destruct (release_before_spec st1 c MDL_TRANSACTION (head (tickets_of st0 c MDL_TRANSACTION))
    (tickets_of st0 c MDL_TRANSACTION)) as (B1 & B2 & B3 & B4 & B5);
    [done|rewrite A3 by done; by rewrite E2, stored_before_app|].
  set (st2 := release_locks_stored_before st1 c MDL_TRANSACTION _) in *. clearbody st1 st2.
  rewrite B2, !B3, A2, (A3 MDL_EXPLICIT) by done. split_and!; auto.
  2:{ intros c' d Hc. by rewrite B5, A5. }
  intros r Hr. apply not_granted; [done|]. intros c'.
  assert (r ∈ all_tickets st c) as Hall
    by (unfold all_tickets; rewrite E1, E2, !elem_of_app; rewrite elem_of_app in Hr; tauto).
  rewrite B4, A4. destruct (decide (c' = c)) as [->|Hc].
  - split; [|by apply (ref_owner st c c r); auto].
    pose proof (inv_nodup st c I) as N. unfold all_tickets in N |- *.
    rewrite B2, !B3, A2, (A3 MDL_EXPLICIT) by done. rewrite E1, E2 in N. by eapply nodup_new_parts.
  - split; intros K; apply Hc.
    + apply (ref_owner st c c' r I Hall). left. unfold all_tickets in K |- *. by rewrite !B5, !A5 in K.
    + apply (ref_owner st c c' r I Hall). by right.
Qed.

Lemma downgrade_inv st r ty : inv st -> inv (downgrade_lock st r ty).
Proof.
  intros I. unfold downgrade_lock. destruct (locks st !! snd r) as [lk|] eqn:Lk; [|done].
  destruct (granted_ticket st r) as [t|] eqn:G; [|done].
  apply granted_ticket_spec in G as [G1 G2]; [|done].
  assert (find_or_insert st (snd r) = lk) as El by (unfold find_or_insert; by rewrite Lk).
  destruct (lock_downgrade mx lk (wslots st) t ty) as [lk' w'] eqn:E. unfold lock_downgrade in E.
  assert (sys_inv (<[snd r := lk]> (find_or_insert st)) (all_tickets st) (waits_for st) (wslots st) (next_id st)) as Isame.
  { eapply sys_inv_ext; [exact I| | | | |]; try done. intros k.
    destruct (decide (snd r = k)) as [<-|]; rewrite ?fn_lookup_insert, ?fn_lookup_insert_ne by done; [by rewrite El|done]. }
  assert (sys_inv (<[snd r := lk']> (find_or_insert st)) (all_tickets st) (waits_for st) w' (next_id st)) as J.
  { destruct (decide (t_type t = ty)); [by injection E as <- <-|].
    destruct (has_stronger_or_equal_type _ _ _) eqn:S; cbn [negb] in E; [|by injection E as <- <-].
    rewrite <- El in *.
    pose proof (inv_retype _ _ _ _ _ (snd r) t ty I G1 (stronger_admits _ t ty (si_wf _ _ _ _ _ I _) G1 S)) as K.
    apply reschedule_pass in E; [|by pose proof (si_wf _ _ _ _ _ K (snd r)) as W; rewrite fn_lookup_insert in W].
    pose proof (inv_pass _ _ _ _ _ (snd r) lk' w' (skip_high_priority mx (retype_granted (find_or_insert st (snd r)) t ty))
      (m_list (m_waiting (retype_granted (find_or_insert st (snd r)) t ty))) K) as P.
    rewrite fn_lookup_insert in P. specialize (P E). eapply sys_inv_ext; [exact P| | | | |]; try done.
    intros k'. destruct (decide (snd r = k')) as [<-|]; by rewrite ?fn_lookup_insert, ?fn_lookup_insert_ne. }
  eapply sys_inv_ext; [exact J| | | | |]; try done. intros k. by rewrite find_or_insert_set.
Qed.

(** The two tickets that an upgrade merges. *)
Definition mergeable (st : mdl_state) (c : nat) (d : enum_mdl_duration) (r x : ticket_ref)
  (new_type : enum_mdl_type) : Prop :=
  r ∈ tickets_of st c d /\ x ∈ tickets_of st c MDL_TRANSACTION /\ snd x = snd r /\ x <> r /\
  exists ty, ticket_type st x = Some ty /\
    has_stronger_or_equal_type (strategy_of (snd r)) ty new_type = true.

Lemma merge_inv st c d r x sp new_type : inv st -> mergeable st c d r x new_type ->
  inv (upgrade_merge st c r x sp new_type).
Proof.
  intros I (Hr & Hx & Ek & Hne & ty & Hty & Hs).
  destruct (held_ticket st c d r I Hr) as (t & Ht & E1 & E2 & G & Lk).
  destruct (held_ticket st c _ x I Hx) as (xt & Hxt & E3 & E4 & Gx & _).
  unfold ticket_type in Hty. rewrite Gx in Hty. injection Hty as Hty. rewrite Ek in Hxt.
  unfold upgrade_merge. rewrite Lk, G, Gx. set (L := find_or_insert st) in *.
  assert (admits (L (snd r)) c new_type) as Ha.
  { rewrite <- E4. apply stronger_admits; [apply I|done|].
    rewrite (si_strategy _ _ _ _ _ I), Hty. done. }
  destruct (has_lock st c sp x); cbn [negb].
  - pose proof (inv_retype _ _ _ _ _ (snd r) t new_type I Ht) as K. rewrite E2 in K.
    eapply sys_inv_ext; [exact (K Ha)| | | | |]; try done. intros k. by rewrite find_or_insert_set.
  - pose proof (inv_remove_granted _ _ _ _ _ c x xt I) as K. rewrite Ek in K.
    specialize (K (proj2 (elem_of_all st c x) (ex_intro _ MDL_TRANSACTION Hx)) Hxt E3). fold L in K.
    set (lk1 := set_granted (L (snd r)) _) in *.
    assert (t_id t <> t_id xt) as Hid.
    { intros E. apply Hne. destruct x, r; simpl in *. congruence. }
    pose proof (inv_retype _ _ _ _ _ (snd r) t new_type K) as K2.
    rewrite fn_lookup_insert, E2 in K2.
    assert (t ∈ granted_at (<[snd r := lk1]> L) (snd r)) as Ht1.
    { rewrite granted_at_insert, decide_True by done. simpl. rewrite m_list_remove_ticket.
      apply elem_of_remove_id. done. }
    assert (admits lk1 c new_type) as Ha1.
    { intros y Hy. apply Ha. simpl in Hy. rewrite m_list_remove_ticket in Hy.
      by apply elem_of_remove_id in Hy as [_ Hy]. }
    eapply sys_inv_ext; [exact (K2 Ht1 Ha1)| | | | |]; try done.
    + intros k. change (lock_eq (find_or_insert (set_lock st (snd r) (retype_granted lk1 t new_type)) k)
        (<[snd r := retype_granted lk1 t new_type]> (<[snd r := lk1]> L) k)).
      rewrite find_or_insert_set. destruct (decide (snd r = k)) as [<-|];
        by rewrite ?fn_lookup_insert, ?fn_lookup_insert_ne.
    + intros c'. rewrite all_remove; [done|exact (inv_nodup st c I)|done].
    + intros c'. unfold remove_ref. by rewrite waits_set_tickets.
Qed.

(** ** Durations *)

Lemma move_all_perm l1 l2 : move_all l1 l2 ≡ₚ l1 ++ l2.
Proof. unfold move_all. by rewrite <- Permutation_rev. Qed.

(** A change of the lists of [c] that keeps the tickets. *)
Lemma relist_inv st st' : inv st -> locks st' = locks st -> wslots st' = wslots st ->
  next_id st' = next_id st -> (forall c, waits_for st' c = waits_for st c) ->
  (forall c, all_tickets st' c ≡ₚ all_tickets st c) -> inv st'.
Proof.
  intros I E1 E2 E3 E4 E5. eapply sys_inv_ext; [exact I| |done|done| |].
  - intros k. unfold find_or_insert. by rewrite E1.
  - intros c. by rewrite E2.
  - by rewrite E3.
Qed.

Lemma set_duration_all st c r d c' : inv st -> r ∈ tickets_of st c MDL_TRANSACTION ->
  all_tickets (set_lock_duration st c r d) c' ≡ₚ all_tickets st c'.
Proof.
  intros I Hr. unfold set_lock_duration. rewrite all_push.
  assert (forall x, all_tickets (remove_ref st c MDL_TRANSACTION r) x =
    <[c := filter (fun y => y <> r) (all_tickets st c)]> (all_tickets st) x) as E
    by (intros x; by apply all_remove; [apply inv_nodup|]).
  destruct (decide (c = c')) as [<-|Hne].
  - rewrite fn_lookup_insert, E, fn_lookup_insert. symmetry.
    assert (r ∈ all_tickets st c) as Hin by (apply elem_of_all; eauto).
    pose proof (inv_nodup st c I) as N. apply elem_of_Permutation in Hin as [l El].
    rewrite El in N |- *. apply list.NoDup_cons in N as [N _]. rewrite filter_cons_False by auto.
    by rewrite filter_absent.
  - by rewrite fn_lookup_insert_ne, E, fn_lookup_insert_ne.
Qed.

Lemma explicit_all st c c' : all_tickets (set_explicit_duration_for_all_locks st c) c' ≡ₚ all_tickets st c'.
Proof.
  unfold set_explicit_duration_for_all_locks, all_tickets. rewrite !tickets_set.
  destruct (decide (c = c')) as [<-|Hne]; decide_cases; [|done]. rewrite !move_all_perm. simpl.
  rewrite (Permutation_app_comm (tickets_of st c MDL_EXPLICIT)). by rewrite <- app_assoc.
Qed.

Lemma transaction_all st c c' : tickets_of st c MDL_STATEMENT = [] ->
  all_tickets (set_transaction_duration_for_all_locks st c) c' ≡ₚ all_tickets st c'.
Proof.
  intros Hs. unfold set_transaction_duration_for_all_locks, all_tickets. rewrite !tickets_set.
  destruct (decide (c = c')) as [<-|Hne]; decide_cases; [|done]. rewrite !move_all_perm.
  by rewrite app_nil_r.
Qed.

(** Changing durations moves tickets between the lists of the context,
    none lost, none duplicated, and touches no lock: everything is explicit
    after [set_explicit_duration_for_all_locks], transactional after
    [set_transaction_duration_for_all_locks]. *)
Theorem durations_keep_tickets st c : inv st ->
  (let st' := set_explicit_duration_for_all_locks st c in
   inv st' /\ (forall c', all_tickets st' c' ≡ₚ all_tickets st c') /\
   tickets_of st' c MDL_EXPLICIT ≡ₚ all_tickets st c) /\
  (tickets_of st c MDL_STATEMENT = [] ->
   let st' := set_transaction_duration_for_all_locks st c in
   inv st' /\ (forall c', all_tickets st' c' ≡ₚ all_tickets st c') /\
   tickets_of st' c MDL_TRANSACTION ≡ₚ all_tickets st c).
Proof.
  intros I. split; [|intros Hs]; cbv zeta; (split; [|split]).
  - eapply relist_inv; [exact I| | | | |]; try done; [|intros c'; apply explicit_all].
    intros c'. unfold set_explicit_duration_for_all_locks. by rewrite !waits_set_tickets.
  - intros c'. apply explicit_all.
  - rewrite <- (explicit_all st c c). unfold set_explicit_duration_for_all_locks, all_tickets.
    rewrite !tickets_set. by decide_cases.
  - eapply relist_inv; [exact I| | | | |]; try done; [|intros c'; by apply transaction_all].
    intros c'. unfold set_transaction_duration_for_all_locks. by rewrite !waits_set_tickets.
  - intros c'. by apply transaction_all.
  - rewrite <- (transaction_all st c c) by done. unfold set_transaction_duration_for_all_locks, all_tickets.
    rewrite !tickets_set. decide_cases. by rewrite Hs, app_nil_r.
Qed.

(** ** All interleavings *)

(** One operation of one context, or one event of its wait.  A context that
    waits does nothing else.  [None] is the state with corrupt lists, about
    which nothing more is known. *)
Inductive mdl_step : option mdl_state -> option mdl_state -> Prop :=
| step_try_acquire st ok c req : waits_for st c = None ->
    mdl_step (Some st) (Some (fst (try_acquire_lock ok st c req)))
| step_acquire_begin st ok tm c req : waits_for st c = None ->
    mdl_step (Some st) (Some (fst (acquire_lock_begin ok tm st c req)))
| step_post st c x : x <> GRANTED ->
    mdl_step (Some st) (Some (set_wslots st (snd (set_status (wslots st) c x))))
| step_wait_end st c killed so :
    mdl_step (Some st) (Some (set_wslots st (snd (timed_wait_end (wslots st) c killed so))))
| step_acquire_finish st c r d ws : waits_for st c = Some r -> wait_over st c ws ->
    mdl_step (Some st) (fst <$> acquire_lock_finish st c r d ws)
| step_release st c d r : r ∈ tickets_of st c d -> mdl_step (Some st) (Some (release_lock st c d r))
| step_release_before st c d s : mdl_step (Some st) (Some (release_locks_stored_before st c d s))
| step_release_name st c name : mdl_step (Some st) (Some (release_all_locks_for_name st c name))
| step_downgrade st r ty : mdl_step (Some st) (Some (downgrade_lock st r ty))
| step_merge st c d r x sp ty : mergeable st c d r x ty -> mdl_step (Some st) (Some (upgrade_merge st c r x sp ty))
| step_set_duration st c r d : r ∈ tickets_of st c MDL_TRANSACTION ->
    mdl_step (Some st) (Some (set_lock_duration st c r d))
| step_all_explicit st c : mdl_step (Some st) (Some (set_explicit_duration_for_all_locks st c))
| step_all_transaction st c : tickets_of st c MDL_STATEMENT = [] ->
    mdl_step (Some st) (Some (set_transaction_duration_for_all_locks st c)).

Lemma post_inv st c x : inv st -> x <> GRANTED -> inv (set_wslots st (snd (set_status (wslots st) c x))).
Proof.
  intros I Hx. unfold set_status. destruct (decide (wslots st c = EMPTY)) as [E|E]; simpl.
  - exact (inv_slot _ _ _ _ _ c x I E Hx).
  - by destruct st.
Qed.

Lemma wait_end_inv st c killed so : inv st ->
  inv (set_wslots st (snd (timed_wait_end (wslots st) c killed so))).
Proof.
  intros I. unfold timed_wait_end. simpl. destruct (decide (wslots st c = EMPTY)) as [E|E]; [|by destruct st].
  destruct killed; [by apply (inv_slot _ _ _ _ _ c KILLED I E)|].
  destruct so; [by apply (inv_slot _ _ _ _ _ c TIMEOUT I E)|by destruct st].
Qed.

Definition inv_or_corrupt (o : option mdl_state) : Prop := from_option inv True o.

Lemma mdl_step_inv o o' : inv_or_corrupt o -> mdl_step o o' -> inv_or_corrupt o'.
Proof.
  intros I H. destruct H; cbn in *.
  - by apply try_acquire_inv.
  - by apply acquire_begin_inv.
  - by apply post_inv.
  - by apply wait_end_inv.
  - destruct (acquire_lock_finish st c r d ws) as [[st' b]|] eqn:E; cbn; [|done]. by eapply finish_inv.
  - by apply release_inv.
  - by apply release_before_inv.
  - apply release_all_inv; [done| |].
    + apply list.NoDup_filter. by apply nodup_duration.
    + intros r Hr. by apply list_elem_of_filter in Hr as [_ Hr].
  - by apply downgrade_inv.
  - by eapply merge_inv.
  - eapply relist_inv; [exact I| | | | |]; try done; [|intros c'; by apply set_duration_all].
    intros c'. unfold set_lock_duration, push_front, remove_ref. by rewrite !waits_set_tickets.
  - eapply relist_inv; [exact I| | | | |]; try done; [|intros c'; apply explicit_all].
    intros c'. unfold set_explicit_duration_for_all_locks. by rewrite !waits_set_tickets.
  - eapply relist_inv; [exact I| | | | |]; try done; [|intros c'; by apply transaction_all].
    intros c'. unfold set_transaction_duration_for_all_locks. by rewrite !waits_set_tickets.
Qed.

Lemma reachable_inv st : rtc mdl_step (Some mdl_init) (Some st) -> inv st.
Proof.
  intros H. apply (rtc_ind_r inv_or_corrupt (Some mdl_init)) in H; [done|exact inv_init|].
  intros o o' _ Hs I. by eapply mdl_step_inv.
Qed.

(** Lists are corrupted in one way only: the client of a waiting context is
    found gone after the lock was granted. *)
Lemma corrupting_step st : inv st -> mdl_step (Some st) None ->
  exists c r t, waits_for st c = Some r /\ wslots st c = GRANTED /\ granted_ticket st r = Some t /\ t_ctx t = c.
Proof.
  intros I H. inversion H as [| | | |st0 c r d ws Hw Ho E1 E2| | | | | | | |]. subst st0.
  destruct (acquire_lock_finish st c r d ws) as [[st' b]|] eqn:E; [done|].
  assert (ws <> GRANTED) as Hne by (intros ->; unfold acquire_lock_finish in E; by rewrite decide_True in E).
  apply finish_corrupts in E as Hs; [|done..]. exists c, r.
  destruct (si_wait _ _ _ _ _ I c r Hw) as (t & Er & Ec & [K|[K _]]).
  - destruct (si_waiting _ _ _ _ _ I (snd r) t K) as [_ K']. by rewrite Ec in K'.
  - exists t. split; [done|]. split; [done|]. split; [|done].
    apply granted_ticket_spec; [done|]. split; [done|]. by rewrite <- Er.
Qed.

(** C1: mutual exclusion.  However the operations of all contexts interleave,
    from the start of the server: tickets that two different contexts have for
    one object are both granted, and of compatible types.  This holds until
    [acquire_lock] sees that a client is gone just after its lock was granted,
    where the code corrupts its lists (the step to [None] of [mdl_step]). *)
Theorem mdl_mutual_exclusion st c1 c2 r1 r2 : rtc mdl_step (Some mdl_init) (Some st) -> c1 <> c2 ->
  r1 ∈ all_tickets st c1 -> r2 ∈ all_tickets st c2 -> snd r1 = snd r2 ->
  exists ty1 ty2, ticket_type st r1 = Some ty1 /\ ticket_type st r2 = Some ty2 /\
    is_incompatible_when_granted (strategy_of (snd r1)) ty1 ty2 = false.
Proof.
  intros R Hne H1 H2 Ek. apply reachable_inv in R as I.
  apply elem_of_all in H1 as [d1 H1]. apply elem_of_all in H2 as [d2 H2].
  destruct (held_ticket st c1 d1 r1 I H1) as (t1 & Ht1 & _ & E1 & G1 & _).
  destruct (held_ticket st c2 d2 r2 I H2) as (t2 & Ht2 & _ & E2 & G2 & _).
  exists (t_type t1), (t_type t2). unfold ticket_type. rewrite G1, G2. split; [done|]. split; [done|].
  rewrite <- (si_strategy _ _ _ _ _ I (snd r1)). rewrite <- Ek in Ht2.
  apply (wl_compat _ (si_wf _ _ _ _ _ I (snd r1))); [done|done|congruence].
Qed.

(** C18: no ticket is lost.  In every reachable state with lists that are not
    corrupt a granted ticket is in the lists of its context, or its context
    waits for it and finds GRANTED in its slot; and the ticket a context waits
    for is in the waiting list of its lock, or was granted with GRANTED in the
    slot: no wake-up is missed.  The next step corrupts the lists only when a
    client is found gone whose lock has just been granted. *)
Theorem mdl_no_lost_ticket st : rtc mdl_step (Some mdl_init) (Some st) ->
  (forall k t, t ∈ granted_at (find_or_insert st) k ->
     ref_of t k ∈ all_tickets st (t_ctx t) \/
     (waits_for st (t_ctx t) = Some (ref_of t k) /\ wslots st (t_ctx t) = GRANTED)) /\
  (forall c r, waits_for st c = Some r ->
     (exists t, waiting_ticket st r = Some t /\ t_ctx t = c /\ wslots st c <> GRANTED) \/
     (exists t, granted_ticket st r = Some t /\ t_ctx t = c /\ wslots st c = GRANTED)) /\
  (mdl_step (Some st) None ->
     exists c r t, waits_for st c = Some r /\ wslots st c = GRANTED /\ granted_ticket st r = Some t /\ t_ctx t = c).
Proof.
  intros R. apply reachable_inv in R as I. split; [apply I|]. split; [|by apply corrupting_step]. intros c r Hw.
  destruct (si_wait _ _ _ _ _ I c r Hw) as (t & E1 & E2 & [H|[H Hs]]).
  - left. exists t. split; [|split; [done|]].
    + apply waiting_ticket_spec; [done|]. split; [done|]. by rewrite <- E1.
    + rewrite <- E2. by apply (si_waiting _ _ _ _ _ I (snd r)).
  - right. exists t. split; [|done]. apply granted_ticket_spec; [done|]. split; [done|]. by rewrite <- E1.
Qed.

Section Waiting.

(** ** Waiting, and requests in bulk *)

(** What the other threads and the clock do until the wait of [c] ends, and
    the status it ends with. *)
Variable other_threads : mdl_state -> nat -> mdl_state * enum_wait_status.

Definition acquire_lock (alloc_ok has_timeout : bool) (st : mdl_state) (c : nat) (req : MDL_request)
  : option (mdl_state * option ticket_ref) :=
  match acquire_lock_begin alloc_ok has_timeout st c req with
  | (st, BEG_error) => Some (st, None)
  | (st, BEG_ticket r) => Some (st, Some r)
  | (st, BEG_wait r _) =>
    let '(st, wait_status) := other_threads st c in
    '(st, failed) ← acquire_lock_finish st c r (r_duration req) wait_status;
    Some (st, if failed : bool then None else Some r)
  end.

(** [alloc_ok i]: the allocations for the [i]-th request succeed. *)
Fixpoint acquire_locks_loop (alloc_ok : nat -> bool) (has_timeout : bool) (i : nat) (st : mdl_state) (c : nat)
  (reqs : list MDL_request) (acquired : list ticket_ref) : option (mdl_state * option (list ticket_ref)) :=
  match reqs with
  | [] => Some (st, Some (rev acquired))
  | req :: reqs =>
    '(st, res) ← acquire_lock (alloc_ok i) has_timeout st c req;
    match res with
    | Some r => acquire_locks_loop alloc_ok has_timeout (S i) st c reqs (r :: acquired)
    | None => Some (st, None)
    end
  end.

(** [sort_buf] holds the requests in the order of their keys, if there is
    memory for it; [None] inside is the error return. *)
Definition acquire_locks (buf_ok : bool) (alloc_ok : nat -> bool) (has_timeout : bool) (st : mdl_state) (c : nat)
  (sort_buf : list MDL_request) : option (mdl_state * option (list ticket_ref)) :=
  let mdl_svp := mdl_savepoint st c in
  match sort_buf with
  | [] => Some (st, Some [])
  | _ =>
    if negb buf_ok then Some (st, None)
    else
      '(st, res) ← acquire_locks_loop alloc_ok has_timeout 0 st c sort_buf [];
      Some (match res with
            | Some l => (st, Some l)
            | None => (rollback_to_savepoint st c mdl_svp, None)
            end)
  end.

Definition upgrade_shared_lock (alloc_ok has_timeout : bool) (st : mdl_state) (c : nat)
  (r : ticket_ref) (new_type : enum_mdl_type) : option (mdl_state * bool) :=
  let mdl_svp := mdl_savepoint st c in
  match upgrade_request st r new_type with
  | None => Some (st, false)
  | Some req =>
    '(st, res) ← acquire_lock alloc_ok has_timeout st c req;
    Some (match res with
          | None => (st, true)
          | Some x => (upgrade_merge st c r x mdl_svp new_type, false)
          end)
  end.

(** ** Acquiring with a wait *)

(** What the wait of [c] leaves alone: the other threads neither touch the
    tickets of [c] nor what it waits for, and give it no ticket but the one
    it waits for. *)
Record undisturbed (c : nat) (st st' : mdl_state) : Prop := {
  un_inv : inv st';
  un_waits : waits_for st' c = waits_for st c;
  un_tickets : forall d, tickets_of st' c d = tickets_of st c d;
  un_own : forall k t, t_ctx t = c -> t ∈ granted_at (find_or_insert st') k ->
    t ∈ granted_at (find_or_insert st) k \/ t ∈ waiting_at (find_or_insert st) k
}.

Definition fair_wait : Prop := forall st c, inv st -> waits_for st c <> None ->
  undisturbed c st (fst (other_threads st c)) /\
  wait_over (fst (other_threads st c)) c (snd (other_threads st c)).

(** In some wait of [c] the client was found gone after the lock was granted. *)
Definition raced (c : nat) : Prop := exists st,
  waits_for (fst (other_threads st c)) c <> None /\ wslots (fst (other_threads st c)) c = GRANTED /\
  snd (other_threads st c) = TIMEOUT.

(** A ticket of [c] in state [st] and its type. *)
Definition holds (st : mdl_state) (c : nat) (d : enum_mdl_duration) (r : ticket_ref) (ty : enum_mdl_type) : Prop :=
  r ∈ tickets_of st c d /\ ticket_type st r = Some ty.

Lemma holds_iff st c d r ty : inv st -> r ∈ tickets_of st c d ->
  ticket_type st r = Some ty <-> mk_ticket (fst r) c ty ∈ granted_at (find_or_insert st) (snd r).
Proof.
  intros I Hr. destruct (held_ticket st c d r I Hr) as (t & Ht & E1 & E2 & G & _).
  unfold ticket_type. rewrite G. simpl. destruct t as [i c' ty']. simpl in *. subst i c'. split.
  - by intros [= ->].
  - intros H. pose proof (granted_unique _ _ _ (si_wf _ _ _ _ _ I (snd r)) H Ht eq_refl) as E. congruence.
Qed.

(** A state in which [c] keeps its tickets with their types. *)
Definition keeps_tickets (st st' : mdl_state) (c : nat) : Prop :=
  forall d r ty, holds st c d r ty -> holds st' c d r ty.

Lemma keeps_trans st1 st2 st3 c : keeps_tickets st1 st2 c -> keeps_tickets st2 st3 c -> keeps_tickets st1 st3 c.
Proof. unfold keeps_tickets. eauto. Qed.

Lemma keeps_by_granted st st' c : inv st -> inv st' ->
  (forall d r, r ∈ tickets_of st c d -> r ∈ tickets_of st' c d) ->
  (forall k t, t_ctx t = c -> t ∈ granted_at (find_or_insert st) k -> t ∈ granted_at (find_or_insert st') k) ->
  keeps_tickets st st' c.
Proof.
  intros I I' Ht Hg d r ty [H1 H2]. split; [auto|].
  apply (holds_iff st' c d); [done|auto|]. apply Hg; [done|]. by apply (holds_iff st c d).
Qed.

Lemma undisturbed_keeps st st' c : inv st -> undisturbed c st st' -> keeps_tickets st st' c.
Proof.
  intros I [I' Hw Ht Ho] d r ty [H1 H2]. assert (r ∈ tickets_of st' c d) as H1' by (by rewrite Ht).
  split; [done|]. destruct (held_ticket st' c d r I' H1') as (t & Hg & E1 & E2 & G & _).
  unfold ticket_type. rewrite G. simpl. f_equal.
  pose proof (proj1 (holds_iff st c d r ty I H1) H2) as K.
  destruct (Ho _ t E2 Hg) as [H|H].
  - by rewrite (granted_unique _ _ _ (si_wf _ _ _ _ _ I (snd r)) H K E1).
  - exfalso. by apply (wl_disjoint _ (si_wf _ _ _ _ _ I (snd r)) _ _ K H).
Qed.

(** What one acquisition does to the context. *)
Record acquired (st st' : mdl_state) (c : nat) (req : MDL_request) (res : option ticket_ref) : Prop := {
  ac_inv : inv st';
  ac_idle : waits_for st' c = None;
  ac_keeps : keeps_tickets st st' c;
  (* at most the new ticket is added, in front *)
  ac_tickets : (forall d, tickets_of st' c d = tickets_of st c d) \/
    exists r, res = Some r /\ r ∉ all_tickets st c /\
      (forall d, tickets_of st' c d = if decide (d = r_duration req) then r :: tickets_of st c d
                                      else tickets_of st c d);
  ac_ticket : forall r, res = Some r -> snd r = r_key req /\ exists ty,
    holds st' c (r_duration req) r ty /\ has_stronger_or_equal_type (strategy_of (r_key req)) ty (r_type req) = true
}.

Lemma push_tickets st c d r d' : tickets_of (push_front st c d r) c d' =
  if decide (d' = d) then r :: tickets_of st c d' else tickets_of st c d'.
Proof.
  unfold push_front. rewrite tickets_set. destruct (decide (d' = d)) as [->|]; [by rewrite decide_True|].
  by rewrite decide_False by naive_solver.
Qed.

Lemma add_granted_acquired st c req st' r : inv st -> waits_for st c = None ->
  admits (find_or_insert st (r_key req)) c (r_type req) ->
  add_granted st c (r_key req) (r_type req) (r_duration req) = (st', r) -> acquired st st' c req (Some r).
Proof.
  intros I Hw Ha E. pose proof (add_granted_inv st c _ _ (r_duration req) I Ha) as I'. rewrite E in I'.
  simpl in I'. injection E as E Er.
  assert (forall d, tickets_of st' c d = if decide (d = r_duration req) then r :: tickets_of st c d
    else tickets_of st c d) as Ht by (intros d; rewrite <- E, push_tickets, Er; done).
  assert (forall k t, t ∈ granted_at (find_or_insert st) k \/ (k = r_key req /\
     t = mk_ticket (next_id st) c (r_type req)) -> t ∈ granted_at (find_or_insert st') k) as Hg.
  { intros k t. rewrite <- E. change (granted_at (find_or_insert (push_front _ _ _ _)) k) with
      (granted_at (find_or_insert (set_lock st (r_key req) (set_granted (find_or_insert st (r_key req))
       (add_ticket (m_granted (find_or_insert st (r_key req))) (mk_ticket (next_id st) c (r_type req)))))) k).
    unfold granted_at. rewrite find_or_insert_set. destruct (decide (r_key req = k)) as [<-|Hne];
      rewrite ?fn_lookup_insert, ?fn_lookup_insert_ne by done; [|intuition congruence].
    simpl. rewrite elem_of_app, list_elem_of_singleton. tauto. }
  split.
  - done.
  - rewrite <- E. unfold push_front. rewrite waits_set_tickets. done.
  - apply keeps_by_granted; auto. intros d x Hx. rewrite Ht. case_decide; [|done]. apply elem_of_cons. by right.
  - right. exists r. split; [done|]. split; [|done]. rewrite <- Er. by apply (tickets_old _ _ _ _ _ c _ I).
  - intros x [= <-]. rewrite <- Er at 1. split; [done|]. exists (r_type req). split; [|apply stronger_refl].
    assert (r ∈ tickets_of st' c (r_duration req)) as Hr
      by (rewrite Ht, decide_True by done; apply elem_of_cons; by left).
    split; [done|]. apply (holds_iff st' c (r_duration req)); [done|done|]. rewrite <- Er. apply Hg. auto.
Qed.

Lemma acquired_same st c req res : inv st -> waits_for st c = None ->
  (forall r, res = Some r -> snd r = r_key req /\ exists ty, holds st c (r_duration req) r ty /\
     has_stronger_or_equal_type (strategy_of (r_key req)) ty (r_type req) = true) ->
  acquired st st c req res.
Proof. intros I Hw H. split; auto. by intros d r ty. Qed.

(** Attempts that do not succeed have no effect. *)
Lemma try_acquired ok st c req st' att : inv st -> waits_for st c = None ->
  try_acquire_lock_impl ok st c req = (st', att) ->
  match att with ATT_ticket r => acquired st st' c req (Some r) | _ => st' = st end.
Proof.
  intros I Hw. unfold try_acquire_lock_impl. destruct (find_ticket st c req) as [[r d]|] eqn:F.
  - apply find_ticket_spec in F as (Hr & Hk & t & Ht & Eid & Ec & Hs); [|done].
    destruct (negb _ || _) eqn:Cl.
    + unfold clone_ticket. destruct ok; cbn [negb]; [|by intros [= <- <-]].
      destruct (add_granted _ _ _ _ _) as [st1 r1] eqn:A. intros [= <- <-]. rewrite Hk in A.
      apply add_granted_acquired; auto. rewrite <- Ec.
      apply stronger_admits; [apply I|done|]. by rewrite (si_strategy _ _ _ _ _ I).
    + intros [= <- <-]. apply orb_false_iff in Cl as [Cl _].
      apply negb_false_iff, bool_decide_eq_true in Cl as ->.
      apply acquired_same; [done|done|]. intros x [= <-]. split; [done|]. exists (t_type t).
      split; [|done]. split; [done|]. apply (holds_iff st c (r_duration req)); [done|done|].
      rewrite Hk, <- Eid, <- Ec. by destruct t.
  - destruct ok; cbn [negb]; [|by intros [= <- <-]].
    destruct (can_grant_lock _ _ _ _) eqn:G; [|by intros [= <- <-]].
    destruct (add_granted _ _ _ _ _) as [st1 r1] eqn:A. intros [= <- <-].
    apply add_granted_acquired; auto. by eapply can_grant_admits; [apply I|].
Qed.

(** The state in which the wait begins. *)
Lemma begin_wait_spec ok tm st c req st1 r nt : inv st -> waits_for st c = None ->
  acquire_lock_begin ok tm st c req = (st1, BEG_wait r nt) ->
  r = (next_id st, r_key req) /\ inv st1 /\ waits_for st1 c = Some r /\
  (forall d, tickets_of st1 c d = tickets_of st c d) /\
  (forall k, granted_at (find_or_insert st1) k = granted_at (find_or_insert st) k) /\
  (forall k t, t ∈ waiting_at (find_or_insert st1) k -> t ∈ waiting_at (find_or_insert st) k \/
     t = mk_ticket (next_id st) c (r_type req)).
Proof.
  intros I Hw E. pose proof (acquire_begin_inv ok tm st c req I Hw) as I1. rewrite E in I1. simpl in I1.
  unfold acquire_lock_begin in E. destruct (try_acquire_lock_impl ok st c req) as [st0 [|x|]] eqn:T; try done.
  apply try_acquired in T; [|done|done]. subst st0. injection E as E Er _. split; [done|]. split; [done|].
  split; [rewrite <- E, waits_set, fn_lookup_insert; by rewrite Er|]. split.
  { intros d. rewrite <- E. unfold tickets_of, will_wait_for, set_ctx. simpl. by rewrite fn_lookup_insert. }
  assert (forall k, find_or_insert st1 k = <[r_key req := set_waiting (find_or_insert st (r_key req))
    (add_ticket (m_waiting (find_or_insert st (r_key req))) (mk_ticket (next_id st) c (r_type req)))]>
    (find_or_insert st) k) as EL by (intros k; rewrite <- find_or_insert_set, <- E; done).
  unfold granted_at, waiting_at. split.
  - intros k. rewrite EL. destruct (decide (r_key req = k)) as [<-|];
      by rewrite ?fn_lookup_insert, ?fn_lookup_insert_ne.
  - intros k t. rewrite EL. destruct (decide (r_key req = k)) as [<-|];
      rewrite ?fn_lookup_insert, ?fn_lookup_insert_ne by done; [|auto].
    simpl. by rewrite elem_of_app, list_elem_of_singleton.
Qed.

Lemma put_rescheduled_granted st k lk lk' w' k' t : wf_lock lk -> m_strategy lk = strategy_of k ->
  (if is_empty lk then (None, wslots st)
   else let '(lk, w) := reschedule_waiters mx lk (wslots st) in (Some lk, w)) = (lk', w') ->
  t ∈ granted_at (<[k := lk]> (find_or_insert st)) k' ->
  t ∈ granted_at (find_or_insert (put_lock (set_wslots st w') k lk lk')) k'.
Proof.
  intros Hwf Hs H Ht. unfold granted_at in *.
  destruct (put_lock_eq (set_wslots st w') k lk lk' k') as (-> & _).
  { intros ->. destruct (is_empty lk); [done|]. by destruct (reschedule_waiters _ _ _). }
  destruct (decide (k = k')) as [<-|Hne]; [|by rewrite fn_lookup_insert_ne in *].
  rewrite fn_lookup_insert in *. destruct (is_empty lk); [by injection H as <- <-|].
  destruct (reschedule_waiters mx lk (wslots st)) as [lk1 w1] eqn:R. injection H as <- <-.
  apply reschedule_pass in R; [|done]. apply R. by left.
Qed.

(** A wait in vain leaves [c] with the tickets it had. *)
Lemma finish_failed st c r d ws st' b : inv st -> waits_for st c = Some r -> ws <> GRANTED ->
  acquire_lock_finish st c r d ws = Some (st', b) ->
  b = true /\ (forall d', tickets_of st' c d' = tickets_of st c d') /\ waits_for st' c = None /\
  (forall k t, t ∈ granted_at (find_or_insert st) k -> t ∈ granted_at (find_or_insert st') k).
Proof.
  intros I Hw Hne E. assert (wslots st c <> GRANTED) as Hng by (intros K; apply (finish_corrupts st c r d ws) in K; congruence).
  destruct (waited_ticket _ _ _ _ _ c r I Hw Hng) as (t & Ht & Er & Ec).
  rewrite (finish_waiting st c r d ws t) in E by done. cbn zeta in E.
  unfold lock_remove_waiting in E. destruct (if is_empty _ then _ else _) as [lk' w'] eqn:El. injection E as <- <-.
  set (lk1 := set_waiting (find_or_insert st (snd r)) _) in *. set (st1 := will_wait_for st c None) in *.
  pose proof (put_lock_rest (set_wslots st1 w') (snd r) lk1 lk') as (R1 & R2 & R3).
  split; [done|]. split; [|split].
  - intros d'. rewrite tickets_put. unfold tickets_of, st1, will_wait_for, set_ctx. simpl.
    by rewrite fn_lookup_insert.
  - unfold waits_for. rewrite R1. by pose proof (waits_set st c None c) as K; rewrite fn_lookup_insert in K.
  - intros k x Hx. apply (put_rescheduled_granted st1); auto.
    + by apply wf_remove_waiting; [apply I|].
    + apply (si_strategy _ _ _ _ _ I).
    + rewrite granted_at_insert. case_decide as D; [by subst k|done].
Qed.

Lemma finish_granted_spec st c r d st' b : inv st -> waits_for st c = Some r -> wslots st c = GRANTED ->
  acquire_lock_finish st c r d GRANTED = Some (st', b) ->
  b = false /\ inv st' /\ waits_for st' c = None /\
  (forall d', tickets_of st' c d' = if decide (d' = d) then r :: tickets_of st c d' else tickets_of st c d') /\
  (forall k, granted_at (find_or_insert st') k = granted_at (find_or_insert st) k).
Proof.
  intros I Hw Hs E. assert (wait_over st c GRANTED) as Ho by (by left).
  pose proof (finish_inv st c r d GRANTED st' b I Hw Ho E) as I'.
  unfold acquire_lock_finish in E. rewrite decide_True in E by done. injection E as E <-.
  split; [done|]. split; [done|]. rewrite <- E. split; [|split].
  - unfold push_front. rewrite waits_set_tickets, waits_set. by rewrite fn_lookup_insert.
  - intros d'. rewrite push_tickets. unfold tickets_of, will_wait_for, set_ctx. simpl. by rewrite fn_lookup_insert.
  - done.
Qed.

Lemma acquire_lock_acquired ok tm st c req : fair_wait -> inv st -> waits_for st c = None ->
  match acquire_lock ok tm st c req with
  | Some (st', res) => acquired st st' c req res
  | None => raced c
  end.
Proof.
  intros Hfair I Hw. unfold acquire_lock.
  destruct (acquire_lock_begin ok tm st c req) as [st1 [|x|r nt]] eqn:B.
  1,2: unfold acquire_lock_begin in B; destruct (try_acquire_lock_impl ok st c req) as [st0 [|y|]] eqn:T;
    try done; apply try_acquired in T; auto; injection B as <-.
  { subst. by apply acquired_same. }
  { by subst. }
  apply begin_wait_spec in B as (Er & I1 & W1 & T1 & G1 & WT1); [|done|done].
  destruct (Hfair st1 c I1) as [U O]; [congruence|]. pose proof (eq_refl (other_threads st1 c)) as Eo.
  destruct (other_threads st1 c) as [st2 ws] eqn:Eot. cbn [fst snd] in U, O. clear Eo.
  pose proof (undisturbed_keeps st1 st2 c I1 U) as K12. destruct U as [I2 W2 T2 O2]. rewrite W1 in W2.
  assert (keeps_tickets st st1 c) as K01.
  { apply keeps_by_granted; auto; [intros d x; by rewrite T1|]. intros k t _. by rewrite G1. }
  destruct (acquire_lock_finish st2 c r (r_duration req) ws) as [[st3 b]|] eqn:F; cbn [mbind option_bind].
  2:{ assert (ws <> GRANTED) as Hne by (intros ->; unfold acquire_lock_finish in F; by rewrite decide_True in F).
      apply finish_corrupts in F; [|done..]. exists st1. rewrite Eot. cbn [fst snd]. split; [congruence|]. split; [done|].
      destruct O as [[O _]|O]; [congruence|done]. }
  destruct (decide (ws = GRANTED)) as [->|Hne].
  - apply wait_over_granted in O.
    apply finish_granted_spec in F as (-> & I3 & W3 & T3 & G3); [|done|done|done].
    assert (forall d, tickets_of st3 c d = if decide (d = r_duration req) then r :: tickets_of st c d
      else tickets_of st c d) as T03 by (intros d; rewrite T3, T2, T1; done).
    split; [done|done| | |].
    + apply (keeps_trans _ st1); [done|]. apply (keeps_trans _ st2); [done|].
      apply keeps_by_granted; auto; [|intros k t _; by rewrite G3].
      intros d x Hx. rewrite T3. case_decide; [|done]. apply elem_of_cons. by right.
    + right. exists r. split; [done|]. split; [|done]. rewrite Er. by apply (tickets_old _ _ _ _ _ c _ I).
    + intros x [= <-]. split; [by rewrite Er|]. exists (r_type req). split; [|apply stronger_refl].
      assert (r ∈ tickets_of st3 c (r_duration req)) as Hr
        by (rewrite T3, decide_True by done; apply elem_of_cons; by left).
      split; [done|]. destruct (held_ticket st3 c _ r I3 Hr) as (t & Ht & E1 & E2 & Gt & _).
      unfold ticket_type. rewrite Gt. simpl. f_equal. rewrite G3 in Ht.
      assert (t_id t = next_id st) as Eid by (by rewrite E1, Er).
      assert (~ (t ∈ granted_at (find_or_insert st) (snd r) \/ t ∈ waiting_at (find_or_insert st) (snd r))) as Hold.
      { intros K. apply (si_ids _ _ _ _ _ I) in K. lia. }
      destruct (O2 (snd r) t E2 Ht) as [K|K]; [rewrite G1 in K; tauto|].
      apply WT1 in K as [K| ->]; [tauto|done].
  - pose proof (finish_inv st2 c r (r_duration req) ws st3 b I2 W2 O F) as I3.
    apply finish_failed in F as (-> & T3 & W3 & G3); [|done|done|done].
    split; [done|done| |left|done].
    + apply (keeps_trans _ st1); [done|]. apply (keeps_trans _ st2); [done|].
      apply keeps_by_granted; auto. intros d x Hx. by rewrite T3.
    + intros d. by rewrite T3, T2, T1.
Qed.

(** Lists that grew at the front. *)
Definition extends (st st' : mdl_state) (c : nat) : Prop :=
  forall d, exists l, tickets_of st' c d = l ++ tickets_of st c d.

Lemma acquired_extends st st' c req res : acquired st st' c req res -> extends st st' c.
Proof.
  intros [_ _ _ [H|(r & _ & _ & H)] _] d; rewrite H; [by exists []|].
  case_decide; [by exists [r]|by exists []].
Qed.

Lemma acquired_explicit st st' c req res : acquired st st' c req res -> r_duration req <> MDL_EXPLICIT ->
  tickets_of st' c MDL_EXPLICIT = tickets_of st c MDL_EXPLICIT.
Proof. intros [_ _ _ [H|(r & _ & _ & H)] _] Hd; rewrite H; [done|]. by rewrite decide_False by congruence. Qed.

(** [r] is a ticket that satisfies [req]. *)
Definition serves (st : mdl_state) (c : nat) (req : MDL_request) (r : ticket_ref) : Prop :=
  snd r = r_key req /\ exists ty, holds st c (r_duration req) r ty /\
    has_stronger_or_equal_type (strategy_of (r_key req)) ty (r_type req) = true.

Lemma serves_keeps st st' c req r : keeps_tickets st st' c -> serves st c req r -> serves st' c req r.
Proof. intros K (E & ty & H & S). split; [done|]. exists ty. auto. Qed.

Lemma extends_trans st1 st2 st3 c : extends st1 st2 c -> extends st2 st3 c -> extends st1 st3 c.
Proof.
  intros X Y d. destruct (X d) as [l1 E1]. destruct (Y d) as [l2 E2]. exists (l2 ++ l1). by rewrite E2, E1, app_assoc.
Qed.

(** What the requests up to a failure do to the context. *)
Record grown (st st' : mdl_state) (c : nat) (reqs : list MDL_request) : Prop := {
  gr_inv : inv st';
  gr_idle : waits_for st' c = None;
  gr_extends : extends st st' c;
  gr_keeps : keeps_tickets st st' c;
  gr_explicit : Forall (fun req => r_duration req <> MDL_EXPLICIT) reqs ->
    tickets_of st' c MDL_EXPLICIT = tickets_of st c MDL_EXPLICIT
}.

Lemma acquire_locks_loop_spec oks tm c reqs : fair_wait -> forall i st acc done0, inv st -> waits_for st c = None ->
  Forall2 (serves st c) done0 (rev acc) ->
  match acquire_locks_loop oks tm i st c reqs acc with
  | Some (st', res) => grown st st' c reqs /\ forall l, res = Some l -> Forall2 (serves st' c) (done0 ++ reqs) l
  | None => raced c
  end.
Proof.
  intros Hfair. induction reqs as [|req reqs IH]; intros i st acc done0 I Hw Hacc; simpl.
  { split; [split; auto; [by intros d; exists []|by intros d r ty]|]. intros l [= <-]. by rewrite app_nil_r. }
  pose proof (acquire_lock_acquired (oks i) tm st c req Hfair I Hw) as A.
  destruct (acquire_lock (oks i) tm st c req) as [[st1 [r|]]|]; cbn [mbind option_bind]; [| |done].
  - specialize (IH (S i) st1 (r :: acc) (done0 ++ [req]) (ac_inv _ _ _ _ _ A) (ac_idle _ _ _ _ _ A)).
    destruct (acquire_locks_loop oks tm (S i) st1 c reqs (r :: acc)) as [[st' res]|]; [|apply IH].
    + destruct IH as [[B1 B2 B3 B4 B5] B6].
      * simpl. apply Forall2_app; [|constructor; [by apply (ac_ticket _ _ _ _ _ A)|constructor]].
        eapply list.Forall2_impl; [exact Hacc|]. intros x y. apply serves_keeps, A.
      * split; [split; auto|intros l Hl; specialize (B6 l Hl); by rewrite <- app_assoc in B6].
        -- eapply extends_trans; [by eapply acquired_extends|done].
        -- eapply keeps_trans; [apply A|done].
        -- intros [Hd1 Hd]%list.Forall_cons. rewrite B5 by done. by eapply acquired_explicit.
    + simpl. apply Forall2_app; [|constructor; [by apply (ac_ticket _ _ _ _ _ A)|constructor]].
      eapply list.Forall2_impl; [exact Hacc|]. intros x y. apply serves_keeps, A.
  - split; [|done]. split; try apply A; [by eapply acquired_extends|].
    intros [Hd1 Hd]%list.Forall_cons. by eapply acquired_explicit.
Qed.

(** Releasing a ticket leaves the others granted, with their types. *)
Lemma release_holds st c d r d' x ty : inv st -> r ∈ tickets_of st c d -> holds st c d' x ty -> x <> r ->
  holds (release_lock st c d r) c d' x ty.
Proof.
  intros I Hr Hx Hne. pose proof (release_inv st c d r I Hr) as I'.
  assert (x ∈ tickets_of (release_lock st c d r) c d') as Hx'.
  { rewrite release_tickets by done. destruct Hx as [Hx _]. case_decide as E; [subst d'|done]. by apply list_elem_of_filter. }
  split; [done|]. apply (holds_iff _ c d'); [done|done|]. pose proof (proj1 (holds_iff st c d' x ty I (proj1 Hx)) (proj2 Hx)) as Hg.
  destruct (held_ticket st c d r I Hr) as (t & Ht & E1 & E2 & G & Lk). unfold release_lock. rewrite Lk, G.
  unfold lock_remove_granted. destruct (if is_empty _ then _ else _) as [lk' w'] eqn:E.
  pose proof (inv_remove_granted _ _ _ _ _ c r t I (proj2 (elem_of_all st c r) (ex_intro _ d Hr)) Ht E1) as J.
  set (lk1 := set_granted _ _) in *. 
  change (mk_ticket (fst x) c ty ∈ granted_at (find_or_insert (put_lock (set_wslots st w') (snd r) lk1 lk')) (snd x)).
  apply put_rescheduled_granted; [|apply (si_strategy _ _ _ _ _ I)|done|].
  - pose proof (si_wf _ _ _ _ _ J (snd r)) as W. by rewrite fn_lookup_insert in W.
  - rewrite granted_at_insert. case_decide as D; [|done]. unfold lk1. simpl. rewrite m_list_remove_ticket.
    apply elem_of_remove_id. split; [|by rewrite D]. simpl. rewrite E1. intros K. apply Hne. destruct x, r; simpl in *. congruence.
Qed.

Lemma release_all_holds c d l d' x ty : forall st, inv st -> NoDup l -> (forall r, r ∈ l -> r ∈ tickets_of st c d) ->
  holds st c d' x ty -> x ∉ l -> holds (fold_left (fun st r => release_lock st c d r) l st) c d' x ty.
Proof.
  induction l as [|r l IH]; intros st I Hn Hin Hx Hnot; simpl; [done|].
  apply list.NoDup_cons in Hn as [Hr Hn]. apply not_elem_of_cons in Hnot as [Hne Hnot].
  assert (r ∈ tickets_of st c d) as Hrd by (apply Hin, elem_of_cons; by left).
  apply IH; [by apply release_inv|done| |by apply release_holds|done].
  intros y Hy. rewrite release_tickets, decide_True by done. apply list_elem_of_filter.
  split; [by intros ->|]. apply Hin, elem_of_cons. by right.
Qed.

Lemma release_before_holds st c d s d' x ty : inv st -> holds st c d' x ty -> x ∉ stored_before s (tickets_of st c d) ->
  holds (release_locks_stored_before st c d s) c d' x ty.
Proof.
  intros I Hx Hnot. destruct (stored_before_prefix s (tickets_of st c d)) as [l2 E].
  pose proof (nodup_duration st c d I) as Hn. apply release_all_holds; [done| | |done|done].
  - rewrite E in Hn. by apply list.NoDup_app in Hn as [Hn _].
  - intros r Hr. rewrite E. apply elem_of_app. by left.
Qed.

Lemma rollback_restores st0 st c : inv st -> extends st0 st c -> keeps_tickets st0 st c ->
  let st' := rollback_to_savepoint st c (mdl_savepoint st0 c) in
  inv st' /\ (forall d, d <> MDL_EXPLICIT -> tickets_of st' c d = tickets_of st0 c d) /\
  tickets_of st' c MDL_EXPLICIT = tickets_of st c MDL_EXPLICIT /\ keeps_tickets st0 st' c.
Proof.
  intros I X K. destruct (X MDL_STATEMENT) as [n1 E1]. destruct (X MDL_TRANSACTION) as [n2 E2]. destruct (X MDL_EXPLICIT) as [n3 E3].
  pose proof (nodup_duration st c MDL_STATEMENT I) as N1. rewrite E1 in N1.
  pose proof (nodup_duration st c MDL_TRANSACTION I) as N2. rewrite E2 in N2.
  cbv zeta. unfold rollback_to_savepoint, mdl_savepoint. cbn [fst snd].
  destruct (release_before_spec st c MDL_STATEMENT (head (tickets_of st0 c MDL_STATEMENT))
    (tickets_of st0 c MDL_STATEMENT)) as (A1 & A2 & A3 & _); [done|by rewrite E1, stored_before_app|].
  set (st1 := release_locks_stored_before st c MDL_STATEMENT _) in *.
  destruct (release_before_spec st1 c MDL_TRANSACTION (head (tickets_of st0 c MDL_TRANSACTION))
    (tickets_of st0 c MDL_TRANSACTION)) as (B1 & B2 & B3 & _);
    [done|rewrite A3 by done; by rewrite E2, stored_before_app|].
  split; [done|]. split; [intros [] Hd; rewrite ?B2, ?B3, ?A2, ?A3 by done; done|]. split; [by rewrite B3, A3|].
  intros d x ty Hx. assert (x ∉ n1 ++ n2) as Hnew.
  { intros Hin. pose proof (inv_nodup st c I) as N. unfold all_tickets in N. rewrite E1, E2 in N.
    apply (nodup_new_parts _ _ _ _ _ x N Hin). rewrite E3, !elem_of_app. destruct Hx as [Hx _]. destruct d; tauto. }
  rewrite not_elem_of_app in Hnew. destruct Hnew as [Hn1 Hn2].
  apply release_before_holds; [done| |rewrite A3, E2, stored_before_app by done; done].
  apply release_before_holds; [done|by apply K|by rewrite E1, stored_before_app].
Qed.

(** C28: [acquire_locks] is all or nothing, whichever allocation fails and
    whatever the other threads do while it waits, if they leave the tickets of
    this context and what it waits for alone ([undisturbed]): it either gives a ticket for
    every request, strong enough and held by the context, or leaves the context
    with the tickets it had and no others (but for requests of explicit
    duration, which the rollback does not look at); what the context had keeps
    its type.  Only when a client is found gone just after its lock was granted
    are the lists corrupted instead. *)
Theorem acquire_locks_all_or_nothing buf_ok oks tm st c reqs : fair_wait -> inv st -> waits_for st c = None ->
  match acquire_locks buf_ok oks tm st c reqs with
  | Some (st', res) =>
      inv st' /\ keeps_tickets st st' c /\
      match res with
      | Some l => Forall2 (serves st' c) reqs l
      | None => forall d, d <> MDL_EXPLICIT \/ Forall (fun req => r_duration req <> MDL_EXPLICIT) reqs ->
                tickets_of st' c d = tickets_of st c d
      end
  | None => raced c
  end.
Proof.
  intros Hfair I Hw. unfold acquire_locks. destruct reqs as [|req reqs].
  { split; [done|]. split; [by intros d r ty|by constructor]. }
  destruct buf_ok; cbn [negb]; [|split; [done|]; split; [by intros d r ty|done]].
  pose proof (acquire_locks_loop_spec oks tm c (req :: reqs) Hfair 0 st [] [] I Hw) as L.
  destruct (acquire_locks_loop oks tm 0 st c (req :: reqs) []) as [[st1 [l|]]|]; cbn [mbind option_bind];
    specialize (L ltac:(constructor)); [| |done]; destruct L as [[A B C D E] F].
  - split; [done|]. split; [done|]. by apply F.
  - destruct (rollback_restores st st1 c A C D) as (R1 & R2 & R3 & R4). split; [done|]. split; [done|].
    intros d Hd. destruct (decide (d = MDL_EXPLICIT)) as [->|Hn]; [|by apply R2].
    destruct Hd as [Hd|Hd]; [done|]. by rewrite R3, E.
Qed.

Lemma has_lock_old st c x : x ∈ tickets_of st c MDL_TRANSACTION -> forall st',
  (forall d, tickets_of st' c d = tickets_of st c d) -> has_lock st' c (mdl_savepoint st c) x = true.
Proof.
  intros Hx st' E. unfold has_lock, mdl_savepoint. cbn [fst snd]. rewrite !E.
  assert (forall l : list ticket_ref, stored_before (head l) l = []) as S
    by (intros [|y l]; simpl; [done|by rewrite decide_True]).
  rewrite !S, !bool_decide_eq_false_2 by apply not_elem_of_nil. done.
Qed.

Lemma has_lock_new st c x st' : inv st' -> x ∉ tickets_of st c MDL_TRANSACTION ->
  tickets_of st' c MDL_TRANSACTION = x :: tickets_of st c MDL_TRANSACTION ->
  has_lock st' c (mdl_savepoint st c) x = false.
Proof.
  intros I Hx E. unfold has_lock, mdl_savepoint. cbn [fst snd]. apply andb_false_iff. right.
  pose proof (nodup_duration st' c MDL_TRANSACTION I) as N. rewrite E in N |- *.
  rewrite (stored_before_app [x]) by done. rewrite bool_decide_eq_true_2; [done|].
  by apply list_elem_of_singleton.
Qed.

(** Merging gives [r] its new type and drops a new [x]. *)
Lemma merge_spec st c d r x sp new_type : inv st -> mergeable st c d r x new_type ->
  let st' := upgrade_merge st c r x sp new_type in
  ticket_type st' r = Some new_type /\
  forall d', tickets_of st' c d' = if negb (has_lock st c sp x) && bool_decide (d' = MDL_TRANSACTION)
    then filter (fun y => y <> x) (tickets_of st c d') else tickets_of st c d'.
Proof.
  intros I M. pose proof (merge_inv st c d r x sp new_type I M) as I'.
  destruct M as (Hr & Hx & Ek & Hne & _). cbv zeta.
  destruct (held_ticket st c d r I Hr) as (t & Ht & E1 & E2 & G & Lk).
  destruct (held_ticket st c _ x I Hx) as (xt & Hxt & E3 & E4 & Gx & _).
  assert (forall d', tickets_of (upgrade_merge st c r x sp new_type) c d' =
    if negb (has_lock st c sp x) && bool_decide (d' = MDL_TRANSACTION)
    then filter (fun y => y <> x) (tickets_of st c d') else tickets_of st c d') as HT.
  { intros d'. unfold upgrade_merge. rewrite Lk, G, Gx. destruct (has_lock st c sp x); cbn [negb]; [done|].
    unfold remove_ref. rewrite tickets_set. case_bool_decide as B; [subst; by rewrite decide_True|].
    by rewrite decide_False by naive_solver. }
  split; [|done].
  assert (r ∈ tickets_of (upgrade_merge st c r x sp new_type) c d) as Hr'.
  { rewrite HT. destruct (negb _ && _); [|done]. apply list_elem_of_filter. done. }
  apply (holds_iff _ c d); [done|done|]. unfold upgrade_merge. rewrite Lk, G, Gx.
  set (lk1 := if negb _ then set_granted _ _ else _).
  assert (granted_at (find_or_insert (set_lock st (snd r) (retype_granted lk1 t new_type))) (snd r) =
    m_list (m_granted (retype_granted lk1 t new_type))) as Eg
    by (unfold granted_at; rewrite find_or_insert_set, fn_lookup_insert; done).
  assert (mk_ticket (fst r) c new_type ∈ m_list (m_granted (retype_granted lk1 t new_type))) as Hin.
  { simpl. apply elem_of_app. right. apply list_elem_of_singleton. congruence. }
  destruct (negb _); [|by rewrite Eg].
  change (granted_at (find_or_insert (remove_ref ?s ?c0 ?d0 ?y)) ?k0) with (granted_at (find_or_insert s) k0).
  by rewrite Eg.
Qed.

(** The other tickets keep their types. *)
Lemma merge_keeps st c d r x sp new_type d' y ty : inv st -> mergeable st c d r x new_type ->
  holds st c d' y ty -> y <> r -> (has_lock st c sp x = false -> y <> x) ->
  holds (upgrade_merge st c r x sp new_type) c d' y ty.
Proof.
  intros I M Hy Hr' Hx'. pose proof (merge_inv st c d r x sp new_type I M) as I'.
  destruct (merge_spec st c d r x sp new_type I M) as [_ HT]. destruct M as (Hr & Hx & Ek & Hne & _).
  assert (y ∈ tickets_of (upgrade_merge st c r x sp new_type) c d') as Hin.
  { rewrite HT. destruct (has_lock st c sp x); cbn [negb andb]; [apply Hy|].
    case_bool_decide; [apply list_elem_of_filter; split; [by apply Hx'|]|]; apply Hy. }
  split; [done|]. apply (holds_iff _ c d'); [done|done|].
  pose proof (proj1 (holds_iff st c d' y ty I (proj1 Hy)) (proj2 Hy)) as Hg.
  destruct (held_ticket st c d r I Hr) as (t & Ht & E1 & E2 & G & Lk).
  destruct (held_ticket st c _ x I Hx) as (xt & Hxt & E3 & E4 & Gx & _).
  unfold upgrade_merge. rewrite Lk, G, Gx. set (L := find_or_insert st) in *.
  assert (forall lk, (snd y = snd r -> mk_ticket (fst y) c ty ∈ m_list (m_granted lk)) ->
    mk_ticket (fst y) c ty ∈ granted_at (find_or_insert (set_lock st (snd r) (retype_granted lk t new_type))) (snd y)) as Hset.
  { intros lk Hlk. unfold granted_at. rewrite find_or_insert_set.
    destruct (decide (snd r = snd y)) as [E|E]; [|by rewrite fn_lookup_insert_ne].
    rewrite <- E, fn_lookup_insert. simpl. apply elem_of_app. left. rewrite m_list_remove_ticket.
    apply elem_of_remove_id. split; [|by apply Hlk]. simpl. rewrite E1. intros K. apply Hr'. destruct y, r; simpl in *. congruence. }
  destruct (has_lock st c sp x); cbn [negb].
  - apply Hset. intros <-. exact Hg.
  - change (mk_ticket (fst y) c ty ∈ granted_at (find_or_insert (set_lock st (snd r)
      (retype_granted (set_granted (L (snd r)) (remove_ticket (m_granted (L (snd r))) xt)) t new_type))) (snd y)).
    apply Hset. intros E. simpl. rewrite m_list_remove_ticket. apply elem_of_remove_id. rewrite E in Hg.
    split; [|exact Hg]. simpl. rewrite E3. intros K. apply (Hx' eq_refl). destruct x, y; simpl in *. congruence.
Qed.

(** C29: while the other threads leave the tickets of this context and what it
    waits for alone ([undisturbed]), upgrading a lock either fails and leaves the context with the same
    tickets, [r] with its type, or gives [r] a type at least as strong as asked
    for; the context has the same tickets as before, and those other than [r]
    have the same types.  Only when the client is found gone just after the
    lock was granted are the lists corrupted instead. *)
Theorem upgrade_shared_lock_correct ok tm st c d r ty new_type : fair_wait -> inv st ->
  waits_for st c = None -> holds st c d r ty ->
  match upgrade_shared_lock ok tm st c r new_type with
  | Some (st', failed) =>
      inv st' /\ (forall d', tickets_of st' c d' = tickets_of st c d') /\
      (forall d' x ty', x <> r -> holds st c d' x ty' -> holds st' c d' x ty') /\
      exists ty', ticket_type st' r = Some ty' /\
        if failed : bool then ty' = ty
        else has_stronger_or_equal_type (strategy_of (snd r)) ty' new_type = true
  | None => raced c
  end.
Proof.
  intros Hfair I Hw Hr. unfold upgrade_shared_lock, upgrade_request. rewrite (proj2 Hr).
  destruct (has_stronger_or_equal_type _ ty new_type) eqn:S.
  { split; [done|]. split; [done|]. split; [done|]. exists ty. split; [apply Hr|done]. }
  set (req := mk_request (snd r) new_type MDL_TRANSACTION).
  pose proof (acquire_lock_acquired ok tm st c req Hfair I Hw) as A.
  destruct (acquire_lock ok tm st c req) as [[st1 [x|]]|]; cbn [mbind option_bind]; [| |done];
    pose proof A as [A1 A2 A3 A4 A5].
  - destruct (A5 x eq_refl) as (Ek & tx & Hx & Sx). simpl in Ek, Sx.
    assert (mergeable st1 c d r x new_type) as M.
    { destruct (A3 d r ty Hr) as [H1 H2]. split; [done|]. split; [apply Hx|]. split; [done|].
      split; [|exists tx; split; [apply Hx|done]].
      intros ->. destruct Hx as [_ Hx]. congruence. }
    destruct (merge_spec st1 c d r x (mdl_savepoint st c) new_type A1 M) as [M1 M2].
    split; [by apply (merge_inv st1 c d)|]. split; [|split; [|exists new_type; split; [done|apply stronger_refl]]].
    + intros d'. rewrite M2. destruct A4 as [A4|(y & [= <-] & Hy & A4)].
      * rewrite has_lock_old; [by rewrite A4| |done]. rewrite <- A4. apply Hx.
      * simpl in A4. rewrite has_lock_new; [|done| |by rewrite A4].
        -- cbn [negb andb]. rewrite A4. case_bool_decide as B; [|by rewrite decide_False].
           rewrite decide_True by done. rewrite filter_cons_False by auto. apply filter_absent.
           intros K. apply Hy, elem_of_all. eauto.
        -- intros K. apply Hy, elem_of_all. eauto.
    + intros d' y ty' Hne Hy. apply (merge_keeps st1 c d); auto. intros Hnew ->.
      destruct A4 as [A4|(z & [= <-] & Hz & _)]; [|apply Hz, elem_of_all; exists d'; apply Hy].
      rewrite has_lock_old in Hnew; [done| |done]. rewrite <- A4. apply Hx.
  - destruct A4 as [A4|(y & [=] & _)]. split; [done|]. split; [done|]. split; [intros d' y ty' _; apply A3|].
    exists ty. split; [|done]. by apply (A3 d r ty Hr).
Qed.

End Waiting.

End Operations.

(** ** Keys *)

Definition c_string (s : list Z) : Prop := (length s <= NAME_LEN)%nat /\ Forall (fun b => b <> 0) s.

Lemma c_string_split s s' x x' : c_string s -> c_string s' -> s ++ 0 :: x = s' ++ 0 :: x' -> s = s' /\ x = x'.
Proof.
  intros [_ H] [_ H']. revert s' H'. induction s as [|b s IH]; intros [|b' s'] H' E; simpl in *.
  - by injection E.
  - injection E as <- _. by apply list.Forall_cons in H' as [H' _].
  - injection E as -> _. by apply list.Forall_cons in H as [H _].
  - injection E as <- E. apply list.Forall_cons in H as [_ H]. apply list.Forall_cons in H' as [_ H'].
    destruct (IH H s' H' E) as [-> ->]. done.
Qed.

Lemma mdl_key_init_eq ns db name : c_string db -> c_string name ->
  mdl_key_init ns db name = namespace_val ns :: db ++ 0 :: name ++ [0].
Proof. intros [H1 _] [H2 _]. unfold mdl_key_init. by rewrite !take_ge. Qed.

Lemma mdl_key_init_inj ns db name ns' db' name' tl tl' : c_string db -> c_string name -> c_string db' -> c_string name' ->
  mdl_key_init ns db name ++ tl = mdl_key_init ns' db' name' ++ tl' ->
  ns = ns' /\ db = db' /\ name = name' /\ tl = tl'.
Proof.
  intros H1 H2 H3 H4. rewrite !mdl_key_init_eq by done. simpl. intros E.
  injection E as E1 E2. rewrite <- !app_assoc in E2. simpl in E2. rewrite <- !app_assoc in E2.
  apply c_string_split in E2 as [-> E2]; [|done|done].
  apply c_string_split in E2 as [-> E2]; [|done|done].
  split; [by destruct ns, ns'|done].
Qed.

(** Keys name objects: two names (at most NAME_LEN bytes, no zero byte)
    have equal keys only when namespace, database and name are equal, and
    [cmp], which compares as many bytes as the shorter key has, tells all
    different keys apart. *)
Theorem mdl_key_identifies ns db name ns' db' name' :
  c_string db -> c_string name -> c_string db' -> c_string name' ->
  (key_is_equal (mdl_key_init ns db name) (mdl_key_init ns' db' name') = true <->
   ns = ns' /\ db = db' /\ name = name') /\
  (key_cmp (mdl_key_init ns db name) (mdl_key_init ns' db' name') = 0 <->
   ns = ns' /\ db = db' /\ name = name').
Proof.
  intros H1 H2 H3 H4. set (a := mdl_key_init ns db name). set (b := mdl_key_init ns' db' name').
  assert (ns = ns' /\ db = db' /\ name = name' -> a = b) as Heq by (intros (-> & -> & ->); done).
  split.
  - unfold key_is_equal. rewrite bool_decide_eq_true. split; [|done]. intros E.
    destruct (mdl_key_init_inj ns db name ns' db' name' [] [] H1 H2 H3 H4) as (? & ? & ? & _); [|done].
    by rewrite !app_nil_r.
  - split; [|intros E; rewrite (Heq E); unfold key_cmp; by rewrite Nat.min_id, memcmp_refl].
    intros E. unfold key_cmp in E. apply memcmp_zero in E as [E|E]; [|lia].
    destruct (Nat.le_ge_cases (length a) (length b)) as [L|L].
    + rewrite Nat.min_l, firstn_all in E by done.
      destruct (mdl_key_init_inj ns db name ns' db' name' (drop (length a) b) [] H1 H2 H3 H4) as (? & ? & ? & _); [|done].
      fold a b. rewrite E, app_nil_r at 1. apply take_drop.
    + rewrite Nat.min_r, firstn_all in E by done.
      destruct (mdl_key_init_inj ns db name ns' db' name' [] (drop (length b) a) H1 H2 H3 H4) as (? & ? & ? & _); [|done].
      fold a b. rewrite app_nil_r, <- (take_drop (length b) a) at 1. by rewrite E.
Qed.

(** ** Examples *)

Module Examples.

Definition t1 : MDL_key := mdl_key_init NS_TABLE [100] [116; 49].
Definition t2 : MDL_key := mdl_key_init NS_TABLE [100] [116; 50].
Definition want (k : MDL_key) (ty : enum_mdl_type) : MDL_request := mk_request k ty MDL_TRANSACTION.
Definition fresh (_ : MDL_key) : Z := 0.

Definition try_ (c : nat) (r : MDL_request) (st : mdl_state) : mdl_state :=
  fst (try_acquire_lock fresh true st c r).
Definition begin_ (c : nat) (r : MDL_request) (st : mdl_state) : mdl_state :=
  fst (acquire_lock_begin fresh true true st c r).
Definition end_ (c : nat) (r : ticket_ref) (ws : enum_wait_status) (st : mdl_state) : mdl_state :=
  from_option fst st (acquire_lock_finish 10 st c r MDL_TRANSACTION ws).
Definition release_ (c : nat) (r : ticket_ref) (st : mdl_state) : mdl_state :=
  release_lock 10 st c MDL_TRANSACTION r.

(** Two readers of one table; the second can be upgraded by nobody. *)
Definition readers : mdl_state :=
  try_ 2 (want t1 MDL_SHARED_READ) (try_ 1 (want t1 MDL_SHARED_UPGRADABLE) mdl_init).

Lemma readers_reachable : rtc (mdl_step 10 fresh) (Some mdl_init) (Some readers).
Proof.
  eapply rtc_l; [exact (step_try_acquire 10 fresh mdl_init true 1 (want t1 MDL_SHARED_UPGRADABLE) eq_refl)|].
  eapply rtc_l; [refine (step_try_acquire 10 fresh _ true 2 (want t1 MDL_SHARED_READ) _); vm_compute; reflexivity|].
  apply rtc_refl.
Qed.

Lemma mdl_mutual_exclusion_witness :
  exists ty1 ty2, ticket_type readers (0%nat, t1) = Some ty1 /\ ticket_type readers (1%nat, t1) = Some ty2 /\
    is_incompatible_when_granted (strategy_of t1) ty1 ty2 = false.
Proof.
  apply (mdl_mutual_exclusion 10 fresh readers 1 2 (0%nat, t1) (1%nat, t1)).
  - exact readers_reachable.
  - lia.
  - apply (bool_decide_unpack _). vm_compute. exact I.
  - apply (bool_decide_unpack _). vm_compute. exact I.
  - reflexivity.
Defined.

Lemma mdl_no_lost_ticket_witness :
  rtc (mdl_step 10 fresh) (Some mdl_init) (Some readers) /\
  (forall k t, t ∈ granted_at (find_or_insert fresh readers) k ->
     ref_of t k ∈ all_tickets readers (t_ctx t) \/
     (waits_for readers (t_ctx t) = Some (ref_of t k) /\ wslots readers (t_ctx t) = GRANTED)).
Proof. split; [exact readers_reachable|apply (mdl_no_lost_ticket 10 fresh), readers_reachable]. Defined.

Lemma readers_inv : inv fresh readers.
Proof. apply (reachable_inv 10 fresh), readers_reachable. Qed.

Lemma rollback_to_savepoint_correct_witness :
  inv fresh (rollback_to_savepoint 10 readers 1 (mdl_savepoint mdl_init 1)) /\
  granted_ticket (rollback_to_savepoint 10 readers 1 (mdl_savepoint mdl_init 1)) (0%nat, t1) = None.
Proof.
  destruct (rollback_to_savepoint_correct 10 fresh mdl_init readers 1 [] [(0%nat, t1)] readers_inv
    eq_refl eq_refl) as (A & _ & _ & _ & B & _).
  split; [exact A|]. apply B. apply list_elem_of_singleton. reflexivity.
Defined.

Lemma durations_keep_tickets_witness :
  inv fresh (set_explicit_duration_for_all_locks readers 1) /\
  tickets_of (set_transaction_duration_for_all_locks readers 1) 1 MDL_TRANSACTION ≡ₚ all_tickets readers 1.
Proof.
  destruct (durations_keep_tickets fresh readers 1 readers_inv) as [(A & _ & _) B].
  split; [exact A|]. apply B. vm_compute. reflexivity.
Defined.

(** Other threads that do nothing until the wait times out. *)
Definition idle_threads (st : mdl_state) (c : nat) : mdl_state * enum_wait_status :=
  (st, if decide (wslots st c = EMPTY) then TIMEOUT else wslots st c).

Lemma idle_fair : fair_wait fresh idle_threads.
Proof.
  intros st c Hi _. split.
  - split; auto.
  - unfold wait_over, idle_threads. cbn [fst snd]. destruct (decide (wslots st c = EMPTY)); auto.
Qed.

(** One upgrade waits in vain for the reader. *)
Definition upgraded : option (mdl_state * bool) :=
  upgrade_shared_lock 10 fresh idle_threads true true readers 1 (0%nat, t1) MDL_EXCLUSIVE.

Lemma upgrade_shared_lock_correct_witness :
  from_option (fun '(st', failed) => failed = true /\ inv fresh st' /\
    ticket_type st' (0%nat, t1) = Some MDL_SHARED_UPGRADABLE) False upgraded.
Proof.
  pose proof (upgrade_shared_lock_correct 10 fresh idle_threads true true readers 1 MDL_TRANSACTION
    (0%nat, t1) MDL_SHARED_UPGRADABLE MDL_EXCLUSIVE idle_fair readers_inv) as H. fold upgraded in H.
  assert (is_Some upgraded /\ from_option snd false upgraded = true) as [[[st' failed] E] Ef]
    by (split; [apply (bool_decide_unpack _); vm_compute; exact I|vm_compute; reflexivity]).
  rewrite E in H, Ef |- *. cbn in Ef. subst failed. destruct H as (A & _ & _ & ty & B & C).
  - vm_compute. reflexivity.
  - split; [apply (bool_decide_unpack _); vm_compute; exact I|vm_compute; reflexivity].
  - split; [done|]. split; [exact A|]. by rewrite B, C.
Defined.

(** Context 1 gets both tables: it is alone on [t2] and compatible on [t1].
    When the second allocation fails it keeps what it had. *)
Definition both : list MDL_request := [want t1 MDL_SHARED_READ; want t2 MDL_EXCLUSIVE].
Definition got (oks : nat -> bool) : option (mdl_state * option (list ticket_ref)) :=
  acquire_locks 10 fresh idle_threads true oks true readers 1 both.

Lemma acquire_locks_all_or_nothing_witness :
  from_option (fun '(st', res) => res = Some [(0%nat, t1); (2%nat, t2)] /\
    Forall2 (serves st' 1) both [(0%nat, t1); (2%nat, t2)]) False (got (fun _ => true)) /\
  from_option (fun '(st', res) => res = None /\ tickets_of st' 1 MDL_TRANSACTION = [(0%nat, t1)]) False
    (got (fun i => (i <? 1)%nat)).
Proof.
  split.
  - pose proof (acquire_locks_all_or_nothing 10 fresh idle_threads true (fun _ => true) true readers 1 both idle_fair readers_inv) as H.
    fold (got (fun _ => true)) in H.
    assert (snd <$> got (fun _ => true) = Some (Some [(0%nat, t1); (2%nat, t2)])) as E by (vm_compute; reflexivity).
    destruct (got (fun _ => true)) as [[st' res]|]; [|discriminate E]. injection E as ->. cbn.
    destruct H as (_ & _ & H); [vm_compute; reflexivity|]. split; [reflexivity|exact H].
  - vm_compute. split; reflexivity.
Defined.

Lemma mdl_key_identifies_witness :
  key_cmp t1 t2 <> 0 /\ key_is_equal t1 t1 = true.
Proof.
  assert (forall b, c_string [116; b] <-> b <> 0) as H.
  { intros b. unfold c_string, NAME_LEN. simpl. split; [intros [_ K]|intros K].
    - apply list.Forall_cons in K as [_ K]. by apply list.Forall_cons in K as [K _].
    - split; [lia|]. repeat constructor; lia. }
  assert (c_string [100]) as D by (split; [unfold NAME_LEN; simpl; lia|repeat constructor; lia]).
  split.
  - rewrite (proj2 (mdl_key_identifies NS_TABLE [100] [116; 49] NS_TABLE [100] [116; 50] D
      (proj2 (H 49) ltac:(lia)) D (proj2 (H 50) ltac:(lia)))).
    intros (_ & _ & E). discriminate.
  - apply (proj2 (proj1 (mdl_key_identifies NS_TABLE [100] [116; 49] NS_TABLE [100] [116; 49] D
      (proj2 (H 49) ltac:(lia)) D (proj2 (H 49) ltac:(lia))))). done.
Defined.

(** ** A race in [acquire_lock] *)

(** Context 1 holds X, context 2 waits for SR. *)
Definition waiting_reader : mdl_state :=
  begin_ 2 (want t1 MDL_SHARED_READ) (try_ 1 (want t1 MDL_EXCLUSIVE) mdl_init).

(** When the client of a waiting context is gone, [acquire_lock] takes the
    status TIMEOUT without closing the slot.  If the lock is released before
    the ticket is removed, the ticket has moved to the granted list, and
    [m_waiting.remove_ticket] unlinks it from a list it is not in: corrupt lists
    are reachable. *)
Lemma disconnect_races_with_grant :
  rtc (mdl_step 10 fresh) (Some mdl_init) (Some waiting_reader) /\
  waits_for waiting_reader 2 = Some (1%nat, t1) /\ wslots waiting_reader 2%nat = EMPTY /\
  (let st := release_ 1 (0%nat, t1) waiting_reader in
   waits_for st 2 = Some (1%nat, t1) /\ waiting_ticket st (1%nat, t1) = None /\
   granted_ticket st (1%nat, t1) = Some (mk_ticket 1 2 MDL_SHARED_READ)) /\
  rtc (mdl_step 10 fresh) (Some mdl_init) None.
Proof.
  assert (rtc (mdl_step 10 fresh) (Some mdl_init) (Some waiting_reader)) as R.
  { eapply rtc_l; [exact (step_try_acquire 10 fresh mdl_init true 1 (want t1 MDL_EXCLUSIVE) eq_refl)|].
    eapply rtc_l; [refine (step_acquire_begin 10 fresh _ true true 2 (want t1 MDL_SHARED_READ) _); vm_compute; reflexivity|].
    apply rtc_refl. }
  split; [exact R|]. split; [vm_compute; reflexivity|]. split; [vm_compute; reflexivity|]. split; [vm_compute; tauto|].
  eapply rtc_r; [eapply rtc_r; [exact R|]|].
  - refine (step_release 10 fresh _ 1 MDL_TRANSACTION (0%nat, t1) _). apply (bool_decide_unpack _). vm_compute. exact I.
  - refine (step_acquire_finish 10 fresh _ 2 (1%nat, t1) MDL_TRANSACTION TIMEOUT _ _); [vm_compute; reflexivity|by right].
Qed.

(** ** The priority counter of a recycled lock *)

(** A strong lock is granted while a weak request waits, the weak request
    times out, the strong lock is released. *)
Definition hogged : mdl_state :=
  let st := try_ 0 (want t1 MDL_SHARED_READ) mdl_init in
  let st := begin_ 1 (want t1 MDL_EXCLUSIVE) st in
  let st := begin_ 2 (want t1 MDL_SHARED_WRITE) st in
  let st := release_ 0 (0%nat, t1) st in
  let st := end_ 1 (1%nat, t1) GRANTED st in
  let st := set_wslots st (snd (timed_wait_end (wslots st) 2 false true)) in
  release_ 1 (1%nat, t1) st.

Lemma hogged_reachable : rtc (mdl_step 10 fresh) (Some mdl_init) (Some hogged).
Proof.
  unfold hogged, try_, begin_, release_, end_. cbv zeta.
  eapply rtc_l; [exact (step_try_acquire 10 fresh mdl_init true 0 (want t1 MDL_SHARED_READ) eq_refl)|].
  eapply rtc_l; [refine (step_acquire_begin 10 fresh _ true true 1 (want t1 MDL_EXCLUSIVE) _); vm_compute; reflexivity|].
  eapply rtc_l; [refine (step_acquire_begin 10 fresh _ true true 2 (want t1 MDL_SHARED_WRITE) _); vm_compute; reflexivity|].
  eapply rtc_l.
  { refine (step_release 10 fresh _ 0 MDL_TRANSACTION (0%nat, t1) _).
    apply (bool_decide_unpack _). vm_compute. exact I. }
  eapply rtc_l.
  { refine (step_acquire_finish 10 fresh _ 1 (1%nat, t1) MDL_TRANSACTION GRANTED _ _); [vm_compute; reflexivity|].
    left. split; [vm_compute; reflexivity|discriminate]. }
  eapply rtc_l; [exact (step_wait_end 10 fresh _ 2 false true)|].
  eapply rtc_l.
  { refine (step_release 10 fresh _ 1 MDL_TRANSACTION (1%nat, t1) _).
    apply (bool_decide_unpack _). vm_compute. exact I. }
  apply rtc_refl.
Qed.

(** The lock object goes back to the allocator with a non-zero count, and
    [lf_hash_initializer] does not reset it. *)
Lemma hog_count_survives :
  rtc (mdl_step 10 fresh) (Some mdl_init) (Some hogged) /\
  m_hog_lock_count (find_or_insert fresh hogged t1) = 1 /\
  locks (end_ 2 (2%nat, t1) TIMEOUT hogged) !! t1 = None.
Proof. split; [exact hogged_reachable|]. split; vm_compute; reflexivity. Qed.

End Examples.
