(* ===== verification/MdlDeadlock.v ===== *)
(** * Metadata locks: the deadlock detector ([Deadlock_detection_visitor],
    [MDL_lock::visit_subgraph], [MDL_context::visit_subgraph] and
    [MDL_context::find_deadlock] of [sql/mdl.cc])

    A search runs on one snapshot of the system.  It descends from the waiting
    context along the edges of the wait-for graph, at most MAX_SEARCH_DEPTH
    nodes deep, which bounds the recursion: the fuel MAX_SEARCH_DEPTH that
    [find_deadlock] passes is never used up ([visit_fuel]). *)
From S2P Require Import Prelude MdlLock MdlContext.
From Stdlib Require Import ZArith Lia List Bool.
From stdpp Require Import base tactics list functions gmap option.
Open Scope Z_scope.

(** ** The visitor *)

Record visitor := mk_visitor {
  m_start_node : nat;
  m_victim : option nat;
  m_current_search_depth : nat;
  m_found_deadlock : bool
}.

Definition MAX_SEARCH_DEPTH : nat := 32.

Definition new_visitor (start : nat) : visitor := mk_visitor start None 0 false.

Definition DEADLOCK_WEIGHT_DML : Z := 0.
Definition DEADLOCK_WEIGHT_DDL : Z := 100.

(** The ticket behind [m_waiting_for], which may have been granted already. *)
Definition pending_ticket (st : mdl_state) (r : ticket_ref) : option MDL_ticket :=
  match waiting_ticket st r with Some t => Some t | None => granted_ticket st r end.

Definition ticket_weight (k : MDL_key) (ty : enum_mdl_type) : Z :=
  if (mdl_namespace k =? namespace_val NS_GLOBAL) || (type_val ty >=? type_val MDL_SHARED_UPGRADABLE)
  then DEADLOCK_WEIGHT_DDL else DEADLOCK_WEIGHT_DML.

(** Only called for contexts that wait. *)
Definition get_deadlock_weight (st : mdl_state) (c : nat) : Z :=
  match waits_for st c with
  | Some r =>
    match pending_ticket st r with
    | Some t => ticket_weight (snd r) (t_type t)
    | None => 0
    end
  | None => 0
  end.

Definition opt_change_victim_to (st : mdl_state) (v : visitor) (new_victim : nat) : visitor :=
  let change :=
    match m_victim v with
    | None => true
    | Some victim => get_deadlock_weight st victim >=? get_deadlock_weight st new_victim
    end in
  if change
  then mk_visitor (m_start_node v) (Some new_victim) (m_current_search_depth v) (m_found_deadlock v)
  else v.

Definition enter_node (st : mdl_state) (v : visitor) (node : nat) : bool * visitor :=
  let depth := S (m_current_search_depth v) in
  let found := (MAX_SEARCH_DEPTH <=? depth)%nat in
  let v := mk_visitor (m_start_node v) (m_victim v) depth found in
  (found, if found then opt_change_victim_to st v node else v).

Definition leave_node (st : mdl_state) (v : visitor) (node : nat) : visitor :=
  let v := mk_visitor (m_start_node v) (m_victim v) (pred (m_current_search_depth v))
             (m_found_deadlock v) in
  if m_found_deadlock v then opt_change_victim_to st v node else v.

Definition inspect_edge (v : visitor) (node : nat) : bool * visitor :=
  let found := (node =? m_start_node v)%nat in
  (found, mk_visitor (m_start_node v) (m_victim v) (m_current_search_depth v) found).

(** ** The search *)

(** The contexts that the waiting ticket [t] waits for, in the order of the
    lists: holders of incompatible locks, then requests it gives way to. *)
Definition blocking_contexts (lk : MDL_lock) (t : MDL_ticket) : list nat :=
  map t_ctx (filter (fun x => t_ctx x <> t_ctx t /\
    is_incompatible_when_granted (m_strategy lk) (t_type x) (t_type t) = true) (m_list (m_granted lk))) ++
  map t_ctx (filter (fun x => t_ctx x <> t_ctx t /\
    is_incompatible_when_waiting (m_strategy lk) (t_type x) (t_type t) = true) (m_list (m_waiting lk))).

Fixpoint inspect_edges (v : visitor) (edges : list nat) : bool * visitor :=
  match edges with
  | [] => (false, v)
  | c :: edges =>
    let '(found, v) := inspect_edge v c in
    if found then (true, v) else inspect_edges v edges
  end.

Fixpoint visit_all (visit : visitor -> nat -> bool * visitor) (v : visitor) (edges : list nat)
  : bool * visitor :=
  match edges with
  | [] => (false, v)
  | c :: edges =>
    let '(found, v) := visit v c in
    if found then (true, v) else visit_all visit v edges
  end.

(** [MDL_context::visit_subgraph] with [MDL_lock::visit_subgraph]. *)
Fixpoint visit_subgraph (fuel : nat) (st : mdl_state) (v : visitor) (c : nat) : bool * visitor :=
  match fuel with
  | O => (false, v)
  | S fuel =>
    match waits_for st c with
    | None => (false, v)
    | Some r =>
      match pending_ticket st r, locks st !! snd r with
      | Some t, Some lk =>
        let src_ctx := t_ctx t in
        if decide (wslots st src_ctx = EMPTY) then
          let '(full, v) := enter_node st v src_ctx in
          if full then (true, v)
          else
            let edges := blocking_contexts lk t in
            let '(found, v) := inspect_edges v edges in
            let '(found, v) :=
              if found then (true, v) else visit_all (visit_subgraph fuel st) v edges in
            (found, leave_node st v src_ctx)
        else (false, v)
      | _, _ => (false, v)
      end
    end
  end.

(** [find_deadlock] repeats the search until no deadlock is found or the
    context itself is the victim; [None] when the turns were not enough. *)
Fixpoint find_deadlock (turns : nat) (st : mdl_state) (c : nat) : option mdl_state :=
  match turns with
  | O => None
  | S turns =>
    match visit_subgraph MAX_SEARCH_DEPTH st (new_visitor c) c with
    | (false, _) => Some st
    | (true, v) =>
      match m_victim v with
      | None => None
      | Some victim =>
        let st := set_wslots st (snd (set_status (wslots st) victim VICTIM)) in
        if decide (victim = c) then Some st else find_deadlock turns st c
      end
    end
  end.

(** ** The wait-for graph *)

(** [c] waits, and nothing has been posted to it. *)
Definition active (st : mdl_state) (c : nat) (t : MDL_ticket) (lk : MDL_lock) : Prop :=
  exists r, waits_for st c = Some r /\ pending_ticket st r = Some t /\ locks st !! snd r = Some lk /\
    wslots st (t_ctx t) = EMPTY.

(** Every ticket waited for belongs to the waiting context. *)
Definition own_tickets (st : mdl_state) : Prop :=
  forall c r t, waits_for st c = Some r -> pending_ticket st r = Some t -> t_ctx t = c.

Definition waiting_node (st : mdl_state) (c : nat) : Prop := exists t lk, active st c t lk.
Definition waits_on (st : mdl_state) (a b : nat) : Prop :=
  exists t lk, active st a t lk /\ b ∈ blocking_contexts lk t.

(** A walk from one waiting context to another, with the contexts on it. *)
Inductive walk (st : mdl_state) : nat -> nat -> list nat -> Prop :=
| walk_one c : waiting_node st c -> walk st c c [c]
| walk_step a b z l : waits_on st a b -> walk st b z l -> walk st a z (a :: l).

(** A deadlock of [c]: a walk from [c] whose end waits for [c]. *)
Definition closed_walk (st : mdl_state) (c : nat) (l : list nat) : Prop :=
  exists z, walk st c z l /\ waits_on st z c.

(** ** What a search finds *)

Lemma active_fun st c t lk t' lk' : active st c t lk -> active st c t' lk' -> t = t' /\ lk = lk'.
Proof. intros (r & A1 & A2 & A3 & _) (r' & B1 & B2 & B3 & _). split; congruence. Qed.

Lemma inspect_edges_spec start d b edges :
  inspect_edges (mk_visitor start None d b) edges =
  if decide (start ∈ edges) then (true, mk_visitor start None d true)
  else (false, mk_visitor start None d (if decide (edges = []) then b else false)).
Proof.
  revert b. induction edges as [|c edges IH]; intros b; simpl; [done|].
  destruct (Nat.eqb_spec c start) as [->|Hne].
  - rewrite decide_True by (apply elem_of_cons; by left). done.
  - rewrite IH. destruct (decide (start ∈ edges)) as [H|H], (decide (start ∈ c :: edges)) as [K|K];
      rewrite elem_of_cons in K; try (by naive_solver). by destruct (decide (edges = [])).
Qed.

(** The victim is one of [l] and none of [l] is cheaper. *)
Definition cheapest (st : mdl_state) (l : list nat) (victim : option nat) : Prop :=
  exists x, victim = Some x /\ x ∈ l /\
    forall y, y ∈ l -> get_deadlock_weight st x <= get_deadlock_weight st y.

Lemma leave_node_cheapest st v c l : m_found_deadlock v = true -> cheapest st l (m_victim v) ->
  cheapest st (c :: l) (m_victim (leave_node st v c)) /\ m_found_deadlock (leave_node st v c) = true.
Proof.
  intros Hf (x & Hx & Hin & Hmin). unfold leave_node. rewrite Hf. cbn [m_found_deadlock].
  unfold opt_change_victim_to. cbn [m_victim]. rewrite Hx, Z.geb_leb.
  destruct (Z.leb_spec (get_deadlock_weight st c) (get_deadlock_weight st x)); cbn [m_victim m_found_deadlock].
  - split; [|done]. exists c. split; [done|]. split; [apply elem_of_cons; by left|].
    intros y Hy. apply elem_of_cons in Hy as [->|Hy]; [done|]. specialize (Hmin y Hy). lia.
  - split; [|done]. exists x. split; [done|]. split; [apply elem_of_cons; by right|].
    intros y Hy. apply elem_of_cons in Hy as [->|Hy]; [lia|]. by apply Hmin.
Qed.

Lemma leave_node_first st v c : m_found_deadlock v = true -> m_victim v = None ->
  cheapest st [c] (m_victim (leave_node st v c)) /\ m_found_deadlock (leave_node st v c) = true.
Proof.
  intros Hf Hv. unfold leave_node. rewrite Hf. cbn [m_found_deadlock].
  unfold opt_change_victim_to. cbn [m_victim]. rewrite Hv. cbn [m_victim m_found_deadlock]. split; [|done].
  exists c. split; [done|]. split; [by apply list_elem_of_singleton|].
  intros y Hy. apply list_elem_of_singleton in Hy as ->. done.
Qed.

(** A walk that ends the search of [start], begun [d] nodes deep: its last
    context waits for [start], or the search can go no deeper. *)
Definition stops (st : mdl_state) (start d z : nat) (l : list nat) : Prop :=
  waits_on st z start \/ (MAX_SEARCH_DEPTH <= d + length l)%nat.

(** A search from [c] finds such a walk and its cheapest context, or there is
    none and nothing changed. *)
Definition found_walk (st : mdl_state) (start d c : nat) (v : visitor) : Prop :=
  m_found_deadlock v = true /\ exists z l, walk st c z l /\ stops st start d z l /\
    (d + length l <= MAX_SEARCH_DEPTH)%nat /\ cheapest st l (m_victim v).
Definition no_walk (st : mdl_state) (start d c : nat) : Prop :=
  forall z l, walk st c z l -> ~ stops st start d z l.
Definition outcome (st : mdl_state) (start d : nat) (cs : list nat) (res : bool * visitor) : Prop :=
  if fst res then exists c, c ∈ cs /\ found_walk st start d c (snd res)
  else snd res = mk_visitor start None d false /\ forall c, c ∈ cs -> no_walk st start d c.

Lemma visit_all_outcome st start d visit edges :
  (forall c, c ∈ edges -> outcome st start d [c] (visit (mk_visitor start None d false) c)) ->
  outcome st start d edges (visit_all visit (mk_visitor start None d false) edges).
Proof.
  unfold outcome. induction edges as [|c edges IH]; intros H; cbn [visit_all].
  { cbn [fst]. split; [done|]. intros c Hc. by apply not_elem_of_nil in Hc. }
  pose proof (H c ltac:(apply elem_of_cons; by left)) as Hc.
  destruct (visit (mk_visitor start None d false) c) as [[] v1]; cbn [fst snd] in *.
  - destruct Hc as (x & Hx & F). apply list_elem_of_singleton in Hx as ->. exists c.
    split; [apply elem_of_cons; by left|done].
  - destruct Hc as [-> Hno].
    specialize (IH (fun x Hx => H x (proj2 (elem_of_cons _ _ _) (or_intror Hx)))).
    destruct (visit_all visit _ edges) as [[] v2]; cbn [fst snd] in *.
    + destruct IH as (x & Hx & O). exists x. split; [apply elem_of_cons; by right|done].
    + destruct IH as [-> IH]. split; [done|]. intros x Hx.
      apply elem_of_cons in Hx as [->|Hx]; [|by apply IH]. apply Hno. by apply list_elem_of_singleton.
Qed.

Lemma walk_waiting st a z l : walk st a z l -> waiting_node st a.
Proof. intros [c H|a' b z' l' (t & lk & H & _) _]; [done|]. by exists t, lk. Qed.

Lemma walk_length st a z l : walk st a z l -> (1 <= length l)%nat.
Proof. intros []; simpl; lia. Qed.

(** A context that does not wait ends no walk. *)
Lemma idle_no_walk st start d c : ~ waiting_node st c -> no_walk st start d c.
Proof. intros H z l Hw. by apply walk_waiting in Hw. Qed.

(** All walks from [c], by its edges. *)
Lemma no_walk_step st start d c t lk : active st c t lk -> (S d < MAX_SEARCH_DEPTH)%nat ->
  start ∉ blocking_contexts lk t -> (forall b, b ∈ blocking_contexts lk t -> no_walk st start (S d) b) ->
  no_walk st start d c.
Proof.
  intros A Hd Hs Hb z l Hw. inversion Hw as [c' Hc|a b z' l' (t' & lk' & A' & Hin) Hl]; subst.
  - intros [(t' & lk' & A' & Hin)|Hlen]; [|simpl in Hlen; lia].
    by destruct (active_fun _ _ _ _ _ _ A A') as [-> ->].
  - destruct (active_fun _ _ _ _ _ _ A A') as [<- <-]. intros [H|H].
    + by apply (Hb b Hin z l'); [|left].
    + apply (Hb b Hin z l'); [done|]. right. simpl in H. lia.
Qed.

(** The search. *)
Lemma visit_outcome st start fuel : own_tickets st -> forall d c,
  (d < MAX_SEARCH_DEPTH)%nat -> (MAX_SEARCH_DEPTH <= d + fuel)%nat ->
  outcome st start d [c] (visit_subgraph fuel st (mk_visitor start None d false) c).
Proof.
  intros Hown. induction fuel as [|fuel IH]; intros d c Hd Hf; [lia|]. cbn [visit_subgraph].
  assert (~ waiting_node st c -> outcome st start d [c] (false, mk_visitor start None d false)) as Hidle.
  { intros H. split; [done|]. intros x Hx. apply list_elem_of_singleton in Hx as ->. by apply idle_no_walk. }
  destruct (waits_for st c) as [r|] eqn:Ew; [|apply Hidle; intros (t & lk & r & A & _); congruence].
  destruct (pending_ticket st r) as [t|] eqn:Et; [|apply Hidle; intros (t & lk & r' & A & B & _); congruence].
  destruct (locks st !! snd r) as [lk|] eqn:El;
    [|apply Hidle; intros (t' & lk & r' & A & _ & B & _); congruence].
  pose proof (Hown c r t Ew Et) as Ec. rewrite Ec.
  destruct (decide (wslots st c = EMPTY)) as [Es|Es];
    [|apply Hidle; intros (t' & lk' & r' & A & B & _ & C); rewrite A in Ew; injection Ew as ->;
      rewrite B in Et; injection Et as ->; congruence].
  assert (active st c t lk) as A by (exists r; rewrite Ec; done).
  unfold enter_node. cbn [m_current_search_depth m_start_node m_victim].
  destruct (Nat.leb_spec MAX_SEARCH_DEPTH (S d)) as [Hfull|Hmore].
  { exists c. split; [by apply list_elem_of_singleton|]. split; [done|]. exists c, [c]. simpl.
    split; [constructor; by exists t, lk|]. split; [right; simpl; lia|]. split; [lia|].
    exists c. split; [done|]. split; [by apply list_elem_of_singleton|].
    intros y Hy. apply list_elem_of_singleton in Hy as ->. done. }
  rewrite inspect_edges_spec. destruct (decide (start ∈ blocking_contexts lk t)) as [Hin|Hout].
  { cbn [fst snd]. exists c. split; [by apply list_elem_of_singleton|].
    destruct (leave_node_first st (mk_visitor start None (S d) true) c eq_refl eq_refl) as [L1 L2].
    split; [done|]. exists c, [c]. simpl. split; [constructor; by exists t, lk|].
    split; [left; by exists t, lk|]. split; [lia|done]. }
  replace (if decide (blocking_contexts lk t = []) then false else false) with false by (by case_decide).
  pose proof (visit_all_outcome st start (S d) (visit_subgraph fuel st) (blocking_contexts lk t)
    (fun b _ => IH (S d) b ltac:(lia) ltac:(lia))) as O.
  destruct (visit_all _ _ _) as [[] v2]; unfold outcome in O |- *; cbn [fst snd] in *.
  - destruct O as (b & Hb & Hfd & z & l & Hl & Hst & Hlen & Hch). exists c.
    split; [by apply list_elem_of_singleton|].
    destruct (leave_node_cheapest st v2 c l Hfd Hch) as [L1 L2]. split; [done|]. exists z, (c :: l).
    split; [apply (walk_step _ _ b); [by exists t, lk|done]|]. simpl.
    split; [destruct Hst as [Hst|Hst]; [by left|right; simpl; lia]|]. split; [lia|done].
  - destruct O as [-> O]. split; [done|]. intros x Hx. apply list_elem_of_singleton in Hx as ->.
    by apply (no_walk_step st start d c t lk).
Qed.

(** In a consistent state the ticket waited for is one's own. *)
Lemma inv_own_tickets recycled_hog st : inv recycled_hog st -> own_tickets st.
Proof.
  intros I c r t Hw Ht. unfold pending_ticket in Ht.
  destruct (si_wait _ _ _ _ _ I c r Hw) as (t' & E1 & E2 & H). rewrite <- E2. f_equal.
  assert (t_id t' = fst r) as Eid by (by rewrite <- E1).
  destruct (waiting_ticket st r) as [x|] eqn:Wt.
  - injection Ht as ->. apply (waiting_ticket_spec recycled_hog) in Wt as [W1 W2]; [|done].
    destruct H as [H|[H _]].
    + apply (nodup_map_inj t_id (waiting_at (find_or_insert recycled_hog st) (snd r))); auto; [|congruence].
      apply (wl_waiting _ (si_wf _ _ _ _ _ I (snd r))).
    + exfalso. apply (wl_disjoint _ (si_wf _ _ _ _ _ I (snd r)) t' t H W1). congruence.
  - apply (granted_ticket_spec recycled_hog) in Ht as [G1 G2]; [|done]. destruct H as [H|[H _]].
    + exfalso. assert (waiting_ticket st r = Some t') as K
        by (by apply (waiting_ticket_spec recycled_hog)). congruence.
    + apply (granted_unique _ _ _ (si_wf _ _ _ _ _ I (snd r)) G1 H). congruence.
Qed.

Lemma visit_spec st c : own_tickets st ->
  let res := visit_subgraph MAX_SEARCH_DEPTH st (new_visitor c) c in
  (fst res = true <-> (exists l, closed_walk st c l) \/
     exists z l, walk st c z l /\ (MAX_SEARCH_DEPTH <= length l)%nat) /\
  (fst res = true -> exists l, (closed_walk st c l \/ exists z, walk st c z l /\ length l = MAX_SEARCH_DEPTH) /\
     cheapest st l (m_victim (snd res))).
Proof.
  intros Hown. pose proof (visit_outcome st c MAX_SEARCH_DEPTH Hown 0 c) as O.
  specialize (O ltac:(unfold MAX_SEARCH_DEPTH; lia) ltac:(lia)). cbv zeta. fold (new_visitor c) in O.
  destruct (visit_subgraph _ _ _ _) as [[] v]; unfold outcome, found_walk in O; cbn [fst snd] in *.
  - destruct O as (c' & Hc & _ & z & l & Hw & Hst & Hlen & Hch). apply list_elem_of_singleton in Hc as ->.
    destruct Hst as [Hst|Hst].
    + split; [split; [|done]|].
      * intros _. left. exists l, z. done.
      * intros _. exists l. split; [left; by exists z|done].
    + split; [split; [|done]|].
      * intros _. right. exists z, l. done.
      * intros _. exists l. split; [right; exists z; split; [done|lia]|done].
  - destruct O as [_ O]. specialize (O c ltac:(by apply list_elem_of_singleton)).
    split; [|done]. split; [done|]. intros [(l & z & Hw & Hz)|(z & l & Hw & Hl)]; exfalso; apply (O z l Hw).
    + by left.
    + by right.
Qed.

(** C6: The search reports a deadlock exactly when the context is on a cycle
    of the wait-for graph, or when a chain of MAX_SEARCH_DEPTH waiting
    contexts starts from it; the victim is on that cycle or chain and no
    context on it weighs less. *)
Theorem deadlock_search_correct st c : own_tickets st ->
  let res := visit_subgraph MAX_SEARCH_DEPTH st (new_visitor c) c in
  (fst res = true <-> (exists l, closed_walk st c l) \/
     exists z l, walk st c z l /\ (MAX_SEARCH_DEPTH <= length l)%nat) /\
  (fst res = true -> exists l, (closed_walk st c l \/ exists z, walk st c z l /\ length l = MAX_SEARCH_DEPTH) /\
     cheapest st l (m_victim (snd res))).
Proof. apply visit_spec. Qed.

(** ** Resolution *)

Lemma walk_nodes st a z l x : walk st a z l -> x ∈ l -> waiting_node st x.
Proof.
  intros H. induction H as [c Hc|a b z l (t & lk & A & _) Hw IH]; intros Hx.
  - by apply list_elem_of_singleton in Hx as ->.
  - apply elem_of_cons in Hx as [->|Hx]; [by exists t, lk|by apply IH].
Qed.

Lemma waiting_node_slot st x : own_tickets st -> waiting_node st x -> wslots st x = EMPTY /\ waits_for st x <> None.
Proof.
  intros Hown (t & lk & r & A1 & A2 & _ & A4). rewrite (Hown x r t A1 A2) in A4. split; [done|]. congruence.
Qed.

Lemma own_tickets_slots st w : own_tickets st -> own_tickets (set_wslots st w).
Proof. intros H c r t. apply H. Qed.

(** The contexts that could still be chosen. *)
Definition candidates (st : mdl_state) (cs : list nat) : list nat := filter (fun x => wslots st x = EMPTY) cs.

Lemma candidates_decrease st cs x v : x ∈ cs -> wslots st x = EMPTY -> v <> EMPTY ->
  (length (candidates (set_wslots st (<[x := v]> (wslots st))) cs) < length (candidates st cs))%nat.
Proof.
  intros Hx Hs Hv. unfold candidates. cbn [wslots set_wslots].
  assert (forall l, (length (filter (fun y => (<[x := v]> (wslots st) : slots) y = EMPTY) l) <=
    length (filter (fun y => wslots st y = EMPTY) l))%nat) as Hle.
  { induction l as [|y l IH]; [done|]. rewrite !filter_cons.
    destruct (decide (x = y)) as [<-|Hne].
    - rewrite slot_set, decide_False by done. case_decide; simpl; lia.
    - rewrite slot_set_ne by done. case_decide; simpl; lia. }
  induction cs as [|y cs IH]; [by apply not_elem_of_nil in Hx|]. rewrite !filter_cons.
  destruct (decide (x = y)) as [<-|Hne].
  - rewrite slot_set, decide_False by done. rewrite decide_True by done. simpl. specialize (Hle cs). lia.
  - apply elem_of_cons in Hx as [Hx|Hx]; [done|]. rewrite slot_set_ne by done.
    case_decide; simpl; specialize (IH Hx); lia.
Qed.

Lemma find_deadlock_result st c cs turns : own_tickets st ->
  (forall x, waits_for st x <> None -> x ∈ cs) -> (length (candidates st cs) < turns)%nat ->
  exists st', find_deadlock turns st c = Some st' /\
    (wslots st' c = VICTIM \/ forall l, ~ closed_walk st' c l).
Proof.
  intros Hown Hcs Hf. revert st Hown Hcs Hf. induction turns as [|turns IH]; intros st Hown Hcs Hf; [lia|].
  cbn [find_deadlock]. pose proof (visit_spec st c Hown) as [D1 D2]. cbv zeta in D1, D2.
  destruct (visit_subgraph _ _ _ _) as [[] v]; cbn [fst snd] in *.
  2:{ exists st. split; [done|]. right. intros l Hl. assert (false = true); [|done]. apply D1. left. by exists l. }
  destruct (D2 eq_refl) as (l & Hl & x & -> & Hx & _).
  assert (waiting_node st x) as Hn by (destruct Hl as [(z & Hw & _)|(z & Hw & _)]; by eapply walk_nodes).
  destruct (waiting_node_slot st x Hown Hn) as [Hs Hwx].
  unfold set_status. rewrite (decide_True (P := wslots st x = EMPTY)) by done. cbn [snd]. destruct (decide (x = c)) as [->|Hne].
  - eexists. split; [done|]. left. cbn [wslots set_wslots]. apply slot_set.
  - apply IH; [by apply own_tickets_slots|done|].
    pose proof (candidates_decrease st cs x VICTIM (Hcs x Hwx) Hs ltac:(done)). lia.
Qed.

(** The resolution is a sequence of posts. *)
Lemma find_deadlock_steps mx rh st c turns st' : find_deadlock turns st c = Some st' -> rtc (mdl_step mx rh) (Some st) (Some st').
Proof.
  revert st. induction turns as [|turns IH]; intros st; [done|]. cbn [find_deadlock].
  destruct (visit_subgraph _ _ _ _) as [[] v]; [|intros [= <-]; apply rtc_refl].
  destruct (m_victim v) as [x|]; [|done].
  assert (mdl_step mx rh (Some st) (Some (set_wslots st (snd (set_status (wslots st) x VICTIM))))) as S by (by apply step_post).
  destruct (decide (x = c)); [intros [= <-]; by apply rtc_once|].
  intros H. eapply rtc_l; [exact S|]. by apply IH.
Qed.

(** C22: In every reachable state [find_deadlock] comes to an end, whatever
    the number of cycles, and when it does its context is the victim or is on
    no cycle any more; the resulting state is again reachable. *)
Theorem find_deadlock_resolves mx rh st c cs : rtc (mdl_step mx rh) (Some mdl_init) (Some st) ->
  (forall x, waits_for st x <> None -> x ∈ cs) ->
  exists st', find_deadlock (S (length cs)) st c = Some st' /\
    (wslots st' c = VICTIM \/ forall l, ~ closed_walk st' c l) /\
    rtc (mdl_step mx rh) (Some mdl_init) (Some st').
Proof.
  intros R Hcs. pose proof (inv_own_tickets rh st (reachable_inv mx rh st R)) as Hown.
  destruct (find_deadlock_result st c cs (S (length cs)) Hown Hcs) as (st' & F & H).
  { unfold candidates. pose proof (length_filter (fun x => wslots st x = EMPTY) cs). lia. }
  exists st'. split; [done|]. split; [done|]. etrans; [exact R|].
  by eapply find_deadlock_steps.
Qed.

(** More fuel than MAX_SEARCH_DEPTH changes nothing. *)
Lemma visit_fuel st c fuel : own_tickets st -> (MAX_SEARCH_DEPTH <= fuel)%nat ->
  fst (visit_subgraph fuel st (new_visitor c) c) =
  fst (visit_subgraph MAX_SEARCH_DEPTH st (new_visitor c) c).
Proof.
  intros Hown Hf.
  pose proof (visit_outcome st c fuel Hown 0 c ltac:(unfold MAX_SEARCH_DEPTH; lia) Hf) as O1.
  pose proof (visit_outcome st c MAX_SEARCH_DEPTH Hown 0 c ltac:(unfold MAX_SEARCH_DEPTH; lia) ltac:(lia)) as O2.
  fold (new_visitor c) in O1, O2. unfold outcome, found_walk, no_walk in O1, O2.
  destruct (visit_subgraph fuel _ _ _) as [[] v1], (visit_subgraph MAX_SEARCH_DEPTH _ _ _) as [[] v2];
    cbn [fst snd] in *; try done; exfalso.
  - destruct O1 as (x & Hx & _ & z & l & Hw & Hs & _). destruct O2 as [_ O2]. by apply (O2 x Hx z l).
  - destruct O2 as (x & Hx & _ & z & l & Hw & Hs & _). destruct O1 as [_ O1]. by apply (O1 x Hx z l).
Qed.

(** ** An example *)

Module Deadlocked.
Import Examples.

(** Contexts 1 and 2 each hold a table and wait for the other's. *)
Definition crossed : mdl_state :=
  begin_ 2 (want t1 MDL_SHARED_WRITE)
    (begin_ 1 (want t2 MDL_EXCLUSIVE)
      (try_ 2 (want t2 MDL_SHARED_READ) (try_ 1 (want t1 MDL_EXCLUSIVE) mdl_init))).

Lemma crossed_reachable : rtc (mdl_step 10 fresh) (Some mdl_init) (Some crossed).
Proof.
  eapply rtc_l; [exact (step_try_acquire 10 fresh mdl_init true 1 (want t1 MDL_EXCLUSIVE) eq_refl)|].
  eapply rtc_l; [refine (step_try_acquire 10 fresh _ true 2 (want t2 MDL_SHARED_READ) _); vm_compute; reflexivity|].
  eapply rtc_l; [refine (step_acquire_begin 10 fresh _ true true 1 (want t2 MDL_EXCLUSIVE) _); vm_compute; reflexivity|].
  eapply rtc_l; [refine (step_acquire_begin 10 fresh _ true true 2 (want t1 MDL_SHARED_WRITE) _); vm_compute; reflexivity|].
  apply rtc_refl.
Qed.

Lemma crossed_waiters x : waits_for crossed x <> None -> x ∈ [1%nat; 2%nat].
Proof.
  intros H. destruct x as [|[|[|x]]]; [| by apply (bool_decide_unpack _) | by apply (bool_decide_unpack _) |];
    exfalso; apply H; vm_compute; reflexivity.
Qed.

Lemma deadlock_search_correct_witness :
  own_tickets crossed /\ exists l, closed_walk crossed 2 l \/ exists z, walk crossed 2 z l /\ length l = MAX_SEARCH_DEPTH.
Proof.
  assert (own_tickets crossed) as Hown
    by (apply (inv_own_tickets fresh), (reachable_inv 10 fresh), crossed_reachable).
  split; [exact Hown|]. destruct (deadlock_search_correct crossed 2 Hown) as [_ D].
  destruct (D ltac:(vm_compute; reflexivity)) as (l & Hl & _). exists l. exact Hl.
Defined.

Lemma find_deadlock_resolves_witness :
  exists st', find_deadlock 3 crossed 2 = Some st' /\
    (wslots st' 2%nat = VICTIM \/ forall l, ~ closed_walk st' 2 l) /\
    rtc (mdl_step 10 fresh) (Some mdl_init) (Some st').
Proof.
  apply (find_deadlock_resolves 10 fresh crossed 2 [1%nat; 2%nat]).
  - exact crossed_reachable.
  - exact crossed_waiters.
Defined.

(** The writer is the victim: it weighs less than the request for X. *)
Lemma crossed_victim : m_victim (snd (visit_subgraph MAX_SEARCH_DEPTH crossed (new_visitor 1) 1)) = Some 2%nat.
Proof. vm_compute. reflexivity. Qed.

End Deadlocked.
