(* ===== verification/Gtid.v ===== *)
(** * Global transaction ids: text form and ordering

    A GTID is a triple domain_id-server_id-seq_no (sql/rpl_gtid.h).  This file
    models the conversion of GTIDs and comma-separated GTID lists to and from
    text (sql/rpl_gtid.cc: [rpl_slave_state_tostring_helper],
    [gtid_parser_helper], [gtid_parse_string_to_list]) on top of the number
    conversions of StrNum, and states the interface of the two containers of
    mysys that the GTID code walks through: the enumeration of a [HASH] and
    [sort_dynamic]. *)
From Stdlib Require Import ZArith Lia List Bool.
From stdpp Require Import base tactics list gmap sorting.
From S2P Require Import Prelude StrNum.

Open Scope Z_scope.

(** ** GTIDs *)

Record rpl_gtid := mk_gtid { domain_id : Z; server_id : Z; seq_no : Z }.

#[export] Instance rpl_gtid_eq_dec : EqDecision rpl_gtid.
Proof. solve_decision. Defined.

(** The widths of the struct's members. *)
Definition is_gtid (g : rpl_gtid) : Prop :=
  is_u32 (domain_id g) /\ is_u32 (server_id g) /\ is_u64 (seq_no g).

(** ** Containers

    [my_hash_element(&hash, i)] for [i] from 0 to [records - 1] goes through
    the records of a hash, keyed here by a number, in an order the hash
    chooses.  [sort_dynamic] orders an array by a comparison function; records
    that compare equal come out in an order it chooses. *)

Definition rpl_gtid_cmp_cb (id1 id2 : rpl_gtid) : Z :=
  let d1 := domain_id id1 in
  let d2 := domain_id id2 in
  if d1 <? d2 then -1 else if d1 >? d2 then 1 else 0.

Definition cmp_le (g1 g2 : rpl_gtid) : Prop := rpl_gtid_cmp_cb g1 g2 <= 0.

Class Containers := {
  hash_elements : forall {A}, gmap Z A -> list A;
  hash_elements_perm : forall {A} (m : gmap Z A), hash_elements m ≡ₚ (map_to_list m).*2;
  sort_dynamic : list rpl_gtid -> list rpl_gtid;
  sort_dynamic_perm : forall l, sort_dynamic l ≡ₚ l;
  sort_dynamic_sorted : forall l, Sorted cmp_le (sort_dynamic l)
}.

(** ** GTIDs to text *)

Definition chr_comma : Z := 44.
Definition chr_newline : Z := 10.

(** [String::append_ulonglong]. *)
Definition append_ulonglong (dest : list Z) (val : Z) : list Z :=
  dest ++ longlong10_to_str (s64 val) 10.

Definition rpl_slave_state_tostring_helper (dest : list Z) (gtid : rpl_gtid) (first : bool)
  : list Z * bool :=
  let dest := if first then dest else dest ++ [chr_comma] in
  let dest := append_ulonglong dest (domain_id gtid) in
  let dest := dest ++ [chr_minus] in
  let dest := append_ulonglong dest (server_id gtid) in
  let dest := dest ++ [chr_minus] in
  (append_ulonglong dest (seq_no gtid), false).

(** The loop that prints the elements of an array. *)
Fixpoint tostring_loop (str : list Z) (first : bool) (gtids : list rpl_gtid) : list Z :=
  match gtids with
  | [] => str
  | gtid :: rest =>
      let '(str, first) := rpl_slave_state_tostring_helper str gtid first in
      tostring_loop str first rest
  end.

Definition tostring_sorted `{Containers} (gtid_dynarr : list rpl_gtid) (str : list Z) : list Z :=
  tostring_loop str true (sort_dynamic gtid_dynarr).

(** ** Text to GTIDs

    The text is the rest of the string from the parse position on; [q == end]
    is an empty rest. *)

(** One number and the dash after it, as the first two fields are read. *)
Definition parse_id (p : list Z) : option (Z * list Z) :=
  let '(v, q, err) := my_strtoll10 p in
  let v := u64 v in
  if negb (err =? 0) || (v >? 4294967295) then None
  else match q with
       | c :: q' => if c =? chr_minus then Some (v, q') else None
       | [] => None
       end.

Definition gtid_parser_helper (p : list Z) : option (rpl_gtid * list Z) :=
  match parse_id p with
  | None => None
  | Some (v1, p) =>
      match parse_id p with
      | None => None
      | Some (v2, p) =>
          let '(v3, q, err) := my_strtoll10 p in
          if negb (err =? 0) then None
          else Some (mk_gtid v1 v2 (u64 v3), q)
      end
  end.

(** The number of GTIDs the parser accepts. *)
Definition MAX_GTIDS : Z := 2 ^ 28 - 1.

(** [gtids] holds the GTIDs read so far, [len] their number; every round
    consumes at least one character, so the length of the text is fuel
    enough. *)
Fixpoint parse_list_loop (fuel : nat) (p : list Z) (gtids : list rpl_gtid) (len : Z)
  : option (list rpl_gtid) :=
  match fuel with
  | O => None
  | S fuel =>
      if len >=? MAX_GTIDS then None
      else match gtid_parser_helper p with
           | None => None
           | Some (gtid, p) =>
               let gtids := gtids ++ [gtid] in
               match p with
               | [] => Some gtids
               | c :: p =>
                   if c =? chr_comma then parse_list_loop fuel p gtids (len + 1) else None
               end
           end
  end.

Definition gtid_parse_string_to_list (str : list Z) : option (list rpl_gtid) :=
  parse_list_loop (S (length str)) str [] 0.

(** ** What is printed *)

Definition gtid_text (g : rpl_gtid) : list Z :=
  longlong10_to_str (s64 (domain_id g)) 10 ++ chr_minus ::
  longlong10_to_str (s64 (server_id g)) 10 ++ chr_minus ::
  longlong10_to_str (s64 (seq_no g)) 10.

Fixpoint gtids_text (gtids : list rpl_gtid) : list Z :=
  match gtids with
  | [] => []
  | [g] => gtid_text g
  | g :: rest => gtid_text g ++ chr_comma :: gtids_text rest
  end.

Lemma is_gtid_mk d s n : is_u32 d -> is_u32 s -> is_u64 n -> is_gtid (mk_gtid d s n).
Proof. done. Qed.

#[export] Hint Resolve is_gtid_mk : erydb.

Lemma tostring_helper_text dest g first :
  rpl_slave_state_tostring_helper dest g first =
  (dest ++ (if first then [] else [chr_comma]) ++ gtid_text g, false).
Proof.
  unfold rpl_slave_state_tostring_helper, append_ulonglong, gtid_text.
  destruct first; f_equal; rewrite <-!app_assoc; reflexivity.
Qed.

Lemma tostring_loop_text l : forall str first,
  tostring_loop str first l =
  str ++ (if first then [] else match l with [] => [] | _ => [chr_comma] end) ++ gtids_text l.
Proof.
  induction l as [|g l IH]; intros str first; cbn [tostring_loop].
  - destruct first; by rewrite app_nil_r.
  - rewrite tostring_helper_text, IH. destruct first, l as [|g' l]; cbn [gtids_text];
      rewrite ?app_nil_r, <-?app_assoc; reflexivity.
Qed.

(** ** Parsing what was printed *)

Lemma parse_id_print v rest :
  is_u32 v -> parse_id (longlong10_to_str (s64 v) 10 ++ chr_minus :: rest) = Some (v, rest).
Proof.
  unfold is_u32, parse_id. intros Hv. rewrite strtoll10_print by (done || lia).
  assert (u64 (s64 v) = v) as ->.
  { rewrite s64_small by lia. apply u64_small. lia. }
  rewrite Z.gtb_ltb. destruct (Z.ltb_spec 4294967295 v); [lia|reflexivity].
Qed.

Lemma gtid_parser_print g rest :
  is_gtid g -> stops rest -> gtid_parser_helper (gtid_text g ++ rest) = Some (g, rest).
Proof.
  intros (Hd & Hs & Hq) Hr. unfold gtid_parser_helper, gtid_text.
  rewrite <-app_assoc, <-app_comm_cons, parse_id_print by done.
  rewrite <-app_assoc, <-app_comm_cons, parse_id_print by done.
  rewrite strtoll10_print by done. rewrite u64_s64 by done. by destruct g.
Qed.

Lemma parse_id_shorter p v q : parse_id p = Some (v, q) -> (length q < length p)%nat.
Proof.
  unfold parse_id. pose proof (my_strtoll10_shorter p) as H.
  destruct (my_strtoll10 p) as [[w r] err]. cbn [fst snd] in H.
  destruct (_ || _); [done|]. destruct r as [|c r]; [done|]. simpl in H.
  destruct (c =? chr_minus); intros [= <- <-]. lia.
Qed.

Lemma gtid_parser_shorter p g q :
  gtid_parser_helper p = Some (g, q) -> (length q < length p)%nat.
Proof.
  unfold gtid_parser_helper. destruct (parse_id p) as [[v1 p1]|] eqn:E1; [|done].
  destruct (parse_id p1) as [[v2 p2]|] eqn:E2; [|done].
  pose proof (my_strtoll10_shorter p2) as H. destruct (my_strtoll10 p2) as [[w r] err].
  cbn [fst snd] in H. apply parse_id_shorter in E1, E2.
  destruct (negb _); intros [= <- <-]. lia.
Qed.

(** The parser's output has the struct's widths. *)
Lemma gtid_parser_widths p g q : gtid_parser_helper p = Some (g, q) -> is_gtid g.
Proof.
  assert (Hid : forall p v q, parse_id p = Some (v, q) -> is_u32 v).
  { intros p' v q'. unfold parse_id, is_u32. destruct (my_strtoll10 p') as [[w r] err].
    destruct (_ || _) eqn:E; [done|]. apply orb_false_iff in E as [_ E]. rewrite Z.gtb_ltb in E.
    destruct r as [|c r]; [done|]. destruct (c =? chr_minus); intros [= <- <-].
    apply Z.ltb_ge in E. unfold u64 in *. pose proof (Z.mod_pos_bound w (2 ^ 64)). lia. }
  unfold gtid_parser_helper. destruct (parse_id p) as [[v1 p1]|] eqn:E1; [|done].
  destruct (parse_id p1) as [[v2 p2]|] eqn:E2; [|done].
  destruct (my_strtoll10 p2) as [[w r] err]. destruct (negb _); intros [= <- <-].
  split; [by eapply Hid|split; [by eapply Hid|]]. unfold is_u64, u64. simpl.
  pose proof (Z.mod_pos_bound w (2 ^ 64)). lia.
Qed.

(** ** The grammar of GTID lists *)

Inductive gtid_list : list Z -> list rpl_gtid -> Prop :=
| gtid_list_one p g :
    gtid_parser_helper p = Some (g, []) -> gtid_list p [g]
| gtid_list_more p g p' l :
    gtid_parser_helper p = Some (g, chr_comma :: p') -> gtid_list p' l -> gtid_list p (g :: l).

Lemma parse_list_loop_sound fuel : forall p acc len l,
  parse_list_loop fuel p acc len = Some l ->
  exists l', l = acc ++ l' /\ gtid_list p l' /\ len + Z.of_nat (length l') <= MAX_GTIDS.
Proof.
  induction fuel as [|fuel IH]; intros p acc len l; [done|]. cbn [parse_list_loop].
  rewrite Z.geb_leb. destruct (Z.leb_spec MAX_GTIDS len); [done|].
  destruct (gtid_parser_helper p) as [[g q]|] eqn:E; [|done].
  destruct q as [|c q].
  - intros [= <-]. exists [g]. split; [done|split; [by apply gtid_list_one|simpl; lia]].
  - destruct (Z.eqb_spec c chr_comma) as [->|]; [|done]. intros H1.
    apply IH in H1 as (l' & -> & Hl & Hlen). exists (g :: l').
    rewrite <-app_assoc. split; [done|split; [by eapply gtid_list_more|simpl; lia]].
Qed.

Lemma parse_list_loop_complete p l : gtid_list p l -> forall fuel acc len,
  (length p < fuel)%nat -> len + Z.of_nat (length l) <= MAX_GTIDS ->
  parse_list_loop fuel p acc len = Some (acc ++ l).
Proof.
  induction 1 as [p g E|p g p' l E Hl IH]; intros [|fuel] acc len Hf Hlen; try lia;
    cbn [parse_list_loop]; simpl in Hlen; rewrite Z.geb_leb;
    (destruct (Z.leb_spec MAX_GTIDS len); [lia|]); rewrite E; [done|].
  rewrite Z.eqb_refl. apply gtid_parser_shorter in E. simpl in E.
  rewrite IH by lia. by rewrite <-app_assoc.
Qed.

Lemma gtid_list_print l :
  l <> [] -> Forall is_gtid l -> gtid_list (gtids_text l) l.
Proof.
  induction l as [|g l IH]; [done|]. intros _ [Hg Hl]%list.Forall_cons.
  destruct l as [|g' l].
  - apply gtid_list_one. cbn [gtids_text]. rewrite <-(app_nil_r (gtid_text g)) at 1.
    by apply gtid_parser_print.
  - eapply gtid_list_more; [by apply gtid_parser_print|by apply IH].
Qed.

(** [gtid_parse_string_to_list] accepts exactly the comma-separated lists
    of at most 2^28 - 1 GTIDs, and returns their GTIDs in order; anything else
    (an empty text, a trailing comma, a character after a GTID, an id above 32
    bits) is an error, and the loop always ends with one of the two. *)
Theorem gtid_parse_string_to_list_accepts (str : list Z) (l : list rpl_gtid) :
  gtid_parse_string_to_list str = Some l <->
  gtid_list str l /\ Z.of_nat (length l) <= MAX_GTIDS.
Proof.
  split.
  - intros (l' & -> & H)%parse_list_loop_sound. simpl. by rewrite Z.add_0_l in H.
  - intros [H Hl]. apply (parse_list_loop_complete str l H _ [] 0); simpl; lia.
Qed.

(** C34: Printing a non-empty list of GTIDs and parsing the text gives the list
    back, for all values of the fields up to 2^32 - 1 and 2^64 - 1. *)
Theorem gtid_list_roundtrip (l : list rpl_gtid) :
  l <> [] -> Forall is_gtid l -> Z.of_nat (length l) <= MAX_GTIDS ->
  gtid_parse_string_to_list (tostring_loop [] true l) = Some l.
Proof.
  intros Hn Hl Hlen. rewrite tostring_loop_text. simpl.
  apply (parse_list_loop_complete _ l (gtid_list_print l Hn Hl) _ [] 0); simpl; lia.
Qed.

Lemma gtid_list_roundtrip_witness :
  gtid_parse_string_to_list
    (tostring_loop [] true [mk_gtid 0 1 18446744073709551615; mk_gtid 4294967295 0 7])
  = Some [mk_gtid 0 1 18446744073709551615; mk_gtid 4294967295 0 7].
Proof.
  apply gtid_list_roundtrip; [done| |vm_compute; discriminate].
  repeat constructor; vm_compute; (discriminate || reflexivity).
Defined.

(** The containers can be given: the map's own order and a merge sort. *)
#[export] Instance cmp_le_total : Total cmp_le.
Proof. intros g1 g2. unfold cmp_le, rpl_gtid_cmp_cb. zcases; lia. Qed.

#[export] Instance cmp_le_dec g1 g2 : Decision (cmp_le g1 g2).
Proof. unfold cmp_le. apply _. Defined.

#[export] Instance list_containers : Containers | 10.
Proof.
  refine {| hash_elements A (m : gmap Z A) := (map_to_list m).*2;
            sort_dynamic := merge_sort cmp_le |}; intros.
  - done.
  - apply merge_sort_Permutation.
  - apply Sorted_merge_sort, _.
Defined.
