(* ===== verification/BinlogState.v ===== *)
(** * The binlog GTID state

    [rpl_binlog_state] (sql/rpl_gtid.cc) records, for every replication domain,
    the last GTID binlogged by each server and which of them came last; a new
    event gets its GTID from here.  The file models all of its operations: the
    updates and the strict-mode check, the allocation of the next sequence
    number, the text file the state is kept in between server runs, and the
    lists and positions handed to other components. *)
From Stdlib Require Import ZArith Lia List Bool.
From stdpp Require Import base tactics list gmap relations sorting.
From S2P Require Import Prelude StrNum Gtid.

Open Scope Z_scope.

(** ** State

    [last_gtid] points to a record of [hash]: it is that record's key. *)

Record element := mk_element {
  elem_domain : Z;
  elem_hash : gmap Z rpl_gtid;
  last_gtid : option Z;
  seq_no_counter : Z
}.

#[export] Instance element_eq_dec : EqDecision element.
Proof. solve_decision. Defined.

Notation rpl_binlog_state := (gmap Z element).

(** [*elem->last_gtid], when there is one. *)
Definition last_of (e : element) : option rpl_gtid :=
  match last_gtid e with None => None | Some s => elem_hash e !! s end.

Inductive update_result := UPDATE_OK | ER_GTID_STRICT_OUT_OF_ORDER | ER_OUT_OF_RESOURCES.

#[export] Instance update_result_eq_dec : EqDecision update_result.
Proof. solve_decision. Defined.

Definition set_seq_no (g : rpl_gtid) (n : Z) : rpl_gtid := mk_gtid (domain_id g) (server_id g) n.
Definition set_counter (e : element) (n : Z) : element :=
  mk_element (elem_domain e) (elem_hash e) (last_gtid e) n.
Definition set_entry (e : element) (s : Z) (g : rpl_gtid) : element :=
  mk_element (elem_domain e) (<[s := g]> (elem_hash e)) (Some s) (seq_no_counter e).

(** ** Updates

    [mem] says whether the allocations of the call succeed. *)

(** [element::update_element]; false is the error return. *)
Definition update_element (mem : bool) (e : element) (gtid : rpl_gtid) : bool * element :=
  let lookup :=
    match elem_hash e !! server_id gtid with
    | Some lookup_gtid =>
        (true, set_entry e (server_id gtid) (set_seq_no lookup_gtid (seq_no gtid)))
    | None =>
        if mem then (true, set_entry e (server_id gtid) gtid) else (false, e)
    end in
  match last_gtid e with
  | Some s =>
      match elem_hash e !! s with
      | Some lg =>
          if server_id lg =? server_id gtid
          then (true, set_entry e s (set_seq_no lg (seq_no gtid)))
          else lookup
      | None => lookup
      end
  | None => lookup
  end.

Definition alloc_element_nolock (mem : bool) (st : rpl_binlog_state) (gtid : rpl_gtid)
  : bool * rpl_binlog_state :=
  if mem then
    (true,
     <[domain_id gtid :=
         mk_element (domain_id gtid) {[server_id gtid := gtid]} (Some (server_id gtid)) (seq_no gtid)]>
       st)
  else (false, st).

Definition update_nolock (mem : bool) (st : rpl_binlog_state) (gtid : rpl_gtid) (strict : bool)
  : update_result * rpl_binlog_state :=
  match st !! domain_id gtid with
  | Some elem =>
      if strict && match last_of elem with Some lg => seq_no lg >=? seq_no gtid | None => false end
      then (ER_GTID_STRICT_OUT_OF_ORDER, st)
      else
        let elem :=
          if seq_no_counter elem <? seq_no gtid then set_counter elem (seq_no gtid) else elem in
        let '(ok, elem) := update_element mem elem gtid in
        (if ok then UPDATE_OK else ER_OUT_OF_RESOURCES, <[domain_id gtid := elem]> st)
  | None =>
      let '(ok, st) := alloc_element_nolock mem st gtid in
      (if ok then UPDATE_OK else ER_OUT_OF_RESOURCES, st)
  end.

Definition update := update_nolock.

(** The GTID is filled in also when the update fails. *)
Definition update_with_next_gtid (mem : bool) (st : rpl_binlog_state) (domain_id server_id : Z)
  : update_result * rpl_gtid * rpl_binlog_state :=
  match st !! domain_id with
  | Some elem =>
      let elem := set_counter elem (u64 (seq_no_counter elem + 1)) in
      let gtid := mk_gtid domain_id server_id (seq_no_counter elem) in
      let '(ok, elem) := update_element mem elem gtid in
      (if ok then UPDATE_OK else ER_OUT_OF_RESOURCES, gtid, <[domain_id := elem]> st)
  | None =>
      let gtid := mk_gtid domain_id server_id 1 in
      let '(ok, st) := alloc_element_nolock mem st gtid in
      (if ok then UPDATE_OK else ER_OUT_OF_RESOURCES, gtid, st)
  end.

(** True: the GTID is out of order. *)
Definition check_strict_sequence (st : rpl_binlog_state) (domain_id server_id seq : Z) : bool :=
  match st !! domain_id with
  | Some elem => match last_of elem with Some lg => seq_no lg >=? seq | None => false end
  | None => false
  end.

Definition bump_seq_no_if_needed (mem : bool) (st : rpl_binlog_state) (domain_id seq : Z)
  : bool * rpl_binlog_state :=
  match st !! domain_id with
  | Some elem =>
      (true, if seq_no_counter elem <? seq then <[domain_id := set_counter elem seq]> st else st)
  | None =>
      if mem then (true, <[domain_id := mk_element domain_id ∅ None seq]> st) else (false, st)
  end.

Definition reset : rpl_binlog_state := ∅.

(** [load]: the allocations of the [i]-th update succeed when [mem i]. *)
Fixpoint load_loop (mem : nat -> bool) (i : nat) (st : rpl_binlog_state) (gtids : list rpl_gtid)
  : bool * rpl_binlog_state :=
  match gtids with
  | [] => (false, st)
  | gtid :: rest =>
      let '(r, st) := update_nolock (mem i) st gtid false in
      if bool_decide (r = UPDATE_OK) then load_loop mem (S i) st rest else (true, st)
  end.

Definition load (mem : nat -> bool) (st : rpl_binlog_state) (gtids : list rpl_gtid)
  : bool * rpl_binlog_state :=
  load_loop mem 0 reset gtids.

(** ** Lookups *)

Definition find_nolock (st : rpl_binlog_state) (domain_id server_id : Z) : option rpl_gtid :=
  match st !! domain_id with None => None | Some elem => elem_hash elem !! server_id end.

Definition find := find_nolock.

Definition find_most_recent (st : rpl_binlog_state) (domain_id : Z) : option rpl_gtid :=
  match st !! domain_id with None => None | Some elem => last_of elem end.

(** ** Lists and text *)

Section Lists.
Context `{Containers}.

Definition count (st : rpl_binlog_state) : Z :=
  fold_left (fun c e => u32 (c + Z.of_nat (size (elem_hash e)))) (hash_elements st) 0.

(** The GTIDs of a domain as the loops over [j <= records] visit them: the most
    recent one is skipped where the hash has it and comes after all others. *)
Definition element_gtids (e : element) : list rpl_gtid :=
  match last_of e with
  | None => []
  | Some lg =>
      filter (fun g => server_id g <> server_id lg) (hash_elements (elem_hash e)) ++ [lg]
  end.

Definition state_gtids (st : rpl_binlog_state) : list rpl_gtid :=
  concat (map element_gtids (hash_elements st)).

(** Copies the GTIDs into an array of [list_size] elements; true is the error
    that the array is too small. *)
Fixpoint copy_gtids (list_size : nat) (gtids out : list rpl_gtid) : bool * list rpl_gtid :=
  match gtids with
  | [] => (false, out)
  | gtid :: rest =>
      if (list_size <=? length out)%nat then (true, out)
      else copy_gtids list_size rest (out ++ [gtid])
  end.

Definition get_gtid_list (st : rpl_binlog_state) (list_size : nat) : bool * list rpl_gtid :=
  copy_gtids list_size (state_gtids st) [].

Definition most_recent_gtids (st : rpl_binlog_state) : list rpl_gtid :=
  omap last_of (hash_elements st).

(** None: the array cannot be allocated. *)
Definition get_most_recent_gtid_list (mem : bool) (st : rpl_binlog_state)
  : option (list rpl_gtid) :=
  if mem then Some (most_recent_gtids st) else None.

(** [mem]: the elements can be added to the array that is sorted.  True is the
    error return. *)
Definition append_sorted (mem : bool) (gtids : list rpl_gtid) (str : list Z) : bool * list Z :=
  if mem || bool_decide (gtids = []) then (false, tostring_sorted gtids str) else (true, str).

Definition append_pos (mem : bool) (st : rpl_binlog_state) (str : list Z) : bool * list Z :=
  append_sorted mem (most_recent_gtids st) str.

Definition append_state (mem : bool) (st : rpl_binlog_state) (str : list Z) : bool * list Z :=
  append_sorted mem (state_gtids st) str.

(** ** The state file *)

(** [my_b_printf(dest, "%u-%u-%s\n", ...)]. *)
Definition gtid_line (g : rpl_gtid) : list Z :=
  longlong10_to_str (domain_id g) 10 ++ [chr_minus] ++
  longlong10_to_str (server_id g) 10 ++ [chr_minus] ++
  longlong10_to_str (s64 (seq_no g)) 10 ++ [chr_newline].

(** [room] lines can be written before the file fails.  The error code is put
    in a variable of the loop body that hides the one that is returned. *)
Fixpoint write_loop (room : nat) (gtids : list rpl_gtid) (dest : list Z) {struct gtids}
  : Z * list Z :=
  match gtids with
  | [] => (0, dest)
  | gtid :: rest =>
      match room with
      | O => (0, dest)
      | S room => write_loop room rest (dest ++ gtid_line gtid)
      end
  end.

Definition write_to_iocache (room : nat) (st : rpl_binlog_state) (dest : list Z) : Z * list Z :=
  write_loop room (state_gtids st) dest.

End Lists.

(** [my_b_gets] with room for [n] characters and the final zero: a line with
    its newline, or the first [n] characters of a longer one; none at the end
    of the file, also when the last line has no newline. *)
Fixpoint my_b_gets (n : nat) (src : list Z) : option (list Z * list Z) :=
  match n with
  | O => Some ([], src)
  | S n =>
      match src with
      | [] => None
      | c :: src =>
          if c =? chr_newline then Some ([c], src)
          else match my_b_gets n src with
               | None => None
               | Some (line, rest) => Some (c :: line, rest)
               end
      end
  end.

(** [sizeof(buf) - 1]. *)
Definition LINE_CHARS : nat := 43.

Fixpoint read_loop (fuel : nat) (mem : nat -> bool) (i : nat) (st : rpl_binlog_state) (src : list Z)
  : Z * rpl_binlog_state :=
  match fuel with
  | O => (0, st)
  | S fuel =>
      match my_b_gets LINE_CHARS src with
      | None => (0, st)
      | Some (line, src) =>
          match gtid_parser_helper line with
          | None => (1, st)
          | Some (gtid, _) =>
              let '(r, st) := update_nolock (mem i) st gtid false in
              if bool_decide (r = UPDATE_OK) then read_loop fuel mem (S i) st src else (1, st)
          end
      end
  end.

(** Every line has at least one character. *)
Definition read_from_iocache (mem : nat -> bool) (st : rpl_binlog_state) (src : list Z)
  : Z * rpl_binlog_state :=
  read_loop (S (length src)) mem 0 reset src.

(** ** Well-formed states

    Every record is filed under its own ids, the most recent GTID of a domain
    is one of its records, and a domain without one has no records. *)

Definition elem_wf (d : Z) (e : element) : Prop :=
  elem_domain e = d /\ is_u32 d /\ is_u64 (seq_no_counter e) /\
  (forall s g, elem_hash e !! s = Some g -> domain_id g = d /\ server_id g = s /\ is_gtid g) /\
  match last_gtid e with None => elem_hash e = ∅ | Some s => is_Some (elem_hash e !! s) end.

Definition wf (st : rpl_binlog_state) : Prop := map_Forall elem_wf st.

Lemma update_element_eq mem d e g :
  elem_wf d e -> domain_id g = d ->
  update_element mem e g =
  if mem || bool_decide (is_Some (elem_hash e !! server_id g))
  then (true, set_entry e (server_id g) g) else (false, e).
Proof.
  intros (_ & _ & _ & Hh & Hl) Hd. unfold update_element.
  assert (Hset : forall lg, elem_hash e !! server_id g = Some lg -> set_seq_no lg (seq_no g) = g).
  { intros lg (H1 & H2 & _)%Hh. unfold set_seq_no. rewrite H1, H2. destruct g; simpl in *; congruence. }
  assert (Hlook : match elem_hash e !! server_id g with
    | Some lookup_gtid => (true, set_entry e (server_id g) (set_seq_no lookup_gtid (seq_no g)))
    | None => if mem then (true, set_entry e (server_id g) g) else (false, e) end
    = if mem || bool_decide (is_Some (elem_hash e !! server_id g))
      then (true, set_entry e (server_id g) g) else (false, e)).
  { destruct (elem_hash e !! server_id g) as [lg|] eqn:E.
    - rewrite (Hset lg) by done. rewrite bool_decide_true by eauto. by destruct mem.
    - rewrite bool_decide_false by (intros [? ?]; done). by destruct mem. }
  destruct (last_gtid e) as [s|]; [|exact Hlook]. destruct Hl as [lg Hl]. rewrite Hl.
  destruct (Z.eqb_spec (server_id lg) (server_id g)) as [E|]; [|exact Hlook].
  assert (s = server_id g) as -> by (apply Hh in Hl as (_ & <- & _); done).
  rewrite Hset by done. rewrite bool_decide_true by eauto. by destruct mem.
Qed.

Lemma set_entry_wf d e g : elem_wf d e -> domain_id g = d -> is_gtid g ->
  elem_wf d (set_entry e (server_id g) g).
Proof.
  intros (H1 & H2 & H3 & H4 & H5) Hd Hg. split_and!; [done..| |].
  - intros s g'. cbn. intros [[<- <-]|[_ Hs]]%lookup_insert_Some; [done|by apply H4].
  - cbn. rewrite lookup_insert_eq. eauto.
Qed.

Lemma set_counter_wf d e n : elem_wf d e -> is_u64 n -> elem_wf d (set_counter e n).
Proof. intros (H1 & H2 & H3 & H4 & H5) Hn. by split_and!. Qed.

Lemma update_element_wf mem d e g ok e' :
  elem_wf d e -> domain_id g = d -> is_gtid g -> update_element mem e g = (ok, e') -> elem_wf d e'.
Proof.
  intros He Hd Hg E. rewrite (update_element_eq _ d) in E by done.
  destruct (_ || _); injection E as <- <-; [by apply set_entry_wf|done].
Qed.

Lemma alloc_element_wf mem st g ok st' :
  wf st -> is_gtid g -> alloc_element_nolock mem st g = (ok, st') -> wf st'.
Proof.
  intros Hst Hg. unfold alloc_element_nolock. destruct mem; intros [= <- <-]; [|done].
  apply map_Forall_insert_2; [|done]. destruct Hg as (? & ? & ?). split_and!; [done..| |].
  - cbn. intros s g' [<- <-]%lookup_singleton_Some. done.
  - cbn. rewrite lookup_singleton_eq. eauto.
Qed.

Lemma update_nolock_wf mem st g strict r st' :
  wf st -> is_gtid g -> update_nolock mem st g strict = (r, st') -> wf st'.
Proof.
  intros Hst Hg. unfold update_nolock. destruct (st !! domain_id g) as [e|] eqn:E.
  - destruct (strict && _); [by intros [= <- <-]|].
    assert (He : elem_wf (domain_id g)
      (if seq_no_counter e <? seq_no g then set_counter e (seq_no g) else e)).
    { specialize (Hst _ _ E). destruct (_ <? _); [apply set_counter_wf|]; try done. apply Hg. }
    destruct (update_element _ _ _) as [ok e'] eqn:Eu. intros [= <- <-].
    apply map_Forall_insert_2; [|done]. by eapply update_element_wf.
  - destruct (alloc_element_nolock _ _ _) as [ok st1] eqn:Ea. intros [= <- <-].
    by eapply alloc_element_wf.
Qed.

Lemma update_with_next_gtid_wf mem st d s r g st' :
  wf st -> is_u32 d -> is_u32 s ->
  update_with_next_gtid mem st d s = (r, g, st') -> wf st' /\ is_gtid g.
Proof.
  intros Hst Hd Hs. unfold update_with_next_gtid. destruct (st !! d) as [e|] eqn:E.
  - destruct (update_element _ _ _) as [ok e'] eqn:Eu. intros [= <- <- <-].
    assert (is_gtid (mk_gtid d s (u64 (seq_no_counter e + 1)))) as Hg
      by auto with erydb.
    split; [|done]. apply map_Forall_insert_2; [|done].
    eapply update_element_wf; [| |exact Hg|exact Eu]; [|done].
    apply set_counter_wf; [by apply Hst|auto with erydb].
  - destruct (alloc_element_nolock _ _ _) as [ok st1] eqn:Ea. intros [= <- <- <-].
    assert (is_gtid (mk_gtid d s 1)) as Hg by (split_and!; done). split; [|done].
    by eapply alloc_element_wf.
Qed.

Lemma bump_seq_no_wf mem st d n ok st' :
  wf st -> is_u32 d -> is_u64 n -> bump_seq_no_if_needed mem st d n = (ok, st') -> wf st'.
Proof.
  intros Hst Hd Hn. unfold bump_seq_no_if_needed. destruct (st !! d) as [e|] eqn:E.
  - intros [= <- <-]. destruct (_ <? _); [|done].
    apply map_Forall_insert_2; [|done]. apply set_counter_wf; [by apply Hst|done].
  - destruct mem; intros [= <- <-]; [|done]. apply map_Forall_insert_2; [|done].
    split_and!; try done.
Qed.

Lemma wf_reset : wf reset.
Proof. apply map_Forall_empty. Qed.

Lemma load_loop_wf mem gtids : forall i st r st',
  wf st -> Forall is_gtid gtids -> load_loop mem i st gtids = (r, st') -> wf st'.
Proof.
  induction gtids as [|g gtids IH]; intros i st r st' Hst Hg; cbn [load_loop].
  - by intros [= <- <-].
  - apply list.Forall_cons in Hg as [Hg Hgs].
    destruct (update_nolock _ _ _ _) as [r1 st1] eqn:E. apply update_nolock_wf in E; [|done..].
    case_bool_decide; [by apply IH|by intros [= <- <-]].
Qed.

Lemma read_loop_wf fuel mem : forall i st src r st',
  wf st -> read_loop fuel mem i st src = (r, st') -> wf st'.
Proof.
  induction fuel as [|fuel IH]; intros i st src r st' Hst; cbn [read_loop].
  - by intros [= <- <-].
  - destruct (my_b_gets LINE_CHARS src) as [[line rest]|]; [|by intros [= <- <-]].
    destruct (gtid_parser_helper line) as [[g q]|] eqn:Eg; [|by intros [= <- <-]].
    apply gtid_parser_widths in Eg.
    destruct (update_nolock _ _ _ _) as [r1 st1] eqn:E. apply update_nolock_wf in E; [|done..].
    case_bool_decide; [by apply IH|by intros [= <- <-]].
Qed.

(** ** The state over time

    A step logs at most one GTID.  With [wrap] false the steps at which the
    sequence number of a domain would pass 2^64 - 1 are left out. *)

Definition counter (st : rpl_binlog_state) (d : Z) : Z :=
  match st !! d with Some e => seq_no_counter e | None => 0 end.

Definition logged (r : update_result) (g : rpl_gtid) : option rpl_gtid :=
  if bool_decide (r = UPDATE_OK) then Some g else None.

Inductive binlog_step (wrap : bool) (st : rpl_binlog_state)
  : option rpl_gtid -> rpl_binlog_state -> Prop :=
| step_update mem g strict r st' :
    is_gtid g -> update mem st g strict = (r, st') -> binlog_step wrap st (logged r g) st'
| step_next mem d s r g st' :
    is_u32 d -> is_u32 s -> wrap = true \/ counter st d < 2 ^ 64 - 1 ->
    update_with_next_gtid mem st d s = (r, g, st') -> binlog_step wrap st (logged r g) st'
| step_bump mem d n ok st' :
    is_u32 d -> is_u64 n -> bump_seq_no_if_needed mem st d n = (ok, st') ->
    binlog_step wrap st None st'.

(** The operations that start from an empty state. *)
Inductive binlog_restart (st : rpl_binlog_state) : rpl_binlog_state -> Prop :=
| restart_reset : binlog_restart st reset
| restart_load mem gtids r st' :
    Forall is_gtid gtids -> load mem st gtids = (r, st') -> binlog_restart st st'
| restart_read mem src r st' :
    read_from_iocache mem st src = (r, st') -> binlog_restart st st'.

Definition binlog_any (st st' : rpl_binlog_state) : Prop :=
  (exists g, binlog_step true st g st') \/ binlog_restart st st'.

Lemma binlog_step_wf wrap st g st' : wf st -> binlog_step wrap st g st' -> wf st'.
Proof.
  intros Hst [mem g' strict r st1 Hg E|mem d s r g' st1 Hd Hs _ E|mem d n ok st1 Hd Hn E].
  - by eapply update_nolock_wf.
  - by apply update_with_next_gtid_wf in E as [? _].
  - by eapply bump_seq_no_wf.
Qed.

(** Whatever the sequence of updates, allocations, bumps, resets, loads and
    reads of state files (of any content), with allocations failing at any
    point, the state stays well formed: records under their own ids, within
    their widths, and the most recent GTID of each domain one of its records. *)
Theorem binlog_state_invariant (st : rpl_binlog_state) :
  rtc binlog_any reset st -> wf st.
Proof.
  intros H. assert (Hr : wf reset) by apply wf_reset. revert Hr.
  induction H as [|st1 st2 st3 [[g Hs]|Hs] _ IH]; intros Hst; [done| |]; apply IH.
  - by eapply binlog_step_wf.
  - destruct Hs as [|mem gtids r st' Hg E|mem src r st' E].
    + apply wf_reset.
    + eapply load_loop_wf; [apply wf_reset| |exact E]. done.
    + eapply read_loop_wf; [apply wf_reset|exact E].
Qed.

Lemma counter_insert st d e d' :
  counter (<[d := e]> st) d' = if decide (d = d') then seq_no_counter e else counter st d'.
Proof.
  unfold counter. destruct (decide (d = d')) as [->|].
  - by rewrite (lookup_insert_eq).
  - by rewrite (lookup_insert_ne).
Qed.

Lemma update_element_counter mem e g ok e' :
  update_element mem e g = (ok, e') -> seq_no_counter e' = seq_no_counter e.
Proof.
  unfold update_element. destruct (last_gtid e) as [s|]; [destruct (elem_hash e !! s)|];
    try destruct (_ =? _); repeat case_match; intros; simplify_eq; done.
Qed.

Lemma update_counter mem st g strict r st' d :
  is_gtid g -> update mem st g strict = (r, st') ->
  counter st d <= counter st' d /\
  (r = UPDATE_OK -> seq_no g <= counter st' (domain_id g)).
Proof.
  intros (_ & _ & Hq). unfold is_u64 in Hq. unfold update, update_nolock.
  destruct (st !! domain_id g) as [e|] eqn:E.
  - destruct (strict && _); [intros [= <- <-]; split; [lia|done]|].
    destruct (update_element _ _ _) as [ok e'] eqn:Eu. intros [= <- <-].
    apply update_element_counter in Eu. rewrite !counter_insert, Eu, (decide_True (P := domain_id g = domain_id g)) by done.
    destruct (Z.ltb_spec (seq_no_counter e) (seq_no g)); cbn; case_decide as Hd;
      (split; [|intros; lia]); try lia; subst d; unfold counter; rewrite E; lia.
  - unfold alloc_element_nolock. destruct mem; intros [= <- <-]; [|split; [lia|done]].
    rewrite !counter_insert, (decide_True (P := domain_id g = domain_id g)) by done.
    split; [|cbn; lia]. case_decide; [|lia]. subst d. unfold counter. rewrite E. cbn. lia.
Qed.

Lemma next_counter mem st d0 s r g st' d :
  is_u64 (counter st d0) -> counter st d0 < 2 ^ 64 - 1 ->
  update_with_next_gtid mem st d0 s = (r, g, st') ->
  counter st d <= counter st' d /\ domain_id g = d0 /\ seq_no g = counter st d0 + 1 /\
  (r = UPDATE_OK -> seq_no g <= counter st' d0).
Proof.
  unfold is_u64. intros Hu Hc. unfold update_with_next_gtid.
  destruct (st !! d0) as [e|] eqn:E.
  - assert (counter st d0 = seq_no_counter e) as Ec by (unfold counter; by rewrite E).
    rewrite Ec in *. rewrite u64_small by lia.
    destruct (update_element _ _ _) as [ok e'] eqn:Eu. intros [= <- <- <-].
    apply update_element_counter in Eu. cbn in Eu. rewrite !counter_insert, Eu.
    rewrite (decide_True (P := d0 = d0)) by done. cbn. split_and!; try lia.
    case_decide; [subst d|]; lia.
  - assert (counter st d0 = 0) as Ec by (unfold counter; by rewrite E). rewrite Ec in *.
    unfold alloc_element_nolock. destruct mem; intros [= <- <- <-]; [|by split_and!; try lia].
    rewrite !counter_insert. cbn. rewrite (decide_True (P := d0 = d0)) by done.
    split_and!; try lia. case_decide; [subst d|]; lia.
Qed.

Lemma bump_counter mem st d0 n ok st' d :
  is_u64 n -> bump_seq_no_if_needed mem st d0 n = (ok, st') ->
  counter st d <= counter st' d /\ (ok = true -> n <= counter st' d0).
Proof.
  unfold is_u64. intros Hn. unfold bump_seq_no_if_needed. destruct (st !! d0) as [e|] eqn:E.
  - assert (counter st d0 = seq_no_counter e) as Ec by (unfold counter; by rewrite E).
    intros [= <- <-]. destruct (Z.ltb_spec (seq_no_counter e) n); [|split; lia].
    rewrite !counter_insert, (decide_True (P := d0 = d0)) by done. cbn. split; [|lia].
    case_decide; [subst d|]; lia.
  - assert (counter st d0 = 0) as Ec by (unfold counter; by rewrite E).
    destruct mem; intros [= <- <-]; [|split; [lia|done]].
    rewrite !counter_insert, (decide_True (P := d0 = d0)) by done. cbn. split; [|lia].
    case_decide; [subst d|]; lia.
Qed.

Lemma wf_counter st d : wf st -> is_u64 (counter st d).
Proof.
  intros H. unfold counter. destruct (st !! d) as [e|] eqn:E; [|done].
  by apply (H _ _ E).
Qed.

Lemma step_counter st o st' d :
  wf st -> binlog_step false st o st' ->
  counter st d <= counter st' d /\
  (forall g, o = Some g -> seq_no g <= counter st' (domain_id g)).
Proof.
  intros Hst [mem g' strict r st1 Hg E|mem d0 s r g' st1 Hd Hs Hw E|mem d0 n ok st1 Hd Hn E].
  - apply (update_counter _ _ _ _ _ _ d) in E as [H1 H2]; [|done]. split; [done|].
    intros g. unfold logged. case_bool_decide; intros [= ->]. auto.
  - destruct Hw as [Hw|Hw]; [done|]. apply (next_counter _ _ _ _ _ _ _ d) in E
      as (H1 & H2 & H3 & H4); [|by apply wf_counter|done]. split; [done|].
    intros g. unfold logged. case_bool_decide; intros [= ->]. rewrite H2. auto.
  - apply (bump_counter _ _ _ _ _ _ d) in E as [H1 _]; [|done]. by split.
Qed.

Lemma steps_counter st st' d :
  rtc (fun a b => exists o, binlog_step false a o b) st st' ->
  wf st -> wf st' /\ counter st d <= counter st' d.
Proof.
  induction 1 as [st|st1 st2 st3 [o Hs] _ IH]; intros Hst; [split; [done|lia]|].
  destruct (IH (binlog_step_wf _ _ _ _ Hst Hs)) as [H1 H2]. split; [done|].
  apply (step_counter _ _ _ d) in Hs as [H3 _]; [|done]. lia.
Qed.

(** C20: A GTID allocated by [update_with_next_gtid] has a higher sequence
    number than every GTID logged in its domain before, by replication or by an
    earlier allocation, however the steps in between are ordered and also when
    lower numbers were logged since: no GTID is given out twice.  (As long as
    no counter of the domain wraps around at 2^64 and the state is not reset.) *)
Theorem next_gtid_fresh (st0 st1 st2 st3 : rpl_binlog_state) mem s r (g1 g2 : rpl_gtid) :
  wf st0 -> binlog_step false st0 (Some g1) st1 ->
  rtc (fun a b => exists o, binlog_step false a o b) st1 st2 ->
  counter st2 (domain_id g1) < 2 ^ 64 - 1 ->
  update_with_next_gtid mem st2 (domain_id g1) s = (r, g2, st3) ->
  seq_no g1 < seq_no g2.
Proof.
  intros Hst Hs Hsteps Hw E. pose proof (binlog_step_wf _ _ _ _ Hst Hs) as Hst1.
  apply (step_counter _ _ _ (domain_id g1)) in Hs as [_ Hs]; [|done].
  specialize (Hs g1 eq_refl).
  apply (steps_counter _ _ (domain_id g1)) in Hsteps as [Hst2 Hc]; [|done].
  apply (next_counter _ _ _ _ _ _ _ (domain_id g1)) in E as (_ & _ & -> & _);
    [lia|by apply wf_counter|done].
Qed.

(** ** What an update does *)

(** The domain's element after a successful update. *)
Definition updated (st : rpl_binlog_state) (g : rpl_gtid) : element :=
  match st !! domain_id g with
  | Some e => set_entry (set_counter e (Z.max (seq_no_counter e) (seq_no g))) (server_id g) g
  | None => mk_element (domain_id g) {[server_id g := g]} (Some (server_id g)) (seq_no g)
  end.

Lemma update_nolock_ok mem st g strict r st' :
  wf st -> is_gtid g -> update_nolock mem st g strict = (r, st') ->
  (r = UPDATE_OK -> st' = <[domain_id g := updated st g]> st) /\ (mem = true -> r <> ER_OUT_OF_RESOURCES).
Proof.
  intros Hst Hg. unfold update_nolock, updated. destruct (st !! domain_id g) as [e|] eqn:E.
  - destruct (strict && _); [by intros [= <- <-]|].
    set (e1 := if seq_no_counter e <? seq_no g then _ else _).
    assert (e1 = set_counter e (Z.max (seq_no_counter e) (seq_no g))) as ->.
    { unfold e1. destruct (Z.ltb_spec (seq_no_counter e) (seq_no g)).
      - by rewrite Z.max_r by lia.
      - rewrite Z.max_l by lia. by destruct e. }
    rewrite (update_element_eq _ (domain_id g)); [|apply set_counter_wf; [by apply Hst|]|done].
    + destruct mem; simpl; [intros [= <- <-]; done|].
      case_bool_decide; intros [= <- <-]; by split.
    + pose proof (wf_counter st (domain_id g) Hst) as H1. unfold counter in H1. rewrite E in H1.
      destruct Hg as (_ & _ & Hq). unfold is_u64 in *. lia.
  - unfold alloc_element_nolock. destruct mem; intros [= <- <-]; by split.
Qed.

Lemma updated_last st g : last_of (updated st g) = Some g.
Proof.
  unfold updated, last_of. destruct (st !! domain_id g); cbn.
  - apply lookup_insert_eq.
  - apply lookup_singleton_eq.
Qed.

Lemma updated_find st g s :
  elem_hash (updated st g) !! s =
  if decide (server_id g = s) then Some g else find st (domain_id g) s.
Proof.
  unfold updated, find, find_nolock. destruct (st !! domain_id g); cbn.
  - rewrite lookup_insert. by case_decide.
  - rewrite lookup_singleton. by case_decide.
Qed.

(** A successful update makes the GTID the most recent one of its domain
    and the record of its (domain, server) pair; every other pair keeps its
    record and every other domain its most recent GTID. *)
Theorem update_replaces mem strict (st st' : rpl_binlog_state) (g : rpl_gtid) :
  wf st -> is_gtid g -> update mem st g strict = (UPDATE_OK, st') ->
  find_most_recent st' (domain_id g) = Some g /\
  (forall d s, find st' d s =
     if decide (d = domain_id g /\ s = server_id g) then Some g else find st d s) /\
  (forall d, d <> domain_id g -> find_most_recent st' d = find_most_recent st d).
Proof.
  intros Hst Hg E. apply update_nolock_ok in E as [H _]; [|done..]. rewrite (H eq_refl).
  unfold find_most_recent. split_and!.
  - rewrite lookup_insert_eq. apply updated_last.
  - intros d s. unfold find at 1, find_nolock. destruct (decide (d = domain_id g)) as [->|Hd].
    + rewrite lookup_insert_eq, updated_find.
      destruct (decide (server_id g = s)) as [<-|]; [by rewrite decide_True|].
      rewrite decide_False; [done|naive_solver].
    + rewrite lookup_insert_ne by done. rewrite decide_False; [done|naive_solver].
  - intros d Hd. by rewrite lookup_insert_ne.
Qed.

(** Strict mode: an update is refused as out of order exactly when
    [check_strict_sequence] says so, and then changes nothing; an accepted one
    has a higher sequence number than the domain's most recent GTID. *)
Theorem strict_mode_in_order mem (st : rpl_binlog_state) (g : rpl_gtid) r st' :
  update mem st g true = (r, st') ->
  (r = ER_GTID_STRICT_OUT_OF_ORDER <->
   check_strict_sequence st (domain_id g) (server_id g) (seq_no g) = true) /\
  (r = ER_GTID_STRICT_OUT_OF_ORDER -> st' = st) /\
  (r = UPDATE_OK -> forall g0, find_most_recent st (domain_id g) = Some g0 ->
                    seq_no g0 < seq_no g).
Proof.
  unfold update, update_nolock, check_strict_sequence, find_most_recent.
  destruct (st !! domain_id g) as [e|].
  - cbn [andb]. destruct (last_of e) as [lg|]; [rewrite Z.geb_leb; destruct (Z.leb_spec (seq_no g) (seq_no lg))|].
    + intros [= <- <-]. done.
    + destruct (update_element _ _ _) as [[] e'].
      * intros [= <- <-]. split_and!; [done..|]. intros _ g0 [= ->]. lia.
      * intros [= <- <-]. done.
    + destruct (update_element _ _ _) as [[] e']; intros [= <- <-]; done.
  - destruct (alloc_element_nolock _ _ _) as [[] st1]; intros [= <- <-]; done.
Qed.

(** ** Logging a list of GTIDs *)

Definition log_all (st : rpl_binlog_state) (gtids : list rpl_gtid) : rpl_binlog_state :=
  fold_left (fun st g => <[domain_id g := updated st g]> st) gtids st.

Definition no_failure (_ : nat) : bool := true.

Lemma update_nolock_log st g :
  wf st -> is_gtid g ->
  update_nolock true st g false = (UPDATE_OK, <[domain_id g := updated st g]> st).
Proof.
  intros Hst Hg. destruct (update_nolock true st g false) as [r st'] eqn:E.
  assert (r <> ER_GTID_STRICT_OUT_OF_ORDER) as Hr.
  { unfold update_nolock in E. destruct (st !! domain_id g); cbn [andb] in E.
    - destruct (update_element _ _ _) as [[] ?]; by simplify_eq.
    - destruct (alloc_element_nolock _ _ _) as [[] ?]; by simplify_eq. }
  destruct (update_nolock_ok _ _ _ _ _ _ Hst Hg E) as [H1 H2].
  destruct r; [by rewrite H1|done|by specialize (H2 eq_refl)].
Qed.

Lemma load_loop_log gtids : forall i st,
  wf st -> Forall is_gtid gtids -> load_loop no_failure i st gtids = (false, log_all st gtids).
Proof.
  induction gtids as [|g gtids IH]; intros i st Hst Hg; [done|]. cbn [load_loop].
  apply list.Forall_cons in Hg as [Hg Hgs]. unfold no_failure at 1.
  assert (Hu := update_nolock_log st g Hst Hg). rewrite Hu. cbn.
  apply IH; [|done]. eapply update_nolock_wf; [exact Hst|exact Hg|exact Hu].
Qed.

Lemma gtid_line_text g : is_gtid g -> gtid_line g = gtid_text g ++ [chr_newline].
Proof.
  intros (Hd & Hs & _). unfold is_u32 in *. unfold gtid_line, gtid_text.
  rewrite (s64_small (domain_id g)), (s64_small (server_id g)) by lia.
  rewrite <-app_assoc. cbn [app]. by rewrite <-app_assoc.
Qed.

Lemma my_b_gets_line n line rest :
  Forall (fun c => c <> chr_newline) line -> (length line < n)%nat ->
  my_b_gets n (line ++ chr_newline :: rest) = Some (line ++ [chr_newline], rest).
Proof.
  revert n. induction line as [|c line IH]; intros [|n] Hl Hn; simpl in Hn; try lia; cbn [my_b_gets app].
  - by rewrite Z.eqb_refl.
  - apply list.Forall_cons in Hl as [Hc Hl]. destruct (Z.eqb_spec c chr_newline); [done|].
    by rewrite IH by (done || lia).
Qed.

Lemma gtid_text_line g :
  is_gtid g ->
  Forall (fun c => c <> chr_newline) (gtid_text g) /\ (length (gtid_text g) < LINE_CHARS)%nat.
Proof.
  intros (Hd & Hs & Hq). unfold is_u32, is_u64 in *. unfold gtid_text, LINE_CHARS.
  assert (Hdig : forall v, 0 <= v < 2 ^ 64 ->
    Forall (fun c => c <> chr_newline) (longlong10_to_str (s64 v) 10)).
  { intros v Hv. eapply list.Forall_impl; [apply (longlong10_to_str_digits v Hv)|].
    unfold is_digit, chr_newline. intros c Hc. lia. }
  assert (L1 : (length (longlong10_to_str (s64 (domain_id g)) 10) <= 10)%nat).
  { apply longlong10_to_str_length; [unfold is_u64; lia|].
    change (10 ^ Z.of_nat 10) with 10000000000. lia. }
  assert (L2 : (length (longlong10_to_str (s64 (server_id g)) 10) <= 10)%nat).
  { apply longlong10_to_str_length; [unfold is_u64; lia|].
    change (10 ^ Z.of_nat 10) with 10000000000. lia. }
  assert (L3 : (length (longlong10_to_str (s64 (seq_no g)) 10) <= 20)%nat).
  { apply longlong10_to_str_length; [unfold is_u64; lia|].
    change (10 ^ Z.of_nat 20) with 100000000000000000000. lia. }
  split.
  - apply list.Forall_app_2; [apply Hdig; lia|]. constructor; [done|].
    apply list.Forall_app_2; [apply Hdig; lia|]. constructor; [done|apply Hdig; lia].
  - rewrite length_app, length_cons, length_app, length_cons. lia.
Qed.

Lemma read_loop_log gtids : forall fuel i st,
  wf st -> Forall is_gtid gtids -> (length gtids < fuel)%nat ->
  read_loop fuel no_failure i st (concat (map gtid_line gtids)) = (0, log_all st gtids).
Proof.
  induction gtids as [|g gtids IH]; intros [|fuel] i st Hst Hg Hf; simpl in Hf; try lia; [done|].
  apply list.Forall_cons in Hg as [Hg Hgs]. cbn [read_loop map concat].
  destruct (gtid_text_line g Hg) as [Hn Hl].
  rewrite gtid_line_text by done. rewrite <-app_assoc. cbn [app].
  rewrite my_b_gets_line by done. rewrite gtid_parser_print by done.
  assert (Hu := update_nolock_log st g Hst Hg). unfold no_failure at 1. rewrite Hu. cbn -[read_loop].
  apply IH; [|done|lia]. eapply update_nolock_wf; [exact Hst|exact Hg|exact Hu].
Qed.

(** ** Logging the GTIDs of a domain *)

Definition max_seq (l : list rpl_gtid) : Z := foldr Z.max 0 (map seq_no l).

Definition log_hash (m : gmap Z rpl_gtid) (l : list rpl_gtid) : gmap Z rpl_gtid :=
  fold_left (fun m g => <[server_id g := g]> m) l m.

Lemma log_all_app st l1 l2 : log_all st (l1 ++ l2) = log_all (log_all st l1) l2.
Proof. apply fold_left_app. Qed.

Lemma log_all_snoc st l g :
  log_all st (l ++ [g]) = <[domain_id g := updated (log_all st l) g]> (log_all st l).
Proof. by rewrite log_all_app. Qed.

Lemma max_seq_snoc l g : 0 <= seq_no g -> max_seq (l ++ [g]) = Z.max (max_seq l) (seq_no g).
Proof. intros Hg. unfold max_seq. induction l as [|h l IH]; simpl in *; lia. Qed.

Lemma log_all_domain d l g st :
  st !! d = None -> Forall (fun g => is_gtid g /\ domain_id g = d) (l ++ [g]) ->
  log_all st (l ++ [g]) =
  <[d := mk_element d (log_hash ∅ (l ++ [g])) (Some (server_id g)) (max_seq (l ++ [g]))]> st.
Proof.
  intros Hd. revert g. induction l as [|h l IH] using rev_ind; intros g Hl.
  - apply list.Forall_app in Hl as [_ [[[_ [_ Hq]] Hg] _]%list.Forall_cons].
    unfold is_u64 in Hq. cbn. unfold updated. rewrite Hg, Hd. unfold max_seq. cbn.
    rewrite Z.max_l by lia. by rewrite insert_empty.
  - apply list.Forall_app in Hl as [Hl [[[_ [_ Hq]] Hg] _]%list.Forall_cons].
    unfold is_u64 in Hq. rewrite log_all_snoc, IH by done. rewrite Hg. unfold updated.
    rewrite Hg, lookup_insert_eq, insert_insert_eq. cbn. f_equal. unfold set_entry. cbn.
    rewrite (max_seq_snoc _ g) by lia. f_equal.
    unfold log_hash. rewrite (fold_left_app _ (l ++ [h]) [g]). done.
Qed.

Lemma log_hash_lookup l : forall m s,
  NoDup (map server_id l) ->
  (forall g, g ∈ l -> server_id g = s -> log_hash m l !! s = Some g) /\
  ((forall g, g ∈ l -> server_id g <> s) -> log_hash m l !! s = m !! s).
Proof.
  induction l as [|h l IH]; intros m s Hn.
  { split; [intros g Hg; by apply not_elem_of_nil in Hg|done]. }
  apply list.NoDup_cons in Hn as [Hh Hn]. cbn.
  destruct (IH (<[server_id h := h]> m) s Hn) as [H1 H2]. split.
  - intros g [->|Hg]%elem_of_cons Hs; [|by apply H1]. unfold log_hash in *. rewrite H2.
    + subst s. apply lookup_insert_eq.
    + intros g' Hg' Hs'. apply Hh. apply elem_of_list_map. exists g'. split; [congruence|done].
  - intros Hall. unfold log_hash in *. rewrite H2.
    + apply lookup_insert_ne. apply Hall, elem_of_cons. by left.
    + intros g Hg. apply Hall, elem_of_cons. by right.
Qed.

Lemma max_seq_perm l l' : l ≡ₚ l' -> max_seq l = max_seq l'.
Proof.
  unfold max_seq. induction 1 as [|x l l' _ IH|x y l|l1 l2 l3 _ IH1 _ IH2]; cbn; [done|..]; lia.
Qed.

(** ** Saving and reloading the state *)

(** What a domain looks like after its GTIDs were logged anew: the counter
    restarts from the highest sequence number, and a domain that only has a
    counter is lost. *)
Definition reloaded (e : element) : option element :=
  match last_gtid e with
  | None => None
  | Some s =>
      Some (mk_element (elem_domain e) (elem_hash e) (Some s)
              (max_seq (map_to_list (elem_hash e)).*2))
  end.

Section Reload.
Context `{Containers}.

Lemma elem_of_hash_elements {A} (m : gmap Z A) (x : A) :
  x ∈ hash_elements m <-> exists k, m !! k = Some x.
Proof. by rewrite hash_elements_perm, elem_of_map_values. Qed.

Lemma nodup_keys {A} (key : A -> Z) (m : gmap Z A) :
  (forall k x, m !! k = Some x -> key x = k) -> NoDup (map key (hash_elements m)).
Proof.
  intros Hk. change (map key) with (fmap (M := list) key). rewrite hash_elements_perm.
  assert (key <$> (map_to_list m).*2 = (map_to_list m).*1) as ->.
  { rewrite <-list_fmap_compose. apply list_fmap_ext. intros i [k x] Hi%list_elem_of_lookup_2.
    apply elem_of_map_to_list in Hi. by apply Hk. }
  apply NoDup_fst_map_to_list.
Qed.

Lemma wf_server_keys d e : elem_wf d e -> NoDup (map server_id (hash_elements (elem_hash e))).
Proof. intros (_ & _ & _ & Hh & _). apply nodup_keys. intros s g Hg. by apply Hh. Qed.

Lemma element_gtids_elem d e g :
  elem_wf d e -> g ∈ element_gtids e <-> elem_hash e !! server_id g = Some g.
Proof.
  intros (_ & _ & _ & Hh & Hl). unfold element_gtids, last_of.
  destruct (last_gtid e) as [s|] eqn:El.
  2:{ rewrite Hl, lookup_empty. split; [by intros ?%not_elem_of_nil|done]. }
  destruct Hl as [lg Hl]. rewrite Hl, elem_of_app, list_elem_of_filter, list_elem_of_singleton.
  rewrite elem_of_hash_elements. split.
  - intros [[_ [k Hk]]| ->]; [by destruct (Hh _ _ Hk) as (_ & -> & _)|].
    by destruct (Hh _ _ Hl) as (_ & -> & _).
  - intros Hg. destruct (decide (server_id g = server_id lg)) as [E|E]; [right|left; eauto].
    destruct (Hh _ _ Hl) as (_ & E' & _). rewrite E' in E. rewrite E in Hg. congruence.
Qed.

Lemma element_gtids_nodup d e : elem_wf d e -> NoDup (map server_id (element_gtids e)).
Proof.
  intros He. unfold element_gtids. destruct (last_of e) as [lg|]; [|constructor].
  change (map server_id) with (fmap (M := list) server_id). rewrite fmap_app.
  apply list.NoDup_app. split_and!.
  - apply (nodup_map_filter server_id). by eapply wf_server_keys.
  - intros s (g & -> & [Hg _]%list_elem_of_filter)%list_elem_of_fmap. cbn.
    by rewrite list_elem_of_singleton.
  - apply NoDup_singleton.
Qed.

Lemma element_gtids_perm d e : elem_wf d e -> element_gtids e ≡ₚ (map_to_list (elem_hash e)).*2.
Proof.
  intros He. apply NoDup_Permutation.
  - eapply NoDup_fmap_1. by eapply element_gtids_nodup.
  - rewrite <-hash_elements_perm. eapply NoDup_fmap_1. by eapply wf_server_keys.
  - intros g. rewrite (element_gtids_elem d), elem_of_map_values by done. split; [eauto|].
    intros [k Hk]. destruct He as (_ & _ & _ & Hh & _). by destruct (Hh _ _ Hk) as (_ & -> & _).
Qed.

Lemma element_gtids_wf d e : elem_wf d e -> Forall (fun g => is_gtid g /\ domain_id g = d) (element_gtids e).
Proof.
  intros He. apply list.Forall_forall. intros g Hg%(element_gtids_elem d); [|done].
  destruct He as (_ & _ & _ & Hh & _). destruct (Hh _ _ Hg) as (? & _ & ?). done.
Qed.

Lemma log_element d e st :
  elem_wf d e -> st !! d = None ->
  log_all st (element_gtids e) = match reloaded e with Some e' => <[d := e']> st | None => st end.
Proof.
  intros He Hd. assert (Hperm := element_gtids_perm d e He).
  assert (Hnd := element_gtids_nodup d e He). assert (Hw := element_gtids_wf d e He).
  assert (Hin := fun g => element_gtids_elem d e g He).
  unfold element_gtids, reloaded, last_of in *.
  destruct He as (Hdom & _ & _ & Hh & Hl).
  destruct (last_gtid e) as [s|]; [|done]. destruct Hl as [lg Hl]. rewrite Hl in *.
  rewrite (log_all_domain d) by done. rewrite Hdom.
  assert (server_id lg = s) as Es by (by destruct (Hh _ _ Hl) as (_ & ? & _)).
  rewrite Es in *. f_equal. f_equal; [|by apply max_seq_perm].
  apply map_eq. intros k.
  destruct (log_hash_lookup _ ∅ k Hnd) as [H1 H2].
  destruct (elem_hash e !! k) as [g|] eqn:Ek.
  - destruct (Hh _ _ Ek) as (_ & <- & _). apply H1; [|done]. by apply Hin.
  - rewrite H2; [apply lookup_empty|]. intros g Hg%Hin <-. congruence.
Qed.

Lemma log_elements es : forall st,
  NoDup (map elem_domain es) -> Forall (fun e => elem_wf (elem_domain e) e) es ->
  (forall e, e ∈ es -> st !! elem_domain e = None) -> forall d,
  (forall e, e ∈ es -> elem_domain e = d ->
     log_all st (concat (map element_gtids es)) !! d = reloaded e) /\
  ((forall e, e ∈ es -> elem_domain e <> d) ->
     log_all st (concat (map element_gtids es)) !! d = st !! d).
Proof.
  induction es as [|e es IH]; intros st Hn Hw Hst d.
  { split; [by intros e ?%not_elem_of_nil|done]. }
  apply list.NoDup_cons in Hn as [He Hn]. apply list.Forall_cons in Hw as [Hwe Hw].
  assert (Hse : st !! elem_domain e = None) by (apply Hst, elem_of_cons; by left).
  cbn [map concat]. rewrite log_all_app, (log_element (elem_domain e)) by done.
  set (st1 := match reloaded e with Some e' => _ | None => st end).
  assert (Hst1 : forall d', d' <> elem_domain e -> st1 !! d' = st !! d').
  { intros d' Hd'. unfold st1. destruct (reloaded e); [by rewrite lookup_insert_ne|done]. }
  assert (Hne : forall e', e' ∈ es -> elem_domain e' <> elem_domain e).
  { intros e' He' E. apply He. apply elem_of_list_map. eauto. }
  destruct (IH st1 Hn Hw) with (d := d) as [H1 H2].
  { intros e' He'. rewrite Hst1 by auto. apply Hst, elem_of_cons. by right. }
  split.
  - intros e' [->|He']%elem_of_cons Hd; [|by apply H1]. rewrite H2 by (subst d; auto).
    unfold st1. subst d. destruct (reloaded e); [apply lookup_insert_eq|done].
  - intros Hall. rewrite H2 by (intros e' He'; apply Hall, elem_of_cons; by right).
    apply Hst1. intros ->. eapply Hall; [|done]. apply elem_of_cons. by left.
Qed.

Lemma log_state st : wf st -> log_all reset (state_gtids st) = omap reloaded st.
Proof.
  intros Hst. apply map_eq. intros d. rewrite lookup_omap.
  assert (Hk : forall k e, st !! k = Some e -> elem_domain e = k) by (intros k e He; by apply Hst).
  destruct (log_elements (hash_elements st) reset) with (d := d) as [H1 H2].
  - by apply nodup_keys.
  - apply list.Forall_forall. intros e [k He]%elem_of_hash_elements.
    rewrite (Hk _ _ He). by apply Hst.
  - intros e _. apply lookup_empty.
  - unfold state_gtids. destruct (st !! d) as [e|] eqn:E; cbn.
    + apply H1; [apply elem_of_hash_elements; eauto|by apply Hk].
    + rewrite H2; [apply lookup_empty|]. intros e [k He]%elem_of_hash_elements Hd.
      rewrite (Hk _ _ He) in Hd. congruence.
Qed.

Lemma state_gtids_wf st : wf st -> Forall is_gtid (state_gtids st).
Proof.
  intros Hst. unfold state_gtids. apply List.Forall_concat, List.Forall_map, list.Forall_forall.
  intros e [k He]%elem_of_hash_elements.
  eapply list.Forall_impl; [apply (element_gtids_wf k); by apply Hst|]. by intros g [Hg _].
Qed.

Lemma write_loop_all gtids : forall room dest,
  (length gtids <= room)%nat ->
  write_loop room gtids dest = (0, dest ++ concat (map gtid_line gtids)).
Proof.
  induction gtids as [|g gtids IH]; intros room dest Hr; cbn [write_loop map concat].
  - by rewrite app_nil_r.
  - destruct room as [|room]; simpl in Hr; [lia|]. rewrite IH by lia. by rewrite <-app_assoc.
Qed.

(** C21: A state file written by [write_to_iocache] and read by
    [read_from_iocache] gives the state back, whatever order the hashes are
    walked in: every (domain, server) record, every sequence number up to
    2^64 - 1, and for each domain the same most recent GTID, because it is
    written last. *)
Theorem state_file_roundtrip (st st0 : rpl_binlog_state) (room : nat) :
  wf st -> (length (state_gtids st) <= room)%nat ->
  let '(res, file) := write_to_iocache room st [] in
  res = 0 /\ read_from_iocache no_failure st0 file = (0, omap reloaded st).
Proof.
  intros Hst Hr. unfold write_to_iocache. rewrite write_loop_all by done. cbn [app].
  split; [done|]. unfold read_from_iocache. rewrite <-log_state by done.
  apply read_loop_log; [apply wf_reset|by apply state_gtids_wf|].
  clear. induction (state_gtids st) as [|g l IH]; [simpl; lia|]. cbn [map concat length].
  rewrite length_app. unfold gtid_line at 1. rewrite !length_app. cbn [length]. lia.
Qed.

Lemma copy_gtids_all n gtids : forall out,
  (length out + length gtids <= n)%nat -> copy_gtids n gtids out = (false, out ++ gtids).
Proof.
  induction gtids as [|g gtids IH]; intros out Hn; cbn [copy_gtids].
  - by rewrite app_nil_r.
  - simpl in Hn. destruct (Nat.leb_spec n (length out)); [lia|].
    rewrite IH by (rewrite length_app; simpl; lia). by rewrite <-app_assoc.
Qed.

Lemma element_gtids_length d e : elem_wf d e -> length (element_gtids e) = size (elem_hash e).
Proof.
  intros He. rewrite (element_gtids_perm d e He), length_fmap. apply length_map_to_list.
Qed.

Lemma count_loop es : forall c,
  Forall (fun e => exists d, elem_wf d e) es ->
  0 <= c -> c + Z.of_nat (length (concat (map element_gtids es))) < 2 ^ 32 ->
  fold_left (fun c e => u32 (c + Z.of_nat (size (elem_hash e)))) es c
  = c + Z.of_nat (length (concat (map element_gtids es))).
Proof.
  induction es as [|e es IH]; intros c Hw Hc Hlt; cbn [fold_left map concat] in *.
  - cbn. lia.
  - apply list.Forall_cons in Hw as [[d He] Hw]. rewrite length_app in *.
    rewrite <-(element_gtids_length d e He) in *. rewrite u32_small by lia. rewrite IH by (done || lia). lia.
Qed.

Lemma count_gtids st :
  wf st -> Z.of_nat (length (state_gtids st)) < 2 ^ 32 ->
  count st = Z.of_nat (length (state_gtids st)).
Proof.
  intros Hst Hlt. unfold count, state_gtids in *. rewrite count_loop; [lia| |lia|lia].
  apply list.Forall_forall. intros e [k He]%elem_of_hash_elements. exists k. by apply Hst.
Qed.

(** A Gtid_list event carries the whole state: with the array size that
    [count] gives, [get_gtid_list] succeeds, and loading the list into another
    binlog state gives the same records and most recent GTIDs. *)
Theorem gtid_list_event_roundtrip (st st0 : rpl_binlog_state) :
  wf st -> Z.of_nat (length (state_gtids st)) < 2 ^ 32 ->
  let '(err, gtids) := get_gtid_list st (Z.to_nat (count st)) in
  err = false /\ load no_failure st0 gtids = (false, omap reloaded st).
Proof.
  intros Hst Hlt. rewrite count_gtids by done. unfold get_gtid_list.
  rewrite copy_gtids_all by (simpl; lia). cbn [app].
  split; [done|]. unfold load. rewrite load_loop_log, log_state; [done..|apply wf_reset|].
  by apply state_gtids_wf.
Qed.
End Reload.

Lemma most_recent_nodup `{Containers} st :
  wf st -> NoDup (map domain_id (omap last_of (hash_elements st))).
Proof.
  intros Hst. assert (Hn : NoDup (map elem_domain (hash_elements st)))
    by (apply nodup_keys; intros k e He; by apply (Hst _ _ He)).
  assert (Hd : forall e g, e ∈ hash_elements st -> last_of e = Some g -> domain_id g = elem_domain e).
  { intros e g [k He]%elem_of_hash_elements Hg. destruct (Hst _ _ He) as (-> & _ & _ & Hh & _).
    unfold last_of in Hg. destruct (last_gtid e); [|done]. by apply Hh in Hg as [? _]. }
  induction (hash_elements st) as [|e es IH]; cbn; [constructor|].
  apply list.NoDup_cons in Hn as [He Hn].
  assert (Hrest : NoDup (map domain_id (omap last_of es))).
  { apply IH; [done|]. intros e' g He'. apply Hd, elem_of_cons. by right. }
  destruct (last_of e) as [g|] eqn:E; [|done]. cbn. constructor; [|done].
  rewrite elem_of_list_map. intros (g' & Eg & (e' & He' & E')%list_elem_of_omap).
  apply He, elem_of_list_map. exists e'. split; [|done].
  rewrite <-(Hd e g), <-(Hd e' g'); [done|apply elem_of_cons; by right|done|apply elem_of_cons; by left|done].
Qed.

(** ** Limits *)

(** The error of a failed write is lost: the call always reports success. *)
Lemma write_error_lost `{Containers} room st dest : (write_to_iocache room st dest).1 = 0.
Proof.
  unfold write_to_iocache. revert room dest.
  induction (state_gtids st) as [|g l IH]; intros [|room] dest; cbn [write_loop]; auto.
Qed.

(** After 2^64 - 1 the next sequence number is 0. *)
Lemma next_seq_no_wraps mem st d s :
  counter st d = 2 ^ 64 - 1 -> seq_no (update_with_next_gtid mem st d s).1.2 = 0.
Proof.
  unfold counter, update_with_next_gtid. destruct (st !! d) as [e|]; [|discriminate].
  intros E. cbn -[u64]. rewrite E. by destruct (update_element _ _ _).
Qed.

(** ** Examples *)

Module Examples.

(** Two domains; in the first, server 2 logged last. *)
Definition sample_gtids : list rpl_gtid := [mk_gtid 1 1 5; mk_gtid 1 2 7; mk_gtid 2 1 3].
Definition sample : rpl_binlog_state := (load no_failure reset sample_gtids).2.

Ltac is_ids := repeat constructor; vm_compute; (discriminate || reflexivity).

Lemma sample_wf : wf sample.
Proof.
  apply (load_loop_wf no_failure sample_gtids 0 reset false);
    [apply wf_reset|is_ids|vm_compute; reflexivity].
Qed.

Lemma binlog_state_invariant_witness : wf (update true sample (mk_gtid 2 1 4) true).2.
Proof.
  apply binlog_state_invariant. apply rtc_l with sample; [|apply rtc_once].
  - right. apply (restart_load reset no_failure sample_gtids false);
      [is_ids|vm_compute; reflexivity].
  - left. exists (Some (mk_gtid 2 1 4)).
    apply (step_update true sample true (mk_gtid 2 1 4) true UPDATE_OK);
      [is_ids|vm_compute; reflexivity].
Defined.

(** Server 1 logs 1-1-9, a slave applies 1-2-8 in non-strict mode, then server
    1 allocates its next GTID. *)
Definition sample1 : rpl_binlog_state := (update true sample (mk_gtid 1 1 9) false).2.
Definition sample2 : rpl_binlog_state := (update true sample1 (mk_gtid 1 2 8) false).2.

Lemma next_gtid_fresh_witness : 9 < seq_no (mk_gtid 1 1 10).
Proof.
  apply (next_gtid_fresh sample sample1 sample2 (update_with_next_gtid true sample2 1 1).2
           true 1 UPDATE_OK (mk_gtid 1 1 9) (mk_gtid 1 1 10)).
  - apply sample_wf.
  - apply (step_update false sample true (mk_gtid 1 1 9) false UPDATE_OK);
      [is_ids|vm_compute; reflexivity].
  - apply rtc_once. exists (Some (mk_gtid 1 2 8)).
    apply (step_update false sample1 true (mk_gtid 1 2 8) false UPDATE_OK);
      [is_ids|vm_compute; reflexivity].
  - vm_compute. reflexivity.
  - vm_compute. reflexivity.
Defined.

Lemma update_replaces_witness :
  find_most_recent (update true sample (mk_gtid 1 1 6) false).2 1 = Some (mk_gtid 1 1 6).
Proof.
  apply (update_replaces true false sample (update true sample (mk_gtid 1 1 6) false).2
           (mk_gtid 1 1 6) sample_wf); [is_ids|vm_compute; reflexivity].
Defined.

Lemma strict_mode_in_order_witness :
  (update true sample (mk_gtid 1 1 6) true).1 = ER_GTID_STRICT_OUT_OF_ORDER.
Proof.
  apply (strict_mode_in_order true sample (mk_gtid 1 1 6)
           (update true sample (mk_gtid 1 1 6) true).1 (update true sample (mk_gtid 1 1 6) true).2);
    vm_compute; reflexivity.
Defined.

Lemma state_file_roundtrip_witness :
  let '(res, file) := write_to_iocache 3 sample [] in
  res = 0 /\ read_from_iocache no_failure reset file = (0, omap reloaded sample).
Proof. apply (state_file_roundtrip sample reset 3 sample_wf). vm_compute. lia. Defined.

Lemma gtid_list_event_roundtrip_witness :
  let '(err, gtids) := get_gtid_list sample (Z.to_nat (count sample)) in
  err = false /\ load no_failure reset gtids = (false, omap reloaded sample).
Proof. apply (gtid_list_event_roundtrip sample reset sample_wf). vm_compute. reflexivity. Defined.

(** A full disk at shutdown: the write stops after one line without an error,
    the file is read back without an error at the next start, and the next
    event of server 1 gets a GTID that has been used. *)
Lemma lost_write_reuses_gtid :
  let st := (load no_failure reset [mk_gtid 1 2 8; mk_gtid 1 1 9]).2 in
  let '(res, file) := write_to_iocache 1 st [] in
  let '(res', st') := read_from_iocache no_failure reset file in
  res = 0 /\ res' = 0 /\ find st 1 1 = Some (mk_gtid 1 1 9) /\
  (update_with_next_gtid true st' 1 1).1 = (UPDATE_OK, mk_gtid 1 1 9).
Proof. vm_compute. split_and!; reflexivity. Qed.

End Examples.
