(* ===== verification/SlaveState.v ===== *)
(** * The replication slave state

    [rpl_slave_state] (sql/rpl_gtid.cc) remembers the last GTID applied in each
    replication domain, in memory and in the table mysql.gtid_slave_pos.  The
    file models the in-memory hash, the bookkeeping of the table rows
    ([record_gtid]), the ownership protocol of --gtid-ignore-duplicates, and
    the positions derived from the state.

    A Relay_log_info (one per master connection) is a number; the state of an
    event group being applied is the record [rpl_group_info], of which the
    members used here are modelled.  [mem] arguments say whether the
    allocations of a call succeed. *)
From Stdlib Require Import ZArith Lia List Bool.
From stdpp Require Import base tactics list gmap relations sorting.
From S2P Require Import Prelude StrNum Gtid.
From S2P Require Import BinlogState.

Open Scope Z_scope.

(** ** State *)

Record list_element := mk_list_element {
  le_sub_id : Z; le_seq_no : Z; le_server_id : Z
}.

#[export] Instance list_element_eq_dec : EqDecision list_element.
Proof. solve_decision. Defined.

Record element := mk_element {
  elem_list : list list_element;
  elem_domain_id : Z;
  highest_seq_no : Z;
  gtid_waiter : option nat;
  min_wait_seq_no : Z;
  owner_rli : option nat;
  owner_count : Z
}.

Record rpl_slave_state := mk_slave_state {
  hash : gmap Z element;
  last_sub_id : Z;
  loaded : bool
}.

Inductive duplicate_state := GTID_DUPLICATE_NULL | GTID_DUPLICATE_IGNORE | GTID_DUPLICATE_OWNER.

#[export] Instance duplicate_state_eq_dec : EqDecision duplicate_state.
Proof. solve_decision. Defined.

Record rpl_group_info := mk_rgi {
  rgi_rli : nat;
  current_gtid : rpl_gtid;
  gtid_sub_id : Z;
  gtid_pending : bool;
  gtid_ignore_duplicate_state : duplicate_state
}.

Definition set_duplicate_state (rgi : rpl_group_info) (s : duplicate_state) : rpl_group_info :=
  mk_rgi (rgi_rli rgi) (current_gtid rgi) (gtid_sub_id rgi) (gtid_pending rgi) s.
Definition set_pending (rgi : rpl_group_info) (b : bool) : rpl_group_info :=
  mk_rgi (rgi_rli rgi) (current_gtid rgi) (gtid_sub_id rgi) b (gtid_ignore_duplicate_state rgi).

Definition set_list (e : element) (l : list list_element) : element :=
  mk_element l (elem_domain_id e) (highest_seq_no e) (gtid_waiter e) (min_wait_seq_no e)
    (owner_rli e) (owner_count e).
Definition set_highest (e : element) (n : Z) : element :=
  mk_element (elem_list e) (elem_domain_id e) n (gtid_waiter e) (min_wait_seq_no e)
    (owner_rli e) (owner_count e).
Definition set_waiter (e : element) (w : option nat) (n : Z) : element :=
  mk_element (elem_list e) (elem_domain_id e) (highest_seq_no e) w n (owner_rli e) (owner_count e).
Definition set_owner (e : element) (r : option nat) (n : Z) : element :=
  mk_element (elem_list e) (elem_domain_id e) (highest_seq_no e) (gtid_waiter e)
    (min_wait_seq_no e) r n.

Definition set_elem (st : rpl_slave_state) (d : Z) (e : element) : rpl_slave_state :=
  mk_slave_state (<[d := e]> (hash st)) (last_sub_id st) (loaded st).

Definition new_element (domain_id : Z) : element := mk_element [] domain_id 0 None 0 None 0.

(** ** Elements and lists *)

(** [get_element]: the element, which is now in the hash. *)
Definition get_element (mem : bool) (st : rpl_slave_state) (domain_id : Z)
  : option element * rpl_slave_state :=
  match hash st !! domain_id with
  | Some elem => (Some elem, st)
  | None =>
      if mem then (Some (new_element domain_id), set_elem st domain_id (new_element domain_id))
      else (None, st)
  end.

Definition add (e : element) (l : list_element) : element := set_list e (l :: elem_list e).

(** False: no element for the domain. *)
Definition put_back_list (st : rpl_slave_state) (domain_id : Z) (list : list list_element)
  : bool * rpl_slave_state :=
  match hash st !! domain_id with
  | None => (false, st)
  | Some e => (true, set_elem st domain_id (fold_left add list e))
  end.

Definition truncate_hash (st : rpl_slave_state) : rpl_slave_state :=
  mk_slave_state ∅ (last_sub_id st) (loaded st).

Definition next_sub_id (st : rpl_slave_state) (domain_id : Z) : Z * rpl_slave_state :=
  let sub_id := u64 (last_sub_id st + 1) in
  (sub_id, mk_slave_state (hash st) sub_id (loaded st)).

(** ** Ownership and updates *)

(** Gives up one reference to the domain, as the owner does. *)
Definition drop_owner (e : element) : element :=
  let count := u32 (owner_count e - 1) in
  if count =? 0 then set_owner e None count else set_owner e (owner_rli e) count.

Definition is_owner (rgi : rpl_group_info) : bool :=
  bool_decide (gtid_ignore_duplicate_state rgi = GTID_DUPLICATE_OWNER).

(** [mem] for the element of the domain, [mem'] for the list element; false
    is the error return. *)
Definition update (mem mem' : bool) (st : rpl_slave_state) (domain_id server_id sub_id seq_no : Z)
    (rgi : option rpl_group_info) : bool * rpl_slave_state * option rpl_group_info :=
  match get_element mem st domain_id with
  | (None, st) => (false, st, rgi)
  | (Some elem, st) =>
      let elem := if seq_no >? highest_seq_no elem then set_highest elem seq_no else elem in
      let elem :=
        match gtid_waiter elem with
        | Some _ =>
            if min_wait_seq_no elem <=? seq_no
            then set_waiter elem None (min_wait_seq_no elem) else elem
        | None => elem
        end in
      let '(elem, rgi) :=
        match rgi with
        | Some rgi =>
            (if is_owner rgi then drop_owner elem else elem,
             Some (set_duplicate_state rgi GTID_DUPLICATE_NULL))
        | None => (elem, None)
        end in
      if mem' then
        let elem := add elem (mk_list_element sub_id seq_no server_id) in
        let st := set_elem st domain_id elem in
        (true,
         if last_sub_id st <? sub_id then mk_slave_state (hash st) sub_id (loaded st) else st,
         rgi)
      else (false, set_elem st domain_id elem, rgi)
  end.

(** The failure of the update is only logged. *)
Definition update_state_hash (mem mem' : bool) (st : rpl_slave_state) (sub_id : Z) (gtid : rpl_gtid)
    (rgi : option rpl_group_info) : rpl_slave_state * option rpl_group_info :=
  let '(_, st, rgi) :=
    update mem mem' st (domain_id gtid) (server_id gtid) sub_id (seq_no gtid) rgi in
  (st, rgi).

(** One round of the loop of [check_duplicate_gtid], under LOCK_slave_state. *)
Inductive duplicate_check := DUP_SKIP | DUP_APPLY | DUP_ERROR | DUP_WAIT.

#[export] Instance duplicate_check_eq_dec : EqDecision duplicate_check.
Proof. solve_decision. Defined.

Definition check_duplicate_gtid (mem killed : bool) (st : rpl_slave_state) (gtid : rpl_gtid)
    (rgi : rpl_group_info) : duplicate_check * rpl_slave_state * rpl_group_info :=
  match get_element mem st (domain_id gtid) with
  | (None, st) => (DUP_ERROR, st, rgi)
  | (Some elem, st) =>
      if highest_seq_no elem >=? seq_no gtid then
        (DUP_SKIP, st, set_duplicate_state rgi GTID_DUPLICATE_IGNORE)
      else
        match owner_rli elem with
        | None =>
            (DUP_APPLY, set_elem st (domain_id gtid) (set_owner elem (Some (rgi_rli rgi)) 1),
             set_duplicate_state rgi GTID_DUPLICATE_OWNER)
        | Some r =>
            if decide (r = rgi_rli rgi) then
              (DUP_APPLY,
               set_elem st (domain_id gtid)
                 (set_owner elem (Some r) (u32 (owner_count elem + 1))),
               set_duplicate_state rgi GTID_DUPLICATE_OWNER)
            else if killed then (DUP_ERROR, st, rgi)
            else (DUP_WAIT, st, rgi)
        end
  end.

Definition release_domain_owner (mem : bool) (st : rpl_slave_state) (rgi : rpl_group_info)
  : rpl_slave_state * rpl_group_info :=
  match get_element mem st (domain_id (current_gtid rgi)) with
  | (None, st) => (st, rgi)
  | (Some elem, st) =>
      (if is_owner rgi
       then set_elem st (domain_id (current_gtid rgi)) (drop_owner elem) else st,
       set_duplicate_state rgi GTID_DUPLICATE_NULL)
  end.

(** [event_group_new_gtid] (sql/rpl_rli.cc): an event group with this GTID
    starts; false is the error return. *)
Definition event_group_new_gtid (st : rpl_slave_state) (rgi : rpl_group_info) (gev : rpl_gtid)
  : bool * rpl_slave_state * rpl_group_info :=
  let '(sub_id, st) := next_sub_id st (domain_id gev) in
  if sub_id =? 0 then (false, st, rgi)
  else (true, st, mk_rgi (rgi_rli rgi) gev sub_id true (gtid_ignore_duplicate_state rgi)).

(** ** Positions *)

Definition is_empty `{Containers} (st : rpl_slave_state) : bool :=
  forallb (fun e => match elem_list e with [] => true | _ => false end) (hash_elements (hash st)).

(** The loop of [domain_to_gtid]: among equal sub_ids the last element wins. *)
Fixpoint last_best (best : list_element) (l : list list_element) : list_element :=
  match l with
  | [] => best
  | le :: l => if le_sub_id best >? le_sub_id le then last_best best l else last_best le l
  end.

Definition domain_to_gtid (st : rpl_slave_state) (domain_id : Z) : option rpl_gtid :=
  match hash st !! domain_id with
  | None => None
  | Some elem =>
      match elem_list elem with
      | [] => None
      | le :: l =>
          let best := last_best le l in
          Some (mk_gtid domain_id (le_server_id best) (le_seq_no best))
      end
  end.

(** The loops of [iterate] and [record_gtid]: the first one wins. *)
Fixpoint first_best (best : list_element) (l : list list_element) : list_element :=
  match l with
  | [] => best
  | le :: l => if le_sub_id le >? le_sub_id best then first_best le l else first_best best l
  end.

(** The extra GTIDs with this server's id, by domain; none when two of them
    have the same domain or there is no memory for one ([mem]). *)
Fixpoint extra_hash (mem : rpl_gtid -> bool) (own_server_id : Z) (extra : list rpl_gtid) (h : gmap Z rpl_gtid)
  : option (gmap Z rpl_gtid) :=
  match extra with
  | [] => Some h
  | g :: extra =>
      if server_id g =? own_server_id then
        match h !! domain_id g with
        | Some _ => None
        | None => if mem g then extra_hash mem own_server_id extra (<[domain_id g := g]> h) else None
        end
      else extra_hash mem own_server_id extra h
  end.

(** The loop over the domains: the GTIDs in the order they are found and the
    extra GTIDs that are left. *)
Fixpoint iterate_elements (es : list element) (gtid_hash : gmap Z rpl_gtid) (out : list rpl_gtid)
  : list rpl_gtid * gmap Z rpl_gtid :=
  match es with
  | [] => (out, gtid_hash)
  | e :: es =>
      match elem_list e with
      | [] => iterate_elements es gtid_hash out
      | l :: ls =>
          let best := first_best l ls in
          let best_gtid := mk_gtid (elem_domain_id e) (le_server_id best) (le_seq_no best) in
          match gtid_hash !! domain_id best_gtid with
          | Some gtid =>
              let best_gtid := if seq_no gtid >? seq_no best_gtid then gtid else best_gtid in
              iterate_elements es (delete (elem_domain_id e) gtid_hash) (out ++ [best_gtid])
          | None => iterate_elements es gtid_hash (out ++ [best_gtid])
          end
      end
  end.

(** The GTIDs in the order they are found; none is the error return. *)
Definition iterate_gtids `{Containers} (mem : rpl_gtid -> bool) (own_server_id : Z) (st : rpl_slave_state)
    (extra_gtids : list rpl_gtid) : option (list rpl_gtid) :=
  match extra_hash mem own_server_id extra_gtids ∅ with
  | None => None
  | Some gtid_hash =>
      let '(out, gtid_hash) := iterate_elements (hash_elements (hash st)) gtid_hash [] in
      Some (out ++ hash_elements gtid_hash)
  end.

(** Calls [cb], which returns true for an error, until one fails. *)
Fixpoint call_each {D} (cb : D -> rpl_gtid -> bool * D) (data : D) (gtids : list rpl_gtid) : bool * D :=
  match gtids with
  | [] => (false, data)
  | g :: gtids =>
      let '(err, data) := cb data g in
      if err then (true, data) else call_each cb data gtids
  end.

(** With [sort] the GTIDs go through an array ([array_mem i]: there is memory
    for its [i]-th element), and when a callback fails then, the value returned
    is that of the last insertion into the array, which is success. *)
Definition iterate `{Containers} {D} (mem : rpl_gtid -> bool) (array_mem : nat -> bool) (own_server_id : Z)
    (st : rpl_slave_state) (cb : D -> rpl_gtid -> bool * D) (data : D) (extra_gtids : list rpl_gtid) (sort : bool)
  : bool * D :=
  match iterate_gtids mem own_server_id st extra_gtids with
  | None => (true, data)
  | Some gtids =>
      if sort then
        if forallb array_mem (seq 0 (length gtids)) then (false, (call_each cb data (sort_dynamic gtids)).2)
        else (true, data)
      else call_each cb data gtids
  end.

(** The calls of [String::append]; [append_ok n]: there is memory for the
    [n]-th of them.  Error, text, number of calls. *)
Fixpoint append_pieces (append_ok : nat -> bool) (n : nat) (dest : list Z) (pieces : list (list Z))
  : bool * list Z * nat :=
  match pieces with
  | [] => (false, dest, n)
  | p :: pieces =>
      if append_ok n then append_pieces append_ok (S n) (dest ++ p) pieces else (true, dest, S n)
  end.

(** What [rpl_slave_state_tostring_helper] appends for one GTID. *)
Definition gtid_pieces (gtid : rpl_gtid) (first : bool) : list (list Z) :=
  (if first then [] else [[chr_comma]]) ++
  [append_ulonglong [] (domain_id gtid); [chr_minus]; append_ulonglong [] (server_id gtid); [chr_minus];
   append_ulonglong [] (seq_no gtid)].

(** [dest], the flag [first] and the number of appends. *)
Definition rpl_slave_state_tostring_cb (append_ok : nat -> bool) (data : list Z * bool * nat) (gtid : rpl_gtid)
  : bool * (list Z * bool * nat) :=
  let '(dest, first, n) := data in
  let '(err, dest, n) := append_pieces append_ok n dest (gtid_pieces gtid first) in
  (err, (dest, false, n)).

Definition tostring `{Containers} (mem : rpl_gtid -> bool) (array_mem append_ok : nat -> bool) (own_server_id : Z)
    (st : rpl_slave_state) (dest : list Z) (extra_gtids : list rpl_gtid) : bool * list Z :=
  let '(err, (dest, _, _)) :=
    iterate mem array_mem own_server_id st (rpl_slave_state_tostring_cb append_ok) (dest, true, 0%nat) extra_gtids true in
  (err, dest).

(** [rpl_binlog_state::load] from a slave position. *)
Definition load_slave_pos `{Containers} (mem : rpl_gtid -> bool) (own_server_id : Z)
    (st : BinlogState.rpl_binlog_state) (slave_pos : rpl_slave_state)
  : bool * BinlogState.rpl_binlog_state :=
  iterate (fun _ => true) (fun _ => true) own_server_id slave_pos
    (fun st g => let '(r, st) := BinlogState.update_nolock (mem g) st g false in
                 (negb (bool_decide (r = UPDATE_OK)), st))
    BinlogState.reset [] false.

(** ** The table mysql.gtid_slave_pos

    Rows by their key (domain_id, sub_id).  [rows] is what the connection sees
    and [stable] what is there after a crash; they differ while a transaction
    is open.  A call of the table handler can fail with an error number at any
    of the points below.  A failure of [ha_index_read_map] is taken for a row
    that is not there. *)

Notation gtid_slave_pos := (gmap (Z * Z) (Z * Z)).

Record pos_table := mk_pos_table { rows : gtid_slave_pos; stable : gtid_slave_pos }.

Record table_errors := mk_table_errors {
  open_err : Z;
  check_err : Z;
  write_err : Z;
  index_err : Z;
  read_fails : Z -> bool;
  delete_err : Z -> Z;
  commit_err : Z
}.

(** The end of the statement: [ha_commit_trans] or [ha_rollback_trans].  An
    engine that is not [transactional] neither waits for the end of the
    transaction nor undoes anything. *)
Definition end_statement (transactional in_transaction : bool) (err : Z) (table : pos_table)
    (rows' : gtid_slave_pos) : pos_table :=
  if negb transactional then mk_pos_table rows' rows'
  else if err =? 0 then mk_pos_table rows' (if in_transaction then stable table else rows')
  else table.

(** The loop that deletes the rows of the elements: error, table, the elements
    that are left. *)
Fixpoint delete_rows (read_fails : Z -> bool) (delete_err : Z -> Z) (table : gtid_slave_pos) (domain_id : Z)
    (elist : list list_element) : Z * gtid_slave_pos * list list_element :=
  match elist with
  | [] => (0, table, [])
  | le :: next =>
      if bool_decide (table !! (domain_id, le_sub_id le) = None) || read_fails (le_sub_id le)
      then delete_rows read_fails delete_err table domain_id next
      else
        let err := delete_err (le_sub_id le) in
        if err =? 0
        then delete_rows read_fails delete_err (delete (domain_id, le_sub_id le) table) domain_id next
        else (err, table, next)
  end.

Definition prune_rows (errs : table_errors) (table : gtid_slave_pos) (domain_id : Z)
    (elist : list list_element) : Z * gtid_slave_pos * list list_element :=
  match elist with
  | [] => (0, table, [])
  | _ =>
      if negb (index_err errs =? 0) then (index_err errs, table, elist)
      else delete_rows (read_fails errs) (delete_err errs) table domain_id elist
  end.

(** Removes the element found by [first_best]: the list without it. *)
Fixpoint remove_best (best : list_element) (l : list list_element) : list list_element :=
  match l with
  | [] => []
  | le :: l => if decide (le = best) then l else le :: remove_best best l
  end.

(** Error number, slave state, table and binlog state.  [binlog] is the binlog
    state when the binlog is on, and [bump_mem] and [elem_mem] say whether the
    two allocations succeed. *)
Definition record_gtid (transactional : bool) (errs : table_errors) (bump_mem elem_mem : bool) (st : rpl_slave_state)
    (table : pos_table) (binlog : option BinlogState.rpl_binlog_state)
    (gtid : rpl_gtid) (sub_id : Z) (in_transaction : bool)
  : Z * rpl_slave_state * pos_table * option BinlogState.rpl_binlog_state :=
  let end_ := end_statement transactional in_transaction in
  if negb (loaded st) then (0, st, table, binlog)
  else if negb (open_err errs =? 0) then (open_err errs, st, table, binlog)
  else if negb (check_err errs =? 0) then (check_err errs, st, end_ (check_err errs) table (rows table), binlog)
  else if negb (write_err errs =? 0) then (write_err errs, st, end_ (write_err errs) table (rows table), binlog)
  else
    let rows' := <[(domain_id gtid, sub_id) := (server_id gtid, seq_no gtid)]> (rows table) in
    let '(bumped, binlog) :=
      match binlog with
      | None => (true, None)
      | Some b =>
          let '(ok, b) := bump_seq_no_if_needed bump_mem b (domain_id gtid) (seq_no gtid) in
          (ok, Some b)
      end in
    if negb bumped then (1, st, end_ 1 table rows', binlog)
    else
      match get_element elem_mem st (domain_id gtid) with
      | (None, st) => (1, st, end_ 1 table rows', binlog)
      | (Some elem, st) =>
          match elem_list elem with
          | [] => (commit_err errs, st, end_ (commit_err errs) table rows', binlog)
          | le :: l =>
              let best := first_best le l in
              let elist := remove_best best (le :: l) in
              let st := set_elem st (domain_id gtid) (set_list elem [best]) in
              let '(err, rows', elist) := prune_rows errs rows' (domain_id gtid) elist in
              let err := if err =? 0 then commit_err errs else err in
              (err, if err =? 0 then st else (put_back_list st (domain_id gtid) elist).2,
               end_ err table rows', binlog)
          end
      end.

(** [binlog] as in [record_gtid]. *)
Definition record_and_update_gtid (transactional : bool) (errs : table_errors) (bump_mem elem_mem list_mem : bool)
    (st : rpl_slave_state) (table : pos_table)
    (binlog : option BinlogState.rpl_binlog_state) (rgi : rpl_group_info)
  : Z * rpl_slave_state * pos_table * option BinlogState.rpl_binlog_state
    * rpl_group_info :=
  if gtid_pending rgi then
    let sub_id := gtid_sub_id rgi in
    let rgi := set_pending rgi false in
    if bool_decide (gtid_ignore_duplicate_state rgi <> GTID_DUPLICATE_IGNORE) then
      let '(err, st, table, binlog) :=
        record_gtid transactional errs bump_mem elem_mem st table binlog (current_gtid rgi) sub_id false in
      if negb (err =? 0) then (1, st, table, binlog, rgi)
      else
        let '(st, rgi') := update_state_hash elem_mem list_mem st sub_id (current_gtid rgi) (Some rgi) in
        (0, st, table, binlog,
         set_duplicate_state (default rgi rgi') GTID_DUPLICATE_NULL)
    else (0, st, table, binlog, set_duplicate_state rgi GTID_DUPLICATE_NULL)
  else (0, st, table, binlog, rgi).

(** ** Loading a position

    The faults of the [i]-th GTID are [faults i]. *)

Record load_faults := mk_load_faults {
  lf_errs : table_errors; lf_bump_mem : bool; lf_elem_mem : bool; lf_list_mem : bool
}.

Fixpoint load_loop (fuel : nat) (transactional : bool) (faults : nat -> load_faults) (i : nat) (st : rpl_slave_state)
    (table : pos_table) (binlog : option BinlogState.rpl_binlog_state)
    (state_from_master : list Z)
  : Z * rpl_slave_state * pos_table * option BinlogState.rpl_binlog_state :=
  match fuel with
  | O => (1, st, table, binlog)
  | S fuel =>
      match gtid_parser_helper state_from_master with
      | None => (1, st, table, binlog)
      | Some (gtid, state_from_master) =>
          let '(sub_id, st) := next_sub_id st (domain_id gtid) in
          if sub_id =? 0 then (1, st, table, binlog)
          else
            let f := faults i in
            let '(err, st, table, binlog) :=
              record_gtid transactional (lf_errs f) (lf_bump_mem f) (lf_elem_mem f) st table binlog gtid sub_id false in
            if negb (err =? 0) then (1, st, table, binlog)
            else
              let '(ok, st, _) :=
                update (lf_elem_mem f) (lf_list_mem f) st (domain_id gtid) (server_id gtid) sub_id
                  (seq_no gtid) None in
              if negb ok then (1, st, table, binlog)
              else
                match state_from_master with
                | [] => (0, st, table, binlog)
                | c :: state_from_master =>
                    if c =? chr_comma
                    then load_loop fuel transactional faults (S i) st table binlog state_from_master
                    else (1, st, table, binlog)
                end
      end
  end.

(** [truncate_err]: the result of [truncate_state_table], which empties the
    table when it succeeds.  Every GTID has at least one character. *)
Definition load (transactional : bool) (faults : nat -> load_faults) (truncate_err : Z) (st : rpl_slave_state)
    (table : pos_table) (binlog : option BinlogState.rpl_binlog_state)
    (state_from_master : list Z) (reset : bool)
  : Z * rpl_slave_state * pos_table * option BinlogState.rpl_binlog_state :=
  if reset && negb (truncate_err =? 0) then (1, st, table, binlog)
  else
    let st := if reset then truncate_hash st else st in
    let table := if reset then mk_pos_table ∅ ∅ else table in
    match state_from_master with
    | [] => (0, st, table, binlog)
    | _ => load_loop (S (length state_from_master)) transactional faults 0 st table binlog state_from_master
    end.

(** ** The ownership protocol

    Event groups are applied by several threads; [rgis] holds their
    [rpl_group_info]s by thread.  A thread starts an event group, asks whether
    it is a duplicate, and finishes it by the update after its commit or by
    giving the domain up.  An update without an event group comes from a list
    of GTIDs to ignore. *)

Definition owns (d : Z) (r : rpl_group_info) : bool :=
  is_owner r && (domain_id (current_gtid r) =? d).

Definition owners (d : Z) (rgis : gmap nat rpl_group_info) : gmap nat rpl_group_info :=
  filter (fun ir => owns d ir.2 = true) rgis.

Inductive dup_step : rpl_slave_state * gmap nat rpl_group_info ->
                     rpl_slave_state * gmap nat rpl_group_info -> Prop :=
| dup_new st rgis i r gev ok st' r' :
    rgis !! i = Some r -> is_owner r = false ->
    event_group_new_gtid st r gev = (ok, st', r') ->
    dup_step (st, rgis) (st', <[i := r']> rgis)
| dup_check mem killed st rgis i r res st' r' :
    rgis !! i = Some r -> is_owner r = false ->
    check_duplicate_gtid mem killed st (current_gtid r) r = (res, st', r') ->
    dup_step (st, rgis) (st', <[i := r']> rgis)
| dup_commit mem mem' st rgis i r sub_id st' r' :
    rgis !! i = Some r ->
    update_state_hash mem mem' st sub_id (current_gtid r) (Some r) = (st', Some r') ->
    dup_step (st, rgis) (st', <[i := r']> rgis)
| dup_release mem st rgis i r st' r' :
    rgis !! i = Some r -> release_domain_owner mem st r = (st', r') ->
    dup_step (st, rgis) (st', <[i := r']> rgis)
| dup_ignored mem mem' st rgis sub_id gtid st' :
    update_state_hash mem mem' st sub_id gtid None = (st', None) ->
    dup_step (st, rgis) (st', rgis).

(** The owner count of a domain is the number of threads that own it, and the
    owner is their master connection. *)
Definition owner_inv (e : option element) (own : gmap nat rpl_group_info) : Prop :=
  match e with
  | None => own = ∅
  | Some e =>
      owner_count e = Z.of_nat (size own) /\
      (owner_rli e = None <-> own = ∅) /\
      (forall i r, own !! i = Some r -> owner_rli e = Some (rgi_rli r))
  end.

Definition dup_inv (s : rpl_slave_state * gmap nat rpl_group_info) : Prop :=
  forall d, owner_inv (hash s.1 !! d) (owners d s.2).

Lemma owners_lookup d rgis i r :
  owners d rgis !! i = Some r <-> rgis !! i = Some r /\ owns d r = true.
Proof. unfold owners. by rewrite map_lookup_filter_Some. Qed.

(** Replacing a thread's record. *)
Lemma owners_insert d rgis i r' :
  owners d (<[i := r']> rgis) =
  if owns d r' then <[i := r']> (owners d rgis) else delete i (owners d rgis).
Proof.
  unfold owners. destruct (owns d r') eqn:E.
  - by apply map_filter_insert_True.
  - rewrite map_filter_insert_False by (simpl; congruence). by rewrite map_filter_delete.
Qed.

Lemma owners_insert_same d rgis i r r' :
  rgis !! i = Some r -> owns d r = false -> owns d r' = false ->
  owners d (<[i := r']> rgis) = owners d rgis.
Proof.
  intros Hi Hr Hr'. rewrite owners_insert, Hr'. apply delete_id.
  apply eq_None_not_Some. intros [x Hx]. apply owners_lookup in Hx as [Hx1 Hx2]. congruence.
Qed.

Lemma owns_other_domain d r : domain_id (current_gtid r) <> d -> owns d r = false.
Proof. unfold owns. intros H. destruct (Z.eqb_spec (domain_id (current_gtid r)) d); [done|]. apply andb_false_r. Qed.

Lemma owns_not_owner d r : is_owner r = false -> owns d r = false.
Proof. unfold owns. by intros ->. Qed.

(** A thread joins the owners of its domain. *)
Lemma owner_inv_acquire e own i r' :
  owner_inv (Some e) own -> own !! i = None -> Z.of_nat (size own) + 1 < 2 ^ 32 ->
  owner_rli e = None \/ owner_rli e = Some (rgi_rli r') ->
  owner_inv (Some (set_owner e (Some (rgi_rli r'))
                     (if decide (owner_rli e = None) then 1 else u32 (owner_count e + 1))))
    (<[i := r']> own).
Proof.
  intros (Hc & Hn & Hr) Hi Hs Ho. cbn [owner_inv set_owner owner_count owner_rli].
  rewrite map_size_insert_None by done. split_and!.
  - case_decide as E.
    + apply Hn in E as ->. rewrite map_size_empty. lia.
    + rewrite u32_small; lia.
  - split; [done|]. by intros ?%insert_non_empty.
  - intros j r [[<- <-]|[_ Hj]]%lookup_insert_Some; [done|].
    apply Hr in Hj. destruct Ho; congruence.
Qed.

(** A thread leaves them. *)
Lemma owner_inv_drop e own i r :
  owner_inv (Some e) own -> own !! i = Some r -> Z.of_nat (size own) < 2 ^ 32 ->
  owner_inv (Some (drop_owner e)) (delete i own).
Proof.
  intros (Hc & Hn & Hr) Hi Hs.
  assert (Hsz : size own = S (size (delete i own))).
  { rewrite <-(insert_delete_id own i r Hi) at 1.
    rewrite map_size_insert_None; [done|apply lookup_delete_eq]. }
  unfold drop_owner. rewrite Hc, u32_small by lia.
  destruct (Z.eqb_spec (Z.of_nat (size own) - 1) 0) as [E|E].
  - assert (delete i own = ∅) as -> by (apply map_size_empty_iff; lia).
    cbn. rewrite map_size_empty. split_and!; [lia|done|].
    intros j x Hx. rewrite lookup_empty in Hx. done.
  - cbn. split_and!; [lia| |].
    + split; [intros H%Hn; rewrite H, lookup_empty in Hi; done|].
      intros H. rewrite H, map_size_empty in Hsz. lia.
    + intros j x [_ Hx]%lookup_delete_Some. by eapply Hr.
Qed.

Lemma owner_inv_ext e e' own :
  owner_rli e' = owner_rli e -> owner_count e' = owner_count e ->
  owner_inv (Some e) own -> owner_inv (Some e') own.
Proof. cbn. intros -> ->. done. Qed.

(** What [get_element] leaves in the hash. *)
Definition got (st : rpl_slave_state) (d : Z) (e : element) (st' : rpl_slave_state) : Prop :=
  hash st' !! d = Some e /\ (forall d', d' <> d -> hash st' !! d' = hash st !! d') /\
  (hash st !! d = Some e \/ hash st !! d = None /\ e = new_element d).

Lemma get_element_spec mem st d oe st' :
  get_element mem st d = (oe, st') ->
  match oe with
  | Some e => got st d e st'
  | None => st' = st /\ hash st !! d = None
  end.
Proof.
  unfold get_element, got. destruct (hash st !! d) as [e|] eqn:E; [intros [= <- <-]; auto|].
  destruct mem; intros [= <- <-]; [|done]. cbn. split_and!.
  - apply lookup_insert_eq.
  - intros d' Hd. by apply lookup_insert_ne.
  - auto.
Qed.

Lemma got_inv st d e st' own : got st d e st' -> owner_inv (hash st !! d) own -> owner_inv (Some e) own.
Proof.
  intros (_ & _ & [-> | [-> ->]]) H; [done|]. cbn in *. subst own. rewrite map_size_empty.
  split_and!; [done..|]. intros i r. by rewrite lookup_empty.
Qed.

(** The element after an update, as far as ownership and duplicates go. *)
Lemma update_state_hash_spec mem mem' st sub_id g rgi st' rgi' :
  update_state_hash mem mem' st sub_id g rgi = (st', rgi') ->
  (st' = st /\ rgi' = rgi /\ hash st !! domain_id g = None) \/
  exists e e' st1,
    got st (domain_id g) e st1 /\ hash st' = <[domain_id g := e']> (hash st1) /\
    owner_rli e' = owner_rli (if match rgi with Some r => is_owner r | None => false end
                              then drop_owner e else e) /\
    owner_count e' = owner_count (if match rgi with Some r => is_owner r | None => false end
                                  then drop_owner e else e) /\
    highest_seq_no e' = Z.max (highest_seq_no e) (seq_no g) /\
    rgi' = (fun r => set_duplicate_state r GTID_DUPLICATE_NULL) <$> rgi.
Proof.
  unfold update_state_hash, update.
  destruct (get_element mem st (domain_id g)) as [[e|] st1] eqn:E; apply get_element_spec in E.
  2:{ destruct E as [-> E]. intros [= <- <-]. auto. }
  set (e1 := if seq_no g >? highest_seq_no e then set_highest e (seq_no g) else e).
  set (e2 := match gtid_waiter e1 with Some _ => _ | None => e1 end).
  assert (H1 : owner_rli e2 = owner_rli e /\ owner_count e2 = owner_count e /\
    highest_seq_no e2 = Z.max (highest_seq_no e) (seq_no g)).
  { assert (highest_seq_no e1 = Z.max (highest_seq_no e) (seq_no g)).
    { unfold e1. rewrite Z.gtb_ltb. destruct (Z.ltb_spec (highest_seq_no e) (seq_no g)); cbn; lia. }
    assert (owner_rli e1 = owner_rli e /\ owner_count e1 = owner_count e) as [? ?]
      by (unfold e1; by destruct (_ >? _)).
    unfold e2. destruct (gtid_waiter e1); [destruct (_ <=? _)|]; done. }
  clearbody e2. clear e1. destruct H1 as (H1 & H2 & H3).
  assert (Hd : forall b, owner_rli (if b : bool then drop_owner e2 else e2)
      = owner_rli (if b then drop_owner e else e) /\
    owner_count (if b then drop_owner e2 else e2) = owner_count (if b then drop_owner e else e) /\
    highest_seq_no (if b then drop_owner e2 else e2) = highest_seq_no e2).
  { intros []; [|done]. unfold drop_owner. rewrite H1, H2. by destruct (_ =? _). }
  intros Hu. right. destruct rgi as [r|].
  - destruct (Hd (is_owner r)) as (D1 & D2 & D3).
    exists e, (if mem' then add (if is_owner r then drop_owner e2 else e2)
                          (mk_list_element sub_id (seq_no g) (server_id g))
               else if is_owner r then drop_owner e2 else e2), st1.
    destruct mem'; [destruct (_ <? _) in Hu|]; injection Hu as <- <-; cbn;
      rewrite D1, D2, D3, H3; done.
  - exists e, (if mem' then add e2 (mk_list_element sub_id (seq_no g) (server_id g)) else e2), st1.
    destruct mem'; [destruct (_ <? _) in Hu|]; injection Hu as <- <-; cbn; done.
Qed.

Lemma is_owner_set r s : is_owner (set_duplicate_state r s) = bool_decide (s = GTID_DUPLICATE_OWNER).
Proof. done. Qed.

Lemma owns_set d r s :
  owns d (set_duplicate_state r s) =
  bool_decide (s = GTID_DUPLICATE_OWNER) && (domain_id (current_gtid r) =? d).
Proof. done. Qed.

(** Invariants of the other domains and of this one give the invariant. *)
Lemma dup_inv_update st rgis st' rgis' d0 :
  dup_inv (st, rgis) ->
  (forall d, d <> d0 -> hash st' !! d = hash st !! d /\ owners d rgis' = owners d rgis) ->
  owner_inv (hash st' !! d0) (owners d0 rgis') ->
  dup_inv (st', rgis').
Proof.
  intros Hinv Hne H0 d. cbn. destruct (decide (d = d0)) as [->|Hd]; [done|].
  destruct (Hne d Hd) as [-> ->]. apply (Hinv d).
Qed.

Lemma owners_size d rgis : (size (owners d rgis) <= size rgis)%nat.
Proof. apply map_subseteq_size, map_filter_subseteq. Qed.

(** A thread whose record loses its ownership, if it had any, in its domain;
    [drops] says the element gave the reference up. *)
Lemma finish_group_inv st rgis st1 st' i r r' e e' :
  dup_inv (st, rgis) -> Z.of_nat (size rgis) < 2 ^ 32 -> rgis !! i = Some r ->
  got st (domain_id (current_gtid r)) e st1 ->
  hash st' = <[domain_id (current_gtid r) := e']> (hash st1) ->
  owner_rli e' = owner_rli (if is_owner r then drop_owner e else e) ->
  owner_count e' = owner_count (if is_owner r then drop_owner e else e) ->
  r' = set_duplicate_state r GTID_DUPLICATE_NULL ->
  dup_inv (st', <[i := r']> rgis).
Proof.
  intros Hinv Hsz Hi Hg Hst' H1 H2 ->. set (d0 := domain_id (current_gtid r)) in *.
  apply (dup_inv_update st rgis _ _ d0); [done| |].
  - intros d Hd. destruct Hg as (_ & Hg & _). rewrite Hst', lookup_insert_ne, Hg by done.
    split; [done|]. apply (owners_insert_same d _ _ r); [done|by apply owns_other_domain|].
    by rewrite owns_set.
  - rewrite Hst', lookup_insert_eq, owners_insert, owns_set. cbn [andb bool_decide].
    rewrite bool_decide_false by done. cbn [andb].
    apply (got_inv _ _ _ _ (owners d0 rgis)) in Hg; [|apply (Hinv d0)].
    apply (owner_inv_ext _ _ _ H1 H2). destruct (is_owner r) eqn:Eo.
    + apply (owner_inv_drop _ _ _ r); [done| |].
      * apply owners_lookup. split; [done|]. unfold owns. rewrite Eo. by apply Z.eqb_refl.
      * pose proof (owners_size d0 rgis). lia.
    + rewrite delete_id; [done|]. apply eq_None_not_Some. intros [x Hx].
      apply owners_lookup in Hx as [Hx Hx2]. assert (x = r) as -> by congruence.
      unfold owns in Hx2. rewrite Eo in Hx2. done.
Qed.

Lemma check_duplicate_inv mem killed st rgis i r res st' r' :
  dup_inv (st, rgis) -> Z.of_nat (size rgis) < 2 ^ 32 -> rgis !! i = Some r -> is_owner r = false ->
  check_duplicate_gtid mem killed st (current_gtid r) r = (res, st', r') ->
  dup_inv (st', <[i := r']> rgis).
Proof.
  intros Hinv Hsz Hi Ho. unfold check_duplicate_gtid. set (d0 := domain_id (current_gtid r)).
  assert (Hno : forall d, owners d rgis !! i = None).
  { intros d. apply eq_None_not_Some. intros [x [Hx Hx2]%owners_lookup].
    assert (x = r) as -> by congruence. unfold owns in Hx2. by rewrite Ho in Hx2. }
  assert (Hkeep : forall d s, s <> GTID_DUPLICATE_OWNER ->
    owners d (<[i := set_duplicate_state r s]> rgis) = owners d rgis).
  { intros d s Hs. apply (owners_insert_same d _ _ r); [done|by apply owns_not_owner|].
    rewrite owns_set, bool_decide_false by done. done. }
  destruct (get_element mem st d0) as [[e|] st1] eqn:E; apply get_element_spec in E.
  2:{ destruct E as [-> _]. intros [= <- <- <-]. by rewrite insert_id. }
  assert (He := got_inv _ _ _ _ _ E (Hinv d0)). cbn in He.
  destruct E as (E1 & E2 & _).
  assert (Hsame : forall rgis', (forall d, owners d rgis' = owners d rgis) -> dup_inv (st1, rgis')).
  { intros rgis' Hr. apply (dup_inv_update st rgis _ _ d0); [done| |by rewrite E1, Hr].
    intros d Hd. by rewrite E2, Hr. }
  assert (Hacq : forall n, owner_rli e = None \/ owner_rli e = Some (rgi_rli r) ->
    n = (if decide (owner_rli e = None) then 1 else u32 (owner_count e + 1)) ->
    dup_inv (set_elem st1 d0 (set_owner e (Some (rgi_rli r)) n),
             <[i := set_duplicate_state r GTID_DUPLICATE_OWNER]> rgis)).
  { intros n Hor ->. apply (dup_inv_update st rgis _ _ d0); [done| |].
    - intros d Hd. cbn [set_elem hash]. rewrite lookup_insert_ne, E2 by done. split; [done|].
      apply (owners_insert_same d _ _ r); [done|by apply owns_not_owner|by apply owns_other_domain].
    - cbn [set_elem hash]. rewrite lookup_insert_eq, owners_insert, owns_set, bool_decide_true by done.
      fold d0. rewrite Z.eqb_refl. cbn [andb].
      apply (owner_inv_acquire e _ i (set_duplicate_state r GTID_DUPLICATE_OWNER)); [done|apply Hno| |done].
      assert (size (owners d0 rgis) < size rgis)%nat; [|lia].
      apply map_subset_size. split; [apply map_filter_subseteq|]. intros Hs.
      eapply lookup_weaken in Hs; [|exact Hi]. rewrite Hno in Hs. done. }
  destruct (_ >=? _); [intros [= <- <- <-]; apply Hsame; intros; by apply Hkeep|].
  destruct (owner_rli e) as [o|] eqn:Eo.
  - destruct (decide (o = rgi_rli r)) as [->|].
    + intros [= <- <- <-]. apply Hacq; [auto|done].
    + destruct killed; intros [= <- <- <-]; apply Hsame; intros; by rewrite insert_id.
  - intros [= <- <- <-]. apply Hacq; [auto|done].
Qed.

Lemma dup_step_inv s s' :
  dup_inv s -> Z.of_nat (size s.2) < 2 ^ 32 -> dup_step s s' -> dup_inv s' /\ size s'.2 = size s.2.
Proof.
  assert (Hsize : forall (rgis : gmap nat rpl_group_info) i r r',
    rgis !! i = Some r -> size (<[i := r']> rgis) = size rgis).
  { intros rgis i r r' Hi. apply map_size_insert_Some. eauto. }
  intros Hinv Hsz Hs. destruct Hs as [st rgis i r gev ok st' r' Hi Ho E
    |mem killed st rgis i r res st' r' Hi Ho E|mem mem' st rgis i r sub_id st' r' Hi E
    |mem st rgis i r st' r' Hi E|mem mem' st rgis sub_id gtid st' E];
    cbn in Hsz |- *; (split; [|try by eapply Hsize]); [| | | | |done].
  - assert (hash st' = hash st /\ is_owner r' = false) as [Hh Hr].
    { unfold event_group_new_gtid in E. destruct (next_sub_id _ _) as [n st1] eqn:En.
      injection En as <- <-. destruct (_ =? 0); injection E as <- <- <-; by split. }
    intros d. cbn. rewrite Hh, (owners_insert_same d _ _ r); [apply (Hinv d)|done|..];
      by apply owns_not_owner.
  - by eapply check_duplicate_inv.
  - apply update_state_hash_spec in E
      as [(-> & [= ->] & E)|(e & e' & st1 & Hg & Hh & H1 & H2 & _ & [= ->])].
    + by rewrite insert_id.
    + by eapply finish_group_inv.
  - unfold release_domain_owner in E.
    destruct (get_element _ _ _) as [[e|] st1] eqn:Eg; apply get_element_spec in Eg.
    2:{ destruct Eg as [-> _]. injection E as <- <-. by rewrite insert_id. }
    injection E as <- <-.
    eapply (finish_group_inv st rgis st1 _ i r _ e (if is_owner r then drop_owner e else e));
      try done. destruct Eg as (Eg & _). destruct (is_owner r); [done|]. by rewrite insert_id.
  - apply update_state_hash_spec in E as [(-> & _)|(e & e' & st1 & Hg & Hh & H1 & H2 & _)]; [done|].
    apply (dup_inv_update st rgis _ _ (domain_id gtid)); [done| |].
    + intros d Hd. rewrite Hh, lookup_insert_ne by done. split; [by apply Hg|done].
    + rewrite Hh, lookup_insert_eq. apply (owner_inv_ext e); [done..|].
      apply (got_inv _ _ _ _ _ Hg). apply (Hinv (domain_id gtid)).
Qed.

(** No thread owns a domain yet. *)
Definition dup_start (s : rpl_slave_state * gmap nat rpl_group_info) : Prop :=
  map_Forall (fun _ e => owner_rli e = None /\ owner_count e = 0) (hash s.1) /\
  map_Forall (fun _ r => is_owner r = false) s.2.

Lemma dup_start_inv s : dup_start s -> dup_inv s.
Proof.
  intros [He Hr] d. assert (owners d s.2 = ∅) as ->.
  { apply map_empty. intros i. apply eq_None_not_Some. intros [r [Hi Hx]%owners_lookup].
    rewrite (owns_not_owner d r) in Hx; [done|]. by apply (Hr i). }
  destruct (hash s.1 !! d) as [e|] eqn:E; [|done]. destruct (He _ _ E) as [H1 H2]. cbn.
  rewrite map_size_empty. split_and!; [done..|]. intros i r. by rewrite lookup_empty.
Qed.

Lemma dup_steps_inv s s' :
  rtc dup_step s s' -> dup_inv s -> Z.of_nat (size s.2) < 2 ^ 32 ->
  dup_inv s' /\ size s'.2 = size s.2.
Proof.
  induction 1 as [s|s1 s2 s3 Hs _ IH]; intros Hinv Hsz; [done|].
  destruct (dup_step_inv _ _ Hinv Hsz Hs) as [H1 H2]. rewrite <-H2. apply IH; [done|]. by rewrite H2.
Qed.


(** ** Applying a GTID once *)

(** Elements stay in the hash and their highest sequence number never falls. *)
Definition seen (st : rpl_slave_state) (d n : Z) : Prop :=
  exists e, hash st !! d = Some e /\ n <= highest_seq_no e.

Lemma got_seen st d e st' d' n : got st d e st' -> seen st d' n -> seen st' d' n.
Proof.
  intros (H1 & H2 & H3) (e' & E & Hn). destruct (decide (d' = d)) as [->|Hd].
  - exists e. split; [done|]. destruct H3 as [H3|[H3 _]]; congruence.
  - exists e'. by rewrite H2.
Qed.

Lemma seen_insert st st1 d e e' d' n :
  hash st = <[d := e']> (hash st1) -> hash st1 !! d = Some e ->
  highest_seq_no e <= highest_seq_no e' -> seen st1 d' n -> seen st d' n.
Proof.
  intros Hh He Hle (x & Hx & Hn). unfold seen. rewrite Hh.
  destruct (decide (d' = d)) as [->|Hd].
  - exists e'. rewrite lookup_insert_eq. split; [done|]. assert (x = e) as -> by congruence. lia.
  - exists x. by rewrite lookup_insert_ne.
Qed.

Lemma drop_owner_highest e : highest_seq_no (drop_owner e) = highest_seq_no e.
Proof. unfold drop_owner. by destruct (_ =? _). Qed.

Lemma update_state_hash_seen mem mem' st sub_id g rgi st' rgi' d n :
  update_state_hash mem mem' st sub_id g rgi = (st', rgi') -> seen st d n -> seen st' d n.
Proof.
  intros [(-> & _)|(e & e' & st1 & Hg & Hh & _ & _ & Hm & _)]%update_state_hash_spec Hs; [done|].
  eapply seen_insert; [exact Hh|apply Hg|lia|]. by eapply got_seen.
Qed.

Lemma dup_step_seen s s' d n : dup_step s s' -> seen s.1 d n -> seen s'.1 d n.
Proof.
  intros [st rgis i r gev ok st' r' Hi Ho E|mem killed st rgis i r res st' r' Hi Ho E
    |mem mem' st rgis i r sub_id st' r' Hi E|mem st rgis i r st' r' Hi E
    |mem mem' st rgis sub_id gtid st' E] Hs; cbn in *.
  - unfold event_group_new_gtid, next_sub_id in E. destruct (_ =? 0); by injection E as <- <- <-.
  - unfold check_duplicate_gtid in E.
    destruct (get_element _ _ _) as [[e|] st1] eqn:Eg; apply get_element_spec in Eg.
    2:{ destruct Eg as [-> _]. by injection E as <- <- <-. }
    assert (Hs1 := got_seen _ _ _ _ _ _ Eg Hs). destruct Eg as (Eg & _).
    destruct (_ >=? _); [by injection E as <- <- <-|].
    destruct (owner_rli e) as [o|]; [destruct (decide _); [|destruct killed]|];
      injection E as <- <- <-; try done; eapply seen_insert; done.
  - by eapply update_state_hash_seen.
  - unfold release_domain_owner in E.
    destruct (get_element _ _ _) as [[e|] st1] eqn:Eg; apply get_element_spec in Eg.
    2:{ destruct Eg as [-> _]. by injection E as <- <-. }
    assert (Hs1 := got_seen _ _ _ _ _ _ Eg Hs). destruct Eg as (Eg & _). injection E as <- <-.
    destruct (is_owner r); [|done]. eapply seen_insert; [done..| |done].
    rewrite drop_owner_highest. lia.
  - by eapply update_state_hash_seen.
Qed.

Lemma seen_skip mem killed st g r :
  seen st (domain_id g) (seq_no g) -> (check_duplicate_gtid mem killed st g r).1.1 = DUP_SKIP.
Proof.
  intros (e & He & Hn). unfold check_duplicate_gtid, get_element. rewrite He, Z.geb_leb.
  destruct (Z.leb_spec (seq_no g) (highest_seq_no e)); [done|lia].
Qed.


(** ** The position and the table *)

Definition best_of (l : list list_element) : option list_element :=
  match l with [] => None | le :: l => Some (first_best le l) end.

(** The element with the highest sub_id of the domain. *)
Definition position (st : rpl_slave_state) (d : Z) : option list_element :=
  match hash st !! d with None => None | Some e => best_of (elem_list e) end.

Definition is_best (l : list list_element) (b : list_element) : Prop :=
  b ∈ l /\ forall y, y ∈ l -> le_sub_id y <= le_sub_id b.

Definition lists_wf (st : rpl_slave_state) : Prop :=
  map_Forall (fun d e => elem_domain_id e = d /\ NoDup (map le_sub_id (elem_list e))) (hash st).

Lemma first_best_spec l : forall b, is_best (b :: l) (first_best b l).
Proof.
  induction l as [|x l IH]; intros b; cbn.
  - split; [by apply elem_of_cons; left|]. intros y [->|?%not_elem_of_nil]%elem_of_cons; [lia|done].
  - rewrite Z.gtb_ltb. destruct (Z.ltb_spec (le_sub_id b) (le_sub_id x)) as [Hlt|Hle];
      [destruct (IH x) as [H1 H2]|destruct (IH b) as [H1 H2]]; split.
    + apply elem_of_cons. by right.
    + intros y [->|Hy]%elem_of_cons; [|by apply H2].
      assert (le_sub_id x <= le_sub_id (first_best x l)) by (apply H2, elem_of_cons; by left). lia.
    + apply elem_of_cons in H1 as [->|H1]; apply elem_of_cons; [by left|].
      right. apply elem_of_cons. by right.
    + assert (le_sub_id b <= le_sub_id (first_best b l)) by (apply H2, elem_of_cons; by left).
      intros y [->|[->|Hy]%elem_of_cons]%elem_of_cons; [lia..|]. apply H2, elem_of_cons. by right.
Qed.

Lemma last_best_spec l : forall b, is_best (b :: l) (last_best b l).
Proof.
  induction l as [|x l IH]; intros b; cbn.
  - split; [by apply elem_of_cons; left|]. intros y [->|?%not_elem_of_nil]%elem_of_cons; [lia|done].
  - rewrite Z.gtb_ltb. destruct (Z.ltb_spec (le_sub_id x) (le_sub_id b)) as [Hlt|Hle];
      [destruct (IH b) as [H1 H2]|destruct (IH x) as [H1 H2]]; split.
    + apply elem_of_cons in H1 as [->|H1]; apply elem_of_cons; [by left|].
      right. apply elem_of_cons. by right.
    + assert (le_sub_id b <= le_sub_id (last_best b l)) by (apply H2, elem_of_cons; by left).
      intros y [->|[->|Hy]%elem_of_cons]%elem_of_cons; [lia..|]. apply H2, elem_of_cons. by right.
    + apply elem_of_cons. by right.
    + intros y [->|Hy]%elem_of_cons; [|by apply H2].
      assert (le_sub_id x <= le_sub_id (last_best x l)) by (apply H2, elem_of_cons; by left). lia.
Qed.

Lemma is_best_unique l b b' : NoDup (map le_sub_id l) -> is_best l b -> is_best l b' -> b = b'.
Proof.
  intros Hn [H1 H2] [H1' H2']. apply (nodup_map_inj le_sub_id l); [done..|].
  specialize (H2 _ H1'). specialize (H2' _ H1). lia.
Qed.

Lemma best_of_some l b : NoDup (map le_sub_id l) -> is_best l b -> best_of l = Some b.
Proof.
  intros Hn Hb. destruct l as [|x l]; [by destruct Hb as [?%not_elem_of_nil _]|]. cbn. f_equal.
  eapply is_best_unique; [done|apply first_best_spec|done].
Qed.

Lemma best_of_spec l : match best_of l with None => l = [] | Some b => is_best l b end.
Proof. destruct l; [done|apply first_best_spec]. Qed.

(** With distinct sub_ids the two loops agree. *)
Lemma domain_to_gtid_position st d :
  lists_wf st ->
  domain_to_gtid st d = (fun le => mk_gtid d (le_server_id le) (le_seq_no le)) <$> position st d.
Proof.
  intros Hwf. unfold domain_to_gtid, position. destruct (hash st !! d) as [e|] eqn:E; [|done].
  destruct (Hwf _ _ E) as [_ Hn]. destruct (elem_list e) as [|x l]; [done|]. cbn.
  by rewrite (is_best_unique _ _ _ Hn (last_best_spec l x) (first_best_spec l x)).
Qed.

Lemma remove_best_elem b l x :
  NoDup (map le_sub_id l) -> x ∈ remove_best b l -> x ∈ l /\ x <> b.
Proof.
  induction l as [|y l IH]; intros Hn; cbn; [by intros ?%not_elem_of_nil|].
  apply list.NoDup_cons in Hn as [Hy Hn]. destruct (decide (y = b)) as [->|Hne].
  - intros Hx. split; [apply elem_of_cons; by right|]. intros ->. apply Hy, elem_of_list_map. eauto.
  - intros [->|Hx]%elem_of_cons; [split; [apply elem_of_cons; by left|done]|].
    destruct (IH Hn Hx). split; [apply elem_of_cons; by right|done].
Qed.

Lemma remove_best_sublist b l : remove_best b l `sublist_of` l.
Proof.
  induction l as [|y l IH]; cbn; [done|]. destruct (decide (y = b)); by constructor.
Qed.

Lemma delete_rows_spec rf derr d elist : forall table err table' elist',
  delete_rows rf derr table d elist = (err, table', elist') ->
  elist' `sublist_of` elist /\
  forall k, (forall y, y ∈ elist -> k <> (d, le_sub_id y)) -> table' !! k = table !! k.
Proof.
  induction elist as [|le next IH]; intros table err table' elist'; cbn.
  - intros [= <- <- <-]. done.
  - destruct (_ || _); [|destruct (_ =? 0)].
    + intros [H1 H2]%IH. split; [by apply sublist_cons|]. intros k Hk. apply H2.
      intros y Hy. apply Hk, elem_of_cons. by right.
    + intros [H1 H2]%IH. split; [by apply sublist_cons|]. intros k Hk.
      rewrite H2 by (intros y Hy; apply Hk, elem_of_cons; by right).
      apply lookup_delete_ne. intros E'. by eapply (Hk le); [apply elem_of_cons; left|].
    + intros [= <- <- <-]. split; [by apply sublist_cons|done].
Qed.

Lemma delete_rows_gone rf derr d elist : forall table err table' elist' k,
  delete_rows rf derr table d elist = (err, table', elist') ->
  table' !! k = table !! k \/ table' !! k = None.
Proof.
  induction elist as [|le next IH]; intros table err table' elist' k; cbn.
  - intros [= <- <- <-]. auto.
  - destruct (_ || _); [apply IH|destruct (_ =? 0)].
    + intros H%(IH _ _ _ _ k). destruct (decide (k = (d, le_sub_id le))) as [->|Hk].
      * rewrite lookup_delete_eq in H. destruct H; auto.
      * by rewrite lookup_delete_ne in H by done.
    + intros [= <- <- <-]. auto.
Qed.

Lemma prune_rows_spec errs table d elist err table' elist' :
  prune_rows errs table d elist = (err, table', elist') ->
  elist' `sublist_of` elist /\
  (forall k, (forall y, y ∈ elist -> k <> (d, le_sub_id y)) -> table' !! k = table !! k) /\
  (forall k, table' !! k = None \/ table' !! k = table !! k).
Proof.
  unfold prune_rows. destruct elist as [|y elist]; [intros [= <- <- <-]; auto|].
  destruct (negb _); [intros [= <- <- <-]; auto|]. intros Ed. split_and!.
  1,2: by eapply delete_rows_spec.
  intros k. destruct (delete_rows_gone _ _ _ _ _ _ _ _ k Ed) as [H|H]; rewrite H; auto.
Qed.

Lemma fold_add_list l : forall e, fold_left add l e = set_list e (rev l ++ elem_list e).
Proof.
  induction l as [|x l IH]; intros e; cbn; [by destruct e|]. rewrite IH. cbn.
  by rewrite <-app_assoc.
Qed.

(** The same positions. *)
Definition same_positions (st st' : rpl_slave_state) : Prop :=
  lists_wf st' /\ forall d, position st' d = position st d.

Lemma got_positions st d e st' : lists_wf st -> got st d e st' -> same_positions st st'.
Proof.
  intros Hwf (H1 & H2 & H3). split.
  - intros d' e'. destruct (decide (d' = d)) as [->|Hd]; [|rewrite H2 by done; apply Hwf].
    rewrite H1. intros [= <-]. destruct H3 as [H3|[_ ->]]; [by apply Hwf|]. split; [done|constructor].
  - intros d'. unfold position. destruct (decide (d' = d)) as [->|Hd]; [|by rewrite H2].
    rewrite H1. destruct H3 as [->|[-> ->]]; done.
Qed.

Lemma set_list_positions st d e l :
  lists_wf st -> hash st !! d = Some e -> NoDup (map le_sub_id l) ->
  best_of l = best_of (elem_list e) -> same_positions st (set_elem st d (set_list e l)).
Proof.
  intros Hwf He Hn Hb. split.
  - intros d' e'. cbn. intros [[<- <-]|[_ H]]%lookup_insert_Some; [|by apply Hwf].
    split; [by apply (Hwf _ _ He)|done].
  - intros d'. unfold position. cbn. destruct (decide (d' = d)) as [->|Hd].
    + by rewrite lookup_insert_eq, He.
    + by rewrite lookup_insert_ne.
Qed.

(** What is left of a list after its best element was moved to the front and
    some of the others dropped. *)
Lemma pruned_list x l elist :
  NoDup (map le_sub_id (x :: l)) -> elist `sublist_of` remove_best (first_best x l) (x :: l) ->
  NoDup (map le_sub_id (rev elist ++ [first_best x l])) /\
  best_of (rev elist ++ [first_best x l]) = Some (first_best x l).
Proof.
  intros Hn Hs. destruct (first_best_spec l x) as [Hb1 Hb2].
  assert (Hin : forall y, y ∈ elist -> y ∈ x :: l /\ y <> first_best x l).
  { intros y Hy. apply remove_best_elem; [done|]. by eapply elem_of_sublist. }
  assert (Hnd : NoDup (map le_sub_id (rev elist ++ [first_best x l]))).
  { change (map le_sub_id) with (fmap (M := list) le_sub_id).
    rewrite <-Permutation_rev, fmap_app. apply list.NoDup_app. split_and!.
    - eapply sublist_NoDup; [exact Hn|]. apply (fmap_sublist le_sub_id).
      etransitivity; [exact Hs|apply remove_best_sublist].
    - intros n (y & -> & Hy)%list_elem_of_fmap. cbn. rewrite list_elem_of_singleton.
      intros E. destruct (Hin y Hy) as [Hy1 Hy2]. apply Hy2. by eapply (nodup_map_inj le_sub_id (x :: l)).
    - apply NoDup_singleton. }
  split; [done|]. apply best_of_some; [done|]. split.
  - apply elem_of_app. right. by apply list_elem_of_singleton.
  - intros y. rewrite elem_of_app, list_elem_of_singleton, <-Permutation_rev. intros [Hy| ->]; [|lia].
    by apply Hb2, Hin.
Qed.

Lemma same_positions_trans st1 st2 st3 :
  same_positions st1 st2 -> same_positions st2 st3 -> same_positions st1 st3.
Proof. intros [_ H1] [H2 H3]. split; [done|]. intros d. by rewrite H3. Qed.

Lemma set_elem_twice st d e e' : set_elem (set_elem st d e) d e' = set_elem st d e'.
Proof. unfold set_elem. cbn. by rewrite insert_insert_eq. Qed.

(** What [record_gtid] does to the rows: the new row is written and only rows
    of older elements of the domain go. *)
Definition recorded (st : rpl_slave_state) (table table' : gtid_slave_pos) (g : rpl_gtid) (sub_id : Z) : Prop :=
  (forall k, (forall e b y, hash st !! domain_id g = Some e -> best_of (elem_list e) = Some b ->
               y ∈ elem_list e -> y <> b -> k <> (domain_id g, le_sub_id y)) ->
    table' !! k = <[(domain_id g, sub_id) := (server_id g, seq_no g)]> table !! k) /\
  forall k, table' !! k = None \/ table' !! k = <[(domain_id g, sub_id) := (server_id g, seq_no g)]> table !! k.

Lemma recorded_insert st table g sub_id :
  recorded st table (<[(domain_id g, sub_id) := (server_id g, seq_no g)]> table) g sub_id.
Proof. split; [by intros k _|by right]. Qed.

(** The table at the end of the statement. *)
Lemma end_statement_spec tr intx err st table rows' g sub_id :
  rows' = rows table \/ recorded st (rows table) rows' g sub_id -> (err = 0 -> recorded st (rows table) rows' g sub_id) ->
  let table' := end_statement tr intx err table rows' in
  (err <> 0 -> tr = true -> table' = table) /\
  (err <> 0 -> rows table' = rows table \/ recorded st (rows table) (rows table') g sub_id) /\
  (tr = false \/ err = 0 /\ intx = false -> stable table' = rows table') /\
  (err = 0 -> tr = true -> intx = true -> stable table' = stable table) /\
  (err = 0 -> recorded st (rows table) (rows table') g sub_id).
Proof.
  intros H H0. unfold end_statement. destruct tr; cbn [negb].
  - destruct (Z.eqb_spec err 0) as [E|E]; cbn; split_and!; try done; auto.
    + by intros [|[_ ->]].
    + by intros _ _ ->.
    + by intros [|[? _]].
  - cbn. split_and!; try done; auto.
Qed.

Lemma record_gtid_spec tr errs bmem emem st table binlog g sub_id intx err st' table' binlog' :
  lists_wf st -> loaded st = true ->
  record_gtid tr errs bmem emem st table binlog g sub_id intx = (err, st', table', binlog') ->
  same_positions st st' /\ (err = 0 -> is_Some (hash st' !! domain_id g)) /\
  (table' = table /\ err <> 0 \/ exists rows', table' = end_statement tr intx err table rows' /\
     (rows' = rows table \/ recorded st (rows table) rows' g sub_id) /\ (err = 0 -> recorded st (rows table) rows' g sub_id)).
Proof.
  intros Hwf Hl. unfold record_gtid. rewrite Hl. cbn [negb]. pose proof (recorded_insert st (rows table) g sub_id) as Hins.
  assert (Hrefl : same_positions st st) by done.
  assert (Hold : forall e, e <> 0 -> exists rows', end_statement tr intx e table (rows table) = end_statement tr intx e table rows' /\
    (rows' = rows table \/ recorded st (rows table) rows' g sub_id) /\ (e = 0 -> recorded st (rows table) rows' g sub_id))
    by (intros e0 He0; exists (rows table); split_and!; [done|by left|done]).
  destruct (Z.eqb_spec (open_err errs) 0) as [Eo|Eo]; cbn [negb]; [|intros [= <- <- <- <-]; split_and!; auto; done].
  destruct (Z.eqb_spec (check_err errs) 0) as [Ec|Ec]; cbn [negb]; [|intros [= <- <- <- <-]; split_and!; auto; done].
  destruct (Z.eqb_spec (write_err errs) 0) as [Ew|Ew]; cbn [negb]; [|intros [= <- <- <- <-]; split_and!; auto; done].
  set (rows1 := <[_ := _]> (rows table)) in *.
  destruct (match binlog with None => _ | Some b => _ end) as [[] b1]; cbn [negb];
    [|intros [= <- <- <- <-]; split_and!; [done|done|right; by exists rows1; auto]].
  destruct (get_element emem st (domain_id g)) as [[e|] st1] eqn:Eg; apply get_element_spec in Eg.
  2:{ destruct Eg as [-> _]. intros [= <- <- <- <-]. split_and!; [done|done|right; by exists rows1; auto]. }
  assert (Hgot := got_positions _ _ _ _ Hwf Eg). assert (Hwf1 := proj1 Hgot).
  destruct Eg as (Eg1 & _ & Eg3). destruct (elem_list e) as [|x l] eqn:El.
  - intros [= <- <- <- <-]. split_and!; [done|by eexists|]. right. by exists rows1; auto.
  - assert (Hn : NoDup (map le_sub_id (x :: l))) by (rewrite <-El; by apply (Hwf1 _ _ Eg1)).
    set (best := first_best x l). set (el := remove_best best (x :: l)).
    assert (Hpos : forall l', l' `sublist_of` el ->
      same_positions st (set_elem st1 (domain_id g) (set_list e (rev l' ++ [best])))).
    { intros l' Hs. destruct (pruned_list x l l' Hn Hs) as [P1 P2].
      eapply same_positions_trans; [exact Hgot|]. apply set_list_positions; [done..|].
      by rewrite El. }
    destruct (prune_rows errs rows1 (domain_id g) el) as [[err1 rows2] el'] eqn:Ed.
    apply prune_rows_spec in Ed as (Hd1 & Hd2 & Hd3).
    assert (Hrec : recorded st (rows table) rows2 g sub_id).
    { split; [|done]. intros k Hk. apply Hd2. intros y Hy. destruct (remove_best_elem best (x :: l) y Hn Hy) as [Hy1 Hy2].
      destruct Eg3 as [Eg3|[_ ->]]; [|done]. apply (Hk e best y); [done|by rewrite El|by rewrite El|done]. }
    set (err2 := if err1 =? 0 then commit_err errs else err1).
    intros [= <- <- <- <-]. split_and!; [| |right; by exists rows2; auto].
    + destruct (Z.eqb_spec err2 0) as [E2|E2]; [apply (Hpos []), sublist_nil_l|].
      unfold put_back_list. cbn [set_elem hash]. rewrite lookup_insert_eq. cbn [snd]. rewrite set_elem_twice.
      rewrite fold_add_list. by apply Hpos.
    + intros E2. rewrite (proj2 (Z.eqb_eq err2 0) E2). cbn. rewrite lookup_insert_eq. eauto.
Qed.

(** The row with the highest sub_id of a domain: where replication resumes
    after a restart. *)
Definition last_row (table : gtid_slave_pos) (d : Z) (le : list_element) : Prop :=
  table !! (d, le_sub_id le) = Some (le_server_id le, le_seq_no le) /\
  forall s, is_Some (table !! (d, s)) -> s <= le_sub_id le.

(** The table and the position in memory agree. *)
Definition in_sync (st : rpl_slave_state) (table : gtid_slave_pos) : Prop :=
  forall d, match position st d with
            | Some le => last_row table d le
            | None => forall s, table !! (d, s) = None
            end.

Lemma recorded_last_row st table table' g sub_id :
  in_sync st table -> recorded st table table' g sub_id ->
  (forall s, is_Some (table !! (domain_id g, s)) -> s < sub_id) ->
  last_row table' (domain_id g) (mk_list_element sub_id (seq_no g) (server_id g)) /\
  forall d s, d <> domain_id g -> table' !! (d, s) = table !! (d, s).
Proof.
  intros Hsync [Hrec Hall] Hnew. split; [split|].
  - cbn. rewrite Hrec; [apply lookup_insert_eq|]. intros e b y He Hb Hy Hne [= E].
    specialize (Hsync (domain_id g)). unfold position in Hsync. rewrite He, Hb in Hsync.
    destruct Hsync as [Hrow _]. assert (le_sub_id b < sub_id) by (apply Hnew; by eexists).
    pose proof (best_of_spec (elem_list e)) as Hs. rewrite Hb in Hs. destruct Hs as [_ Hs].
    specialize (Hs y Hy). lia.
  - cbn. intros s [row Hs]. destruct (Hall (domain_id g, s)) as [E|E]; [congruence|].
    rewrite E in Hs. apply lookup_insert_Some in Hs as [[[= <-] _]|[_ Hs]]; [lia|].
    assert (s < sub_id) by (apply Hnew; by eexists). lia.
  - intros d s Hd. rewrite Hrec; [apply lookup_insert_ne; congruence|]. intros; congruence.
Qed.

(** The position after an update with a new highest sub_id; without memory for
    the list element it stays where it was. *)
Lemma update_positions emem lmem st sub_id g rgi st' rgi' :
  lists_wf st -> (is_Some (hash st !! domain_id g) \/ emem = true) ->
  (forall le, position st (domain_id g) = Some le -> le_sub_id le < sub_id) ->
  update_state_hash emem lmem st sub_id g rgi = (st', rgi') ->
  lists_wf st' /\
  position st' (domain_id g) =
    (if lmem then Some (mk_list_element sub_id (seq_no g) (server_id g)) else position st (domain_id g)) /\
  forall d, d <> domain_id g -> position st' d = position st d.
Proof.
  intros Hwf Hmem Hnew Hu. unfold update_state_hash, update in Hu.
  destruct (get_element emem st (domain_id g)) as [[e|] st1] eqn:E.
  2:{ exfalso. unfold get_element in E. destruct (hash st !! domain_id g) eqn:Eh; [done|].
      destruct Hmem as [[x Hx]| ->]; congruence. }
  apply get_element_spec in E. destruct (got_positions _ _ _ _ Hwf E) as [Hwf1 Hp1].
  destruct E as (E1 & _ & _).
  match type of Hu with context [let '(a, b) := ?x in _] =>
    assert (He : elem_list x.1 = elem_list e /\ elem_domain_id x.1 = elem_domain_id e) end.
  { destruct rgi as [r|]; cbn; [destruct (is_owner r); unfold drop_owner|];
      repeat case_match; done. }
  destruct (match rgi with Some r => _ | None => _ end) as [e' rgi1]. cbn in He.
  destruct He as [He1 He2]. destruct (Hwf1 _ _ E1) as [Hd Hn].
  set (le := mk_list_element sub_id (seq_no g) (server_id g)) in *.
  assert (Hhash : hash st' = <[domain_id g := if lmem then add e' le else e']> (hash st1))
    by (destruct lmem; cbn [negb] in Hu; [destruct (_ <? _) in Hu|]; by injection Hu as <- <-).
  assert (Hold : forall y, y ∈ elem_list e -> le_sub_id y < sub_id).
  { intros y Hy. specialize (Hp1 (domain_id g)). unfold position in Hp1. rewrite E1 in Hp1.
    pose proof (best_of_spec (elem_list e)) as Hs. unfold position in Hnew. 
    destruct (best_of (elem_list e)) as [b|] eqn:Eb.
    - destruct Hs as [_ Hs]. specialize (Hs y Hy). specialize (Hnew b (eq_sym Hp1)). lia.
    - rewrite Hs in Hy. by apply not_elem_of_nil in Hy. }
  assert (Hnd : NoDup (map le_sub_id (le :: elem_list e))).
  { cbn. constructor; [|done]. rewrite elem_of_list_map. intros (y & Ey & Hy).
    specialize (Hold y Hy). cbn in Ey. lia. }
  split_and!.
  - intros d x. rewrite Hhash. intros [[<- <-]|[_ H]]%lookup_insert_Some; [|by apply Hwf1].
    destruct lmem; cbn; rewrite He1, He2; done.
  - unfold position at 1. rewrite Hhash, lookup_insert_eq. destruct lmem.
    + cbn [add set_list elem_list]. rewrite He1.
      apply best_of_some; [done|]. split; [apply elem_of_cons; by left|].
      intros y [->|Hy%Hold]%elem_of_cons; [lia|cbn; lia].
    + rewrite He1, <-(Hp1 (domain_id g)). unfold position. by rewrite E1.
  - intros d Hne. rewrite <-Hp1. unfold position. by rewrite Hhash, lookup_insert_ne.
Qed.


(** ** The position a slave asks for *)

Definition pos_gtid (d : Z) (le : list_element) : rpl_gtid :=
  mk_gtid d (le_server_id le) (le_seq_no le).

(** The GTID a domain stands at, given this server's own GTIDs by domain. *)
Definition start_gtid (st : rpl_slave_state) (own : gmap Z rpl_gtid) (d : Z) : option rpl_gtid :=
  match position st d, own !! d with
  | Some le, Some x => Some (if seq_no x >? le_seq_no le then x else pos_gtid d le)
  | Some le, None => Some (pos_gtid d le)
  | None, x => x
  end.

(** What [iterate] produces for an element. *)
Definition elem_gtid (own : gmap Z rpl_gtid) (e : element) : option rpl_gtid :=
  match best_of (elem_list e), own !! elem_domain_id e with
  | Some le, Some x => Some (if seq_no x >? le_seq_no le then x else pos_gtid (elem_domain_id e) le)
  | Some le, None => Some (pos_gtid (elem_domain_id e) le)
  | None, _ => None
  end.

Lemma elem_gtid_delete own e d :
  elem_domain_id e <> d -> elem_gtid (delete d own) e = elem_gtid own e.
Proof. intros Hd. unfold elem_gtid. by rewrite lookup_delete_ne. Qed.

Lemma iterate_elements_spec es : forall own out,
  NoDup (map elem_domain_id es) ->
  let '(out', own') := iterate_elements es own out in
  out' = out ++ omap (elem_gtid own) es /\
  forall d, own' !! d =
    if decide (Exists (fun e => elem_domain_id e = d /\ elem_list e <> []) es)
    then None else own !! d.
Proof.
  induction es as [|e es IH]; intros own out Hn; cbn [iterate_elements].
  { cbn. rewrite app_nil_r. split; [done|]. intros d. case_decide as Hx; [|done].
    by apply Exists_nil in Hx. }
  apply list.NoDup_cons in Hn as [He Hn].
  assert (Hne : forall x, x ∈ es -> elem_domain_id x <> elem_domain_id e).
  { intros x Hx E. apply He, elem_of_list_map. eauto. }
  destruct (elem_list e) as [|l ls] eqn:El.
  - specialize (IH own out Hn). destruct (iterate_elements es own out) as [out' own'].
    destruct IH as [-> IH]. split; [cbn; unfold elem_gtid at 2; by rewrite El|].
    intros d. rewrite IH. apply decide_ext. rewrite Exists_cons, El. naive_solver.
  - cbn [domain_id]. set (b := first_best l ls).
    assert (Hb : best_of (elem_list e) = Some b) by (by rewrite El).
    destruct (own !! elem_domain_id e) as [x|] eqn:Eo.
    + match goal with |- let '(_, _) := iterate_elements es ?o ?u in _ =>
        specialize (IH o u Hn); destruct (iterate_elements es o u) as [out' own'] end.
      destruct IH as [-> IH]. split.
      * cbn. unfold elem_gtid at 2. rewrite Hb, Eo, <-app_assoc. cbn. f_equal. f_equal.
        apply omap_ext_in. intros y Hy. by apply elem_gtid_delete, Hne.
      * intros d. rewrite IH. destruct (decide (d = elem_domain_id e)) as [->|Hd].
        -- rewrite lookup_delete_eq. rewrite (decide_True (P := Exists _ (e :: es)));
             [by case_decide|]. apply Exists_cons. left. by rewrite El.
        -- rewrite lookup_delete_ne by done. apply decide_ext. rewrite Exists_cons. naive_solver.
    + match goal with |- let '(_, _) := iterate_elements es ?o ?u in _ =>
        specialize (IH o u Hn); destruct (iterate_elements es o u) as [out' own'] end.
      destruct IH as [-> IH]. split.
      * cbn. unfold elem_gtid at 2. by rewrite Hb, Eo, <-app_assoc.
      * intros d. rewrite IH. destruct (decide (d = elem_domain_id e)) as [->|Hd].
        -- rewrite Eo. by repeat case_decide.
        -- apply decide_ext. rewrite Exists_cons. naive_solver.
Qed.

Lemma extra_hash_keys mem own_server_id extra : forall h h',
  extra_hash mem own_server_id extra h = Some h' ->
  map_Forall (fun d g => domain_id g = d) h -> map_Forall (fun d g => domain_id g = d) h'.
Proof.
  induction extra as [|g extra IH]; intros h h'; cbn; [by intros [= <-]|].
  destruct (_ =? _); [destruct (h !! domain_id g); [done|]; destruct (mem g); [|done]|]; intros E Hh; (eapply IH; [exact E|]).
  - by apply map_Forall_insert_2.
  - done.
Qed.

Section Iterate.
Context `{Containers}.

Lemma elem_gtid_domain own e g :
  map_Forall (fun d g => domain_id g = d) own -> elem_gtid own e = Some g ->
  domain_id g = elem_domain_id e /\ elem_list e <> [].
Proof.
  intros Hown. unfold elem_gtid. destruct (elem_list e) as [|l ls]; [done|]. cbn [best_of].
  destruct (own !! elem_domain_id e) as [x|] eqn:E; intros [= <-]; [|done].
  destruct (_ >? _); [|done]. by rewrite (Hown _ _ E).
Qed.

Lemma elem_gtid_start st own d e :
  lists_wf st -> hash st !! d = Some e -> elem_list e <> [] ->
  elem_gtid own e = start_gtid st own d.
Proof.
  intros Hwf He Hne. unfold elem_gtid, start_gtid, position. rewrite He.
  destruct (Hwf _ _ He) as [-> _]. destruct (elem_list e) as [|l ls]; [done|]. done.
Qed.

Lemma nodup_omap_domains own es :
  map_Forall (fun d g => domain_id g = d) own ->
  NoDup (map elem_domain_id es) -> NoDup (map domain_id (omap (elem_gtid own) es)).
Proof.
  intros Hown. induction es as [|e es IH]; cbn; [constructor|].
  intros [He Hn]%list.NoDup_cons. destruct (elem_gtid own e) as [g|] eqn:E; [|by apply IH].
  cbn. constructor; [|by apply IH]. rewrite elem_of_list_map. intros (x & Ex & Hx).
  apply list_elem_of_omap in Hx as (e' & He' & E'). apply He, elem_of_list_map. exists e'.
  split; [|done]. apply elem_gtid_domain in E as [<- _]; [|done].
  apply elem_gtid_domain in E' as [<- _]; done.
Qed.

Section Iterated.
  Context (st : rpl_slave_state) (own own' : gmap Z rpl_gtid).
  Context (Hwf : lists_wf st) (Hown : map_Forall (fun d g => domain_id g = d) own).
  Context (Hown' : forall d, own' !! d =
    if decide (Exists (fun e => elem_domain_id e = d /\ elem_list e <> []) (hash_elements (hash st)))
    then None else own !! d).

Lemma exists_position d :
  Exists (fun e => elem_domain_id e = d /\ elem_list e <> []) (hash_elements (hash st)) <->
  position st d <> None.
Proof.
  rewrite Exists_exists. unfold position. split.
  - intros (e & [k He]%elem_of_hash_elements & <- & Hl). rewrite (proj1 (Hwf _ _ He)), He.
    by destruct (elem_list e).
  - destruct (hash st !! d) as [e|] eqn:E; [|done]. intros Hp. exists e.
    split; [apply elem_of_hash_elements; eauto|]. split; [by apply Hwf|]. by destruct (elem_list e).
Qed.

Lemma elem_of_iterated g :
  g ∈ omap (elem_gtid own) (hash_elements (hash st)) ++ hash_elements own' <->
  start_gtid st own (domain_id g) = Some g.
Proof.
  rewrite elem_of_app, list_elem_of_omap, elem_of_hash_elements. split.
  - intros [(e & [k He]%elem_of_hash_elements & E)|[k E]].
    + destruct (elem_gtid_domain _ _ _ Hown E) as [Hd Hl]. rewrite Hd, (proj1 (Hwf _ _ He)).
      by rewrite <-(elem_gtid_start _ _ _ _ Hwf He Hl).
    + rewrite Hown' in E. case_decide as Hx; [done|]. rewrite exists_position in Hx.
      rewrite (Hown _ _ E). unfold start_gtid. destruct (position st k); [|done].
      by destruct Hx.
  - intros E. destruct (position st (domain_id g)) as [le|] eqn:Ep.
    + left. unfold position in Ep. destruct (hash st !! domain_id g) as [e|] eqn:He; [|done].
      exists e. split; [apply elem_of_hash_elements; eauto|]. rewrite <-E.
      apply elem_gtid_start; [done..|]. by destruct (elem_list e).
    + right. exists (domain_id g). rewrite Hown', decide_False by (rewrite exists_position; congruence).
      unfold start_gtid in E. by rewrite Ep in E.
Qed.

Lemma iterated_nodup :
  NoDup (map domain_id (omap (elem_gtid own) (hash_elements (hash st)) ++ hash_elements own')).
Proof.
  change (map domain_id) with (fmap (M := list) domain_id). rewrite fmap_app.
  apply list.NoDup_app. split_and!.
  - apply (nodup_omap_domains own); [done|]. apply nodup_keys. intros d e He. by apply Hwf.
  - intros d (g & -> & Hg)%list_elem_of_fmap (g' & Ed & [k Hg']%elem_of_hash_elements)%list_elem_of_fmap.
    apply list_elem_of_omap in Hg as (e & He & E).
    destruct (elem_gtid_domain _ _ _ Hown E) as [Hd Hl]. rewrite Hown' in Hg'.
    case_decide as Hx; [done|]. apply Hx, Exists_exists. exists e. split; [done|].
    split; [|done]. rewrite (Hown _ _ Hg') in Ed. congruence.
  - apply (nodup_keys domain_id). intros k x Hx. rewrite Hown' in Hx. case_decide; [done|].
    by apply Hown.
Qed.

End Iterated.

Lemma iterate_gtids_spec mem own_id st extra own :
  lists_wf st -> extra_hash mem own_id extra ∅ = Some own ->
  exists l, iterate_gtids mem own_id st extra = Some l /\ NoDup (map domain_id l) /\
    (forall g, g ∈ l <-> start_gtid st own (domain_id g) = Some g).
Proof.
  intros Hwf Hext. assert (Hown := extra_hash_keys _ _ _ _ _ Hext (map_Forall_empty _)).
  assert (Hnd : NoDup (map elem_domain_id (hash_elements (hash st)))).
  { apply nodup_keys. intros d e He. by apply Hwf. }
  unfold iterate_gtids. rewrite Hext.
  pose proof (iterate_elements_spec (hash_elements (hash st)) own [] Hnd) as Hs.
  destruct (iterate_elements (hash_elements (hash st)) own []) as [out own'].
  destruct Hs as [-> Hown']. cbn [app].
  pose proof (iterated_nodup _ _ _ Hwf Hown Hown') as Hu.
  pose proof (elem_of_iterated _ _ _ Hwf Hown Hown') as Hin.
  eexists. split; [done|]. by split.
Qed.

(** Appends that all succeed print the GTID. *)
Lemma append_pieces_ok ok pieces : (forall n, ok n = true) -> forall n dest,
  exists n', append_pieces ok n dest pieces = (false, dest ++ concat pieces, n').
Proof.
  intros Hok. induction pieces as [|p pieces IH]; intros n dest; cbn; [exists n; by rewrite app_nil_r|].
  rewrite Hok. destruct (IH (S n) (dest ++ p)) as [n' ->]. exists n'. by rewrite <- app_assoc.
Qed.

Lemma tostring_cb_ok ok dest first n gtid : (forall n, ok n = true) ->
  exists n', rpl_slave_state_tostring_cb ok (dest, first, n) gtid =
    (false, ((rpl_slave_state_tostring_helper dest gtid first).1, false, n')).
Proof.
  intros Hok. unfold rpl_slave_state_tostring_cb.
  destruct (append_pieces_ok ok (gtid_pieces gtid first) Hok n dest) as [n' ->]. exists n'. do 3 f_equal.
  unfold gtid_pieces, rpl_slave_state_tostring_helper, append_ulonglong. cbn [fst app].
  destruct first; cbn [concat app]; rewrite <- ?app_assoc, ?app_nil_r; done.
Qed.

Lemma call_each_print ok l : (forall n, ok n = true) -> forall dest first n,
  exists n', call_each (rpl_slave_state_tostring_cb ok) (dest, first, n) l =
  (false, (tostring_loop dest first l, match l with [] => first | _ => false end, n')).
Proof.
  intros Hok. induction l as [|g l IH]; intros dest first n; [by exists n|]. cbn [call_each tostring_loop].
  destruct (tostring_cb_ok ok dest first n g Hok) as [n1 ->].
  rewrite tostring_helper_text. cbn [fst]. destruct (IH (dest ++ (if first then [] else [chr_comma]) ++ gtid_text g) false n1) as [n' E].
  rewrite E. exists n'. by destruct l.
Qed.

(** [tostring] without a failing append. *)
Lemma tostring_gtids mem amem ok own_id st dest extra err text :
  tostring mem amem ok own_id st dest extra = (err, text) ->
  if err then extra_hash mem own_id extra ∅ = None \/ exists i, amem i = false
  else exists l, iterate_gtids mem own_id st extra = Some l /\
         ((forall n, ok n = true) -> text = tostring_loop dest true (sort_dynamic l)).
Proof.
  unfold tostring, iterate. destruct (iterate_gtids mem own_id st extra) as [l|] eqn:El.
  - destruct (forallb amem (seq 0 (length l))) eqn:Ea.
    + destruct (call_each _ _ _) as [e [[dest' f] n]] eqn:Ec. cbn [snd]. intros [= <- <-]. exists l. split; [done|].
      intros Hok. destruct (call_each_print ok (sort_dynamic l) Hok dest true 0) as [n' E]. rewrite Ec in E. by injection E.
    + intros [= <- <-]. right. destruct (forallb_exists_false amem _ Ea) as (i & _ & Hi). by exists i.
  - intros [= <- <-]. left. unfold iterate_gtids in El. destruct (extra_hash mem own_id extra ∅); [|done].
    by destruct (iterate_elements _ _ _).
Qed.
End Iterate.

(** ** What an update does for waiters in MASTER_GTID_WAIT *)

Definition elem_or_new (st : rpl_slave_state) (d : Z) : element :=
  default (new_element d) (hash st !! d).

Lemma update_waiters mem mem' st d server sub seq rgi ok st' rgi' :
  update mem mem' st d server sub seq rgi = (ok, st', rgi') ->
  (forall d', d' <> d -> hash st' !! d' = hash st !! d') /\
  (hash st' = hash st \/
   highest_seq_no (elem_or_new st' d) = Z.max (highest_seq_no (elem_or_new st d)) seq /\
   min_wait_seq_no (elem_or_new st' d) = min_wait_seq_no (elem_or_new st d) /\
   gtid_waiter (elem_or_new st' d) =
     match gtid_waiter (elem_or_new st d) with
     | Some t => if min_wait_seq_no (elem_or_new st d) <=? seq then None else Some t
     | None => None
     end).
Proof.
  unfold update. destruct (get_element mem st d) as [[e|] st1] eqn:E; apply get_element_spec in E.
  2:{ destruct E as [-> _]. intros [= <- <- <-]. auto. }
  destruct E as (E1 & E2 & E3).
  assert (He : elem_or_new st d = e) by (unfold elem_or_new; by destruct E3 as [-> | [-> ->]]).
  set (e1 := if seq >? highest_seq_no e then set_highest e seq else e).
  assert (H1 : highest_seq_no e1 = Z.max (highest_seq_no e) seq /\
    min_wait_seq_no e1 = min_wait_seq_no e /\ gtid_waiter e1 = gtid_waiter e).
  { unfold e1. rewrite Z.gtb_ltb. destruct (Z.ltb_spec (highest_seq_no e) seq); cbn; split_and!; try done; lia. }
  set (e2 := match gtid_waiter e1 with Some _ => _ | None => e1 end).
  assert (H2 : highest_seq_no e2 = Z.max (highest_seq_no e) seq /\
    min_wait_seq_no e2 = min_wait_seq_no e /\
    gtid_waiter e2 = match gtid_waiter e with
      Some t => if min_wait_seq_no e <=? seq then None else Some t | None => None end).
  { destruct H1 as (A & B & C). unfold e2. clearbody e1. rewrite C, B.
    destruct (gtid_waiter e) eqn:Ew; [destruct (min_wait_seq_no e <=? seq)|]; cbn; split_and!; congruence. }
  clearbody e2. clear e1 H1.
  match goal with |- context [let '(a, b) := ?x in _] => set (p := x) end.
  assert (H3 : highest_seq_no p.1 = highest_seq_no e2 /\
    min_wait_seq_no p.1 = min_wait_seq_no e2 /\ gtid_waiter p.1 = gtid_waiter e2).
  { unfold p. destruct rgi as [r|]; [|done]. cbn. unfold drop_owner. by repeat case_match. }
  destruct p as [e3 rgi3]. cbn in H3. destruct H3 as (F1 & F2 & F3). destruct H2 as (G1 & G2 & G3).
  intros Hu.
  assert (Hh : exists e4, hash st' = <[d := e4]> (hash st1) /\ highest_seq_no e4 = highest_seq_no e3 /\
    min_wait_seq_no e4 = min_wait_seq_no e3 /\ gtid_waiter e4 = gtid_waiter e3).
  { destruct mem'; [exists (add e3 (mk_list_element sub seq server)); destruct (_ <? _) in Hu|exists e3];
      by injection Hu as <- <- <-. }
  destruct Hh as (e4 & Hh & K1 & K2 & K3). split.
  - intros d' Hd. rewrite Hh, lookup_insert_ne by done. by apply E2.
  - right. rewrite He. unfold elem_or_new. rewrite Hh, lookup_insert_eq. cbn.
    split_and!; congruence.
Qed.

(** ** Examples *)

Module Examples.

Definition g7 : rpl_gtid := mk_gtid 1 2 7.

(** Two master connections, each with one thread about to apply 1-2-7. *)
Definition idle (rli : nat) : rpl_group_info := mk_rgi rli g7 0 false GTID_DUPLICATE_NULL.
Definition st0 : rpl_slave_state := mk_slave_state ∅ 0 true.
Definition rgis0 : gmap nat rpl_group_info := {[1%nat := idle 10; 2%nat := idle 20]}.

(** Thread 1 asks first and becomes the owner. *)
Definition st1 : rpl_slave_state := (check_duplicate_gtid true false st0 g7 (idle 10)).1.2.
Definition owner1 : rpl_group_info := set_duplicate_state (idle 10) GTID_DUPLICATE_OWNER.
Definition rgis1 : gmap nat rpl_group_info := <[1%nat := owner1]> rgis0.

Lemma start0 : dup_start (st0, rgis0).
Proof.
  split; [apply map_Forall_empty|]. apply map_Forall_insert_2; [done|].
  by apply map_Forall_singleton.
Qed.

Lemma step1 : dup_step (st0, rgis0) (st1, rgis1).
Proof.
  apply (dup_check true false st0 rgis0 1 (idle 10) DUP_APPLY); [done|done|].
  vm_compute. reflexivity.
Qed.

(** Thread 2 would have to wait. *)
Lemma second_waits : (check_duplicate_gtid true false st1 g7 (idle 20)).1.1 = DUP_WAIT.
Proof. reflexivity. Qed.


Definition st2 : rpl_slave_state := (update_state_hash true true st1 1 g7 (Some owner1)).1.

Lemma inv1 : dup_inv (st1, rgis1).
Proof.
  apply (dup_step_inv (st0, rgis0)); [apply dup_start_inv, start0|vm_compute; reflexivity|apply step1].
Qed.


Definition no_errors : table_errors := mk_table_errors 0 0 0 0 (fun _ => false) (fun _ => 0) 0.

Definition empty_table : pos_table := mk_pos_table ∅ ∅.

Definition pending7 : rpl_group_info := mk_rgi 10 g7 1 true GTID_DUPLICATE_NULL.


(** A slave at 1-2-6, with 1-2-5 still in its list, applies 1-2-7. *)
Definition st6 : rpl_slave_state :=
  mk_slave_state {[1 := mk_element [mk_list_element 2 6 2; mk_list_element 1 5 2] 1 6 None 0 None 0]} 2 true.
Definition table6 : pos_table := let t := {[(1, 1) := (2, 5); (1, 2) := (2, 6)]} in mk_pos_table t t.
Definition next7 : rpl_group_info := mk_rgi 10 g7 3 true GTID_DUPLICATE_NULL.
Definition delete_fails : table_errors := mk_table_errors 0 0 0 0 (fun _ => false) (fun _ => 2) 0.

(** With a table that is not transactional, an error in deleting an old row
    leaves the table at the new GTID, while the position in memory stays. *)
Lemma failed_delete_not_undone :
  let '(err, st, table, _, _) := record_and_update_gtid false delete_fails true true true st6 table6 None next7 in
  err = 1 /\ domain_to_gtid st 1 = Some (mk_gtid 1 2 6) /\ stable table !! (1, 3) = Some (2, 7).
Proof. vm_compute. tauto. Qed.

(** Without memory for the list element the table is ahead of the position in
    memory, from which a reconnect starts. *)
Lemma memory_position_stays_behind :
  let '(err, st, table, _, _) := record_and_update_gtid true no_errors true true false st6 table6 None next7 in
  err = 0 /\ domain_to_gtid st 1 = Some (mk_gtid 1 2 6) /\ stable table !! (1, 3) = Some (2, 7).
Proof. vm_compute. tauto. Qed.

End Examples.
