(* ===== verification/GtidConn.v ===== *)
(** * The GTID position of a connecting slave

    [slave_connection_state] (sql/rpl_gtid.cc) is the position, one GTID per
    domain, that a slave sends to its master and from which the master starts
    its binlog dump.  The file models its operations and shows that positions
    get from one server to the other unchanged: what the slave state or the
    binlog state prints, the connection state reads. *)
From Stdlib Require Import ZArith Lia List Bool.
From stdpp Require Import base tactics list gmap sorting.
From S2P Require Import Prelude StrNum Gtid BinlogState SlaveState.

Open Scope Z_scope.

(** ** State *)

Definition START_OWN_SLAVE_POS : Z := 1.
Definition START_ON_EMPTY_DOMAIN : Z := 2.

Record entry := mk_entry { entry_gtid : rpl_gtid; entry_flags : Z }.

Notation slave_connection_state := (gmap Z entry).

Inductive conn_error := CONN_OK | ER_OUTOFMEMORY | ER_INCORRECT_GTID_STATE | ER_DUPLICATE_GTID_DOMAIN.

#[export] Instance conn_error_eq_dec : EqDecision conn_error.
Proof. solve_decision. Defined.

(** ** Operations *)

Definition find_entry (st : slave_connection_state) (domain_id : Z) : option entry :=
  st !! domain_id.

Definition find (st : slave_connection_state) (domain_id : Z) : option rpl_gtid :=
  match find_entry st domain_id with None => None | Some e => Some (entry_gtid e) end.

(** True is the error return; the flags of a known domain are kept. *)
Definition update (mem : bool) (st : slave_connection_state) (in_gtid : rpl_gtid)
  : bool * slave_connection_state :=
  match st !! domain_id in_gtid with
  | Some e => (false, <[domain_id in_gtid := mk_entry in_gtid (entry_flags e)]> st)
  | None => if mem then (false, <[domain_id in_gtid := mk_entry in_gtid 0]> st) else (true, st)
  end.

Definition remove (st : slave_connection_state) (in_gtid : rpl_gtid) : slave_connection_state :=
  delete (domain_id in_gtid) st.

Definition remove_if_present (st : slave_connection_state) (in_gtid : rpl_gtid)
  : slave_connection_state :=
  match st !! domain_id in_gtid with
  | Some _ => delete (domain_id in_gtid) st
  | None => st
  end.

(** The loop of [load] over the text of a slave request; [mem i] for the
    allocation of the [i]-th GTID (adding it to the hash then succeeds).  Every
    GTID has at least one character. *)
Fixpoint load_loop (fuel : nat) (mem : nat -> bool) (i : nat) (st : slave_connection_state)
    (p : list Z) : conn_error * slave_connection_state :=
  match fuel with
  | O => (ER_INCORRECT_GTID_STATE, st)
  | S fuel =>
      if negb (mem i) then (ER_OUTOFMEMORY, st)
      else
        match gtid_parser_helper p with
        | None => (ER_INCORRECT_GTID_STATE, st)
        | Some (gtid, p) =>
            match st !! domain_id gtid with
            | Some _ => (ER_DUPLICATE_GTID_DOMAIN, st)
            | None =>
                let st := <[domain_id gtid := mk_entry gtid 0]> st in
                match p with
                | [] => (CONN_OK, st)
                | c :: p =>
                    if c =? chr_comma then load_loop fuel mem (S i) st p
                    else (ER_INCORRECT_GTID_STATE, st)
                end
            end
        end
  end.

Definition load (mem : nat -> bool) (slave_request : list Z) : conn_error * slave_connection_state :=
  match slave_request with
  | [] => (CONN_OK, ∅)
  | _ => load_loop (S (length slave_request)) mem 0 ∅ slave_request
  end.

(** [load] from an array of GTIDs. *)
Fixpoint load_gtids_loop (mem : nat -> bool) (i : nat) (st : slave_connection_state)
    (gtid_list : list rpl_gtid) : bool * slave_connection_state :=
  match gtid_list with
  | [] => (false, st)
  | g :: rest =>
      let '(err, st) := update (mem i) st g in
      if err then (true, st) else load_gtids_loop mem (S i) st rest
  end.

Definition load_gtids (mem : nat -> bool) (gtid_list : list rpl_gtid)
  : bool * slave_connection_state :=
  load_gtids_loop mem 0 ∅ gtid_list.

Section Lists.
Context `{Containers}.

(** [load] from a slave state. *)
Definition load_slave_state (extra_mem mem : rpl_gtid -> bool) (own_server_id : Z) (state : rpl_slave_state)
    (extra_gtids : list rpl_gtid) : bool * slave_connection_state :=
  iterate extra_mem (fun _ => true) own_server_id state (fun st g => update (mem g) st g) ∅ extra_gtids false.

Definition append_to_string (st : slave_connection_state) (out_str : list Z) : list Z :=
  tostring_loop out_str true (map entry_gtid (hash_elements st)).

Definition to_string (st : slave_connection_state) (out_str : list Z) : list Z :=
  append_to_string st [].

(** True: the array is too small. *)
Definition get_gtid_list (st : slave_connection_state) (list_size : nat) : bool * list rpl_gtid :=
  copy_gtids list_size (map entry_gtid (hash_elements st)) [].

Definition is_pos_reached (st : slave_connection_state) : bool :=
  forallb
    (fun e => (entry_flags e &? Z.lor START_OWN_SLAVE_POS START_ON_EMPTY_DOMAIN)%c)
    (hash_elements st).
End Lists.

(** ** Loading a position *)

Definition entries (l : list rpl_gtid) : list (Z * entry) :=
  (fun g => (domain_id g, mk_entry g 0)) <$> l.

(** The position with these GTIDs. *)
Definition conn_of (l : list rpl_gtid) : slave_connection_state := list_to_map (entries l).

Lemma entries_keys l : (entries l).*1 = map domain_id l.
Proof. unfold entries. by rewrite <-list_fmap_compose. Qed.

Lemma conn_of_lookup l d e :
  NoDup (map domain_id l) ->
  conn_of l !! d = Some e <-> exists g, g ∈ l /\ domain_id g = d /\ e = mk_entry g 0.
Proof.
  intros Hn. unfold conn_of. rewrite <-elem_of_list_to_map by (by rewrite entries_keys).
  unfold entries. rewrite list_elem_of_fmap. naive_solver.
Qed.

Lemma find_conn_of l d g :
  NoDup (map domain_id l) -> find (conn_of l) d = Some g <-> g ∈ l /\ domain_id g = d.
Proof.
  intros Hn. unfold find, find_entry. split.
  - destruct (conn_of l !! d) as [e|] eqn:E; [|done]. apply conn_of_lookup in E as (g' & Hg & Hd & ->);
      [|done]. intros [= <-]. done.
  - intros Hg. assert (conn_of l !! d = Some (mk_entry g 0)) as -> by (apply conn_of_lookup; naive_solver).
    done.
Qed.

Lemma load_loop_list p l : gtid_list p l -> forall fuel mem i st,
  (length p < fuel)%nat -> (forall j, mem j = true) ->
  if decide (NoDup (map domain_id l) /\ Forall (fun g => st !! domain_id g = None) l)
  then load_loop fuel mem i st p = (CONN_OK, list_to_map (entries l) ∪ st)
  else (load_loop fuel mem i st p).1 = ER_DUPLICATE_GTID_DOMAIN.
Proof.
  induction 1 as [p g E|p g p' l E Hl IH]; intros [|fuel] mem i st Hf Hm; try lia;
    cbn [load_loop]; rewrite Hm, E; cbn [negb].
  - destruct (st !! domain_id g) as [x|] eqn:Ex.
    + rewrite decide_False; [done|]. intros [_ [H _]%list.Forall_cons]. congruence.
    + rewrite decide_True by (split; [apply NoDup_singleton|by apply list.Forall_singleton]). cbn.
      by rewrite insert_union_singleton_l, insert_empty.
  - apply gtid_parser_shorter in E. simpl in E.
    destruct (st !! domain_id g) as [x|] eqn:Ex.
    + rewrite decide_False; [done|]. intros [_ [H _]%list.Forall_cons]. congruence.
    + rewrite Z.eqb_refl.
      specialize (IH fuel mem (S i) (<[domain_id g := mk_entry g 0]> st) ltac:(lia) Hm).
      assert (Hiff : NoDup (map domain_id l) /\
          Forall (fun g0 => <[domain_id g := mk_entry g 0]> st !! domain_id g0 = None) l <->
        NoDup (map domain_id (g :: l)) /\ Forall (fun g0 => st !! domain_id g0 = None) (g :: l)).
      { cbn. rewrite list.NoDup_cons, list.Forall_cons, elem_of_list_map, !list.Forall_forall.
        setoid_rewrite lookup_insert_None. naive_solver. }
      rewrite (decide_ext _ _ _ _ Hiff) in IH. case_decide as Hd; [|done]. rewrite IH. f_equal.
      cbn. rewrite <-insert_union_l, insert_union_r; [done|].
      apply not_elem_of_list_to_map_1. rewrite entries_keys.
      destruct Hd as [[Hd _]%list.NoDup_cons _]. done.
Qed.

Lemma load_loop_only fuel : forall mem i st p st',
  load_loop fuel mem i st p = (CONN_OK, st') -> exists l, gtid_list p l.
Proof.
  induction fuel as [|fuel IH]; intros mem i st p st'; [done|]. cbn [load_loop].
  destruct (negb (mem i)); [done|]. destruct (gtid_parser_helper p) as [[g q]|] eqn:E; [|done].
  destruct (st !! domain_id g); [done|]. destruct q as [|c q].
  - intros _. exists [g]. by apply gtid_list_one.
  - destruct (Z.eqb_spec c chr_comma) as [->|]; [|done]. intros [l Hl]%IH.
    exists (g :: l). by eapply gtid_list_more.
Qed.

Lemma gtid_list_nonempty p l : gtid_list p l -> p <> [].
Proof. intros [? ? E|? ? ? ? E _] ->; apply gtid_parser_shorter in E; simpl in E; lia. Qed.

Lemma load_list p l mem :
  gtid_list p l -> (forall j, mem j = true) ->
  if decide (NoDup (map domain_id l)) then load mem p = (CONN_OK, conn_of l)
  else (load mem p).1 = ER_DUPLICATE_GTID_DOMAIN.
Proof.
  intros Hl Hm. pose proof (load_loop_list p l Hl (S (length p)) mem 0 ∅ ltac:(lia) Hm) as H.
  rewrite map_union_empty in H.
  assert (load mem p = load_loop (S (length p)) mem 0 ∅ p) as ->.
  { unfold load. destruct p; [|done]. by apply gtid_list_nonempty in Hl. }
  destruct (decide (NoDup (map domain_id l))) as [Hn|Hn].
  - rewrite decide_True in H; [done|]. split; [done|]. apply list.Forall_forall. intros. apply lookup_empty.
  - rewrite decide_False in H; [done|]. naive_solver.
Qed.

(** A slave request is accepted exactly when it is empty or a
    comma-separated list of GTIDs with distinct domains, and the connection
    then stands at these GTIDs; a list that names a domain twice is refused as
    such. *)
Theorem slave_request_accepted (mem : nat -> bool) (req : list Z) :
  (forall j, mem j = true) ->
  (forall st, load mem req = (CONN_OK, st) <->
     req = [] /\ st = ∅ \/ exists l, gtid_list req l /\ NoDup (map domain_id l) /\ st = conn_of l) /\
  (forall l, gtid_list req l -> ~ NoDup (map domain_id l) ->
     (load mem req).1 = ER_DUPLICATE_GTID_DOMAIN).
Proof.
  intros Hm. split.
  - intros st. split.
    + destruct req as [|c p]; [intros [= <-]; auto|]. intros E. right.
      destruct (load_loop_only _ _ _ _ _ _ E) as [l Hl]. exists l. split; [done|].
      pose proof (load_list _ _ mem Hl Hm) as H. case_decide; [split; [done|congruence]|].
      rewrite E in H. done.
    + intros [[-> ->]|(l & Hl & Hn & ->)]; [done|].
      pose proof (load_list _ _ mem Hl Hm) as H. by rewrite decide_True in H.
  - intros l Hl Hn. pose proof (load_list _ _ mem Hl Hm) as H. by rewrite decide_False in H.
Qed.

(** ** Positions from one server to another *)

(** Allocations succeed: [no_failure] of BinlogState. *)
Lemma load_printed l :
  Forall is_gtid l -> NoDup (map domain_id l) ->
  load no_failure (tostring_loop [] true l) = (CONN_OK, conn_of l).
Proof.
  intros Hl Hn. rewrite tostring_loop_text. cbn [app]. destruct l as [|g l]; [done|].
  pose proof (load_list _ _ no_failure (gtid_list_print (g :: l) ltac:(done) Hl) ltac:(done)) as H.
  by rewrite decide_True in H.
Qed.

Section Transfer.
Context `{Containers}.

Definition conn_wf (st : slave_connection_state) : Prop :=
  map_Forall (fun d e => domain_id (entry_gtid e) = d /\ is_gtid (entry_gtid e)) st.

(** A position printed by [to_string] and loaded again is the same
    position, with the flags cleared. *)
Theorem conn_state_roundtrip (st : slave_connection_state) :
  conn_wf st ->
  load no_failure (to_string st []) = (CONN_OK, (fun e => mk_entry (entry_gtid e) 0) <$> st).
Proof.
  intros Hst. unfold to_string, append_to_string. set (l := map entry_gtid (hash_elements st)).
  assert (Hn : NoDup (map domain_id l)).
  { unfold l. rewrite map_map. apply (nodup_keys (fun e => domain_id (entry_gtid e))).
    intros k e He. by apply (Hst _ _ He). }
  rewrite load_printed; [|apply List.Forall_map, list.Forall_forall|done].
  2:{ intros e [k He]%elem_of_hash_elements. by apply (Hst _ _ He). }
  f_equal. apply map_eq. intros d. rewrite lookup_fmap. apply option_eq. intros e.
  rewrite conn_of_lookup, fmap_Some by done. unfold l. setoid_rewrite elem_of_list_map.
  setoid_rewrite elem_of_hash_elements. split.
  - intros (g & (e' & -> & [k He']) & <- & ->). destruct (Hst _ _ He') as [-> _]. eauto.
  - intros (e' & He' & ->). exists (entry_gtid e'). split_and!; [eauto|by apply (Hst _ _ He')|done].
Qed.

(** The widths of what the slave state holds. *)
Definition slave_widths (st : rpl_slave_state) : Prop :=
  map_Forall (fun d e => is_u32 d /\
    Forall (fun le => is_u32 (le_server_id le) /\ is_u64 (le_seq_no le)) (elem_list e)) (hash st).

Lemma extra_hash_gtids mem own_id extra : forall h h',
  extra_hash mem own_id extra h = Some h' -> Forall is_gtid extra ->
  map_Forall (fun _ g => is_gtid g) h -> map_Forall (fun _ g => is_gtid g) h'.
Proof.
  induction extra as [|g extra IH]; intros h h'; cbn; [by intros [= <-]|].
  intros E [Hg He]%list.Forall_cons Hh.
  destruct (_ =? _); [destruct (h !! domain_id g); [done|]; destruct (mem g); [|done]|]; eapply IH; try done.
  by apply map_Forall_insert_2.
Qed.

Lemma start_gtid_widths st own d g :
  slave_widths st -> map_Forall (fun _ g => is_gtid g) own -> start_gtid st own d = Some g -> is_gtid g.
Proof.
  intros Hst Hown. unfold start_gtid, position. intros E.
  assert (Hx : forall x, own !! d = Some x -> is_gtid x) by (intros x Hx; by apply (Hown _ _ Hx)).
  destruct (hash st !! d) as [e|] eqn:He; [|by apply Hx].
  destruct (Hst _ _ He) as [Hd Hl]. pose proof (best_of_spec (elem_list e)) as Hb.
  destruct (best_of (elem_list e)) as [le|]; [|by apply Hx].
  destruct Hb as [Hb _]. rewrite list.Forall_forall in Hl. destruct (Hl _ Hb) as [H1 H2].
  assert (is_gtid (pos_gtid d le)) by (by split_and!).
  destruct (own !! d) as [x|]; [|by injection E as <-]. destruct (_ >? _); injection E as <-; [|done].
  by apply Hx.
Qed.

(** C31: The position text a slave sends ([rpl_slave_state::tostring]) makes the
    master start at exactly the slave's position: in every domain the GTID with
    the highest sub_id, or this server's own last binlogged GTID when that has a
    higher sequence number, and no other domain.  [tostring] fails only when
    there is no memory for its hash or its array, or for two own GTIDs of one
    domain.  (The text is complete only if no append to it fails: with a failing
    append the code returns success too.) *)
Theorem slave_position_transferred mem array_mem append_ok own_id (st : rpl_slave_state) extra :
  lists_wf st -> slave_widths st -> Forall is_gtid extra ->
  let '(err, text) := tostring mem array_mem append_ok own_id st [] extra in
  if err then extra_hash mem own_id extra ∅ = None \/ exists i, array_mem i = false
  else (forall n, append_ok n = true) ->
    exists own c, extra_hash mem own_id extra ∅ = Some own /\ load no_failure text = (CONN_OK, c) /\
      forall d, find c d = start_gtid st own d.
Proof.
  intros Hwf Hw Hx. destruct (tostring mem array_mem append_ok own_id st [] extra) as [err text] eqn:E.
  apply tostring_gtids in E. destruct err; [done|]. destruct E as (l0 & El & Ht). intros Hok. rewrite (Ht Hok). clear Ht.
  destruct (extra_hash mem own_id extra ∅) as [own|] eqn:Hown; [|by unfold iterate_gtids in El; rewrite Hown in El].
  destruct (iterate_gtids_spec mem own_id st extra own Hwf Hown) as (l1 & El1 & Hn & Hin).
  assert (l1 = l0) as -> by congruence. set (l := sort_dynamic l0).
  assert (Hp : l ≡ₚ l0) by apply sort_dynamic_perm.
  assert (Hnl : NoDup (map domain_id l)) by (change (map domain_id) with (fmap (M := list) domain_id); by rewrite Hp).
  assert (Hinl : forall g, g ∈ l <-> start_gtid st own (domain_id g) = Some g) by (intros g; by rewrite Hp).
  exists own, (conn_of l). split; [done|]. split.
  - apply load_printed; [|done]. apply list.Forall_forall. intros g Hg%Hinl.
    eapply start_gtid_widths; [done| |exact Hg].
    by eapply extra_hash_gtids; [done..|apply map_Forall_empty].
  - intros d. apply option_eq. intros g. rewrite find_conn_of, Hinl by done. split.
    + by intros [Hg <-].
    + intros Hg. assert (domain_id g = d) as <-; [|done]. unfold start_gtid in Hg.
      destruct (position st d), (own !! d) as [x|] eqn:Eo; try done; [destruct (_ >? _)|..];
        injection Hg as <-; try done; by apply (extra_hash_keys _ _ _ _ _ Hown (map_Forall_empty _) _ _ Eo).
Qed.

(** The binlog position of a server ([rpl_binlog_state::append_pos]),
    loaded as a slave's request, stands at the most recent GTID of every
    domain. *)
Theorem binlog_position_transferred (st : BinlogState.rpl_binlog_state) :
  wf st ->
  exists text c,
    append_pos true st [] = (false, text) /\ load no_failure text = (CONN_OK, c) /\
    forall d, find c d = find_most_recent st d.
Proof.
  intros Hst. unfold append_pos, append_sorted. cbn [orb].
  set (l := sort_dynamic (most_recent_gtids st)).
  assert (Hk : forall k e g, st !! k = Some e -> last_of e = Some g -> is_gtid g /\ domain_id g = k).
  { intros k e g He Hg. destruct (Hst _ _ He) as (_ & _ & _ & Hh & _). unfold last_of in Hg.
    destruct (last_gtid e); [|done]. by destruct (Hh _ _ Hg) as (? & _ & ?). }
  assert (Hin : forall g, g ∈ l <-> exists k e, st !! k = Some e /\ last_of e = Some g).
  { intros g. unfold l, most_recent_gtids. rewrite sort_dynamic_perm, list_elem_of_omap.
    setoid_rewrite elem_of_hash_elements. naive_solver. }
  assert (Hn : NoDup (map domain_id l)).
  { unfold l. change (map domain_id) with (fmap (M := list) domain_id). rewrite sort_dynamic_perm.
    unfold most_recent_gtids. apply (most_recent_nodup st Hst). }
  eexists _, (conn_of l). split_and!; [done| |].
  - apply load_printed; [|done]. apply list.Forall_forall. intros g (k & e & He & Hg)%Hin. by eapply Hk.
  - intros d. apply option_eq. intros g. rewrite find_conn_of, Hin by done. unfold find_most_recent. split.
    + intros [(k & e & He & Hg) <-]. destruct (Hk _ _ _ He Hg) as [_ ->]. by rewrite He.
    + destruct (st !! d) as [e|] eqn:He; [|done]. intros Hg. destruct (Hk _ _ _ He Hg). eauto.
Qed.
End Transfer.

(** ** Examples *)

Module Examples.

(** "0-1-5,2-1-9" *)
Definition request : list Z := [48; 45; 49; 45; 53; 44; 50; 45; 49; 45; 57].
Definition request_gtids : list rpl_gtid := [mk_gtid 0 1 5; mk_gtid 2 1 9].

Lemma request_list : gtid_list request request_gtids.
Proof.
  eapply gtid_list_more; [vm_compute; reflexivity|]. apply gtid_list_one. vm_compute. reflexivity.
Qed.

Lemma slave_request_accepted_witness :
  load no_failure request = (CONN_OK, conn_of request_gtids).
Proof.
  apply slave_request_accepted; [reflexivity|]. right. exists request_gtids.
  split; [apply request_list|]. split; [|reflexivity]. vm_compute. repeat constructor; set_solver.
Defined.

Definition sample_conn : slave_connection_state :=
  {[0 := mk_entry (mk_gtid 0 1 5) START_ON_EMPTY_DOMAIN; 2 := mk_entry (mk_gtid 2 1 9) 0]}.

Lemma conn_state_roundtrip_witness :
  load no_failure (to_string sample_conn [])
  = (CONN_OK, (fun e => mk_entry (entry_gtid e) 0) <$> sample_conn).
Proof.
  apply conn_state_roundtrip. apply map_Forall_insert_2; [|apply map_Forall_singleton];
    repeat split; vm_compute; (discriminate || reflexivity).
Defined.

(** A slave that applied 1-2-6 and 1-2-7, and itself wrote 1-5-8 and 3-5-1. *)
Definition sample_slave : rpl_slave_state :=
  mk_slave_state
    {[1 := SlaveState.mk_element [mk_list_element 11 7 2; mk_list_element 10 6 2] 1 7 None 0 None 0]}
    11 true.
Definition sample_own : gmap Z rpl_gtid := {[3 := mk_gtid 3 5 1; 1 := mk_gtid 1 5 8]}.
Definition yes {A} (_ : A) : bool := true.

Lemma slave_position_transferred_witness :
  exists text c,
    tostring yes yes yes 5 sample_slave [] [mk_gtid 1 5 8; mk_gtid 3 5 1] = (false, text) /\
    load no_failure text = (CONN_OK, c) /\
    forall d, find c d = start_gtid sample_slave sample_own d.
Proof.
  pose proof (slave_position_transferred yes yes yes 5 sample_slave [mk_gtid 1 5 8; mk_gtid 3 5 1]) as H.
  destruct (tostring yes yes yes 5 sample_slave [] [mk_gtid 1 5 8; mk_gtid 3 5 1]) as [err text] eqn:E.
  assert (Ee : err = false) by (apply (f_equal fst) in E; vm_compute in E; by rewrite <- E). subst err.
  destruct H as (own & c & Ho & Hl & Hf).
  - apply map_Forall_singleton. split; [reflexivity|]. vm_compute. repeat constructor; set_solver.
  - apply map_Forall_singleton. repeat constructor; vm_compute; (discriminate || reflexivity).
  - repeat constructor; vm_compute; (discriminate || reflexivity).
  - done.
  - exists text, c. split; [reflexivity|]. split; [exact Hl|].
    assert (own = sample_own) as -> by (vm_compute in Ho; injection Ho as <-; vm_compute; reflexivity). exact Hf.
Defined.

(** When the fourth append fails, the text ends inside the first GTID and the
    result is success. *)
Lemma tostring_append_lost :
  tostring yes yes (fun n => (n <? 3)%nat) 5 sample_slave [] [] = (false, [49; 45; 50]).
Proof. vm_compute. reflexivity. Qed.

Lemma binlog_position_transferred_witness :
  exists text c,
    append_pos true BinlogState.Examples.sample [] = (false, text) /\
    load no_failure text = (CONN_OK, c) /\
    forall d, find c d = find_most_recent BinlogState.Examples.sample d.
Proof. apply binlog_position_transferred, BinlogState.Examples.sample_wf. Defined.

End Examples.
