(* ===== verification/GtidWait.v ===== *)
(** * MASTER_GTID_WAIT

    [gtid_waiting] (sql/rpl_gtid.cc) lets clients wait until a slave has
    applied a GTID.  The waiters of a domain stand in a priority queue (Queue);
    one of them at a time does the small wait, on a condition of the slave
    state, and wakes the others, which do the large wait.

    The file models the threads in [wait_for_gtid] on one domain as a
    transition system: a step is what a thread does between taking
    LOCK_gtid_waiting or LOCK_slave_state and the next wait on a condition, and
    the replication threads step by [rpl_slave_state::update] (SlaveState). *)
From Stdlib Require Import ZArith Lia List Bool.
From stdpp Require Import base tactics list gmap relations functions.
From S2P Require Import Prelude StrNum Gtid BinlogState SlaveState Queue.

Open Scope Z_scope.

(** ** State *)

(** A queue element: the thread and the sequence number it waits for. *)
Record queue_element := mk_qe { qe_thd : nat; qe_wait_seq_no : Z }.

#[export] Instance queue_element_eq_dec : EqDecision queue_element.
Proof. solve_decision. Defined.

Definition cmp_queue_elem (a b : queue_element) : Z :=
  let seq_no_a := qe_wait_seq_no a in
  let seq_no_b := qe_wait_seq_no b in
  if seq_no_a <? seq_no_b then -1 else if seq_no_a =? seq_no_b then 0 else 1.

Lemma cmp_queue_elem_sign a b :
  (cmp_queue_elem a b <= 0 <-> qe_wait_seq_no a <= qe_wait_seq_no b) /\
  (0 <= cmp_queue_elem a b <-> qe_wait_seq_no b <= qe_wait_seq_no a).
Proof. unfold cmp_queue_elem. zcases; lia. Qed.

#[export] Instance cmp_queue_elem_order : QueueOrder cmp_queue_elem.
Proof.
  split; intros a b; pose proof (cmp_queue_elem_sign a b); pose proof (cmp_queue_elem_sign b a).
  - lia.
  - intros c. pose proof (cmp_queue_elem_sign b c). pose proof (cmp_queue_elem_sign a c). lia.
Qed.

Notation wait_queue := (@QUEUE queue_element).

(** The queue of a domain, allocated when it is first waited on. *)
Definition new_entry : wait_queue := init_queue (mk_qe 0 0) 8 false true 1.

Definition get_entry (mem : bool) (hash : gmap Z wait_queue) (domain_id : Z)
  : option wait_queue * gmap Z wait_queue :=
  match hash !! domain_id with
  | Some e => (Some e, hash)
  | None => if mem then (Some new_entry, <[domain_id := new_entry]> hash) else (None, hash)
  end.

(** Where a thread in [wait_for_gtid] is: running, in the small wait, after the
    small wait and before it has LOCK_gtid_waiting again (with its
    [wakeup_seq_no]), in the large wait, or returned. *)
Inductive phase := RUNNING | SMALL_WAIT | WOKEN (wakeup_seq_no : Z) | LARGE_WAIT | RETURNED.

#[export] Instance phase_eq_dec : EqDecision phase.
Proof. solve_decision. Defined.

(** The members of the thread's [elem] and its local variables. *)
Record waiter := mk_waiter {
  wait_seq_no : Z; do_small_wait : bool; done : bool; timed_out : bool; w_phase : phase
}.

Definition set_small (w : waiter) (b : bool) : waiter :=
  mk_waiter (wait_seq_no w) b (done w) (timed_out w) (w_phase w).
Definition set_done (w : waiter) : waiter :=
  mk_waiter (wait_seq_no w) (do_small_wait w) true (timed_out w) (w_phase w).
Definition set_timed_out (w : waiter) (b : bool) : waiter :=
  mk_waiter (wait_seq_no w) (do_small_wait w) (done w) b (w_phase w).
Definition set_phase (w : waiter) (p : phase) : waiter :=
  mk_waiter (wait_seq_no w) (do_small_wait w) (done w) (timed_out w) p.

Record wait_state := mk_ws {
  he : wait_queue;
  waiters : gmap nat waiter;
  slave : rpl_slave_state
}.

Definition put (s : wait_state) (x : nat) (w : waiter) : wait_state :=
  mk_ws (he s) (<[x := w]> (waiters s)) (slave s).
Definition set_queue (s : wait_state) (q : wait_queue) : wait_state :=
  mk_ws q (waiters s) (slave s).
Definition set_slave (s : wait_state) (st : rpl_slave_state) : wait_state :=
  mk_ws (he s) (waiters s) st.

(** ** Operations under LOCK_gtid_waiting *)

Definition promote_new_waiter (s : wait_state) : wait_state :=
  if queue_empty (he s) then s
  else mk_ws (he s) (alter (fun w => set_small w true) (qe_thd (queue_top (he s))) (waiters s)) (slave s).

(** The waiters that are taken out of the queue, in turn, and the queue that is
    left; every round takes one out. *)
Fixpoint process_loop (fuel : nat) (q : wait_queue) (wakeup_seq_no : Z)
  : list queue_element * wait_queue :=
  match fuel with
  | O => ([], q)
  | S fuel =>
      if queue_empty q then ([], q)
      else
        let qe := queue_top q in
        if qe_wait_seq_no qe >? wakeup_seq_no then ([], q)
        else
          let '(woken, q) := process_loop fuel (snd (queue_remove_top cmp_queue_elem q)) wakeup_seq_no in
          (qe :: woken, q)
  end.

Definition mark_done (woken : list queue_element) (ws : gmap nat waiter) : gmap nat waiter :=
  fold_left (fun ws qe => alter set_done (qe_thd qe) ws) woken ws.

Definition process_wait_hash (wakeup_seq_no : Z) (s : wait_state) : wait_state :=
  let '(woken, q) := process_loop (S (elements (he s))) (he s) wakeup_seq_no in
  mk_ws q (mark_done woken (waiters s)) (slave s).

(** [queue_insert_safe] fails when the queue cannot grow; false is the error
    return. *)
Definition register_in_wait_queue (mem : bool) (s : wait_state) (x : nat) (seq_no : Z)
  : bool * wait_state :=
  let '(r, q) := queue_insert_safe cmp_queue_elem mem (he s) (mk_qe x seq_no) in
  (r =? 0, set_queue s q).

Definition remove_from_wait_queue (s : wait_state) (x : nat) (w : waiter) : wait_state :=
  set_queue s
    (snd (queue_remove cmp_queue_elem (he s) (pos (he s) (mk_qe x (wait_seq_no w))))).

(** ** The loop of [wait_for_gtid] *)

Section Wait.
Variable domain : Z.

(** The thread returns. *)
Definition return_from_wait (s : wait_state) (x : nat) : wait_state :=
  mk_ws (he s) (alter (fun w => set_phase w RETURNED) x (waiters s)) (slave s).

(** From the test for kill and timeout to the end of the loop body; [again] is
    the next turn. *)
Definition end_of_turn (again : wait_state -> option wait_state) (killed : bool) (s : wait_state)
    (x : nat) : option wait_state :=
  match waiters s !! x with
  | None => None
  | Some w =>
      let aborted := (killed || timed_out w) && negb (done w) in
      let s := if aborted then put (remove_from_wait_queue s x w) x (set_done w) else s in
      if aborted || done w then
        Some (return_from_wait (if do_small_wait w then promote_new_waiter s else s) x)
      else again s
  end.

(** From the head of the loop until the thread waits or returns; none when it
    still goes round after [fuel] turns.  [mem]: the domain's element of the
    slave state can be allocated. *)
Fixpoint wait_loop (fuel : nat) (mem killed : bool) (s : wait_state) (x : nat) : option wait_state :=
  match fuel with
  | O => None
  | S fuel =>
      match waiters s !! x with
      | None => None
      | Some w =>
          let again s := wait_loop fuel mem killed s x in
          if do_small_wait w then
            match get_element mem (slave s) domain with
            | (None, _) =>
                Some (return_from_wait (promote_new_waiter (remove_from_wait_queue s x w)) x)
            | (Some e, st) =>
                let s := set_slave s st in
                if highest_seq_no e >=? wait_seq_no w then
                  end_of_turn again killed (process_wait_hash (highest_seq_no e) s) x
                else if bool_decide (gtid_waiter e <> None) && (min_wait_seq_no e <=? wait_seq_no w) then
                  end_of_turn again killed
                    (process_wait_hash (highest_seq_no e) (put s x (set_small w false))) x
                else
                  Some (put (set_slave s (set_elem st domain (set_waiter e (Some x) (wait_seq_no w))))
                          x (set_phase w SMALL_WAIT))
            end
          else if killed then end_of_turn again killed s x
          else Some (put s x (set_phase w LARGE_WAIT))
      end
  end.

(** A thread goes round at most twice before it waits or returns. *)
Definition TURNS : nat := 2.

(** The entry of [wait_for_gtid]; false is the error return. *)
Definition wait_start (mem mem' killed : bool) (s : wait_state) (x : nat) (seq_no : Z)
  : bool * option wait_state :=
  let small := queue_empty (he s) || (qe_wait_seq_no (queue_top (he s)) >? seq_no) in
  let '(ok, s) := register_in_wait_queue mem' s x seq_no in
  if ok then
    (true, wait_loop TURNS mem killed (put s x (mk_waiter seq_no small false false RUNNING)) x)
  else (false, Some s).

(** The end of the small wait, under LOCK_slave_state; [timed]: it timed out. *)
Definition small_wake (timed : bool) (s : wait_state) (x : nat) (w : waiter) (e : element)
  : wait_state :=
  let w := set_timed_out w (timed_out w || timed) in
  let w' := set_phase w (WOKEN (highest_seq_no e)) in
  match gtid_waiter e with
  | Some t =>
      if decide (t = x) then
        put (set_slave s (set_elem (slave s) domain (set_waiter e None (min_wait_seq_no e)))) x w'
      else if min_wait_seq_no e <=? wait_seq_no w then put s x (set_small w' false)
      else put s x w'
  | None => put s x w'
  end.

(** The end of a large wait. *)
Definition large_wake (mem killed timed : bool) (s : wait_state) (x : nat) (w : waiter)
  : option wait_state :=
  let w := set_timed_out w (timed_out w || timed) in
  let s := put s x w in
  if do_small_wait w || timed_out w || done w || killed
  then end_of_turn (fun s => wait_loop TURNS mem killed s x) killed s x
  else Some s.

(** ** The system *)

Inductive wait_step : wait_state -> wait_state -> Prop :=
| step_start mem mem' killed s x seq_no ok s' :
    is_u64 seq_no -> (forall w, waiters s !! x = Some w -> w_phase w = RETURNED) ->
    wait_start mem mem' killed s x seq_no = (ok, Some s') -> wait_step s s'
| step_small timed aborted s x w e :
    waiters s !! x = Some w -> w_phase w = SMALL_WAIT -> hash (slave s) !! domain = Some e ->
    gtid_waiter e <> Some x \/ aborted = true ->
    wait_step s (small_wake (timed && aborted) s x w e)
| step_resume mem killed s x w wakeup_seq_no s' :
    waiters s !! x = Some w -> w_phase w = WOKEN wakeup_seq_no ->
    end_of_turn (fun s => wait_loop TURNS mem killed s x) killed
      (process_wait_hash wakeup_seq_no s) x = Some s' ->
    wait_step s s'
| step_large mem killed timed s x w s' :
    waiters s !! x = Some w -> w_phase w = LARGE_WAIT ->
    large_wake mem killed timed s x w = Some s' -> wait_step s s'
| step_update mem mem' s d server_id sub_id seq_no rgi ok st rgi' :
    update mem mem' (slave s) d server_id sub_id seq_no rgi = (ok, st, rgi') ->
    wait_step s (set_slave s st).

(** Steps after which the queue is in heap order. *)
Definition ordered_step (s s' : wait_state) : Prop :=
  wait_step s s' /\ heap cmp_queue_elem (he s').

Definition wait_init (s : wait_state) : Prop :=
  he s = new_entry /\ waiters s = ∅ /\
  forall e, hash (slave s) !! domain = Some e -> gtid_waiter e = None.

(** ** The invariant *)

(** The domain's element of the slave state. *)
Definition elem_at (s : wait_state) : element :=
  default (new_element domain) (hash (slave s) !! domain).

Definition active (w : waiter) : Prop := w_phase w <> RETURNED.

Definition queued (s : wait_state) (e : queue_element) : Prop := e ∈ contents (he s).

(** A thread that has to see to it that the position is watched: it has
    finished, and will pass the task on, or it waits for the first position
    of all. *)
Definition responsible (s : wait_state) (t : nat) (w : waiter) : Prop :=
  waiters s !! t = Some w /\ active w /\ do_small_wait w = true /\
  (done w = true \/ forall e, queued s e -> wait_seq_no w <= qe_wait_seq_no e).

Record winv (s : wait_state) : Prop := {
  wi_queue : wf cmp_queue_elem (he s);
  wi_shape : with_pos (he s) = true /\ max_at_top (he s) = 1;
  wi_queued : forall e, queued s e <->
    exists w, waiters s !! qe_thd e = Some w /\ wait_seq_no w = qe_wait_seq_no e /\
              active w /\ done w = false;
  wi_waiter : forall t, gtid_waiter (elem_at s) = Some t ->
    exists w, waiters s !! t = Some w /\ w_phase w = SMALL_WAIT /\ do_small_wait w = true /\
              done w = false /\ wait_seq_no w = min_wait_seq_no (elem_at s) /\
              highest_seq_no (elem_at s) < min_wait_seq_no (elem_at s);
  wi_done : forall t w, waiters s !! t = Some w -> active w -> done w = true ->
    wait_seq_no w <= highest_seq_no (elem_at s);
  wi_woken : forall t w n, waiters s !! t = Some w -> w_phase w = WOKEN n ->
    n <= highest_seq_no (elem_at s);
  wi_resp : forall e, queued s e -> exists t w, responsible s t w
}.
End Wait.

(** ** [wait_for_pos]

    [wait] is the result of [wait_for_gtid] for a GTID and a deadline. *)

(** The relative deadline in nanoseconds; none: no deadline. *)
Definition wait_deadline (timeout_us : Z) : option Z :=
  if timeout_us >=? 0 then Some (u64 (1000 * timeout_us)) else None.

Fixpoint wait_each (wait : rpl_gtid -> option Z -> Z) (wait_until : option Z)
    (wait_pos : list rpl_gtid) : Z :=
  match wait_pos with
  | [] => 0
  | gtid :: rest =>
      let err := wait gtid wait_until in
      if negb (err =? 0) then err else wait_each wait wait_until rest
  end.

(** The result and what is added to the status variables master_gtid_wait_count
    and master_gtid_wait_timeouts. *)
Definition wait_for_pos (wait : rpl_gtid -> option Z -> Z) (gtid_str : list Z) (timeout_us : Z)
  : Z * Z * Z :=
  match gtid_str with
  | [] => (0, 1, 0)
  | _ =>
      match gtid_parse_string_to_list gtid_str with
      | None => (1, 0, 0)
      | Some wait_pos =>
          let err := wait_each wait (wait_deadline timeout_us) wait_pos in
          (err, 1, if err =? -1 then 1 else 0)
      end
  end.

(** A timeout of zero is a deadline that has passed, not the absence of one. *)
Lemma zero_timeout_is_a_deadline : wait_deadline 0 = Some 0 /\ wait_deadline (-1) = None.
Proof. done. Qed.

(** ** Queue lemmas *)

Lemma le_seq_no (q : wait_queue) a b :
  max_at_top q = 1 -> le cmp_queue_elem q a b <-> qe_wait_seq_no a <= qe_wait_seq_no b.
Proof. intros E. unfold le, cmp. rewrite E. pose proof (cmp_queue_elem_sign a b). lia. Qed.

Lemma elem_of_contents {E} (q : @QUEUE E) e :
  e ∈ contents q <-> exists i, (1 <= i <= elements q)%nat /\ root q i = e.
Proof.
  unfold contents. rewrite list_elem_of_In, in_map_iff. setoid_rewrite in_seq. split.
  - intros (i & <- & Hi). exists i. split; [lia|done].
  - intros (i & Hi & <-). exists i. split; [done|lia].
Qed.

Lemma queue_empty_contents {E} (q : @QUEUE E) : queue_empty q = true <-> contents q = [].
Proof.
  unfold queue_empty, contents. destruct (elements q); cbn; [done|]. done.
Qed.

(** The top of a queue in order is queued and waits for the first position. *)
Lemma queue_top_first (q : wait_queue) :
  wf cmp_queue_elem q -> max_at_top q = 1 -> queue_empty q = false ->
  queue_top q ∈ contents q /\
  forall e, e ∈ contents q -> qe_wait_seq_no (queue_top q) <= qe_wait_seq_no e.
Proof.
  intros Hq Hm Hne. assert (1 <= elements q)%nat
    by (unfold queue_empty in Hne; destruct (elements q); [done|lia]).
  split; [apply elem_of_contents; exists 1%nat; split; [lia|done]|].
  intros e (i & Hi & <-)%elem_of_contents. apply (le_seq_no q _ _ Hm).
  apply (heap_top cmp_queue_elem); [apply Hq|apply Hq|done].
Qed.

Lemma process_loop_spec n fuel : forall q woken q',
  wf cmp_queue_elem q -> max_at_top q = 1 -> (elements q < fuel)%nat ->
  process_loop fuel q n = (woken, q') ->
  wf cmp_queue_elem q' /\ max_at_top q' = 1 /\ with_pos q' = with_pos q /\
  woken ++ contents q' ≡ₚ contents q /\
  Forall (fun e => qe_wait_seq_no e <= n) woken /\
  Forall (fun e => n < qe_wait_seq_no e) (contents q').
Proof.
  induction fuel as [|fuel IH]; intros q woken q' Hq Hm Hf; [lia|]. cbn [process_loop].
  destruct (queue_empty q) eqn:Ee.
  { intros [= <- <-]. apply queue_empty_contents in Ee. rewrite Ee. by split_and!. }
  destruct (queue_top_first q Hq Hm Ee) as [Ht1 Ht2]. rewrite Z.gtb_ltb.
  destruct (Z.ltb_spec n (qe_wait_seq_no (queue_top q))) as [Hlt|Hle].
  { intros [= <- <-]. split_and!; [done..|]. apply list.Forall_forall. intros e He.
    specialize (Ht2 e He). lia. }
  destruct (queue_remove_top cmp_queue_elem q) as [top q1] eqn:Er. cbn [snd].
  assert (1 <= elements q)%nat
    by (unfold queue_empty in Ee; destruct (elements q); [done|lia]).
  destruct (queue_remove_frame cmp_queue_elem q 1 top q1 Hq ltac:(lia) Er)
    as (-> & Hp & Hnd & Hpos & Hel & Hmax & Hwp & _ & Hh).
  destruct (process_loop fuel q1 n) as [woken1 q2] eqn:Ep. intros [= <- <-].
  apply IH in Ep as (H1 & H2 & H3 & H4 & H5 & H6); [| |congruence|lia].
  - split_and!; [done|done|congruence| |by constructor|done]. rewrite <-Hp, <-H4. done.
  - split; [by left; congruence|by apply Hh; left|done..].
Qed.

Lemma set_done_idemp w : set_done (set_done w) = set_done w.
Proof. done. Qed.

Lemma mark_done_lookup woken : forall ws x,
  mark_done woken ws !! x =
  if decide (x ∈ map qe_thd woken) then set_done <$> ws !! x else ws !! x.
Proof.
  induction woken as [|e woken IH]; intros ws x; cbn [mark_done fold_left map].
  { rewrite decide_False; [done|apply not_elem_of_nil]. }
  fold (mark_done woken (alter set_done (qe_thd e) ws)). rewrite IH.
  destruct (decide (x = qe_thd e)) as [->|Hne].
  - rewrite lookup_alter_eq. rewrite (decide_True (P := qe_thd e ∈ qe_thd e :: _)) by (apply elem_of_cons; by left).
    destruct (ws !! qe_thd e); case_decide; done.
  - rewrite lookup_alter_ne by done. apply decide_ext. rewrite elem_of_cons. naive_solver.
Qed.

(** ** The invariant under the operations *)

Lemma elem_at_unfold domain s :
  elem_at domain s = default (new_element domain) (hash (slave s) !! domain).
Proof. done. Qed.

Lemma elem_at_slave domain s s' : slave s' = slave s -> elem_at domain s' = elem_at domain s.
Proof. unfold elem_at. by intros ->. Qed.

Section Invariant.
Variable domain : Z.
Notation winv := (winv domain).
Notation elem_at := (elem_at domain).

#[local] Instance active_dec w : Decision (active w).
Proof. unfold active. apply _. Defined.

(** A waiter after [process_wait_hash]. *)
Definition processed (n : Z) (w : waiter) : waiter :=
  if decide (active w /\ done w = false /\ wait_seq_no w <= n) then set_done w else w.

Lemma process_wait_hash_spec n s :
  winv s ->
  let s' := process_wait_hash n s in
  slave s' = slave s /\ (forall y, waiters s' !! y = processed n <$> waiters s !! y) /\
  (forall e, queued s' e <-> queued s e /\ n < qe_wait_seq_no e) /\
  wf cmp_queue_elem (he s') /\ with_pos (he s') = true /\ max_at_top (he s') = 1.
Proof.
  intros [Hq [Hwp Hm] Hin _ _ _ _]. unfold process_wait_hash.
  destruct (process_loop _ _ _) as [woken q] eqn:E. apply process_loop_spec in E as (H1 & H2 & H3 & H4 & H5 & H6);
    [|done|done|lia]. cbn. rewrite list.Forall_forall in H5, H6.
  assert (Hw : forall e, e ∈ woken <-> queued s e /\ qe_wait_seq_no e <= n).
  { intros e. unfold queued. rewrite <-H4, elem_of_app. split.
    - intros He. split; [by left|by apply H5].
    - intros [[He|He] Hle]; [done|]. specialize (H6 e He). lia. }
  split_and!; [done| | |done|congruence|done].
  - intros y. rewrite mark_done_lookup. destruct (waiters s !! y) as [w|] eqn:Ey; cbn; [|by case_decide].
    unfold processed. f_equal. assert (Hiff : y ∈ map qe_thd woken <->
      active w /\ done w = false /\ wait_seq_no w <= n); [|by rewrite (decide_ext _ _ _ _ Hiff); case_decide].
    rewrite elem_of_list_map. setoid_rewrite Hw. setoid_rewrite Hin. split.
    + intros (e & -> & (w' & Hw' & Es & Ha & Hd) & Hle). assert (w' = w) as -> by congruence.
      split_and!; [done..|lia].
    + intros (Ha & Hd & Hle). exists (mk_qe y (wait_seq_no w)). split; [done|]. split; [|done].
      exists w. done.
  - intros e. unfold queued at 1 2. cbn. rewrite <-H4, elem_of_app. split.
    + intros He. split; [by right|by apply H6].
    + intros [[He|He] Hlt]; [|done]. specialize (H5 e He). lia.
Qed.

Lemma processed_phase n w : w_phase (processed n w) = w_phase w.
Proof. unfold processed. by case_decide. Qed.
Lemma processed_seq n w : wait_seq_no (processed n w) = wait_seq_no w.
Proof. unfold processed. by case_decide. Qed.
Lemma processed_small n w : do_small_wait (processed n w) = do_small_wait w.
Proof. unfold processed. by case_decide. Qed.
Lemma processed_active n w : active (processed n w) <-> active w.
Proof. unfold active. by rewrite processed_phase. Qed.
Lemma processed_done n w :
  active w -> done (processed n w) = done w || (wait_seq_no w <=? n).
Proof.
  intros Ha. unfold processed. destruct (done w) eqn:Ed; cbn.
  - case_decide; [done|by rewrite Ed].
  - destruct (Z.leb_spec (wait_seq_no w) n).
    + by rewrite decide_True.
    + rewrite decide_False by (intros (_ & _ & ?); lia). by rewrite Ed.
Qed.

Lemma process_wait_hash_inv n s :
  winv s -> n <= highest_seq_no (elem_at s) -> winv (process_wait_hash n s).
Proof.
  intros Hinv Hn. destruct (process_wait_hash_spec n s Hinv) as (Hsl & Hws & Hin & Hq & Hwp & Hm).
  set (s' := process_wait_hash n s) in *.
  assert (He : elem_at s' = elem_at s) by (by apply elem_at_slave).
  destruct Hinv as [_ _ HQ HW HD HK HR]. split; rewrite ?He; try done.
  - intros e. rewrite Hin, HQ, Hws. split.
    + intros [(w & Hw & Hs & Ha & Hd) Hlt]. exists (processed n w). rewrite Hw.
      rewrite processed_seq, processed_active, processed_done, Hd by done. split_and!; try done.
      cbn. destruct (Z.leb_spec (wait_seq_no w) n); [lia|done].
    + intros (w' & Hw' & Hs & Ha & Hd). destruct (waiters s !! qe_thd e) as [w|]; [|done].
      injection Hw' as <-. rewrite processed_seq in Hs. apply processed_active in Ha.
      rewrite processed_done in Hd by done. apply orb_false_iff in Hd as [Hd Hl].
      apply Z.leb_gt in Hl. split; [|lia]. by exists w.
  - intros t Ht. destruct (HW t Ht) as (w & Hw & Hp & Hs & Hd & Hseq & Hlt). exists (processed n w).
    rewrite Hws, Hw, processed_phase, processed_small, processed_seq. split_and!; try done.
    rewrite processed_done by (unfold active; congruence). rewrite Hd. cbn.
    destruct (Z.leb_spec (wait_seq_no w) n); [lia|done].
  - intros t w'. rewrite Hws. destruct (waiters s !! t) as [w|] eqn:Ew; [|done]. intros [= <-] Ha Hd.
    apply processed_active in Ha. rewrite processed_seq. rewrite processed_done in Hd by done.
    apply orb_true_iff in Hd as [Hd|Hl]; [by eapply HD|]. apply Z.leb_le in Hl. lia.
  - intros t w' m. rewrite Hws. destruct (waiters s !! t) as [w|] eqn:Ew; [|done]. intros [= <-].
    rewrite processed_phase. by eapply HK.
  - intros e [Hq0 _]%Hin. destruct (HR e Hq0) as (t & w & Hw & Ha & Hs & Hor).
    exists t, (processed n w). split_and!.
    + by rewrite Hws, Hw.
    + by apply processed_active.
    + by rewrite processed_small.
    + rewrite processed_seq, processed_done by done. destruct Hor as [->|Hmin]; [by left|].
      right. intros e' [He' _]%Hin. by apply Hmin.
Qed.

(** Changing a thread's own record, other than its position, [done] and
    whether it has returned. *)
Lemma put_inv s x w w' :
  winv s -> waiters s !! x = Some w -> gtid_waiter (elem_at s) <> Some x ->
  active w -> active w' -> wait_seq_no w' = wait_seq_no w -> done w' = done w ->
  (forall n, w_phase w' = WOKEN n -> n <= highest_seq_no (elem_at s)) ->
  (do_small_wait w = true -> do_small_wait w' = true) \/
  (forall e, queued s e -> exists t wt, t <> x /\ responsible s t wt) ->
  winv (put s x w').
Proof.
  intros [Hq Hsh HQ HW HD HK HR] Hx Hgw Ha Ha' Hs Hd Hph Hor.
  assert (He : elem_at (put s x w') = elem_at s) by done. split; rewrite ?He; try done.
  - intros e. unfold queued in *. cbn. rewrite HQ. destruct (decide (qe_thd e = x)) as [->|Hne].
    + rewrite lookup_insert_eq, Hx. split; intros (? & [= <-] & ?); eexists; split_and!;
        try done; naive_solver congruence.
    + by rewrite lookup_insert_ne.
  - intros t Ht. destruct (HW t Ht) as (wt & Hwt & ?). exists wt. cbn. rewrite lookup_insert_ne; [done|congruence].
  - intros t wt. cbn. intros [[<- <-]|[_ Ht]]%lookup_insert_Some; [|by eapply HD].
    intros _ Hdn. rewrite Hs. eapply HD; [exact Hx|done|congruence].
  - intros t wt n. cbn. intros [[<- <-]|[_ Ht]]%lookup_insert_Some; [apply Hph|by eapply HK].
  - intros e Hqe. change (queued s e) in Hqe.
    assert (Hother : forall t wt, t <> x -> responsible s t wt -> responsible (put s x w') t wt).
    { intros t wt Hne (H1 & H2 & H3 & H4). split_and!; try done. cbn. by rewrite lookup_insert_ne. }
    destruct Hor as [Hsm|Hex].
    + destruct (HR e Hqe) as (t & wt & Hr). destruct (decide (t = x)) as [->|Hne]; [|by eauto].
      destruct Hr as (H1 & H2 & H3 & H4). assert (wt = w) as -> by congruence.
      exists x, w'. split_and!; [cbn; apply lookup_insert_eq|done|by apply Hsm|].
      rewrite Hs, Hd. exact H4.
    + destruct (Hex e Hqe) as (t & wt & Hne & Hr). eauto.
Qed.

(** The small waiter is responsible, unless the queue is watched by another. *)
Lemma small_waiter_takes_over s x w t :
  winv s -> waiters s !! x = Some w -> active w -> gtid_waiter (elem_at s) = Some t -> t <> x ->
  min_wait_seq_no (elem_at s) <= wait_seq_no w ->
  forall e, queued s e -> exists t wt, t <> x /\ responsible s t wt.
Proof.
  intros [_ _ HQ HW HD _ HR] Hx Ha Ht Hne Hmin e Hqe.
  destruct (HW t Ht) as (wt & Hwt & Hp & Hs & Hd & Hseq & Hlt).
  destruct (HR e Hqe) as (r & wr & Hr). destruct (decide (r = x)) as [->|Hrx]; [|by eauto].
  destruct Hr as (H1 & H2 & H3 & H4). assert (wr = w) as -> by congruence.
  exists t, wt. split; [done|]. split_and!; [done|unfold active; congruence|done|].
  destruct H4 as [H4|H4].
  - specialize (HD x w Hx Ha H4). lia.
  - right. intros e' He'. specialize (H4 e' He'). lia.
Qed.

(** Changing the slave state. *)
Lemma slave_inv s st :
  winv s ->
  let e := elem_at s in let e' := elem_at (set_slave s st) in
  highest_seq_no e <= highest_seq_no e' ->
  gtid_waiter e' = None \/
  (gtid_waiter e' = gtid_waiter e /\ min_wait_seq_no e' = min_wait_seq_no e /\
   highest_seq_no e' < min_wait_seq_no e') ->
  winv (set_slave s st).
Proof.
  intros [Hq Hsh HQ HW HD HK HR] e e' Hh Hg. split; try done; fold e'.
  - intros t Ht. destruct Hg as [Hg|(Hg & Hm & Hlt)]; [congruence|]. rewrite Hg in Ht.
    destruct (HW t Ht) as (w & Hw & Hp & Hs & Hd & Hseq & _). exists w. split_and!; try done.
    rewrite Hm. done.
  - intros t w Hw Ha Hd. specialize (HD t w Hw Ha Hd). fold e in HD. lia.
  - intros t w n Hw Hp. specialize (HK t w n Hw Hp). fold e in HK. lia.
Qed.

(** [get_element] does not change what is seen. *)
Lemma get_element_inv mem s e st :
  winv s -> get_element mem (slave s) domain = (Some e, st) ->
  winv (set_slave s st) /\ elem_at (set_slave s st) = elem_at s /\ e = elem_at s /\
  hash st !! domain = Some e.
Proof.
  intros Hinv E. apply get_element_spec in E as (H1 & H2 & H3).
  assert (Hs : e = elem_at s).
  { rewrite elem_at_unfold. by destruct H3 as [-> | [-> ->]]. }
  assert (He : elem_at (set_slave s st) = elem_at s).
  { rewrite elem_at_unfold. cbn. rewrite H1. exact Hs. }
  split; [|done]. apply slave_inv; [done|rewrite He; lia|]. rewrite He.
  destruct (gtid_waiter (elem_at s)) as [t|] eqn:Et; [right|by left].
  destruct (wi_waiter _ _ Hinv t Et) as (w & _ & _ & _ & _ & _ & Hlt). done.
Qed.

(** Becoming the small waiter. *)
Lemma become_small_inv s x w e st :
  winv s -> waiters s !! x = Some w -> active w -> done w = false -> do_small_wait w = true ->
  hash st !! domain = Some e -> elem_at s = e -> highest_seq_no e < wait_seq_no w ->
  winv (put (set_slave s (set_elem st domain (set_waiter e (Some x) (wait_seq_no w)))) x
          (set_phase w SMALL_WAIT)).
Proof.
  intros [Hq Hsh HQ HW HD HK HR] Hx Ha Hd Hs Hst He Hlt. set (s' := put _ _ _).
  assert (He' : elem_at s' = set_waiter e (Some x) (wait_seq_no w)).
  { rewrite elem_at_unfold. cbn. by rewrite lookup_insert_eq. }
  split; rewrite ?He'; try done.
  - intros e0. unfold queued in *. cbn. rewrite HQ. destruct (decide (qe_thd e0 = x)) as [->|Hne].
    + rewrite lookup_insert_eq, Hx. split; intros (? & [= <-] & ?); eexists; split_and!; try done; naive_solver.
    + by rewrite lookup_insert_ne.
  - cbn. intros t [= <-]. exists (set_phase w SMALL_WAIT). rewrite lookup_insert_eq. done.
  - intros t wt. cbn. rewrite <-He. intros [[<- <-]|[_ Ht]]%lookup_insert_Some; [cbn; congruence|by eapply HD].
  - intros t wt n. cbn. rewrite <-He. intros [[<- <-]|[_ Ht]]%lookup_insert_Some; [done|by eapply HK].
  - intros e0 Hqe. change (queued s e0) in Hqe. destruct (HR e0 Hqe) as (t & wt & H1 & H2 & H3 & H4).
    destruct (decide (t = x)) as [->|Hne].
    + assert (wt = w) as -> by congruence. exists x, (set_phase w SMALL_WAIT).
      split_and!; [cbn; apply lookup_insert_eq|done..].
    + exists t, wt. split_and!; try done. cbn. by rewrite lookup_insert_ne.
Qed.

(** A thread returns: the record of another thread [y] then, when the task of
    the small wait is passed on ([pass]). *)
Definition promoted (pass : bool) (q : wait_queue) (y : nat) (w : waiter) : waiter :=
  if pass && negb (queue_empty q) && bool_decide (y = qe_thd (queue_top q))
  then set_small w true else w.

Lemma leave_inv s x w s2 w2 :
  winv s -> waiters s !! x = Some w -> active w -> gtid_waiter (elem_at s) <> Some x ->
  wf cmp_queue_elem (he s2) -> with_pos (he s2) = true -> max_at_top (he s2) = 1 ->
  (forall e, queued s2 e <-> queued s e /\ qe_thd e <> x) ->
  slave s2 = slave s -> waiters s2 !! x = Some w2 -> w_phase w2 = RETURNED ->
  (forall y, y <> x -> waiters s2 !! y = promoted (do_small_wait w) (he s2) y <$> waiters s !! y) ->
  winv s2.
Proof.
  intros [Hq Hsh HQ HW HD HK HR] Hx Ha Hgw Hq2 Hwp Hm Hin Hsl Hx2 Hp2 Hy.
  assert (He : elem_at s2 = elem_at s) by (by apply elem_at_slave).
  assert (Hpr : forall b y wy, wait_seq_no (promoted b (he s2) y wy) = wait_seq_no wy /\
    done (promoted b (he s2) y wy) = done wy /\ w_phase (promoted b (he s2) y wy) = w_phase wy /\
    (do_small_wait wy = true -> do_small_wait (promoted b (he s2) y wy) = true)).
  { intros b y wy. unfold promoted. by destruct (_ && _). }
  split; rewrite ?He; try done.
  - intros e. rewrite Hin, HQ. split.
    + intros [(wy & Hwy & Hs & Hac & Hd) Hne]. rewrite Hy, Hwy by done. cbn. eexists. split; [done|].
      destruct (Hpr (do_small_wait w) (qe_thd e) wy) as (-> & -> & E3 & _). unfold active. by rewrite E3.
    + intros (wy & Hwy & Hs & Hac & Hd). destruct (decide (qe_thd e = x)) as [E|Hne].
      { rewrite E, Hx2 in Hwy. injection Hwy as <-. by destruct (Hac Hp2). }
      split; [|done]. rewrite Hy in Hwy by done. destruct (waiters s !! qe_thd e) as [w0|]; [|done].
      injection Hwy as <-. destruct (Hpr (do_small_wait w) (qe_thd e) w0) as (E1 & E2 & E3 & _).
      exists w0. unfold active in *. rewrite <-E1, <-E2, <-E3. done.
  - intros t Ht. destruct (HW t Ht) as (wt & Hwt & Hp & Hs & Hd & Hseq & Hlt).
    assert (t <> x) as Hne by congruence. rewrite Hy, Hwt by done. cbn. eexists. split; [done|].
    destruct (Hpr (do_small_wait w) t wt) as (-> & -> & -> & E4). auto.
  - intros t wt Hwt Hac Hd. destruct (decide (t = x)) as [->|Hne].
    { rewrite Hx2 in Hwt. injection Hwt as <-. by destruct (Hac Hp2). }
    rewrite Hy in Hwt by done. destruct (waiters s !! t) as [w0|] eqn:E0; [|done]. injection Hwt as <-.
    destruct (Hpr (do_small_wait w) t w0) as (E1 & E2 & E3 & _). rewrite E1. rewrite E2 in Hd.
    unfold active in Hac. rewrite E3 in Hac. by eapply HD.
  - intros t wt n Hwt Hph. destruct (decide (t = x)) as [->|Hne]; [congruence|].
    rewrite Hy in Hwt by done. destruct (waiters s !! t) as [w0|] eqn:E0; [|done]. injection Hwt as <-.
    destruct (Hpr (do_small_wait w) t w0) as (_ & _ & E3 & _). rewrite E3 in Hph. by eapply HK.
  - intros e Hqe. destruct (do_small_wait w) eqn:Esm.
    + (* the task is passed to the top of the queue *)
      assert (queue_empty (he s2) = false) as Hne.
      { destruct (queue_empty (he s2)) eqn:E; [|done]. apply queue_empty_contents in E.
        unfold queued in Hqe. rewrite E in Hqe. by apply not_elem_of_nil in Hqe. }
      destruct (queue_top_first (he s2) Hq2 Hm Hne) as [Ht1 Ht2].
      apply Hin in Ht1 as [Ht1 Htx]. apply HQ in Ht1 as (wt & Hwt & Hs & Hac & Hd).
      exists (qe_thd (queue_top (he s2))), (set_small wt true). split_and!; [|done|done|].
      * rewrite Hy, Hwt by done. cbn. unfold promoted. by rewrite Hne, bool_decide_true.
      * right. cbn. rewrite Hs. exact Ht2.
    + apply Hin in Hqe as [Hqe _]. destruct (HR e Hqe) as (t & wt & H1 & H2 & H3 & H4).
      assert (t <> x) as Hne by congruence. exists t, wt. split_and!; [|done|done|].
      * rewrite Hy, H1 by done. cbn. done.
      * destruct H4 as [H4|H4]; [by left|right]. intros e' [He' _]%Hin. by apply H4.
Qed.

Lemma return_lookup s x y :
  waiters (return_from_wait s x) !! y =
  if decide (y = x) then (fun w => set_phase w RETURNED) <$> waiters s !! x else waiters s !! y.
Proof.
  cbn. case_decide as E; [subst y; by rewrite lookup_alter_eq|by rewrite lookup_alter_ne].
Qed.

Lemma promote_lookup (b : bool) s y :
  waiters (if b then promote_new_waiter s else s) !! y = promoted b (he s) y <$> waiters s !! y /\
  he (if b then promote_new_waiter s else s) = he s /\
  slave (if b then promote_new_waiter s else s) = slave s.
Proof.
  unfold promote_new_waiter, promoted. destruct b; cbn; [|by destruct (waiters s !! y)].
  destruct (queue_empty (he s)); cbn; [by destruct (waiters s !! y)|]. split_and!; try done.
  case_bool_decide as E; [subst y; by rewrite lookup_alter_eq|].
  rewrite lookup_alter_ne by done. by destruct (waiters s !! y).
Qed.

(** The queue without an element, when it is still in order. *)
Lemma remove_from_queue_spec s x w :
  winv s -> waiters s !! x = Some w -> active w -> done w = false ->
  let q' := he (remove_from_wait_queue s x w) in
  (forall e, e ∈ contents q' <-> queued s e /\ qe_thd e <> x) /\
  with_pos q' = true /\ max_at_top q' = 1 /\ (heap cmp_queue_elem q' -> wf cmp_queue_elem q').
Proof.
  intros Hinv Hx Ha Hd. assert (Hqx : queued s (mk_qe x (wait_seq_no w))).
  { apply (wi_queued _ _ Hinv). cbn. by exists w. }
  destruct (wi_shape _ _ Hinv) as [Hwp Hm]. assert (Hwf := wi_queue _ _ Hinv).
  unfold remove_from_wait_queue. cbn [he set_queue].
  assert (Hpos : (1 <= pos (he s) (mk_qe x (wait_seq_no w)) <= elements (he s))%nat /\
    root (he s) (pos (he s) (mk_qe x (wait_seq_no w))) = mk_qe x (wait_seq_no w)).
  { apply elem_of_contents in Hqx as (i & Hi & E).
    assert (pos (he s) (mk_qe x (wait_seq_no w)) = i) as ->; [|done].
    rewrite <-E. by apply (wf_pos _ _ Hwf). }
  destruct Hpos as [Hi Hroot]. destruct (queue_remove cmp_queue_elem _ _) as [top q'] eqn:Er. cbn [snd].
  destruct (queue_remove_frame cmp_queue_elem _ _ _ _ Hwf Hi Er)
    as (-> & Hp & Hnd & Hpo & _ & Hmt & Hwp' & _ & _).
  rewrite Hroot in Hp. split_and!; [|congruence|congruence|].
  - intros e. unfold queued. rewrite <-Hp, elem_of_cons. split.
    + intros He. split; [by right|]. intros Hex.
      assert (Hne : mk_qe x (wait_seq_no w) ∉ contents q').
      { assert (NoDup (mk_qe x (wait_seq_no w) :: contents q')) as [? _]%list.NoDup_cons
          by (rewrite Hp; apply Hwf). done. }
      assert (queued s e) as Hq by (unfold queued; rewrite <-Hp; apply elem_of_cons; by right).
      apply (wi_queued _ _ Hinv) in Hq as (w' & Hw' & Hs & _). rewrite Hex, Hx in Hw'.
      injection Hw' as <-. apply Hne. rewrite Hs, <-Hex. by destruct e.
    + intros [[->|He] Hne]; [done|done].
  - intros Hh. split; [unfold wf_top; left; congruence|done..].
Qed.

(** What is left to show of a thread's turn: it comes to an end, and the
    invariant holds if the queue is in order. *)
Definition good (r : option wait_state) : Prop :=
  exists s', r = Some s' /\ (heap cmp_queue_elem (he s') -> winv s').

(** A thread that is out of the queue returns. *)
Lemma return_inv s x w s1 w1 :
  winv s -> waiters s !! x = Some w -> active w -> gtid_waiter (elem_at s) <> Some x ->
  wf cmp_queue_elem (he s1) -> with_pos (he s1) = true -> max_at_top (he s1) = 1 ->
  (forall e, queued s1 e <-> queued s e /\ qe_thd e <> x) ->
  slave s1 = slave s -> waiters s1 !! x = Some w1 ->
  (forall y, y <> x -> waiters s1 !! y = waiters s !! y) ->
  winv (return_from_wait (if do_small_wait w then promote_new_waiter s1 else s1) x).
Proof.
  intros Hinv Hx Ha Hgw Hq Hwp Hm Hin Hsl Hx1 Hy.
  destruct (promote_lookup (do_small_wait w) s1 x) as (Hpx & Hhe & Hsl1).
  rewrite Hx1 in Hpx. cbn in Hpx.
  eapply (leave_inv s x w _ (set_phase (promoted (do_small_wait w) (he s1) x w1) RETURNED));
    try done; unfold queued; cbn [he return_from_wait slave]; rewrite ?Hhe; try done.
  - congruence.
  - rewrite return_lookup, decide_True by done. by rewrite Hpx.
  - intros y Hne. rewrite return_lookup, decide_False by done.
    destruct (promote_lookup (do_small_wait w) s1 y) as (-> & _). by rewrite Hy.
Qed.

Lemma end_of_turn_good again killed s x w :
  winv s -> waiters s !! x = Some w -> active w -> gtid_waiter (elem_at s) <> Some x ->
  (done w = false -> killed = false -> good (again s)) ->
  good (end_of_turn again killed s x).
Proof.
  intros Hinv Hx Ha Hgw Hagain. unfold end_of_turn. rewrite Hx.
  destruct (done w) eqn:Hd.
  - rewrite andb_false_r. cbn [orb]. eexists. split; [done|]. intros _.
    eapply (return_inv s x w s w); try done; try by apply Hinv.
    intros e. split; [|by intros [? _]]. intros Hq. split; [done|]. intros E.
    apply (wi_queued _ _ Hinv) in Hq as (w' & Hw' & _ & _ & Hd'). rewrite E, Hx in Hw'. congruence.
  - rewrite andb_true_r, orb_false_r. destruct (killed || timed_out w) eqn:Hk.
    + destruct (remove_from_queue_spec s x w Hinv Hx Ha Hd) as (H1 & H2 & H3 & H4).
      eexists. split; [done|]. intros Hh.
      assert (Hh' : heap cmp_queue_elem (he (remove_from_wait_queue s x w))).
      { destruct (promote_lookup (do_small_wait w)
          (put (remove_from_wait_queue s x w) x (set_done w)) x) as (_ & E & _).
        cbn [he return_from_wait] in Hh. rewrite E in Hh. exact Hh. }
      eapply (return_inv s x w _ (set_done w)); try done; cbn.
      * by apply H4.
      * apply lookup_insert_eq.
      * intros y Hne. by apply lookup_insert_ne.
    + apply Hagain; [done|]. by destruct killed.
Qed.

Lemma large_turn_good fuel mem killed s x w :
  winv s -> waiters s !! x = Some w -> active w -> gtid_waiter (elem_at s) <> Some x ->
  do_small_wait w = false -> good (wait_loop domain (S fuel) mem killed s x).
Proof.
  intros Hinv Hx Ha Hgw Hs. cbn [wait_loop]. rewrite Hx, Hs. destruct killed.
  - eapply end_of_turn_good; done.
  - eexists. split; [done|]. intros _. apply (put_inv s x w); try done. left. by rewrite Hs.
Qed.

Lemma wait_loop_good mem killed s x w :
  winv s -> waiters s !! x = Some w -> active w -> done w = false ->
  gtid_waiter (elem_at s) <> Some x -> good (wait_loop domain TURNS mem killed s x).
Proof.
  intros Hinv Hx Ha Hd Hgw. destruct (do_small_wait w) eqn:Hs; [|by eapply large_turn_good].
  unfold TURNS. cbn [wait_loop]. rewrite Hx, Hs.
  destruct (get_element mem (slave s) domain) as [[e|] st] eqn:Eg.
  2:{ destruct (remove_from_queue_spec s x w Hinv Hx Ha Hd) as (H1 & H2 & H3 & H4).
      eexists. split; [done|]. intros Hh.
      destruct (promote_lookup true (remove_from_wait_queue s x w) x) as (_ & E & _).
      cbn [he return_from_wait] in Hh. rewrite E in Hh.
      pose proof (return_inv s x w (remove_from_wait_queue s x w) w) as H. rewrite Hs in H.
      apply H; try done. by apply H4. }
  destruct (get_element_inv _ _ _ _ Hinv Eg) as (Hinv1 & He1 & He & Hst).
  set (s1 := set_slave s st) in *. rewrite <-He in *. rewrite Z.geb_leb.
  destruct (Z.leb_spec (wait_seq_no w) (highest_seq_no e)) as [Hle|Hlt].
  - destruct (process_wait_hash_spec (highest_seq_no e) s1 Hinv1) as (Hsl & Hws & _).
    apply (end_of_turn_good _ _ _ _ (processed (highest_seq_no e) w)).
    + apply process_wait_hash_inv; [done|]. rewrite He1. lia.
    + rewrite Hws. cbn. by rewrite Hx.
    + by apply processed_active.
    + rewrite (elem_at_slave domain s1) by done. by rewrite He1.
    + rewrite processed_done, Hd by done. cbn. intros E. apply Z.leb_gt in E. lia.
  - destruct (gtid_waiter e) as [t|] eqn:Et;
      [destruct (Z.leb_spec (min_wait_seq_no e) (wait_seq_no w)) as [Hmin|Hmin]|].
    2: rewrite andb_false_r. 3: rewrite bool_decide_false by (by intros H; apply H); cbn [andb].
    2,3: eexists; split; [done|]; intros _; by eapply (become_small_inv s1).
    rewrite bool_decide_true by done. cbn [andb].
    assert (Hinv2 : winv (put s1 x (set_small w false))).
    { apply (put_inv s1 x w); try done; [by rewrite He1, Et|intros n Hn; by eapply (wi_woken _ _ Hinv1 x w)|].
      right. eapply (small_waiter_takes_over s1 x w t); try done; [by rewrite He1|congruence|by rewrite He1]. }
    destruct (process_wait_hash_spec (highest_seq_no e) _ Hinv2) as (Hsl & Hws & _).
    assert (He2 : elem_at (process_wait_hash (highest_seq_no e) (put s1 x (set_small w false))) = e).
    { rewrite (elem_at_slave domain s1) by done. done. }
    assert (Hx2 : waiters (process_wait_hash (highest_seq_no e) (put s1 x (set_small w false))) !! x
      = Some (set_small w false)).
    { rewrite Hws. cbn. rewrite lookup_insert_eq. cbn. unfold processed. rewrite decide_False; [done|].
      cbn. intros (_ & _ & ?). lia. }
    assert (Hinv3 : winv (process_wait_hash (highest_seq_no e) (put s1 x (set_small w false)))).
    { apply process_wait_hash_inv; [done|]. change (elem_at (put s1 x (set_small w false))) with (elem_at s1).
      rewrite He1. lia. }
    apply (end_of_turn_good _ _ _ _ (set_small w false)); try done; [by rewrite He2, Et|].
    intros _ _. eapply (large_turn_good 0 mem killed); try done. by rewrite He2, Et.
Qed.

(** ** The steps *)

Lemma up_loop_shape fuel : forall (q : wait_queue) start idx e q' idx',
  up_loop cmp_queue_elem fuel q start idx e = (q', idx') ->
  with_pos q' = with_pos q /\ max_at_top q' = max_at_top q.
Proof.
  induction fuel as [|fuel IH]; intros q start idx e q' idx'; cbn [up_loop]; [by intros [= <- <-]|].
  destruct (_ && _); [|by intros [= <- <-]]. intros [-> ->]%IH. done.
Qed.

Lemma queue_insert_shape (q : wait_queue) e :
  with_pos (queue_insert cmp_queue_elem q e) = with_pos q /\
  max_at_top (queue_insert cmp_queue_elem q e) = max_at_top q.
Proof.
  unfold queue_insert. destruct (up_loop _ _ _ _ _ _) as [q' i] eqn:E.
  by apply up_loop_shape in E as [? ?].
Qed.

(** Inserting into a queue, which grows when it is full. *)
Lemma queue_insert_safe_spec mem (q : wait_queue) e r q' :
  wf cmp_queue_elem q -> e ∉ contents q ->
  queue_insert_safe cmp_queue_elem mem q e = (r, q') ->
  if r =? 0 then
    wf cmp_queue_elem q' /\ contents q' ≡ₚ e :: contents q /\
    with_pos q' = with_pos q /\ max_at_top q' = max_at_top q
  else q' = q.
Proof.
  intros Hq He. unfold queue_insert_safe.
  assert (Hins : forall q0 : wait_queue, wf cmp_queue_elem q0 -> contents q0 = contents q ->
    with_pos q0 = with_pos q -> max_at_top q0 = max_at_top q ->
    wf cmp_queue_elem (queue_insert cmp_queue_elem q0 e) /\
    contents (queue_insert cmp_queue_elem q0 e) ≡ₚ e :: contents q /\
    with_pos (queue_insert cmp_queue_elem q0 e) = with_pos q /\
    max_at_top (queue_insert cmp_queue_elem q0 e) = max_at_top q).
  { intros q0 Hq0 Hc Hw Hm. destruct (queue_insert_shape q0 e) as [-> ->].
    destruct (queue_insert_spec cmp_queue_elem q0 e Hq0) as (H1 & H2 & _); [by rewrite Hc|].
    rewrite Hc in H2. done. }
  destruct (Nat.eqb_spec (elements q) (max_elements q)) as [Ef|Ef]; [|intros [= <- <-]; by apply Hins].
  destruct (auto_extent q =? 0)%nat eqn:Ea; [by intros [= <- <-]|]. unfold resize_queue.
  destruct (Nat.eqb_spec (max_elements q) (max_elements q + auto_extent q)) as [Em|Em].
  { apply Nat.eqb_neq in Ea. lia. }
  destruct mem; cbn; [|by intros [= <- <-]]. intros [= <- <-]. cbn.
  set (q0 := mk_QUEUE _ _ _ _ _ _ _).
  assert (Eel : elements q0 = elements q) by (cbn; lia).
  apply Hins; [|unfold contents; by rewrite Eel|done..].
  destruct Hq as [Q1 Q2 Q3 Q4]. split; [done| | |].
  - intros i Hi Hs. apply (Q2 i); [lia|done].
  - unfold contents in *. by rewrite Eel.
  - intros Hw i Hi. apply Q4; [done|lia].
Qed.

(** A new waiter takes the small wait only when nobody waits for less. *)
Lemma new_small_least s seq_no e :
  winv s -> queue_empty (he s) || (qe_wait_seq_no (queue_top (he s)) >? seq_no) = true ->
  queued s e -> seq_no <= qe_wait_seq_no e.
Proof.
  intros Hinv Esm He. assert (Hemp : queue_empty (he s) = false).
  { destruct (queue_empty (he s)) eqn:E; [|done]. apply queue_empty_contents in E.
    unfold queued in He. rewrite E in He. by apply not_elem_of_nil in He. }
  rewrite Hemp in Esm. cbn in Esm. rewrite Z.gtb_lt in Esm.
  destruct (queue_top_first (he s)) as [_ Ht]; [by apply Hinv..|done|].
  specialize (Ht e He). lia.
Qed.

(** With the new waiter in the queue somebody is responsible: it, or who was. *)
Lemma entered_responsible s s1 x seq_no small w :
  winv s -> small = queue_empty (he s) || (qe_wait_seq_no (queue_top (he s)) >? seq_no) ->
  w = mk_waiter seq_no small false false RUNNING ->
  (forall w, waiters s !! x = Some w -> w_phase w = RETURNED) ->
  waiters s1 !! x = Some w -> (forall t, t <> x -> waiters s1 !! t = waiters s !! t) ->
  (forall e, queued s1 e <-> e = mk_qe x seq_no \/ queued s e) ->
  exists t w, responsible s1 t w.
Proof.
  intros Hinv Esm -> Hx Hx1 Hne Hin. destruct small; symmetry in Esm.
  - eexists x, _. split_and!; [exact Hx1|done..|]. right. intros e' [->|He']%Hin; cbn; [lia|].
    by eapply new_small_least.
  - apply orb_false_iff in Esm as [Hemp Hle]. rewrite Z.gtb_ltb in Hle. apply Z.ltb_ge in Hle.
    destruct (queue_top_first (he s)) as [Ht1 _]; [by apply Hinv..|done|].
    destruct (wi_resp _ _ Hinv _ Ht1) as (t & wt & H1 & H2 & H3 & H4).
    assert (t <> x) as Htx by (intros ->; by apply H2, Hx).
    exists t, wt. split_and!; [by rewrite Hne|done..|].
    destruct H4 as [H4|H4]; [by left|right].
    specialize (H4 _ Ht1) as Hmin. intros e' [->|He']%Hin; [cbn; lia|by apply H4].
Qed.

Lemma wait_start_good mem mem' killed s x seq_no :
  winv s -> (forall w, waiters s !! x = Some w -> w_phase w = RETURNED) ->
  good (wait_start domain mem mem' killed s x seq_no).2.
Proof.
  intros Hinv Hx. unfold wait_start, register_in_wait_queue.
  destruct (queue_insert_safe _ _ _ _) as [r q] eqn:Ei.
  assert (Hnq : forall e, queued s e -> qe_thd e <> x).
  { intros e (w & Hw & _ & Ha & _)%(wi_queued _ _ Hinv) <-. by apply Ha, Hx. }
  apply queue_insert_safe_spec in Ei; [|by apply Hinv|intros Hc; by apply (Hnq _ Hc)].
  destruct (r =? 0); cbn [snd].
  2:{ subst q. exists s. split; [by destruct s|done]. }
  destruct Ei as (Hq & Hc & Hw & Hm). set (small := queue_empty (he s) || _).
  set (w := mk_waiter seq_no small false false RUNNING). set (s1 := put _ x w).
  assert (Hgw : gtid_waiter (elem_at s) <> Some x).
  { intros E. destruct (wi_waiter _ _ Hinv x E) as (w' & Hw' & Hp & _).
    rewrite (Hx w' Hw') in Hp. done. }
  assert (Hin : forall e, queued s1 e <-> e = mk_qe x seq_no \/ queued s e).
  { intros e. unfold queued. cbn. by rewrite Hc, elem_of_cons. }
  destruct (wi_shape _ _ Hinv) as [Hwp Hmt].
  assert (Hne : forall t, t <> x -> waiters s1 !! t = waiters s !! t)
    by (intros t Ht; cbn; by apply lookup_insert_ne).
  assert (Hx1 : waiters s1 !! x = Some w) by apply lookup_insert_eq.
  eapply (wait_loop_good _ _ s1 x w); [|done..]. split.
  - done.
  - cbn. split; congruence.
  - intros e. rewrite Hin, (wi_queued _ _ Hinv). split.
    + intros [->|(w' & Hw' & Hs & Ha & Hd)]; [by exists w|]. exists w'. split; [|done].
      rewrite Hne; [done|]. intros E. rewrite E in Hw'. by apply Ha, Hx.
    + intros (w' & Hw' & Hs & Ha & Hd). destruct (decide (qe_thd e = x)) as [E|E].
      * left. rewrite E, Hx1 in Hw'. injection Hw' as <-. cbn in Hs. destruct e; cbn in *. congruence.
      * right. exists w'. by rewrite Hne in Hw'.
  - intros t Ht. destruct (wi_waiter _ _ Hinv t Ht) as (w' & Hw' & Hr). exists w'.
    rewrite Hne; [done|]. intros ->. by apply Hgw.
  - intros t w' Hw' Ha Hd. destruct (decide (t = x)) as [->|E].
    + rewrite Hx1 in Hw'. by injection Hw' as <-.
    + rewrite Hne in Hw' by done. by eapply (wi_done _ _ Hinv).
  - intros t w' n Hw' Hp. destruct (decide (t = x)) as [->|E].
    + rewrite Hx1 in Hw'. by injection Hw' as <-.
    + rewrite Hne in Hw' by done. by eapply (wi_woken _ _ Hinv).
  - intros _ _. by eapply (entered_responsible s s1 x seq_no small w).
Qed.

Lemma small_wake_inv timed s x w e :
  winv s -> waiters s !! x = Some w -> w_phase w = SMALL_WAIT -> hash (slave s) !! domain = Some e ->
  winv (small_wake domain timed s x w e).
Proof.
  intros Hinv Hx Hp He. assert (Ha : active w) by (unfold active; congruence).
  assert (Ee : elem_at s = e) by (rewrite elem_at_unfold; by rewrite He).
  unfold small_wake. set (w1 := set_timed_out w _). set (w2 := set_phase w1 _).
  assert (Hw2 : forall n, w_phase w2 = WOKEN n -> n <= highest_seq_no (elem_at s))
    by (rewrite Ee; cbn; intros n [= <-]; lia).
  assert (Hput : gtid_waiter e <> Some x -> winv (put s x w2)).
  { intros Hg. apply (put_inv s x w); try done; [by rewrite Ee|by left]. }
  destruct (gtid_waiter e) as [t|] eqn:Et; [|by apply Hput].
  destruct (decide (t = x)) as [->|Hne].
  - set (e' := set_waiter e None (min_wait_seq_no e)).
    assert (Ee' : elem_at (set_slave s (set_elem (slave s) domain e')) = e').
    { rewrite elem_at_unfold. cbn. by rewrite lookup_insert_eq. }
    assert (Hinv' : winv (set_slave s (set_elem (slave s) domain e'))).
    { apply slave_inv; [done|rewrite Ee', Ee; cbn; lia|left; by rewrite Ee']. }
    apply (put_inv _ x w); try done; [by rewrite Ee'|rewrite Ee'; cbn; intros n [= <-]; lia|by left].
  - destruct (Z.leb_spec (min_wait_seq_no e) (wait_seq_no w1)) as [Hle|_]; [|apply Hput; congruence].
    apply (put_inv s x w); try done; [rewrite Ee; congruence|].
    right. apply (small_waiter_takes_over s x w t); try done; by rewrite Ee.
Qed.

Lemma waiter_not_small s x w :
  winv s -> waiters s !! x = Some w -> w_phase w <> SMALL_WAIT -> gtid_waiter (elem_at s) <> Some x.
Proof.
  intros Hinv Hx Hp E. destruct (wi_waiter _ _ Hinv x E) as (w' & Hw' & Hp' & _). congruence.
Qed.

Lemma resume_good mem killed s x w n :
  winv s -> waiters s !! x = Some w -> w_phase w = WOKEN n ->
  good (end_of_turn (fun s => wait_loop domain TURNS mem killed s x) killed (process_wait_hash n s) x).
Proof.
  intros Hinv Hx Hp. assert (Hn := wi_woken _ _ Hinv x w n Hx Hp).
  destruct (process_wait_hash_spec n s Hinv) as (Hsl & Hws & _).
  assert (Hinv' := process_wait_hash_inv n s Hinv Hn).
  assert (Hx' : waiters (process_wait_hash n s) !! x = Some (processed n w)) by (by rewrite Hws, Hx).
  assert (Hgw : gtid_waiter (elem_at (process_wait_hash n s)) <> Some x).
  { apply (waiter_not_small _ _ (processed n w)); [done..|]. rewrite processed_phase. congruence. }
  assert (Ha : active (processed n w)) by (apply processed_active; unfold active; congruence).
  eapply end_of_turn_good; try done. intros Hd _. by eapply wait_loop_good.
Qed.

Lemma large_wake_good mem killed timed s x w :
  winv s -> waiters s !! x = Some w -> w_phase w = LARGE_WAIT ->
  good (large_wake domain mem killed timed s x w).
Proof.
  intros Hinv Hx Hp. assert (Hgw : gtid_waiter (elem_at s) <> Some x)
    by (apply (waiter_not_small _ _ w); congruence).
  assert (Ha : active w) by (unfold active; congruence).
  unfold large_wake. set (w1 := set_timed_out w _).
  assert (Hinv1 : winv (put s x w1)).
  { apply (put_inv s x w); try done; [cbn; congruence|by left]. }
  assert (Hx1 : waiters (put s x w1) !! x = Some w1) by apply lookup_insert_eq.
  destruct (_ || killed); [|by exists (put s x w1)]. eapply end_of_turn_good; try done.
  intros Hd _. by eapply wait_loop_good.
Qed.

Lemma update_inv mem mem' s d server sub seq rgi ok st rgi' :
  winv s -> update mem mem' (slave s) d server sub seq rgi = (ok, st, rgi') -> winv (set_slave s st).
Proof.
  intros Hinv [H1 H2]%update_waiters.
  assert (Hw : forall t, gtid_waiter (elem_at s) = Some t ->
    highest_seq_no (elem_at s) < min_wait_seq_no (elem_at s)).
  { intros t Ht. by destruct (wi_waiter _ _ Hinv t Ht) as (w & _ & _ & _ & _ & _ & Hlt). }
  assert (Hsame : elem_at (set_slave s st) = elem_at s -> winv (set_slave s st)).
  { intros E. apply slave_inv; [done|rewrite E; lia|]. rewrite E.
    destruct (gtid_waiter (elem_at s)) as [t|] eqn:Et; [right|by left]. eauto. }
  destruct (decide (d = domain)) as [->|Hne].
  2:{ apply Hsame. rewrite !elem_at_unfold. cbn. by rewrite H1. }
  destruct H2 as [H2|(H2 & H3 & H4)]; [apply Hsame; rewrite !elem_at_unfold; cbn; by rewrite H2|].
  change (elem_or_new st domain) with (elem_at (set_slave s st)) in *.
  change (elem_or_new (slave s) domain) with (elem_at s) in *.
  apply slave_inv; [done|lia|]. rewrite H4, H3, H2.
  destruct (gtid_waiter (elem_at s)) as [t|] eqn:Et; [|by left].
  destruct (Z.leb_spec (min_wait_seq_no (elem_at s)) seq); [by left|right].
  specialize (Hw t eq_refl). split_and!; [done..|lia].
Qed.

Lemma ordered_step_inv s s' : winv s -> ordered_step domain s s' -> winv s'.
Proof.
  intros Hinv [Hs Hh].
  assert (Hg : forall r, good r -> r = Some s' -> winv s') by (intros r (s1 & -> & Hg) [= ->]; auto).
  destruct Hs as [mem mem' killed s x seq_no ok s' _ Hx E|timed aborted s x w e Hx Hp He _
    |mem killed s x w n s' Hx Hp E|mem killed timed s x w s' Hx Hp E|mem mem' s d srv sub n rgi ok st rgi' E].
  - eapply Hg; [by apply (wait_start_good mem mem' killed s x seq_no)|]. by rewrite E.
  - by apply small_wake_inv.
  - eapply Hg; [|exact E]. by eapply resume_good.
  - eapply Hg; [|exact E]. by eapply large_wake_good.
  - by eapply update_inv.
Qed.

Lemma winv_init s : wait_init domain s -> winv s.
Proof.
  intros (Hq & Hw & Hg).
  assert (Hgw : gtid_waiter (elem_at s) = None).
  { rewrite elem_at_unfold. destruct (hash (slave s) !! domain) as [e|] eqn:E; [|done]. by apply Hg. }
  assert (Hnq : forall e, ~ queued s e) by (intros e; unfold queued; rewrite Hq; apply not_elem_of_nil).
  split; rewrite ?Hw, ?Hgw; try done.
  - rewrite Hq. split; [by left|intros i Hi; cbn in Hi; lia|apply NoDup_nil_2|intros _ i Hi; cbn in Hi; lia].
  - rewrite Hq. done.
  - intros e. split; [by intros ?%Hnq|]. intros (w & Hx & _). by rewrite lookup_empty in Hx.
  - intros e He. by destruct (Hnq e).
Qed.

Lemma ordered_steps_inv s s' :
  winv s -> rtc (ordered_step domain) s s' -> winv s'.
Proof. intros H Hs. induction Hs as [|s1 s2 s3 Hs _ IH]; [done|]. apply IH. by eapply ordered_step_inv. Qed.
End Invariant.

(** ** No waiter is forgotten *)

(** The thread's wait is over, or will be at its next look. *)
Definition runnable (domain : Z) (s : wait_state) (t : nat) : Prop :=
  exists w, waiters s !! t = Some w /\
  match w_phase w with
  | SMALL_WAIT => gtid_waiter (elem_at domain s) <> Some t
  | LARGE_WAIT => do_small_wait w = true \/ done w = true
  | RUNNING | WOKEN _ => True
  | RETURNED => False
  end.

(** C2: No lost wakeups in MASTER_GTID_WAIT.  In every state that any number of
    waiting threads and replication threads can reach, with timeouts, kills and
    failing allocations, a waiter whose position has been reached means that
    some thread can run: when all threads are blocked, every waiter waits for
    a sequence number that the slave has not reached.  (As long as the wait
    queue is in heap order, which a timeout or kill can break: see
    [wakeup_missed].) *)
Theorem no_lost_wakeup (domain : Z) (s0 s : wait_state) t w :
  wait_init domain s0 -> rtc (ordered_step domain) s0 s ->
  (forall x, ~ runnable domain s x) ->
  waiters s !! t = Some w -> w_phase w <> RETURNED ->
  highest_seq_no (elem_at domain s) < wait_seq_no w.
Proof.
  intros H0 Hs Hb Hw Ha. assert (Hinv := ordered_steps_inv _ _ _ (winv_init _ _ H0) Hs).
  assert (Hblk : forall x wx, waiters s !! x = Some wx -> w_phase wx <> RETURNED ->
    gtid_waiter (elem_at domain s) = Some x \/ do_small_wait wx = false /\ done wx = false).
  { intros x wx Hx Hp. assert (Hn := Hb x). unfold runnable in Hn.
    destruct (decide (gtid_waiter (elem_at domain s) = Some x)) as [?|Hg]; [by left|right].
    destruct (w_phase wx) eqn:Ep; [|..|done]; try by (destruct Hn; exists wx; rewrite Ep).
    destruct (do_small_wait wx) eqn:E1; [destruct Hn; exists wx; rewrite Ep; auto|].
    destruct (done wx) eqn:E2; [destruct Hn; exists wx; rewrite Ep; auto|done]. }
  assert (Hd : done w = false).
  { destruct (Hblk t w Hw Ha) as [Hg|[_ Hd]]; [|done].
    destruct (wi_waiter _ _ Hinv t Hg) as (w' & Hw' & _ & _ & Hd & _). congruence. }
  assert (Hq : queued s (mk_qe t (wait_seq_no w))).
  { apply (wi_queued _ _ Hinv). cbn. by exists w. }
  destruct (wi_resp _ _ Hinv _ Hq) as (r & wr & H1 & H2 & H3 & H4).
  destruct (Hblk r wr H1 H2) as [Hg|[Hx _]]; [|congruence].
  destruct (wi_waiter _ _ Hinv r Hg) as (w' & Hw' & _ & _ & Hd' & Hs' & Hlt).
  assert (w' = wr) as -> by congruence. destruct H4 as [H4|H4]; [congruence|].
  specialize (H4 _ Hq). cbn in H4. lia.
Qed.

(** C33: As long as the queue of the waiting threads is in heap order after
    every step, a thread in MASTER_GTID_WAIT does not spin with
    LOCK_gtid_waiting held: at entry, after the small wait and after the large
    wait it goes round its loop at most twice before it waits again or returns.
    (The order can be lost by a removal from the middle of the queue; then a
    thread may go round for ever, see [wait_loop_spins] and
    [wakeup_missed].) *)
Theorem wait_turn_ends (domain : Z) (s0 s : wait_state) mem mem' killed timed x :
  wait_init domain s0 -> rtc (ordered_step domain) s0 s ->
  (forall seq_no, (forall w, waiters s !! x = Some w -> w_phase w = RETURNED) ->
     is_Some (wait_start domain mem mem' killed s x seq_no).2) /\
  (forall w n, waiters s !! x = Some w -> w_phase w = WOKEN n ->
     is_Some (end_of_turn (fun s => wait_loop domain TURNS mem killed s x) killed
                (process_wait_hash n s) x)) /\
  (forall w, waiters s !! x = Some w -> w_phase w = LARGE_WAIT ->
     is_Some (large_wake domain mem killed timed s x w)).
Proof.
  intros H0 Hs. assert (Hinv := ordered_steps_inv _ _ _ (winv_init _ _ H0) Hs).
  assert (Hg : forall r, good domain r -> is_Some r) by (intros r (s' & -> & _); eauto).
  split_and!; intros; apply Hg.
  - by apply wait_start_good.
  - by eapply resume_good.
  - by eapply large_wake_good.
Qed.

(** ** When the queue is out of order *)

(** A thread whose position is reached but which is not found by
    [process_wait_hash], because the top of the queue waits for a later one,
    goes round for ever. *)
Lemma wait_loop_spins domain mem fuel : forall s x w,
  waiters s !! x = Some w -> do_small_wait w = true -> done w = false -> timed_out w = false ->
  hash (slave s) !! domain <> None -> wait_seq_no w <= highest_seq_no (elem_at domain s) ->
  queue_empty (he s) = false ->
  highest_seq_no (elem_at domain s) < qe_wait_seq_no (queue_top (he s)) ->
  wait_loop domain fuel mem false s x = None.
Proof.
  induction fuel as [|fuel IH]; intros s x w Hx Hs Hd Ht He Hle Hq Hlt; [done|].
  cbn [wait_loop]. rewrite Hx, Hs. unfold get_element.
  destruct (hash (slave s) !! domain) as [e|] eqn:Ee; [|done].
  assert (elem_at domain s = e) as Ea by (rewrite elem_at_unfold; by rewrite Ee). rewrite Ea in *.
  rewrite Z.geb_leb. destruct (Z.leb_spec (wait_seq_no w) (highest_seq_no e)); [|lia].
  assert (process_wait_hash (highest_seq_no e) (set_slave s (slave s)) = s) as ->.
  { unfold process_wait_hash. cbn [he set_slave process_loop]. rewrite Hq, Z.gtb_ltb.
    destruct (Z.ltb_spec (highest_seq_no e) (qe_wait_seq_no (queue_top (he s)))); [|lia].
    by destruct s. }
  unfold end_of_turn. rewrite Hx, Hd, Ht. cbn. apply (IH s x w); try done; rewrite ?Ea, ?Ee; done.
Qed.

(** ** Running the system *)

Inductive action :=
| Start (x : nat) (seq_no : Z)
| SmallWake (x : nat) (timed : bool)
| Resume (x : nat)
| LargeWake (x : nat) (timed : bool)
| Update (seq_no : Z).

(** What the action leads to with allocations that succeed and no kills. *)
Definition run_action (domain : Z) (s : wait_state) (a : action) : option wait_state :=
  match a with
  | Start x seq_no =>
      match waiters s !! x with
      | None => if decide (is_u64 seq_no) then (wait_start domain true true false s x seq_no).2 else None
      | Some _ => None
      end
  | SmallWake x timed =>
      match waiters s !! x, hash (slave s) !! domain with
      | Some w, Some e =>
          if decide (w_phase w = SMALL_WAIT /\ (gtid_waiter e <> Some x \/ timed = true))
          then Some (small_wake domain (timed && timed) s x w e) else None
      | _, _ => None
      end
  | Resume x =>
      match waiters s !! x with
      | Some (mk_waiter _ _ _ _ (WOKEN n)) =>
          end_of_turn (fun s => wait_loop domain TURNS true false s x) false (process_wait_hash n s) x
      | _ => None
      end
  | LargeWake x timed =>
      match waiters s !! x with
      | Some w => if decide (w_phase w = LARGE_WAIT) then large_wake domain true false timed s x w else None
      | None => None
      end
  | Update seq_no => Some (set_slave s (update true true (slave s) domain 1 1 seq_no None).1.2)
  end.

#[local] Instance is_u64_dec n : Decision (is_u64 n).
Proof. unfold is_u64. apply _. Defined.

Lemma run_action_step domain s a s' : run_action domain s a = Some s' -> wait_step domain s s'.
Proof.
  destruct a as [x n|x timed|x|x timed|n]; cbn.
  - destruct (waiters s !! x) as [w|] eqn:Ex; [done|]. destruct (decide (is_u64 n)); [|done]. intros E.
    eapply (step_start domain true true false s x n (wait_start domain true true false s x n).1); [done|congruence|].
    rewrite (surjective_pairing (wait_start domain true true false s x n)) at 1. by rewrite E.
  - destruct (waiters s !! x) as [w|] eqn:Ex; [|done]. destruct (hash (slave s) !! domain) as [e|] eqn:Ee; [|done].
    destruct (decide _) as [[Hp Hor]|]; [|done]. intros [= <-]. by apply step_small.
  - destruct (waiters s !! x) as [[sq sm dn ti [| |m| |]]|] eqn:Ex; try done. intros E.
    by eapply (step_resume domain true false s x _ m).
  - destruct (waiters s !! x) as [w|] eqn:Ex; [|done]. destruct (decide _); [|done]. intros E.
    by eapply step_large.
  - intros [= <-]. destruct (update _ _ _ _ _ _ _ _) as [[ok st] r] eqn:E. cbn. by eapply step_update.
Qed.

Fixpoint run (domain : Z) (s : wait_state) (l : list action) : option wait_state :=
  match l with
  | [] => Some s
  | a :: l => match run_action domain s a with Some s' => run domain s' l | None => None end
  end.

Lemma run_steps domain l : forall s s', run domain s l = Some s' -> rtc (wait_step domain) s s'.
Proof.
  induction l as [|a l IH]; intros s s'; cbn; [by intros [= ->]|].
  destruct (run_action domain s a) as [s1|] eqn:E; [|done]. intros H.
  eapply rtc_l; [by apply (run_action_step _ _ a)|by apply IH].
Qed.

(** The heap order, decided. *)
Definition heap_b (q : wait_queue) : bool :=
  forallb (fun i => cmp cmp_queue_elem q (root q (i / 2)) (root q i) <=? 0) (seq 2 (elements q - 1)).

Lemma heap_b_heap q : heap_b q = true -> heap cmp_queue_elem q.
Proof.
  unfold heap_b. rewrite forallb_forall. intros H i Hi _. apply Z.leb_le, H. apply in_seq. lia.
Qed.

Fixpoint run_ordered (domain : Z) (s : wait_state) (l : list action) : option wait_state :=
  match l with
  | [] => Some s
  | a :: l =>
      match run_action domain s a with
      | Some s' => if heap_b (he s') then run_ordered domain s' l else None
      | None => None
      end
  end.

Lemma run_ordered_steps domain l : forall s s',
  run_ordered domain s l = Some s' -> rtc (ordered_step domain) s s'.
Proof.
  induction l as [|a l IH]; intros s s'; cbn; [by intros [= ->]|].
  destruct (run_action domain s a) as [s1|] eqn:E; [|done]. destruct (heap_b (he s1)) eqn:Eh; [|done].
  intros H. eapply rtc_l; [|by apply IH]. split; [by apply (run_action_step _ _ a)|by apply heap_b_heap].
Qed.

Definition runnable_b (domain : Z) (s : wait_state) (t : nat) (w : waiter) : bool :=
  match w_phase w with
  | SMALL_WAIT => bool_decide (gtid_waiter (elem_at domain s) <> Some t)
  | LARGE_WAIT => do_small_wait w || done w
  | RUNNING | WOKEN _ => true
  | RETURNED => false
  end.

Definition all_blocked (domain : Z) (s : wait_state) : bool :=
  forallb (fun tw => negb (runnable_b domain s tw.1 tw.2)) (map_to_list (waiters s)).

Lemma all_blocked_spec domain s : all_blocked domain s = true -> forall t, ~ runnable domain s t.
Proof.
  unfold all_blocked. rewrite forallb_forall. intros H t (w & Hw & Hr).
  specialize (H (t, w)). cbn in H. rewrite <-list_elem_of_In, elem_of_map_to_list in H.
  specialize (H Hw). unfold runnable_b in H. destruct (w_phase w); try done.
  - by rewrite bool_decide_true in H.
  - apply negb_true_iff, orb_false_iff in H as [H1 H2]. destruct Hr; congruence.
Qed.

Module Examples.

Definition start : wait_state := mk_ws new_entry ∅ (mk_slave_state ∅ 0 true).

Lemma start_init : wait_init 0 start.
Proof. split_and!; [done..|]. intros e. cbn. by rewrite lookup_empty. Qed.

(** Clients wait for 5 and for 3; the slave gets to 3, which wakes the second
    one, and the first one takes over the small wait. *)
Definition calm : list action :=
  [Start 1 5; Start 2 3; SmallWake 1 false; Resume 1; Update 3; SmallWake 2 false; Resume 2;
   LargeWake 1 false].
Definition calm_end : wait_state := default start (run_ordered 0 start calm).

Lemma calm_steps : rtc (ordered_step 0) start calm_end.
Proof.
  apply (run_ordered_steps 0 calm). unfold calm_end.
  destruct (run_ordered 0 start calm) eqn:E; [done|]. exfalso. vm_compute in E. discriminate.
Qed.

Lemma no_lost_wakeup_witness :
  highest_seq_no (elem_at 0 calm_end) < wait_seq_no (mk_waiter 5 true false false SMALL_WAIT).
Proof.
  apply (no_lost_wakeup 0 start calm_end 1 (mk_waiter 5 true false false SMALL_WAIT) start_init calm_steps).
  - apply all_blocked_spec. vm_compute. reflexivity.
  - vm_compute. reflexivity.
  - discriminate.
Defined.

Lemma wait_turn_ends_witness : is_Some (wait_start 0 true true false calm_end 3 4).2.
Proof.
  apply (wait_turn_ends 0 start calm_end true true false false 3 start_init calm_steps).
  intros w Hw. vm_compute in Hw. discriminate.
Defined.

(** Seven clients wait for 1, 10, 2, 11, 12, 4 and 3.  The one that waits for 11
    times out, and the queue gets out of order.  Then the slave reaches 3: the
    clients for 1 and 2 return, and the one for 3 stays blocked with all
    others. *)
Definition timeout : list action :=
  [Start 1 1; Start 2 10; Start 3 2; Start 4 11; Start 5 12; Start 6 4; Start 7 3;
   LargeWake 4 true; Update 3; SmallWake 1 false; Resume 1; LargeWake 3 false; LargeWake 6 false].

Lemma wakeup_missed :
  match run 0 start timeout with
  | Some s =>
      rtc (wait_step 0) start s /\ all_blocked 0 s = true /\
      waiters s !! 7%nat = Some (mk_waiter 3 false false false LARGE_WAIT) /\
      highest_seq_no (elem_at 0 s) = 3
  | None => False
  end.
Proof.
  destruct (run 0 start timeout) as [s|] eqn:E; [|exfalso; vm_compute in E; discriminate].
  split; [by eapply run_steps|].
  assert (Hs : s = default start (run 0 start timeout)) by (by rewrite E). clear E. subst s.
  vm_compute. split_and!; reflexivity.
Qed.

End Examples.
